(* ===== verification/_CoqProject ===== *)
-Q . S2P
Prelude.v
GoString.v
Utf8.v
KeyReader.v
GoText.v
GoFloat.v
FloatBounds.v
GoFormat.v
WideBreaks.v
ChildEnv.v
Plans.v
Tokens.v
Canonical.v
Signing.v
Trim.v
Compress.v
Breaker.v
TailRing.v
ModelKey.v
Admission.v
WarmCache.v
Prefetch.v
Sticky.v
RouteErrors.v
Request.v
ProgressiveText.v
RoutePlan.v
RunBudget.v
ContextSets.v
Compactor.v
ContextManager.v
MixedAlloc.v
MixedAssemble.v
FenceKeys.v
Dispatch.v
Interception.v
Orchestrator.v
RouterScore.v
Router.v
Feedback.v
Think.v
Progressive.v
ProgressiveLedger.v
ProgressiveRun.v
ProgressiveOutput.v
ProgressiveHeaders.v
RetrieveTool.v
RetrieveFacts.v
Chunking.v
ChunkFacts.v
Indexing.v
IndexFacts.v
Completion.v
CompletionRun.v
CompletionFacts.v
Transcript.v
