(* ===== verification/Prelude.v ===== *)
(** * go-llm: routing, the agent loop, context assembly and signed plans

    go-llm is a Go library and a set of programs around it: it routes requests
    to several language-model backends, runs agents with tools on top of them,
    fits what they see into token budgets, and signs and checks the plans of
    delegated work.  This development models those parts.  Sources are named
    relative to src/.

    ** The program's parts and where they are modelled

    Routing (provider/):
    - circuit_breaker.go: [Breaker].  One function per method; the mutex makes a
      method one step, so runs are sequences of labelled steps ([cb_run]).
    - admission.go: [Admission].  The slot gates as a step relation over any
      number of goroutines, with the critical section, the parking on the gate's
      channel and the context and close signals as separate steps.
    - router_sticky.go: [Sticky].  The affinity cache; Go's free choice of a map
      iteration order is an argument of the eviction.
    - router_errors.go, route_errors.go: [RouteErrors].  Go errors as trees,
      [errors.Is] and [errors.As] over them, and two classifications.
    - routing_request.go, types.go, model_profile.go, token_budget.go:
      [ModelKey], [Request].  Requests, capabilities, profiles, the sticky key
      and the budget verdict.
    - router_score.go: [RouterScore].  Signals, weights and ranking over binary64
      scores.  router.go, router_chain.go: [Router].  [Route] and [routeChain]:
      gates, feedback snapshot, affinity, plan construction, errors.
    - route_plan.go: [RoutePlan].  The five Execute methods: the walk over the
      fallbacks, permits, destination checks, streaming callbacks, signals.
    - routing_feedback.go, routing_feedback_memory.go: [Feedback].  The store as
      an interface, the in-memory one as its implementation.
    - think.go, think_extract.go: [Think].  The streaming parser as a
      state-and-error monad whose state holds the trace of callback calls.

    The agent loop (agent/):
    - orchestrator.go, history.go: [Orchestrator].  The loop of a run.
    - dispatch.go, dispatch_parallel.go, tool.go, verify.go: [Dispatch].  Serial
      and parallel batches of tool calls, approval, budgets, observers.
    - interceptor.go: [Interception].  The pipeline and its findings.
    - fencekeys.go, internal/promptfence: [FenceKeys].  The keys of prompt
      fences and their rotation; [KeyReader] says who may read a key in a text.
    - run_budget.go: [RunBudget].  The tree of allowances of nested runs.
    - compactor.go, types.go: [Compactor]; context_manager.go, pressure.go:
      [ContextManager]; overflow arithmetic: [Tokens].
    - context_set.go, contextdepth: [ContextSets]; mixed_alloc.go: [MixedAlloc];
      mixed_subjects.go, mixed_assemble.go: [MixedAssemble].
    - agent/tools/background_buffer.go: [TailRing].

    Conversations (conversation/): trim.go is [Trim], compress.go [Compress].
    transcript/ (canonical.go, identity.go, stitch.go, store.go) is [Transcript]:
    what a recorded call does to the rows of raw calls and conversations.

    Plans and signatures: agentflow/plan.go, scope.go, compiler.go are [Plans],
    agentflow/runner_env.go [ChildEnv]; signing/canonical.go is [Canonical],
    the signers, verifiers and keyrings of signing/ are [Signing].

    Retrieval (rag/, prefetch/): prefetch/cache.go is [WarmCache],
    prefetch/engine.go [Prefetch].  The progressive render of what was
    retrieved is [ProgressiveText] (the blocks: progressive_render.go,
    summary_validity.go), [Progressive] (the allocator: progressive_alloc.go)
    and [ProgressiveRun] (preparation, assembly, trace and projection:
    progressive_execute.go, progressive_groups.go); its theorems are in
    [ProgressiveLedger], [ProgressiveOutput] and [ProgressiveHeaders].  The tool
    that serves it to agents (agent/tools/retrieve.go) and the flat rendering of
    rag/retriever.go are [RetrieveTool], with [RetrieveFacts].  How the corpus
    gets there: chunker.go, stable_key.go and chunk_diff.go are [Chunking], with
    [ChunkFacts]; indexer.go, incremental.go and indexer_incremental.go are
    [Indexing], with [IndexFacts].

    Completion (completion/): cursor.go, budget.go, context.go, config.go are
    [Completion]; inline.go and generator.go are [CompletionRun]; the theorems
    are in [CompletionFacts].

    What they lean on: [Prelude] (64-bit integers with their wrap-around,
    bounded duration arithmetic, sums and counts), [GoString], [GoText],
    [GoFormat], [Utf8] (strings, paths, quoting, time stamps and UTF-8 as the
    standard library has them), [WideBreaks] (line breaks of several bytes),
    [GoFloat] and [FloatBounds] (float64 on
    SpecFloat and how rounding keeps bounds).

    ** How they interact

    [Router.Route] scores every candidate: it asks [Request.Validate] for the
    budget and [RouterScore.scoreCandidate] for the signals, which asks the
    provider's [Breaker.Allow] and the [Feedback] snapshot, and ranks the
    survivors; [Sticky] says which model the session was on.  The answer is a
    [RoutePlan.RoutePlan].  Executing it acquires permits ([Admission]) and
    reports back to the router, which moves the breakers and drops sticky
    entries; [Feedback.RecordOutcome] records the attempts.

    [Orchestrator.runStep] assembles the prompt ([ContextManager], over
    [Compactor]), reserves its cost, asks the model, lets the interceptors
    ([Interception]) see the answer, and dispatches its tool calls ([Dispatch],
    which charges allowances like those of [RunBudget]).  [MixedAssemble] is the
    other assembly, for results that carry alternatives ([ContextSets]), such as
    those [ProgressiveRun] projects and [RetrieveTool] bridges; it divides the
    budget with [MixedAlloc].  [Indexing] cuts with a chunker such as that of
    [Chunking] and is proved against the promises of a store ([Lawful]), which a
    store in memory discharges.  [Prefetch] is proved against the interface
    [TTLCache] with its laws, which [WarmCache] discharges; [Signing] frames what
    [Canonical] writes.

    ** What the theorems show

    - Routing: a plan's winner and fallbacks passed the gates
      ([route_plan_admissible]); preferred chains keep their order and miss
      nothing viable ([chain_order]); affinity with hysteresis
      ([route_affinity]); a probe granted by scoring and never reported back
      shuts its provider out, as long as no chained lookup of that provider fails
      with an infrastructure error ([halfopen_shuts_out]).
    - Execution: the fallback walk, its permits and its reports are those of a
      reference ([execute_walk]); a
      stream reaches the caller from one candidate only
      ([stream_single_source]); permits are bracketed ([permits_bracketed]).
    - Breaker: one probe at a time.  Admission: permits bounded and counted, no
      lost wake-up.  Sticky and warm cache: bounded, least recently used first,
      refinement of an association list.  Feedback: the store refines an
      append-only log ([store_refines_log]), outcomes are recorded exactly
      ([outcome_recorded]) and scores stay in [0,1] whatever the rounding
      ([score_bounded]).  Ring: the newest bytes and no silent gap.
    - Thinking: with well-shaped tags, no budget and callbacks that do not fail,
      what they are told does not depend on how the response is cut, except for
      the one decision of an undecided parser ([think_chunking]).
    - Agent loop: the published transcript pairs calls with results and the
      history of a run follows a protocol automaton ([run_transcript_paired],
      [run_protocol]); no tool runs unannounced or unapproved
      ([dispatch_gated]), batches leave one observation per call
      ([batch_transcript]) and the parallel path matches the serial one when
      nobody but a tool fails ([parallel_matches_serial]); fence keys cannot be read in the run's text
      ([fence_keys_hidden]); a block of protected text scrubs it
      ([sensitive_block_scrubs]); nested allowances add up ([budget_accounts]).
    - Assembly: compaction drops the least it can ([compact_drops_least]) and is
      refused only when what must stay does not fit ([assemble_fits]); mixed
      allocation ends with an exact ledger ([allocation_exact],
      [allocation_decided]) and mixed assembly keeps the transcript
      ([mixed_assembly_exact], [mixed_assembly_transcript]).
    - Progressive rendering: ceilings kept and the trace balanced
      ([render_within_budget]), no pin lost ([pins_rendered]), no forged header
      ([headers_unforgeable]).
    - Retrieval: what the tool credits is what its output shows
      ([retrieve_credits_rendered]) and its carriers pass the checks of
      [ContextSets] ([carriers_accepted]); the chunks cover a file
      ([windows_cover]) and incremental indexing leaves what full indexing does
      ([incremental_matches_full]).
    - Transcripts: recording a call loses no stored message and files the call
      or says why not ([record_keeps]); a grown fork sent again is not filed
      ([fork_sent_again]).
    - Completion: the planned tokens fit the model's context
      ([plan_fits_context]); what the stream's consumer receives is what the
      blocking call returns when the payload ends in at most one stop token
      ([stream_matches_complete]; with more, the stream strips one per flush and
      the blocking call all).
    - Plans: a plan without diagnostics is confined ([checked_plan_safe]) and
      acyclic ([dependency_cycles]); a child's environment holds what was
      approved ([child_env_confined]).  Signing: canonical text reads back to
      its document ([canonical_identifies]) or is refused for a reason
      ([canonicalize_verdict]); a signature binds domain, key and payload
      ([hmac_signature_binds]).

    ** Bounds and fuel

    Loops recurse on the list they range over.  Where they do not, the fuel is
    a length or a count that each round lowers, and a lemma says it is enough:
    the skipping loops of [Think], path cleaning and white-space trimming (the
    length of the text), the eviction loop of [WarmCache] (its list), the
    depth-first search of [Plans] (the steps), upgrades and retries in
    [MixedAlloc] (the alternatives left), the trim of [ProgressiveRun] (its
    blocks, [assemble_total]), stop-token stripping of [CompletionRun] (the
    length of the text), the run loop (its step limit).  Integers are
    64-bit where the source computes ([wrap_int], [Sub]); times are
    nanoseconds, with 0 as the zero time.  Scores are binary64 with rounding
    to nearest even.

    ** What is a parameter

    Code outside the modelled files is an argument: clock readings, map
    iteration orders, providers and models (functions from requests to answers,
    or interactions for streams), the registry's profiles, tools, interceptors,
    approvers and observers (which answer from the history of what they were
    asked), token estimators, summarizers, contexts, the store's batch reads
    and replacements, the embedder, the cryptographic primitives, and Unicode
    tables beyond those in [GoText] and [GoFormat].

    ** Not modelled

    Log lines, telemetry and rendered reasons are left out.  What is left is
    input and output or waits on it: provider clients and wire decoding, the
    model registry, SQL stores (conversations, vectors, memory, persistent
    feedback), the chunkers and extractors driven by regular expressions,
    directory walks, file, shell and search tools, configuration files, the
    protocol servers, benchmarks and the command-line programs. *)

From Stdlib Require Export ZArith Lia.
From Stdlib Require Import Strings.Byte.
From Stdlib Require Strings.String.
From stdpp Require Export prelude gmap strings list fin_maps sorting relations.

#[global] Open Scope Z_scope.

(** ** Machine integers

    Go's [int], [int64] and [time.Duration] are 64-bit two's complement and
    [uint64] is 64-bit unsigned.  Values are mathematical integers; every
    operation of the source that can leave the range is written with its
    wrap-around. *)

Definition MaxInt : Z := 2 ^ 63 - 1.
Definition MinInt : Z := - 2 ^ 63.
Definition in_int (z : Z) : Prop := MinInt <= z <= MaxInt.
Definition wrap_int (z : Z) : Z := (z + 2 ^ 63) mod 2 ^ 64 - 2 ^ 63.
Definition wrap_uint64 (z : Z) : Z := z mod 2 ^ 64.

Declare Scope go_scope.
Delimit Scope go_scope with go.
Infix "+i" := (fun a b => wrap_int (a + b)) (at level 50, left associativity) : go_scope.
Infix "-i" := (fun a b => wrap_int (a - b)) (at level 50, left associativity) : go_scope.

#[export] Instance in_int_dec z : Decision (in_int z).
Proof. unfold in_int. apply _. Defined.

Lemma wrap_int_id z : in_int z -> wrap_int z = z.
Proof.
  unfold in_int, wrap_int, MinInt, MaxInt. intros H.
  rewrite Z.mod_small; lia.
Qed.

Lemma wrap_int_same x y : in_int x -> y = x -> x = wrap_int y.
Proof. intros ? ->. by rewrite wrap_int_id. Qed.

Lemma wrap_int_range z : in_int (wrap_int z).
Proof.
  unfold in_int, wrap_int, MinInt, MaxInt.
  pose proof (Z.mod_pos_bound (z + 2 ^ 63) (2 ^ 64) ltac:(lia)). lia.
Qed.

Lemma wrap_int_add_l a b : wrap_int (wrap_int a + b) = wrap_int (a + b).
Proof.
  unfold wrap_int. f_equal.
  replace ((a + 2 ^ 63) mod 2 ^ 64 - 2 ^ 63 + b + 2 ^ 63) with ((a + 2 ^ 63) mod 2 ^ 64 + b) by lia.
  rewrite Zplus_mod_idemp_l. f_equal. lia.
Qed.

Lemma wrap_uint64_add_l a b : wrap_uint64 (wrap_uint64 a + b) = wrap_uint64 (a + b).
Proof. apply Zplus_mod_idemp_l. Qed.

Lemma wrap_uint64_id z : 0 <= z < 2 ^ 64 -> wrap_uint64 z = z.
Proof. intros H. apply Z.mod_small. lia. Qed.

(** ** Time

    A [time.Time] is its number of nanoseconds since Go's zero time, so that
    [IsZero] is a comparison with 0.  [Sub] returns a [time.Duration] and
    saturates, as Go's does; [Add] is exact over the times Go represents. *)

Definition Sub (t u : Z) : Z := Z.max MinInt (Z.min MaxInt (t - u)).
Definition IsZero (t : Z) : bool := t =? 0.

Lemma Sub_exact t u : in_int (t - u) -> Sub t u = t - u.
Proof. unfold Sub, in_int. lia. Qed.

Lemma Sub_lt t u d : in_int d -> d < Sub t u -> d < t - u.
Proof. unfold Sub, in_int. lia. Qed.

Lemma Sub_ge t u d : in_int d -> d <= Sub t u <-> d <= t - u \/ d = MinInt.
Proof. unfold Sub, in_int, MinInt, MaxInt. lia. Qed.

(** ** Strings

    A Go string or [[]byte] whose bytes matter is a list of bytes; [lit] turns
    a literal of the source into one. *)

Abbreviation bytes := (list byte).
Definition lit (s : String.string) : bytes := String.list_byte_of_string s.

#[export] Instance byte_eq_dec : EqDecision byte := Byte.byte_eq_dec.

#[export] Program Instance byte_countable : Countable byte :=
  inj_countable Byte.to_N Byte.of_N _.
Next Obligation. intros b. apply Byte.of_to_N. Qed.

(** A byte as a number, and the byte of a number; digits are lower case. *)
Definition byte_Z (b : byte) : Z := Z.of_N (Byte.to_N b).
Definition byte_of (n : Z) : byte := default x00 (Byte.of_N (Z.to_N n)).
Definition hex_digit (n : Z) : byte := nth (Z.to_nat n) (lit "0123456789abcdef") x00.

Lemma byte_Z_inj a b : byte_Z a = byte_Z b -> a = b.
Proof.
  unfold byte_Z. intros H%N2Z.inj. pose proof (Byte.of_to_N a) as Ha. rewrite H, Byte.of_to_N in Ha.
  congruence.
Qed.

Lemma byte_Z_range b : 0 <= byte_Z b < 256.
Proof. unfold byte_Z. pose proof (Byte.to_N_bounded b). lia. Qed.

Lemma byte_Z_of n : 0 <= n < 256 -> byte_Z (byte_of n) = n.
Proof.
  intros H. unfold byte_of, byte_Z. destruct (Byte.of_N (Z.to_N n)) as [b|] eqn:E.
  - apply Byte.to_of_N in E. simpl. lia.
  - apply Byte.of_N_None_iff in E. lia.
Qed.

Lemma byte_of_Z b : byte_of (byte_Z b) = b.
Proof. apply byte_Z_inj, byte_Z_of, byte_Z_range. Qed.

(** [len s] as a Go [int]. *)
Definition len {A} (l : list A) : Z := Z.of_nat (length l).

Lemma len_app {A} (l k : list A) : len (l ++ k) = len l + len k.
Proof. unfold len. rewrite length_app. lia. Qed.

Lemma len_nonneg {A} (l : list A) : 0 <= len l.
Proof. unfold len. lia. Qed.

Lemma len_nil {A} : len (@nil A) = 0.
Proof. reflexivity. Qed.

Lemma len_cons {A} (x : A) l : len (x :: l) = 1 + len l.
Proof. unfold len. simpl length. lia. Qed.

(** ** Results: a value or an error *)

Inductive result (E A : Type) : Type :=
| Ok (a : A)
| Err (e : E).
Arguments Ok {E A} a.
Arguments Err {E A} e.

Definition is_ok {E A} (r : result E A) : bool :=
  match r with Ok _ => true | Err _ => false end.

(** Whether an option holds a value, as a boolean. *)
Definition opt_b {A} (o : option A) : bool := match o with Some _ => true | None => false end.

(** ** Sums over lists *)

Fixpoint Zsum (l : list Z) : Z :=
  match l with
  | [] => 0
  | x :: l => x + Zsum l
  end.

Lemma Zsum_app l k : Zsum (l ++ k) = Zsum l + Zsum k.
Proof. induction l; simpl; lia. Qed.

Lemma Zsum_Permutation l k : l ≡ₚ k -> Zsum l = Zsum k.
Proof. induction 1; simpl; lia. Qed.

#[export] Instance Zsum_Proper : Proper ((≡ₚ) ==> (=)) Zsum.
Proof. intros l k H. by apply Zsum_Permutation. Qed.

Lemma Zsum_nonneg l : Forall (fun x => 0 <= x) l -> 0 <= Zsum l.
Proof. induction 1; simpl; lia. Qed.

(** ** Lists of pointers *)

(** Sums of a measure over a list: one element changes, or none does. *)
Lemma Zsum_map_ext {A} (f g : A -> Z) (l : list A) :
  (forall x, x ∈ l -> f x = g x) -> Zsum (map f l) = Zsum (map g l).
Proof.
  induction l as [|x l IH]; intros H; [done|]. simpl.
  rewrite (H x) by (by left). rewrite IH; [done|]. intros y Hy. apply H. by right.
Qed.

Lemma Zsum_map_zero {A} (l : list A) : Zsum (map (fun _ => 0) l) = 0.
Proof. by induction l. Qed.

Lemma Zsum_map_alter {A} (f : A -> Z) (g : A -> A) (l : list A) (k : nat) (x : A) :
  l !! k = Some x -> Zsum (map f (alter g k l)) = Zsum (map f l) - f x + f (g x).
Proof.
  revert k. induction l as [|y l IH]; intros [|k] H; simplify_eq/=; [lia|].
  rewrite IH by done. lia.
Qed.

Lemma Zsum_map_nonneg {A} (f : A -> Z) (l : list A) :
  (forall x, x ∈ l -> 0 <= f x) -> 0 <= Zsum (map f l).
Proof.
  induction l as [|x l IH]; intros H; simpl; [lia|].
  assert (0 <= f x) by (apply H; by left). assert (0 <= Zsum (map f l)); [|lia].
  apply IH. intros y Hy. apply H. by right.
Qed.

Lemma filter_all {A} (P : A -> Prop) `{!forall x, Decision (P x)} (l : list A) :
  Forall P l -> filter P l = l.
Proof.
  induction 1 as [|x l Hx _ IH]; [done|]. rewrite filter_cons_True by done. by rewrite IH.
Qed.

Lemma filter_none {A} (P : A -> Prop) `{!forall x, Decision (P x)} (l : list A) :
  Forall (fun x => ~ P x) l -> filter P l = [].
Proof. induction 1 as [|x l Hx _ IH]; [done|]. by rewrite filter_cons_False. Qed.

Lemma len_omap {A B} (f : A -> option B) (l : list A) : len (omap f l) <= len l.
Proof.
  unfold len. apply inj_le. induction l as [|x l IH]; [done|].
  change (omap f (x :: l)) with (match f x with Some y => y :: omap f l | None => omap f l end).
  destruct (f x); cbn [length]; lia.
Qed.

(** Reading the heap after filtering the pointers is filtering what was read. *)
Lemma omap_filter {A B} (f g : A -> option B) (P : A -> Prop) (Q : B -> Prop)
    `{!forall x, Decision (P x)} `{!forall y, Decision (Q y)} (l : list A) :
  (forall x, x ∈ l -> exists y, f x = Some y /\ (P x <-> Q y) /\ (P x -> g x = Some y)) ->
  omap g (filter P l) = filter Q (omap f l).
Proof.
  induction l as [|x l IH]; intros Hall; [done|].
  destruct (Hall x) as (y & Hf & HPQ & Hg); [by left|].
  assert (omap g (filter P l) = filter Q (omap f l)) as IH' by (apply IH; intros; apply Hall; by right).
  destruct (decide (P x)) as [HP|HP].
  - rewrite filter_cons_True by done. simpl. rewrite Hf, (Hg HP).
    rewrite filter_cons_True by tauto. by f_equal.
  - rewrite filter_cons_False by done. simpl. rewrite Hf. rewrite filter_cons_False by tauto. done.
Qed.

(** ** Counting the values of a finite map *)

Definition count {K A} `{Countable K} (P : A -> bool) (m : gmap K A) : Z :=
  Z.of_nat (size (filter (fun kv => P kv.2 = true) m)).

Section count.
Context {K A : Type} `{Countable K}.
Implicit Types (P : A -> bool) (m : gmap K A).

Lemma count_empty P : count P (∅ : gmap K A) = 0.
Proof. unfold count. by rewrite map_filter_empty, map_size_empty. Qed.

Lemma count_nonneg P m : 0 <= count P m.
Proof. unfold count. lia. Qed.

Lemma count_insert_new P m i x :
  m !! i = None -> count P (<[i := x]> m) = count P m + Z.b2z (P x).
Proof.
  intros Hi. unfold count. destruct (P x) eqn:HP; simpl.
  - rewrite map_filter_insert_True by done. rewrite map_size_insert_None; [lia|].
    apply map_lookup_filter_None. by left.
  - rewrite map_filter_insert_False by (simpl; congruence).
    rewrite delete_id by done. lia.
Qed.

Lemma count_delete P m i x :
  m !! i = Some x -> count P m = count P (delete i m) + Z.b2z (P x).
Proof.
  intros Hi. rewrite <-(insert_delete_id m i x Hi) at 1.
  apply count_insert_new. apply lookup_delete_eq.
Qed.

(** Replacing one value changes the count by what the two values contribute. *)
Lemma count_update P m i x y :
  m !! i = Some x -> count P (<[i := y]> m) = count P m - Z.b2z (P x) + Z.b2z (P y).
Proof.
  intros Hi. rewrite <-insert_delete_eq, count_insert_new by apply lookup_delete_eq.
  rewrite (count_delete P m i x Hi). lia.
Qed.

Lemma count_pos P m : 0 < count P m <-> exists i x, m !! i = Some x /\ P x = true.
Proof.
  unfold count. split.
  - intros Hpos. destruct (map_choose (filter (fun kv => P kv.2 = true) m)) as (i & x & Hx).
    { intros He. rewrite He, map_size_empty in Hpos. lia. }
    apply map_lookup_filter_Some in Hx as [? ?]. eauto.
  - intros (i & x & Hi & HP). rewrite <-(insert_delete_id m i x Hi).
    rewrite map_filter_insert_True by done. rewrite map_size_insert_None; [lia|].
    apply map_lookup_filter_None. left. apply lookup_delete_eq.
Qed.

Lemma count_ext P Q m :
  (forall i x, m !! i = Some x -> P x = Q x) -> count P m = count Q m.
Proof.
  intros HPQ. unfold count. do 2 f_equal. apply map_filter_ext.
  intros i x Hi. simpl. by rewrite (HPQ i x Hi).
Qed.
End count.

(** ** Automation *)

(** [to_prop] turns the boolean comparisons of the context into the
    propositions they decide. *)
Ltac to_prop :=
  repeat match goal with
  | H : _ && _ = true |- _ => apply andb_true_iff in H; destruct H
  | H : _ && _ = false |- _ => apply andb_false_iff in H
  | H : _ || _ = true |- _ => apply orb_true_iff in H
  | H : _ || _ = false |- _ => apply orb_false_iff in H; destruct H
  | H : negb _ = true |- _ => apply negb_true_iff in H
  | H : negb _ = false |- _ => apply negb_false_iff in H
  | H : (_ <? _) = true |- _ => apply Z.ltb_lt in H
  | H : (_ <? _) = false |- _ => apply Z.ltb_ge in H
  | H : (_ <=? _) = true |- _ => apply Z.leb_le in H
  | H : (_ <=? _) = false |- _ => apply Z.leb_gt in H
  | H : (_ =? _) = true |- _ => apply Z.eqb_eq in H
  | H : (_ =? _) = false |- _ => apply Z.eqb_neq in H
  | H : bool_decide _ = true |- _ => apply bool_decide_eq_true in H
  | H : bool_decide _ = false |- _ => apply bool_decide_eq_false in H
  end.

(** [cases_if] splits every conditional and match of the goal and the context. *)
Ltac cases_if :=
  repeat (match goal with
  | |- context [if ?b then _ else _] => destruct b eqn:?
  | H : context [if ?b then _ else _] |- _ => destruct b eqn:?
  end; simplify_eq).

Create HintDb golem.
#[export] Hint Resolve wrap_int_id wrap_int_range wrap_uint64_id len_nonneg : golem.

(** Linear goals about lengths. *)
Ltac pose_len l :=
  lazymatch goal with
  | _ : 0 <= len l |- _ => fail
  | _ => pose proof (len_nonneg l)
  end.
Ltac len_lia :=
  repeat first [ rewrite len_app in * | rewrite len_cons in * | rewrite (@len_nil) in * ];
  repeat match goal with
  | |- context [len ?l] => pose_len l
  | _ : context [len ?l] |- _ => pose_len l
  end;
  lia.

Lemma sublist_filter_list {A} (f : A -> bool) (l : list A) : List.filter f l `sublist_of` l.
Proof.
  induction l as [|x l IH]; simpl; [done|].
  destruct (f x); [by apply sublist_skip|by apply sublist_cons].
Qed.

Lemma filter_true {A} (l : list A) : List.filter (fun _ => true) l = l.
Proof. induction l as [|x l IH]; simpl; [done|]. by rewrite IH. Qed.

Lemma Forall2_impl_In {A B} (P Q : A -> B -> Prop) l k :
  (forall x y, x ∈ l -> y ∈ k -> P x y -> Q x y) -> Forall2 P l k -> Forall2 Q l k.
Proof.
  intros H HP. induction HP as [|x y l k Hxy _ IH]; constructor.
  - apply H; [by left|by left|done].
  - apply IH. intros x' y' Hx Hy. apply H; by right.
Qed.
