(* ===== verification/GoString.v ===== *)
(** * GoString: strings joined with separators

    What the cache and sticky keys need: a string without a separator is
    recovered from the text that follows it, and decimal numbers hold nothing but
    digits and a sign. *)

From stdpp Require Import pretty.
From S2P Require Import Prelude.
#[local] Open Scope Z_scope.

Definition NUL : Ascii.ascii := Ascii.zero.

Fixpoint has_char (a : Ascii.ascii) (s : string) : bool :=
  match s with
  | EmptyString => false
  | String b s => Ascii.eqb b a || has_char a s
  end.

Lemma app_sep_inj a s1 s2 r1 r2 :
  has_char a s1 = false -> has_char a s2 = false ->
  s1 +:+ String a r1 = s2 +:+ String a r2 -> s1 = s2 /\ r1 = r2.
Proof.
  revert s2. induction s1 as [|b s1 IH]; intros [|b2 s2]; simpl; intros H1 H2 Heq; simplify_eq.
  - done.
  - by rewrite Ascii.eqb_refl in H2.
  - by rewrite Ascii.eqb_refl in H1.
  - to_prop. by destruct (IH s2) as [-> ->].
Qed.

Lemma has_char_app a s r : has_char a (s +:+ r) = has_char a s || has_char a r.
Proof. induction s as [|b s IH]; simpl; [done|]. by rewrite IH, orb_assoc. Qed.

Lemma no_sep_app a s s' r : has_char a s = false -> s <> s' +:+ String a r.
Proof.
  intros Hs ->. rewrite has_char_app in Hs. simpl in Hs.
  by rewrite Ascii.eqb_refl, orb_true_r in Hs.
Qed.

(** The characters of a decimal number. *)
Definition is_decimal (a : Ascii.ascii) : bool :=
  has_char a "0123456789-".

Lemma is_decimal_ne a c : is_decimal a = false -> is_decimal c = true -> Ascii.eqb c a = false.
Proof. intros Ha Hc. apply Ascii.eqb_neq. intros ->. congruence. Qed.

Lemma pretty_N_char_decimal x : is_decimal (pretty_N_char x) = true.
Proof. unfold pretty_N_char. repeat case_match; reflexivity. Qed.

Lemma pretty_N_go_no_char a x s :
  is_decimal a = false -> has_char a s = false -> has_char a (pretty_N_go x s) = false.
Proof.
  intros Ha. revert s. induction (N.lt_wf_0 x) as [x _ IH]; intros s Hs.
  assert (x = 0 \/ 0 < x)%N as [->|Hx] by lia; [by rewrite pretty_N_go_0|].
  rewrite pretty_N_go_step by done. apply IH; [by apply N.div_lt|].
  cbn [has_char]. rewrite Hs, orb_false_r. apply is_decimal_ne; [done|apply pretty_N_char_decimal].
Qed.

Lemma pretty_Z_no_char a (z : Z) : is_decimal a = false -> has_char a (pretty z) = false.
Proof.
  intros Ha. assert (forall n : N, has_char a (pretty n) = false) as HN.
  { intros n. unfold pretty, pretty_N. case_decide; [|by apply pretty_N_go_no_char].
    cbn [has_char]. rewrite orb_false_r. by apply is_decimal_ne. }
  unfold pretty, pretty_Z. destruct z as [|p|p]; [apply (HN 0%N)|apply (HN (Npos p))|].
  rewrite has_char_app. apply orb_false_iff. split; [|apply (HN (Npos p))].
  cbn [has_char]. rewrite orb_false_r. by apply is_decimal_ne.
Qed.
