(* ===== verification/Utf8.v ===== *)
(** * Utf8: runes of a byte string, as Go's unicode/utf8 reads and writes them

    Shared by the components that look at text rune by rune.  A byte that does
    not begin a valid encoding is read alone, as U+FFFD. *)

From Stdlib Require Import Strings.Byte.
From stdpp Require Import list.
From S2P Require Import Prelude.

#[local] Open Scope Z_scope.

Definition RuneError : Z := 65533.
Definition RuneSelf : Z := 128.

Definition continuation (lo hi : Z) (b : byte) : bool := (lo <=? byte_Z b) && (byte_Z b <=? hi).
Definition low6 (b : byte) : Z := Z.land (byte_Z b) 63.

(** The bounds of the second byte after a first byte of three or four. *)
Definition second_range (b0 : Z) : Z * Z :=
  if b0 =? 224 then (160, 191) else if b0 =? 237 then (128, 159)
  else if b0 =? 240 then (144, 191) else if b0 =? 244 then (128, 143) else (128, 191).

(** [utf8.DecodeRune]: the rune and its size; (U+FFFD, 0) when empty. *)
Definition DecodeRune (s : bytes) : Z * nat :=
  match s with
  | [] => (RuneError, 0%nat)
  | b0 :: s =>
      let n := byte_Z b0 in
      if n <? RuneSelf then (n, 1%nat)
      else if (194 <=? n) && (n <=? 223) then
        match s with
        | b1 :: _ => if continuation 128 191 b1 then (Z.land n 31 * 64 + low6 b1, 2%nat) else (RuneError, 1%nat)
        | [] => (RuneError, 1%nat)
        end
      else if (224 <=? n) && (n <=? 239) then
        let '(lo, hi) := second_range n in
        match s with
        | b1 :: b2 :: _ =>
            if continuation lo hi b1 && continuation 128 191 b2
            then (Z.land n 15 * 4096 + low6 b1 * 64 + low6 b2, 3%nat) else (RuneError, 1%nat)
        | _ => (RuneError, 1%nat)
        end
      else if (240 <=? n) && (n <=? 244) then
        let '(lo, hi) := second_range n in
        match s with
        | b1 :: b2 :: b3 :: _ =>
            if continuation lo hi b1 && continuation 128 191 b2 && continuation 128 191 b3
            then (Z.land n 7 * 262144 + low6 b1 * 4096 + low6 b2 * 64 + low6 b3, 4%nat) else (RuneError, 1%nat)
        | _ => (RuneError, 1%nat)
        end
      else (RuneError, 1%nat)
  end.

(** [utf8.AppendRune] to nothing. *)
Definition EncodeRune (r : Z) : bytes :=
  if (0 <=? r) && (r <=? 127) then [byte_of r]
  else if (128 <=? r) && (r <=? 2047) then [byte_of (192 + r / 64); byte_of (128 + r mod 64)]
  else
    let r := if (0 <=? r) && (r <=? 1114111) && negb ((55296 <=? r) && (r <=? 57343)) then r else RuneError in
    if r <=? 65535 then [byte_of (224 + r / 4096); byte_of (128 + r / 64 mod 64); byte_of (128 + r mod 64)]
    else [byte_of (240 + r / 262144); byte_of (128 + r / 4096 mod 64); byte_of (128 + r / 64 mod 64); byte_of (128 + r mod 64)].

(** The runes of a text, invalid bytes as U+FFFD; a rune takes a byte at least. *)
Fixpoint runes_from (fuel : nat) (s : bytes) : list Z :=
  match fuel with
  | O => []
  | S fuel => match s with
              | [] => []
              | _ => let '(r, n) := DecodeRune s in r :: runes_from fuel (drop n s)
              end
  end.
Definition runes (s : bytes) : list Z := runes_from (length s) s.

(** ** Sizes *)

Lemma DecodeRune_size s : s <> [] -> (1 <= (DecodeRune s).2 <= length s)%nat.
Proof.
  destruct s as [|b0 [|b1 [|b2 [|b3 s]]]]; [done|..]; intros _; unfold DecodeRune;
    destruct (second_range _) as [lo hi]; repeat case_match; simpl; lia.
Qed.

Lemma DecodeRune_nonneg s : 0 <= (DecodeRune s).1.
Proof.
  assert (forall b c, 0 <= Z.land (byte_Z b) c) as Hl by (intros b c; apply Z.land_nonneg; left; apply byte_Z_range).
  destruct s as [|b0 [|b1 [|b2 [|b3 s]]]]; unfold DecodeRune, low6, RuneError; [done|..];
    destruct (second_range _) as [lo hi]; repeat case_match; cbn [fst];
    repeat first [apply Z.add_nonneg_nonneg|apply Z.mul_nonneg_nonneg|apply Hl|apply byte_Z_range|lia].
Qed.

Lemma EncodeRune_length r : (length (EncodeRune r) <= 4)%nat.
Proof. unfold EncodeRune. repeat case_match; simpl; lia. Qed.

Lemma EncodeRune_length_bmp r : r <= 65535 -> (length (EncodeRune r) <= 3)%nat.
Proof.
  intros H. unfold EncodeRune. destruct (_ && _); [simpl; lia|]. destruct (_ && _); [simpl; lia|].
  assert (forall q, q <= 65535 -> (length (if q <=? 65535
    then [byte_of (224 + q / 4096); byte_of (128 + q / 64 mod 64); byte_of (128 + q mod 64)]
    else [byte_of (240 + q / 262144); byte_of (128 + q / 4096 mod 64); byte_of (128 + q / 64 mod 64); byte_of (128 + q mod 64)])%Z <= 3)%nat) as Hq
    by (intros q Hq; apply Z.leb_le in Hq; rewrite Hq; simpl; lia).
  apply Hq. unfold RuneError. case_match; lia.
Qed.

Lemma DecodeRune_ascii b s : byte_Z b < 128 -> DecodeRune (b :: s) = (byte_Z b, 1%nat).
Proof. intros H. unfold DecodeRune, RuneSelf. by destruct (Z.ltb_spec (byte_Z b) 128); [|lia]. Qed.
