(* ===== verification/KeyReader.v ===== *)
(** * KeyReader: who may find a fence key in a text

    A reader that sees through what may hide a key: letters in either case, in
    their fullwidth forms or as the letters that change case into them,
    characters that are no key letters in between, and escapes of the form
    backslashes, u and four hexadecimal digits, behind any number of layers.  The
    reader is defined by relations, without the program's own scan. *)

From Stdlib Require Import Strings.Byte.
From stdpp Require Import list relations.
From S2P Require Import Prelude Utf8.

#[local] Open Scope Z_scope.

(** ** Characters *)

(** The rune is the ASCII character or its fullwidth form. *)
Definition form_of (r a : Z) : Prop := (r = a /\ 0 <= a < 128) \/ (r = a + 65248 /\ 33 <= a <= 126).

Definition backslash (r : Z) : Prop := form_of r 92.

(** The rune reads as the key letter, of A-Z and 2-7: the letter in either case,
    the digit, or a letter that changes case into it (dotted and dotless I, long
    s, the Kelvin sign). *)
Definition reads_as (r c : Z) : Prop :=
  (65 <= c <= 90 /\ (form_of r c \/ form_of r (c + 32))) \/ (50 <= c <= 55 /\ form_of r c) \/
  (c = 73 /\ (r = 304 \/ r = 305)) \/ (c = 83 /\ r = 383) \/ (c = 75 /\ r = 8490).

(** The letters a reader is left with. *)
Inductive spells : list Z -> bytes -> Prop :=
| spells_nil : spells [] []
| spells_letter r c rs bs : reads_as r c -> spells rs bs -> spells (r :: rs) (byte_of c :: bs)
| spells_other r rs bs : (forall c, ~ reads_as r c) -> spells rs bs -> spells (r :: rs) bs.

(** ** Escapes *)

(** The text begins with a rune, and this is the rest of it. *)
Definition begins (s : bytes) (r : Z) (rest : bytes) : Prop :=
  exists n, s <> [] /\ DecodeRune s = (r, n) /\ rest = drop n s.

(** One backslash or more. *)
Inductive slashed : bytes -> bytes -> Prop :=
| slashed_one s r rest : begins s r rest -> backslash r -> slashed s rest
| slashed_more s r s1 rest : begins s r s1 -> backslash r -> slashed s1 rest -> slashed s rest.

Definition digit_of (r d : Z) : Prop :=
  exists a, form_of r a /\ ((48 <= a <= 57 /\ d = a - 48) \/ (97 <= a <= 102 /\ d = a - 87) \/ (65 <= a <= 70 /\ d = a - 55)).

(** [k] hexadecimal digits after the value [v]. *)
Inductive digits : nat -> Z -> bytes -> Z -> bytes -> Prop :=
| digits_none v s : digits 0 v s v s
| digits_more k v s r d s1 w rest :
    begins s r s1 -> digit_of r d -> digits k (v * 16 + d) s1 w rest -> digits (S k) v s w rest.

(** The text begins with an escape for [v]. *)
Definition escape (s : bytes) (v : Z) (rest : bytes) : Prop :=
  exists s1 r s2, slashed s s1 /\ begins s1 r s2 /\ form_of r 117 /\ digits 4 0 s2 v rest.

(** One layer of escapes is read: every escape becomes its character. *)
Inductive unescaped : bytes -> bytes -> Prop :=
| unescaped_nil : unescaped [] []
| unescaped_escape s v rest t : escape s v rest -> unescaped rest t -> unescaped s (EncodeRune v ++ t)
| unescaped_plain s r n t :
    s <> [] -> DecodeRune s = (r, n) -> (forall v rest, ~ escape s v rest) -> unescaped (drop n s) t ->
    unescaped s (take n s ++ t).

(** Somewhere in [s]. *)
Definition contains (sub s : bytes) : Prop := exists a b, s = a ++ sub ++ b.

(** Behind some number of layers of escapes the letters of the text hold the
    key. *)
Definition readable (text key : bytes) : Prop :=
  exists layer letters, rtc unescaped text layer /\ spells (runes layer) letters /\ contains key letters.

(** ** What begins a text *)

Lemma form_unique r a a' : form_of r a -> form_of r a' -> a = a'.
Proof. unfold form_of. lia. Qed.

Lemma reads_unique r c c' : reads_as r c -> reads_as r c' -> c = c'.
Proof. unfold reads_as, form_of. lia. Qed.

Lemma begins_decode s r n : s <> [] -> DecodeRune s = (r, n) -> begins s r (drop n s).
Proof. intros Hs E. by exists n. Qed.

Lemma begins_unique s r r' rest rest' : begins s r rest -> begins s r' rest' -> r = r' /\ rest = rest'.
Proof. intros (n & _ & E & ->) (n' & _ & E' & ->). rewrite E in E'. by injection E' as -> ->. Qed.

Lemma begins_shorter s r rest : begins s r rest -> (length rest < length s)%nat.
Proof.
  intros (n & Hs & E & ->). pose proof (DecodeRune_size s Hs) as H. rewrite E in H. rewrite length_drop. simpl in H. lia.
Qed.

Lemma slashed_begins s rest : slashed s rest -> exists r s1, begins s r s1 /\ backslash r.
Proof. destruct 1; eauto. Qed.

Lemma escape_slash s r s1 v rest : begins s r s1 -> backslash r -> escape s1 v rest -> escape s v rest.
Proof. intros H1 H2 (s2 & q & s3 & Hs & H). exists s2, q, s3. split; [by eapply slashed_more|done]. Qed.
