(* ===== verification/GoText.v ===== *)
(** * GoText: Go's strings and path packages, as the source uses them

    Shared by the components that read paths and free text.  [TrimSpace] looks
    at runes from both ends, as strings.TrimSpace does; [Clean] is path.Clean,
    by the elements of the path. *)

From Stdlib Require Import Strings.Byte Strings.Ascii.
From stdpp Require Import strings list sorting.
From S2P Require Import Prelude GoString Utf8.

#[local] Open Scope Z_scope.

(** ** Spaces *)

(** [unicode.IsSpace] *)
Definition IsSpace (r : Z) : bool :=
  ((9 <=? r) && (r <=? 13)) || (r =? 32) || (r =? 133) || (r =? 160) || (r =? 5760) || ((8192 <=? r) && (r <=? 8202)) ||
  (r =? 8232) || (r =? 8233) || (r =? 8239) || (r =? 8287) || (r =? 12288).

(** [utf8.RuneStart] *)
Definition rune_start (b : byte) : bool := negb (Z.land (byte_Z b) 192 =? 128).

(** The start of the last rune: the last of at most four bytes that may begin
    one, the last byte when none does. *)
Definition last_start (s : bytes) : nat :=
  let n := length s in
  let cand := filter (fun k => k <= n /\ opt_b (s !! (n - k)) = true /\ default false (rune_start <$> s !! (n - k)) = true)%nat
                (seq 1 4) in
  (n - default 1 (head cand))%nat.

(** [utf8.DecodeLastRune] *)
Definition DecodeLastRune (s : bytes) : Z * nat :=
  match s with
  | [] => (RuneError, 0%nat)
  | _ =>
      let start := last_start s in
      let '(r, n) := DecodeRune (drop start s) in
      if (start + n =? length s)%nat then (r, n) else (RuneError, 1%nat)
  end.

Fixpoint trim_left (fuel : nat) (s : bytes) : bytes :=
  match fuel with
  | O => s
  | S fuel => match s with
              | [] => s
              | _ => let '(r, n) := DecodeRune s in if IsSpace r then trim_left fuel (drop n s) else s
              end
  end.

Fixpoint trim_right (fuel : nat) (s : bytes) : bytes :=
  match fuel with
  | O => s
  | S fuel => match s with
              | [] => s
              | _ => let '(r, n) := DecodeLastRune s in if IsSpace r then trim_right fuel (take (length s - n) s) else s
              end
  end.

(** [strings.TrimSpace]; a rune takes a byte at least. *)
Definition TrimSpace (s : string) : string :=
  let b := lit s in
  let b := trim_left (length b) b in
  String.string_of_list_byte (trim_right (length b) b).

Definition blank (s : string) : bool := bool_decide (TrimSpace s = EmptyString).

(** ** Prefixes, separators *)

Fixpoint HasPrefix (s p : string) : bool :=
  match p, s with
  | EmptyString, _ => true
  | String c p, String d s => Ascii.eqb c d && HasPrefix s p
  | String _ _, EmptyString => false
  end.

Definition HasSuffix (s p : string) : bool := HasPrefix (String.rev s) (String.rev p).

(** [strings.Split] at a one-character separator. *)
Fixpoint Split (sep : ascii) (s : string) : list string :=
  match s with
  | EmptyString => [EmptyString]
  | String c s =>
      let l := Split sep s in
      if Ascii.eqb c sep then EmptyString :: l
      else match l with
           | x :: l => String c x :: l
           | [] => [String c EmptyString]
           end
  end.

(** [sort.Strings]: byte-wise order. *)
Definition SortStrings (l : list string) : list string := merge_sort String.le l.

(** [strings.Join] *)
Definition Join (l : list string) (sep : string) : string := String.concat sep l.

Definition lower (c : ascii) : ascii :=
  let n := nat_of_ascii c in if (65 <=? n)%nat && (n <=? 90)%nat then ascii_of_nat (n + 32) else c.

(** [strings.EqualFold] of two strings of which one is made of characters that
    only fold to ASCII letters. *)
Fixpoint EqualFold (s t : string) : bool :=
  match s, t with
  | EmptyString, EmptyString => true
  | String c s, String d t => Ascii.eqb (lower c) (lower d) && EqualFold s t
  | _, _ => false
  end.

(** ** Paths *)

#[local] Notation slash := ("/"%char).

(** [path.IsAbs] *)
Definition IsAbs (p : string) : bool := match p with String c _ => Ascii.eqb c slash | EmptyString => false end.

(** The elements of a path after [done], the ones before, the last first.
    Nothing goes above the root of a rooted path. *)
Fixpoint clean_elements (rooted : bool) (stack elements : list string) : list string :=
  match elements with
  | [] => stack
  | e :: elements =>
      let stack :=
        if bool_decide (e = EmptyString) || bool_decide (e = "."%string) then stack
        else if bool_decide (e = ".."%string) then
          match stack with
          | top :: below => if bool_decide (top = ".."%string) then e :: stack else below
          | [] => if rooted then [] else [e]
          end
        else e :: stack in
      clean_elements rooted stack elements
  end.

(** [path.Clean] *)
Definition Clean (p : string) : string :=
  let l := rev (clean_elements (IsAbs p) [] (Split slash p)) in
  if IsAbs p then String slash (Join l "/")
  else match l with [] => "."%string | _ => Join l "/" end.

(** ** What trimming takes away *)

(** A byte that a space may be made of. *)
Definition spacey (b : byte) : Prop := 128 <= byte_Z b \/ IsSpace (byte_Z b) = true.

Lemma second_range_low n : 128 <= (second_range n).1.
Proof. unfold second_range. repeat case_match; simpl; lia. Qed.

Lemma continuation_high lo hi b : continuation lo hi b = true -> 128 <= lo -> spacey b.
Proof. unfold continuation, spacey. intros H Hlo. to_prop. lia. Qed.

Lemma space_bytes s : IsSpace (DecodeRune s).1 = true -> Forall spacey (take (DecodeRune s).2 s).
Proof.
  destruct s as [|b0 s]; [done|]. unfold DecodeRune, RuneSelf. pose proof (second_range_low (byte_Z b0)) as Hlow.
  destruct (second_range (byte_Z b0)) as [lo hi]. cbn [fst] in Hlow.
  destruct (Z.ltb_spec (byte_Z b0) 128) as [|H0].
  { cbn [fst snd firstn]. intros H1. constructor; [by right|constructor]. }
  assert (spacey b0) as Hb0 by (left; lia).
  repeat case_match; try done; intros _; cbn [snd firstn]; to_prop;
    repeat match goal with H : _ /\ _ |- _ => destruct H end; to_prop;
    repeat (constructor; try (eapply continuation_high; [done|lia])); done.
Qed.

Lemma trim_left_drop fuel s : exists a, s = a ++ trim_left fuel s /\ Forall spacey a.
Proof.
  revert s. induction fuel as [|fuel IH]; intros s; [by exists []|]. cbn [trim_left].
  destruct s as [|b0 s]; [by exists []|]. set (t := b0 :: s). pose proof (space_bytes t) as H.
  destruct (DecodeRune t) as [r n]. cbn [fst snd] in H. destruct (IsSpace r); [|by exists []].
  destruct (IH (drop n t)) as (a & E & Ha). exists (take n t ++ a). rewrite <- app_assoc, <- E, take_drop.
  split; [done|]. apply Forall_app. split; [by apply H|done].
Qed.

Lemma trim_right_take fuel s : exists a, s = trim_right fuel s ++ a /\ Forall spacey a.
Proof.
  revert s. induction fuel as [|fuel IH]; intros s; [exists []; by rewrite app_nil_r|]. cbn [trim_right].
  destruct s as [|b0 s]; [by exists []|]. set (t := b0 :: s). unfold DecodeLastRune. fold t.
  pose proof (space_bytes (drop (last_start t) t)) as H.
  assert (exists a, t = t ++ a /\ Forall spacey a) as Hnone by (exists []; by rewrite app_nil_r).
  assert (match t with [] => (RuneError, 0%nat) | _ => let '(r, n) := DecodeRune (drop (last_start t) t) in
     if (last_start t + n =? length t)%nat then (r, n) else (RuneError, 1%nat) end =
     let '(r, n) := DecodeRune (drop (last_start t) t) in
     if (last_start t + n =? length t)%nat then (r, n) else (RuneError, 1%nat)) as -> by done.
  destruct (DecodeRune _) as [r n]. cbn [fst snd] in H. destruct (Nat.eqb_spec (last_start t + n) (length t)) as [E|]; [|done].
  destruct (IsSpace r) eqn:Hr; [|done]. destruct (IH (take (length t - n) t)) as (a & Ea & Ha).
  exists (a ++ drop (length t - n) t). rewrite app_assoc, <- Ea, take_drop. split; [done|]. apply Forall_app. split; [done|].
  replace (length t - n)%nat with (last_start t) by lia.
  replace (drop (last_start t) t) with (take n (drop (last_start t) t)); [by apply H|].
  apply take_ge. rewrite length_drop. lia.
Qed.

Lemma string_of_app x y : String.string_of_list_byte (x ++ y) = String.string_of_list_byte x +:+ String.string_of_list_byte y.
Proof. unfold String.string_of_list_byte. induction x as [|b x IH]; [done|]. simpl. by rewrite IH. Qed.

(** The ASCII characters that trimming leaves alone. *)
Definition solid (c : ascii) : Prop := Z.of_N (N_of_ascii c) < 128 /\ IsSpace (Z.of_N (N_of_ascii c)) = false.

Lemma spacey_no_char c a : solid c -> Forall spacey a -> has_char c (String.string_of_list_byte a) = false.
Proof.
  intros [Hc Hs]. induction 1 as [|b a Hb _ IH]; [done|]. unfold String.string_of_list_byte in *. simpl. rewrite IH, orb_false_r.
  destruct (Ascii.eqb_spec (ascii_of_byte b) c) as [<-|]; [|done]. exfalso.
  assert (byte_Z b = Z.of_N (N_of_ascii (ascii_of_byte b))) as E by (by destruct b).
  destruct Hb as [Hb|Hb]; rewrite E in Hb; [lia|congruence].
Qed.

(** Trimming takes a prefix and a suffix that hold no solid character. *)
Lemma TrimSpace_parts s : exists a b, s = a +:+ TrimSpace s +:+ b /\ forall c, solid c -> has_char c a = false /\ has_char c b = false.
Proof.
  unfold TrimSpace. destruct (trim_left_drop (length (lit s)) (lit s)) as (a & Ea & Ha).
  set (t := trim_left _ _) in *. destruct (trim_right_take (length t) t) as (b & Eb & Hb).
  exists (String.string_of_list_byte a), (String.string_of_list_byte b). split.
  - rewrite <- !string_of_app, <- Eb, <- Ea. symmetry. apply String.string_of_list_byte_of_string.
  - intros c Hc. by split; apply spacey_no_char.
Qed.

(** ** Splitting at a separator *)

Lemma append_assoc a b c : a +:+ (b +:+ c) = (a +:+ b) +:+ c.
Proof. induction a as [|x a IH]; [done|]. exact (f_equal (String x) IH). Qed.

Lemma append_empty_r a : a +:+ EmptyString = a.
Proof. induction a as [|x a IH]; [done|]. exact (f_equal (String x) IH). Qed.

Lemma Split_nonempty sep s : Split sep s <> [].
Proof. destruct s as [|c s]; simpl; [done|]. destruct (Ascii.eqb c sep); [done|]. by destruct (Split sep s). Qed.

Lemma Split_none sep s : has_char sep s = false -> Split sep s = [s].
Proof. induction s as [|c s IH]; simpl; [done|]. intros [-> H]%orb_false_iff. by rewrite (IH H). Qed.

Lemma Split_cons sep s t : has_char sep s = false -> Split sep (s +:+ String sep t) = s :: Split sep t.
Proof.
  induction s as [|c s IH]; simpl; [by rewrite Ascii.eqb_refl|]. intros [-> H]%orb_false_iff. by rewrite (IH H).
Qed.

Lemma Split_app_l sep a t x l : has_char sep a = false -> Split sep t = x :: l -> Split sep (a +:+ t) = (a +:+ x) :: l.
Proof.
  intros Ha E. revert Ha. induction a as [|c a IH]; simpl; [done|]. intros [-> H]%orb_false_iff. by rewrite (IH H).
Qed.

Lemma Split_app_r sep t b l x : has_char sep b = false -> Split sep t = l ++ [x] -> Split sep (t +:+ b) = l ++ [x +:+ b].
Proof.
  intros Hb. revert l x. induction t as [|c t IH]; intros l x; simpl.
  - intros E. destruct l as [|y l]; [|by destruct l]. injection E as <-. simpl. by apply Split_none.
  - destruct (Ascii.eqb c sep) eqn:Ec.
    + destruct l as [|y l]; simpl; intros [= <- E].
      * exfalso. eapply Split_nonempty, E.
      * by rewrite (IH l x E).
    + destruct (Split sep t) as [|y k] eqn:E; [by destruct (Split_nonempty sep t)|]. destruct l as [|z l]; intros E'.
      * destruct k; [|done]. injection E' as <-. by rewrite (IH [] y eq_refl).
      * injection E' as <- ->. by rewrite (IH (y :: l) x eq_refl).
Qed.

Lemma Split_no_sep sep s : Forall (fun e => has_char sep e = false) (Split sep s).
Proof.
  induction s as [|c s IH]; simpl; [by constructor|]. destruct (Ascii.eqb c sep) eqn:E; [by constructor|].
  destruct (Split sep s) as [|x l]; [by constructor; simpl; rewrite ?E|]. inversion_clear IH as [|? ? Hx Hl].
  constructor; [simpl; by rewrite E|done].
Qed.

Lemma Split_Join sep l : l <> [] -> Forall (fun e => has_char sep e = false) l -> Split sep (Join l (String sep EmptyString)) = l.
Proof.
  intros Hne H. induction H as [|x l Hx Hl IH]; [done|]. destruct l as [|y l]; [simpl; by apply Split_none|].
  change (Join (x :: y :: l) (String sep EmptyString)) with (x +:+ String sep (Join (y :: l) (String sep EmptyString))).
  rewrite Split_cons by done. f_equal. by apply IH.
Qed.

(** ** Where a path leads *)

Definition is_dot (e : string) : bool := bool_decide (e = EmptyString) || bool_decide (e = "."%string).
Definition is_up (e : string) : bool := bool_decide (e = ".."%string).

(** From [d] levels down, the elements never go above the start. *)
Fixpoint stays (d : nat) (elements : list string) : bool :=
  match elements with
  | [] => true
  | e :: elements =>
      if is_dot e then stays d elements
      else if is_up e then match d with S d => stays d elements | O => false end
      else stays (S d) elements
  end.

Lemma stays_mono l : forall d d', (d <= d')%nat -> stays d l = true -> stays d' l = true.
Proof.
  induction l as [|e l IH]; intros d d' Hd; simpl; [done|]. destruct (is_dot e); [by apply IH|].
  destruct (is_up e); [|apply IH; lia]. destruct d as [|d]; [done|]. destruct d' as [|d']; [lia|]. apply IH. lia.
Qed.

(** An element that the elements of a path may end in. *)
Lemma stays_snoc l : forall d x y, stays d (l ++ [x]) = true -> is_up y = false -> stays d (l ++ [y]) = true.
Proof.
  induction l as [|e l IH]; intros d x y; simpl.
  - intros _ ->. by destruct (is_dot y).
  - destruct (is_dot e); [by apply IH|]. destruct (is_up e); [|by apply IH]. destruct d as [|d]; [done|by apply IH].
Qed.

Lemma clean_stays l : forall stack, Forall (fun e => is_up e = false) stack ->
  stays (length stack) l = true -> Forall (fun e => is_up e = false) (clean_elements false stack l).
Proof.
  induction l as [|e l IH]; intros stack Hs; simpl; [done|]. fold (is_dot e). fold (is_up e).
  destruct (is_dot e); [by apply IH|]. destruct (is_up e) eqn:Eu; [|intros H; apply IH; [by constructor|done]].
  destruct stack as [|top below]; [done|]. inversion_clear Hs as [|? ? Ht Hb]. simpl. unfold is_up in Ht. rewrite Ht. by apply IH.
Qed.

Lemma clean_keeps_up l : forall rooted stack, (exists e, e ∈ stack /\ is_up e = true) ->
  exists e, e ∈ clean_elements rooted stack l /\ is_up e = true.
Proof.
  induction l as [|e l IH]; intros rooted stack Hs; simpl; [done|]. apply IH. fold (is_dot e). fold (is_up e).
  destruct (is_dot e); [done|]. destruct Hs as (u & Hu & Eu).
  destruct (is_up e) eqn:Ee; [|exists u; split; [by right|done]].
  destruct stack as [|top below]; [by apply elem_of_nil in Hu|]. fold (is_up top).
  destruct (is_up top) eqn:Et; [exists u; split; [by right|done]|].
  apply elem_of_cons in Hu as [->|Hu]; [congruence|by exists u].
Qed.

Lemma clean_leaves l : forall stack, stays (length stack) l = false -> Forall (fun e => is_up e = false) stack ->
  exists e, e ∈ clean_elements false stack l /\ is_up e = true.
Proof.
  induction l as [|e l IH]; intros stack; simpl; [done|]. fold (is_dot e). fold (is_up e). intros H Hs.
  destruct (is_dot e); [by apply IH|]. destruct (is_up e) eqn:Eu; [|apply IH; [done|by constructor]].
  destruct stack as [|top below].
  - apply clean_keeps_up. exists e. split; [by left|done].
  - inversion_clear Hs as [|? ? Ht Hb]. fold (is_up top). rewrite Ht. by apply IH.
Qed.

(** The elements of a cleaned path are names, or the way up. *)
Lemma clean_elements_no_sep l : forall rooted stack, Forall (fun e => has_char "/" e = false) l ->
  Forall (fun e => has_char "/" e = false /\ e <> EmptyString) stack ->
  Forall (fun e => has_char "/" e = false /\ e <> EmptyString) (clean_elements rooted stack l).
Proof.
  induction l as [|e l IH]; intros rooted stack Hl Hs; simpl; [done|]. inversion_clear Hl as [|? ? He Hl']. apply IH; [done|].
  destruct (decide (e = EmptyString)) as [->|Hne]; [done|]. rewrite (bool_decide_eq_false_2 (e = EmptyString)) by done.
  cbn [orb]. destruct (bool_decide (e = "."%string)); [done|].
  destruct (bool_decide (e = ".."%string)); [|by constructor].
  destruct stack as [|top below]; [destruct rooted; by repeat constructor|].
  destruct (bool_decide (top = ".."%string)); [by constructor|by inversion_clear Hs].
Qed.

(** A path that stays in the directory it starts from, once cleaned. *)
Definition inside (p : string) : Prop := IsAbs (Clean p) = false /\ ".."%string ∉ Split "/" (Clean p).

Lemma no_up_not_in l : Forall (fun e => is_up e = false) l -> ".."%string ∉ l.
Proof. rewrite Forall_forall. intros H Hin. by apply H in Hin. Qed.

Lemma clean_split p : IsAbs p = false ->
  let l := rev (clean_elements false [] (Split "/" p)) in
  IsAbs (Clean p) = false /\ (Split "/" (Clean p) = if bool_decide (l = []) then ["."%string] else l).
Proof.
  intros Ha l. unfold Clean. rewrite Ha. fold l.
  assert (Forall (fun e => has_char "/" e = false /\ e <> EmptyString) l) as Hl
    by (apply Forall_rev, clean_elements_no_sep; [apply Split_no_sep|constructor]).
  destruct l as [|x k]; [done|]. cbn [bool_decide decide decide_rel]. split.
  - inversion_clear Hl as [|? ? [Hx Hne] _]. destruct x as [|c x]; [done|]. simpl in Hx. apply orb_false_iff in Hx as [Hx _].
    destruct k; [exact Hx|]. cbn. done.
  - rewrite bool_decide_eq_false_2 by done. apply Split_Join; [done|]. eapply Forall_impl; [exact Hl|]. by intros e [? _].
Qed.

Lemma inside_stays p : inside p <-> IsAbs p = false /\ stays 0 (Split "/" p) = true.
Proof.
  unfold inside. destruct (IsAbs p) eqn:Ha.
  { split; [intros [H _]|by intros []]. unfold Clean in H. by rewrite Ha in H. }
  destruct (clean_split p Ha) as [-> ->]. set (l := rev _). split.
  - intros [_ Hup]. split; [done|]. destruct (stays 0 (Split "/" p)) eqn:E; [done|].
    apply (clean_leaves _ []) in E as (e & He & Eu); [|constructor]. unfold is_up in Eu. apply bool_decide_eq_true in Eu as ->.
    exfalso. apply Hup. assert (".."%string ∈ l) as Hin by (subst l; by rewrite list_elem_of_In, <- in_rev, <- list_elem_of_In).
    case_bool_decide as El; [by rewrite El, elem_of_nil in Hin|done].
  - intros [_ H]. split; [done|]. apply (clean_stays _ []) in H; [|constructor]. case_bool_decide.
    + by intros ?%list_elem_of_singleton.
    + apply no_up_not_in. by apply Forall_rev.
Qed.

(** A path that stays inside once trimmed stays inside as it is written. *)
Lemma inside_trimmed s : TrimSpace s <> EmptyString -> inside (TrimSpace s) -> inside s.
Proof.
  destruct (TrimSpace_parts s) as (a & b & E & Hab). set (t := TrimSpace s) in *.
  destruct (Hab "/"%char) as [Ha Hb]; [by split|]. destruct (Hab "."%char) as [Ha' Hb']; [by split|].
  rewrite !inside_stays. intros Hne [Habs Hst]. rewrite E. split.
  - destruct a as [|c a]; [destruct t; done|]. simpl in Ha |- *. by apply orb_false_iff in Ha as [-> _].
  - assert (stays 0 (Split "/" (a +:+ t)) = true) as H.
    { destruct (Split "/" t) as [|x l] eqn:Et; [by destruct (Split_nonempty "/" t)|].
      rewrite (Split_app_l _ _ _ _ _ Ha Et). destruct a as [|c a]; [done|]. cbn [stays] in *.
      assert (forall u v, has_char "." u = false -> u <> EmptyString -> is_dot (u +:+ v) = false /\ is_up (u +:+ v) = false) as Hname.
      { intros [|d u] v Hu Hn; [done|]. simpl in Hu. apply orb_false_iff in Hu as [Hd _]. apply Ascii.eqb_neq in Hd.
        change (String d u +:+ v) with (String d (u +:+ v)). unfold is_dot, is_up.
        by rewrite !bool_decide_eq_false_2 by congruence. }
      destruct (Hname (String c a) x Ha' ltac:(done)) as [-> ->].
      destruct (is_dot x); [eapply stays_mono, Hst; lia|]. by destruct (is_up x). }
    destruct (Split "/" (a +:+ t)) as [|y l _] eqn:Es using rev_ind; [by destruct (Split_nonempty "/" (a +:+ t))|].
    rewrite append_assoc, (Split_app_r _ _ _ _ _ Hb Es).
    destruct b as [|c b]; [by rewrite append_empty_r|]. eapply stays_snoc; [exact H|].
    unfold is_up. apply bool_decide_eq_false_2. intros E'. clear -Hb' E'.
    destruct y as [|d y]; [injection E' as -> ->; done|]. injection E' as _ E'.
    destruct y as [|e y]; [injection E' as -> ->; done|]. injection E' as _ E'. by destruct y.
Qed.
