(* ===== verification/GoFloat.v ===== *)
(** * GoFloat: Go's float64

    IEEE 754 binary64 by the Standard Library's specification of floating-point
    arithmetic: the operations round to nearest, ties to even, as Go's do. *)

From Stdlib Require Export SpecFloat.
From S2P Require Import Prelude.
#[local] Open Scope Z_scope.

Abbreviation float64 := spec_float.

(** [m * 2 ^ e], rounded. *)
Definition f64 (m e : Z) : float64 := binary_normalize 53 1024 m e false.

(** [float64(n)]. *)
Definition of_int (n : Z) : float64 := f64 n 0.

Definition fadd : float64 -> float64 -> float64 := SFadd 53 1024.
Definition fsub : float64 -> float64 -> float64 := SFsub 53 1024.
Definition fmul : float64 -> float64 -> float64 := SFmul 53 1024.
Definition fdiv : float64 -> float64 -> float64 := SFdiv 53 1024.
Definition flt : float64 -> float64 -> bool := SFltb.
Definition fle : float64 -> float64 -> bool := SFleb.
Definition feq : float64 -> float64 -> bool := SFeqb.

(** The literal [p / q]: a decimal literal is the float nearest to its value,
    which is what the division of two small integers rounds to. *)
Definition flit (p q : Z) : float64 := fdiv (of_int p) (of_int q).

Definition fzero : float64 := S754_zero false.
Definition fone : float64 := of_int 1.
Definition neg_inf : float64 := S754_infinity true.

Definition is_nan (x : float64) : bool := match x with S754_nan => true | _ => false end.
Definition is_neg_inf (x : float64) : bool :=
  match x with S754_infinity s => s | _ => false end.
Definition is_inf (x : float64) : bool := match x with S754_infinity _ => true | _ => false end.

#[export] Instance float64_eq_dec : EqDecision float64.
Proof. solve_decision. Defined.

(** ** The comparisons order the floats that are not NaN *)

Definition fcmp (x y : float64) : option comparison := SFcompare x y.

Lemma flt_fcmp x y : flt x y = match fcmp x y with Some Lt => true | _ => false end.
Proof. reflexivity. Qed.
Lemma feq_fcmp x y : feq x y = match fcmp x y with Some Eq => true | _ => false end.
Proof. reflexivity. Qed.
Lemma fle_fcmp x y :
  fle x y = match fcmp x y with Some Lt | Some Eq => true | _ => false end.
Proof. reflexivity. Qed.

Lemma fcmp_not_nan x y : is_nan x = false -> is_nan y = false -> exists c, fcmp x y = Some c.
Proof.
  destruct x as [[]|[]| |[] m e], y as [[]|[]| |[] m' e']; simpl; intros; try done; eauto;
    unfold fcmp, SFcompare; destruct (e ?= e')%Z; eauto.
Qed.

(** A numeric image of the order: a triple compared lexicographically. *)
Definition frank (x : float64) : Z * (Z * Z) :=
  match x with
  | S754_infinity true => (-2, (0, 0))
  | S754_finite true m e => (-1, (- e, - Zpos m))
  | S754_zero _ => (0, (0, 0))
  | S754_finite false m e => (1, (e, Zpos m))
  | S754_infinity false => (2, (0, 0))
  | S754_nan => (3, (0, 0))
  end.

Definition lexlt (a b : Z * (Z * Z)) : Prop :=
  a.1 < b.1 \/ a.1 = b.1 /\ (a.2.1 < b.2.1 \/ a.2.1 = b.2.1 /\ a.2.2 < b.2.2).

Lemma fcmp_frank x y c :
  fcmp x y = Some c ->
  match c with
  | Lt => lexlt (frank x) (frank y)
  | Gt => lexlt (frank y) (frank x)
  | Eq => frank x = frank y
  end.
Proof.
  destruct x as [[]|[]| |[] m e], y as [[]|[]| |[] m' e']; simpl; unfold fcmp, SFcompare, lexlt;
    try (intros [= <-]; simpl; first [reflexivity|lia]).
  all: destruct (Z.compare_spec e e') as [->| |]; intros [= <-]; simpl; try lia.
  all: change (Pos.compare_cont Eq m m') with (m ?= m')%positive.
  all: destruct (Pos.compare_spec m m') as [->| |]; simpl; first [reflexivity|lia].
Qed.

(** On floats that are not NaN, [<] is a strict weak order with [==] as its
    equivalence. *)
Lemma flt_frank x y :
  is_nan x = false -> is_nan y = false -> flt x y = true <-> lexlt (frank x) (frank y).
Proof.
  intros Hx Hy. destruct (fcmp_not_nan x y Hx Hy) as [c Hc]. rewrite flt_fcmp, Hc.
  apply fcmp_frank in Hc. unfold lexlt in *.
  destruct c; split; try done; intros; try (rewrite Hc in *); lia.
Qed.

Lemma feq_frank x y :
  is_nan x = false -> is_nan y = false -> feq x y = true <-> frank x = frank y.
Proof.
  intros Hx Hy. destruct (fcmp_not_nan x y Hx Hy) as [c Hc]. rewrite feq_fcmp, Hc.
  apply fcmp_frank in Hc. unfold lexlt in *.
  destruct c; split; try done; intros Heq; rewrite Heq in *; lia.
Qed.
