(* ===== verification/FloatBounds.v ===== *)
(** * FloatBounds: a bound that is a float survives rounding

    The operations of [GoFloat] round the exact result to the nearest float, so
    a result whose exact value is at most a float stays at most that float.  The
    bounds are [b * 2 ^ k] with [b < 2 ^ 53]; [Bnd k b x] says that [x] is a
    canonical float of magnitude at most that.  From it follow the magnitude of
    a sum, of a quotient by a count and of a product by one half, and how such
    a float compares with 0 and 1. *)

From S2P Require Import Prelude GoFloat.
#[local] Open Scope Z_scope.

Abbreviation fe := (fexp 53 1024).

Lemma fe_eq x : fe x = Z.max (x - 53) (-1074).
Proof. reflexivity. Qed.

(** ** Binary digits *)

Lemma dg_spec m : 0 < m -> 2 ^ (Zdigits2 m - 1) <= m < 2 ^ Zdigits2 m.
Proof.
  intros Hm. assert (Zdigits2 m = Z.log2 m + 1) as ->; [|pose proof (Z.log2_spec m Hm)].
  - destruct m as [|[p|p|]|]; try done; simpl; rewrite <-Pos2Z.inj_add, Pos.add_1_r; f_equal; f_equal.
    all: clear; induction p; simpl; congruence.
  - replace (Z.log2 m + 1 - 1) with (Z.log2 m) by lia. by rewrite Z.add_1_r.
Qed.

Lemma dg_nonneg m : 0 <= Zdigits2 m.
Proof. by destruct m. Qed.

(** [m < 2 ^ d] exactly when [m] has at most [d] digits. *)
Lemma dg_le m d : 0 <= m -> 0 <= d -> m < 2 ^ d -> Zdigits2 m <= d.
Proof.
  intros Hm Hd Hlt. destruct (decide (m = 0)) as [->|]; [done|].
  pose proof (dg_spec m ltac:(lia)) as [Hlo _].
  assert (2 ^ (Zdigits2 m - 1) < 2 ^ d) as He by lia. apply Z.pow_lt_mono_r_iff in He; lia.
Qed.

Lemma dg_ge m d : 0 <= d -> 2 ^ d <= m -> d < Zdigits2 m.
Proof.
  intros Hd Hle. assert (0 < m) by (pose proof (Z.pow_pos_nonneg 2 d); lia).
  pose proof (dg_spec m ltac:(lia)) as [_ Hhi].
  pose proof (dg_nonneg m). assert (2 ^ d < 2 ^ Zdigits2 m) as He by lia.
  apply Z.pow_lt_mono_r_iff in He; lia.
Qed.

Lemma dg_mono m m' : 0 <= m <= m' -> Zdigits2 m <= Zdigits2 m'.
Proof.
  intros H. destruct (decide (m' = 0)); [by replace m with m' by lia|].
  apply dg_le; [lia|apply dg_nonneg|]. pose proof (dg_spec m' ltac:(lia)). lia.
Qed.

Lemma dg_shift m j : 0 < m -> 0 <= j -> Zdigits2 (m * 2 ^ j) = Zdigits2 m + j.
Proof.
  intros Hm Hj. pose proof (dg_spec m Hm) as [Hlo Hhi]. pose proof (dg_nonneg m).
  assert (0 < Zdigits2 m) by (destruct m; done).
  pose proof (Z.pow_pos_nonneg 2 j). apply Z.le_antisymm.
  - apply dg_le; [nia|lia|]. rewrite Z.pow_add_r by lia. nia.
  - enough (Zdigits2 m + j - 1 < Zdigits2 (m * 2 ^ j)) by lia. apply dg_ge; [lia|].
    replace (Zdigits2 m + j - 1) with (Zdigits2 m - 1 + j) by lia. rewrite Z.pow_add_r by lia. nia.
Qed.

Lemma dg_div m j : 0 <= j -> 0 < m / 2 ^ j -> Zdigits2 (m / 2 ^ j) = Zdigits2 m - j.
Proof.
  intros Hj Hq. pose proof (Z.pow_pos_nonneg 2 j) as Hp.
  pose proof (Z.div_mod m (2 ^ j) ltac:(lia)). pose proof (Z.mod_pos_bound m (2 ^ j) ltac:(lia)).
  set (q := m / 2 ^ j) in *. pose proof (dg_spec q Hq) as [Hlo Hhi].
  assert (0 < Zdigits2 q) by (destruct q; done).
  enough (Zdigits2 m = Zdigits2 q + j) by lia. apply Z.le_antisymm.
  - apply dg_le; [nia|lia|]. rewrite Z.pow_add_r by lia. nia.
  - enough (Zdigits2 q + j - 1 < Zdigits2 m) by lia. apply dg_ge; [lia|].
    replace (Zdigits2 q + j - 1) with (Zdigits2 q - 1 + j) by lia. rewrite Z.pow_add_r by lia. nia.
Qed.

(** ** Shifting right with the lost bits recorded *)

(** What a record stands for is at most [B]. *)
Definition upto (B : Z) (r : shr_record) : Prop :=
  shr_m r < B \/ shr_m r = B /\ shr_r r = false /\ shr_s r = false.

Lemma shr_1_m r : 0 <= shr_m r -> shr_m (shr_1 r) = shr_m r / 2.
Proof.
  destruct r as [[|[p|p|]|p] r s]; cbn [shr_1 shr_m]; intros Hm;
    first [by apply Z.div_unique with 0; lia | by apply Z.div_unique with 1; lia | lia].
Qed.

Lemma shr_1_upto B r : 0 <= shr_m r -> upto (2 * B) r -> upto B (shr_1 r).
Proof.
  destruct r as [[|[p|p|]|] r s]; unfold upto; simpl; intros Hm [Hlt|(? & -> & ->)]; try lia.
  all: try (by right). all: left; lia.
Qed.

Lemma iter_pos_ind {A} (P : Z -> A -> Prop) (f : A -> A) :
  (forall j x, P j x -> P (j + 1) (f x)) ->
  forall n j x, P j x -> P (j + Zpos n) (iter_pos f n x).
Proof.
  intros Hf n. induction n as [n IH|n IH|]; intros j x Hx; simpl; [| |by apply Hf].
  - replace (j + Zpos n~1) with (j + 1 + Zpos n + Zpos n) by lia. by apply IH, IH, Hf.
  - replace (j + Zpos n~0) with (j + Zpos n + Zpos n) by lia. by apply IH, IH.
Qed.

Lemma iter_shr_1 n r B N :
  0 <= shr_m r -> upto (B * 2 ^ N) r -> Zpos n <= N ->
  shr_m (iter_pos shr_1 n r) = shr_m r / 2 ^ Zpos n /\ upto (B * 2 ^ (N - Zpos n)) (iter_pos shr_1 n r).
Proof.
  intros Hm Hr Hn.
  destruct (iter_pos_ind (fun j x => 0 <= j /\ (j <= N ->
      0 <= shr_m x /\ shr_m x = shr_m r / 2 ^ j /\ upto (B * 2 ^ (N - j)) x)) shr_1)
    with (j := 0) (n := n) (x := r) as [_ H].
  - intros j x [Hj IH]. split; [lia|]. intros HN. destruct IH as (Hx & Hmx & Hux); [lia|].
    rewrite (shr_1_m x Hx). split_and!.
    + apply Z.div_pos; lia.
    + rewrite Hmx, Z.pow_add_r by lia. rewrite Zdiv_Zdiv by lia. done.
    + apply shr_1_upto; [done|]. replace (N - j) with (1 + (N - (j + 1))) in Hux by lia.
      rewrite Z.pow_add_r in Hux by lia. by replace (2 * (B * 2 ^ (N - (j + 1)))) with
        (B * (2 ^ 1 * 2 ^ (N - (j + 1)))) by lia.
  - split; [done|]. intros _. rewrite Z.pow_0_r, Z.div_1_r, Z.sub_0_r. done.
  - destruct H as (_ & ? & ?); [lia|]. done.
Qed.

(** The exact value of a mantissa with a location is at most [B]. *)
Definition uptoL (B m : Z) (l : location) : Prop := m < B \/ m = B /\ l = loc_Exact.

Lemma upto_of_loc B m l : uptoL B m l <-> upto B (shr_record_of_loc m l).
Proof. unfold uptoL, upto. destruct l as [|[]]; simpl; intuition congruence. Qed.

Lemma upto_loc_of B r : upto B r -> uptoL B (shr_m r) (loc_of_shr_record r).
Proof. unfold uptoL, upto. destruct r as [m [] []]; simpl; intuition congruence. Qed.

Lemma round_upto B m l : uptoL B m l -> m <= round_nearest_even m l <= B /\
  round_nearest_even m l <= m + 1.
Proof. unfold uptoL. destruct l as [|[]]; simpl; try destruct (Z.even m); intuition lia || intuition congruence. Qed.

(** Shifting left to a smaller exponent keeps the value. *)
Lemma shl_align_spec m ex ex' : exists m' e',
  shl_align m ex ex' = (m', e') /\ e' = Z.min ex ex' /\ Zpos m' = Zpos m * 2 ^ (ex - e').
Proof.
  unfold shl_align. destruct (ex' - ex) as [|d|d] eqn:Ed.
  1,2: exists m, ex; split_and!; [done|lia|rewrite Z.sub_diag; lia].
  exists (Pos.iter xO m d), ex'. split_and!; [done|lia|].
  change (Pos.iter xO m d) with (shift_pos d m). rewrite shift_pos_correct, Z.mul_comm. f_equal.
  change (2 ^ Zpos d = 2 ^ (ex - ex')). f_equal. lia.
Qed.

Section bound.
(** The bound [b * 2 ^ k]. *)
Context (b k : Z) (Hb : 0 <= b < 2 ^ 53) (Hk : -1074 <= k).
Implicit Types m e : Z.

(** Aligning the mantissa keeps the exponent under [k]. *)
Lemma fe_under m e : 0 <= m -> m <= b * 2 ^ (k - e) -> e <= k -> fe (Zdigits2 m + e) <= k.
Proof.
  intros Hm Hle He. rewrite fe_eq. enough (Zdigits2 m <= 53 + (k - e)) by lia.
  apply dg_le; [done|lia|]. rewrite Z.pow_add_r by lia.
  pose proof (Z.pow_pos_nonneg 2 (k - e)). nia.
Qed.

Lemma shr_fexp_bound m e l :
  0 <= m -> e <= k -> e <= fe (Zdigits2 m + e) -> uptoL (b * 2 ^ (k - e)) m l ->
  let r := (shr_fexp 53 1024 m e l).1 in
  let e' := (shr_fexp 53 1024 m e l).2 in
  0 <= shr_m r /\ e' <= k /\ fe (Zdigits2 (shr_m r) + e') = e' /\
  upto (b * 2 ^ (k - e')) r /\ (l = loc_Exact -> shr_m r * 2 ^ (e' - e) <= m).
Proof.
  intros Hm He Hfe Hu. assert (m <= b * 2 ^ (k - e)) as Hle by (unfold uptoL in Hu; lia).
  pose proof (fe_under m e Hm Hle He) as Hfk. unfold shr_fexp, shr.
  apply upto_of_loc in Hu. set (rec := shr_record_of_loc m l) in *.
  assert (shr_m rec = m) as Hrec by (by destruct l as [|[]]).
  destruct (fe (Zdigits2 m + e) - e) as [|n|n] eqn:En; [| |lia]; cbn [fst snd].
  - rewrite Hrec. split_and!; try done; [by replace e with (fe (Zdigits2 m + e)) at 2 by lia|].
    intros _. replace (e - e) with 0 by lia. lia.
  - destruct (iter_shr_1 n rec b (k - e)) as [Hrm Hru]; [lia|done|lia|].
    set (r' := iter_pos shr_1 n rec) in *. rewrite Hrm, Hrec.
    split_and!.
    + apply Z.div_pos; lia.
    + lia.
    + rewrite fe_eq in En |- *. destruct (decide (0 < m / 2 ^ Zpos n)) as [Hpos|Hz].
      * rewrite dg_div by (done || lia). lia.
      * pose proof (Z.div_pos m (2 ^ Zpos n) Hm ltac:(lia)).
        assert (m / 2 ^ Zpos n = 0) as Hq by lia. rewrite Hq. change (Zdigits2 0) with 0.
        assert (Zdigits2 m <= Zpos n); [|lia]. apply dg_le; [lia|lia|].
        apply Z.div_small_iff in Hq as [|]; lia.
    + by replace (k - (e + Zpos n)) with (k - e - Zpos n) by lia.
    + intros _. replace (e + Zpos n - e) with (Zpos n) by lia.
      rewrite Z.mul_comm. apply Z.mul_div_le. lia.
Qed.

(** ** Floats of bounded magnitude *)

Definition Bnd (x : float64) : Prop :=
  match x with
  | S754_zero _ => True
  | S754_finite _ m e => e <= k /\ fe (Zdigits2 (Zpos m) + e) = e /\ Zpos m <= b * 2 ^ (k - e)
  | _ => False
  end.

Definition sign (x : float64) : bool :=
  match x with S754_zero s | S754_infinity s | S754_finite s _ _ => s | S754_nan => false end.

Lemma round_aux_bound sx m e l :
  0 <= m -> e <= k -> e <= fe (Zdigits2 m + e) -> uptoL (b * 2 ^ (k - e)) m l -> k <= 971 ->
  Bnd (binary_round_aux 53 1024 sx m e l) /\ sign (binary_round_aux 53 1024 sx m e l) = sx.
Proof.
  intros Hm He Hfe Hu Hk2. unfold binary_round_aux.
  destruct (shr_fexp_bound m e l Hm He Hfe Hu) as (Hm1 & He1 & Hc1 & Hu1 & _).
  destruct (shr_fexp 53 1024 m e l) as [r1 e1]. cbn [fst snd] in *.
  apply upto_loc_of in Hu1. apply round_upto in Hu1.
  set (m2 := round_nearest_even _ _) in *.
  assert (uptoL (b * 2 ^ (k - e1)) m2 loc_Exact) as Hu2.
  { unfold uptoL. destruct (decide (m2 = b * 2 ^ (k - e1))); [by right|left; lia]. }
  destruct (shr_fexp_bound m2 e1 loc_Exact) as (Hm3 & He3 & Hc3 & Hu3 & _);
    [lia|done| |done|].
  { rewrite <-Hc1 at 1. pose proof (dg_mono (shr_m r1) m2 ltac:(lia)). rewrite !fe_eq. lia. }
  destruct (shr_fexp 53 1024 m2 e1 loc_Exact) as [r3 e3]. cbn [fst snd] in *.
  destruct (shr_m r3) as [|m3|m3] eqn:Em; [done| |lia].
  change (1024 - 53) with 971. rewrite (proj2 (Z.leb_le e3 971)) by lia.
  split; [|done]. split_and!; [done|done|]. unfold upto in Hu3. lia.
Qed.

Lemma round_bound sx (m : positive) e :
  e <= k -> Zpos m <= b * 2 ^ (k - e) -> k <= 971 ->
  Bnd (binary_round 53 1024 sx m e) /\ sign (binary_round 53 1024 sx m e) = sx.
Proof.
  intros He Hm Hk2. unfold binary_round.
  pose proof (fe_under (Zpos m) e ltac:(lia) Hm He) as Hfk.
  destruct (shl_align_spec m e (fe (Zpos (digits2_pos m) + e))) as (m' & e' & -> & He' & Hm').
  cbn [Zdigits2] in Hfk. apply round_aux_bound; [lia|lia| | |done].
  - rewrite Hm', dg_shift by lia. cbn [Zdigits2]. rewrite fe_eq in *. lia.
  - rewrite Hm'. unfold uptoL. replace (k - e') with (k - e + (e - e')) by lia.
    rewrite Z.pow_add_r by lia. pose proof (Z.pow_pos_nonneg 2 (e - e')).
    destruct (decide (Zpos m = b * 2 ^ (k - e))) as [->|]; [right; split; [lia|done]|left; nia].
Qed.

Lemma normalize_bound z e :
  e <= k -> Z.abs z <= b * 2 ^ (k - e) -> k <= 971 ->
  Bnd (binary_normalize 53 1024 z e false) /\
  (0 <= z -> sign (binary_normalize 53 1024 z e false) = false).
Proof.
  intros He Hz Hk2. destruct z as [|m|m]; simpl; [done| |].
  - destruct (round_bound false m e) as [??]; [done|lia|done|]. done.
  - destruct (round_bound true m e) as [??]; [done|lia|done|]. split; [done|lia].
Qed.
End bound.

(** ** The operations *)

Lemma Bnd_mono b b' k x : b <= b' -> Bnd b k x -> Bnd b' k x.
Proof.
  intros Hb. destruct x as [| | |s m e]; try done. intros (? & ? & ?). split_and!; try done.
  pose proof (Z.pow_pos_nonneg 2 (k - e)). nia.
Qed.

Lemma Bnd_not_nan b k x : Bnd b k x -> is_nan x = false.
Proof. by destruct x. Qed.

(** The mantissa of a float at an exponent not above its own. *)
Lemma aligned b k s m e ez :
  Bnd b k (S754_finite s m e) -> ez <= e ->
  Z.abs (cond_Zopp s (Zpos (fst (shl_align m e ez)))) <= b * 2 ^ (k - ez) /\
  cond_Zopp s (Zpos (fst (shl_align m e ez))) = cond_Zopp s (Zpos m * 2 ^ (e - ez)).
Proof.
  intros (He & _ & Hm) Hez. destruct (shl_align_spec m e ez) as (m' & e' & -> & -> & Hm').
  replace (Z.min e ez) with ez in Hm' by lia. cbn [fst]. rewrite Hm'. split; [|done].
  assert (Z.abs (cond_Zopp s (Zpos m * 2 ^ (e - ez))) = Zpos m * 2 ^ (e - ez)) as ->.
  { pose proof (Z.pow_pos_nonneg 2 (e - ez)). destruct s; simpl cond_Zopp; nia. }
  replace (k - ez) with (k - e + (e - ez)) by lia. rewrite Z.pow_add_r by lia.
  pose proof (Z.pow_pos_nonneg 2 (e - ez)). nia.
Qed.

Lemma fadd_bound b1 b2 k x y :
  0 <= b1 -> 0 <= b2 -> b1 + b2 < 2 ^ 53 -> -1074 <= k <= 971 ->
  Bnd b1 k x -> Bnd b2 k y -> Bnd (b1 + b2) k (fadd x y).
Proof.
  intros Hb1 Hb2 Hb Hk Hx Hy.
  assert (Bnd (b1 + b2) k x) by (by apply (Bnd_mono b1); [lia|]).
  assert (Bnd (b1 + b2) k y) by (by apply (Bnd_mono b2); [lia|]).
  destruct x as [[]| | |sx mx ex], y as [[]| | |sy my ey]; try done.
  unfold fadd, SFadd. set (ez := Z.min ex ey).
  destruct (aligned b1 k sx mx ex ez Hx ltac:(lia)) as [Hax _].
  destruct (aligned b2 k sy my ey ez Hy ltac:(lia)) as [Hay _].
  destruct Hx as [Hex _], Hy as [Hey _].
  apply (normalize_bound (b1 + b2) k); [lia|lia|lia| |lia].
  rewrite Z.mul_add_distr_r. lia.
Qed.

(** [0.5 + y] for [y] in [-0.5, 0.5]. *)
Definition fhalf : float64 := flit 1 2.

Lemma half_eq : fhalf = S754_finite false (2 ^ 52) (-53).
Proof. reflexivity. Qed.

Lemma fadd_half_bound y :
  Bnd 1 (-1) y -> Bnd 2 (-1) (fadd fhalf y) /\ sign (fadd fhalf y) = false.
Proof.
  intros Hy. assert (Bnd 1 (-1) fhalf) as Hh by (split_and!; done).
  split; [apply (fadd_bound 1 1); done || lia|].
  rewrite half_eq in *. destruct y as [[]| | |sy my ey]; try done.
  unfold fadd, SFadd. set (ez := Z.min (-53) ey).
  destruct (aligned 1 (-1) false (2 ^ 52) (-53) ez Hh ltac:(lia)) as [_ ->].
  destruct (aligned 1 (-1) sy my ey ez Hy ltac:(lia)) as [Hay _].
  destruct Hy as [Hey _].
  apply (normalize_bound 2 (-1)); [lia|lia|lia| |lia|].
  all: cbn [cond_Zopp]; assert (Zpos (2 ^ 52) * 2 ^ (-53 - ez) = 2 ^ (-1 - ez)) as ->
    by (change (Zpos (2 ^ 52)) with (2 ^ 52); rewrite <-Z.pow_add_r by lia; f_equal; lia).
  all: pose proof (Z.pow_pos_nonneg 2 (-1 - ez)); lia.
Qed.

Lemma fmul_half_bound x : Bnd 1 0 x -> Bnd 1 (-1) (fmul fhalf x).
Proof.
  rewrite half_eq. destruct x as [| | |s m e]; try done. intros (He & Hc & Hm).
  unfold fmul, SFmul.
  assert (Zpos (2 ^ 52 * m) = Zpos m * 2 ^ 52) as Hm52 by lia.
  apply (round_aux_bound 1 (-1)); [lia|lia|lia|lia| | |lia].
  - rewrite Hm52, dg_shift by lia. rewrite fe_eq in *. lia.
  - rewrite Hm52. unfold uptoL.
    replace (-1 - (-53 + e)) with (0 - e + 52) by lia. rewrite Z.pow_add_r by lia.
    destruct (decide (Zpos m = 2 ^ (0 - e))); [right; split; [lia|done]|left; nia].
Qed.

(** A count below 2 ^ 53 is a float. *)
Lemma of_int_exact n : 0 < n < 2 ^ 53 -> exists m e,
  of_int n = S754_finite false m e /\ e <= 0 /\ Zpos m = n * 2 ^ (- e).
Proof.
  intros Hn. unfold of_int, f64, binary_normalize. destruct n as [|n|n]; [lia| |lia].
  unfold binary_round.
  destruct (shl_align_spec n 0 (fe (Zpos (digits2_pos n) + 0))) as (m & e & -> & He & Hm).
  assert (Zdigits2 (Zpos n) <= 53) as Hd by (apply dg_le; lia). cbn [Zdigits2] in Hd.
  pose proof (dg_nonneg (Zpos n)) as Hd0. cbn [Zdigits2] in Hd0.
  assert (fe (Zdigits2 (Zpos m) + e) = e) as Hc.
  { rewrite Hm, dg_shift by lia. cbn [Zdigits2]. rewrite fe_eq in *. lia. }
  exists m, e. split_and!; [|lia|by rewrite Hm, Z.sub_0_l].
  unfold binary_round_aux, shr_fexp. rewrite Hc, Z.sub_diag. cbn [shr shr_record_of_loc shr_m].
  cbn [loc_of_shr_record round_nearest_even shr_m]. rewrite Hc, Z.sub_diag.
  cbn [shr shr_record_of_loc shr_m]. change (1024 - 53) with 971.
  by rewrite (proj2 (Z.leb_le e 971)) by lia.
Qed.

Lemma new_location_exact n r : r = 0 -> new_location n r = loc_Exact.
Proof.
  intros ->. unfold new_location, new_location_even, new_location_odd. by destruct (Z.even n).
Qed.

(** The quotient of two mantissas that stand for numbers whose ratio is at most 1. *)
Lemma quotient_bound m1 m2 d e' sh :
  0 < m1 -> 0 < m2 -> 0 <= sh -> e' <= 0 -> m1 * 2 ^ sh <= m2 * 2 ^ (- e') ->
  d <= Zdigits2 m1 - Zdigits2 m2 + sh + e' -> e' <= fe d ->
  let q := (m1 * 2 ^ sh) / m2 in
  0 <= q /\ e' <= fe (Zdigits2 q + e') /\
  uptoL (2 ^ (- e')) q (new_location m2 ((m1 * 2 ^ sh) mod m2)).
Proof.
  intros Hm1 Hm2 Hsh He' Hle Hd Hfd q.
  pose proof (Z.pow_pos_nonneg 2 sh). pose proof (Z.pow_pos_nonneg 2 (- e')).
  pose proof (Z.div_mod (m1 * 2 ^ sh) m2 ltac:(lia)) as Hdm. fold q in Hdm.
  pose proof (Z.mod_pos_bound (m1 * 2 ^ sh) m2 ltac:(lia)) as Hr.
  set (r := (m1 * 2 ^ sh) mod m2) in *. assert (0 <= q) by (apply Z.div_pos; nia).
  split_and!; [done| |].
  - assert (Zdigits2 m1 - Zdigits2 m2 + sh <= Zdigits2 q) as Hq; [|rewrite fe_eq in *; lia].
    pose proof (dg_spec m1 Hm1). pose proof (dg_spec m2 Hm2). pose proof (dg_nonneg q).
    destruct (decide (Zdigits2 m1 - Zdigits2 m2 + sh <= 0)); [lia|].
    pose proof (dg_nonneg m2).
    set (j := Zdigits2 m1 - 1 - Zdigits2 m2 + sh).
    enough (j < Zdigits2 q) by lia. apply dg_ge; [lia|]. apply Z.div_le_lower_bound; [lia|].
    assert (2 ^ Zdigits2 m2 * 2 ^ j <= m1 * 2 ^ sh) as Hj; [|pose proof (Z.pow_pos_nonneg 2 j); nia].
    rewrite <-Z.pow_add_r by lia. replace (Zdigits2 m2 + j) with (Zdigits2 m1 - 1 + sh) by lia.
    assert (0 < Zdigits2 m1) by (by destruct m1). rewrite Z.pow_add_r by lia. nia.
  - unfold uptoL. destruct (decide (q < 2 ^ (- e'))); [by left|right].
    assert (q = 2 ^ (- e') /\ r = 0) as [-> Hr0] by nia. by rewrite new_location_exact.
Qed.

Lemma fdiv_count_bound n x : 0 < n < 2 ^ 53 -> Bnd n 0 x -> Bnd 1 0 (fdiv x (of_int n)).
Proof.
  intros Hn. destruct (of_int_exact n Hn) as (m2 & e2 & -> & He2 & Hm2).
  destruct x as [s| | |s m1 e1]; try done. intros (He1 & Hc1 & Hm1).
  rewrite Z.sub_0_l in Hm1. unfold fdiv, SFdiv, SFdiv_core_binary.
  set (d := Zdigits2 (Zpos m1) + e1 - (Zdigits2 (Zpos m2) + e2)).
  set (e' := Z.min (fexp 53 1024 d) (e1 - e2)). set (sh := e1 - e2 - e').
  assert (0 <= sh) as Hsh by lia.
  assert (match sh with 0 => Zpos m1 | Zpos _ => Z.shiftl (Zpos m1) sh | Zneg _ => 0 end =
          Zpos m1 * 2 ^ sh) as ->.
  { destruct sh as [|p|p]; [lia| |lia]. by rewrite Z.shiftl_mul_pow2 by lia. }
  assert (Z.div_eucl (Zpos m1 * 2 ^ sh) (Zpos m2) =
          ((Zpos m1 * 2 ^ sh) / Zpos m2, (Zpos m1 * 2 ^ sh) mod Zpos m2)) as ->.
  { unfold Z.div, Z.modulo. by destruct (Z.div_eucl _ _). }
  assert (d <= 0) as Hd.
  { unfold d. enough (Zdigits2 (Zpos m1 * 2 ^ (- e2)) <= Zdigits2 (Zpos m2) - e1)
      by (rewrite dg_shift in * by lia; lia).
    pose proof (dg_nonneg (Zpos m2)). apply dg_le; [lia|lia|].
    pose proof (dg_spec (Zpos m2) ltac:(lia)) as [_ Hhi].
    replace (Zdigits2 (Zpos m2) - e1) with (Zdigits2 (Zpos m2) + - e1) by lia.
    rewrite Z.pow_add_r by lia.
    pose proof (Z.pow_pos_nonneg 2 (- e1)). pose proof (Z.pow_pos_nonneg 2 (- e2)). nia. }
  destruct (quotient_bound (Zpos m1) (Zpos m2) d e' sh) as (Hq & Hfe & Hu);
    [lia|lia|done|unfold e'; rewrite fe_eq; lia| |lia|lia|].
  - assert (e' <= 0) by (unfold e'; rewrite fe_eq; lia).
    rewrite Hm2, <-Z.mul_assoc, <-Z.pow_add_r by lia.
    replace (- e2 + - e') with (- e1 + sh) by lia. rewrite Z.pow_add_r by lia.
    pose proof (Z.pow_pos_nonneg 2 sh). nia.
  - apply (round_aux_bound 1 0); [lia|lia|done|unfold e'; rewrite fe_eq; lia|done| |lia].
    by rewrite Z.mul_1_l, Z.sub_0_l.
Qed.

(** ** Comparing with 1

    On canonical floats the order of exponents and mantissas is the order of
    values. *)

Lemma one_eq : exists p, fone = S754_finite false p (-52) /\
  of_int (-1) = S754_finite true p (-52) /\ Zpos p = 2 ^ 52.
Proof. by exists (2 ^ 52)%positive. Qed.

Lemma cmp_finite m e m' e' :
  fcmp (S754_finite false m e) (S754_finite false m' e') =
    Some match e ?= e' with Eq => (m ?= m')%positive | c => c end /\
  fcmp (S754_finite true m e) (S754_finite true m' e') =
    Some (CompOpp match e ?= e' with Eq => (m ?= m')%positive | c => c end).
Proof. unfold fcmp, SFcompare. by destruct (e ?= e'). Qed.

Lemma canonical_le_one m e :
  fe (Zdigits2 (Zpos m) + e) = e ->
  fcmp (S754_finite false m e) fone <> Some Gt <-> e <= 0 /\ Zpos m <= 2 ^ (- e).
Proof.
  intros Hc. destruct one_eq as (p & -> & _ & Hp). rewrite (proj1 (cmp_finite _ _ _ _)).
  rewrite fe_eq in Hc. pose proof (dg_spec (Zpos m) ltac:(lia)) as [Hlo Hhi].
  destruct (Z.compare_spec e (-52)) as [->|Hlt|Hgt].
  - change (- -52) with 52. rewrite <-Hp.
    destruct (Pos.compare_spec m p) as [->| |]; split; try done; intros; lia.
  - split; [|done]. intros _. split; [lia|].
    assert (2 ^ Zdigits2 (Zpos m) <= 2 ^ (- e)); [|lia]. apply Z.pow_le_mono_r; lia.
  - split; [done|]. intros [He Hm] _. replace (Zdigits2 (Zpos m) - 1) with 52 in Hlo by lia.
    assert (2 ^ (- e) < 2 ^ 52); [|lia]. apply Z.pow_lt_mono_r; lia.
Qed.

(** A float of [0, 1]. *)
Lemma unit_range x :
  Bnd 2 (-1) x -> sign x = false -> fle fzero x = true /\ fle x fone = true.
Proof.
  destruct x as [[]| | |[] m e]; try done. intros (He & Hc & Hm) _. split; [done|].
  replace (2 * 2 ^ (-1 - e)) with (2 ^ (- e)) in Hm
    by (rewrite <-Z.pow_succ_r by lia; f_equal; lia).
  pose proof (proj2 (canonical_le_one m e Hc) ltac:(lia)) as Hle.
  rewrite fle_fcmp. destruct (fcmp_not_nan (S754_finite false m e) fone eq_refl eq_refl) as [c Ec].
  rewrite Ec in *. by destruct c.
Qed.

(** A float64 that is neither below -1 nor above 1. *)
Lemma unit_bound x :
  valid_binary 53 1024 x = true -> is_nan x = false ->
  flt x (of_int (-1)) = false -> flt fone x = false -> Bnd 1 0 x.
Proof.
  intros Hv Hn Hlo Hhi. destruct x as [[]|[]| |s m e]; try done.
  apply andb_true_iff in Hv as [Hc _]. apply Z.eqb_eq in Hc.
  cut (e <= 0 /\ Zpos m <= 2 ^ (- e)); [intros [? ?]; split_and!; [done|done|rewrite Z.sub_0_l; lia]|].
  apply canonical_le_one; [done|]. destruct one_eq as (p & Ef & Eo & _).
  rewrite flt_fcmp, Eo in Hlo. rewrite flt_fcmp, Ef in Hhi. rewrite Ef. destruct s.
  - rewrite (proj2 (cmp_finite _ _ _ _)) in Hlo. rewrite (proj1 (cmp_finite _ _ _ _)).
    intros [= Hgt]. by rewrite Hgt in Hlo.
  - rewrite (proj1 (cmp_finite _ _ _ _)) in Hhi. rewrite (proj1 (cmp_finite _ _ _ _)). intros [= Hgt]. revert Hhi Hgt.
    rewrite (Z.compare_antisym e (-52)), (Pos.compare_antisym m p).
    destruct (e ?= -52), (m ?= p)%positive; done.
Qed.
