(* ===== verification/GoFormat.v ===== *)
(** * GoFormat: formatting as the source uses it

    strconv.Quote, strings.NewReplacer, [%.2f] and time.RFC3339 in UTC, with
    what they promise about the characters they write.  The Unicode tables of
    [strconv.IsPrint] beyond Latin-1 are an argument. *)

From Stdlib Require Import Strings.Byte Strings.Ascii.
From stdpp Require Import strings list pretty.
From S2P Require Import Prelude GoString GoFloat Utf8 GoText.

#[local] Open Scope string_scope.
#[local] Open Scope Z_scope.

(** ** Concatenation *)

Lemma concat_cons sep c d l : String.concat sep (c :: d :: l) = c +:+ sep +:+ String.concat sep (d :: l).
Proof. reflexivity. Qed.

Lemma concat_cons0 x l : String.concat "" (x :: l) = x +:+ String.concat "" l.
Proof. destruct l as [|y l]; [by rewrite append_empty_r|done]. Qed.

(** ** Characters of a string *)

Fixpoint all_chars (P : ascii -> bool) (s : string) : bool :=
  match s with
  | EmptyString => true
  | String c s => P c && all_chars P s
  end.

Lemma all_chars_app P s t : all_chars P (s +:+ t) = all_chars P s && all_chars P t.
Proof. induction s as [|c s IH]; [done|].
  change (String c s +:+ t) with (String c (s +:+ t)). cbn [all_chars]. by rewrite IH, andb_assoc. Qed.

Lemma all_chars_impl (P Q : ascii -> bool) s :
  (forall c, P c = true -> Q c = true) -> all_chars P s = true -> all_chars Q s = true.
Proof.
  intros HPQ. induction s as [|c s IH]; [done|]. cbn [all_chars].
  intros [Hc Hs]%andb_true_iff. by rewrite (HPQ c Hc), (IH Hs).
Qed.

Lemma all_chars_bytes P (l : bytes) :
  all_chars P (String.string_of_list_byte l) = forallb (fun b => P (ascii_of_byte b)) l.
Proof.
  induction l as [|b l IH]; [done|]. cbn [forallb]. rewrite <-IH. reflexivity.
Qed.

Definition code (c : ascii) : Z := Z.of_nat (nat_of_ascii c).

(** Not a control character: it neither ends a line nor moves in it. *)
Definition graphic (c : ascii) : bool := 32 <=? code c.

Lemma code_of_byte b : code (ascii_of_byte b) = byte_Z b.
Proof. by destruct b. Qed.

Lemma no_control_char c s : graphic c = false -> all_chars graphic s = true -> has_char c s = false.
Proof.
  intros Hc. induction s as [|d s IH]; [done|]. cbn [all_chars has_char]. intros [Hd Hs]%andb_true_iff.
  rewrite (IH Hs), orb_false_r. apply Ascii.eqb_neq. congruence.
Qed.

(** ** strings.NewReplacer(...).Replace

    The pairs are tried in order at each position; [skip] characters are left
    of a pattern that matched. *)
Fixpoint replace_from (pairs : list (string * string)) (skip : nat) (s : string) : string :=
  match s with
  | EmptyString => EmptyString
  | String c s' =>
      match skip with
      | S k => replace_from pairs k s'
      | O => match List.find (fun p => HasPrefix s p.1) pairs with
             | Some (old, new) => new +:+ replace_from pairs (Nat.pred (String.length old)) s'
             | None => String c (replace_from pairs 0 s')
             end
      end
  end.
Definition Replace (pairs : list (string * string)) (s : string) : string := replace_from pairs 0 s.

(** A character that is replaced wherever it stands alone is gone, if no
    replacement brings it back. *)
Lemma Replace_no_char pairs c s :
  Forall (fun p => has_char c p.2 = false) pairs -> String c EmptyString ∈ map fst pairs ->
  has_char c (Replace pairs s) = false.
Proof.
  intros Hnew Hin. unfold Replace. generalize 0%nat. induction s as [|d s IH]; intros skip; [done|].
  cbn [replace_from]. destruct skip as [|k]; [|apply IH].
  destruct (List.find _ pairs) as [[old new]|] eqn:Ef.
  - apply List.find_some in Ef as [Hf _]. rewrite has_char_app, IH, orb_false_r.
    rewrite Forall_forall in Hnew. apply (Hnew (old, new)), list_elem_of_In, Hf.
  - cbn [has_char]. rewrite IH, orb_false_r. apply Ascii.eqb_neq. intros ->.
    apply list_elem_of_fmap in Hin as ([old new] & Hold & Hp). cbn [fst] in Hold. subst old.
    apply list_elem_of_In in Hp. apply (List.find_none _ _ Ef) in Hp. cbn in Hp.
    rewrite Ascii.eqb_refl in Hp. by destruct s.
Qed.

(** ** strconv.Quote *)

Definition dquote : ascii := "034".
Definition backslash : ascii := "\".

Definition hex_byte (n : Z) : string :=
  String.string_of_list_byte [hex_digit (n / 16 mod 16); hex_digit (n mod 16)].

Definition hex4 (n : Z) : string := hex_byte (n / 256) +:+ hex_byte (n mod 256).

Section Quote.
(** [strconv.IsPrint] of a rune above U+00FF. *)
Context (IsPrintWide : Z -> bool).

Definition IsPrint (r : Z) : bool :=
  if r <=? 255 then ((32 <=? r) && (r <? 127)) || ((161 <=? r) && negb (r =? 173)) else IsPrintWide r.

Definition escapeRune (r : Z) : string :=
  let esc (c : ascii) := String backslash (String c EmptyString) in
  if (r =? code dquote) || (r =? code backslash) then esc (ascii_of_nat (Z.to_nat r))
  else if IsPrint r then String.string_of_list_byte (EncodeRune r)
  else if r =? 7 then esc "a"%char
  else if r =? 8 then esc "b"%char
  else if r =? 12 then esc "f"%char
  else if r =? 10 then esc "n"%char
  else if r =? 13 then esc "r"%char
  else if r =? 9 then esc "t"%char
  else if r =? 11 then esc "v"%char
  else if (r <? 32) || (r =? 127) then String backslash (String "x" (hex_byte r))
  else if r <? 65536 then String backslash (String "u" (hex4 r))
  else String backslash (String "U" (hex4 (r / 65536) +:+ hex4 (r mod 65536))).

Fixpoint quote_from (fuel : nat) (s : bytes) : string :=
  match fuel with
  | O => EmptyString
  | S fuel =>
      match s with
      | [] => EmptyString
      | b :: _ =>
          let '(r, width) := DecodeRune s in
          (if (width =? 1)%nat && (r =? RuneError) then String backslash (String "x" (hex_byte (byte_Z b)))
           else escapeRune r) +:+ quote_from fuel (drop width s)
      end
  end.

(** A rune takes a byte at least. *)
Definition Quote (s : string) : string :=
  String dquote (quote_from (length (lit s)) (lit s) +:+ String dquote EmptyString).

Lemma hex_digit_graphic n : graphic (ascii_of_byte (hex_digit (n mod 16))) = true.
Proof.
  unfold hex_digit. pose proof (Z.mod_pos_bound n 16 ltac:(lia)).
  assert (Forall (fun b => graphic (ascii_of_byte b) = true) (lit "0123456789abcdef")) as Hall
    by (by repeat constructor).
  rewrite Forall_forall in Hall. apply Hall, list_elem_of_In, nth_In.
  change (Z.to_nat (n mod 16) < 16)%nat. lia.
Qed.

Lemma hex_byte_graphic n : all_chars graphic (hex_byte n) = true.
Proof. unfold hex_byte. rewrite all_chars_bytes. cbn [forallb]. by rewrite !hex_digit_graphic. Qed.

Lemma byte_of_graphic n : 32 <= n < 256 -> graphic (ascii_of_byte (byte_of n)) = true.
Proof. intros Hn. unfold graphic. rewrite code_of_byte, byte_Z_of by lia. apply Z.leb_le. lia. Qed.

(** Linear goals with quotients and remainders by constants. *)
Ltac div_lia := Z.to_euclidean_division_equations; lia.

(** A rune that is not a control character is written without one. *)
Lemma EncodeRune_graphic r :
  (r <= 127 -> 32 <= r) -> all_chars graphic (String.string_of_list_byte (EncodeRune r)) = true.
Proof.
  intros Hr. rewrite all_chars_bytes. unfold EncodeRune.
  destruct ((0 <=? r) && (r <=? 127)) eqn:E1.
  { to_prop. cbn [forallb]. by rewrite byte_of_graphic by div_lia. }
  destruct ((128 <=? r) && (r <=? 2047)) eqn:E2.
  { to_prop. cbn [forallb]. by rewrite !byte_of_graphic by div_lia. }
  set (r' := if (0 <=? r) && (r <=? 1114111) && negb ((55296 <=? r) && (r <=? 57343)) then r else RuneError).
  assert (0 <= r' <= 1114111) as Hr'.
  { unfold r', RuneError. destruct (0 <=? r) eqn:E; [|simpl; lia]. destruct (r <=? 1114111) eqn:E'; simpl; [|lia].
    destruct (negb _); to_prop; lia. }
  destruct (Z.leb_spec r' 65535); cbn [forallb].
  - by rewrite !byte_of_graphic by div_lia.
  - by rewrite !byte_of_graphic by div_lia.
Qed.

Lemma escapeRune_graphic r : all_chars graphic (escapeRune r) = true.
Proof.
  unfold escapeRune. destruct ((r =? code dquote) || (r =? code backslash)) eqn:E.
  { to_prop. destruct E as [E|E]; apply Z.eqb_eq in E as ->; done. }
  destruct (IsPrint r) eqn:Ep.
  { apply EncodeRune_graphic. intros Hle. unfold IsPrint in Ep.
    rewrite (proj2 (Z.leb_le r 255)) in Ep by lia. to_prop. destruct Ep; to_prop; lia. }
  clear E. repeat (destruct (_ =? _); [done|]).
  destruct (_ || _); [|destruct (r <? 65536)]; cbn [all_chars];
    unfold hex4; rewrite ?all_chars_app, ?hex_byte_graphic; done.
Qed.

Lemma quote_from_graphic fuel s : all_chars graphic (quote_from fuel s) = true.
Proof.
  revert s. induction fuel as [|n IH]; intros s; [done|]. cbn [quote_from].
  destruct s as [|b s]; [done|]. destruct (DecodeRune (b :: s)) as [r w].
  rewrite all_chars_app, IH, andb_true_r.
  destruct (_ && _); [|apply escapeRune_graphic]. cbn [all_chars]. by rewrite hex_byte_graphic.
Qed.

Lemma Quote_graphic s : all_chars graphic (Quote s) = true.
Proof. unfold Quote. cbn [all_chars]. by rewrite all_chars_app, quote_from_graphic. Qed.
End Quote.

(** ** Numbers

    [%.2f]: the exact value rounded to two decimals, halves to even. *)

Definition sign_str (s : bool) : string := if s then "-" else "".

(** [m * 2 ^ e], to the nearest integer, halves to even. *)
Definition round_pow2 (m e : Z) : Z :=
  if 0 <=? e then m * 2 ^ e
  else
    let d := 2 ^ (- e) in
    let '(q, r) := (m / d, m mod d) in
    match 2 * r ?= d with
    | Lt => q
    | Gt => q + 1
    | Eq => if Z.even q then q else q + 1
    end.

(** At least [w] digits. *)
Definition pad (w : nat) (z : Z) : string :=
  let s := pretty z in
  String.string_of_list_byte (repeat x30 (w - String.length s)) +:+ s.

Definition FormatFixed2 (x : float64) : string :=
  match x with
  | S754_nan => "NaN"
  | S754_infinity s => if s then "-Inf" else "+Inf"
  | S754_zero s => sign_str s +:+ "0.00"
  | S754_finite s m e =>
      let n := round_pow2 (Zpos m * 100) e in
      sign_str s +:+ pretty (n / 100) +:+ "." +:+ pad 2 (n mod 100)
  end.

Example fixed2 :
  FormatFixed2 (flit 5 8) = "0.62" /\ FormatFixed2 (flit (-1) 3) = "-0.33" /\
  FormatFixed2 (of_int 1) = "1.00" /\ FormatFixed2 (flit 199 200) = "0.99".
Proof. done. Qed.

(** ** [time.Unix(unix, 0).UTC().Format(time.RFC3339)]

    The civil date of a day number counted from 1 March of the year 0, by eras
    of 400 years. *)

Definition civil (days : Z) : Z * Z * Z :=
  let z := days + 719468 in
  let era := z / 146097 in
  let doe := z mod 146097 in
  let yoe := (doe - doe / 1460 + doe / 36524 - doe / 146096) / 365 in
  let doy := doe - (365 * yoe + yoe / 4 - yoe / 100) in
  let mp := (5 * doy + 2) / 153 in
  let d := doy - (153 * mp + 2) / 5 + 1 in
  let m := if mp <? 10 then mp + 3 else mp - 9 in
  (yoe + era * 400 + (if m <=? 2 then 1 else 0), m, d).

Definition rfc3339 (unix : Z) : string :=
  let '(y, m, d) := civil (unix / 86400) in
  let s := unix mod 86400 in
  pad 4 y +:+ "-" +:+ pad 2 m +:+ "-" +:+ pad 2 d +:+ "T" +:+
  pad 2 (s / 3600) +:+ ":" +:+ pad 2 (s / 60 mod 60) +:+ ":" +:+ pad 2 (s mod 60) +:+ "Z".

Example rfc3339_dates :
  rfc3339 0 = "1970-01-01T00:00:00Z" /\ rfc3339 1709164799 = "2024-02-28T23:59:59Z" /\
  rfc3339 1709164800 = "2024-02-29T00:00:00Z" /\ rfc3339 4102444800 = "2100-01-01T00:00:00Z".
Proof. done. Qed.

(** ** These write printable ASCII characters only *)

Definition printable (c : ascii) : bool := (32 <=? code c) && (code c <? 127).

Lemma printable_graphic s : all_chars printable s = true -> all_chars graphic s = true.
Proof. apply all_chars_impl. intros c. unfold printable, graphic. by intros [H _]%andb_true_iff. Qed.

Lemma pretty_N_go_printable x s :
  all_chars printable s = true -> all_chars printable (pretty_N_go x s) = true.
Proof.
  revert s. induction (N.lt_wf_0 x) as [x _ IH]; intros s Hs.
  destruct (decide (0 < x)%N) as [Hx|Hx].
  - rewrite pretty_N_go_step by done. apply IH; [by apply N.div_lt|].
    cbn [all_chars]. rewrite Hs, andb_true_r.
    unfold pretty_N_char. by repeat case_match.
  - replace x with 0%N by lia. done.
Qed.

Lemma pretty_Z_printable (z : Z) : all_chars printable (pretty z) = true.
Proof.
  assert (forall n : N, all_chars printable (pretty n) = true) as HN.
  { intros n. unfold pretty, pretty_N. destruct (decide (n = 0%N)); [done|]. by apply pretty_N_go_printable. }
  unfold pretty, pretty_Z. destruct z as [|p|p]; [apply (HN 0%N)|apply (HN (Npos p))|].
  rewrite all_chars_app. apply andb_true_iff; split; [done|apply (HN (Npos p))].
Qed.

Lemma pad_printable w z : all_chars printable (pad w z) = true.
Proof.
  unfold pad. rewrite all_chars_app, pretty_Z_printable, andb_true_r, all_chars_bytes.
  induction (w - _)%nat as [|n IH]; [done|]. simpl. by rewrite IH.
Qed.

Lemma rfc3339_printable unix : all_chars printable (rfc3339 unix) = true.
Proof.
  unfold rfc3339. destruct (civil _) as [[y m] d]. by rewrite !all_chars_app, !pad_printable.
Qed.

Lemma FormatFixed2_printable x : all_chars printable (FormatFixed2 x) = true.
Proof.
  destruct x as [[]|[]| |s m e]; try done. unfold FormatFixed2.
  rewrite !all_chars_app, pretty_Z_printable, pad_printable. by destruct s.
Qed.

Lemma hex_byte_printable n : all_chars printable (hex_byte n) = true.
Proof.
  assert (forall n, printable (ascii_of_byte (hex_digit (n mod 16))) = true) as H.
  { clear. intros n. unfold hex_digit. pose proof (Z.mod_pos_bound n 16 ltac:(lia)).
    assert (Forall (fun b => printable (ascii_of_byte b) = true) (lit "0123456789abcdef")) as Hall
      by (by repeat constructor).
    rewrite Forall_forall in Hall. apply Hall, list_elem_of_In, nth_In.
    change (Z.to_nat (n mod 16) < 16)%nat. lia. }
  unfold hex_byte. rewrite all_chars_bytes. cbn [forallb]. by rewrite !H.
Qed.

Lemma pretty_Z_graphic (z : Z) : all_chars graphic (pretty z) = true.
Proof. apply printable_graphic, pretty_Z_printable. Qed.
Lemma rfc3339_graphic unix : all_chars graphic (rfc3339 unix) = true.
Proof. apply printable_graphic, rfc3339_printable. Qed.
Lemma FormatFixed2_graphic x : all_chars graphic (FormatFixed2 x) = true.
Proof. apply printable_graphic, FormatFixed2_printable. Qed.
