(* ===== verification/WideBreaks.v ===== *)
(** * WideBreaks: the line breaks that take several bytes

    U+0085, U+2028 and U+2029 end a line for many readers.  Here: when a text
    holds none of them, and that replacing, trimming, splitting and quoting keep
    or make it so. *)

From Stdlib Require Import Strings.Byte Strings.Ascii.
From stdpp Require Import strings list.
From S2P Require Import Prelude GoString Utf8 GoText GoFormat.

#[local] Open Scope string_scope.
#[local] Open Scope Z_scope.

(** ** Occurrences *)

(** [k] stands somewhere in [s]. *)
Fixpoint occurs (k s : string) : bool :=
  HasPrefix s k || match s with EmptyString => false | String _ s => occurs k s end.

Definition NEL : string := String "194" (String "133" "").
Definition LSEP : string := String "226" (String "128" (String "168" "")).
Definition PSEP : string := String "226" (String "128" (String "169" "")).

(** None of the three. *)
Definition narrow (s : string) : bool := negb (occurs NEL s) && negb (occurs LSEP s) && negb (occurs PSEP s).

Definition ascii7 (c : ascii) : bool := code c <? 128.

(** Nothing of what stands before can reach into the text. *)
Definition shut (s : string) : bool := match s with EmptyString => true | String c _ => ascii7 c end.

(** A text no byte of which is ASCII. *)
Definition wide (k : string) : bool := all_chars (fun c => negb (ascii7 c)) k && negb (String.eqb k "").

Lemma HasPrefix_nil s : HasPrefix s "" = true.
Proof. by destruct s. Qed.

Lemma prefix_shut s t k : wide k = true -> shut t = true -> HasPrefix (s +:+ t) k = HasPrefix s k.
Proof.
  unfold wide. intros [Hk _]%andb_true_iff Ht. revert s. induction k as [|d k IH]; intros s; [by rewrite !HasPrefix_nil|].
  cbn [all_chars] in Hk. apply andb_true_iff in Hk as [Hd Hk]. specialize (IH Hk). destruct s as [|c s].
  - change ("" +:+ t) with t. destruct t as [|c t]; [done|]. cbn [HasPrefix shut] in *.
    destruct (Ascii.eqb_spec d c) as [->|]; [|done]. by rewrite Ht in Hd.
  - change (String c s +:+ t) with (String c (s +:+ t)). cbn [HasPrefix]. by rewrite IH.
Qed.

Lemma occurs_app k s t : wide k = true -> shut t = true -> occurs k (s +:+ t) = occurs k s || occurs k t.
Proof.
  intros Hk Ht. induction s as [|c s IH].
  - change ("" +:+ t) with t. unfold wide in Hk. destruct k; [by rewrite andb_false_r in Hk|done].
  - change (String c s +:+ t) with (String c (s +:+ t)). cbn [occurs]. rewrite IH.
    change (String c (s +:+ t)) with (String c s +:+ t). rewrite prefix_shut by done. by rewrite orb_assoc.
Qed.

Lemma narrow_app s t : shut t = true -> narrow (s +:+ t) = narrow s && narrow t.
Proof.
  intros Ht. unfold narrow. rewrite !occurs_app by done.
  by destruct (occurs NEL s), (occurs LSEP s), (occurs PSEP s), (occurs NEL t), (occurs LSEP t), (occurs PSEP t).
Qed.

Lemma narrow_cons c s : ascii7 c = true -> narrow (String c s) = narrow s.
Proof.
  intros Hc. unfold narrow. cbn [occurs HasPrefix NEL LSEP PSEP].
  assert (Ascii.eqb "194" c = false) as -> by (by apply Ascii.eqb_neq; intros <-).
  assert (Ascii.eqb "226" c = false) as -> by (by apply Ascii.eqb_neq; intros <-). done.
Qed.

Lemma narrow_ascii s : all_chars ascii7 s = true -> narrow s = true.
Proof.
  induction s as [|c s IH]; [done|]. cbn [all_chars]. intros [Hc Hs]%andb_true_iff.
  rewrite narrow_cons by done. by apply IH.
Qed.

Lemma printable_ascii s : all_chars printable s = true -> all_chars ascii7 s = true.
Proof.
  apply all_chars_impl. intros c. unfold printable, ascii7. intros [_ H%Z.ltb_lt]%andb_true_iff. apply Z.ltb_lt. lia.
Qed.

(** *** Parts of a text *)

Lemma prefix_extends s t k : HasPrefix s k = true -> HasPrefix (s +:+ t) k = true.
Proof.
  revert s. induction k as [|d k IH]; intros s H; [apply HasPrefix_nil|]. destruct s as [|c s]; [done|].
  change (String c s +:+ t) with (String c (s +:+ t)). cbn [HasPrefix] in *.
  apply andb_true_iff in H as [-> H]. by apply IH.
Qed.

Lemma occurs_extends k a s b : occurs k s = true -> occurs k (a +:+ s +:+ b) = true.
Proof.
  intros H. assert (occurs k (s +:+ b) = true) as Hs.
  { induction s as [|c s IH]; cbn [occurs] in H.
    - rewrite orb_false_r in H. change ("" +:+ b) with b. destruct k; [|done]. destruct b; cbn [occurs]; by rewrite HasPrefix_nil.
    - change (String c s +:+ b) with (String c (s +:+ b)). cbn [occurs]. apply orb_true_iff in H as [H|H].
      + change (String c (s +:+ b)) with (String c s +:+ b). by rewrite (prefix_extends (String c s) b k H).
      + rewrite (IH H). apply orb_true_r. }
  clear H. induction a as [|c a IH]; [exact Hs|].
  change (String c a +:+ s +:+ b) with (String c (a +:+ s +:+ b)). cbn [occurs]. rewrite IH. apply orb_true_r.
Qed.

Lemma narrow_part a s b : narrow (a +:+ s +:+ b) = true -> narrow s = true.
Proof.
  unfold narrow. rewrite !andb_true_iff, !negb_true_iff. intros [[H1 H2] H3]. split_and!;
    match goal with |- occurs ?k s = false => destruct (occurs k s) eqn:E; [|done] end;
    apply (occurs_extends _ a s b) in E; congruence.
Qed.

Lemma narrow_trim s : narrow s = true -> narrow (TrimSpace s) = true.
Proof. destruct (TrimSpace_parts s) as (a & b & E & _). rewrite E at 1. apply narrow_part. Qed.

Lemma Split_parts sep s : Forall (fun x => exists a b, s = a +:+ x +:+ b) (Split sep s).
Proof.
  assert (exists x l, Split sep s = x :: l /\ (exists b, s = x +:+ b) /\ Forall (fun y => exists a b, s = a +:+ y +:+ b) l)
    as (x & l & -> & (b & E) & Hl).
  { induction s as [|c s (x & l & IH & (b & E) & Hl)]; [by exists "", []; split_and!; [|exists ""|]|].
    cbn [Split]. rewrite IH. destruct (Ascii.eqb c sep).
    - exists "", (x :: l). split_and!; [done|by exists (String c s)|]. constructor.
      + exists (String c ""), b. by rewrite E.
      + eapply Forall_impl; [exact Hl|]. intros y (a & b' & Ey). exists (String c a), b'. by rewrite Ey.
    - exists (String c x), l. split_and!; [done|exists b; by rewrite E|].
      eapply Forall_impl; [exact Hl|]. intros y (a & b' & Ey). exists (String c a), b'. by rewrite Ey. }
  constructor; [exists "", b; exact E|done].
Qed.

Lemma narrow_split sep s : narrow s = true -> Forall (fun x => narrow x = true) (Split sep s).
Proof.
  intros Hs. eapply Forall_impl; [apply Split_parts|]. cbn. intros x (a & b & ->). by eapply narrow_part.
Qed.

(** ** A pattern that is replaced is gone *)

Section replace.
Context (pairs : list (string * string)).
Hypothesis pairs_new : Forall (fun p => exists c s, p.2 = String c s /\ all_chars ascii7 p.2 = true) pairs.

Lemma replaced_prefix k s :
  all_chars (fun c => negb (ascii7 c)) k = true -> HasPrefix (replace_from pairs 0 s) k = true -> HasPrefix s k = true.
Proof.
  revert s. induction k as [|d k IH]; intros s Hk H; [apply HasPrefix_nil|]. cbn [all_chars] in Hk.
  apply andb_true_iff in Hk as [Hd Hk]. destruct s as [|c s]; [done|]. cbn [replace_from] in H.
  destruct (List.find _ pairs) as [[old new]|] eqn:Ef.
  - exfalso. apply List.find_some in Ef as [Hf%list_elem_of_In _]. rewrite Forall_forall in pairs_new.
    destruct (pairs_new _ Hf) as (e & t & Hnew & Hall). cbn [snd] in Hnew, Hall. subst new.
    change (String e t +:+ _) with (String e (t +:+ replace_from pairs (Nat.pred (String.length old)) s)) in H.
    cbn [HasPrefix all_chars] in *. apply andb_true_iff in H as [->%Ascii.eqb_eq _].
    apply andb_true_iff in Hall as [He _]. by rewrite He in Hd.
  - cbn [HasPrefix] in *. apply andb_true_iff in H as [-> H]. cbn [andb]. by apply IH.
Qed.

Lemma Replace_gone k s : wide k = true -> k ∈ map fst pairs -> occurs k (Replace pairs s) = false.
Proof.
  intros Hw Hin. unfold Replace. generalize 0%nat. induction s as [|c s IH]; intros skip.
  { cbn [replace_from occurs]. unfold wide in Hw. destruct k; [by rewrite andb_false_r in Hw|done]. }
  cbn [replace_from]. destruct skip as [|n]; [|apply IH].
  destruct (List.find _ pairs) as [[old new]|] eqn:Ef.
  - apply List.find_some in Ef as [Hf%list_elem_of_In _]. rewrite Forall_forall in pairs_new.
    destruct (pairs_new _ Hf) as (_ & _ & _ & Hall). cbn [snd] in Hall. clear -Hw Hall IH.
    set (r := replace_from _ _ s) in *. assert (occurs k r = false) as Hr by apply IH. clearbody r. clear IH.
    induction new as [|e u IHu]; [exact Hr|].
    cbn [all_chars] in Hall. apply andb_true_iff in Hall as [He Hall].
    change (String e u +:+ r) with (String e (u +:+ r)). cbn [occurs]. rewrite (IHu Hall), orb_false_r.
    unfold wide in Hw. destruct k as [|d k]; [by rewrite andb_false_r in Hw|]. cbn [HasPrefix all_chars] in *.
    destruct (Ascii.eqb_spec d e) as [->|]; [|done]. by rewrite He in Hw.
  - cbn [occurs]. rewrite IH, orb_false_r. destruct (HasPrefix (String c _) k) eqn:Hp; [|done]. exfalso.
    assert (HasPrefix (String c s) k = true) as Hs.
    { apply replaced_prefix; [by apply andb_true_iff in Hw as [? _]|]. cbn [replace_from]. by rewrite Ef. }
    apply list_elem_of_fmap in Hin as ([old new] & -> & Hpair%list_elem_of_In).
    apply (List.find_none _ _ Ef) in Hpair. cbn [fst] in *. congruence.
Qed.

Lemma Replace_narrow s : [NEL; LSEP; PSEP] ⊆ map fst pairs -> narrow (Replace pairs s) = true.
Proof. intros H. unfold narrow. rewrite !Replace_gone; [done|done|set_solver..]. Qed.
End replace.

(** ** Quoting *)

Lemma narrow_step c s : code c <> 194 -> code c <> 226 -> narrow (String c s) = narrow s.
Proof.
  intros H1 H2. unfold narrow. cbn [occurs HasPrefix NEL LSEP PSEP].
  assert (Ascii.eqb "194" c = false) as -> by (apply Ascii.eqb_neq; intros <-; by apply H1).
  assert (Ascii.eqb "226" c = false) as -> by (apply Ascii.eqb_neq; intros <-; by apply H2). done.
Qed.

Lemma narrow_two c d s : code c = 194 -> code d <> 133 -> narrow (String c (String d s)) = narrow (String d s).
Proof.
  intros H1 H2. unfold narrow. cbn [occurs HasPrefix NEL LSEP PSEP].
  assert (Ascii.eqb "133" d = false) as -> by (apply Ascii.eqb_neq; intros <-; by apply H2).
  assert (Ascii.eqb "226" c = false) as -> by (apply Ascii.eqb_neq; intros <-; discriminate H1).
  by rewrite andb_false_r.
Qed.

Lemma narrow_three c d e s :
  code c = 226 -> ~ (code d = 128 /\ (code e = 168 \/ code e = 169)) ->
  narrow (String c (String d (String e s))) = narrow (String d (String e s)).
Proof.
  intros H1 H2. unfold narrow. cbn [occurs HasPrefix NEL LSEP PSEP].
  assert (Ascii.eqb "194" c = false) as -> by (apply Ascii.eqb_neq; intros <-; discriminate H1).
  destruct (Ascii.eqb_spec "128" d) as [<-|_]; [|by rewrite !andb_false_r].
  assert (Ascii.eqb "168" e = false) as -> by (apply Ascii.eqb_neq; intros <-; by apply H2; auto).
  assert (Ascii.eqb "169" e = false) as -> by (apply Ascii.eqb_neq; intros <-; by apply H2; auto).
  by rewrite !andb_false_r.
Qed.

Section quote.
Context (IsPrintWide : Z -> bool).
Hypothesis not_line_separator : IsPrintWide 8232 = false.
Hypothesis not_paragraph_separator : IsPrintWide 8233 = false.

Lemma bytes_cons b l s :
  String.string_of_list_byte (b :: l) +:+ s = String (ascii_of_byte b) (String.string_of_list_byte l +:+ s).
Proof. reflexivity. Qed.

Lemma code_byte n : 0 <= n < 256 -> code (ascii_of_byte (byte_of n)) = n.
Proof. intros H. by rewrite code_of_byte, byte_Z_of. Qed.

Ltac div_lia := Z.to_euclidean_division_equations; lia.

Lemma narrow_rune r s :
  IsPrint IsPrintWide r = true -> narrow (String.string_of_list_byte (EncodeRune r) +:+ s) = narrow s.
Proof.
  intros Hp. assert (r <> 133 /\ r <> 8232 /\ r <> 8233) as (H1 & H2 & H3).
  { unfold IsPrint in Hp. split_and!; intros ->; [discriminate Hp|simpl in Hp; congruence..]. }
  clear Hp. unfold EncodeRune. destruct ((0 <=? r) && (r <=? 127)) eqn:E1.
  { to_prop. rewrite bytes_cons, narrow_step; [done|rewrite code_byte by div_lia; div_lia..]. }
  destruct ((128 <=? r) && (r <=? 2047)) eqn:E2.
  { to_prop. rewrite !bytes_cons. change (String.string_of_list_byte [] +:+ s) with s.
    destruct (decide (192 + r / 64 = 194)) as [Hb|Hb];
      [rewrite narrow_two by (rewrite code_byte by div_lia; div_lia)|
       rewrite narrow_step by (rewrite code_byte by div_lia; div_lia)];
      apply narrow_step; rewrite code_byte by div_lia; div_lia. }
  set (r' := if _ && _ && _ then r else RuneError).
  assert (0 <= r' <= 1114111 /\ 2047 < r' /\ r' <> 8232 /\ r' <> 8233) as (Hr & Hlo & H2' & H3').
  { unfold r', RuneError. destruct (0 <=? r) eqn:E, (r <=? 1114111) eqn:E', (negb _); simpl; to_prop; lia. }
  clearbody r'. destruct (Z.leb_spec r' 65535); rewrite !bytes_cons; change (String.string_of_list_byte [] +:+ s) with s.
  - transitivity (narrow (String (ascii_of_byte (byte_of (128 + r' / 64 mod 64)))
      (String (ascii_of_byte (byte_of (128 + r' mod 64))) s))).
    + destruct (decide (224 + r' / 4096 = 226)) as [Hb|Hb]; [apply narrow_three|apply narrow_step];
        rewrite !code_byte by div_lia; div_lia.
    + rewrite !narrow_step; [done|rewrite code_byte by div_lia; div_lia..].
  - rewrite !narrow_step; [done|rewrite code_byte by div_lia; div_lia..].
Qed.

Lemma narrow_ascii_app s t : all_chars ascii7 s = true -> narrow (s +:+ t) = narrow t.
Proof.
  induction s as [|c s IH]; [done|]. cbn [all_chars]. intros [Hc Hs]%andb_true_iff.
  change (String c s +:+ t) with (String c (s +:+ t)). rewrite narrow_cons by done. by apply IH.
Qed.

Lemma narrow_escape r s : narrow (escapeRune IsPrintWide r +:+ s) = narrow s.
Proof.
  unfold escapeRune. destruct ((r =? code dquote) || (r =? code backslash)) eqn:E.
  { apply narrow_ascii_app. to_prop. destruct E as [E|E]; apply Z.eqb_eq in E as ->; done. }
  destruct (IsPrint IsPrintWide r) eqn:Ep; [by apply narrow_rune|].
  apply narrow_ascii_app. clear E. repeat (destruct (_ =? _); [done|]).
  destruct (_ || _); [|destruct (r <? 65536)]; apply printable_ascii; cbn [all_chars];
    unfold hex4; rewrite ?all_chars_app, ?hex_byte_printable; done.
Qed.

Lemma narrow_quote_from fuel l s : narrow (quote_from IsPrintWide fuel l +:+ s) = narrow s.
Proof.
  revert l. induction fuel as [|n IH]; intros l; [done|]. cbn [quote_from].
  destruct l as [|b l]; [done|]. destruct (DecodeRune (b :: l)) as [r w]. rewrite <-append_assoc.
  destruct (_ && _); [|by rewrite narrow_escape]. rewrite narrow_ascii_app; [apply IH|].
  apply printable_ascii. cbn [all_chars]. by rewrite hex_byte_printable.
Qed.

Lemma narrow_quote v s : narrow (Quote IsPrintWide v +:+ s) = narrow s.
Proof.
  unfold Quote. change (String dquote ?x +:+ s) with (String dquote (x +:+ s)).
  rewrite narrow_cons, <-append_assoc, narrow_quote_from by done. by apply narrow_cons.
Qed.
End quote.
