(* ===== verification/ChildEnv.v ===== *)
(** * ChildEnv: the environment of a child process (agentflow/runner_env.go)

    The environment is built from nothing: baseline variables, variables the
    host approved by name, the strict-mode switch, and the runner's own
    entries, later layers winning.  [strings.ToUpper] is its part on ASCII,
    where the names are. *)

From Stdlib Require Import Strings.Ascii.
From stdpp Require Import strings gmap list sorting.
From S2P Require Import Prelude GoString GoText.

#[local] Open Scope string_scope.

Definition agentflowBaselineEnv : list string := ["PATH"; "HOME"; "USER"; "TMPDIR"; "LANG"].
Definition windowsBaselineEnv : list string :=
  ["SYSTEMROOT"; "TEMP"; "TMP"; "PATHEXT"; "USERPROFILE"; "COMSPEC"; "LOCALAPPDATA"; "APPDATA"].
Definition strictEnvName : string := "AGENTFLOW_STRICT".

(** [envNamePattern] *)
Definition name_start (c : ascii) : bool :=
  let n := nat_of_ascii c in ((65 <=? n) && (n <=? 90))%nat || ((97 <=? n) && (n <=? 122))%nat || Ascii.eqb c "_".
Definition name_char (c : ascii) : bool := let n := nat_of_ascii c in name_start c || ((48 <=? n) && (n <=? 57))%nat.
Definition envName (s : string) : bool :=
  match s with String c s => name_start c && forallb name_char (String.list_ascii_of_string s) | EmptyString => false end.

Definition upper (c : ascii) : ascii :=
  let n := nat_of_ascii c in if ((97 <=? n) && (n <=? 122))%nat then ascii_of_nat (n - 32) else c.
Fixpoint ToUpper (s : string) : string := match s with String c s => String (upper c) (ToUpper s) | EmptyString => EmptyString end.

Record childEnvPolicy := mkPolicy { baseline : list string; approved : list string; owned : list string; foldCase : bool }.

Definition childEnvPolicyFor (goos : string) (approved owned : list string) : childEnvPolicy :=
  if bool_decide (goos = "windows") then mkPolicy (agentflowBaselineEnv ++ windowsBaselineEnv)%list approved owned true
  else mkPolicy agentflowBaselineEnv approved owned false.

(** The part of an entry before the equality sign. *)
Definition entry_name (kv : string) : string := hd EmptyString (Split "=" kv).

Section Build.
Context (p : childEnvPolicy) (lookup : string -> option string).

Definition env_key (name : string) : string := if foldCase p then ToUpper name else name.

Definition add_baseline (entries : gmap string string) (name : string) : gmap string string :=
  match lookup name with Some value => <[env_key name := name ++ "=" ++ value]> entries | None => entries end.

(** The name of an approved variable that is not set is the error. *)
Fixpoint add_approved (names : list string) (entries : gmap string string) : result string (gmap string string) :=
  match names with
  | [] => Ok entries
  | name :: names =>
      match lookup name with
      | None => Err name
      | Some value => add_approved names (<[env_key name := name ++ "=" ++ value]> entries)
      end
  end.

Definition add_strict (entries : gmap string string) : gmap string string :=
  match lookup strictEnvName with
  | Some value => if bool_decide (value = "1") then <[env_key strictEnvName := strictEnvName ++ "=1"]> entries else entries
  | None => entries
  end.

Definition add_owned (entries : gmap string string) (kv : string) : gmap string string := <[env_key (entry_name kv) := kv]> entries.

Definition env_entries : result string (gmap string string) :=
  match add_approved (approved p) (fold_left add_baseline (baseline p) ∅) with
  | Err name => Err name
  | Ok entries => Ok (fold_left add_owned (owned p) (add_strict entries))
  end.

Definition buildChildEnv : result string (list string) :=
  match env_entries with
  | Err name => Err name
  | Ok entries => Ok (omap (fun k => entries !! k) (SortStrings (elements (dom entries))))
  end.
End Build.

(** [filepath.Abs] is an argument. *)
Definition workingDirEnv (goos : string) (Abs : string -> result string string) (dir : string) : result string string :=
  if bool_decide (goos = "windows") || bool_decide (goos = "plan9") then Ok EmptyString
  else match Abs dir with Ok abs => Ok ("PWD=" ++ abs) | Err err => Err err end.

Inductive nameError := ErrNotAName (position : nat) | ErrRunnerOwned (position : nat) | ErrControl (position : nat).

Fixpoint validate_names_from (i : nat) (names : list string) : option nameError :=
  match names with
  | [] => None
  | name :: names =>
      if negb (envName name) then Some (ErrNotAName (S i))
      else
        let u := ToUpper name in
        if existsb (String.eqb u) ["PWD"; "PYTHONPATH"; "PYTHONDONTWRITEBYTECODE"] then Some (ErrRunnerOwned (S i))
        else if HasPrefix u "AGENTFLOW_" then Some (ErrControl (S i))
        else validate_names_from (S i) names
  end.
Definition ValidateEnvNames (names : list string) : option nameError := validate_names_from 0 names.

(** ** What is in the environment *)

Lemma entry_name_of name value : has_char "=" name = false -> entry_name (name ++ "=" ++ value) = name.
Proof. intros H. unfold entry_name. change (name ++ "=" ++ value) with (name +:+ String "=" value). by rewrite Split_cons. Qed.

Lemma envName_no_equals s : envName s = true -> has_char "=" s = false.
Proof.
  assert (forall c, name_char c = true -> Ascii.eqb c "=" = false) as Hc
    by (intros c H; destruct (Ascii.eqb_spec c "=") as [->|]; [discriminate H|done]).
  destruct s as [|c s]; [done|]. simpl. intros [H1 H2]%andb_true_iff. rewrite Hc by (unfold name_char; by rewrite H1). cbn [orb].
  induction s as [|d s IH]; [done|]. simpl in H2 |- *. apply andb_true_iff in H2 as [Hd H2]. rewrite Hc by done. by apply IH.
Qed.

(** What an approved name cannot be. *)
Definition reserved (name : string) : bool :=
  existsb (String.eqb (ToUpper name)) ["PWD"; "PYTHONPATH"; "PYTHONDONTWRITEBYTECODE"] || HasPrefix (ToUpper name) "AGENTFLOW_".

Lemma validated names : ValidateEnvNames names = None -> Forall (fun n => envName n = true /\ reserved n = false) names.
Proof.
  unfold ValidateEnvNames. generalize 0%nat. induction names as [|n names IH]; intros i; [by constructor|]. cbn [validate_names_from].
  destruct (envName n) eqn:E1; [|done]. cbn [negb]. destruct (existsb _ _) eqn:E2; [done|]. destruct (HasPrefix _ _) eqn:E3; [done|].
  intros H. constructor; [|by eapply IH]. split; [done|]. unfold reserved. by rewrite E2, E3.
Qed.

Section Facts.
Context (p : childEnvPolicy) (lookup : string -> option string).
#[local] Notation key := (env_key p).

(** An entry read from the parent under one of the names. *)
Definition forwarded (names : list string) (kv : string) : Prop :=
  exists name value, name ∈ names /\ lookup name = Some value /\ kv = name ++ "=" ++ value.

(** What an entry may be. *)
Definition permitted (kv : string) : Prop :=
  kv ∈ owned p \/ (kv = strictEnvName ++ "=1" /\ lookup strictEnvName = Some "1") \/ forwarded (baseline p ++ approved p) kv.

Definition kept (m : gmap string string) : Prop := map_Forall (fun k kv => permitted kv /\ k = key (entry_name kv)) m.

Context (Hnames : Forall (fun n => has_char "=" n = false) (baseline p ++ approved p)).

Lemma kept_forward m name value : kept m -> name ∈ (baseline p ++ approved p)%list -> lookup name = Some value ->
  kept (<[key name := name ++ "=" ++ value]> m).
Proof.
  intros Hm Hn Hl. apply map_Forall_insert_2; [|done]. split; [right; right; by exists name, value|].
  rewrite entry_name_of; [done|]. rewrite Forall_forall in Hnames. by apply Hnames.
Qed.

Lemma kept_baseline names : forall m, kept m -> names ⊆ baseline p -> kept (fold_left (add_baseline p lookup) names m).
Proof.
  induction names as [|n names IH]; intros m Hm Hsub; [done|]. cbn [fold_left]. apply IH; [|intros x Hx; apply Hsub; by right].
  unfold add_baseline. destruct (lookup n) as [v|] eqn:E; [|done]. apply kept_forward; [done| |done].
  apply elem_of_app. left. apply Hsub. by left.
Qed.

Lemma kept_approved names : forall m m', kept m -> names ⊆ approved p -> add_approved p lookup names m = Ok m' -> kept m'.
Proof.
  induction names as [|n names IH]; intros m m' Hm Hsub E; cbn [add_approved] in E; [by injection E as <-|].
  destruct (lookup n) as [v|] eqn:El; [|done]. eapply IH; [|intros x Hx; apply Hsub; by right|exact E].
  apply kept_forward; [done| |done]. apply elem_of_app. right. apply Hsub. by left.
Qed.

Lemma kept_strict m : kept m -> kept (add_strict p lookup m).
Proof.
  intros Hm. unfold add_strict. destruct (lookup strictEnvName) as [v|] eqn:E; [|done]. case_bool_decide as Hv; [|done]. subst v.
  apply map_Forall_insert_2; [|done]. split; [right; by left|done].
Qed.

Lemma kept_owned kvs : forall m, kept m -> kvs ⊆ owned p -> kept (fold_left (add_owned p) kvs m).
Proof.
  induction kvs as [|kv kvs IH]; intros m Hm Hsub; [done|]. cbn [fold_left]. apply IH; [|intros x Hx; apply Hsub; by right].
  apply map_Forall_insert_2; [|done]. split; [left; apply Hsub; by left|done].
Qed.

Lemma kept_entries m : env_entries p lookup = Ok m -> kept m.
Proof.
  unfold env_entries. destruct (add_approved _ _ _ _) as [m1|] eqn:E; [|done]. intros [= <-].
  apply kept_owned; [|done]. apply kept_strict. eapply kept_approved; [|done|exact E]. by apply kept_baseline.
Qed.

Lemma approved_set names : forall m, is_ok (add_approved p lookup names m) = true <-> forall n, n ∈ names -> is_Some (lookup n).
Proof.
  induction names as [|n names IH]; intros m; cbn [add_approved]; [split; [by intros _ n ?%elem_of_nil|done]|].
  destruct (lookup n) as [v|] eqn:E.
  - rewrite IH. split; [intros H x [->|Hx]%elem_of_cons; [by rewrite E|by apply H]|intros H x Hx; apply H; by right].
  - split; [done|]. intros H. specialize (H n ltac:(by left)). rewrite E in H. by destruct H.
Qed.

Lemma owned_last kvs kv m : add_owned p (fold_left (add_owned p) kvs m) kv !! key (entry_name kv) = Some kv.
Proof. unfold add_owned at 1. by rewrite lookup_insert_eq. Qed.
End Facts.

(** The values under some keys, named back by the keys. *)
Lemma values_keys (f : string -> string) (m : gmap string string) ks :
  (forall k, k ∈ ks -> exists kv, m !! k = Some kv /\ f kv = k) -> map f (omap (fun k => m !! k) ks) = ks.
Proof.
  induction ks as [|k ks IH]; intros H; [done|]. destruct (H k ltac:(by left)) as (kv & E & Ef). simpl. rewrite E. simpl. rewrite Ef.
  f_equal. apply IH. intros x Hx. apply H. by right.
Qed.

Lemma baseline_names : Forall (fun n => has_char "=" n = false) (agentflowBaselineEnv ++ windowsBaselineEnv).
Proof. by repeat constructor. Qed.

(** C34: the environment of a child, with approved names that passed
    [ValidateEnvNames], exists unless an approved variable is not set.  It holds
    one entry per name (whatever its case on Windows), and every entry is the
    runner's own, the strict-mode switch with the value 1, or forwarded from
    the parent under a baseline name or an approved name, which is never a
    control variable; the runner's last entry of a name is there. *)
Theorem child_env_confined goos approved owned lookup :
  ValidateEnvNames approved = None ->
  let p := childEnvPolicyFor goos approved owned in
  (is_ok (buildChildEnv p lookup) = true <-> forall n, n ∈ approved -> is_Some (lookup n)) /\
  forall env, buildChildEnv p lookup = Ok env ->
    NoDup (map (fun kv => env_key p (entry_name kv)) env) /\
    (forall kv, kv ∈ env -> permitted p lookup kv) /\
    Forall (fun n => reserved n = false) approved /\
    (forall kvs kv, owned = (kvs ++ [kv])%list -> kv ∈ env).
Proof.
  intros Hv p. pose proof (validated _ Hv) as Hval.
  assert (approved = ChildEnv.approved p /\ owned = ChildEnv.owned p) as [Ea Eo] by (subst p; unfold childEnvPolicyFor; by case_bool_decide).
  assert (Forall (fun n => has_char "=" n = false) (baseline p ++ ChildEnv.approved p)) as Hn.
  { apply Forall_app. split.
    - pose proof baseline_names as [H1 H2]%Forall_app. subst p. unfold childEnvPolicyFor. case_bool_decide; [|done]. apply Forall_app. done.
    - rewrite <- Ea. eapply Forall_impl; [exact Hval|]. intros n [H _]. by apply envName_no_equals. }
  split.
  { unfold buildChildEnv, env_entries. rewrite Ea, <- (approved_set p lookup _ (fold_left (add_baseline p lookup) (baseline p) ∅)).
    by destruct (add_approved _ _ _ _). }
  intros env. unfold buildChildEnv. destruct (env_entries p lookup) as [m|] eqn:Em; [|done]. intros [= <-].
  pose proof (kept_entries p lookup Hn m Em) as Hk. set (ks := SortStrings _).
  assert (NoDup ks) as Hnd by (subst ks; unfold SortStrings; rewrite merge_sort_Permutation; apply NoDup_elements).
  assert (forall k, k ∈ ks <-> is_Some (m !! k)) as Hks
    by (intros k; subst ks; unfold SortStrings; by rewrite merge_sort_Permutation, elem_of_elements, elem_of_dom).
  split_and!.
  - replace (map _ _) with ks; [done|]. symmetry. apply values_keys. intros k Hin. apply Hks in Hin as [kv Hkv]. exists kv.
    split; [done|]. symmetry. apply (Hk k kv Hkv).
  - intros kv (k & _ & Hkv)%list_elem_of_omap. by apply (Hk k kv).
  - eapply Forall_impl; [exact Hval|]. by intros n [].
  - intros kvs kv Eq. apply list_elem_of_omap. exists (env_key p (entry_name kv)).
    assert (m !! env_key p (entry_name kv) = Some kv) as Hm; [|split; [by apply Hks|done]].
    unfold env_entries in Em. destruct (add_approved _ _ _ _) as [m1|]; [|done]. injection Em as <-.
    rewrite <- Eo, Eq, fold_left_app. apply owned_last.
Qed.

(** ** Witness *)

Definition demo_lookup (n : string) : option string :=
  if bool_decide (n = "PATH") then Some "/bin" else if bool_decide (n = "TOKEN") then Some "t" else if bool_decide (n = strictEnvName) then Some "1"
  else if bool_decide (n = "SECRET") then Some "s" else None.

Lemma child_env_confined_witness :
  ValidateEnvNames ["TOKEN"] = None /\
  buildChildEnv (childEnvPolicyFor "linux" ["TOKEN"] ["PWD=/w"]) demo_lookup = Ok ["AGENTFLOW_STRICT=1"; "PATH=/bin"; "PWD=/w"; "TOKEN=t"] /\
  forall kv, kv ∈ ["AGENTFLOW_STRICT=1"; "PATH=/bin"; "PWD=/w"; "TOKEN=t"] ->
    permitted (childEnvPolicyFor "linux" ["TOKEN"] ["PWD=/w"]) demo_lookup kv.
Proof.
  split; [by vm_compute|]. split; [by vm_compute|].
  apply (child_env_confined "linux" ["TOKEN"] ["PWD=/w"] demo_lookup); [by vm_compute|by vm_compute].
Defined.
