(* ===== verification/Plans.v ===== *)
(** * Plans: compiling and checking a workflow plan (agentflow/plan.go, compiler.go, scope.go)

    A plan authored by the model is projected into the plan that is locked
    ([Compile]), checked without the command-line tool ([CheckPlan]: content,
    paths, scope, dependencies, traceability), and preflighted before it runs
    ([PreflightP0]).  The regular-expression engine of the standard library and
    [strconv.Quote] are arguments; JSON decoding is left out. *)

From Stdlib Require Import Strings.Ascii Strings.Byte.
From stdpp Require Import strings gmap list pretty relations.
From S2P Require Import Prelude GoString Utf8 GoText.

#[local] Open Scope string_scope.
#[local] Open Scope Z_scope.

(** ** Data *)

Record CriterionReview := mkReview { MinimumDepth : string }.

(** What the model writes. *)
Record CriterionIR := mkCriterionIR { ci_ID : string; ci_Text : string; ci_Review : option CriterionReview }.
Record RequirementIR := mkRequirementIR { ri_ID : string; ri_Text : string; ri_AcceptanceCriteria : list CriterionIR }.
Record GateIR := mkGateIR { Label : string; Argv : list string; gi_CriterionIDs : list string }.
Record StepIR := mkStepIR {
  si_ID : string; si_Action : string; si_Files : list string; si_ExpectedDiff : list string; si_DependsOn : list string;
  si_CriterionIDs : list string; Validations : list GateIR
}.
Record PlanIR := mkPlanIR {
  TaskType : string; ir_Objective : string; ir_Scope : list string; ir_Invariants : list string; ir_RiskLevel : string;
  ir_RollbackPlan : string; ir_AllowedFiles : list string; ir_BlockedFiles : list string; ir_NonGoals : list string;
  SecuritySensitive : option bool; BlastRadius : string; DeclaredSize : string;
  ir_Requirements : list RequirementIR; ir_Steps : list StepIR
}.

(** What is locked and run. *)
Record Criterion := mkCriterion { c_ID : string; c_Text : string; Review : option CriterionReview }.
Record Requirement := mkRequirement { r_ID : string; r_Text : string; AcceptanceCriteria : list Criterion }.
Record DesignDecision := mkDecision { d_ID : string; d_Text : string; References : option (list string) }.
Record Gate := mkGate { Kind : string; Run : list string; g_CriterionIDs : list string }.
Record DriftBudget := mkDrift { UnrelatedEdits : Z; NewDependencies : Z; FormattingDrift : string; ArchitectureDrift : string }.
Record Step := mkStep {
  ID : string; Action : string; Files : list string; Preconditions : list string; ExpectedDiff : list string;
  Validation : list string; s_EvidenceIDs : list string; s_CriterionIDs : list string;
  DesignDecisionIDs : option (list string); DependsOn : list string; Gates : list Gate
}.
Record Plan := mkPlan {
  SchemaVersion : string; Objective : string; Scope : list string; NonGoals : list string; Invariants : list string;
  RiskLevel : string; pl_Drift : DriftBudget; AllowedFiles : list string; BlockedFiles : list string;
  ValidationGates : list string; RollbackPlan : string; EvidenceIDs : list string; Requirements : list Requirement;
  DesignDecisions : option (list DesignDecision); Steps : list Step
}.

Definition UsesDesignDecisions (p : Plan) : bool :=
  opt_b (DesignDecisions p) || existsb (fun s => opt_b (DesignDecisionIDs s)) (Steps p).

(** ** Compilation *)

Definition PlanSchemaVersion : string := "1.0.0".
Definition agentProofDir : string := ".agent/".

Definition compileRequirements (l : list RequirementIR) : list Requirement :=
  map (fun r => mkRequirement (ri_ID r) (ri_Text r)
                  (map (fun c => mkCriterion (ci_ID c) (ci_Text c) (ci_Review c)) (ri_AcceptanceCriteria r))) l.

Definition cleanPaths (xs : list string) : list string := map (fun x => if blank x then x else Clean x) xs.

Definition withAgentDir (allowed : list string) : list string :=
  if existsb (String.eqb agentProofDir) allowed then allowed else (allowed ++ [agentProofDir])%list.

Definition gate_label (g : GateIR) : string :=
  let label := TrimSpace (Label g) in
  if bool_decide (label = EmptyString) then Join (Argv g) " " else label.

Definition compileStep (s : StepIR) : Step :=
  mkStep (si_ID s) (si_Action s) (cleanPaths (si_Files s)) [] (si_ExpectedDiff s) (map gate_label (Validations s)) []
    (si_CriterionIDs s) None (si_DependsOn s)
    (map (fun g => mkGate "command" (Argv g) (gi_CriterionIDs g)) (Validations s)).

(** The labels of a plan, without repetition, after those [seen]. *)
Fixpoint distinct_labels (seen : gset string) (labels : list string) : list string :=
  match labels with
  | [] => []
  | l :: labels =>
      if bool_decide (l <> EmptyString) && negb (bool_decide (l ∈ seen)) then l :: distinct_labels ({[l]} ∪ seen) labels
      else distinct_labels seen labels
  end.

Definition Compile (ir : PlanIR) : Plan :=
  mkPlan PlanSchemaVersion (ir_Objective ir) (ir_Scope ir) (ir_NonGoals ir) (ir_Invariants ir) (ir_RiskLevel ir)
    (mkDrift 0 0 "minimal" "requires_approval") (withAgentDir (ir_AllowedFiles ir)) (ir_BlockedFiles ir)
    (distinct_labels ∅ (concat (map (fun s => map gate_label (Validations s)) (ir_Steps ir))))
    (ir_RollbackPlan ir) [] (compileRequirements (ir_Requirements ir)) None (map compileStep (ir_Steps ir)).

(** ** Scope (scope.go) *)

(** [regexp.QuoteMeta] *)
Definition is_meta (c : ascii) : bool := has_char c "\.+*?()|[]{}^$".
Fixpoint QuoteMeta (s : string) : string :=
  match s with
  | EmptyString => EmptyString
  | String c s => if is_meta c then String "\" (String c (QuoteMeta s)) else String c (QuoteMeta s)
  end.

(** Go's conversion of a byte to a string: the rune of that number. *)
Definition string_of_byte_rune (c : ascii) : string := String.string_of_list_byte (EncodeRune (Z.of_N (N_of_ascii c))).

(** The bracketed class that begins at [s], after the opening bracket: its text
    and what follows the closing bracket. *)
Fixpoint until_bracket (s : string) : option (string * string) :=
  match s with
  | EmptyString => None
  | String c s => if Ascii.eqb c "]" then Some (EmptyString, s)
                  else '(body, rest) ← until_bracket s; Some (String c body, rest)
  end.

Definition class_from (negate : bool) (s : string) : option (bool * string * string) :=
  match s with
  | String c s' => if Ascii.eqb c "]" then '(body, rest) ← until_bracket s'; Some (negate, String c body, rest)
                   else '(body, rest) ← until_bracket s; Some (negate, body, rest)
  | EmptyString => None
  end.

Definition bracket_class (s : string) : option (bool * string * string) :=
  match s with
  | String c s' => if Ascii.eqb c "!" then class_from true s' else class_from false s
  | EmptyString => None
  end.

Definition class_text (negate : bool) (class : string) : string :=
  let class :=
    if negate then String "^" class
    else match class with
         | String c _ => if Ascii.eqb c "^" || Ascii.eqb c "[" then String "\" class else class
         | EmptyString => class
         end in
  "[" ++ class ++ "]".

Fixpoint translate_from (fuel : nat) (pattern : string) : string :=
  match fuel with
  | O => EmptyString
  | S fuel =>
      match pattern with
      | EmptyString => EmptyString
      | String c rest =>
          if Ascii.eqb c "*" then ".*" ++ translate_from fuel rest
          else if Ascii.eqb c "?" then "." ++ translate_from fuel rest
          else if Ascii.eqb c "[" then
            match bracket_class rest with
            | None => QuoteMeta "[" ++ translate_from fuel rest
            | Some (negate, class, rest) => class_text negate class ++ translate_from fuel rest
            end
          else QuoteMeta (string_of_byte_rune c) ++ translate_from fuel rest
      end
  end.

(** The regular expression of a pattern; each step takes a character at least. *)
Definition translate (pattern : string) : string := "(?s)^" ++ translate_from (String.length pattern) pattern ++ "$".

Section Scopes.
(** [regexp.Compile] and [MatchString]. *)
Context (regexp : string -> option (string -> bool)).

Definition fnmatch (name pattern : string) : bool :=
  match regexp (translate pattern) with Some re => re name | None => false end.

Fixpoint MatchesPath (path : string) (patterns : list string) : bool :=
  match patterns with
  | [] => false
  | pat :: patterns =>
      let p := TrimSpace pat in
      if bool_decide (p = EmptyString) then MatchesPath path patterns
      else if HasSuffix p "/" && HasPrefix path p then true
      else if bool_decide (path = p) || fnmatch path p then true
      else MatchesPath path patterns
  end.

Definition EffectiveScope (plan : Plan) (stepID : string) : list string * list string :=
  let stepFiles := match List.find (fun s => bool_decide (ID s = stepID)) (Steps plan) with Some s => Files s | None => [] end in
  (List.filter (fun f => existsb (fun a => MatchesPath f [a]) (AllowedFiles plan)) stepFiles, BlockedFiles plan).
End Scopes.

(** ** Diagnostics *)

Record Diagnostic := mkDiagnostic { Code : string; Message : string }.
#[export] Instance Diagnostic_eq_dec : EqDecision Diagnostic.
Proof. solve_decision. Defined.

(** A diagnostic when the condition holds. *)
Definition when (b : bool) (code msg : string) : list Diagnostic := if b then [mkDiagnostic code msg] else [].

Definition anyNonBlank (xs : list string) : bool := existsb (fun x => negb (blank x)) xs.
Definition allNonBlank (xs : list string) : bool := forallb (fun x => negb (blank x)) xs.

Definition hasWorkspaceAllowance (xs : list string) : bool :=
  existsb (fun x => let x := TrimSpace x in bool_decide (x <> EmptyString) && bool_decide (x <> agentProofDir)) xs.

(** The text up to the first slash. *)
Definition first_segment (rel : string) : string := hd EmptyString (Split "/" rel).
Definition firstSegmentIsAgent (rel : string) : bool := EqualFold (TrimSpace (first_segment rel)) ".agent".

Definition unsafePath (rel : string) : option (string * string) :=
  let r := TrimSpace rel in
  if bool_decide (r = EmptyString) then Some ("unsafe_path", "is blank")
  else
    let c := Clean r in
    if IsAbs c then Some ("unsafe_path", r ++ " is an absolute path")
    else if existsb (String.eqb "..") (Split "/" c) then Some ("unsafe_path", r ++ " escapes the workspace with ..")
    else None.

Definition unsafe_diag (prefix f : string) : list Diagnostic :=
  match unsafePath f with Some (code, msg) => [mkDiagnostic code (prefix ++ msg)] | None => [] end.

(** *** Dependencies *)

(** Edges of the dependency graph by step; a later step with the same id wins. *)
Definition dep_graph (steps : list Step) : gmap string (list string) :=
  fold_left (fun g s => if bool_decide (ID s = EmptyString) then g
                        else <[ID s := List.filter (fun d => negb (bool_decide (d = EmptyString))) (map TrimSpace (DependsOn s))]> g) steps ∅.

Definition known_ids (steps : list Step) : gset string :=
  list_to_set (List.filter (fun i => negb (bool_decide (i = EmptyString))) (map ID steps)).

Definition reference_diags (known : gset string) (s : Step) : list Diagnostic :=
  if bool_decide (ID s = EmptyString) then []
  else concat (map (fun dep =>
    let d := TrimSpace dep in
    if bool_decide (d = EmptyString) then [mkDiagnostic "empty_dependency" ("step " ++ ID s ++ " has a blank depends_on entry")]
    else when (negb (bool_decide (d ∈ known))) "unknown_dependency" ("step " ++ ID s ++ " depends_on unknown step " ++ d))
    (DependsOn s)).

Record walk := mkWalk { visiting : gset string; visited : gset string; w_ds : list Diagnostic }.

Section Visit.
Context (graph : gmap string (list string)).

Fixpoint visit_deps (go : string -> walk -> option walk) (l : list string) (w : walk) : option walk :=
  match l with
  | [] => Some w
  | dep :: l => match graph !! dep with
                | Some _ => w ← go dep w; visit_deps go l w
                | None => visit_deps go l w
                end
  end.

(** [visit]; the chain is what the walk came through.  [None] when the fuel,
    which bounds the depth, is used up. *)
Fixpoint visit (fuel : nat) (id : string) (chain : list string) (w : walk) : option walk :=
  match fuel with
  | O => None
  | S fuel =>
      if bool_decide (id ∈ visited w) then Some w
      else if bool_decide (id ∈ visiting w)
      then Some (mkWalk (visiting w) (visited w)
                   (w_ds w ++ [mkDiagnostic "dependency_cycle" ("depends_on cycle detected: " ++ Join (chain ++ [id]) " -> ")]))
      else
        let w := mkWalk ({[id]} ∪ visiting w) (visited w) (w_ds w) in
        w ← visit_deps (fun dep => visit fuel dep (chain ++ [id])%list) (default [] (graph !! id)) w;
        Some (mkWalk (visiting w ∖ {[id]}) ({[id]} ∪ visited w) (w_ds w))
  end.

Fixpoint visit_all (fuel : nat) (ids : list string) (w : walk) : option walk :=
  match ids with
  | [] => Some w
  | id :: ids => w ← visit fuel id [] w; visit_all fuel ids w
  end.
End Visit.

(** The depth of the walk is at most the number of steps, and one. *)
Definition cycle_diags (steps : list Step) : option (list Diagnostic) :=
  let graph := dep_graph steps in
  w_ds <$> visit_all graph (S (size graph)) (SortStrings (elements (dom graph))) (mkWalk ∅ ∅ []).

Definition dependencyDiagnostics (steps : list Step) : option (list Diagnostic) :=
  ds ← cycle_diags steps;
  Some (concat (map (reference_diags (known_ids steps)) steps) ++ ds)%list.

(** *** Stable ids and versions *)

Definition is_letter (c : ascii) : bool := let n := nat_of_ascii c in ((65 <=? n) && (n <=? 90))%nat || ((97 <=? n) && (n <=? 122))%nat.
Definition is_digit (c : ascii) : bool := let n := nat_of_ascii c in ((48 <=? n) && (n <=? 57))%nat.
Definition all_chars (P : ascii -> bool) (s : string) : bool := forallb P (String.list_ascii_of_string s).

(** [traceIDPattern] *)
Definition traceID (s : string) : bool :=
  match s with
  | String c s => is_letter c && all_chars (fun c => is_letter c || is_digit c || has_char c "._-") s && (Z.of_nat (String.length s) <=? 127)
  | EmptyString => false
  end.

(** A number without leading zeros. *)
Definition plain_number (s : string) : bool :=
  match s with
  | String c rest => is_digit c && all_chars is_digit rest && (negb (Ascii.eqb c "0") || bool_decide (rest = EmptyString))
  | EmptyString => false
  end.

(** The parts of [schemaVersionPattern]. *)
Definition schema_parts (v : string) : option (string * string * string) :=
  match Split "." v with
  | [a; b; c] => if plain_number a && plain_number b && plain_number c then Some (a, b, c) else None
  | _ => None
  end.

(** [strconv.Atoi] of digits *)
Definition Atoi (s : string) : option Z :=
  let n := fold_left (fun n c => n * 10 + (Z.of_N (N_of_ascii c) - 48)) (String.list_ascii_of_string s) 0 in
  if n <=? MaxInt then Some n else None.

Definition schemaVersionAtLeast (value : string) (wantMajor wantMinor wantPatch : Z) : bool :=
  match schema_parts value with
  | None => false
  | Some (a, b, c) =>
      match Atoi a, Atoi b, Atoi c with
      | Some major, Some minor, Some patch =>
          if negb (major =? wantMajor) then wantMajor <? major
          else if negb (minor =? wantMinor) then wantMinor <? minor
          else wantPatch <=? patch
      | _, _, _ => false
      end
  end.

Definition maxMajor : string := "1".
Definition SupportedSchemaVersion (v : string) : bool :=
  match schema_parts v with Some (a, _, _) => bool_decide (a = maxMajor) | None => false end.

(** *** Traceability *)

(** Python's idea of a blank string. *)
Definition designStringIsBlank (value : string) : bool :=
  forallb (fun r => IsSpace r || ((28 <=? r) && (r <=? 31))) (runes (lit value)).

(** The declared requirements and criteria, and the criteria a review floor proves. *)
Record declared := mkDeclared { requirementIDs : gset string; criterionIDs : gset string; floored : gset string }.

Definition criterion_diags (seen : gset string) (c : Criterion) : list Diagnostic :=
  ((if negb (traceID (c_ID c)) then [mkDiagnostic "invalid_criterion_id" ("acceptance criterion id is not stable: " ++ c_ID c)]
   else when (bool_decide (c_ID c ∈ seen)) "duplicate_criterion_id" ("duplicate acceptance criterion id: " ++ c_ID c)) ++
  when (blank (c_Text c)) "missing_criterion_text" ("acceptance criterion " ++ c_ID c ++ " has empty text") ++
  match Review c with
  | Some r => when (negb (bool_decide (MinimumDepth r = "spec_quality")) && negb (bool_decide (MinimumDepth r = "deep")))
                "bad_review_depth" ("acceptance criterion " ++ c_ID c ++ " review minimum_depth must be spec_quality or deep")
  | None => []
  end)%list.

Definition declare_criterion (st : declared * list Diagnostic) (c : Criterion) : declared * list Diagnostic :=
  let '(d, ds) := st in
  (mkDeclared (requirementIDs d) ({[c_ID c]} ∪ criterionIDs d) (if opt_b (Review c) then {[c_ID c]} ∪ floored d else floored d),
   ds ++ criterion_diags (criterionIDs d) c)%list.

Definition requirement_diags (seen : gset string) (r : Requirement) : list Diagnostic :=
  ((if negb (traceID (r_ID r)) then [mkDiagnostic "invalid_requirement_id" ("requirement id is not stable: " ++ r_ID r)]
   else when (bool_decide (r_ID r ∈ seen)) "duplicate_requirement_id" ("duplicate requirement id: " ++ r_ID r)) ++
  when (blank (r_Text r)) "missing_requirement_text" ("requirement " ++ r_ID r ++ " has empty text") ++
  when (len (AcceptanceCriteria r) =? 0) "missing_acceptance_criteria" ("requirement " ++ r_ID r ++ " has no acceptance criteria"))%list.

Definition declare_requirement (st : declared * list Diagnostic) (r : Requirement) : declared * list Diagnostic :=
  let '(d, ds) := st in
  fold_left declare_criterion (AcceptanceCriteria r)
    (mkDeclared ({[r_ID r]} ∪ requirementIDs d) (criterionIDs d) (floored d), ds ++ requirement_diags (requirementIDs d) r)%list.

(** A list of references to criteria: its repetitions and its dangling ids. *)
Fixpoint reference_list (where_ : string) (dup_code dup_verb dangling_code dangling_verb : string) (extra : string -> list Diagnostic)
    (known seen : gset string) (ids : list string) : list Diagnostic :=
  match ids with
  | [] => []
  | i :: ids =>
      when (bool_decide (i ∈ seen)) dup_code (where_ ++ dup_verb ++ i) ++
      when (negb (bool_decide (i ∈ known))) dangling_code (where_ ++ dangling_verb ++ i) ++
      extra i ++ reference_list where_ dup_code dup_verb dangling_code dangling_verb extra known ({[i]} ∪ seen) ids
  end%list.

Definition step_criteria_diags (known : gset string) (s : Step) : list Diagnostic :=
  reference_list ("step " ++ ID s) "duplicate_step_criterion" " repeats acceptance criterion "
    "dangling_step_criterion" " references unknown acceptance criterion " (fun _ => []) known ∅ (s_CriterionIDs s).

Definition gate_diags (known : gset string) (s : Step) (i : nat) (g : Gate) : list Diagnostic :=
  reference_list ("step " ++ ID s ++ " gate " ++ pretty i) "duplicate_gate_criterion" " repeats acceptance criterion "
    "dangling_gate_criterion" " references unknown acceptance criterion "
    (fun c => when (negb (existsb (String.eqb c) (s_CriterionIDs s))) "gate_criterion_not_in_step"
                ("step " ++ ID s ++ " gate " ++ pretty i ++ " criterion " ++ c ++ " is not mapped to its parent step"))
    known ∅ (g_CriterionIDs g).

Definition step_trace_diags (known : gset string) (s : Step) : list Diagnostic :=
  (step_criteria_diags known s ++ concat (imap (gate_diags known s) (Gates s)))%list.

(** The criteria that some step names, and those that a gate of such a step names. *)
Definition step_mapped (known : gset string) (steps : list Step) : gset string :=
  list_to_set (List.filter (fun c => bool_decide (c ∈ known)) (concat (map s_CriterionIDs steps))).
Definition gate_mapped (known : gset string) (steps : list Step) : gset string :=
  list_to_set (concat (map (fun s => List.filter (fun c => existsb (String.eqb c) (s_CriterionIDs s) && bool_decide (c ∈ known))
                                       (concat (map g_CriterionIDs (Gates s)))) steps)).

Definition unmapped_diags (mapped verified : gset string) (c : string) : list Diagnostic :=
  (when (negb (bool_decide (c ∈ mapped))) "unmapped_criterion_step" ("acceptance criterion " ++ c ++ " is not mapped to any step") ++
   when (negb (bool_decide (c ∈ verified))) "unmapped_criterion_verification"
     ("acceptance criterion " ++ c ++ " has no proving gate or review floor"))%list.

Definition declare_decision (st : gset string * list Diagnostic) (d : DesignDecision) : gset string * list Diagnostic :=
  let '(ids, ds) := st in
  let '(ids', d1) :=
    if negb (traceID (d_ID d)) then (ids, [mkDiagnostic "invalid_design_decision_id" ("design decision id is not stable: " ++ d_ID d)])
    else if bool_decide (d_ID d ∈ ids) then (ids, [mkDiagnostic "duplicate_design_decision_id" ("duplicate design decision id: " ++ d_ID d)])
    else ({[d_ID d]} ∪ ids, []) in
  (ids', ds ++ d1 ++
     when (designStringIsBlank (d_Text d)) "missing_design_decision_text" ("design decision " ++ d_ID d ++ " has empty text") ++
     when (match References d with Some l => existsb designStringIsBlank l | None => false end) "blank_design_decision_reference"
       ("design decision " ++ d_ID d ++ " references must contain only non-blank strings"))%list.

Definition step_decision_diags (known : gset string) (s : Step) : list Diagnostic :=
  match DesignDecisionIDs s with
  | None => []
  | Some [] => [mkDiagnostic "empty_step_design_decisions" ("step " ++ ID s ++ " design_decision_ids must contain at least one design decision id")]
  | Some l =>
      if existsb designStringIsBlank l
      then [mkDiagnostic "blank_step_design_decision" ("step " ++ ID s ++ " design_decision_ids must contain only non-blank strings")]
      else reference_list ("step " ++ ID s) "duplicate_step_design_decision" " repeats design decision "
             "dangling_step_design_decision" " references unknown design decision " (fun _ => []) known ∅ l
  end.

Definition designDecisionDiagnostics (p : Plan) : list Diagnostic :=
  if negb (UsesDesignDecisions p) then []
  else if negb (schemaVersionAtLeast (SchemaVersion p) 0 4 0)
  then [mkDiagnostic "design_decision_schema" "design decision fields require plan-lock schema_version 0.4.0 or newer"]
  else
    let '(ids, ds) :=
      match DesignDecisions p with
      | None => (∅, [])
      | Some l => fold_left declare_decision l
                    (∅, when (len l =? 0) "missing_design_decisions" "design_decisions must contain at least one design decision")
      end in
    (ds ++ concat (map (step_decision_diags ids) (Steps p)))%list.

Definition declared_of (p : Plan) : declared * list Diagnostic := fold_left declare_requirement (Requirements p) (mkDeclared ∅ ∅ ∅, []).

Definition TraceabilityDiagnostics (p : Plan) : list Diagnostic :=
  let '(d, ds) := declared_of p in
  let known := criterionIDs d in
  let mapped := step_mapped known (Steps p) in
  let verified := floored d ∪ gate_mapped known (Steps p) in
  (ds ++ concat (map (step_trace_diags known) (Steps p)) ++
   concat (map (unmapped_diags mapped verified) (SortStrings (elements known))) ++ designDecisionDiagnostics p)%list.

(** ** The check *)

Section Checks.
Context (regexp : string -> option (string -> bool)) (Quote : string -> string).
#[local] Notation MatchesPath := (MatchesPath regexp).

Definition content_diags (p : Plan) : list Diagnostic :=
  (when (len (Steps p) =? 0) "no_steps" "plan has no steps; a plan must contain at least one executable step" ++
   when (blank (Objective p)) "missing_objective" "objective is empty" ++
   (if negb (anyNonBlank (Scope p)) then [mkDiagnostic "missing_scope" "scope is empty; name at least one area the plan touches"]
    else when (negb (allNonBlank (Scope p))) "blank_scope_entry"
           "scope contains a blank entry; every scope area must be a non-empty string") ++
   (if negb (anyNonBlank (Invariants p))
    then [mkDiagnostic "missing_invariants" "invariants is empty; state at least one property that must hold"]
    else when (negb (allNonBlank (Invariants p))) "blank_invariant_entry"
           "invariants contains a blank entry; every invariant must be a non-empty string") ++
   when (negb (hasWorkspaceAllowance (AllowedFiles p))) "missing_allowed_files" "allowed_files names no workspace paths the plan may change" ++
   when (blank (RollbackPlan p)) "missing_rollback" "rollback_plan is empty" ++
   when (negb (existsb (String.eqb (RiskLevel p)) ["low"; "medium"; "high"])) "bad_risk_level"
     ("risk_level " ++ Quote (RiskLevel p) ++ " must be one of: low, medium, high"))%list.

Definition list_diags (p : Plan) : list Diagnostic :=
  (when (MatchesPath ".agent/x" (BlockedFiles p)) "blocked_files_covers_proof_state" "blocked_files may not cover .agent/ proof state" ++
   concat (map (unsafe_diag "allowed_files entry ") (AllowedFiles p)) ++
   concat (map (unsafe_diag "blocked_files entry ") (BlockedFiles p)))%list.

Definition file_diags (s : Step) (f : string) : list Diagnostic :=
  (when (firstSegmentIsAgent (Clean f)) "step_targets_proof_state" ("step " ++ ID s ++ " file " ++ f ++ " targets .agent/ proof state") ++
   unsafe_diag ("step " ++ ID s ++ " file ") f)%list.

Definition scope_diags (p : Plan) (s : Step) (f : string) : list Diagnostic :=
  let cleaned := Clean f in
  if firstSegmentIsAgent cleaned then []
  else (when (negb (MatchesPath cleaned (AllowedFiles p))) "file_out_of_scope"
          ("step " ++ ID s ++ " file " ++ f ++ " is not covered by allowed_files") ++
        when (MatchesPath cleaned (BlockedFiles p)) "file_blocked"
          ("step " ++ ID s ++ " file " ++ f ++ " is covered by blocked_files"))%list.

Definition step_diags (p : Plan) (seen : gset string) (s : Step) : list Diagnostic :=
  ((if blank (ID s) then [mkDiagnostic "empty_step_id" "a step has an empty id"]
    else when (bool_decide (ID s ∈ seen)) "duplicate_step_id" ("duplicate step id: " ++ ID s)) ++
   when (blank (Action s)) "empty_action" ("step " ++ ID s ++ " has an empty action") ++
   when (len (Files s) =? 0) "no_files" ("step " ++ ID s ++ " names no files") ++
   (if negb (anyNonBlank (ExpectedDiff s))
    then [mkDiagnostic "empty_expected_diff" ("step " ++ ID s ++ " has no expected_diff; state the intended outcome")]
    else when (negb (allNonBlank (ExpectedDiff s))) "blank_expected_diff_entry" ("step " ++ ID s ++ " expected_diff contains a blank entry")) ++
   when (len (Validation s) =? 0) "no_validation" ("step " ++ ID s ++ " has no validation command") ++
   when (negb (len (Validation s) =? len (Gates s))) "gate_misalignment" ("step " ++ ID s ++ " validation/gates are not index-aligned") ++
   concat (map (fun g => when ((len (Run g) =? 0) || negb (allNonBlank (Run g))) "empty_gate_argv"
                           ("step " ++ ID s ++ " has a validation with empty argv")) (Gates s)) ++
   concat (map (file_diags s) (Files s)) ++ concat (map (scope_diags p s) (Files s)))%list.

Fixpoint steps_diags (p : Plan) (seen : gset string) (steps : list Step) : list Diagnostic :=
  match steps with
  | [] => []
  | s :: steps => (step_diags p seen s ++ steps_diags p (if blank (ID s) then seen else {[ID s]} ∪ seen) steps)%list
  end.

Definition CheckPlan (p : Plan) : option (list Diagnostic) :=
  ds ← dependencyDiagnostics (Steps p);
  Some (content_diags p ++ list_diags p ++ steps_diags p ∅ (Steps p) ++ ds ++ TraceabilityDiagnostics p)%list.
End Checks.

(** ** Before the run *)

Record CommandGate := mkCommandGate { cg_Label : string; cg_Argv : list string; cg_CriterionIDs : list string }.

Inductive planError :=
| ErrEmptyRun (step : string) (gate : nat) | ErrSchema (version : string) | ErrAlignment (step : string)
| ErrGateKind (step : string) (gate : nat) | ErrNoCommand (step : string).

Fixpoint extract_from (s : Step) (i : nat) (gates : list Gate) : result planError (list CommandGate) :=
  match gates with
  | [] => Ok []
  | g :: gates =>
      if negb (bool_decide (Kind g = "command")) then extract_from s (S i) gates
      else if len (Run g) =? 0 then Err (ErrEmptyRun (ID s) i)
      else
        let label := match Validation s !! i with Some l => l | None => Join (Run g) " " end in
        match extract_from s (S i) gates with
        | Ok out => Ok (mkCommandGate label (Run g) (g_CriterionIDs g) :: out)
        | Err e => Err e
        end
  end.
Definition ExtractCommandGates (s : Step) : result planError (list CommandGate) := extract_from s 0 (Gates s).

Fixpoint other_kind (i : nat) (gates : list Gate) : option nat :=
  match gates with
  | [] => None
  | g :: gates => if bool_decide (Kind g = "command") then other_kind (S i) gates else Some i
  end.

Definition preflight_step (s : Step) : option planError :=
  if (0 <? len (Validation s)) && negb (len (Gates s) =? len (Validation s)) then Some (ErrAlignment (ID s))
  else match other_kind 0 (Gates s) with
       | Some i => Some (ErrGateKind (ID s) i)
       | None => match ExtractCommandGates s with
                 | Err e => Some e
                 | Ok [] => Some (ErrNoCommand (ID s))
                 | Ok _ => None
                 end
       end.

Fixpoint preflight_steps (steps : list Step) : option planError :=
  match steps with
  | [] => None
  | s :: steps => match preflight_step s with Some e => Some e | None => preflight_steps steps end
  end.

Definition PreflightP0 (p : Plan) : option planError :=
  if negb (SupportedSchemaVersion (SchemaVersion p)) then Some (ErrSchema (SchemaVersion p)) else preflight_steps (Steps p).

(** ** The walk finds the cycles *)

Section Cycles.
Context (graph : gmap string (list string)).

Definition edge (a b : string) : Prop := b ∈ default [] (graph !! a) /\ is_Some (graph !! b).

Definition cyclic (ds : list Diagnostic) : Prop := Exists (fun d => Code d = "dependency_cycle") ds.

(** Every step comes before what it depends on. *)
Fixpoint ordered (order : list string) : Prop :=
  match order with
  | [] => True
  | x :: order => (forall y, edge x y -> y ∈ order) /\ ordered order
  end.

Lemma ordered_closed order x y : ordered order -> x ∈ order -> tc edge x y -> y ∈ order.
Proof.
  intros Ho Hx Hp. assert (forall a b, edge a b -> a ∈ order -> b ∈ order) as Hstep.
  { clear x y Hx Hp. induction order as [|z order IH]; intros a b Hab Ha; [by apply elem_of_nil in Ha|].
    destruct Ho as [Hz Ho]. apply elem_of_cons in Ha as [->|Ha]; right; [by apply Hz|by eapply IH]. }
  induction Hp as [x y H|x y z H _ IH]; [by eapply Hstep|]. apply IH. by eapply Hstep.
Qed.

Lemma ordered_acyclic order x : ordered order -> x ∈ order -> ~ tc edge x x.
Proof.
  induction order as [|z order IH]; intros Ho Hx Hc; [by apply elem_of_nil in Hx|]. destruct Ho as [Hz Ho].
  apply elem_of_cons in Hx as [->|Hx]; [|by apply IH].
  assert (z ∈ order) as Hin; [|by apply IH].
  inversion Hc as [? ? He|? y ? He Hr]; subst; [by apply Hz|]. eapply ordered_closed; [done|by apply Hz|done].
Qed.

(** What holds between the visits. *)
Record walked (w : walk) : Prop := {
  wk_order : cyclic (w_ds w) \/ exists order, visited w = list_to_set order /\ ordered order;
  wk_sound : cyclic (w_ds w) -> exists x, tc edge x x
}.

(** What a visit leaves. *)
Definition goes (w w' : walk) : Prop :=
  walked w' /\ visiting w' = visiting w /\ visited w ⊆ visited w' /\ (cyclic (w_ds w) -> cyclic (w_ds w')).

Lemma goes_refl w : walked w -> goes w w.
Proof. intros H. by split_and!. Qed.

Lemma goes_trans w1 w2 w3 : goes w1 w2 -> goes w2 w3 -> goes w1 w3.
Proof. intros (_ & H2 & H3 & H4) (H1' & H2' & H3' & H4'). split_and!; [done|congruence|set_solver|auto]. Qed.

(** A visit of [dep] that succeeds from every state that holds [V]. *)
Definition visits (V : gset string) (go : walk -> option walk) (dep : string) : Prop :=
  forall w, walked w -> visiting w = V ->
    exists w', go w = Some w' /\ goes w w' /\ (cyclic (w_ds w') \/ dep ∈ visited w').

Lemma visit_deps_spec go V l : (forall dep, dep ∈ l -> is_Some (graph !! dep) -> visits V (go dep) dep) ->
  forall w, walked w -> visiting w = V ->
  exists w', visit_deps graph go l w = Some w' /\ goes w w' /\
    (cyclic (w_ds w') \/ forall dep, dep ∈ l -> is_Some (graph !! dep) -> dep ∈ visited w').
Proof.
  induction l as [|dep l IH]; intros Hgo w Hw HV.
  { exists w. split_and!; [done|by apply goes_refl|right]. by intros dep ?%elem_of_nil. }
  assert (forall d, d ∈ l -> is_Some (graph !! d) -> visits V (go d) d) as Hgo' by (intros d Hd; apply Hgo; by right).
  cbn [visit_deps]. destruct (graph !! dep) as [x|] eqn:Edep.
  - destruct (Hgo dep ltac:(by left) ltac:(by rewrite Edep) w Hw HV) as (w1 & -> & Hg1 & Hd1). cbn [mbind option_bind].
    pose proof Hg1 as (Hw1 & HV1 & _). destruct (IH Hgo' w1 Hw1 ltac:(congruence)) as (w2 & -> & Hg2 & Hd2).
    exists w2. split_and!; [done|by eapply goes_trans|]. pose proof Hg2 as (_ & _ & Hsub & Hcy).
    destruct Hd1 as [Hd1|Hd1]; [left; auto|]. destruct Hd2 as [Hd2|Hd2]; [by left|right].
    intros d [->|Hd]%elem_of_cons Hs; [set_solver|auto].
  - destruct (IH Hgo' w Hw HV) as (w2 & -> & Hg2 & Hd2). exists w2. split_and!; [done|done|].
    destruct Hd2 as [Hd2|Hd2]; [by left|right]. intros d [->|Hd]%elem_of_cons Hs; [|auto].
    rewrite Edep in Hs. by destruct Hs.
Qed.

Lemma cyclic_app ds d : cyclic ds -> cyclic (ds ++ d).
Proof. intros H. apply Exists_app. by left. Qed.

Lemma visit_spec fuel : forall id chain V, is_Some (graph !! id) -> V ⊆ dom graph -> V = list_to_set chain ->
  Forall (fun x => tc edge x id) chain -> (size (dom graph) < fuel + size V)%nat ->
  visits V (visit graph fuel id chain) id.
Proof.
  induction fuel as [|fuel IH]; intros id chain V Hid Hsub HV Hchain Hfuel w Hw HwV.
  { apply subseteq_size in Hsub. lia. }
  cbn [visit]. case_bool_decide as Hvis.
  { exists w. split_and!; [done|by apply goes_refl|by right]. }
  case_bool_decide as Hing.
  { assert (tc edge id id) as Hcy by (rewrite Forall_forall in Hchain; apply Hchain; set_solver).
    eexists. split; [reflexivity|]. set (w' := mkWalk _ _ _).
    assert (cyclic (w_ds w')) as Hc by (apply Exists_app; right; by constructor).
    split_and!; [|by left]. split_and!; [|done|done|by intros _]. split; [by left|by exists id]. }
  set (w1 := mkWalk ({[id]} ∪ visiting w) _ _).
  assert (walked w1) as Hw1 by (destruct Hw; by split).
  destruct (visit_deps_spec (fun dep => visit graph fuel dep (chain ++ [id])) (visiting w1) (default [] (graph !! id))) with (w := w1)
    as (w2 & -> & (Hw2 & HV2 & Hsub2 & Hcy2) & Hd2); [|done|done|].
  { intros dep Hdep Hs. assert (edge id dep) as He by done. apply IH; [done|..].
    - simpl. apply union_subseteq. split; [|by rewrite HwV]. apply singleton_subseteq_l. by apply elem_of_dom.
    - simpl. rewrite list_to_set_app_L, HwV, HV. simpl. set_solver.
    - apply Forall_app. split; [|constructor; [by apply tc_once|constructor]].
      eapply Forall_impl; [exact Hchain|]. intros x Hx. eapply tc_r; [exact Hx|exact He].
    - simpl. rewrite size_union by set_solver. rewrite size_singleton, HwV. lia. }
  cbn [mbind option_bind]. eexists. split; [reflexivity|]. cbn [visiting visited w_ds].
  destruct Hw2 as [Ho2 Hs2]. unfold goes. split_and!.
  - split; cbn [visiting visited w_ds]; [|exact Hs2]. destruct Ho2 as [|(order & Eo & Ho)]; [by left|].
    destruct Hd2 as [|Hd2]; [by left|right]. exists (id :: order). split; [simpl; by rewrite Eo|]. split; [|done].
    intros y [Hy Hs]. specialize (Hd2 y Hy Hs). rewrite Eo in Hd2. by apply elem_of_list_to_set in Hd2.
  - cbn. rewrite HV2. simpl. set_solver.
  - cbn. simpl in Hsub2. set_solver.
  - done.
  - right. set_solver.
Qed.

Lemma visit_all_spec fuel ids : (forall id, id ∈ ids -> is_Some (graph !! id)) -> (size (dom graph) < fuel)%nat ->
  forall w, walked w -> visiting w = ∅ ->
  exists w', visit_all graph fuel ids w = Some w' /\ goes w w' /\ (cyclic (w_ds w') \/ forall id, id ∈ ids -> id ∈ visited w').
Proof.
  intros Hids Hfuel. induction ids as [|id ids IH]; intros w Hw HV.
  { exists w. split_and!; [done|by apply goes_refl|right]. by intros id ?%elem_of_nil. }
  cbn [visit_all].
  destruct (visit_spec fuel id [] ∅ ltac:(apply Hids; by left) ltac:(set_solver) ltac:(done) ltac:(constructor) ltac:(rewrite size_empty; lia) w Hw HV)
    as (w1 & -> & Hg1 & Hd1). cbn [mbind option_bind]. pose proof Hg1 as (Hw1 & HV1 & _).
  destruct (IH ltac:(intros i Hi; apply Hids; by right) w1 Hw1 ltac:(congruence)) as (w2 & -> & Hg2 & Hd2).
  exists w2. split_and!; [done|by eapply goes_trans|]. pose proof Hg2 as (_ & _ & Hsub & Hcy).
  destruct Hd1 as [Hd1|Hd1]; [left; auto|]. destruct Hd2 as [Hd2|Hd2]; [by left|right].
  intros d [->|Hd]%elem_of_cons; [set_solver|auto].
Qed.
End Cycles.

(** The walk ends, reports a cycle exactly when there is one, and otherwise
    leaves an order of all the steps. *)
Lemma cycle_diags_spec steps : exists ds, cycle_diags steps = Some ds /\
  (cyclic ds -> exists x, tc (edge (dep_graph steps)) x x) /\
  (cyclic ds \/ exists order, ordered (dep_graph steps) order /\ forall x, is_Some (dep_graph steps !! x) -> x ∈ order).
Proof.
  unfold cycle_diags. set (g := dep_graph steps).
  assert (forall x, x ∈ SortStrings (elements (dom g)) <-> is_Some (g !! x)) as Hids.
  { intros x. unfold SortStrings. by rewrite merge_sort_Permutation, elem_of_elements, elem_of_dom. }
  destruct (visit_all_spec g (S (size g)) (SortStrings (elements (dom g)))) with (w := mkWalk ∅ ∅ [])
    as (w & -> & ([Ho Hs] & _) & Hd).
  - intros id. apply Hids.
  - rewrite size_dom. lia.
  - split; [right; by exists []|]. intros H. by inversion H.
  - done.
  - exists (w_ds w). split_and!; [done|done|]. destruct Hd as [|Hd]; [by left|]. destruct Ho as [|(order & Eo & Ho)]; [by left|right].
    exists order. split; [done|]. intros x Hx. apply Hids, Hd in Hx. rewrite Eo in Hx. by apply elem_of_list_to_set in Hx.
Qed.

(** The least number of steps that must come after the last occurrence. *)
Fixpoint rank (order : list string) (x : string) : nat :=
  match order with
  | [] => 0
  | z :: order => if bool_decide (x ∈ order) then rank order x else if bool_decide (z = x) then S (length order) else 0
  end.

Lemma rank_le order x : (rank order x <= length order)%nat.
Proof. induction order as [|z order IH]; simpl; [done|]. do 2 (case_bool_decide; try lia). Qed.

Lemma rank_edge g order x y : ordered g order -> x ∈ order -> edge g x y -> (rank order y < rank order x)%nat.
Proof.
  induction order as [|z order IH]; intros Ho Hx He; [by apply elem_of_nil in Hx|]. destruct Ho as [Hz Ho]. cbn [rank].
  destruct (decide (x ∈ order)) as [Hin|Hout].
  - rewrite (bool_decide_eq_true_2 (x ∈ order)) by done.
    rewrite bool_decide_eq_true_2 by (eapply ordered_closed; [done|exact Hin|by apply tc_once]). by apply IH.
  - apply elem_of_cons in Hx as [->|]; [|done]. rewrite (bool_decide_eq_false_2 (z ∈ order)) by done.
    rewrite (bool_decide_eq_true_2 (y ∈ order)) by (by apply Hz). rewrite bool_decide_eq_true_2 by done.
    pose proof (rank_le order y). lia.
Qed.

Lemma no_reference_cycle known s : ~ cyclic (reference_diags known s).
Proof.
  unfold reference_diags, cyclic. case_bool_decide; [by inversion 1|]. rewrite Exists_exists. intros (d & Hd & Hc).
  apply list_elem_of_In, in_concat in Hd as (l & Hl & Hd). apply in_map_iff in Hl as (dep & <- & _).
  case_bool_decide; [destruct Hd as [<-|[]]; done|]. unfold when in Hd. destruct (negb _); [destruct Hd as [<-|[]]; done|done].
Qed.

Lemma dependency_spec steps : exists ds, dependencyDiagnostics steps = Some ds /\
  (cyclic ds -> exists x, tc (edge (dep_graph steps)) x x) /\
  (cyclic ds \/ exists order, ordered (dep_graph steps) order /\ forall x, is_Some (dep_graph steps !! x) -> x ∈ order) /\
  (ds = [] -> forall s, s ∈ steps -> reference_diags (known_ids steps) s = []).
Proof.
  unfold dependencyDiagnostics. destruct (cycle_diags_spec steps) as (ds & -> & Hs & Ho). cbn [mbind option_bind].
  eexists. split; [reflexivity|]. split_and!.
  - intros [H|H]%Exists_app; [|by apply Hs]. exfalso. apply Exists_exists in H as (d & Hd & Hc).
    apply list_elem_of_In, in_concat in Hd as (l & Hl & Hd). apply in_map_iff in Hl as (s & <- & _).
    eapply (no_reference_cycle (known_ids steps) s). apply Exists_exists. exists d. by rewrite list_elem_of_In.
  - destruct Ho as [H|H]; [left; apply Exists_app; by right|by right].
  - intros [Hc _]%app_eq_nil s Hin. apply concat_nil_Forall in Hc. rewrite Forall_forall in Hc.
    apply Hc, list_elem_of_In, in_map, list_elem_of_In, Hin.
Qed.

(** ** Plans without diagnostics *)

Lemma when_nil b code msg : when b code msg = [] -> b = false.
Proof. by destruct b. Qed.

(** Cuts a list of diagnostics that is empty into its parts. *)
Ltac quiet :=
  repeat match goal with
  | H : (_ ++ _)%list = [] |- _ => apply app_eq_nil in H as [? ?]
  | H : when _ _ _ = [] |- _ => apply when_nil in H
  | H : (if ?b then [_] else _) = [] |- _ => let E := fresh in destruct b eqn:E; [discriminate H|]
  | H : negb _ = false |- _ => apply negb_false_iff in H
  end.

Lemma concat_map_nil {A B} (f : A -> list B) l : concat (map f l) = [] -> forall x, x ∈ l -> f x = [].
Proof.
  intros H x Hx. apply concat_nil_Forall in H. rewrite Forall_forall in H. apply H, list_elem_of_In, in_map, list_elem_of_In, Hx.
Qed.

Lemma blank_empty : blank EmptyString = true.
Proof. done. Qed.

Lemma unsafe_diag_nil prefix f : unsafe_diag prefix f = [] -> inside f.
Proof.
  unfold unsafe_diag, unsafePath. case_bool_decide as Hb; [done|]. destruct (IsAbs _) eqn:Ha; [done|].
  destruct (existsb _ _) eqn:He; [done|]. intros _. apply inside_trimmed; [done|]. split; [done|]. intros Hin.
  assert (existsb (String.eqb "..") (Split "/" (Clean (TrimSpace f))) = true); [|congruence].
  apply existsb_exists. exists "..". by rewrite <- list_elem_of_In.
Qed.

(** A file that a step of the plan may change. *)
Definition writable (regexp : string -> option (string -> bool)) (p : Plan) (f : string) : Prop :=
  inside f /\ firstSegmentIsAgent (Clean f) = false /\ MatchesPath regexp (Clean f) (AllowedFiles p) = true /\
  MatchesPath regexp (Clean f) (BlockedFiles p) = false.

(** A step that can be carried out. *)
Definition sound_step (regexp : string -> option (string -> bool)) (p : Plan) (s : Step) : Prop :=
  blank (ID s) = false /\ Files s <> [] /\ Forall (writable regexp p) (Files s) /\
  Gates s <> [] /\ length (Validation s) = length (Gates s) /\
  Forall (fun g => Run g <> [] /\ Forall (fun a => blank a = false) (Run g)) (Gates s).

Lemma allNonBlank_Forall xs : allNonBlank xs = true -> Forall (fun x => blank x = false) xs.
Proof. unfold allNonBlank. rewrite forallb_forall, Forall_forall. intros H x Hx. apply list_elem_of_In, H in Hx. by apply negb_true_iff. Qed.

Lemma step_diags_nil regexp p seen s : step_diags regexp p seen s = [] -> sound_step regexp p s /\ ID s ∉ seen.
Proof.
  unfold step_diags. intros H. quiet. to_prop.
  match goal with H : concat (map (file_diags s) _) = [] |- _ => pose proof (concat_map_nil _ _ H) as Hfile; clear H end.
  match goal with H : concat (map (scope_diags regexp p s) _) = [] |- _ => pose proof (concat_map_nil _ _ H) as Hscope; clear H end.
  match goal with H : concat (map _ (Gates s)) = [] |- _ => pose proof (concat_map_nil _ _ H) as Hgate; clear H end.
  split; [|done]. unfold sound_step. split_and!.
  - done.
  - by intros E; rewrite E in *.
  - apply Forall_forall. intros f Hf. pose proof (Hfile f Hf) as H5. pose proof (Hscope f Hf) as H6. unfold file_diags in H5. unfold scope_diags in H6.
    quiet. match goal with H : firstSegmentIsAgent _ = false |- _ => rewrite H in H6 end. quiet.
    split_and!; [by eapply unsafe_diag_nil|done..].
  - intros E%(f_equal len). rewrite len_nil in E. lia.
  - unfold len in *. lia.
  - apply Forall_forall. intros g Hg. specialize (Hgate g Hg). cbv beta in Hgate. quiet.
    match goal with H : _ || _ = false |- _ => apply orb_false_iff in H as [Hr Ha] end. quiet. to_prop.
    split; [by intros E; rewrite E in *|by apply allNonBlank_Forall].
Qed.

Lemma steps_diags_nil regexp p steps : forall seen, steps_diags regexp p seen steps = [] ->
  Forall (sound_step regexp p) steps /\ NoDup (map ID steps) /\ forall s, s ∈ steps -> ID s ∉ seen.
Proof.
  induction steps as [|s steps IH]; intros seen H; cbn [steps_diags] in H.
  { split_and!; [constructor|constructor|by intros s ?%elem_of_nil]. }
  apply app_eq_nil in H as [Hs H]. apply step_diags_nil in Hs as [Hs Hin].
  assert (blank (ID s) = false) as Hb by apply Hs. rewrite Hb in H. apply IH in H as (Hf & Hnd & Hout). split_and!.
  - by constructor.
  - simpl. constructor; [|done]. rewrite list_elem_of_In, in_map_iff. intros (s' & E & Hs'). apply list_elem_of_In in Hs'.
    apply (Hout s' Hs'). rewrite E. set_solver.
  - intros s' [->|Hs']%elem_of_cons; [done|]. specialize (Hout s' Hs'). set_solver.
Qed.

Lemma nonblank_nonempty i : blank i = false -> i <> EmptyString.
Proof. by intros H ->. Qed.

(** The dependencies of a step, in a plan with distinct ids. *)
Lemma dep_graph_lookup steps s : NoDup (map ID steps) -> Forall (fun s => blank (ID s) = false) steps -> s ∈ steps ->
  dep_graph steps !! ID s = Some (List.filter (fun d => negb (bool_decide (d = EmptyString))) (map TrimSpace (DependsOn s))).
Proof.
  intros Hnd Hb Hs. unfold dep_graph. set (f := fun g s => _).
  assert (forall l g, NoDup (map ID l) -> Forall (fun s => blank (ID s) = false) l ->
    (s ∈ l \/ (ID s ∉ map ID l /\ g !! ID s = Some (List.filter (fun d => negb (bool_decide (d = EmptyString))) (map TrimSpace (DependsOn s))))) ->
    fold_left f l g !! ID s = Some (List.filter (fun d => negb (bool_decide (d = EmptyString))) (map TrimSpace (DependsOn s)))) as H;
    [|by apply H; [..|left]].
  clear steps Hnd Hb Hs. intros l. induction l as [|x l IH]; intros g Hnd Hb Hs.
  { destruct Hs as [?%elem_of_nil|[_ H]]; done. }
  simpl in Hnd. inversion_clear Hnd as [|? ? Hx Hnd']. inversion_clear Hb as [|? ? Hbx Hb']. cbn [fold_left]. apply IH; [done|done|].
  unfold f at 1. rewrite bool_decide_eq_false_2 by (by apply nonblank_nonempty).
  destruct Hs as [Hs|[Hout Hg]].
  - apply elem_of_cons in Hs as [->|Hs]; [right|by left]. split; [done|by rewrite lookup_insert_eq].
  - simpl in Hout. apply not_elem_of_cons in Hout as [Hne Hout]. right. split; [done|]. by rewrite lookup_insert_ne by done.
Qed.

Lemma known_spec steps d : d ∈ known_ids steps <-> exists s, s ∈ steps /\ ID s = d /\ d <> EmptyString.
Proof.
  unfold known_ids. rewrite elem_of_list_to_set, list_elem_of_In, filter_In, in_map_iff. split.
  - intros [(s & <- & Hs) Hne]. apply list_elem_of_In in Hs. exists s. to_prop. done.
  - intros (s & Hs & <- & Hne). split; [exists s; by rewrite <- list_elem_of_In|]. by rewrite bool_decide_eq_false_2.
Qed.

(** Without diagnostics a dependency names a step. *)
Lemma reference_diags_nil known s : ID s <> EmptyString -> reference_diags known s = [] ->
  forall dep, dep ∈ DependsOn s -> TrimSpace dep <> EmptyString /\ TrimSpace dep ∈ known.
Proof.
  intros Hid H dep Hdep. unfold reference_diags in H. rewrite bool_decide_eq_false_2 in H by done.
  apply (concat_map_nil _ _ H) in Hdep. case_bool_decide; [done|]. quiet. by to_prop.
Qed.

(** ** Traceability *)

Definition criteria (rs : list Requirement) : list Criterion := concat (map AcceptanceCriteria rs).

(** What the declarations have collected, when there is nothing to report. *)
Lemma declare_criteria_spec cs : forall d ds d' ds', fold_left declare_criterion cs (d, ds) = (d', ds') ->
  requirementIDs d' = requirementIDs d /\ criterionIDs d' = criterionIDs d ∪ list_to_set (map c_ID cs) /\
  floored d' ⊆ floored d ∪ list_to_set (map c_ID (List.filter (fun c => opt_b (Review c)) cs)) /\
  (ds' = [] -> ds = [] /\ NoDup (map c_ID cs) /\ forall c, c ∈ cs -> c_ID c ∉ criterionIDs d).
Proof.
  induction cs as [|c cs IH]; intros d ds d' ds' E.
  { injection E as <- <-. split_and!; [done|set_solver|set_solver|]. intros ->. split_and!; [done|constructor|by intros c ?%elem_of_nil]. }
  cbn [fold_left declare_criterion] in E. apply IH in E as (Er & Ec & Ef & Hds). cbn [requirementIDs criterionIDs floored] in *.
  split_and!.
  - done.
  - rewrite Ec. simpl. set_solver.
  - etrans; [exact Ef|]. simpl. destruct (Review c); simpl; set_solver.
  - intros Hn. destruct (Hds Hn) as (Hd & Hnd & Hout). apply app_eq_nil in Hd as [-> Hd]. unfold criterion_diags in Hd. quiet. to_prop.
    split_and!; [done| |].
    + simpl. constructor; [|done]. rewrite list_elem_of_In, in_map_iff. intros (c' & E & Hc'). apply list_elem_of_In in Hc'.
      apply (Hout c' Hc'). rewrite E. set_solver.
    + intros c' [->|Hc']%elem_of_cons; [done|]. specialize (Hout c' Hc'). set_solver.
Qed.

Lemma declare_requirements_spec rs : forall d ds d' ds', fold_left declare_requirement rs (d, ds) = (d', ds') ->
  criterionIDs d' = criterionIDs d ∪ list_to_set (map c_ID (criteria rs)) /\
  floored d' ⊆ floored d ∪ list_to_set (map c_ID (List.filter (fun c => opt_b (Review c)) (criteria rs))) /\
  (ds' = [] -> ds = [] /\ NoDup (map r_ID rs) /\ NoDup (map c_ID (criteria rs)) /\ Forall (fun r => AcceptanceCriteria r <> []) rs /\
     (forall r, r ∈ rs -> r_ID r ∉ requirementIDs d) /\ forall c, c ∈ criteria rs -> c_ID c ∉ criterionIDs d).
Proof.
  induction rs as [|r rs IH]; intros d ds d' ds' E.
  { injection E as <- <-. split_and!; [set_solver|set_solver|]. intros ->.
    split_and!; [done|constructor|constructor|constructor|by intros r ?%elem_of_nil|by intros c ?%elem_of_nil]. }
  cbn [fold_left declare_requirement] in E. destruct (fold_left declare_criterion _ _) as [d1 ds1] eqn:E1.
  apply declare_criteria_spec in E1 as (Er1 & Ec1 & Ef1 & H1). apply IH in E as (Ec & Ef & Hds).
  cbn [requirementIDs criterionIDs floored] in *. unfold criteria. cbn [map concat]. fold (criteria rs).
  rewrite !map_app, List.filter_app, map_app, !list_to_set_app_L. split_and!.
  - by rewrite Ec, Ec1, (assoc_L (∪)).
  - rewrite (assoc_L (∪)). etrans; [exact Ef|]. by apply union_mono_r.
  - intros Hn. destruct (Hds Hn) as (Hn1 & Hndr & Hndc & Hne & Hr & Hc). destruct (H1 Hn1) as (Hd & Hnd1 & Hc1).
    apply app_eq_nil in Hd as [-> Hd]. unfold requirement_diags in Hd. quiet. to_prop. split_and!.
    + done.
    + simpl. constructor; [|done]. rewrite list_elem_of_In, in_map_iff. intros (r' & E & Hr'). apply list_elem_of_In in Hr'.
      apply (Hr r' Hr'). rewrite Er1, E. set_solver.
    + apply NoDup_app. split_and!; [done| |done]. intros i Hi (c & -> & Hc')%list_elem_of_fmap. apply (Hc c Hc'). rewrite Ec1.
      apply elem_of_union. right. by apply elem_of_list_to_set.
    + constructor; [|done]. by intros E; rewrite E in *.
    + intros r' [->|Hr']%elem_of_cons; [done|]. specialize (Hr r' Hr'). rewrite Er1 in Hr. set_solver.
    + intros c [Hc'|Hc']%elem_of_app; [by apply Hc1|]. specialize (Hc c Hc'). rewrite Ec1 in Hc. set_solver.
Qed.

Lemma step_mapped_spec known steps c : c ∈ step_mapped known steps -> exists s, s ∈ steps /\ c ∈ s_CriterionIDs s.
Proof.
  unfold step_mapped. rewrite elem_of_list_to_set, list_elem_of_In, filter_In, in_concat. intros [(l & Hl & Hc) _].
  apply in_map_iff in Hl as (s & <- & Hs). exists s. by rewrite !list_elem_of_In.
Qed.

Lemma gate_mapped_spec known steps c : c ∈ gate_mapped known steps ->
  exists s g, s ∈ steps /\ g ∈ Gates s /\ c ∈ g_CriterionIDs g /\ c ∈ s_CriterionIDs s.
Proof.
  unfold gate_mapped. rewrite elem_of_list_to_set, list_elem_of_In, in_concat. intros (l & Hl & Hc).
  apply in_map_iff in Hl as (s & <- & Hs). apply filter_In in Hc as [Hc Hin]. apply in_concat in Hc as (l & Hl & Hc).
  apply in_map_iff in Hl as (g & <- & Hg). apply andb_true_iff in Hin as [Hin _].
  apply existsb_exists in Hin as (x & Hx & ->%String.eqb_eq). exists s, g. by rewrite !list_elem_of_In.
Qed.

(** Two elements with the same image, when the images are distinct. *)
Lemma NoDup_map_inj {A B} (f : A -> B) l x y : NoDup (map f l) -> x ∈ l -> y ∈ l -> f x = f y -> x = y.
Proof.
  intros Hnd Hx Hy E. apply list_elem_of_lookup in Hx as [i Hi], Hy as [j Hj].
  assert (i = j) as ->; [|congruence]. eapply (NoDup_lookup (map f l)); [done|rewrite list_lookup_fmap, Hi; done|].
  by rewrite list_lookup_fmap, Hj, E.
Qed.

Lemma reference_list_nil w c1 v1 c2 v2 extra known ids : forall seen,
  reference_list w c1 v1 c2 v2 extra known seen ids = [] ->
  NoDup ids /\ forall i, i ∈ ids -> i ∈ known /\ i ∉ seen /\ extra i = [].
Proof.
  induction ids as [|i ids IH]; intros seen H; cbn [reference_list] in H.
  { split; [constructor|by intros i ?%elem_of_nil]. }
  quiet. to_prop. match goal with H : reference_list _ _ _ _ _ _ _ _ _ = [] |- _ => apply IH in H as [Hnd Hall] end. split.
  - constructor; [|done]. intros Hi. destruct (Hall i Hi) as (_ & Hs & _). set_solver.
  - intros j [->|Hj]%elem_of_cons; [done|]. destruct (Hall j Hj) as (? & ? & ?). set_solver.
Qed.

Lemma concat_imap_nil {A B} (f : nat -> A -> list B) l : concat (imap f l) = [] -> forall i x, l !! i = Some x -> f i x = [].
Proof.
  intros H i x Hx. apply concat_nil_Forall in H. rewrite Forall_forall in H. apply H, list_elem_of_lookup. exists i.
  by rewrite list_lookup_imap, Hx.
Qed.

Lemma tc_source g x y : tc (edge g) x y -> is_Some (g !! x).
Proof.
  intros H. assert (exists z, edge g x z) as [z [Hz _]] by (inversion H; by eexists).
  destruct (g !! x); [done|by apply elem_of_nil in Hz].
Qed.

(** *** What depends on what *)

(** The step that speaks for an id: the last one that has it. *)
Definition speaks (steps : list Step) (i : string) (s : Step) : Prop :=
  exists pre post, steps = (pre ++ s :: post)%list /\ ID s = i /\ i ∉ map ID post.

(** The step named [i] lists, up to surrounding space, the name [j] of a step. *)
Definition depends (steps : list Step) (i j : string) : Prop :=
  i <> "" /\ j <> "" /\ j ∈ map ID steps /\
  exists s dep, speaks steps i s /\ dep ∈ DependsOn s /\ TrimSpace dep = j.

Lemma dep_graph_speaks steps i l :
  dep_graph steps !! i = Some l <->
  i <> "" /\ exists s, speaks steps i s /\ l = List.filter (fun d => negb (bool_decide (d = EmptyString))) (map TrimSpace (DependsOn s)).
Proof.
  revert l. induction steps as [|x steps IH] using rev_ind; intros l.
  { split; [done|]. intros (_ & s & (pre & post & E & _) & _). by destruct pre. }
  unfold dep_graph. rewrite fold_left_app. fold (dep_graph steps). cbn [fold_left].
  assert (speaks (steps ++ [x]) (ID x) x) as Hx by (exists steps, []; split_and!; [done|done|apply not_elem_of_nil]).
  assert (forall s, speaks (steps ++ [x]) i s <-> (i = ID x /\ s = x) \/ (i <> ID x /\ speaks steps i s)) as Hsp.
  { intros s. split.
    - intros (pre & post & E & Hi & Hn). destruct post as [|y post _] using rev_ind.
      + apply app_inj_tail in E as [_ <-]. by left.
      + rewrite app_comm_cons, app_assoc in E. apply app_inj_tail in E as [-> <-]. right.
        rewrite map_app in Hn. split; [intros ->; apply Hn, elem_of_app; right; by left|].
        exists pre, post. split_and!; [done|done|]. intros H. apply Hn, elem_of_app. by left.
    - intros [[-> ->]|(Hne & pre & post & -> & Hi & Hn)]; [done|]. exists pre, (post ++ [x])%list.
      split_and!; [by rewrite <-app_assoc|done|]. rewrite map_app. intros [H|[->|?%elem_of_nil]%elem_of_cons]%elem_of_app; done. }
  setoid_rewrite Hsp. case_bool_decide as Ee.
  - rewrite IH. split; intros [Hi (s & H & ->)]; (split; [done|]); exists s; (split; [|done]).
    + right. split; [congruence|done].
    + by destruct H as [[-> _]|[_ H]].
  - destruct (decide (i = ID x)) as [->|Hne].
    + rewrite lookup_insert_eq. split; [intros [= <-]; split; [done|]; exists x; split; [by left|done]|].
      intros (_ & s & [[_ ->]|[? _]] & ->); done.
    + rewrite lookup_insert_ne by done. rewrite IH. f_equiv. f_equiv. intros s. f_equiv. naive_solver.
Qed.

Lemma dep_graph_dom steps j : is_Some (dep_graph steps !! j) <-> j <> "" /\ j ∈ map ID steps.
Proof.
  split.
  - intros [l (Hj & s & (pre & post & -> & <- & _) & _)%dep_graph_speaks]. split; [done|].
    rewrite map_app. apply elem_of_app. right. by left.
  - intros [Hj Hin]. assert (exists s, speaks steps j s) as [s Hs].
    { clear Hj. induction steps as [|x steps IH]; [by apply elem_of_nil in Hin|]. simpl in Hin.
      destruct (decide (j ∈ map ID steps)) as [Hin'|Hn].
      - destruct (IH Hin') as (s & pre & post & -> & H). by exists s, (x :: pre)%list, post.
      - apply elem_of_cons in Hin as [->|]; [|done]. by exists x, [], steps. }
    eexists. apply dep_graph_speaks. split; [done|]. by exists s.
Qed.

(** The edges of the graph are the dependencies. *)
Lemma edge_depends steps i j : edge (dep_graph steps) i j <-> depends steps i j.
Proof.
  unfold edge, depends. rewrite dep_graph_dom. split.
  - intros [Hin [Hj Hmem]]. destruct (dep_graph steps !! i) as [l|] eqn:E; [|by apply elem_of_nil in Hin].
    apply dep_graph_speaks in E as (Hi & s & Hs & ->). split_and!; [done|done|done|]. simpl in Hin.
    apply list_elem_of_In, filter_In in Hin as [(dep & <- & Hdep)%in_map_iff _]. apply list_elem_of_In in Hdep. by exists s, dep.
  - intros (Hi & Hj & Hmem & s & dep & Hs & Hdep & <-). split; [|done].
    rewrite (proj2 (dep_graph_speaks steps i _) (conj Hi (ex_intro _ s (conj Hs eq_refl)))). simpl.
    apply list_elem_of_In, filter_In. split; [by apply in_map, list_elem_of_In|]. by rewrite bool_decide_eq_false_2.
Qed.

(** ** Properties *)

(** C33: the search for dependency cycles always ends, and the check reports a
    cycle exactly when some step depends on itself, directly or through other
    steps of the plan: one step depends on another when its depends_on list names
    it, up to surrounding space.  Where several steps have one id, the last of
    them speaks for it. *)
Theorem dependency_cycles steps :
  exists ds, dependencyDiagnostics steps = Some ds /\
    (Exists (fun d => Code d = "dependency_cycle") ds <-> exists i, tc (depends steps) i i).
Proof.
  assert (forall i, tc (depends steps) i i <-> tc (edge (dep_graph steps)) i i) as Htc.
  { intros i. split; (apply tc_congruence with (f := fun x => x)); intros x y; apply edge_depends. }
  setoid_rewrite Htc.
  destruct (dependency_spec steps) as (ds & E & Hs & Ho & _). exists ds. split; [done|]. split; [exact Hs|].
  intros [x Hx]. destruct Ho as [|(order & Ho & Hall)]; [done|]. exfalso.
  eapply ordered_acyclic; [done| |exact Hx]. apply Hall. by eapply tc_source.
Qed.

(** The depth of the steps in a plan without dependency diagnostics. *)
Lemma steps_rank steps : NoDup (map ID steps) -> Forall (fun s => blank (ID s) = false) steps ->
  dependencyDiagnostics steps = Some [] ->
  exists depth : string -> nat, forall s, s ∈ steps -> forall dep, dep ∈ DependsOn s ->
    exists s', s' ∈ steps /\ ID s' = TrimSpace dep /\ (depth (ID s') < depth (ID s))%nat.
Proof.
  intros Hnd Hb E. destruct (dependency_spec steps) as (ds & E' & _ & Ho & Hr). rewrite E in E'. injection E' as <-.
  destruct Ho as [H|(order & Ho & Hall)]; [by inversion H|]. exists (rank order). intros s Hs dep Hdep.
  assert (ID s <> EmptyString) as Hid by (rewrite Forall_forall in Hb; by apply nonblank_nonempty, Hb).
  destruct (reference_diags_nil _ s Hid (Hr eq_refl s Hs) dep Hdep) as [Hne Hk]. apply known_spec in Hk as (s' & Hs' & Es' & _).
  exists s'. split_and!; [done|done|]. pose proof (dep_graph_lookup steps s Hnd Hb Hs) as Hg.
  pose proof (dep_graph_lookup steps s' Hnd Hb Hs') as Hg'. eapply rank_edge; [done|apply Hall; by rewrite Hg|]. split; [|by rewrite Hg'].
  rewrite Hg. simpl. rewrite list_elem_of_In, filter_In. split; [|rewrite Es'; by rewrite bool_decide_eq_false_2].
  rewrite Es'. by apply in_map, list_elem_of_In.
Qed.

(** C32: a plan the check has nothing to say about can be carried out: it has
    steps, with distinct ids; every step names files inside the workspace, out
    of the proof state, within the allowed scope and outside the blocked one,
    and pairs every validation with a command; and the steps have depths such
    that every dependency names a step of smaller depth. *)
Theorem checked_plan_safe regexp Quote p :
  CheckPlan regexp Quote p = Some [] ->
  Steps p <> [] /\ NoDup (map ID (Steps p)) /\ Forall (sound_step regexp p) (Steps p) /\
  exists depth : string -> nat, forall s, s ∈ Steps p -> forall dep, dep ∈ DependsOn s ->
    exists s', s' ∈ Steps p /\ ID s' = TrimSpace dep /\ (depth (ID s') < depth (ID s))%nat.
Proof.
  unfold CheckPlan. destruct (dependencyDiagnostics (Steps p)) as [ds|] eqn:Ed; [|done]. cbn [mbind option_bind]. intros [= H].
  unfold content_diags in H. quiet. match goal with H : steps_diags _ _ _ _ = [] |- _ => apply steps_diags_nil in H as (Hs & Hnd & _) end.
  subst ds. to_prop. split_and!; [by intros E; rewrite E in *|done|done|]. apply steps_rank; [done| |done].
  eapply Forall_impl; [exact Hs|]. intros s Hss. apply Hss.
Qed.

(** Extraction from a compiled step, from its [k]th gate. *)
Lemma extract_compiled s l : forall k, drop k (Validations s) = l -> Forall (fun g => Argv g <> []) l ->
  extract_from (compileStep s) k (map (fun g => mkGate "command" (Argv g) (gi_CriterionIDs g)) l) =
  Ok (map (fun g => mkCommandGate (gate_label g) (Argv g) (gi_CriterionIDs g)) l).
Proof.
  induction l as [|g l IH]; intros k Hk Hl; [done|]. inversion_clear Hl as [|? ? Hg Hl']. cbn [map extract_from Kind Run g_CriterionIDs].
  rewrite bool_decide_eq_true_2 by done. cbn [negb]. destruct (Argv g) as [|a argv] eqn:Ea; [done|].
  replace (len (a :: argv) =? 0) with false by (symmetry; apply Z.eqb_neq; len_lia).
  assert (Validations s !! k = Some g) as Hlk by (rewrite <- (Nat.add_0_r k), <- lookup_drop, Hk; done).
  assert (Validation (compileStep s) !! k = Some (gate_label g)) as -> by (simpl; by rewrite list_lookup_fmap, Hlk).
  rewrite (IH (S k)); [done| |done]. rewrite <- (Nat.add_1_r k), <- drop_drop, Hk. done.
Qed.

Lemma other_kind_compiled i gs : other_kind i (map (fun g => mkGate "command" (Argv g) (gi_CriterionIDs g)) gs) = None.
Proof. revert i. by induction gs as [|g gs IH]; intros i; [|apply IH]. Qed.

(** a compiled plan without diagnostics also passes the preflight, and each
    validation of the author becomes one command gate under its own label, or
    under its command when it has none, with its criteria. *)
Theorem compiled_plan_runs regexp Quote ir :
  CheckPlan regexp Quote (Compile ir) = Some [] ->
  PreflightP0 (Compile ir) = None /\
  forall s, s ∈ ir_Steps ir ->
    ExtractCommandGates (compileStep s) = Ok (map (fun g => mkCommandGate (gate_label g) (Argv g) (gi_CriterionIDs g)) (Validations s)).
Proof.
  unfold CheckPlan. destruct (dependencyDiagnostics _) as [ds|]; [|done]. cbn [mbind option_bind]. intros [= H]. quiet.
  match goal with H : steps_diags _ _ _ _ = [] |- _ => apply steps_diags_nil in H as (Hs & _ & _) end. cbn [Steps Compile] in Hs.
  rewrite Forall_map, Forall_forall in Hs.
  assert (forall s, s ∈ ir_Steps ir ->
    ExtractCommandGates (compileStep s) = Ok (map (fun g => mkCommandGate (gate_label g) (Argv g) (gi_CriterionIDs g)) (Validations s))) as Hx.
  { intros s Hin. destruct (Hs s Hin) as (_ & _ & _ & _ & _ & Hg). apply extract_compiled; [done|].
    cbn [Gates compileStep] in Hg. rewrite Forall_map in Hg. eapply Forall_impl; [exact Hg|]. by intros g [? _]. }
  split; [|done]. change (PreflightP0 (Compile ir)) with (preflight_steps (map compileStep (ir_Steps ir))).
  induction (ir_Steps ir) as [|s steps IH]; [done|]. cbn [map preflight_steps].
  assert (preflight_step (compileStep s) = None) as ->.
  { unfold preflight_step. rewrite (Hx s ltac:(by left)). destruct (Hs s ltac:(by left)) as (_ & _ & _ & Hne & Hlen & _).
    replace (negb _) with false by (symmetry; apply negb_false_iff, Z.eqb_eq; unfold len; by rewrite Hlen).
    rewrite andb_false_r. cbn [Gates compileStep] in *. rewrite other_kind_compiled. by destruct (Validations s). }
  apply IH; [intros s' Hs'; apply Hs; by right|intros s' Hs'; apply Hx; by right].
Qed.

(** traceability without diagnostics: requirements and criteria have
    distinct ids, every requirement has criteria, steps and gates only name
    declared criteria, a gate only those of its step; and every criterion is
    named by a step and proved by a gate of such a step or by a review. *)
Theorem traced_plan p : TraceabilityDiagnostics p = [] ->
  let cs := criteria (Requirements p) in
  NoDup (map r_ID (Requirements p)) /\ NoDup (map c_ID cs) /\ Forall (fun r => AcceptanceCriteria r <> []) (Requirements p) /\
  (forall s, s ∈ Steps p -> NoDup (s_CriterionIDs s) /\ s_CriterionIDs s ⊆ map c_ID cs /\
     forall g, g ∈ Gates s -> NoDup (g_CriterionIDs g) /\ g_CriterionIDs g ⊆ s_CriterionIDs s) /\
  (forall c, c ∈ cs -> (exists s, s ∈ Steps p /\ c_ID c ∈ s_CriterionIDs s) /\
     (Review c <> None \/ exists s g, s ∈ Steps p /\ g ∈ Gates s /\ c_ID c ∈ g_CriterionIDs g /\ c_ID c ∈ s_CriterionIDs s)).
Proof.
  unfold TraceabilityDiagnostics, declared_of. destruct (fold_left _ _ _) as [d ds] eqn:Ed. apply declare_requirements_spec in Ed as (Ec & Ef & Hds).
  cbn [criterionIDs floored requirementIDs] in *. intros H. quiet. subst ds. destruct (Hds eq_refl) as (_ & Hr & Hc & Hne & _ & _).
  set (cs := criteria (Requirements p)) in *. assert (forall i, i ∈ criterionIDs d <-> i ∈ map c_ID cs) as Hk.
  { intros i. rewrite Ec. rewrite elem_of_union, elem_of_list_to_set. set_solver. }
  cbv zeta. split_and!; [done|done|done| |].
  - intros s Hs. match goal with H : concat (map (step_trace_diags _) _) = [] |- _ => pose proof (concat_map_nil _ _ H s Hs) as Hst end.
    unfold step_trace_diags in Hst. apply app_eq_nil in Hst as [Hs1 Hs2]. apply reference_list_nil in Hs1 as [Hnd Hs1].
    split_and!; [done|intros i Hi; apply Hk, (Hs1 i Hi)|]. intros g [i Hg]%list_elem_of_lookup.
    pose proof (concat_imap_nil _ _ Hs2 i g Hg) as Hs3. apply reference_list_nil in Hs3 as [Hndg Hs3]. split; [done|].
    intros j Hj. destruct (Hs3 j Hj) as (_ & _ & Hex). quiet. apply existsb_exists in Hex as (x & Hx & ->%String.eqb_eq). by apply list_elem_of_In.
  - intros c Hcs. assert (c_ID c ∈ criterionIDs d) as Hin by (by apply Hk, list_elem_of_fmap_2).
    match goal with H : concat (map (unmapped_diags _ _) _) = [] |- _ => pose proof (concat_map_nil _ _ H (c_ID c)) as Hu end.
    unfold SortStrings in Hu. rewrite merge_sort_Permutation, elem_of_elements in Hu. specialize (Hu Hin). unfold unmapped_diags in Hu. quiet. to_prop.
    split; [by eapply step_mapped_spec|]. match goal with H : _ ∈ floored d ∪ _ |- _ => apply elem_of_union in H as [Hf|Hg] end; [left|right; by eapply gate_mapped_spec].
    apply Ef in Hf. rewrite elem_of_union, elem_of_empty, elem_of_list_to_set in Hf. destruct Hf as [[]|(c' & Eid & Hc')%list_elem_of_fmap].
    apply list_elem_of_In, filter_In in Hc' as [Hc' Hrev]. apply list_elem_of_In in Hc'.
    assert (c = c') as -> by (by eapply (NoDup_map_inj c_ID cs)). by destruct (Review c').
Qed.

(** ** Witnesses *)

Definition demo_ir : PlanIR :=
  mkPlanIR "bugfix" "fix the parser" ["parser"] ["tests stay green"] "low" "revert" ["src/"] ["src/vendor/"] [] None "" ""
    [mkRequirementIR "R1" "parses numbers" [mkCriterionIR "R1.a" "digits" None; mkCriterionIR "R1.b" "signs" (Some (mkReview "deep"))]]
    [mkStepIR "test" "run the tests" ["src/parser_test.go"] ["a test"] [" code "] ["R1.a"] [mkGateIR " " ["go"; "test"] ["R1.a"]];
     mkStepIR "code" "write it" ["./src/a/../parser.go"] ["a parser"] [] ["R1.b"] [mkGateIR "build" ["go"; "build"] []]].
Definition no_globs : string -> option (string -> bool) := fun _ => None.
Definition demo_plan : Plan := Compile demo_ir.

Lemma checked_plan_safe_witness :
  map Files (Steps demo_plan) = [["src/parser_test.go"]; ["src/parser.go"]] /\ Forall (sound_step no_globs demo_plan) (Steps demo_plan).
Proof. split; [by vm_compute|]. apply (checked_plan_safe no_globs id demo_plan). by vm_compute. Defined.

Lemma compiled_plan_runs_witness :
  PreflightP0 demo_plan = None /\ ExtractCommandGates (compileStep (hd (mkStepIR "" "" [] [] [] [] []) (ir_Steps demo_ir))) =
    Ok [mkCommandGate "go test" ["go"; "test"] ["R1.a"]].
Proof.
  assert (CheckPlan no_globs id (Compile demo_ir) = Some []) as H by (by vm_compute).
  destruct (compiled_plan_runs no_globs id demo_ir H) as [Hp Hx]. split; [exact Hp|]. rewrite (Hx (hd (mkStepIR "" "" [] [] [] [] []) (ir_Steps demo_ir))); [by vm_compute|left].
Defined.

Lemma traced_plan_witness : NoDup (map c_ID (criteria (Requirements demo_plan))) /\ length (criteria (Requirements demo_plan)) = 2%nat.
Proof. split; [|by vm_compute]. apply (traced_plan demo_plan). by vm_compute. Defined.

(** A cycle is reported; a plan that writes outside the workspace, or to the
    proof state, is refused. *)
Example demo_cycle :
  (map Message <$> dependencyDiagnostics [mkStep "a" "" [] [] [] [] [] [] None ["b"] []; mkStep "b" "" [] [] [] [] [] [] None ["a"] []]) =
    Some ["depends_on cycle detected: a -> b -> a"].
Proof. by vm_compute. Qed.
Example demo_paths :
  (map (fun f => fst <$> unsafePath f) ["src/../../x"; "/etc/passwd"; " "; "a/../b"], map firstSegmentIsAgent (map Clean ["./.Agent/x"; "src/.agent"])) =
    ([Some "unsafe_path"; Some "unsafe_path"; Some "unsafe_path"; None], [true; false]).
Proof. by vm_compute. Qed.

(** A literal byte of a pattern is translated as if it were a rune, so the
    translation of a pattern outside ASCII is not the pattern. *)
Example non_ascii_pattern : translate "é*" = "(?s)^Ã©.*$".
Proof. by vm_compute. Qed.
