(* ===== verification/Tokens.v ===== *)
(** * Tokens: checked token arithmetic (agent/context_manager.go)

    The arithmetic that run budgets, compaction and allocation share: additions
    and subtractions of 64-bit counts that report overflow and then saturate at
    the largest integer, whatever the sign of the overflow. *)

From S2P Require Import Prelude.

#[local] Open Scope go_scope.

Definition checkedTokenAdd (a b : Z) : Z * bool :=
  if ((0 <? b) && (MaxInt -i b <? a)) || ((b <? 0) && (a <? MinInt -i b))
  then (MaxInt, false) else (a +i b, true).

Definition checkedTokenSub (a b : Z) : Z * bool :=
  if ((0 <? b) && (a <? MinInt +i b)) || ((b <? 0) && (MaxInt +i b <? a))
  then (MaxInt, false) else (a -i b, true).

Definition saturatedTokenAdd (a b : Z) : Z := (checkedTokenAdd a b).1.

(** [DefaultInputCeiling] *)
Definition DefaultInputCeiling : Z := 8192.

(** Arithmetic over the bounds of [int]. *)
Ltac int_lia := unfold in_int, MinInt, MaxInt in *; lia.

(** On 64-bit arguments the guards are exact: the sum is returned when it is
    representable, and nothing wraps. *)
Lemma checkedTokenAdd_spec a b :
  in_int a -> in_int b ->
  checkedTokenAdd a b = if bool_decide (in_int (a + b)) then (a + b, true) else (MaxInt, false).
Proof.
  intros Ha Hb. unfold checkedTokenAdd.
  assert (0 < b -> wrap_int (MaxInt - b) = MaxInt - b) as H1
    by (intros; apply wrap_int_id; int_lia).
  assert (b < 0 -> wrap_int (MinInt - b) = MinInt - b) as H2
    by (intros; apply wrap_int_id; int_lia).
  case_bool_decide as Hs; [rewrite (wrap_int_id (a + b)) by done|];
    cases_if; to_prop; try done; exfalso; int_lia.
Qed.

Lemma checkedTokenSub_spec a b :
  in_int a -> in_int b ->
  checkedTokenSub a b = if bool_decide (in_int (a - b)) then (a - b, true) else (MaxInt, false).
Proof.
  intros Ha Hb. unfold checkedTokenSub.
  assert (0 < b -> wrap_int (MinInt + b) = MinInt + b) as H1
    by (intros; apply wrap_int_id; int_lia).
  assert (b < 0 -> wrap_int (MaxInt + b) = MaxInt + b) as H2
    by (intros; apply wrap_int_id; int_lia).
  case_bool_decide as Hs; [rewrite (wrap_int_id (a - b)) by done|];
    cases_if; to_prop; try done; exfalso; int_lia.
Qed.

Lemma checkedTokenAdd_ok a b n :
  in_int a -> in_int b -> checkedTokenAdd a b = (n, true) -> n = a + b /\ in_int n.
Proof. intros Ha Hb. rewrite checkedTokenAdd_spec by done. case_bool_decide; by intros [= <-]. Qed.

Lemma checkedTokenSub_ok a b n :
  in_int a -> in_int b -> checkedTokenSub a b = (n, true) -> n = a - b /\ in_int n.
Proof. intros Ha Hb. rewrite checkedTokenSub_spec by done. case_bool_decide; by intros [= <-]. Qed.

Lemma checkedTokenAdd_range a b :
  in_int a -> in_int b -> in_int (checkedTokenAdd a b).1.
Proof. intros. rewrite checkedTokenAdd_spec by done. case_bool_decide; [done|by compute]. Qed.

(** Sums of counts saturate from above only. *)
Lemma saturatedTokenAdd_nonneg a b :
  in_int a -> in_int b -> 0 <= a -> 0 <= b -> saturatedTokenAdd a b = Z.min MaxInt (a + b).
Proof.
  intros. unfold saturatedTokenAdd. rewrite checkedTokenAdd_spec by done.
  case_bool_decide; simpl; unfold in_int, MinInt, MaxInt in *; lia.
Qed.

Lemma saturatedTokenAdd_range a b :
  in_int a -> in_int b -> in_int (saturatedTokenAdd a b).
Proof. apply checkedTokenAdd_range. Qed.

Lemma saturatedTokenAdd_le a b :
  in_int a -> in_int b -> 0 <= a -> 0 <= b ->
  a <= saturatedTokenAdd a b /\ b <= saturatedTokenAdd a b /\ saturatedTokenAdd a b <= a + b.
Proof.
  intros. rewrite saturatedTokenAdd_nonneg by done. unfold in_int, MaxInt in *. lia.
Qed.
