(* ===== verification/Canonical.v ===== *)
(** * Canonical: the canonical form of signed JSON (signing/canonical.go)

    What is signed is a canonical text: object names sorted at every depth, no
    white space, number literals kept verbatim, minimal escapes.  A parsed
    document is a tree whose objects list their members in the order of the
    text; [encode] is what encoding/json writes for it with HTML escaping off.
    Strings are valid UTF-8 (the code checks the input and rejects lone
    surrogates), so the encoder's replacement of invalid bytes never happens. *)

From Stdlib Require Import Strings.Byte.
From stdpp Require Import sorting.
From S2P Require Import Prelude.

#[local] Open Scope Z_scope.

(** ** Documents *)

Inductive json :=
| JNull
| JBool (b : bool)
| JNumber (lexeme : bytes)             (** json.Number *)
| JString (s : bytes)
| JArray (elems : list json)
| JObject (members : list (bytes * json)).

(** Induction through the two kinds of children. *)
Fixpoint json_size (v : json) : nat :=
  match v with
  | JArray l => S (S (fold_right (fun v n => (json_size v + n)%nat) 0%nat l))
  | JObject l => S (S (fold_right (fun p n => (json_size p.2 + n)%nat) 0%nat l))
  | _ => 1%nat
  end.

(** ** Encoding *)

(** One byte of a string below the non-ASCII range, or a byte of a longer rune. *)
Definition escape_byte (b : byte) : bytes :=
  if Byte.eqb b x22 then lit "\" ++ [x22]
  else if Byte.eqb b x5c then lit "\\"
  else if Byte.eqb b x08 then lit "\b"
  else if Byte.eqb b x0c then lit "\f"
  else if Byte.eqb b x0a then lit "\n"
  else if Byte.eqb b x0d then lit "\r"
  else if Byte.eqb b x09 then lit "\t"
  else if byte_Z b <? 32
  then lit "\u00" ++ [hex_digit (byte_Z b / 16); hex_digit (byte_Z b mod 16)]
  else [b].

(** The encoded U+2028 and U+2029. *)
Definition line_separator (a b c : byte) : option bytes :=
  if Byte.eqb a xe2 && Byte.eqb b x80 then
    if Byte.eqb c xa8 then Some (lit "\u2028")
    else if Byte.eqb c xa9 then Some (lit "\u2029") else None
  else None.

Fixpoint escape (s : bytes) : bytes :=
  match s with
  | [] => []
  | a :: s' =>
      match s' with
      | b :: c :: s'' =>
          match line_separator a b c with
          | Some e => e ++ escape s''
          | None => escape_byte a ++ escape s'
          end
      | _ => escape_byte a ++ escape s'
      end
  end.

Definition quote (s : bytes) : bytes := x22 :: escape s ++ [x22].

(** Items separated by commas. *)
Fixpoint commas (items : list bytes) : bytes :=
  match items with
  | [] => []
  | [i] => i
  | i :: items => i ++ x2c :: commas items
  end.

Fixpoint write (v : json) : bytes :=
  match v with
  | JNull => lit "null"
  | JBool true => lit "true"
  | JBool false => lit "false"
  | JNumber l => l
  | JString s => quote s
  | JArray l => x5b :: commas (map write l) ++ [x5d]
  | JObject l => x7b :: commas (map (fun p => quote p.1 ++ x3a :: write p.2) l) ++ [x7d]
  end.

(** Go's order on strings. *)
Fixpoint bytes_le (s t : bytes) : bool :=
  match s, t with
  | [], _ => true
  | _, [] => false
  | a :: s, b :: t =>
      if byte_Z a <? byte_Z b then true else if byte_Z b <? byte_Z a then false else bytes_le s t
  end.

Definition key_le (p q : bytes * json) : Prop := bytes_le p.1 q.1 = true.

#[export] Instance key_le_dec : RelDecision key_le.
Proof. intros p q. unfold key_le. apply _. Defined.

(** Names sorted at every depth. *)
Fixpoint sort_names (v : json) : json :=
  match v with
  | JArray l => JArray (map sort_names l)
  | JObject l => JObject (merge_sort key_le (map (fun p => (p.1, sort_names p.2)) l))
  | _ => v
  end.

Definition encode (v : json) : bytes := write (sort_names v).

(** ** Reading canonical text back

    A reference reader of what [write] produces, to state that the text
    determines the document. *)

Definition hex_value (b : byte) : option Z :=
  let n := byte_Z b in
  if (48 <=? n) && (n <=? 57) then Some (n - 48)
  else if (97 <=? n) && (n <=? 102) then Some (n - 87) else None.

(** What follows a backslash. *)
Definition unescape (r : bytes) : option (bytes * bytes) :=
  match r with
  | [] => None
  | c :: r =>
      if Byte.eqb c x22 then Some ([x22], r)
      else if Byte.eqb c x5c then Some ([x5c], r)
      else if Byte.eqb c x62 then Some ([x08], r)
      else if Byte.eqb c x66 then Some ([x0c], r)
      else if Byte.eqb c x6e then Some ([x0a], r)
      else if Byte.eqb c x72 then Some ([x0d], r)
      else if Byte.eqb c x74 then Some ([x09], r)
      else
        match r with
        | a :: b :: h :: l :: r =>
            if Byte.eqb a x32 (* \u202 *) then
              Some ([xe2; x80; if Byte.eqb l x38 then xa8 else xa9], r)
            else match hex_value h, hex_value l with
                 | Some h, Some l => Some ([byte_of (16 * h + l)], r)
                 | _, _ => None
                 end
        | _ => None
        end
  end.

(** The rest of a string literal and what follows it. *)
Fixpoint read_string (fuel : nat) (r : bytes) : option (bytes * bytes) :=
  match fuel, r with
  | S fuel, b :: r =>
      if Byte.eqb b x22 then Some ([], r)
      else if Byte.eqb b x5c then
        '(c, r) ← unescape r; '(s, r) ← read_string fuel r; Some (c ++ s, r)
      else '(s, r) ← read_string fuel r; Some (b :: s, r)
  | _, _ => None
  end.

Definition number_byte (b : byte) : bool := existsb (Byte.eqb b) (lit "0123456789+-.eE").

Fixpoint read_number (r : bytes) : bytes * bytes :=
  match r with
  | b :: r' => if number_byte b then let '(l, r'') := read_number r' in (b :: l, r'') else ([], r)
  | [] => ([], [])
  end.

Definition opens (b : byte) (r : bytes) : bool :=
  match r with c :: _ => Byte.eqb b c | [] => false end.

Fixpoint read_value (fuel : nat) (r : bytes) : option (json * bytes) :=
  match fuel with
  | O => None
  | S fuel =>
      match r with
      | [] => None
      | b :: r' =>
          if Byte.eqb b x6e then Some (JNull, drop 3 r')
          else if Byte.eqb b x74 then Some (JBool true, drop 3 r')
          else if Byte.eqb b x66 then Some (JBool false, drop 4 r')
          else if Byte.eqb b x22 then
            '(s, r) ← read_string (S (length r')) r'; Some (JString s, r)
          else if Byte.eqb b x5b then
            if opens x5d r' then Some (JArray [], drop 1 r')
            else '(l, r) ← read_elems fuel r'; Some (JArray l, r)
          else if Byte.eqb b x7b then
            if opens x7d r' then Some (JObject [], drop 1 r')
            else '(l, r) ← read_members fuel r'; Some (JObject l, r)
          else let '(l, r) := read_number r in
               match l with [] => None | _ => Some (JNumber l, r) end
      end
  end
with read_elems (fuel : nat) (r : bytes) : option (list json * bytes) :=
  match fuel with
  | O => None
  | S fuel =>
      '(v, r) ← read_value fuel r;
      match r with
      | b :: r =>
          if Byte.eqb b x2c then '(l, r) ← read_elems fuel r; Some (v :: l, r)
          else Some ([v], r)
      | [] => None
      end
  end
with read_members (fuel : nat) (r : bytes) : option (list (bytes * json) * bytes) :=
  match fuel with
  | O => None
  | S fuel =>
      '(k, r) ← read_string (length r) (drop 1 r);
      '(v, r) ← read_value fuel (drop 1 r);
      match r with
      | b :: r =>
          if Byte.eqb b x2c then '(l, r) ← read_members fuel r; Some ((k, v) :: l, r)
          else Some ([(k, v)], r)
      | [] => None
      end
  end.

(** Number literals hold number characters; the decoder accepts no others. *)
Fixpoint wf_json (v : json) : Prop :=
  match v with
  | JNumber l => l <> [] /\ forallb number_byte l = true
  | JArray l => fold_right (fun v P => wf_json v /\ P) True l
  | JObject l => fold_right (fun p P => wf_json p.2 /\ P) True l
  | _ => True
  end.

(** *** Strings *)

Lemma escape_byte_read b fuel r :
  read_string (S fuel) (escape_byte b ++ r) = '(s, r) ← read_string fuel r; Some (b :: s, r).
Proof. destruct b; reflexivity. Qed.

Lemma line_separator_read a b c e fuel r :
  line_separator a b c = Some e ->
  read_string (S fuel) (e ++ r) = '(s, r) ← read_string fuel r; Some (a :: b :: c :: s, r).
Proof.
  unfold line_separator. destruct (Byte.eqb a xe2 && Byte.eqb b x80) eqn:E; [|done].
  apply andb_true_iff in E as [Ea Eb]. apply Byte.byte_dec_bl in Ea, Eb. subst.
  destruct (Byte.eqb c xa8) eqn:Ec; [apply Byte.byte_dec_bl in Ec; subst; by intros [= <-]|].
  destruct (Byte.eqb c xa9) eqn:Ed; [apply Byte.byte_dec_bl in Ed; subst; by intros [= <-]|done].
Qed.

(** Strings by their runs: a line separator or one byte. *)
Lemma escape_ind (P : bytes -> Prop) :
  P [] ->
  (forall a b c e s, line_separator a b c = Some e -> escape (a :: b :: c :: s) = e ++ escape s ->
     P s -> P (a :: b :: c :: s)) ->
  (forall a s, escape (a :: s) = escape_byte a ++ escape s -> P s -> P (a :: s)) ->
  forall s, P s.
Proof.
  intros H0 H3 H1 s. remember (length s) as n eqn:En.
  assert (length s <= n)%nat as Hn by lia. clear En. revert s Hn.
  induction n as [|n IH]; intros s Hn; [by destruct s; [|simpl in Hn; lia]|].
  destruct s as [|a s]; [done|]. simpl in Hn.
  assert (H1' : escape (a :: s) = escape_byte a ++ escape s -> P (a :: s))
    by (intros; apply H1; [done|apply IH; lia]).
  destruct s as [|b [|c s]]; [by apply H1'|by apply H1'|].
  destruct (line_separator a b c) as [e|] eqn:E.
  - apply (H3 a b c e); [done|cbn [escape]; by rewrite E|apply IH; simpl in Hn; lia].
  - apply H1'. cbn [escape]. by rewrite E.
Qed.

Lemma escape_read s fuel r :
  (length s < fuel)%nat -> read_string fuel (escape s ++ x22 :: r) = Some (s, r).
Proof.
  revert fuel. induction s as [|a b c e s Hsep Hesc IH|a s Hesc IH] using escape_ind;
    intros [|fuel] Hf; try (simpl in Hf; lia); [done| |]; rewrite Hesc, <- app_assoc.
  - rewrite (line_separator_read _ _ _ _ _ _ Hsep). rewrite IH by (simpl in Hf; lia). done.
  - rewrite escape_byte_read, IH by (simpl in Hf; lia). done.
Qed.

Lemma escape_length s : (length s <= length (escape s))%nat.
Proof.
  induction s as [|a b c e s Hsep Hesc IH|a s Hesc IH] using escape_ind; [done| |];
    rewrite Hesc, length_app; simpl.
  - unfold line_separator in Hsep. destruct (_ && _); [|done].
    destruct (Byte.eqb c xa8), (Byte.eqb c xa9); simplify_eq; simpl; lia.
  - assert (1 <= length (escape_byte a))%nat by (destruct a; simpl; lia). lia.
Qed.

Lemma quote_read s r :
  exists t, quote s ++ r = x22 :: t /\ read_string (S (length t)) t = Some (s, r).
Proof.
  exists (escape s ++ x22 :: r). unfold quote. split; [simpl; by rewrite <- app_assoc|].
  apply escape_read. rewrite length_app. pose proof (escape_length s). lia.
Qed.

(** *** Values *)

(** What may follow a value: no number character. *)
Definition stops (r : bytes) : Prop := match r with b :: _ => number_byte b = false | [] => True end.

Lemma read_number_spec l r :
  forallb number_byte l = true -> stops r -> read_number (l ++ r) = (l, r).
Proof.
  induction l as [|b l IH]; simpl; intros Hl Hr.
  - destruct r as [|b r]; [done|]. simpl in *. by rewrite Hr.
  - apply andb_true_iff in Hl as [-> Hl]. by rewrite IH.
Qed.

(** The first byte of a value tells its kind. *)
Lemma read_value_number fuel l r :
  l <> [] -> forallb number_byte l = true -> stops r ->
  read_value (S fuel) (l ++ r) = Some (JNumber l, r).
Proof.
  intros Hne Hl Hr. pose proof (read_number_spec l r Hl Hr) as E.
  destruct l as [|b l]; [done|]. simpl in Hl. apply andb_true_iff in Hl as [Hb _].
  cbn [read_value app] in *.
  assert (Byte.eqb b x6e = false /\ Byte.eqb b x74 = false /\ Byte.eqb b x66 = false /\
    Byte.eqb b x22 = false /\ Byte.eqb b x5b = false /\ Byte.eqb b x7b = false)
    as (-> & -> & -> & -> & -> & ->) by (destruct b; done).
  by rewrite E.
Qed.

Definition sizes (l : list json) : nat := fold_right (fun v n => (json_size v + n)%nat) 0%nat l.

Lemma json_size_pos v : (1 <= json_size v)%nat.
Proof. destruct v; simpl; lia. Qed.

Lemma sizes_In l v : v ∈ l -> (json_size v <= sizes l)%nat.
Proof.
  induction l as [|x l IH]; [by intros ?%elem_of_nil|].
  change (sizes (x :: l)) with (json_size x + sizes l)%nat.
  intros [->|Hv]%elem_of_cons; [lia|]. specialize (IH Hv). lia.
Qed.

Lemma wf_elems l : fold_right (fun v P => wf_json v /\ P) True l <-> forall v, v ∈ l -> wf_json v.
Proof.
  induction l as [|x l IH]; simpl; [split; [by intros _ v ?%elem_of_nil|done]|].
  rewrite IH. split.
  - intros [Hx Hl] v [->|Hv]%elem_of_cons; auto.
  - intros H. split; [apply H; by left|]. intros v Hv. apply H. by right.
Qed.

Lemma wf_members (l : list (bytes * json)) :
  fold_right (fun p P => wf_json p.2 /\ P) True l <-> forall v, v ∈ map snd l -> wf_json v.
Proof. rewrite <- wf_elems. induction l as [|p l IH]; simpl; [done|]. by rewrite IH. Qed.

Lemma sizes_members (l : list (bytes * json)) :
  fold_right (fun p n => (json_size p.2 + n)%nat) 0%nat l = sizes (map snd l).
Proof. induction l as [|p l IH]; simpl; [done|]. by rewrite IH. Qed.

(** No value opens with a closing bracket. *)
Lemma write_head v b : wf_json v -> b = x5d \/ b = x7d -> exists c t, write v = c :: t /\ Byte.eqb b c = false.
Proof.
  intros Hwf Hb. destruct v as [|[]|l|s|l|l]; simpl in *; try (eexists _, _; split; [done|]);
    try (destruct Hb as [->| ->]; done).
  destruct l as [|c l]; [naive_solver|]. exists c, l. split; [done|].
  destruct Hwf as [_ Hwf]. simpl in Hwf. apply andb_true_iff in Hwf as [Hc _].
  destruct Hb as [->| ->]; by destruct c.
Qed.

(** Reads of a value back, whatever follows. *)
Definition reads (v : json) : Prop :=
  forall fuel r, (json_size v <= fuel)%nat -> stops r -> read_value fuel (write v ++ r) = Some (v, r).

Lemma elems_read l fuel r :
  (forall v, v ∈ l -> reads v) -> l <> [] -> (sizes l < fuel)%nat ->
  read_elems fuel (commas (map write l) ++ x5d :: r) = Some (l, r).
Proof.
  revert fuel. induction l as [|v l IH]; intros [|fuel] Hl Hne Hf; [done|done|lia|].
  pose proof (json_size_pos v) as Hv. pose proof (Hl v ltac:(by left)) as Hread.
  change (sizes (v :: l)) with (json_size v + sizes l)%nat in Hf. destruct l as [|w l].
  - cbn [map commas read_elems]. by rewrite Hread by (done || lia).
  - change (commas (map write (v :: w :: l))) with (write v ++ x2c :: commas (map write (w :: l))).
    cbn [read_elems]. rewrite <- app_assoc, Hread by (done || lia). cbn [mbind option_bind].
    rewrite <- app_comm_cons. change (Byte.eqb x2c x2c) with true. cbn iota.
    rewrite IH; [done| |done|lia]. intros u Hu. apply Hl. by right.
Qed.

Definition member (p : bytes * json) : bytes := quote p.1 ++ x3a :: write p.2.

Lemma members_read l fuel r :
  (forall v, v ∈ map snd l -> reads v) -> l <> [] -> (sizes (map snd l) < fuel)%nat ->
  read_members fuel (commas (map member l) ++ x7d :: r) = Some (l, r).
Proof.
  revert fuel. induction l as [|[k v] l IH]; intros [|fuel] Hl Hne Hf; [done|done|lia|].
  pose proof (json_size_pos v) as Hv. pose proof (Hl v ltac:(by left)) as Hread.
  change (sizes (map snd ((k, v) :: l))) with (json_size v + sizes (map snd l))%nat in Hf.
  assert (Hstep : forall r', stops r' ->
    read_members (S fuel) (member (k, v) ++ r') =
    match r' with
    | b :: r => if Byte.eqb b x2c then '(l, r) ← read_members fuel r; Some ((k, v) :: l, r)
                else Some ([(k, v)], r)
    | [] => None
    end).
  { intros r' Hr'. unfold member. cbn [fst snd]. rewrite <- app_assoc, <- app_comm_cons.
    destruct (quote_read k (x3a :: write v ++ r')) as (t & -> & Ek). cbn [read_members length drop].
    rewrite drop_0, Ek. cbn [mbind option_bind drop]. rewrite drop_0.
    by rewrite Hread by (done || lia). }
  destruct l as [|q l].
  - cbn [map commas]. by rewrite Hstep.
  - change (commas (map member ((k, v) :: q :: l)))
      with (member (k, v) ++ x2c :: commas (map member (q :: l))).
    rewrite <- app_assoc, <- app_comm_cons, Hstep by done. change (Byte.eqb x2c x2c) with true.
    cbn iota. rewrite IH; [done| |done|lia]. intros u Hu. apply Hl. by right.
Qed.

(** Reading back what was written gives the document and leaves the rest. *)
Lemma write_reads v : wf_json v -> reads v.
Proof.
  remember (json_size v) as n eqn:En. assert (json_size v <= n)%nat as Hn by lia. clear En.
  revert v Hn. induction n as [|n IH]; intros v Hn Hwf; [pose proof (json_size_pos v); lia|].
  intros [|fuel] r Hf Hr; [pose proof (json_size_pos v); lia|].
  destruct v as [|[]|l|s|l|l]; try done.
  - destruct Hwf. by apply read_value_number.
  - cbn [write]. destruct (quote_read s r) as (t & -> & E). cbn [read_value]. by rewrite E.
  - simpl in Hf, Hn, Hwf. fold (sizes l) in Hf, Hn. rewrite wf_elems in Hwf. cbn [write].
    rewrite <- app_comm_cons, <- app_assoc. cbn [read_value app]. change (Byte.eqb x5b x5b) with true.
    cbn iota. destruct l as [|v l]; [done|].
    assert (opens x5d (commas (map write (v :: l)) ++ x5d :: r) = false) as ->.
    { destruct (write_head v x5d) as (c & t & E & Hc); [apply Hwf; by left|by left|].
      cbn [map commas]. destruct (map write l); rewrite E; done. }
    change (Byte.eqb x5b x6e) with false. cbn iota. rewrite elems_read; [done| |done|lia].
    intros u Hu. apply IH; [|by apply Hwf]. pose proof (sizes_In _ _ Hu). lia.
  - simpl in Hf, Hn, Hwf. rewrite sizes_members in Hf, Hn. rewrite wf_members in Hwf.
    cbn [write]. fold member. change (fun p => quote p.1 ++ x3a :: write p.2) with member.
    rewrite <- app_comm_cons, <- app_assoc. cbn [read_value app]. change (Byte.eqb x7b x7b) with true.
    cbn iota. destruct l as [|p l]; [done|].
    assert (opens x7d (commas (map member (p :: l)) ++ x7d :: r) = false) as ->
      by (cbn [map commas]; by destruct (map member l)).
    change (Byte.eqb x7b x6e) with false. cbn iota. rewrite members_read; [done| |done|lia].
    intros u Hu. apply IH; [|by apply Hwf]. pose proof (sizes_In _ _ Hu). lia.
Qed.

(** ** Equal documents

    Two documents are the same when they differ at most in the order of the
    members of their objects. *)
Inductive same : json -> json -> Prop :=
| same_null : same JNull JNull
| same_bool b : same (JBool b) (JBool b)
| same_number l : same (JNumber l) (JNumber l)
| same_string s : same (JString s) (JString s)
| same_array l k : Forall2 same l k -> same (JArray l) (JArray k)
| same_object l l' k :
    l ≡ₚ l' -> Forall2 (fun p q => p.1 = q.1 /\ same p.2 q.2) l' k -> same (JObject l) (JObject k).

(** No object repeats a name, at any depth. *)
Fixpoint unique_names (v : json) : Prop :=
  match v with
  | JArray l => fold_right (fun v P => unique_names v /\ P) True l
  | JObject l => NoDup (map fst l) /\ fold_right (fun p P => unique_names p.2 /\ P) True l
  | _ => True
  end.

Lemma fold_all (P : json -> Prop) l :
  fold_right (fun v Q => P v /\ Q) True l <-> forall v, v ∈ l -> P v.
Proof.
  induction l as [|x l IH]; simpl; [split; [by intros _ v ?%elem_of_nil|done]|].
  rewrite IH. split.
  - intros [Hx Hl] v [->|Hv]%elem_of_cons; auto.
  - intros H. split; [apply H; by left|]. intros v Hv. apply H. by right.
Qed.

Lemma fold_all_members (P : json -> Prop) (l : list (bytes * json)) :
  fold_right (fun p Q => P p.2 /\ Q) True l <-> forall v, v ∈ map snd l -> P v.
Proof. rewrite <- fold_all. induction l as [|p l IH]; simpl; [done|]. by rewrite IH. Qed.

(** *** The order of names *)

Lemma bytes_le_refl s : bytes_le s s = true.
Proof. induction s as [|a s IH]; [done|]. simpl. by rewrite Z.ltb_irrefl. Qed.

Lemma bytes_le_total s t : bytes_le s t = true \/ bytes_le t s = true.
Proof.
  revert t. induction s as [|a s IH]; intros [|b t]; simpl; auto.
  destruct (Z.ltb_spec (byte_Z a) (byte_Z b)), (Z.ltb_spec (byte_Z b) (byte_Z a)); auto.
Qed.

Lemma bytes_le_antisym s t : bytes_le s t = true -> bytes_le t s = true -> s = t.
Proof.
  revert t. induction s as [|a s IH]; intros [|b t]; simpl; try done.
  destruct (Z.ltb_spec (byte_Z a) (byte_Z b)), (Z.ltb_spec (byte_Z b) (byte_Z a)); try done; try lia.
  intros. f_equal; [apply byte_Z_inj; lia|auto].
Qed.

Lemma bytes_le_trans s t u : bytes_le s t = true -> bytes_le t u = true -> bytes_le s u = true.
Proof.
  revert t u. induction s as [|a s IH]; intros [|b t] [|c u]; simpl; try done.
  destruct (Z.ltb_spec (byte_Z a) (byte_Z b)), (Z.ltb_spec (byte_Z b) (byte_Z a)),
    (Z.ltb_spec (byte_Z b) (byte_Z c)), (Z.ltb_spec (byte_Z c) (byte_Z b)),
    (Z.ltb_spec (byte_Z a) (byte_Z c)), (Z.ltb_spec (byte_Z c) (byte_Z a)); try done; try lia.
  eauto.
Qed.

#[export] Instance key_le_total : Total key_le.
Proof. intros p q. apply bytes_le_total. Qed.

#[export] Instance key_le_trans : Transitive key_le.
Proof. intros p q r. apply bytes_le_trans. Qed.

(** Sorting forgets the order of distinct names, and nothing else. *)
Lemma sort_names_Permutation l k :
  NoDup (map fst l) -> l ≡ₚ k -> merge_sort key_le l = merge_sort key_le k.
Proof.
  intros Hnd Hp. apply (Sorted_unique_strong key_le); try apply Sorted_merge_sort; try apply _.
  - intros p q Hp1 Hq1 H1 H2. rewrite merge_sort_Permutation in Hp1. rewrite merge_sort_Permutation, <- Hp in Hq1.
    pose proof (bytes_le_antisym _ _ H1 H2) as E.
    apply list_elem_of_lookup in Hp1 as [i Hi]. apply list_elem_of_lookup in Hq1 as [j Hj].
    assert (i = j) as ->; [|congruence].
    apply (NoDup_lookup (map fst l) i j p.1 Hnd); change (map fst l) with (fst <$> l);
      rewrite list_lookup_fmap; [by rewrite Hi|by rewrite Hj, E].
  - by rewrite !merge_sort_Permutation.
Qed.

Definition sort_member (p : bytes * json) : bytes * json := (p.1, sort_names p.2).

Lemma map_ext_Forall2 {A B} (f : A -> B) l k :
  Forall2 (fun x y => f x = f y) l k -> map f l = map f k.
Proof. induction 1; simpl; congruence. Qed.

Lemma same_sort v w : unique_names v -> same v w -> sort_names v = sort_names w.
Proof.
  remember (json_size v) as n eqn:En. assert (json_size v <= n)%nat as Hn by lia. clear En.
  revert v w Hn. induction n as [|n IH]; intros v w Hn Hu Hs; [pose proof (json_size_pos v); lia|].
  destruct Hs as [| | | |l k Hlk|l l' k Hp Hlk]; try done; simpl in Hn, Hu.
  - fold (sizes l) in Hn. rewrite fold_all in Hu. simpl. f_equal. apply map_ext_Forall2.
    apply (Forall2_impl_In same); [|done]. intros x y Hx _ Hxy.
    apply IH; [pose proof (sizes_In _ _ Hx); lia|auto|done].
  - rewrite sizes_members in Hn. rewrite fold_all_members in Hu. destruct Hu as [Hnd Hu]. simpl. f_equal.
    change (fun p : bytes * json => (p.1, sort_names p.2)) with sort_member.
    assert (map sort_member l' = map sort_member k) as <-.
    { apply map_ext_Forall2. eapply Forall2_impl_In; [|exact Hlk]. intros p q Hpin _ [E Hpq].
      unfold sort_member. rewrite E. f_equal. rewrite <- Hp in Hpin.
      assert (p.2 ∈ map snd l) as Hin by (by apply (list_elem_of_fmap_2 snd)).
      apply IH; [pose proof (sizes_In _ _ Hin); lia|auto|done]. }
    apply sort_names_Permutation; [|by rewrite Hp]. by rewrite map_map.
Qed.

Lemma sort_same v w : sort_names v = sort_names w -> same v w.
Proof.
  remember (json_size v) as n eqn:En. assert (json_size v <= n)%nat as Hn by lia. clear En.
  revert v w Hn. induction n as [|n IH]; intros v w Hn Hs; [pose proof (json_size_pos v); lia|].
  destruct v as [|b|x|x|l|l], w as [|b'|y|y|k|k]; try discriminate Hs; try solve [simplify_eq; constructor].
  - simpl in Hn. fold (sizes l) in Hn. constructor. injection Hs as Hs. revert k Hs.
    induction l as [|v l IHl]; intros [|w k] E; try discriminate E; constructor;
      change (sizes (v :: l)) with (json_size v + sizes l)%nat in Hn; injection E as E1 E2.
    + apply IH; [lia|done].
    + apply IHl; [lia|done].
  - simpl in Hn. rewrite sizes_members in Hn. injection Hs as Hs.
    change (fun p : bytes * json => (p.1, sort_names p.2)) with sort_member in Hs.
    assert (map sort_member k ≡ₚ map sort_member l) as Hp
      by (rewrite <- (merge_sort_Permutation key_le (map sort_member l)), Hs;
          by rewrite merge_sort_Permutation).
    apply Permutation_map_inv in Hp as (l' & E & Hp). apply (same_object l l' k); [done|].
    assert (Hin : forall p, p ∈ l' -> p.2 ∈ map snd l)
      by (intros p Hpl; apply (list_elem_of_fmap_2 snd); by rewrite Hp).
    clear Hs Hp. revert k E. induction l' as [|p l' IHl]; intros [|q k] E; try discriminate E; constructor.
    + injection E as E1 E2 E3. split; [done|].
      pose proof (sizes_In _ _ (Hin p ltac:(by left))). apply IH; [lia|done].
    + injection E as E1 E2 E3. apply IHl; [|done]. intros r Hr. apply Hin. by right.
Qed.

Lemma wf_sort v : wf_json v -> wf_json (sort_names v).
Proof.
  remember (json_size v) as n eqn:En. assert (json_size v <= n)%nat as Hn by lia. clear En.
  revert v Hn. induction n as [|n IH]; intros v Hn Hw; [pose proof (json_size_pos v); lia|].
  destruct v as [|b|x|x|l|l]; try done; simpl in *.
  - fold (sizes l) in Hn. rewrite fold_all in Hw |- *. intros v (w & -> & Hw')%list_elem_of_fmap_1.
    apply IH; [pose proof (sizes_In _ _ Hw'); lia|auto].
  - rewrite sizes_members in Hn. rewrite fold_all_members in Hw |- *.
    intros v (p & -> & Hp)%list_elem_of_fmap_1. rewrite merge_sort_Permutation in Hp.
    apply list_elem_of_fmap_1 in Hp as (q & -> & Hq). simpl.
    assert (q.2 ∈ map snd l) as Hin by (by apply (list_elem_of_fmap_2 snd)).
    apply IH; [pose proof (sizes_In _ _ Hin); lia|auto].
Qed.

(** ** Rejecting repeated names

    [rejectDuplicateKeys] runs over the decoder's tokens with a stack of the
    containers that are open; [None] is an array. *)

Inductive token :=
| TObject | TArray | TEndObject | TEndArray     (** json.Delim *)
| TString (s : bytes)
| TScalar.                                      (** null, booleans and numbers *)

Record object := mkObject { keys : list bytes; expectKey : bool }.

Inductive canonError :=
| ErrEmptyInput | ErrInvalidUTF8 | ErrInvalidUnicodeEscape | ErrDuplicateKey (key : bytes)
| ErrKeyNotString | ErrTrailingData | ErrDecode.

(** The closed value belonged to the parent. *)
Definition close_container (stack : list (option object)) : list (option object) :=
  match tail stack with
  | Some o :: stack => Some (mkObject (keys o) true) :: stack
  | stack => stack
  end.

Fixpoint reject_tokens (toks : list token) (stack : list (option object)) : option canonError :=
  match toks with
  | [] => None
  | TObject :: toks => reject_tokens toks (Some (mkObject [] true) :: stack)
  | TArray :: toks => reject_tokens toks (None :: stack)
  | TEndObject :: toks | TEndArray :: toks => reject_tokens toks (close_container stack)
  | tok :: toks =>
      match stack with
      | [] | None :: _ => reject_tokens toks stack
      | Some top :: stack =>
          if negb (expectKey top) then reject_tokens toks (Some (mkObject (keys top) true) :: stack)
          else match tok with
               | TString key =>
                   if bool_decide (key ∈ keys top) then Some (ErrDuplicateKey key)
                   else reject_tokens toks (Some (mkObject (key :: keys top) false) :: stack)
               | _ => Some ErrKeyNotString
               end
      end
  end.

Definition rejectDuplicateKeys (toks : list token) : option canonError := reject_tokens toks [].

(** The tokens of a document. *)
Fixpoint tokens_of (v : json) : list token :=
  match v with
  | JNull | JBool _ | JNumber _ => [TScalar]
  | JString s => [TString s]
  | JArray l => TArray :: concat (map tokens_of l) ++ [TEndArray]
  | JObject l => TObject :: concat (map (fun p => TString p.1 :: tokens_of p.2) l) ++ [TEndObject]
  end.

(** Where a value may come, and the stack after it. *)
Definition expects (stack : list (option object)) : Prop :=
  match stack with Some o :: _ => expectKey o = false | _ => True end.

Definition consume (stack : list (option object)) : list (option object) :=
  match stack with Some o :: stack => Some (mkObject (keys o) true) :: stack | _ => stack end.

(** The verdict on the tokens of something, wherever they stand. *)
Definition verdict (toks : list token) (good : Prop) (from to : list (option object)) : Prop :=
  (good /\ forall rest, reject_tokens (toks ++ rest) from = reject_tokens rest to) \/
  (~ good /\ forall rest, exists k, reject_tokens (toks ++ rest) from = Some (ErrDuplicateKey k)).

Lemma verdict_app t1 t2 (P1 P2 : Prop) s1 s2 s3 :
  verdict t1 P1 s1 s2 -> verdict t2 P2 s2 s3 -> verdict (t1 ++ t2) (P1 /\ P2) s1 s3.
Proof.
  intros [[H1 E1]|[H1 E1]].
  - intros [[H2 E2]|[H2 E2]]; [left|right]; (split; [tauto|]); intros rest;
      rewrite <- app_assoc, E1; [apply E2|apply E2].
  - intros _. right. split; [tauto|]. intros rest. rewrite <- app_assoc. apply E1.
Qed.

Lemma verdict_iff t (P Q : Prop) s1 s2 : (P <-> Q) -> verdict t P s1 s2 -> verdict t Q s1 s2.
Proof. intros HPQ [[H E]|[H E]]; [left|right]; (split; [tauto|done]). Qed.

(** A token that only moves the stack. *)
Lemma verdict_move t s1 s2 :
  (forall rest, reject_tokens (t ++ rest) s1 = reject_tokens rest s2) -> verdict t True s1 s2.
Proof. intros H. left. split; [done|exact H]. Qed.

Lemma verdict_elems l stack :
  (forall v, v ∈ l -> verdict (tokens_of v) (unique_names v) (None :: stack) (None :: stack)) ->
  verdict (concat (map tokens_of l)) (forall v, v ∈ l -> unique_names v) (None :: stack) (None :: stack).
Proof.
  induction l as [|v l IH]; intros H.
  - left. split; [by intros v ?%elem_of_nil|done].
  - simpl. eapply verdict_iff; [|eapply verdict_app; [apply H; by left|apply IH; intros w Hw; apply H; by right]].
    setoid_rewrite elem_of_cons. naive_solver.
Qed.

Lemma verdict_members l ks stack :
  (forall v, v ∈ map snd l -> forall ks, verdict (tokens_of v) (unique_names v)
     (Some (mkObject ks false) :: stack) (Some (mkObject ks true) :: stack)) ->
  exists ks', verdict (concat (map (fun p => TString p.1 :: tokens_of p.2) l))
    (NoDup (map fst l) /\ (forall k, k ∈ map fst l -> k ∉ ks) /\ forall v, v ∈ map snd l -> unique_names v)
    (Some (mkObject ks true) :: stack) (Some (mkObject ks' true) :: stack).
Proof.
  revert ks. induction l as [|[k v] l IH]; intros ks H.
  - exists ks. left. split; [|done]. split_and!; [constructor|..]; by intros ? ?%elem_of_nil.
  - destruct (IH (k :: ks)) as [ks' Hl]; [intros w Hw; apply H; by right|]. exists ks'.
    assert (Hk : verdict [TString k] (k ∉ ks) (Some (mkObject ks true) :: stack)
                   (Some (mkObject (k :: ks) false) :: stack)).
    { destruct (decide (k ∈ ks)) as [Hin|Hin]; [right|left]; (split; [tauto|]); intros rest; simpl.
      - exists k. by rewrite bool_decide_eq_true_2.
      - by rewrite bool_decide_eq_false_2. }
    pose proof (H v ltac:(by left) (k :: ks)) as Hv.
    eapply verdict_iff; [|exact (verdict_app _ _ _ _ _ _ _ Hk (verdict_app _ _ _ _ _ _ _ Hv Hl))].
    simpl. rewrite NoDup_cons. setoid_rewrite elem_of_cons. naive_solver.
Qed.

Lemma verdict_value v stack :
  expects stack -> verdict (tokens_of v) (unique_names v) stack (consume stack).
Proof.
  remember (json_size v) as n eqn:En. assert (json_size v <= n)%nat as Hn by lia. clear En.
  revert v stack Hn. induction n as [|n IH]; intros v stack Hn He; [pose proof (json_size_pos v); lia|].
  assert (Hclose : forall o, close_container (o :: stack) = consume stack) by (by destruct stack as [|[]]).
  destruct v as [|b|x|x|l|l];
    try (apply verdict_move; intros rest; destruct stack as [|[o|] stack]; simpl in *; by rewrite ?He).
  - simpl in Hn. fold (sizes l) in Hn. cbn [tokens_of unique_names].
    eapply verdict_iff; [|refine (verdict_app [TArray] _ True _ _ _ _ _ (verdict_app _ [TEndArray] _ True _ _ _
      (verdict_elems l stack _) _))].
    + rewrite fold_all. tauto.
    + by apply verdict_move.
    + intros v Hv. apply (IH v (None :: stack)); [pose proof (sizes_In _ _ Hv); lia|done].
    + apply verdict_move. intros rest. simpl. by rewrite Hclose.
  - simpl in Hn. rewrite sizes_members in Hn. cbn [tokens_of unique_names].
    destruct (verdict_members l [] stack) as [ks' Hm].
    { intros v Hv ks. apply (IH v (Some (mkObject ks false) :: stack)); [|done].
      pose proof (sizes_In _ _ Hv). lia. }
    eapply verdict_iff; [|refine (verdict_app [TObject] _ True _ _ _ _ _ (verdict_app _ [TEndObject] _ True _ _ _
      Hm _))].
    + rewrite fold_all_members. split; [tauto|]. intros [? ?]. split_and!; try done.
      by intros k _ ?%elem_of_nil.
    + by apply verdict_move.
    + apply verdict_move. intros rest. simpl. by rewrite Hclose.
Qed.

(** ** Unpaired surrogate escapes

    The scanner's position [i] is the suffix [raw[i:]]. *)

Definition hex_byte (b : byte) : option Z :=
  let n := byte_Z b in
  if (48 <=? n) && (n <=? 57) then Some (n - 48)
  else if (97 <=? n) && (n <=? 102) then Some (n - 97 + 10)
  else if (65 <=? n) && (n <=? 70) then Some (n - 65 + 10) else None.

(** Four hexadecimal digits, as a [uint16]. *)
Definition parseHex4 (r : bytes) : option Z :=
  match r with
  | a :: b :: c :: d :: _ =>
      match hex_byte a, hex_byte b, hex_byte c, hex_byte d with
      | Some a, Some b, Some c, Some d =>
          Some (Z.lor (Z.shiftl (Z.lor (Z.shiftl (Z.lor (Z.shiftl a 4) b) 4) c) 4) d)
      | _, _, _, _ => None
      end
  | _ => None
  end.

Definition high_surrogate (u : Z) : bool := (55296 <=? u) && (u <=? 56319).
Definition low_surrogate (u : Z) : bool := (56320 <=? u) && (u <=? 57343).

(** A backslash, the letter u and four hexadecimal digits. *)
Definition unicode_escape (r : bytes) : option (Z * bytes) :=
  match r with
  | a :: b :: r =>
      if Byte.eqb a x5c && Byte.eqb b x75
      then match parseHex4 r with Some u => Some (u, drop 4 r) | None => None end
      else None
  | _ => None
  end.

(** The two loops: [inside] is the one over a string literal.  Every round
    consumes a byte, so the length of the text is fuel enough. *)
Fixpoint scan_escapes (fuel : nat) (inside : bool) (r : bytes) : option canonError :=
  match fuel, r with
  | S fuel, b :: r1 =>
      if negb inside then scan_escapes fuel (Byte.eqb b x22) r1
      else if Byte.eqb b x22 then scan_escapes fuel false r1
      else if Byte.eqb b x5c then
        match unicode_escape r with
        | None => scan_escapes fuel true (drop 1 r1)    (* the escaped byte *)
        | Some (unit, r2) =>
            if high_surrogate unit then
              match unicode_escape r2 with
              | Some (low, r3) => if low_surrogate low then scan_escapes fuel true r3
                                  else Some ErrInvalidUnicodeEscape
              | None => Some ErrInvalidUnicodeEscape
              end
            else if low_surrogate unit then Some ErrInvalidUnicodeEscape
            else scan_escapes fuel true r2
        end
      else scan_escapes fuel true r1
  | _, _ => None
  end.

Definition rejectUnpairedSurrogateEscapes (raw : bytes) : option canonError :=
  scan_escapes (length raw) false raw.

(** *** The reference: escapes one at a time, then their pairing *)

(** A UTF-16 unit written as an escape, or any other character. *)
Inductive text_unit := Unit (u : Z) | Plain.

Fixpoint text_units (fuel : nat) (inside : bool) (r : bytes) : list text_unit :=
  match fuel, r with
  | S fuel, b :: r1 =>
      if negb inside then Plain :: text_units fuel (Byte.eqb b x22) r1
      else if Byte.eqb b x22 then Plain :: text_units fuel false r1
      else if Byte.eqb b x5c then
        match unicode_escape r with
        | None => Plain :: text_units fuel true (drop 1 r1)
        | Some (u, r2) => Unit u :: text_units fuel true r2
        end
      else Plain :: text_units fuel true r1
  | _, _ => []
  end.

(** Every high surrogate is followed by a low one, and there are no other low ones. *)
Fixpoint paired (us : list text_unit) : bool :=
  match us with
  | [] => true
  | Plain :: us => paired us
  | Unit u :: us =>
      if high_surrogate u then
        match us with
        | Unit l :: us => low_surrogate l && paired us
        | _ => false
        end
      else negb (low_surrogate u) && paired us
  end.

Lemma unicode_escape_length r u r' :
  unicode_escape r = Some (u, r') -> (S (S (length r')) <= length r)%nat.
Proof.
  unfold unicode_escape. destruct r as [|a [|b r]]; try done.
  destruct (_ && _); [|done]. destruct (parseHex4 r); [|done]. intros [= _ <-].
  simpl. rewrite length_drop. lia.
Qed.

Lemma unicode_escape_head r u r' :
  unicode_escape r = Some (u, r') -> exists t, r = x5c :: t.
Proof.
  unfold unicode_escape. destruct r as [|a [|b r]]; try done.
  destruct (Byte.eqb a x5c) eqn:E; [|done]. apply Byte.byte_dec_bl in E as ->. by eexists.
Qed.

(** More fuel than bytes makes no difference. *)
Lemma text_units_fuel f g inside r :
  (length r <= f)%nat -> (length r <= g)%nat -> text_units f inside r = text_units g inside r.
Proof.
  revert g inside r. induction f as [|f IH]; intros [|g] inside [|b r1] Hf Hg; try done;
    try (simpl in *; lia).
  cbn [text_units]. destruct (unicode_escape (b :: r1)) as [[u r2]|] eqn:E.
  - apply unicode_escape_length in E. simpl in *.
    repeat case_match; f_equal; apply IH; rewrite ?length_drop; lia.
  - simpl in *. repeat case_match; f_equal; apply IH; rewrite ?length_drop; lia.
Qed.

Lemma scan_escapes_spec fuel inside r :
  (length r <= fuel)%nat ->
  scan_escapes fuel inside r =
  if paired (text_units fuel inside r) then None else Some ErrInvalidUnicodeEscape.
Proof.
  revert inside r. induction fuel as [|fuel IH]; intros inside [|b r1] Hf; try done.
  cbn [scan_escapes text_units]. simpl in Hf. destruct inside; cbn [negb]; [|cbn [paired]; apply IH; lia].
  destruct (Byte.eqb b x22); [cbn [paired]; apply IH; lia|].
  destruct (Byte.eqb b x5c) eqn:Eb; [|cbn [paired]; apply IH; lia].
  destruct (unicode_escape (b :: r1)) as [[u r2]|] eqn:E.
  2: { cbn [paired]. apply IH. rewrite length_drop. lia. }
  pose proof (unicode_escape_length _ _ _ E) as Hl. simpl in Hl. cbn [paired].
  destruct (high_surrogate u).
  - destruct (unicode_escape r2) as [[l r3]|] eqn:E2.
    + pose proof (unicode_escape_length _ _ _ E2) as Hl2.
      pose proof (unicode_escape_head _ _ _ E2) as [t ->]. destruct fuel as [|fuel]; [lia|].
      cbn [text_units negb]. change (Byte.eqb x5c x22) with false. change (Byte.eqb x5c x5c) with true.
      cbn iota. rewrite E2. destruct (low_surrogate l); [|done]. cbn [andb].
      rewrite (text_units_fuel fuel (S fuel)) by (simpl in *; lia). apply IH. lia.
    + destruct fuel as [|fuel]; [destruct r2; [done|simpl in *; lia]|].
      destruct r2 as [|c r2]; [done|]. cbn [text_units negb]. rewrite E2.
      destruct (Byte.eqb c x22); [done|]. by destruct (Byte.eqb c x5c).
  - destruct (low_surrogate u); cbn [negb andb]; [done|]. apply IH. lia.
Qed.

(** ** Canonicalization

    White space, UTF-8 validity and the decoder of encoding/json are arguments:
    [tokens] answers the tokens up to the end of the text or an error, [decode]
    the first value with what comes after it. *)
Section Canonicalize.
Context (blank utf8_Valid : bytes -> bool) (tokens : bytes -> list token * bool)
  (decode : bytes -> option (json * bool)).

Definition Canonicalize (raw : bytes) : result canonError bytes :=
  if blank raw then Err ErrEmptyInput
  else if negb (utf8_Valid raw) then Err ErrInvalidUTF8
  else match rejectUnpairedSurrogateEscapes raw with
       | Some err => Err err
       | None =>
           let '(toks, complete) := tokens raw in
           match rejectDuplicateKeys toks with
           | Some err => Err err
           | None =>
               if negb complete then Err ErrDecode
               else match decode raw with
                    | None => Err ErrDecode
                    | Some (v, at_end) =>
                        if negb at_end then Err ErrTrailingData else Ok (encode v)
                    end
           end
       end.

End Canonicalize.

(** ** What a canonical text identifies *)

Lemma encode_reads v fuel :
  wf_json v -> (json_size (sort_names v) <= fuel)%nat ->
  read_value fuel (encode v) = Some (sort_names v, []).
Proof.
  intros Hv Hf. pose proof (write_reads _ (wf_sort v Hv) fuel [] Hf) as H.
  rewrite app_nil_r in H. by apply H.
Qed.

Lemma same_sorted v : same v (sort_names v).
Proof.
  remember (json_size v) as n eqn:En. assert (json_size v <= n)%nat as Hn by lia. clear En.
  revert v Hn. induction n as [|n IH]; intros v Hn; [pose proof (json_size_pos v); lia|].
  destruct v as [|b|x|x|l|l]; simpl in *; try constructor.
  - fold (sizes l) in Hn. rewrite Forall2_fmap_r. apply Forall_Forall2_diag, Forall_forall.
    intros v Hv. apply IH. pose proof (sizes_In _ _ Hv). lia.
  - rewrite sizes_members in Hn. change (fun p : bytes * json => (p.1, sort_names p.2)) with sort_member.
    pose proof (merge_sort_Permutation key_le (map sort_member l)) as Hp.
    apply Permutation_map_inv in Hp as (l' & E & Hp).
    apply (same_object l l'); [done|]. rewrite E, Forall2_fmap_r.
    apply Forall_Forall2_diag, Forall_forall. intros p Hin. split; [done|]. rewrite <- Hp in Hin.
    apply IH. pose proof (sizes_In (map snd l) p.2 (list_elem_of_fmap_2 snd _ _ Hin)). lia.
Qed.

(** C37: A canonical text reads back to its document with the names of every
    object sorted, all of the text being read; two documents without repeated
    names have the same canonical text exactly when they differ at most in the
    order of the members of their objects. *)
Theorem canonical_identifies v w :
  wf_json v -> wf_json w -> unique_names v ->
  read_value (json_size (sort_names v)) (encode v) = Some (sort_names v, []) /\
  same v (sort_names v) /\
  (encode v = encode w <-> same v w).
Proof.
  intros Hv Hw Hu. split_and!; [by apply encode_reads|apply same_sorted|split].
  - intros E. apply sort_same.
    pose proof (encode_reads v (json_size (sort_names v) + json_size (sort_names w)) Hv ltac:(lia)) as Ev.
    pose proof (encode_reads w (json_size (sort_names v) + json_size (sort_names w)) Hw ltac:(lia)) as Ew.
    congruence.
  - intros H. unfold encode. by rewrite (same_sort v w).
Qed.

Lemma canonical_identifies_witness :
  let v := JObject [(lit "b", JArray [JNumber (lit "1.0"); JNull]); (lit "a", JString (lit "x"))] in
  let w := JObject [(lit "a", JString (lit "x")); (lit "b", JArray [JNumber (lit "1.0"); JNull])] in
  encode v = encode w <-> same v w.
Proof. intros v w. apply (canonical_identifies v w); vm_compute; repeat (split || constructor); set_solver. Defined.

Section Verdict.
Context (blank utf8_Valid : bytes -> bool) (tokens : bytes -> list token * bool)
  (decode : bytes -> option (json * bool)).

(** A text spells a document: its tokens are those of the document, and the
    decoder, which keeps objects as maps, answers it up to the order of members. *)
Definition spells (raw : bytes) (v : json) : Prop :=
  tokens raw = (tokens_of v, true) /\
  (unique_names v -> exists w, decode raw = Some (w, true) /\ same v w).

(** The escapes of a text, in UTF-16 units. *)
Definition escapes_of (raw : bytes) : list text_unit := text_units (length raw) false raw.

(** C39: A text that spells a document is refused for an unpaired surrogate
    exactly when some high surrogate escape is not followed by a low one or some
    low one follows none; otherwise for a repeated name exactly when an object
    of the document, at any depth, repeats one; and otherwise answered with the
    canonical text of the document. *)
Theorem canonicalize_verdict raw v :
  blank raw = false -> utf8_Valid raw = true -> spells raw v ->
  (paired (escapes_of raw) = false ->
   Canonicalize blank utf8_Valid tokens decode raw = Err ErrInvalidUnicodeEscape) /\
  (paired (escapes_of raw) = true -> unique_names v ->
   Canonicalize blank utf8_Valid tokens decode raw = Ok (encode v)) /\
  (paired (escapes_of raw) = true -> ~ unique_names v ->
   exists k, Canonicalize blank utf8_Valid tokens decode raw = Err (ErrDuplicateKey k)).
Proof.
  intros Hb Hu [Ht Hd]. unfold Canonicalize. rewrite Hb, Hu, Ht. cbn [negb].
  unfold rejectUnpairedSurrogateEscapes. rewrite scan_escapes_spec by done. fold (escapes_of raw).
  split_and!; intros ->; [done|..]; intros Hn; unfold rejectDuplicateKeys;
    destruct (verdict_value v [] I) as [[Hn' E]|[Hn' E]]; try done; specialize (E []);
    rewrite app_nil_r in E.
  - rewrite E. destruct (Hd Hn) as (w & -> & Hs). simpl. unfold encode. by rewrite (same_sort v w).
  - destruct E as [k ->]. by exists k.
Qed.
End Verdict.

Lemma canonicalize_verdict_witness :
  let raw := x7b :: quote (lit "b") ++ lit ":1," ++ quote (lit "a") ++ lit ":2}" in
  let v := JObject [(lit "b", JNumber (lit "1")); (lit "a", JNumber (lit "2"))] in
  let w := JObject [(lit "a", JNumber (lit "2")); (lit "b", JNumber (lit "1"))] in
  Canonicalize (fun _ => false) (fun _ => true) (fun _ => (tokens_of v, true)) (fun _ => Some (w, true)) raw =
  Ok (encode v).
Proof.
  intros raw v w. apply (canonicalize_verdict (fun _ => false) (fun _ => true) (fun _ => (tokens_of v, true))
    (fun _ => Some (w, true)) raw v); [done|done| |by vm_compute|].
  - split; [done|]. intros _. exists w. split; [done|].
    apply (same_object _ [(lit "a", JNumber (lit "2")); (lit "b", JNumber (lit "1"))]); repeat constructor.
  - split; [|by split]. vm_compute. repeat constructor; set_solver.
Defined.
