(* ===== verification/Signing.v ===== *)
(** * Signing: frames, signers and keyrings (signing/)

    What a backend signs is a frame of the domain and the payload; a signature
    names the algorithm and the key that made it; a keyring hands a signature
    to the verifier it names.  The primitives of crypto/sha256, crypto/hmac and
    crypto/ed25519 and base64 are arguments.  Pointers that may be nil are
    options; strings and byte slices are lists of bytes. *)

From Stdlib Require Import Strings.Byte.
From stdpp Require Import gmap.
From S2P Require Import Prelude Canonical.

#[local] Open Scope Z_scope.

Definition AlgEd25519 : bytes := lit "ed25519".
Definition AlgHMACSHA256 : bytes := lit "hmac-sha256".
Definition MinHMACKeySize : Z := 32.

Record Signature := mkSignature { Alg : bytes; KeyID : bytes; Bytes : bytes }.

Inductive signError :=
| ErrInvalidSignature | ErrKeyMismatch | ErrUnknownKey | ErrUninitializedKey | ErrEmptyDomain
| ErrNilContext
| ErrContext (deadline : bool)          (** what the context answered *)
| ErrKeySize (size : Z)
| ErrKeyHalves                          (** the public half is not that of the seed *)
| ErrRandom
| ErrNilKeyring | ErrNilVerifier | ErrEmptyKeyID | ErrEmptyAlgorithm | ErrDuplicateKeyID (id : bytes)
| ErrBase64 | ErrUnmarshal.

(** A context: nil, or what its Err method answers. *)
Definition Context := option (option signError).

Definition checkContext (ctx : Context) : option signError :=
  match ctx with
  | None => Some ErrNilContext
  | Some err => err
  end.

(** ** Frames *)

Definition frameHeader : bytes := lit "go-llm-signing-v1" ++ [x00].
Definition keyIDHeader : bytes := lit "go-llm-signing-kid-v1" ++ [x00].

(** The [k] low bytes of a number, most significant first. *)
Fixpoint big_endian (k : nat) (n : Z) : bytes :=
  match k with
  | O => []
  | S k => big_endian k (Z.shiftr n 8) ++ [byte_of (Z.land n 255)]
  end.

Definition AppendUint64 (b : bytes) (n : Z) : bytes := b ++ big_endian 8 n.

Definition frame (domain payload : bytes) : result signError bytes :=
  if bool_decide (domain = []) then Err ErrEmptyDomain
  else
    let b := frameHeader in
    let b := AppendUint64 b (len domain) in
    let b := b ++ domain in
    let b := b ++ payload in
    Ok b.

Definition hex_EncodeToString (s : bytes) : bytes :=
  concat (map (fun b => [hex_digit (Z.shiftr (byte_Z b) 4); hex_digit (Z.land (byte_Z b) 15)]) s).

(** ** The interface *)

(** A value of the Go interface: [isNil] is what isNilVerifier finds by
    reflection, a nil interface or a nil pointer in it. *)
Record Verifier := mkVerifier {
  isNilVerifier : bool;
  v_KeyID : bytes;
  v_Algorithm : bytes;
  v_Verify : Context -> bytes -> bytes -> Signature -> option signError
}.

Definition checkBinding (kid alg : bytes) (sig : Signature) : option signError :=
  if negb (bool_decide (Alg sig = alg)) || negb (bool_decide (KeyID sig = kid)) then Some ErrKeyMismatch
  else None.

Section Backends.
Context (sha256 : bytes -> bytes) (hmac : bytes -> bytes -> bytes).

Definition deriveKeyID (alg material : bytes) : bytes :=
  let h := keyIDHeader in
  let h := h ++ big_endian 8 (len alg) in
  let h := h ++ alg in
  let h := h ++ material in
  hex_EncodeToString (sha256 h).

(** ** HMAC *)

Record hmacKey := mkHmacKey { hmac_key : bytes; hmac_kid : bytes }.

(** [HMACSigner{k}], by a pointer that may be nil. *)
Definition HMACSigner := option hmacKey.

Definition NewHMAC (key : bytes) : result signError HMACSigner :=
  if len key <? MinHMACKeySize then Err (ErrKeySize (len key))
  else Ok (Some (mkHmacKey key (deriveKeyID AlgHMACSHA256 key))).

(** [random] is what [io.ReadFull] made of the 32-byte buffer. *)
Definition GenerateHMAC (random : option bytes) : result signError HMACSigner :=
  match random with
  | None => Err ErrRandom
  | Some key => NewHMAC key
  end.

Definition HMAC_KeyID (m : HMACSigner) : bytes :=
  match m with None => [] | Some k => hmac_kid k end.

Definition tag (m : HMACSigner) (domain payload : bytes) : result signError bytes :=
  match m with
  | None => Err ErrUninitializedKey
  | Some k => match frame domain payload with
              | Err err => Err err
              | Ok msg => Ok (hmac (hmac_key k) msg)
              end
  end.

Definition HMAC_Sign (m : HMACSigner) (ctx : Context) (domain payload : bytes) : result signError Signature :=
  match checkContext ctx with
  | Some err => Err err
  | None => match tag m domain payload with
            | Err err => Err err
            | Ok t => Ok (mkSignature AlgHMACSHA256 (HMAC_KeyID m) t)
            end
  end.

(** [hmac.Equal] compares in constant time: on values, equality. *)
Definition HMAC_Verify (m : HMACSigner) (ctx : Context) (domain payload : bytes) (sig : Signature) : option signError :=
  match checkContext ctx with
  | Some err => Some err
  | None =>
      match m with
      | None => Some ErrUninitializedKey
      | Some _ =>
          match checkBinding (HMAC_KeyID m) AlgHMACSHA256 sig with
          | Some err => Some err
          | None => match tag m domain payload with
                    | Err err => Some err
                    | Ok want => if negb (bool_decide (want = Bytes sig)) then Some ErrInvalidSignature else None
                    end
          end
      end
  end.

Definition HMAC_verifier (m : HMACSigner) : Verifier :=
  mkVerifier (negb (opt_b m)) (HMAC_KeyID m) AlgHMACSHA256 (HMAC_Verify m).

End Backends.

(** ** Ed25519 *)

Section Ed25519.
Context (sha256 : bytes -> bytes) (ed_verify : bytes -> bytes -> bytes -> bool)
  (ed_sign : bytes -> bytes -> bytes) (NewKeyFromSeed : bytes -> bytes).

Definition PublicKeySize : Z := 32.
Definition PrivateKeySize : Z := 64.

(** The layout of crypto/ed25519: the seed, then the public key. *)
Definition Seed (priv : bytes) : bytes := take 32 priv.
Definition Public (priv : bytes) : bytes := drop 32 priv.

Record ed25519Key := mkEd25519Key { priv : bytes; pub : bytes; ed_kid : bytes }.

Definition Ed25519Verifier := option ed25519Key.
Definition Ed25519Signer := option ed25519Key.

Definition NewEd25519Verifier (pub : bytes) : result signError Ed25519Verifier :=
  if negb (len pub =? PublicKeySize) then Err (ErrKeySize (len pub))
  else Ok (Some (mkEd25519Key [] pub (deriveKeyID sha256 AlgEd25519 pub))).

Definition Ed25519_KeyID (v : option ed25519Key) : bytes :=
  match v with None => [] | Some k => ed_kid k end.

Definition Ed25519_PublicKey (v : option ed25519Key) : bytes :=
  match v with None => [] | Some k => pub k end.

Definition ed25519Verify (kid : bytes) (k : ed25519Key) (domain payload : bytes) (sig : Signature) : option signError :=
  match checkBinding kid AlgEd25519 sig with
  | Some err => Some err
  | None => match frame domain payload with
            | Err err => Some err
            | Ok msg => if negb (ed_verify (pub k) msg (Bytes sig)) then Some ErrInvalidSignature else None
            end
  end.

Definition Ed25519_Verify (v : Ed25519Verifier) (ctx : Context) (domain payload : bytes) (sig : Signature) : option signError :=
  match checkContext ctx with
  | Some err => Some err
  | None => match v with
            | None => Some ErrUninitializedKey
            | Some k => ed25519Verify (Ed25519_KeyID v) k domain payload sig
            end
  end.

Definition Ed25519_verifier (v : Ed25519Verifier) : Verifier :=
  mkVerifier (negb (opt_b v)) (Ed25519_KeyID v) AlgEd25519 (Ed25519_Verify v).

Definition NewEd25519Signer (priv : bytes) : result signError Ed25519Signer :=
  if negb (len priv =? PrivateKeySize) then Err (ErrKeySize (len priv))
  else if negb (bool_decide (priv = NewKeyFromSeed (Seed priv))) then Err ErrKeyHalves
  else Ok (Some (mkEd25519Key priv (Public priv) (deriveKeyID sha256 AlgEd25519 (Public priv)))).

(** [generated] is what [ed25519.GenerateKey] answered. *)
Definition GenerateEd25519 (generated : option bytes) : result signError Ed25519Signer :=
  match generated with
  | None => Err ErrRandom
  | Some priv => NewEd25519Signer priv
  end.

(** The public half. *)
Definition Ed25519Signer_Verifier (s : Ed25519Signer) : Ed25519Verifier :=
  match s with
  | None => None
  | Some k => Some (mkEd25519Key [] (pub k) (ed_kid k))
  end.

Definition Ed25519_Sign (s : Ed25519Signer) (ctx : Context) (domain payload : bytes) : result signError Signature :=
  match checkContext ctx with
  | Some err => Err err
  | None => match s with
            | None => Err ErrUninitializedKey
            | Some k => match frame domain payload with
                        | Err err => Err err
                        | Ok msg => Ok (mkSignature AlgEd25519 (ed_kid k) (ed_sign (priv k) msg))
                        end
            end
  end.
End Ed25519.

(** ** Keyrings *)

(** A pointer that may be nil, to a map that may be nil: no entries. *)
Definition Keyring := option (gmap bytes Verifier).

Definition Add (k : Keyring) (v : Verifier) : option signError * Keyring :=
  match k with
  | None => (Some ErrNilKeyring, k)
  | Some byID =>
      if isNilVerifier v then (Some ErrNilVerifier, k)
      else if bool_decide (v_KeyID v = []) then (Some ErrEmptyKeyID, k)
      else if bool_decide (v_Algorithm v = []) then (Some ErrEmptyAlgorithm, k)
      else if opt_b (byID !! v_KeyID v) then (Some (ErrDuplicateKeyID (v_KeyID v)), k)
      else (None, Some (<[v_KeyID v := v]> byID))
  end.

Fixpoint add_all (k : Keyring) (vs : list Verifier) : result signError Keyring :=
  match vs with
  | [] => Ok k
  | v :: vs => let '(err, k) := Add k v in
               match err with
               | Some err => Err err
               | None => add_all k vs
               end
  end.

Definition NewKeyring (vs : list Verifier) : result signError Keyring := add_all (Some ∅) vs.

Definition ring_Verify (k : Keyring) (ctx : Context) (domain payload : bytes) (sig : Signature) : option signError :=
  match checkContext ctx with
  | Some err => Some err
  | None =>
      match k with
      | None => Some ErrUninitializedKey
      | Some byID => match byID !! KeyID sig with
                     | None => Some ErrUnknownKey
                     | Some v => v_Verify v ctx domain payload sig
                     end
      end
  end.

(** ** The wire form *)

Record wireSignature := mkWire { w_Alg : bytes; w_KeyID : bytes; w_Bytes : option bytes }.

(** [wire] is what encoding/json made of the text; [Strict().DecodeString] and
    [EncodeToString] are arguments. *)
Definition UnmarshalJSON (decode : bytes -> option bytes) (encode : bytes -> bytes) (wire : option wireSignature) :
    result signError Signature :=
  match wire with
  | None => Err ErrUnmarshal
  | Some w =>
      match w_Bytes w with
      | None => Ok (mkSignature (w_Alg w) (w_KeyID w) [])
      | Some s => match decode s with
                  | None => Err ErrBase64
                  | Some decoded =>
                      if negb (bool_decide (encode decoded = s)) then Err ErrBase64
                      else Ok (mkSignature (w_Alg w) (w_KeyID w) decoded)
                  end
      end
  end.

(** ** Frames are read back *)

(** The reference reader of a frame. *)
Definition read_uint64 (s : bytes) : Z := fold_left (fun n b => n * 256 + byte_Z b) s 0.

Definition unframe (m : bytes) : bytes * bytes :=
  let s := drop (length frameHeader) m in
  let n := Z.to_nat (read_uint64 (take 8 s)) in
  (take n (drop 8 s), drop n (drop 8 s)).

Lemma length_big_endian k n : length (big_endian k n) = k.
Proof. revert n. induction k as [|k IH]; intros n; simpl; [done|]. rewrite length_app, IH. simpl. lia. Qed.

Lemma read_big_endian k n : 0 <= n < 2 ^ (8 * Z.of_nat k) -> read_uint64 (big_endian k n) = n.
Proof.
  revert n. induction k as [|k IH]; intros n Hn; simpl.
  - change (2 ^ (8 * Z.of_nat 0)) with 1 in Hn. unfold read_uint64. simpl. lia.
  - unfold read_uint64 in *. rewrite fold_left_app. simpl. rewrite Z.shiftr_div_pow2 by lia.
    change (2 ^ 8) with 256. change 255 with (Z.ones 8). rewrite Z.land_ones by lia. change (2 ^ 8) with 256.
    rewrite IH, byte_Z_of; [pose proof (Z.div_mod n 256); lia|apply Z.mod_pos_bound; lia|].
    replace (8 * Z.of_nat (S k)) with (8 * Z.of_nat k + 8) in Hn by lia. rewrite Z.pow_add_r in Hn by lia.
    split; [apply Z.div_pos; lia|]. apply Z.div_lt_upper_bound; lia.
Qed.

Lemma frame_Ok d p :
  frame d p = if bool_decide (d = []) then Err ErrEmptyDomain
              else Ok (frameHeader ++ big_endian 8 (len d) ++ d ++ p).
Proof. unfold frame, AppendUint64. by rewrite <- !app_assoc. Qed.

(** A Go string is shorter than 2^63. *)
Lemma unframe_frame d p m : len d <= MaxInt -> frame d p = Ok m -> unframe m = (d, p).
Proof.
  intros Hd. rewrite frame_Ok. case_bool_decide; [done|]. intros E. assert (m = frameHeader ++ big_endian 8 (len d) ++ d ++ p) as ->
    by congruence. clear E. unfold unframe. rewrite drop_app_length.
  rewrite take_app_length', drop_app_length' by (by rewrite length_big_endian).
  rewrite read_big_endian by (unfold MaxInt in Hd; change (2 ^ (8 * Z.of_nat 8)) with (2 ^ 64); pose proof (len_nonneg d); lia).
  unfold len. rewrite Nat2Z.id. by rewrite take_app_length, drop_app_length.
Qed.

(** ** Signatures bind domain and payload *)

(** Two texts with one tag under a key. *)
Definition collision (hmac : bytes -> bytes -> bytes) (key : bytes) : Prop :=
  exists x y, x <> y /\ hmac key x = hmac key y.

Lemma binding_None kid alg sig : checkBinding kid alg sig = None <-> Alg sig = alg /\ KeyID sig = kid.
Proof. unfold checkBinding. repeat case_bool_decide; simpl; naive_solver. Qed.

Lemma frame_empty p : frame [] p = Err ErrEmptyDomain.
Proof. done. Qed.

(** C38: HMAC verification accepts a signature exactly when signing the same
    payload under the same domain, key and context would answer that very
    signature; and a signature made for one domain and payload and accepted for
    another exhibits two texts on which the MAC collides. *)
Theorem hmac_signature_binds hmac m ctx d p sig :
  (HMAC_Verify hmac m ctx d p sig = None <-> HMAC_Sign hmac m ctx d p = Ok sig) /\
  (forall d' p', len d <= MaxInt -> len d' <= MaxInt -> HMAC_Sign hmac m ctx d p = Ok sig ->
     HMAC_Verify hmac m ctx d' p' sig = None -> (d', p') = (d, p) \/ exists k, m = Some k /\ collision hmac (hmac_key k)).
Proof.
  assert (Hiff : forall d p, HMAC_Verify hmac m ctx d p sig = None <-> HMAC_Sign hmac m ctx d p = Ok sig).
  { clear d p. intros d p. unfold HMAC_Verify, HMAC_Sign. destruct (checkContext ctx); [done|].
    destruct m as [k|]; [|done]. cbn [tag HMAC_KeyID].
    destruct (checkBinding _ _ sig) eqn:Hb.
    - split; [done|]. intros H. assert (checkBinding (hmac_kid k) AlgHMACSHA256 sig = None) by
        (apply binding_None; destruct (frame d p); by simplify_eq). congruence.
    - apply binding_None in Hb as [Ha Hk]. destruct sig as [a i b]. simpl in *. subst.
      destruct (frame d p); [|done]. case_bool_decide; simpl; naive_solver. }
  split; [apply Hiff|]. intros d' p' Hd Hd' Hs Hv. apply Hiff in Hv. revert Hs Hv. unfold HMAC_Sign.
  destruct (checkContext ctx); [done|]. destruct m as [k|]; [|done]. cbn [tag].
  destruct (frame d p) as [x|] eqn:Ex; [|done]. destruct (frame d' p') as [y|] eqn:Ey; [|done].
  intros [= <-] [= E]. destruct (decide (x = y)) as [->|Hne].
  - left. apply unframe_frame in Ex, Ey; [congruence|done..].
  - right. exists k. split; [done|]. exists x, y. by split.
Qed.

Lemma hmac_signature_binds_witness :
  let hmac := fun k x => k ++ x in
  let m := Some (mkHmacKey (lit "k") (lit "id")) in
  let sig := mkSignature AlgHMACSHA256 (lit "id") (lit "k" ++ frameHeader ++ big_endian 8 1 ++ lit "dp") in
  HMAC_Verify hmac m (Some None) (lit "d") (lit "p") sig = None /\
  HMAC_Verify hmac m (Some None) (lit "dp") [] sig <> None.
Proof.
  intros hmac m sig. assert (HMAC_Sign hmac m (Some None) (lit "d") (lit "p") = Ok sig) as Hs by reflexivity.
  split; [by apply (hmac_signature_binds hmac m)|]. intros H.
  destruct (proj2 (hmac_signature_binds hmac m (Some None) (lit "d") (lit "p") sig) (lit "dp") []) as [E|(k & _ & x & y & Hne & E)];
    [by vm_compute|by vm_compute|done|done|done|].
  by apply app_inv_head in E.
Defined.

(** ** Keyrings *)

(** What the interface promises to its users: an accepted signature names the
    verifier's key and algorithm, and comes with a live context and a domain. *)
Class Lawful (v : Verifier) : Prop :=
  accepts_bound ctx d p sig : v_Verify v ctx d p sig = None ->
    checkContext ctx = None /\ KeyID sig = v_KeyID v /\ Alg sig = v_Algorithm v /\ d <> [].

#[export] Instance HMAC_lawful hmac m : Lawful (HMAC_verifier hmac m).
Proof.
  intros ctx d p sig. simpl. unfold HMAC_Verify. destruct (checkContext ctx); [done|].
  destruct m as [k|]; [|done]. destruct (checkBinding _ _ _) eqn:Hb; [done|].
  apply binding_None in Hb as [? ?]. cbn [tag]. rewrite frame_Ok. by case_bool_decide.
Qed.

#[export] Instance Ed25519_lawful ed_verify v : Lawful (Ed25519_verifier ed_verify v).
Proof.
  intros ctx d p sig. simpl. unfold Ed25519_Verify, ed25519Verify. destruct (checkContext ctx); [done|].
  destruct v as [k|]; [|done]. destruct (checkBinding _ _ _) eqn:Hb; [done|].
  apply binding_None in Hb as [? ?]. rewrite frame_Ok. by case_bool_decide.
Qed.

Definition usable (v : Verifier) : Prop :=
  isNilVerifier v = false /\ v_KeyID v <> [] /\ v_Algorithm v <> [].

Lemma Add_spec byID v :
  (Add (Some byID) v).1 = None <-> usable v /\ byID !! v_KeyID v = None.
Proof.
  unfold Add, usable. destruct (isNilVerifier v); [naive_solver|].
  repeat case_bool_decide; try naive_solver. destruct (byID !! v_KeyID v) eqn:E; naive_solver.
Qed.

Lemma Add_None byID v k : Add (Some byID) v = (None, k) -> k = Some (<[v_KeyID v := v]> byID).
Proof.
  unfold Add. destruct (isNilVerifier v); [done|]. repeat case_bool_decide; try done.
  destruct (opt_b _); [done|]. by intros [= <-].
Qed.

Lemma ring_add_all_spec byID vs :
  (exists ring, add_all (Some byID) vs = Ok ring) <->
  Forall usable vs /\ NoDup (map v_KeyID vs) /\ Forall (fun v => byID !! v_KeyID v = None) vs.
Proof.
  revert byID. induction vs as [|v vs IH]; intros byID; cbn [add_all map].
  { split; [|by eexists]. intros _. repeat constructor. }
  pose proof (Add_spec byID v) as Hadd. rewrite !Forall_cons, NoDup_cons.
  destruct (Add (Some byID) v) as [[err|] k] eqn:E; simpl in Hadd.
  { split; [by intros [? ?]|]. intros H. exfalso. assert (Some err = None) by (apply Hadd; tauto). done. }
  destruct (proj1 Hadd eq_refl) as [Hu Hn].
  apply Add_None in E as ->.
  rewrite IH. assert (Forall (fun w => <[v_KeyID v := v]> byID !! v_KeyID w = None) vs <->
    v_KeyID v ∉ map v_KeyID vs /\ Forall (fun w => byID !! v_KeyID w = None) vs) as ->; [|tauto].
  rewrite !Forall_forall. setoid_rewrite lookup_insert_None. split.
  - intros H. split; [|by intros w Hw; apply H]. intros (w & Ew & Hw)%list_elem_of_fmap_1. by destruct (H w Hw).
  - intros [Hi H] w Hw. split; [by apply H|]. intros Ew. apply Hi. rewrite Ew. by apply list_elem_of_fmap_2.
Qed.

Lemma ring_add_all_lookup byID vs m :
  add_all (Some byID) vs = Ok (Some m) -> NoDup (map v_KeyID vs) ->
  forall id v, m !! id = Some v <->
    (v ∈ vs /\ v_KeyID v = id) \/ (id ∉ map v_KeyID vs /\ byID !! id = Some v).
Proof.
  revert byID. induction vs as [|w vs IH]; intros byID; cbn [add_all map].
  { intros [= ->] _ id v. setoid_rewrite elem_of_nil. naive_solver. }
  destruct (Add (Some byID) w) as [[err|] k] eqn:E; [done|].
  apply Add_None in E as ->.
  intros Hm [Hw Hnd]%NoDup_cons id v. rewrite (IH _ Hm Hnd), lookup_insert_Some, !elem_of_cons. split.
  - intros [[? ?]|[? [[<- <-]|[? ?]]]]; [left; by auto|left; by auto|right]. split; [|done]. naive_solver.
  - intros [[[->| ?] <-]|[Hni ?]]; [right; split; [done|by left]|left; by auto|].
    right. split; [naive_solver|right; naive_solver].
Qed.

Lemma add_all_Some byID vs ring : add_all (Some byID) vs = Ok ring -> exists m, ring = Some m.
Proof.
  revert byID. induction vs as [|v vs IH]; intros byID; cbn [add_all]; [intros [= <-]; by eexists|].
  destruct (Add (Some byID) v) as [[err|] k] eqn:E; [done|]. apply Add_None in E as ->. apply IH.
Qed.

(** A keyring can be built exactly from verifiers that are not nil, carry a
    key id and an algorithm, and have distinct ids.  Over verifiers that keep
    the interface's promise it then accepts a signature exactly when one of
    them, the one the signature names, accepts it; so rings grow: whatever a
    ring accepts, the ring of more verifiers accepts too. *)
Theorem keyring_dispatch vs :
  ((exists ring, NewKeyring vs = Ok ring) <-> Forall usable vs /\ NoDup (map v_KeyID vs)) /\
  (Forall Lawful vs -> forall ring, NewKeyring vs = Ok ring ->
   (forall ctx d p sig, ring_Verify ring ctx d p sig = None <->
      exists v, v ∈ vs /\ v_KeyID v = KeyID sig /\ v_Verify v ctx d p sig = None) /\
   (forall ws ring', Forall Lawful ws -> NewKeyring (vs ++ ws) = Ok ring' -> forall ctx d p sig,
      ring_Verify ring ctx d p sig = None -> ring_Verify ring' ctx d p sig = None)).
Proof.
  assert (Hspec : forall vs, (exists ring, NewKeyring vs = Ok ring) <-> Forall usable vs /\ NoDup (map v_KeyID vs)).
  { intros us. unfold NewKeyring. rewrite ring_add_all_spec. split; [tauto|]. intros [? ?]. split_and!; try done.
    apply Forall_forall. intros v _. apply lookup_empty. }
  assert (Hacc : forall vs ring, Forall Lawful vs -> NewKeyring vs = Ok ring -> forall ctx d p sig,
    ring_Verify ring ctx d p sig = None <->
      exists v, v ∈ vs /\ v_KeyID v = KeyID sig /\ v_Verify v ctx d p sig = None).
  { clear vs. intros vs ring Hl Hr ctx d p sig. destruct (proj1 (Hspec vs)) as [_ Hnd]; [by exists ring|].
    destruct (add_all_Some _ _ _ Hr) as [m ->]. pose proof (ring_add_all_lookup _ _ _ Hr Hnd) as Hm.
    rewrite Forall_forall in Hl. unfold ring_Verify. split.
    - destruct (checkContext ctx); [done|]. destruct (m !! KeyID sig) as [v|] eqn:E; [|done].
      apply Hm in E as [[? ?]|[_ E]]; [by exists v|by rewrite lookup_empty in E].
    - intros (v & Hv & Hk & E). destruct (Hl v Hv _ _ _ _ E) as [-> _].
      by rewrite (proj2 (Hm (KeyID sig) v) (or_introl (conj Hv Hk))). }
  split; [apply Hspec|]. intros Hl ring Hr. split; [by apply Hacc|].
  intros ws ring' Hw Hr' ctx d p sig. rewrite (Hacc vs ring Hl Hr), (Hacc (vs ++ ws) ring' (Forall_app_2 _ _ _ Hl Hw) Hr').
  setoid_rewrite elem_of_app. naive_solver.
Qed.

Lemma keyring_dispatch_witness :
  let hmac := fun k x => k ++ x in
  let a := mkHmacKey (lit "k") (lit "old") in let b := mkHmacKey (lit "l") (lit "new") in
  exists ring sig, NewKeyring [HMAC_verifier hmac (Some a); HMAC_verifier hmac (Some b)] = Ok ring /\
    HMAC_Sign hmac (Some a) (Some None) (lit "d") (lit "p") = Ok sig /\
    ring_Verify ring (Some None) (lit "d") (lit "p") sig = None.
Proof.
  intros hmac a b.
  destruct (proj2 (proj1 (keyring_dispatch [HMAC_verifier hmac (Some a); HMAC_verifier hmac (Some b)]))) as [ring Hr].
  { split; [by repeat constructor|]. vm_compute. repeat constructor; set_solver. }
  eexists ring, _. split; [done|]. split; [reflexivity|].
  assert (Forall Lawful [HMAC_verifier hmac (Some a); HMAC_verifier hmac (Some b)]) as Hl by (apply Forall_cons; split; [|apply Forall_singleton]; apply HMAC_lawful).
  apply (proj1 (proj2 (keyring_dispatch _) Hl ring Hr)).
  exists (HMAC_verifier hmac (Some a)). split; [by left|]. by split.
Defined.

(** ** The other round trips *)

(** Documented for Ed25519: what a key signs, its public half verifies. *)
Definition signs_verify (ed_verify : bytes -> bytes -> bytes -> bool) (ed_sign : bytes -> bytes -> bytes)
    (NewKeyFromSeed : bytes -> bytes) : Prop :=
  forall seed msg, ed_verify (Public (NewKeyFromSeed seed)) msg (ed_sign (NewKeyFromSeed seed) msg) = true.

(** A signer's signature is accepted by its published verifier. *)
Lemma ed25519_sign_verify sha256 ed_verify ed_sign NewKeyFromSeed priv s ctx d p sig :
  signs_verify ed_verify ed_sign NewKeyFromSeed ->
  NewEd25519Signer sha256 NewKeyFromSeed priv = Ok s ->
  Ed25519_Sign ed_sign s ctx d p = Ok sig ->
  Ed25519_Verify ed_verify (Ed25519Signer_Verifier s) ctx d p sig = None.
Proof.
  intros Hlaw. unfold NewEd25519Signer. destruct (negb _); [done|]. case_bool_decide as Hp; [|done].
  simpl. intros [= <-]. unfold Ed25519_Sign, Ed25519_Verify, ed25519Verify. destruct (checkContext ctx); [done|].
  simpl. destruct (frame d p) as [msg|]; [|done]. intros [= <-].
  rewrite (proj2 (binding_None _ _ _)) by done. rewrite Hp. by rewrite Hlaw.
Qed.

(** A signature has one wire form: what UnmarshalJSON accepts is re-encoded as
    it stood, so two texts with the same parts are the same. *)
Lemma UnmarshalJSON_canonical decode encode w sig :
  UnmarshalJSON decode encode (Some w) = Ok sig ->
  w_Alg w = Alg sig /\ w_KeyID w = KeyID sig /\ (w_Bytes w = None \/ w_Bytes w = Some (encode (Bytes sig))).
Proof.
  unfold UnmarshalJSON. destruct w as [a k [s|]]; simpl; [|intros [= <-]; auto].
  destruct (decode s) as [x|]; [|done]. case_bool_decide as E; simpl; [|done]. intros [= <-]. simpl. rewrite E. auto.
Qed.
