(* ===== verification/Trim.v ===== *)
(** * Trim: fitting a conversation into a window (conversation/trim.go)

    A transcript is trimmed to a token budget or to a number of exchanges by
    deciding, message by message, what to keep.  The masks of the code are
    lists of booleans as long as the messages they speak of; indices are natural
    numbers.  The token estimator is an argument. *)

From stdpp Require Import strings.
From S2P Require Import Prelude.

#[local] Open Scope Z_scope.

(** ** Data (conversation/message.go) *)

Record Message := mkMessage {
  Role : string; Content : string; ToolCalls : string;  (** json.RawMessage *)
  ToolName : string; ToolCallID : string
}.

Record TrimResult := mkTrimResult { Messages : list Message; TrimmedCount : Z; EstimatedTokens : Z }.

Definition TokenEstimator := string -> Z.

Definition add_cost (a b : Z) : Z := wrap_int (a + b).

Definition messageCost (m : Message) (estimator : TokenEstimator) : Z :=
  let cost := estimator (Content m) in
  let cost := if bool_decide (ToolCalls m <> EmptyString) then add_cost cost (estimator (ToolCalls m)) else cost in
  let cost := if bool_decide (ToolName m <> EmptyString) then add_cost cost (estimator (ToolName m)) else cost in
  let cost := if bool_decide (ToolCallID m <> EmptyString) then add_cost cost (estimator (ToolCallID m)) else cost in
  cost.

Definition is_role (r : string) (m : Message) : bool := bool_decide (Role m = r).
Definition is_system (m : Message) : bool := is_role "system" m.
Definition is_user (m : Message) : bool := is_role "user" m.
Definition is_tool (m : Message) : bool := is_role "tool" m.

(** An assistant message that calls tools, and one that answers. *)
Definition calls_tools (m : Message) : bool := is_role "assistant" m && bool_decide (ToolCalls m <> EmptyString).
Definition answers (m : Message) : bool := is_role "assistant" m && bool_decide (ToolCalls m = EmptyString).

(** ** Tool chains *)

Record toolChain := mkChain { start : nat; end_ : nat; completed : bool; cost : Z }.

#[export] Instance toolChain_eq_dec : EqDecision toolChain.
Proof. solve_decision. Defined.

(** The tool results at the head of the messages. *)
Fixpoint tool_run (msgs : list Message) : list Message :=
  match msgs with
  | m :: rest => if is_tool m then m :: tool_run rest else []
  | [] => []
  end.

Definition msg_cost (estimator : option TokenEstimator) (m : Message) : Z :=
  match estimator with Some e => messageCost m e | None => 0 end.

(** The loop from message [i] on: each round consumes at least one message. *)
Fixpoint chains_from (fuel : nat) (i : nat) (msgs : list Message) (estimator : option TokenEstimator) : list toolChain :=
  match fuel, msgs with
  | S fuel, m :: rest =>
      if calls_tools m then
        let run := tool_run rest in
        let j := (S i + length run)%nat in
        let after := drop (length run) rest in
        mkChain i (i + length run)
          (match after with a :: _ => answers a | [] => false end)
          (fold_left (fun c t => add_cost c (msg_cost estimator t)) run (msg_cost estimator m))
        :: chains_from fuel j after estimator
      else chains_from fuel (S i) rest estimator
  | _, _ => []
  end.

Definition identifyToolChains (msgs : list Message) (estimator : option TokenEstimator) : list toolChain :=
  chains_from (length msgs) 0 msgs estimator.

(** ** Masks *)

(** [keep[i]] *)
Definition kept (keep : list bool) (i : nat) : bool := default false (keep !! i).

(** [for k := first; k <= last; k++ { keep[k] = b }] *)
Definition set_range (first last : nat) (b : bool) (keep : list bool) : list bool :=
  fold_left (fun keep k => <[k := b]> keep) (seq first (S last - first)) keep.

(** The last user message before index [t], scanning down. *)
Fixpoint user_before (msgs : list Message) (t : nat) : option nat :=
  match t with
  | O => None
  | S t => match msgs !! t with
           | Some m => if is_user m then Some t else user_before msgs t
           | None => user_before msgs t
           end
  end.

Definition last_chain (chains : list toolChain) : option toolChain := last chains.

(** [unresolvedProtectFrom], [None] for -1. *)
Definition unresolvedProtectFrom (nonSystem : list Message) (chains : list toolChain) : option nat :=
  match last_chain chains with
  | Some lastChain =>
      if negb (completed lastChain)
      then Some (default (start lastChain) (user_before nonSystem (start lastChain)))
      else None
  | None => None
  end.

Definition protected (from : option nat) (i : nat) : bool :=
  match from with Some p => (p <=? i)%nat | None => false end.

(** ** TrimMessages *)

(** Tier 1: completed chains, oldest first. *)
Fixpoint tier1 (chains : list toolChain) (budget : Z) (keep : list bool) (currentCost : Z) : list bool * Z :=
  match chains with
  | [] => (keep, currentCost)
  | chain :: chains =>
      if currentCost <=? budget then (keep, currentCost)
      else if negb (completed chain) then tier1 chains budget keep currentCost
      else tier1 chains budget (set_range (start chain) (end_ chain) false keep)
             (wrap_int (currentCost - cost chain))
  end.

(** Tier 2: what is left, oldest first; [nonSystem] are the messages from [i] on. *)
Fixpoint tier2 (i : nat) (nonSystem : list Message) (from : option nat) (budget : Z) (estimator : TokenEstimator)
    (keep : list bool) (currentCost : Z) : list bool * Z :=
  match nonSystem with
  | [] => (keep, currentCost)
  | m :: rest =>
      if negb (budget <? currentCost) then (keep, currentCost)
      else if negb (kept keep i) then tier2 (S i) rest from budget estimator keep currentCost
      else if protected from i then tier2 (S i) rest from budget estimator keep currentCost
      else tier2 (S i) rest from budget estimator (<[i := false]> keep) (wrap_int (currentCost - messageCost m estimator))
  end.

(** The first message kept is a user's. *)
Fixpoint first_user (i : nat) (nonSystem : list Message) (from : option nat) (keep : list bool) : list bool :=
  match nonSystem with
  | [] => keep
  | m :: rest =>
      if negb (kept keep i) then first_user (S i) rest from keep
      else if is_user m then keep
      else if protected from i then keep
      else first_user (S i) rest from (<[i := false]> keep)
  end.

(** A chain is kept as its call is. *)
Definition atomic (chains : list toolChain) (keep : list bool) : list bool :=
  fold_left (fun keep chain => set_range (start chain) (end_ chain) (kept keep (start chain)) keep) chains keep.

Definition fallback (nonSystem : list Message) (keep : list bool) : list bool :=
  if negb (existsb id keep) && (0 <? len nonSystem)
  then <[default (length nonSystem - 1)%nat (user_before nonSystem (length nonSystem)) := true]> keep
  else keep.

(** The messages of the answer, how many were dropped, and the tokens kept. *)
Fixpoint build (msgs : list Message) (keep : list bool) (estimator : TokenEstimator)
    (trimmedCount keptCost : Z) : list Message * Z * Z :=
  match msgs with
  | [] => ([], trimmedCount, keptCost)
  | m :: rest =>
      if is_system m
      then let '(result, n, c) := build rest keep estimator trimmedCount keptCost in (m :: result, n, c)
      else if kept keep 0
      then let '(result, n, c) := build rest (tail keep) estimator trimmedCount
                                    (add_cost keptCost (messageCost m estimator)) in
           (m :: result, n, c)
      else build rest (tail keep) estimator (trimmedCount + 1) keptCost
  end.

Definition systemMsgs (msgs : list Message) : list Message := List.filter is_system msgs.
Definition nonSystemMsgs (msgs : list Message) : list Message := List.filter (fun m => negb (is_system m)) msgs.

Definition costs (msgs : list Message) (estimator : TokenEstimator) : Z :=
  fold_left (fun c m => add_cost c (messageCost m estimator)) msgs 0.

Definition trim_budget (maxTokens systemCost : Z) : Z :=
  let budget := wrap_int (maxTokens - systemCost) in
  if budget <? 0 then 0 else budget.

(** Both tiers, when the messages do not fit. *)
Definition tiers (nonSystem : list Message) (budget : Z) (estimator : TokenEstimator) (chains : list toolChain)
    (from : option nat) : list bool * Z :=
  let keep := replicate (length nonSystem) true in
  let currentCost := costs nonSystem estimator in
  if budget <? currentCost then
    let '(keep, currentCost) := tier1 chains budget keep currentCost in
    tier2 0 nonSystem from budget estimator keep currentCost
  else (keep, currentCost).

(** The mask over the messages that are not system messages. *)
Definition trim_keep (nonSystem : list Message) (budget : Z) (estimator : TokenEstimator) : list bool :=
  let chains := identifyToolChains nonSystem (Some estimator) in
  let from := unresolvedProtectFrom nonSystem chains in
  let '(keep, _) := tiers nonSystem budget estimator chains from in
  let keep := first_user 0 nonSystem from keep in
  let keep := atomic chains keep in
  fallback nonSystem keep.

(** A nil estimator panics. *)
Definition TrimMessages (msgs : list Message) (maxTokens : Z) (estimator : option TokenEstimator) : option TrimResult :=
  match estimator with
  | None => None
  | Some estimator =>
      Some (
        if len msgs =? 0 then mkTrimResult [] 0 0
        else
          let systemCost := costs (systemMsgs msgs) estimator in
          let nonSystem := nonSystemMsgs msgs in
          if len nonSystem =? 0 then mkTrimResult (systemMsgs msgs) 0 systemCost
          else
            let keep := trim_keep nonSystem (trim_budget maxTokens systemCost) estimator in
            let '(result, trimmedCount, keptCost) := build msgs keep estimator 0 systemCost in
            mkTrimResult result trimmedCount keptCost)
  end.

(** ** Masks *)

Lemma kept_insert keep i b k :
  (i < length keep)%nat -> kept (<[i := b]> keep) k = if (k =? i)%nat then b else kept keep k.
Proof.
  intros Hi. unfold kept. destruct (Nat.eqb_spec k i) as [->|Hne].
  - by rewrite list_lookup_insert_eq.
  - by rewrite list_lookup_insert_ne.
Qed.

Definition within (first last k : nat) : bool := (first <=? k)%nat && (k <=? last)%nat.

Lemma fold_insert_seq b n : forall first keep,
  (first + n <= length keep)%nat ->
  length (fold_left (fun keep k => <[k := b]> keep) (seq first n) keep) = length keep /\
  forall k, kept (fold_left (fun keep k => <[k := b]> keep) (seq first n) keep) k =
    if (first <=? k)%nat && (k <? first + n)%nat then b else kept keep k.
Proof.
  induction n as [|n IH]; intros first keep Hn; simpl.
  - split; [done|]. intros k. destruct (Nat.leb_spec first k), (Nat.ltb_spec k (first + 0)); simpl; try done; lia.
  - destruct (IH (S first) (<[first := b]> keep)) as [Hl Hk]; [rewrite length_insert; lia|].
    rewrite length_insert in Hl. split; [done|]. intros k. rewrite Hk, kept_insert by lia.
    destruct (Nat.leb_spec (S first) k), (Nat.ltb_spec k (S first + n)), (Nat.leb_spec first k),
      (Nat.ltb_spec k (first + S n)), (Nat.eqb_spec k first); simpl; try done; lia.
Qed.

Lemma set_range_spec first last b keep :
  (last < length keep)%nat -> (first <= last)%nat ->
  length (set_range first last b keep) = length keep /\
  forall k, kept (set_range first last b keep) k = if within first last k then b else kept keep k.
Proof.
  intros Hl Hf. destruct (fold_insert_seq b (S last - first) first keep) as [H1 H2]; [lia|].
  split; [exact H1|]. intros k. unfold set_range. rewrite H2. unfold within.
  destruct (Nat.leb_spec first k), (Nat.ltb_spec k (first + (S last - first))), (Nat.leb_spec k last); simpl; try done; lia.
Qed.

Lemma kept_ext k1 k2 : length k1 = length k2 -> (forall i, kept k1 i = kept k2 i) -> k1 = k2.
Proof.
  intros Hl Hk. apply list_eq_same_length with (n := length k1); [done|done|]. intros i x y Hi Hx Hy.
  specialize (Hk i). unfold kept in Hk. by rewrite Hx, Hy in Hk.
Qed.

(** ** Chains *)

Definition in_chain (c : toolChain) (k : nat) : bool := within (start c) (end_ c) k.
Definition in_chains (cs : list toolChain) (k : nat) : bool := existsb (fun c => in_chain c k) cs.

(** What a chain of a transcript is. *)
Record chain_of (msgs : list Message) (c : toolChain) : Prop := {
  chain_bounds : (start c <= end_ c < length msgs)%nat;
  chain_call : exists m, msgs !! start c = Some m /\ calls_tools m = true;
  chain_results k : (start c < k <= end_ c)%nat -> exists t, msgs !! k = Some t /\ is_tool t = true;
  chain_maximal t : msgs !! S (end_ c) = Some t -> is_tool t = false;
  chain_completed : completed c = match msgs !! S (end_ c) with Some a => answers a | None => false end
}.

Lemma tool_run_prefix msgs :
  exists rest, msgs = tool_run msgs ++ rest /\ Forall (fun t => is_tool t = true) (tool_run msgs) /\
    (forall t, head rest = Some t -> is_tool t = false).
Proof.
  induction msgs as [|m msgs (rest & E & Hf & Hr)]; simpl; [by exists []|].
  destruct (is_tool m) eqn:Em; [|by exists (m :: msgs); split_and!; [..|intros t [= <-]]].
  exists rest. split_and!; [simpl; congruence|by constructor|done].
Qed.

Definition ordered (c d : toolChain) : Prop := (end_ c < start d)%nat.

Lemma chains_from_spec estimator fuel pre msgs :
  (length msgs <= fuel)%nat ->
  let cs := chains_from fuel (length pre) msgs estimator in
  Forall (chain_of (pre ++ msgs)) cs /\
  Forall (fun c => length pre <= start c)%nat cs /\
  StronglySorted ordered cs /\
  (forall k m, msgs !! k = Some m -> calls_tools m = true -> exists c, c ∈ cs /\ start c = (length pre + k)%nat).
Proof.
  revert pre msgs. induction fuel as [|fuel IH]; intros pre [|m msgs] Hf;
    [by split_and!; [constructor..|]|simpl in Hf; lia|by split_and!; [constructor..|]|].
  cbn [chains_from]. simpl in Hf. destruct (calls_tools m) eqn:Em.
  - destruct (tool_run_prefix msgs) as (rest & E & Hrun & Hrest).
    set (run := tool_run msgs) in *. assert (drop (length run) msgs = rest) as -> by (rewrite E; apply drop_app_length).
    destruct (IH (pre ++ m :: run) rest) as (H1 & H2 & H3 & H4).
    { apply (f_equal length) in E. rewrite length_app in E. lia. }
    rewrite length_app in H1, H2, H3, H4. simpl in H1, H2, H3, H4. rewrite Nat.add_succ_r, <- Nat.add_succ_l in H1, H2, H3, H4.
    rewrite <- app_assoc in H1. simpl in H1. rewrite <- E in H1. change (S (length pre + length run)) with (S (length pre) + length run)%nat in *.
    assert (forall k, (pre ++ m :: msgs) !! (S (length pre) + k)%nat = msgs !! k) as Hlk.
    { intros k. rewrite lookup_app_r by lia. by replace (S (length pre) + k - length pre)%nat with (S k) by lia. }
    split_and!.
    + constructor; [|exact H1]. split; simpl.
      * rewrite length_app. simpl. apply (f_equal length) in E. rewrite length_app in E. lia.
      * exists m. by rewrite list_lookup_middle.
      * intros k Hk. replace k with (S (length pre) + (k - S (length pre)))%nat by lia. rewrite Hlk, E, lookup_app_l by lia.
        destruct (lookup_lt_is_Some_2 run (k - S (length pre))) as [t Ht]; [lia|]. exists t. split; [done|].
        by eapply Forall_lookup_1 in Hrun.
      * intros t. change (S (length pre + length run)) with (S (length pre) + length run)%nat. rewrite Hlk, E, lookup_app_r, Nat.sub_diag by lia.
        rewrite <- head_lookup. apply Hrest.
      * change (S (length pre + length run)) with (S (length pre) + length run)%nat. rewrite Hlk, E, lookup_app_r, Nat.sub_diag by lia. by destruct rest.
    + constructor; [simpl; lia|]. eapply Forall_impl; [exact H2|]. simpl. lia.
    + constructor; [done|]. eapply Forall_impl; [exact H2|]. unfold ordered. simpl. lia.
    + intros [|k] t Ht Hc; [eexists; split; [by left|simpl; lia]|]. simpl in Ht. rewrite E in Ht.
      destruct (decide (k < length run)%nat) as [Hk|Hk].
      * rewrite lookup_app_l in Ht by done. eapply Forall_lookup_1 in Hrun; [|done]. exfalso.
        revert Hc Hrun. unfold calls_tools, is_tool, is_role. repeat case_bool_decide; try done. congruence.
      * rewrite lookup_app_r in Ht by lia. destruct (H4 _ _ Ht Hc) as (c & Hin & Hs). exists c. split; [by right|lia].
  - destruct (IH (pre ++ [m]) msgs) as (H1 & H2 & H3 & H4); [lia|].
    rewrite length_app in H1, H2, H3, H4. simpl in H1, H2, H3, H4. rewrite Nat.add_1_r in H1, H2, H3, H4. rewrite <- app_assoc in H1. split_and!; try done.
    + eapply Forall_impl; [exact H2|]. simpl. lia.
    + intros [|k] t Ht Hc; [simpl in Ht; congruence|]. destruct (H4 _ _ Ht Hc) as (c & Hin & Hs). exists c. split; [done|lia].
Qed.

Lemma in_chains_true cs k : in_chains cs k = true <-> exists c, c ∈ cs /\ in_chain c k = true.
Proof.
  unfold in_chains. rewrite existsb_exists. split; intros (c & H1 & H2); exists c; (split; [|done]);
    by apply list_elem_of_In.
Qed.

Lemma in_chain_bounds c k : in_chain c k = true <-> (start c <= k <= end_ c)%nat.
Proof. unfold in_chain, within. rewrite andb_true_iff, Nat.leb_le, Nat.leb_le. lia. Qed.

Section Chains.
Context (msgs : list Message) (estimator : option TokenEstimator).
#[local] Notation cs := (identifyToolChains msgs estimator).

Lemma identify_chains c : c ∈ cs -> chain_of msgs c.
Proof. destruct (chains_from_spec estimator (length msgs) [] msgs) as [H _]; [done|]. by apply Forall_forall. Qed.

Lemma identify_ordered : StronglySorted ordered cs.
Proof. by destruct (chains_from_spec estimator (length msgs) [] msgs) as (_ & _ & H & _). Qed.

Lemma identify_calls k m : msgs !! k = Some m -> calls_tools m = true -> exists c, c ∈ cs /\ start c = k.
Proof. destruct (chains_from_spec estimator (length msgs) [] msgs) as (_ & _ & _ & H); [done|]. apply H. Qed.

Lemma chain_unique c d k : c ∈ cs -> d ∈ cs -> in_chain c k = true -> in_chain d k = true -> c = d.
Proof.
  rewrite !in_chain_bounds. intros Hc Hd. generalize identify_ordered. revert Hc Hd. generalize cs as l.
  induction l as [|x l IH]; [by intros ?%elem_of_nil|].
  intros Hc Hd [Hs Hx]%StronglySorted_inv. rewrite Forall_forall in Hx.
  apply elem_of_cons in Hc as [->|Hc], Hd as [->|Hd]; [done|..|by apply IH]; intros H1 H2.
  - specialize (Hx _ Hd). unfold ordered in Hx. lia.
  - specialize (Hx _ Hc). unfold ordered in Hx. lia.
Qed.

(** Some chains hold all of a chain or nothing of it. *)
Lemma in_chains_const ds c k :
  ds ⊆ cs -> c ∈ cs -> in_chain c k = true -> in_chains ds k = bool_decide (c ∈ ds).
Proof.
  intros Hds Hc Hk. apply Bool.eq_true_iff_eq. rewrite in_chains_true, bool_decide_eq_true. split.
  - intros (d & Hd & Hdk). by rewrite (chain_unique c d k) by auto.
  - intros H. by exists c.
Qed.

(** A user's message is in no chain. *)
Lemma user_not_in_chain c k m : c ∈ cs -> msgs !! k = Some m -> is_user m = true -> in_chain c k = false.
Proof.
  intros Hc Hm Hu. apply Bool.not_true_iff_false. rewrite in_chain_bounds. intros Hk.
  pose proof (identify_chains c Hc) as Hof. destruct (decide (k = start c)) as [->|Hne].
  - destruct (chain_call _ _ Hof) as (m' & E & Hcall). rewrite Hm in E. injection E as <-.
    revert Hu Hcall. unfold is_user, calls_tools, is_role. repeat case_bool_decide; try done. congruence.
  - destruct (chain_results _ _ Hof k) as (t & E & Ht); [lia|]. rewrite Hm in E. injection E as <-.
    revert Hu Ht. unfold is_user, is_tool, is_role. repeat case_bool_decide; try done. congruence.
Qed.
End Chains.

(** ** The loops *)

Definition finished (cs : list toolChain) : list toolChain := List.filter completed cs.

Section Loops.
Context (msgs : list Message) (budget : Z).

Lemma tier1_spec chains : forall keep currentCost keep' currentCost',
  (forall c, c ∈ chains -> chain_of msgs c) -> length keep = length msgs ->
  tier1 chains budget keep currentCost = (keep', currentCost') ->
  length keep' = length msgs /\
  exists ds, ds `prefix_of` finished chains /\
    (forall k, kept keep' k = kept keep k && negb (in_chains ds k)) /\
    (budget < currentCost' -> ds = finished chains).
Proof.
  induction chains as [|c chains IH]; intros keep cc keep' cc' Hof Hl; cbn [tier1].
  { intros [= <- <-]. split; [done|]. exists []. split_and!; [done| |done]. intros k. by rewrite andb_true_r. }
  destruct (Z.leb_spec cc budget) as [Hle|Hlt].
  { intros [= <- <-]. split; [done|]. exists []. split_and!; [apply prefix_nil| |lia]. intros k. by rewrite andb_true_r. }
  assert (Hof' : forall d, d ∈ chains -> chain_of msgs d) by (intros d Hd; apply Hof; by right).
  unfold finished. cbn [List.filter]. fold (finished chains).
  destruct (completed c); cbn [negb]; [|by apply IH].
  pose proof (chain_bounds _ _ (Hof c ltac:(by left))) as Hb.
  destruct (set_range_spec (start c) (end_ c) false keep) as [Hl1 Hk1]; [lia..|]. intros E.
  destruct (IH _ _ _ _ Hof' (eq_trans Hl1 Hl) E) as (Hl2 & ds & Hp & Hk2 & Hfull).
  split; [done|]. exists (c :: ds). split_and!.
  - by apply prefix_cons.
  - intros k. rewrite Hk2, Hk1. change (within (start c) (end_ c) k) with (in_chain c k).
    unfold in_chains. simpl. by destruct (in_chain c k), (kept keep k).
  - intros H. by rewrite Hfull.
Qed.

Lemma tier2_spec from estimator rest : forall i keep currentCost keep' currentCost',
  (i + length rest = length keep)%nat ->
  tier2 i rest from budget estimator keep currentCost = (keep', currentCost') ->
  length keep' = length keep /\
  exists cut, (i <= cut <= length keep)%nat /\
    (forall k, kept keep' k = kept keep k && negb ((i <=? k)%nat && (k <? cut)%nat && negb (protected from k))) /\
    (budget < currentCost' -> cut = length keep).
Proof.
  induction rest as [|m rest IH]; intros i keep cc keep' cc' Hl; cbn [tier2]; simpl in Hl.
  { intros [= <- <-]. split; [done|]. exists i. split_and!; try lia. intros k.
    destruct (Nat.leb_spec i k), (Nat.ltb_spec k i); simpl; rewrite ?andb_true_r; try done; lia. }
  destruct (Z.ltb_spec budget cc) as [Hlt|Hle]; cbn [negb].
  2: { intros [= <- <-]. split; [done|]. exists i. split_and!; try lia. intros k.
       destruct (Nat.leb_spec i k), (Nat.ltb_spec k i); simpl; rewrite ?andb_true_r; try done; lia. }
  assert (Hskip : forall keep1 cc1, length keep1 = length keep ->
    (forall k, kept keep1 k = kept keep k && negb ((k =? i)%nat && negb (protected from k))) ->
    tier2 (S i) rest from budget estimator keep1 cc1 = (keep', cc') ->
    length keep' = length keep /\ exists cut, (i <= cut <= length keep)%nat /\
    (forall k, kept keep' k = kept keep k && negb ((i <=? k)%nat && (k <? cut)%nat && negb (protected from k))) /\
    (budget < cc' -> cut = length keep)).
  { intros keep1 cc1 Hl1 Hk1 E. destruct (IH (S i) keep1 cc1 keep' cc' ltac:(lia) E) as (Hl2 & cut & Hc & Hk2 & Hf).
    split; [lia|]. exists cut. split_and!; [lia..| |rewrite <- Hl1; exact Hf]. intros k. rewrite Hk2, Hk1.
    destruct (Nat.leb_spec (S i) k), (Nat.ltb_spec k cut), (Nat.leb_spec i k), (Nat.eqb_spec k i), (protected from k), (kept keep k);
      simpl; try done; lia. }
  destruct (kept keep i) eqn:Ek; cbn [negb].
  - destruct (protected from i) eqn:Ep.
    + apply Hskip; [done|]. intros k. destruct (Nat.eqb_spec k i) as [->|]; [rewrite Ep|]; by rewrite andb_true_r.
    + apply Hskip; [by rewrite length_insert|]. intros k. rewrite kept_insert by lia.
      destruct (Nat.eqb_spec k i) as [->|]; [rewrite Ep|]; by rewrite ?andb_true_r, ?andb_false_r.
  - apply Hskip; [done|]. intros k. destruct (Nat.eqb_spec k i) as [->|]; [by rewrite Ek|by rewrite andb_true_r].
Qed.

Lemma tier2_fits from estimator i rest keep cc :
  cc <= budget -> tier2 i rest from budget estimator keep cc = (keep, cc).
Proof. intros H. destruct rest; [done|]. cbn [tier2]. by destruct (Z.ltb_spec budget cc); [lia|]. Qed.

Lemma first_user_spec from rest : forall i keep,
  (i + length rest = length keep)%nat ->
  (forall k, (i <= k)%nat -> rest !! (k - i)%nat = msgs !! k) ->
  let keep' := first_user i rest from keep in
  length keep' = length keep /\
  exists cut, (i <= cut <= length keep)%nat /\
    (forall k, kept keep' k = kept keep k && negb ((i <=? k)%nat && (k <? cut)%nat)) /\
    (forall k m, (i <= k < cut)%nat -> kept keep k = true -> msgs !! k = Some m -> is_user m = false /\ protected from k = false) /\
    (cut = length keep \/ kept keep cut = true /\ exists m, msgs !! cut = Some m /\ (is_user m = true \/ protected from cut = true)).
Proof.
  induction rest as [|m rest IH]; intros i keep Hl Hm; cbn [first_user]; simpl in Hl.
  { split; [done|]. exists i. split_and!; [lia..| |intros; lia|left; lia]. intros k.
    destruct (Nat.leb_spec i k), (Nat.ltb_spec k i); simpl; rewrite ?andb_true_r; try done; lia. }
  pose proof (Hm i ltac:(done)) as Hi. rewrite Nat.sub_diag in Hi. simpl in Hi.
  assert (Hm' : forall k, (S i <= k)%nat -> rest !! (k - S i)%nat = msgs !! k).
  { intros k Hk. rewrite <- Hm by lia. by replace (k - i)%nat with (S (k - S i)) by lia. }
  assert (Hstop : kept keep i = true -> (is_user m = true \/ protected from i = true) -> length keep = length keep /\
    exists cut, (i <= cut <= length keep)%nat /\
    (forall k, kept keep k = kept keep k && negb ((i <=? k)%nat && (k <? cut)%nat)) /\
    (forall k m, (i <= k < cut)%nat -> kept keep k = true -> msgs !! k = Some m -> is_user m = false /\ protected from k = false) /\
    (cut = length keep \/ kept keep cut = true /\ exists m, msgs !! cut = Some m /\ (is_user m = true \/ protected from cut = true))).
  { intros Hk Hu. split; [done|]. exists i. split_and!; [lia..| |intros; lia|right; eauto]. intros k.
    destruct (Nat.leb_spec i k), (Nat.ltb_spec k i); simpl; rewrite ?andb_true_r; try done; lia. }
  destruct (kept keep i) eqn:Ek; cbn [negb].
  - destruct (is_user m) eqn:Eu; [by apply Hstop; [|left]|].
    destruct (protected from i) eqn:Ep; [by apply Hstop; [|right]|].
    destruct (IH (S i) (<[i := false]> keep)) as (Hl2 & cut & Hc & Hk2 & Hs & Hcut); [rewrite length_insert; lia|done|].
    rewrite length_insert in *. split; [done|]. exists cut. split_and!; [lia..| | |].
    + intros k. rewrite Hk2, kept_insert by lia.
      destruct (Nat.leb_spec (S i) k), (Nat.ltb_spec k cut), (Nat.leb_spec i k), (Nat.eqb_spec k i), (kept keep k); simpl; try done; lia.
    + intros k t Hk Hkk Ht. destruct (decide (k = i)) as [->|]; [rewrite <- Hi in Ht; by simplify_eq|].
      apply (Hs k); [lia| |done]. rewrite kept_insert by lia. by destruct (Nat.eqb_spec k i).
    + destruct Hcut as [?|[Hkc ?]]; [by left|right]. split; [|done]. rewrite kept_insert in Hkc by lia.
      by destruct (Nat.eqb_spec cut i); [lia|].
  - destruct (IH (S i) keep) as (Hl2 & cut & Hc & Hk2 & Hs & Hcut); [lia|done|].
    split; [done|]. exists cut. split_and!; [lia..| | |done].
    + intros k. rewrite Hk2. destruct (decide (k = i)) as [->|]; [by rewrite Ek|].
      destruct (Nat.leb_spec (S i) k), (Nat.ltb_spec k cut), (Nat.leb_spec i k), (kept keep k); simpl; try done; lia.
    + intros k t Hk Hkk Ht. destruct (decide (k = i)) as [->|]; [congruence|]. apply (Hs k); [lia|done..].
Qed.
End Loops.

(** ** The mask *)

Lemma user_before_spec msgs t :
  match user_before msgs t with
  | Some u => (u < t)%nat /\ exists m, msgs !! u = Some m /\ is_user m = true
  | None => forall k m, (k < t)%nat -> msgs !! k = Some m -> is_user m = false
  end.
Proof.
  induction t as [|t IH]; cbn [user_before]; [lia|].
  destruct (msgs !! t) as [m|] eqn:E; [destruct (is_user m) eqn:Eu|].
  - split; [lia|eauto].
  - destruct (user_before msgs t); [destruct IH; split; [lia|done]|].
    intros k m' Hk Hm. destruct (decide (k = t)) as [->|]; [congruence|apply (IH k); [lia|done]].
  - destruct (user_before msgs t); [destruct IH; split; [lia|done]|].
    intros k m' Hk Hm. destruct (decide (k = t)) as [->|]; [congruence|apply (IH k); [lia|done]].
Qed.

(** The unresolved tail: the last chain when no answer follows it. *)
Definition unresolved (cs : list toolChain) (c : toolChain) : Prop := last cs = Some c /\ completed c = false.

Lemma protect_None msgs cs : unresolvedProtectFrom msgs cs = None <-> forall c, last cs = Some c -> completed c = true.
Proof.
  unfold unresolvedProtectFrom, last_chain. destruct (last cs) as [c|]; [|naive_solver].
  destruct (completed c) eqn:E; simpl; split; try done; [by intros _ d [= <-]|].
  intros H. by rewrite (H c) in E.
Qed.

Lemma protect_Some msgs cs p :
  unresolvedProtectFrom msgs cs = Some p -> exists c, unresolved cs c /\ (p <= start c)%nat /\
    ((exists m, msgs !! p = Some m /\ is_user m = true) \/
     p = start c /\ forall k m, (k < p)%nat -> msgs !! k = Some m -> is_user m = false).
Proof.
  unfold unresolvedProtectFrom, last_chain, unresolved. destruct (last cs) as [c|]; [|done].
  destruct (completed c) eqn:E; [done|]. simpl. intros [= <-]. exists c.
  pose proof (user_before_spec msgs (start c)) as H. destruct (user_before msgs (start c)) as [u|]; simpl.
  - destruct H as [? ?]. split_and!; [done..|lia|by left].
  - split_and!; [done..|right; split; [done|exact H]].
Qed.

Lemma last_In {A} (l : list A) x : last l = Some x -> x ∈ l.
Proof. intros [l' ->]%last_Some. apply elem_of_app. right. by left. Qed.

Lemma finished_In cs c : c ∈ finished cs <-> c ∈ cs /\ completed c = true.
Proof. unfold finished. rewrite !list_elem_of_In, filter_In. done. Qed.

Lemma set_range_same first last b keep :
  (forall k, (first <= k <= last)%nat -> keep !! k = Some b) -> set_range first last b keep = keep.
Proof.
  intros H. unfold set_range. assert (forall k, k ∈ seq first (S last - first) -> keep !! k = Some b) as Hs.
  { intros k Hk. apply elem_of_seq in Hk. apply H. lia. }
  clear H. induction (seq first (S last - first)) as [|k l IH]; [done|]. simpl.
  rewrite list_insert_id by (apply Hs; by left). apply IH. intros j Hj. apply Hs. by right.
Qed.

Lemma kept_lookup keep k : (k < length keep)%nat -> keep !! k = Some (kept keep k).
Proof. intros H. unfold kept. by destruct (lookup_lt_is_Some_2 _ _ H) as [b ->]. Qed.

Lemma atomic_same chains keep :
  (forall c, c ∈ chains -> (end_ c < length keep)%nat /\
     forall k, in_chain c k = true -> kept keep k = kept keep (start c)) ->
  atomic chains keep = keep.
Proof.
  unfold atomic. induction chains as [|c chains IH]; intros H; [done|]. simpl.
  destruct (H c ltac:(by left)) as [Hl Hk]. rewrite set_range_same; [apply IH; intros d Hd; apply H; by right|].
  intros k Hb. rewrite <- (Hk k) by (by apply in_chain_bounds). apply kept_lookup. lia.
Qed.

Lemma kept_replicate n k : kept (replicate n true) k = (k <? n)%nat.
Proof.
  unfold kept. destruct (Nat.ltb_spec k n) as [H|H]; [by rewrite lookup_replicate_2|].
  destruct (replicate n true !! k) eqn:E; [apply lookup_replicate in E; lia|done].
Qed.

Section Mask.
Context (msgs : list Message) (budget : Z) (estimator : TokenEstimator).
#[local] Notation cs := (identifyToolChains msgs (Some estimator)).
#[local] Notation from := (unresolvedProtectFrom msgs cs).

Lemma tiers_spec keep currentCost :
  tiers msgs budget estimator cs from = (keep, currentCost) ->
  length keep = length msgs /\
  exists ds cut, ds `prefix_of` finished cs /\ (cut <= length msgs)%nat /\
    (forall k, kept keep k = (k <? length msgs)%nat && negb (in_chains ds k) && negb ((k <? cut)%nat && negb (protected from k))) /\
    (costs msgs estimator <= budget -> ds = [] /\ cut = 0%nat) /\
    (budget < currentCost -> ds = finished cs /\ cut = length msgs).
Proof.
  unfold tiers. destruct (Z.ltb_spec budget (costs msgs estimator)) as [Hlt|Hle].
  2: { intros [= <- <-]. split; [apply length_replicate|]. exists [], 0%nat. split_and!; [apply prefix_nil|lia| |done|lia].
       intros k. rewrite kept_replicate. by rewrite !andb_true_r. }
  destruct (tier1 _ _ _ _) as [keep1 cc1] eqn:E1.
  apply (tier1_spec msgs budget) in E1 as (Hl1 & ds & Hp & Hk1 & Hf1);
    [|by intros c; apply (identify_chains msgs (Some estimator))|apply length_replicate].
  intros E2. pose proof E2 as (Hl2 & cut & Hc & Hk2 & Hf2)%tier2_spec; [|by rewrite Hl1].
  split; [congruence|].
  destruct (decide (budget < currentCost)) as [Hb|Hb].
  - assert (budget < cc1) as Hb1.
    { apply Z.nle_gt. intros Hle. rewrite tier2_fits in E2 by done. injection E2 as _ <-. lia. }
    exists ds, cut. split_and!; [done|lia| |lia|].
    + intros k. rewrite Hk2, Hk1, kept_replicate. by destruct (_ <? length msgs)%nat, (in_chains ds k), (k <? cut)%nat.
    + intros _. split; [by apply Hf1|]. rewrite <- Hl1. by apply Hf2.
  - exists ds, cut. split_and!; [done|lia| |lia|done].
    intros k. rewrite Hk2, Hk1, kept_replicate. by destruct (_ <? length msgs)%nat, (in_chains ds k), (k <? cut)%nat.
Qed.

Lemma dropped_finished ds c : ds `prefix_of` finished cs -> c ∈ ds -> c ∈ cs /\ completed c = true.
Proof. intros [l E] Hc. apply finished_In. rewrite E. apply elem_of_app. by left. Qed.

Lemma protect_kept ds p :
  ds `prefix_of` finished cs -> from = Some p -> (p < length msgs)%nat /\ in_chains ds p = false.
Proof.
  intros Hds Hp. destruct (protect_Some _ _ _ Hp) as (c & [Hlast Hun] & Hle & Hcase).
  pose proof (chain_bounds _ _ (identify_chains _ _ _ (last_In _ _ Hlast))) as Hb. split; [lia|].
  assert (ds ⊆ cs) as Hsub by (intros d Hd; by apply (dropped_finished ds)).
  destruct Hcase as [(m & Hm & Hu)|[-> _]]; apply Bool.not_true_iff_false.
  - rewrite in_chains_true. intros (d & Hd & Hk). by rewrite (user_not_in_chain msgs (Some estimator) d p m) in Hk by auto.
  - rewrite (in_chains_const msgs (Some estimator) ds c) by (auto using last_In; apply in_chain_bounds; lia).
    rewrite bool_decide_eq_true. intros Hc. apply (dropped_finished ds) in Hc as [_ Hc]; [congruence|done].
Qed.

(** The mask before the fallback: some completed chains, oldest first, and a
    prefix of the messages are dropped. *)
Record mask_spec (keep : list bool) (currentCost : Z) (ds : list toolChain) (cut : nat) : Prop := {
  mask_chains : ds `prefix_of` finished cs;
  mask_length : length keep = length msgs;
  mask_kept k : kept keep k = (k <? length msgs)%nat && negb (in_chains ds k) && (cut <=? k)%nat;
  mask_cut : cut = length msgs /\ from = None \/
    kept keep cut = true /\ exists m, msgs !! cut = Some m /\
      (is_user m = true \/ exists c, unresolved cs c /\ cut = start c /\
         forall k m, (k < cut)%nat -> msgs !! k = Some m -> is_user m = false);
  mask_tail p : from = Some p -> (cut <= p)%nat;
  mask_fits : costs msgs estimator <= budget ->
    ds = [] /\ forall k m, (k < cut)%nat -> msgs !! k = Some m -> is_user m = false;
  mask_over : budget < currentCost -> ds = finished cs /\ forall k, kept keep k = true -> protected from k = true
}.

Lemma mask_holds keep2 currentCost :
  tiers msgs budget estimator cs from = (keep2, currentCost) ->
  exists ds cut, mask_spec (first_user 0 msgs from keep2) currentCost ds cut.
Proof.
  intros E. apply tiers_spec in E as (Hl2 & ds & cut2 & Hds & Hc2 & Hk2 & Hfit & Hover).
  destruct (first_user_spec msgs from msgs 0 keep2) as (Hl3 & cut & Hc & Hk3 & Hskip & Hcut);
    [by rewrite Hl2|by intros k _; rewrite Nat.sub_0_r|].
  assert (Htail : forall p, from = Some p -> (cut <= p)%nat).
  { intros p Hp. destruct (decide (cut <= p)%nat) as [|Hlt]; [done|]. exfalso.
    destruct (protect_kept ds p Hds Hp) as [Hpn Hpd]. destruct (lookup_lt_is_Some_2 msgs p Hpn) as [m Hm].
    assert (protected from p = true) as Hpp by (rewrite Hp; simpl; by apply Nat.leb_le).
    destruct (Hskip p m) as [_ Hpf]; [lia| |done|congruence].
    rewrite Hk2, Hpd, Hpp, andb_false_r. by rewrite (proj2 (Nat.ltb_lt _ _) Hpn). }
  assert (Hle2 : forall k, (cut <= k)%nat -> (k < length msgs)%nat -> (k <? cut2)%nat && negb (protected from k) = false).
  { intros k Hk Hn. destruct Hcut as [->|[Hkc _]]; [lia|]. rewrite Hk2 in Hkc.
    destruct (Nat.ltb_spec cut cut2); [|by destruct (Nat.ltb_spec k cut2); [lia|]].
    destruct (protected from cut) eqn:Hp; [|by rewrite andb_false_r in Hkc].
    assert (protected from k = true) as ->; [|by rewrite andb_false_r].
    destruct from; [|done]. simpl in *. apply Nat.leb_le in Hp. apply Nat.leb_le. lia. }
  assert (Hk : forall k, kept (first_user 0 msgs from keep2) k =
    (k <? length msgs)%nat && negb (in_chains ds k) && (cut <=? k)%nat).
  { intros k. rewrite Hk3, Hk2. simpl. destruct (Nat.ltb_spec k (length msgs)) as [Hn|]; [|done].
    destruct (Nat.ltb_spec k cut), (Nat.leb_spec cut k); try (exfalso; lia); simpl; [by rewrite !andb_false_r|].
    rewrite Hle2 by lia. by rewrite !andb_true_r. }
  exists ds, cut. split; try done; [congruence|..].
  - destruct Hcut as [->|(Hkc & m & Hm & Hu)].
    + left. split; [congruence|]. destruct from as [p|] eqn:Hp; [|done]. exfalso.
      destruct (protect_kept ds p Hds Hp) as [? _]. specialize (Htail p eq_refl). lia.
    + right. split; [rewrite Hk3, Hkc; simpl; by destruct (Nat.ltb_spec cut cut); [lia|]|]. exists m. split; [done|].
      destruct Hu as [|Hp]; [by left|]. destruct from as [p|] eqn:Ef; [|done]. simpl in Hp. apply Nat.leb_le in Hp.
      specialize (Htail p eq_refl). assert (cut = p) as -> by lia.
      destruct (protect_Some _ _ _ Ef) as (c & Hun & _ & [(m' & Hm' & ?)|[-> Hno]]); [left; congruence|right; eauto].
  - intros H. destruct (Hfit H) as [-> ->]. split; [done|]. intros k m Hkc Hm.
    apply (Hskip k m); [lia| |done]. rewrite Hk2. apply lookup_lt_Some in Hm. by rewrite (proj2 (Nat.ltb_lt _ _) Hm).
  - intros H. destruct (Hover H) as [-> ->]. split; [done|]. intros k. rewrite Hk3, Hk2.
    destruct (k <? length msgs)%nat; [|done]. destruct (protected from k); [done|]. by rewrite !andb_false_r.
Qed.
End Mask.

(** ** What is kept costs *)

Fixpoint select {A} (keep : list bool) (l : list A) : list A :=
  match keep, l with
  | b :: keep, x :: l => if b then x :: select keep l else select keep l
  | _, _ => []
  end.

Definition total (estimator : TokenEstimator) (l : list Message) : Z :=
  Zsum (map (fun m => messageCost m estimator) l).

(** Costs are counts, and all of them together fit an [int]. *)
Definition counts (estimator : TokenEstimator) (l : list Message) : Prop :=
  (forall m, m ∈ l -> 0 <= messageCost m estimator) /\ total estimator l <= MaxInt.

Lemma total_nonneg estimator l : (forall m, m ∈ l -> 0 <= messageCost m estimator) -> 0 <= total estimator l.
Proof. intros H. apply Zsum_map_nonneg. intros m Hm. auto. Qed.

Lemma total_app estimator l k : total estimator (l ++ k) = total estimator l + total estimator k.
Proof. unfold total. by rewrite map_app, Zsum_app. Qed.

Lemma total_cons estimator m l : total estimator (m :: l) = messageCost m estimator + total estimator l.
Proof. done. Qed.

Lemma fold_costs estimator l : forall acc,
  (forall m, m ∈ l -> 0 <= messageCost m estimator) -> 0 <= acc -> acc + total estimator l <= MaxInt ->
  fold_left (fun c m => add_cost c (messageCost m estimator)) l acc = acc + total estimator l.
Proof.
  induction l as [|m l IH]; intros acc Hn Ha Hs; [unfold total; simpl; lia|].
  rewrite total_cons in Hs. rewrite total_cons.
  pose proof (Hn m ltac:(by left)). pose proof (total_nonneg estimator l ltac:(intros; apply Hn; by right)).
  simpl. unfold add_cost. rewrite wrap_int_id by (unfold in_int, MinInt, MaxInt in *; lia).
  rewrite IH; [lia|intros t Ht; apply Hn; by right|lia|lia].
Qed.

Lemma select_In {A} keep (l : list A) x : x ∈ select keep l -> x ∈ l.
Proof.
  revert l. induction keep as [|b keep IH]; intros [|y l]; simpl; try (by intros ?%elem_of_nil).
  destruct b; [rewrite !elem_of_cons; naive_solver|]. intros H. right. by apply IH.
Qed.

Lemma select_true {A} (l : list A) : select (replicate (length l) true) l = l.
Proof. induction l; simpl; congruence. Qed.

Lemma select_drop_one estimator keep l i m :
  kept keep i = true -> l !! i = Some m ->
  total estimator (select (<[i := false]> keep) l) = total estimator (select keep l) - messageCost m estimator.
Proof.
  revert l i. induction keep as [|b keep IH]; intros [|x l] [|i]; try done; unfold kept; simpl.
  - intros -> [= ->]. unfold total. simpl. lia.
  - intros Hk Hm. specialize (IH l i Hk Hm). destruct b; [|done].
    unfold total in *. simpl. lia.
Qed.

Lemma select_drop_range estimator l n : forall first keep,
  (forall k, (first <= k < first + n)%nat -> kept keep k = true) -> (first + n <= length l)%nat ->
  total estimator (select (fold_left (fun keep k => <[k := false]> keep) (seq first n) keep) l) =
  total estimator (select keep l) - total estimator (take n (drop first l)).
Proof.
  induction n as [|n IH]; intros first keep Hk Hn; cbn [seq fold_left]; [rewrite take_0; unfold total; simpl; lia|].
  destruct (lookup_lt_is_Some_2 l first) as [m Hm]; [lia|].
  assert (first < length keep)%nat as Hlen.
  { specialize (Hk first ltac:(lia)). unfold kept in Hk. destruct (keep !! first) eqn:E; [|done]. by eapply lookup_lt_Some. }
  rewrite IH; [|intros k Hb; rewrite kept_insert by done; destruct (Nat.eqb_spec k first); [lia|apply Hk; lia]|lia].
  rewrite (select_drop_one _ _ _ _ m) by (try done; apply Hk; lia).
  rewrite (drop_S l m first Hm). cbn [take]. rewrite total_cons. lia.
Qed.

Lemma select_total estimator keep l :
  (forall m, m ∈ l -> 0 <= messageCost m estimator) -> total estimator (select keep l) <= total estimator l.
Proof.
  revert l. induction keep as [|b keep IH]; intros [|m l] Hn; simpl; try done.
  - by apply (total_nonneg estimator (m :: l)).
  - pose proof (Hn m ltac:(by left)). specialize (IH l ltac:(intros t Ht; apply Hn; by right)).
    rewrite total_cons. destruct b; rewrite ?total_cons; lia.
Qed.

Lemma select_total_le estimator k1 k2 l :
  (forall m, m ∈ l -> 0 <= messageCost m estimator) -> (forall i, kept k1 i = true -> kept k2 i = true) ->
  total estimator (select k1 l) <= total estimator (select k2 l).
Proof.
  revert k2 l. induction k1 as [|b1 k1 IH]; intros k2 [|m l] Hn Hk;
    try (unfold total at 1; simpl; apply total_nonneg; intros t Ht; apply Hn; by eapply select_In).
  destruct k2 as [|b2 k2].
  { destruct b1; [by specialize (Hk 0%nat eq_refl)|]. simpl.
    assert (total estimator (select k1 l) <= total estimator (select [] l)) as H; [|by destruct l].
    apply IH; [intros t Ht; apply Hn; by right|]. intros i Hi. by specialize (Hk (S i) Hi). }
  pose proof (Hn m ltac:(by left)). assert (total estimator (select k1 l) <= total estimator (select k2 l)).
  { apply IH; [intros t Ht; apply Hn; by right|]. intros i Hi. exact (Hk (S i) Hi). }
  simpl. destruct b1; [rewrite (Hk 0%nat eq_refl : b2 = true)|destruct b2]; unfold total in *; simpl; lia.
Qed.

Definition chain_msgs (msgs : list Message) (c : toolChain) : list Message :=
  take (S (end_ c) - start c) (drop (start c) msgs).

Lemma chains_from_cost estimator fuel : forall pre msgs c,
  (length msgs <= fuel)%nat -> c ∈ chains_from fuel (length pre) msgs estimator ->
  exists m run, chain_msgs (pre ++ msgs) c = m :: run /\
    cost c = fold_left (fun c t => add_cost c (msg_cost estimator t)) run (msg_cost estimator m).
Proof.
  induction fuel as [|fuel IH]; intros pre [|m msgs] c Hf; simpl in Hf; try lia; try (by intros ?%elem_of_nil).
  cbn [chains_from]. destruct (calls_tools m).
  - destruct (tool_run_prefix msgs) as (rest & E & _). set (run := tool_run msgs) in *.
    assert (drop (length run) msgs = rest) as -> by (rewrite E; apply drop_app_length).
    intros [->|Hc]%elem_of_cons.
    + exists m, run. split; [|done]. unfold chain_msgs. simpl. rewrite drop_app_length.
      replace (S (length pre + length run) - length pre)%nat with (S (length run)) by lia. simpl. f_equal.
      rewrite E. apply take_app_length.
    + specialize (IH (pre ++ m :: run) rest c). rewrite <- app_assoc in IH. simpl in IH. rewrite <- E in IH. apply IH.
      * apply (f_equal length) in E. rewrite length_app in E. lia.
      * rewrite length_app. simpl. by rewrite Nat.add_succ_r, <- Nat.add_succ_l.
  - intros Hc. specialize (IH (pre ++ [m]) msgs c). rewrite <- app_assoc in IH. apply IH; [lia|].
    rewrite length_app. simpl. by rewrite Nat.add_1_r.
Qed.

Lemma StronglySorted_filter_list {A} (R : A -> A -> Prop) f l : StronglySorted R l -> StronglySorted R (List.filter f l).
Proof.
  induction 1 as [|x l _ IH Hx]; simpl; [constructor|]. destruct (f x); [|done]. constructor; [done|].
  rewrite Forall_forall in *. intros y Hy. apply Hx. apply list_elem_of_In, filter_In in Hy as [? _]. by apply list_elem_of_In.
Qed.

(** The last of sorted chains. *)
Lemma sorted_last {A} (R : A -> A -> Prop) l x y :
  StronglySorted R l -> x ∈ l -> last l = Some y -> x = y \/ R x y.
Proof.
  induction l as [|z l IH]; [by intros _ ?%elem_of_nil|]. intros [Hs Hz]%StronglySorted_inv Hx Hy.
  rewrite Forall_forall in Hz. destruct l as [|w l]; [left|].
  - apply list_elem_of_singleton in Hx. simpl in Hy. congruence.
  - apply elem_of_cons in Hx as [->|Hx]; [right; apply Hz; by apply last_In|by apply IH].
Qed.

Section Costs.
Context (msgs : list Message) (estimator : TokenEstimator) (Hcounts : counts estimator msgs).
#[local] Notation cs := (identifyToolChains msgs (Some estimator)).
#[local] Notation mask_cost keep := (total estimator (select keep msgs)).

Lemma chain_cost c : c ∈ cs -> cost c = total estimator (chain_msgs msgs c).
Proof.
  destruct Hcounts as [Hn Hs]. intros Hc. destruct (chains_from_cost (Some estimator) (length msgs) [] msgs c) as (m & run & E & ->); [done..|].
  simpl in E. rewrite E. assert (chain_msgs msgs c ⊆ msgs) as Hsub.
  { intros t Ht. unfold chain_msgs in Ht. by apply (subseteq_drop (start c)), (subseteq_take (S (end_ c) - start c)). }
  rewrite E in Hsub. assert (total estimator (m :: run) <= MaxInt) as Hle.
  { rewrite <- E. unfold chain_msgs. rewrite <- (take_drop (start c) msgs), total_app in Hs.
    rewrite <- (take_drop (S (end_ c) - start c) (drop (start c) msgs)), total_app in Hs.
    pose proof (total_nonneg estimator (take (start c) msgs) ltac:(intros t Ht; apply Hn; by apply (subseteq_take (start c)))).
    pose proof (total_nonneg estimator (drop (S (end_ c) - start c) (drop (start c) msgs)) ltac:(intros t Ht; apply Hn; by eapply subseteq_drop, subseteq_drop)).
    lia. }
  rewrite total_cons in Hle |- *. apply fold_costs; [intros t Ht; apply Hn, Hsub; by right|apply Hn, Hsub; by left|done].
Qed.

Lemma mask_cost_int keep : 0 <= mask_cost keep <= MaxInt.
Proof.
  destruct Hcounts as [Hn Hs]. split; [apply total_nonneg; intros m Hm; apply Hn; by eapply select_In|].
  etransitivity; [by apply select_total|exact Hs].
Qed.

(** An account that is exact stays exact when less is kept. *)
Lemma account_sub keep keep' x :
  mask_cost keep' = mask_cost keep - x -> wrap_int (mask_cost keep - x) = mask_cost keep'.
Proof.
  intros <-. apply wrap_int_id. pose proof (mask_cost_int keep'). unfold in_int, MinInt, MaxInt in *. lia.
Qed.

Lemma tier1_cost budget chains : forall keep keep' currentCost',
  chains ⊆ cs -> StronglySorted ordered chains -> length keep = length msgs ->
  (forall c k, c ∈ chains -> in_chain c k = true -> kept keep k = true) ->
  tier1 chains budget keep (mask_cost keep) = (keep', currentCost') -> currentCost' = mask_cost keep'.
Proof.
  induction chains as [|c chains IH]; intros keep keep' cc' Hsub Hso Hl Hk; cbn [tier1]; [by intros [= <- <-]|].
  destruct (Z.leb_spec (mask_cost keep) budget); [by intros [= <- <-]|].
  apply StronglySorted_inv in Hso as [Hso Hc]. rewrite Forall_forall in Hc.
  destruct (completed c); cbn [negb].
  - pose proof (chain_bounds _ _ (identify_chains _ _ c (Hsub c ltac:(by left)))) as Hb.
    destruct (set_range_spec (start c) (end_ c) false keep) as [Hl1 Hk1]; [lia..|].
    rewrite (account_sub keep (set_range (start c) (end_ c) false keep)).
    + apply IH; [set_solver|done|congruence|]. intros d k Hd Hdk. rewrite Hk1.
      specialize (Hc d Hd). unfold ordered in Hc. pose proof Hdk as Hdk'. apply in_chain_bounds in Hdk'.
      unfold within. rewrite (proj2 (Nat.leb_gt k (end_ c))) by lia. rewrite andb_false_r.
      apply (Hk d); [by right|done].
    + rewrite (chain_cost c) by (apply Hsub; by left). apply select_drop_range; [|lia].
      intros k Hbk. apply (Hk c); [by left|]. apply in_chain_bounds. lia.
  - apply IH; [set_solver|done|done|]. intros d k Hd. apply Hk. by right.
Qed.

Lemma tier2_cost budget from rest : forall i keep keep' currentCost',
  (forall k, (i <= k)%nat -> rest !! (k - i)%nat = msgs !! k) -> length keep = length msgs ->
  tier2 i rest from budget estimator keep (mask_cost keep) = (keep', currentCost') -> currentCost' = mask_cost keep'.
Proof.
  induction rest as [|m rest IH]; intros i keep keep' cc' Hm Hl; cbn [tier2]; [by intros [= <- <-]|].
  destruct (negb _); [by intros [= <- <-]|].
  pose proof (Hm i ltac:(done)) as Hi. rewrite Nat.sub_diag in Hi. simpl in Hi.
  assert (Hm' : forall k, (S i <= k)%nat -> rest !! (k - S i)%nat = msgs !! k).
  { intros k Hk. rewrite <- Hm by lia. by replace (k - i)%nat with (S (k - S i)) by lia. }
  destruct (kept keep i) eqn:Ek; cbn [negb]; [|by apply IH]. destruct (protected from i); [by apply IH|].
  rewrite (account_sub keep (<[i := false]> keep)) by (by apply select_drop_one).
  apply IH; [done|by rewrite length_insert].
Qed.

Lemma costs_exact l : l ⊆ msgs -> total estimator l <= MaxInt -> costs l estimator = total estimator l.
Proof.
  intros Hsub Hle. unfold costs. rewrite fold_costs; [done| |done|done].
  intros m Hm. apply (proj1 Hcounts). auto.
Qed.

Lemma tiers_cost budget from keep currentCost :
  tiers msgs budget estimator cs from = (keep, currentCost) -> currentCost = mask_cost keep.
Proof.
  unfold tiers. assert (costs msgs estimator = mask_cost (replicate (length msgs) true)) as ->.
  { rewrite select_true. apply costs_exact; [done|apply Hcounts]. }
  destruct (_ <? _); [|by intros [= <- <-]]. destruct (tier1 _ _ _ _) as [keep1 cc1] eqn:E1.
  assert (length keep1 = length msgs).
  { apply (tier1_spec msgs budget) in E1 as [? _]; [done|by intros c; apply (identify_chains msgs (Some estimator))|apply length_replicate]. }
  apply tier1_cost in E1 as ->; [|done|apply identify_ordered|apply length_replicate|].
  - apply tier2_cost; [by intros k _; rewrite Nat.sub_0_r|done].
  - intros c k Hc Hk. rewrite kept_replicate. apply Nat.ltb_lt. apply in_chain_bounds in Hk.
    pose proof (chain_bounds _ _ (identify_chains _ _ _ Hc)). lia.
Qed.
End Costs.

(** ** What trimming promises *)

Section Promise.
Context (msgs : list Message) (budget : Z) (estimator : TokenEstimator).
#[local] Notation cs := (identifyToolChains msgs (Some estimator)).

(** In a completed chain. *)
Definition removable (k : nat) : Prop := in_chains (finished cs) k = true.

(** Only the fallback message is kept. *)
Definition lone (keep : list bool) (f : nat) : Prop :=
  (forall k, kept keep k = (k =? f)%nat) /\
  match user_before msgs (length msgs) with Some u => f = u | None => f = (length msgs - 1)%nat end.

(** The specification of a trimmed mask over nonempty messages. *)
Record trimmed (keep : list bool) : Prop := {
  trimmed_length : length keep = length msgs;
  (** tool calls stay with their results *)
  trimmed_atomic c k : c ∈ cs -> in_chain c k = true -> kept keep k = kept keep (start c);
  (** the first message is a user's, or the call of an unresolved chain no user started *)
  trimmed_first : exists f m, kept keep f = true /\ msgs !! f = Some m /\ (forall k, (k < f)%nat -> kept keep k = false) /\
    (is_user m = true \/
     (exists c, unresolved cs c /\ f = start c /\ forall k m, (k < f)%nat -> msgs !! k = Some m -> is_user m = false) \/
     lone keep f /\ user_before msgs (length msgs) = None);
  (** the unresolved tail, from the user who started it, loses completed chains only *)
  trimmed_tail c k : unresolved cs c -> (default (start c) (user_before msgs (start c)) <= k < length msgs)%nat ->
    kept keep k = true \/ removable k;
  (** older goes before newer, among completed chains and among the rest *)
  trimmed_newest i j : (i < j < length msgs)%nat -> (removable i <-> removable j) ->
    kept keep i = true -> kept keep j = true \/ exists f, lone keep f;
  (** what fits only loses what stands before the first user *)
  trimmed_all k : costs msgs estimator <= budget -> (k < length msgs)%nat -> kept keep k = false ->
    forall j m, (j <= k)%nat -> msgs !! j = Some m -> is_user m = false;
  (** the rest fits, or nothing that may go is left *)
  trimmed_fits : counts estimator msgs ->
    total estimator (select keep msgs) <= budget \/
    (forall k, kept keep k = true -> protected (unresolvedProtectFrom msgs cs) k = true /\ ~ removable k) \/
    exists f, lone keep f
}.

Lemma removable_start c k : c ∈ cs -> in_chain c k = true -> removable k <-> completed c = true.
Proof.
  intros Hc Hk. unfold removable. rewrite (in_chains_const msgs (Some estimator) (finished cs) c); [|..|done|done].
  - rewrite bool_decide_eq_true, finished_In. tauto.
  - intros d Hd. by apply finished_In in Hd as [? _].
Qed.

Lemma cut_outside keep cc ds cut c k :
  mask_spec msgs budget estimator keep cc ds cut -> c ∈ cs -> in_chain c k = true -> (start c < cut)%nat -> (k < cut)%nat.
Proof.
  intros HM Hc Hk Hs. apply Nat.nle_gt. intros Hle.
  pose proof (chain_bounds _ _ (identify_chains _ _ _ Hc)) as Hb. apply in_chain_bounds in Hk as Hkb.
  assert (in_chain c cut = true) as Hcut by (apply in_chain_bounds; lia).
  destruct (mask_cut _ _ _ _ _ _ _ HM) as [[-> _]|(_ & m & Hm & [Hu|(d & [Hd _] & -> & _)])]; [lia|..].
  - by rewrite (user_not_in_chain msgs (Some estimator) c cut m) in Hcut.
  - rewrite (chain_unique msgs (Some estimator) c d (start d)) in Hs; [lia|done|by apply last_In|done|].
    apply in_chain_bounds. pose proof (chain_bounds _ _ (identify_chains _ _ d (last_In _ _ Hd))). lia.
Qed.

Lemma mask_atomic keep cc ds cut c k :
  mask_spec msgs budget estimator keep cc ds cut -> c ∈ cs -> in_chain c k = true -> kept keep k = kept keep (start c).
Proof.
  intros HM Hc Hk. rewrite !(mask_kept _ _ _ _ _ _ _ HM).
  pose proof (chain_bounds _ _ (identify_chains _ _ _ Hc)) as Hb. apply in_chain_bounds in Hk as Hkb.
  assert (in_chain c (start c) = true) as Hs by (apply in_chain_bounds; lia).
  assert (ds ⊆ cs) as Hsub.
  { intros d Hd. by apply (dropped_finished msgs estimator ds d) in Hd as [? _]; [|apply HM]. }
  rewrite (in_chains_const _ _ ds c k), (in_chains_const _ _ ds c (start c)) by done.
  rewrite !(proj2 (Nat.ltb_lt _ _)) by lia. f_equal.
  destruct (Nat.leb_spec cut k), (Nat.leb_spec cut (start c)); try done; [|lia].
  pose proof (cut_outside _ _ _ _ _ _ HM Hc Hk). lia.
Qed.

(** Where the fallback falls there is no chain. *)
Lemma fallback_no_chain f c :
  unresolvedProtectFrom msgs cs = None -> msgs <> [] ->
  match user_before msgs (length msgs) with Some u => f = u | None => f = (length msgs - 1)%nat end ->
  c ∈ cs -> in_chain c f = false.
Proof.
  intros Hp Hne Hf Hc. pose proof (user_before_spec msgs (length msgs)) as Hu.
  destruct (user_before msgs (length msgs)) as [u|]; subst f.
  { destruct Hu as (_ & m & Hm & Hu). by apply (user_not_in_chain msgs (Some estimator) c u m). }
  apply Bool.not_true_iff_false. intros Hk%in_chain_bounds.
  pose proof (identify_chains _ _ _ Hc) as Hof. pose proof (chain_bounds _ _ Hof) as Hb.
  destruct (last cs) as [d|] eqn:Hlast; [|by apply last_None in Hlast; rewrite Hlast in Hc; apply elem_of_nil in Hc].
  assert (c = d) as <-.
  { destruct (sorted_last _ _ c d (identify_ordered msgs (Some estimator)) Hc Hlast) as [|Ho]; [done|].
    pose proof (chain_bounds _ _ (identify_chains _ _ _ (last_In _ _ Hlast))). unfold ordered in Ho. lia. }
  pose proof (proj1 (protect_None _ _) Hp c Hlast) as Hcomp. rewrite (chain_completed _ _ Hof) in Hcomp.
  by rewrite (lookup_ge_None_2 msgs (S (end_ c))) in Hcomp by lia.
Qed.

Lemma trim_keep_cases :
  exists keep cc ds cut, mask_spec msgs budget estimator keep cc ds cut /\
    (counts estimator msgs -> cc <= budget -> total estimator (select keep msgs) <= budget) /\
    trim_keep msgs budget estimator = fallback msgs keep.
Proof.
  unfold trim_keep. destruct (tiers _ _ _ _ _) as [keep2 cc] eqn:E.
  destruct (mask_holds _ _ _ _ _ E) as (ds & cut & HM).
  exists (first_user 0 msgs (unresolvedProtectFrom msgs cs) keep2), cc, ds, cut. split_and!; [done| |].
  - intros Hc Hle. rewrite (tiers_cost msgs estimator Hc _ _ _ _ E) in Hle. etransitivity; [|exact Hle].
    apply select_total_le; [apply Hc|].
    apply tiers_spec in E as (Hl & _). intros i.
    destruct (first_user_spec msgs (unresolvedProtectFrom msgs cs) msgs 0 keep2) as (_ & x & _ & -> & _);
      [by rewrite Hl|by intros k _; rewrite Nat.sub_0_r|]. by intros [? _]%andb_true_iff.
  - rewrite atomic_same; [done|]. intros c Hc. split.
    + rewrite (mask_length _ _ _ _ _ _ _ HM). by apply chain_bounds, (identify_chains _ (Some estimator)).
    + intros k. by apply (mask_atomic _ _ _ _ _ _ HM).
Qed.

(** Completed chains go oldest first. *)
Lemma older_dropped ds c d i j :
  ds `prefix_of` finished cs -> c ∈ finished cs -> in_chain c i = true -> in_chain d j = true -> (i < j)%nat ->
  d ∈ ds -> c ∈ ds.
Proof.
  intros [rest E] Hc Hi Hj Hij Hd. rewrite E in Hc. apply elem_of_app in Hc as [|Hc]; [done|exfalso].
  assert (StronglySorted ordered (finished cs)) as Hso.
  { unfold finished. apply StronglySorted_filter_list, identify_ordered. }
  rewrite E in Hso. apply (StronglySorted_app_1_elem_of ordered ds rest d c) in Hso; [|done..].
  apply in_chain_bounds in Hi, Hj. unfold ordered in Hso. lia.
Qed.

(** Something is kept before the fallback. *)
Lemma trimmed_kept keep cc ds cut :
  mask_spec msgs budget estimator keep cc ds cut -> kept keep cut = true ->
  (counts estimator msgs -> cc <= budget -> total estimator (select keep msgs) <= budget) -> trimmed keep.
Proof.
  intros HM Hkc Hfit. pose proof (mask_kept _ _ _ _ _ _ _ HM) as Hk.
  assert (Hsub : ds ⊆ finished cs) by (destruct (mask_chains _ _ _ _ _ _ _ HM) as [l ->]; set_solver).
  assert (Hdrop : forall k, in_chains ds k = true -> removable k).
  { intros k (d & Hd & Hdk)%in_chains_true. apply in_chains_true. exists d. auto. }
  split.
  - apply HM.
  - intros c k. by apply (mask_atomic _ _ _ _ _ _ HM).
  - destruct (mask_cut _ _ _ _ _ _ _ HM) as [[Hn _]|(_ & m & Hm & Hu)].
    { rewrite Hk, Hn, (proj2 (Nat.ltb_ge _ _)) in Hkc by lia. done. }
    exists cut, m. split_and!; [done..| |destruct Hu; auto]. intros k Hlt. rewrite Hk.
    by rewrite (proj2 (Nat.leb_gt cut k)), andb_false_r by lia.
  - intros c k [Hlast Hun] Hb. destruct (in_chains ds k) eqn:Ed; [right; auto|left]. rewrite Hk, Ed.
    rewrite (proj2 (Nat.ltb_lt _ _)), (proj2 (Nat.leb_le _ _)); [done| |lia].
    etransitivity; [|apply Hb]. apply (mask_tail _ _ _ _ _ _ _ HM).
    unfold unresolvedProtectFrom, last_chain. by rewrite Hlast, Hun.
  - intros i j Hij Hr. rewrite !Hk. intros [[_ Hi]%andb_true_iff Hci]%andb_true_iff. left.
    apply Nat.leb_le in Hci. rewrite (proj2 (Nat.ltb_lt _ _)), (proj2 (Nat.leb_le _ _)) by lia.
    destruct (in_chains ds j) eqn:Ej; [|done]. exfalso. apply negb_true_iff in Hi.
    pose proof (proj2 Hr (Hdrop _ Ej)) as Hri. apply in_chains_true in Hri as (c & Hc & Hic).
    apply in_chains_true in Ej as (d & Hd & Hjd). apply (older_dropped ds c d i j) in Hd; [|apply HM|done..|lia].
    assert (in_chains ds i = true) by (apply in_chains_true; by exists c). congruence.
  - intros k Hle Hn Hkk j m Hj Hm. destruct (mask_fits _ _ _ _ _ _ _ HM Hle) as [-> Hno].
    rewrite Hk, (proj2 (Nat.ltb_lt _ _) Hn) in Hkk. simpl in Hkk. apply Nat.leb_gt in Hkk.
    apply (Hno j m); [lia|done].
  - intros Hc. destruct (decide (cc <= budget)) as [Hle|Hgt]; [left; by apply Hfit|right; left].
    destruct (mask_over _ _ _ _ _ _ _ HM) as [-> Hp]; [lia|]. intros k Hkk. split; [by apply Hp|].
    unfold removable. rewrite Hk in Hkk. by destruct (in_chains (finished cs) k); [rewrite andb_false_r in Hkk|].
Qed.

(** Nothing is: one message is kept after all. *)
Lemma trimmed_fallback keep cc ds cut :
  mask_spec msgs budget estimator keep cc ds cut -> (forall k, kept keep k = false) -> msgs <> [] ->
  trimmed (<[default (length msgs - 1)%nat (user_before msgs (length msgs)) := true]> keep).
Proof.
  intros HM Hno Hne. set (f := default _ _).
  destruct (mask_cut _ _ _ _ _ _ _ HM) as [[Hcut Hp]|[Hk _]]; [|by rewrite Hno in Hk].
  assert (Hpos : (0 < length msgs)%nat) by (by destruct msgs; [|simpl; lia]).
  assert (Hf : match user_before msgs (length msgs) with Some u => f = u | None => f = (length msgs - 1)%nat end)
    by (unfold f; by destruct (user_before msgs (length msgs))).
  pose proof (user_before_spec msgs (length msgs)) as Hu.
  assert (Hfn : (f < length msgs)%nat) by (destruct (user_before msgs (length msgs)); [destruct Hu|]; lia).
  pose proof (mask_length _ _ _ _ _ _ _ HM) as Hl.
  assert (Hk : forall k, kept (<[f := true]> keep) k = (k =? f)%nat).
  { intros k. rewrite kept_insert, Hno by lia. by destruct (k =? f)%nat. }
  assert (Hlone : lone (<[f := true]> keep) f) by (split; done).
  split; try (intros; right; eauto; fail); eauto.
  - by rewrite length_insert.
  - intros c k Hc Hck. pose proof (fallback_no_chain f c Hp Hne Hf Hc) as Hout.
    pose proof (chain_bounds _ _ (identify_chains _ _ _ Hc)) as Hb.
    assert (forall j, in_chain c j = true -> kept (<[f := true]> keep) j = false) as Hj.
    { intros j Hj. rewrite Hk. destruct (Nat.eqb_spec j f); [congruence|done]. }
    rewrite !Hj; [done|apply in_chain_bounds; lia|done].
  - destruct (lookup_lt_is_Some_2 msgs f Hfn) as [m Hm]. exists f, m. split_and!; [|done| |].
    + rewrite Hk. apply Nat.eqb_refl.
    + intros k Hlt. rewrite Hk. apply Nat.eqb_neq. lia.
    + destruct (user_before msgs (length msgs)) as [u|]; [left|by auto].
      destruct Hu as (_ & m' & Hm' & Hu). subst f. simpl in Hm. congruence.
  - intros c k [Hlast Hun]. pose proof (proj1 (protect_None _ _) Hp c Hlast). congruence.
  - intros k Hle Hn _ j m Hj Hm. destruct (mask_fits _ _ _ _ _ _ _ HM Hle) as [_ Hnu].
    apply (Hnu j m); [lia|done].
Qed.

Theorem trim_keep_spec : msgs <> [] -> trimmed (trim_keep msgs budget estimator).
Proof.
  intros Hne. destruct trim_keep_cases as (keep & cc & ds & cut & HM & Hfit & ->). unfold fallback.
  destruct (existsb id keep) eqn:E; simpl.
  - destruct (mask_cut _ _ _ _ _ _ _ HM) as [[Hcut _]|[Hkc _]]; [exfalso|by eapply trimmed_kept].
    apply existsb_exists in E as ([] & Hin & Hb); [|done]. apply list_elem_of_In, list_elem_of_lookup_1 in Hin as [k Hin].
    pose proof (lookup_lt_Some _ _ _ Hin) as Hlt. pose proof (mask_kept _ _ _ _ _ _ _ HM k) as Hk.
    rewrite (mask_length _ _ _ _ _ _ _ HM) in Hlt. rewrite Hcut, (proj2 (Nat.leb_gt _ _) Hlt), andb_false_r in Hk.
    unfold kept in Hk. by rewrite Hin in Hk.
  - assert (0 <? len msgs = true) as -> by (apply Z.ltb_lt; unfold len; destruct msgs; [done|simpl; lia]).
    eapply trimmed_fallback; [done| |done]. intros k. unfold kept. destruct (keep !! k) as [[]|] eqn:Ek; [|done..].
    exfalso. apply list_elem_of_lookup_2 in Ek. rewrite list_elem_of_In in Ek.
    assert (existsb id keep = true) by (apply existsb_exists; by exists true). congruence.
Qed.
End Promise.

(** ** The answer *)

(** The mask over all messages: system messages are kept. *)
Fixpoint weave (msgs : list Message) (keep : list bool) : list bool :=
  match msgs with
  | [] => []
  | m :: rest => if is_system m then true :: weave rest keep else kept keep 0 :: weave rest (tail keep)
  end.

Lemma select_kept {A} keep (x : A) l :
  select keep (x :: l) = if kept keep 0 then x :: select (tail keep) l else select (tail keep) l.
Proof. destruct keep as [|[] keep]; [|done..]. by destruct l. Qed.

Lemma build_spec msgs estimator : forall keep n c,
  build msgs keep estimator n c =
  (select (weave msgs keep) msgs, n + (len msgs - len (select (weave msgs keep) msgs)),
   fold_left (fun c m => add_cost c (messageCost m estimator)) (select keep (nonSystemMsgs msgs)) c).
Proof.
  induction msgs as [|m msgs IH]; intros keep n c; cbn [build weave].
  { destruct keep; cbn; by rewrite Z.add_0_r. }
  unfold nonSystemMsgs in *. cbn [List.filter]. destruct (is_system m); cbn [negb select].
  - rewrite IH, !len_cons. by replace (1 + len msgs - (1 + len (select (weave msgs keep) msgs)))
      with (len msgs - len (select (weave msgs keep) msgs)) by lia.
  - rewrite select_kept. destruct (kept keep 0); rewrite IH, ?len_cons.
    + by replace (1 + len msgs - (1 + len (select (weave msgs (tail keep)) msgs)))
        with (len msgs - len (select (weave msgs (tail keep)) msgs)) by lia.
    + by replace (n + 1 + (len msgs - len (select (weave msgs (tail keep)) msgs)))
        with (n + (1 + len msgs - len (select (weave msgs (tail keep)) msgs))) by lia.
Qed.

Lemma select_weave msgs : forall keep,
  systemMsgs (select (weave msgs keep) msgs) = systemMsgs msgs /\
  nonSystemMsgs (select (weave msgs keep) msgs) = select keep (nonSystemMsgs msgs).
Proof.
  unfold systemMsgs, nonSystemMsgs. induction msgs as [|m msgs IH]; intros keep; [by destruct keep|].
  cbn [weave List.filter]. destruct (is_system m) eqn:E; cbn [negb select].
  - cbn [List.filter]. rewrite E. cbn [negb]. destruct (IH keep) as [-> ->]. done.
  - rewrite select_kept. destruct (IH (tail keep)) as [IH1 IH2]. destruct (kept keep 0); cbn [List.filter]; rewrite ?E; cbn [negb].
    + by rewrite IH1, IH2.
    + by rewrite IH1, IH2.
Qed.

Lemma total_split estimator msgs : total estimator msgs = total estimator (systemMsgs msgs) + total estimator (nonSystemMsgs msgs).
Proof.
  unfold systemMsgs, nonSystemMsgs. induction msgs as [|m msgs IH]; [done|].
  cbn [List.filter]. destruct (is_system m); cbn [negb]; rewrite !total_cons; lia.
Qed.

Lemma counts_filter estimator f msgs :
  counts estimator msgs -> counts estimator (List.filter f msgs).
Proof.
  intros [Hn Hs]. split; [intros m Hm; apply Hn; apply list_elem_of_In, filter_In in Hm as [? _]; by apply list_elem_of_In|].
  etransitivity; [|exact Hs]. clear Hs. induction msgs as [|m msgs IH]; [done|].
  specialize (IH ltac:(intros t Ht; apply Hn; by right)). pose proof (Hn m ltac:(by left)).
  cbn [List.filter]. destruct (f m); rewrite !total_cons || rewrite total_cons; lia.
Qed.

Lemma all_system msgs : nonSystemMsgs msgs = [] -> systemMsgs msgs = msgs /\ select (weave msgs []) msgs = msgs.
Proof.
  unfold nonSystemMsgs, systemMsgs. induction msgs as [|m msgs IH]; [done|]. cbn [weave List.filter].
  destruct (is_system m); [|done]. cbn [negb select]. intros H. by destruct (IH H) as [-> ->].
Qed.

Lemma TrimMessages_eq msgs maxTokens estimator :
  TrimMessages msgs maxTokens (Some estimator) =
  Some (match nonSystemMsgs msgs with
        | [] => mkTrimResult (systemMsgs msgs) 0 (costs (systemMsgs msgs) estimator)
        | _ :: _ =>
            let keep := trim_keep (nonSystemMsgs msgs) (trim_budget maxTokens (costs (systemMsgs msgs) estimator)) estimator in
            let '(result, trimmedCount, keptCost) := build msgs keep estimator 0 (costs (systemMsgs msgs) estimator) in
            mkTrimResult result trimmedCount keptCost
        end).
Proof.
  unfold TrimMessages. f_equal. destruct msgs as [|m msgs]; [done|]. rewrite len_cons.
  destruct (Z.eqb_spec (1 + len msgs) 0); [pose proof (len_nonneg msgs); lia|].
  destruct (nonSystemMsgs (m :: msgs)) as [|x ns]; [done|]. rewrite len_cons.
  by destruct (Z.eqb_spec (1 + len ns) 0); [pose proof (len_nonneg ns); lia|].
Qed.

(** TrimMessages keeps every system message in place and, of the others, a
    mask that meets [trimmed]: tool calls stay with their results, the first
    message is a user's unless an unresolved chain no user started comes first,
    the unresolved tail loses completed chains only, older goes before newer,
    and what fits loses nothing after the first user.  The counts reported are
    exact; the answer fits the window unless the system messages alone do not,
    or only the unresolved tail or the one fallback message is left. *)
Theorem trim_messages_safe msgs maxTokens estimator r :
  TrimMessages msgs maxTokens (Some estimator) = Some r ->
  exists keep, Messages r = select (weave msgs keep) msgs /\
    systemMsgs (Messages r) = systemMsgs msgs /\
    nonSystemMsgs (Messages r) = select keep (nonSystemMsgs msgs) /\
    (nonSystemMsgs msgs <> [] ->
     trimmed (nonSystemMsgs msgs) (trim_budget maxTokens (costs (systemMsgs msgs) estimator)) estimator keep) /\
    TrimmedCount r = len msgs - len (Messages r) /\
    (counts estimator msgs -> 0 <= maxTokens <= MaxInt ->
     EstimatedTokens r = total estimator (Messages r) /\
     (EstimatedTokens r <= Z.max maxTokens (total estimator (systemMsgs msgs)) \/
      (forall k, kept keep k = true ->
         protected (unresolvedProtectFrom (nonSystemMsgs msgs) (identifyToolChains (nonSystemMsgs msgs) (Some estimator))) k = true /\
         ~ removable (nonSystemMsgs msgs) estimator k) \/
      exists f, lone (nonSystemMsgs msgs) keep f)).
Proof.
  rewrite TrimMessages_eq. intros [= <-]. destruct (nonSystemMsgs msgs) as [|x ns] eqn:Ens.
  { destruct (all_system _ Ens) as [Hsys Hall]. exists []. rewrite Hsys, Hall. cbn [Messages TrimmedCount EstimatedTokens].
    rewrite Hsys. split_and!; try done; [lia|].
    intros Hc _. rewrite (costs_exact msgs estimator Hc) by (try done; apply Hc). split; [done|left; lia]. }
  rewrite <- Ens. set (keep := trim_keep _ _ _). exists keep. rewrite build_spec. cbn [Messages TrimmedCount EstimatedTokens].
  destruct (select_weave msgs keep) as [Hsys Hns]. rewrite Hsys, Hns.
  assert (Htr : trimmed (nonSystemMsgs msgs) (trim_budget maxTokens (costs (systemMsgs msgs) estimator)) estimator keep)
    by (apply trim_keep_spec; by rewrite Ens).
  split_and!; [done|done|done|done|lia|].
  intros Hc Hmax. pose proof (counts_filter estimator is_system msgs Hc) as Hcs. pose proof (counts_filter estimator _ msgs Hc : counts estimator (nonSystemMsgs msgs)) as Hcn.
  rewrite (total_split estimator (select _ _)), Hsys, Hns.
  assert (costs (systemMsgs msgs) estimator = total estimator (systemMsgs msgs)) as Ecs
    by (apply (costs_exact (systemMsgs msgs)); [done..|apply Hcs]).
  pose proof (total_split estimator msgs) as Hsplit. destruct Hc as [Hn Hs].
  pose proof (total_nonneg estimator (systemMsgs msgs) (proj1 Hcs)). pose proof (mask_cost_int (nonSystemMsgs msgs) estimator Hcn keep) as Hmc.
  pose proof (select_total estimator keep (nonSystemMsgs msgs) (proj1 Hcn)) as Hsel.
  clearbody keep. rewrite Ecs in Htr |- *.
  rewrite fold_costs; [|intros m Hm; by apply (proj1 Hcn), (select_In keep)|lia|lia].
  split; [done|].
  destruct (trimmed_fits _ _ _ _ Htr Hcn) as [Hfit|Hrest]; [left|by right].
  revert Hfit. unfold trim_budget. rewrite wrap_int_id by (unfold in_int, MinInt, MaxInt in *; lia).
  destruct (Z.ltb_spec (maxTokens - total estimator (systemMsgs msgs)) 0); lia.
Qed.

Definition by_length (s : string) : Z := Z.of_nat (String.length s).

(** A question answered through a tool, and a new question. *)
Definition example_thread : list Message :=
  [mkMessage "system" "be brief" "" "" ""; mkMessage "user" "q1" "" "" "";
   mkMessage "assistant" "" "[call]" "" ""; mkMessage "tool" "result" "" "read" "1";
   mkMessage "assistant" "a1" "" "" ""; mkMessage "user" "q2" "" "" ""].

Lemma trim_messages_safe_witness :
  exists r, TrimMessages example_thread 14 (Some by_length) = Some r /\
    map Role (Messages r) = ["system"; "user"; "assistant"; "user"]%string /\
    EstimatedTokens r = total by_length (Messages r) /\ EstimatedTokens r <= 14.
Proof.
  eexists. split; [reflexivity|]. split; [reflexivity|].
  destruct (trim_messages_safe example_thread 14 by_length _ eq_refl) as (keep & _ & _ & _ & _ & _ & H).
  destruct H as [H _]; [split|by unfold MaxInt|split; [exact H|by vm_compute]].
  - intros m Hm. repeat (apply elem_of_cons in Hm as [->|Hm]; [by vm_compute|]). by apply elem_of_nil in Hm.
  - by vm_compute.
Defined.
