(* ===== verification/Compress.v ===== *)
(** * Compress: exchanges and the durable summary (conversation/trim.go, compress.go)

    A conversation is shortened to its most recent exchanges, a user's message
    up to the assistant's answer, and what falls out of the window is folded
    into a durable summary.  The summarizer, the cost of a message and
    [strings.TrimSpace] are arguments. *)

From stdpp Require Import strings.
From S2P Require Import Prelude Trim.

#[local] Open Scope Z_scope.

(** ** TrimByExchanges *)

Record exchange := mkExchange { ex_start : nat; ex_end : nat }.

(** [orig]: where the messages that are not system messages stand. *)
Fixpoint orig_from (i : nat) (msgs : list Message) : list nat :=
  match msgs with
  | [] => []
  | m :: rest => if is_system m then orig_from (S i) rest else i :: orig_from (S i) rest
  end.

(** [unresolvedStart], [None] for -1. *)
Definition unresolvedStart (nonSystem : list Message) : option nat :=
  match last (identifyToolChains nonSystem None) with
  | Some lastChain => if negb (completed lastChain) then Some (start lastChain) else None
  | None => None
  end.

(** Down to the message after a user's, then to the user's. *)
Fixpoint back_to_user (nonSystem : list Message) (resolvedEnd : nat) : nat :=
  match resolvedEnd with
  | O => O
  | S e => match nonSystem !! e with
           | Some m => if negb (is_user m) then back_to_user nonSystem e else S e
           | None => back_to_user nonSystem e
           end
  end.

Definition resolvedEnd (nonSystem : list Message) : nat :=
  match unresolvedStart nonSystem with
  | Some s => pred (back_to_user nonSystem s)
  | None => length nonSystem
  end.

(** How far the answer is. *)
Fixpoint find_answer (msgs : list Message) : option nat :=
  match msgs with
  | [] => None
  | m :: rest => if answers m then Some O else option_map S (find_answer rest)
  end.

(** The loop from message [i] on; without an answer it runs to the end. *)
Fixpoint exchanges_from (fuel i : nat) (msgs : list Message) : list exchange :=
  match fuel, msgs with
  | S fuel, m :: rest =>
      if negb (is_user m) then exchanges_from fuel (S i) rest
      else match find_answer rest with
           | Some d => let j := (S i + d)%nat in
                       mkExchange i j :: exchanges_from fuel (S j) (drop (S d) rest)
           | None => []
           end
  | _, _ => []
  end.

Definition exchanges_of (nonSystem : list Message) : list exchange :=
  exchanges_from (length nonSystem) 0 (take (resolvedEnd nonSystem) nonSystem).

Definition keepFrom (maxExchanges : Z) (exchanges : list exchange) : nat :=
  if (0 <=? maxExchanges) && (maxExchanges <? len exchanges) then Z.to_nat (len exchanges - maxExchanges) else 0%nat.

(** [keep[orig[k]] = true] for every [k] of the list. *)
Definition set_orig (orig : list nat) (ks : list nat) (keep : list bool) : list bool :=
  fold_left (fun keep k => match orig !! k with Some i => <[i := true]> keep | None => keep end) ks keep.

(** The tail: from the user who started the unresolved chain. *)
Definition tailStart (nonSystem : list Message) (s : nat) : nat := default s (user_before nonSystem s).

Definition trimByExchangesKeep (msgs : list Message) (maxExchanges : Z) : list bool :=
  let keep := map is_system msgs in
  let nonSystem := nonSystemMsgs msgs in
  let orig := orig_from 0 msgs in
  if len nonSystem =? 0 then keep
  else
    let exchanges := exchanges_of nonSystem in
    let keep := fold_left (fun keep ex => set_orig orig (seq (ex_start ex) (S (ex_end ex) - ex_start ex)) keep)
                  (drop (keepFrom maxExchanges exchanges) exchanges) keep in
    match unresolvedStart nonSystem with
    | Some s => let t := tailStart nonSystem s in
                set_orig orig (seq t (length nonSystem - t)) keep
    | None => keep
    end.

(** The messages kept, and how many are not. *)
Fixpoint pick (msgs : list Message) (keep : list bool) (trimmedCount : Z) : list Message * Z :=
  match msgs with
  | [] => ([], trimmedCount)
  | m :: rest =>
      if kept keep 0
      then let '(result, n) := pick rest (tail keep) trimmedCount in (m :: result, n)
      else pick rest (tail keep) (trimmedCount + 1)
  end.

Definition TrimByExchanges (msgs : list Message) (maxExchanges : Z) : TrimResult :=
  if len msgs =? 0 then mkTrimResult [] 0 0
  else
    let keep := trimByExchangesKeep msgs maxExchanges in
    let '(result, trimmedCount) := pick msgs keep 0 in
    mkTrimResult result trimmedCount 0.

(** ** Compression *)

Record DurableSummary := mkSummary { SummaryContent : string; MessageCount : Z }.

Record Conversation := mkConversation {
  ID : string; Title : string; ConvMessages : list Message; Durable : option DurableSummary;
  Revision : Z; CreatedAt : Z; UpdatedAt : Z
}.

Inductive compressError := errNilSummarizer | ErrEmptySummary | ErrSummarizer (err : string).

Definition Summarizer := string -> list Message -> result string string.

(** [rawCost]: what is not a system message. *)
Fixpoint rawCost (msgs : list Message) (cost : Message -> Z) (n : Z) : Z :=
  match msgs with
  | [] => n
  | m :: rest => rawCost rest cost (if negb (is_system m) then add_cost n (cost m) else n)
  end.

Fixpoint keptRawCost (msgs : list Message) (keep : list bool) (cost : Message -> Z) (n : Z) : Z :=
  match msgs with
  | [] => n
  | m :: rest => keptRawCost rest (tail keep) cost (if kept keep 0 && negb (is_system m) then add_cost n (cost m) else n)
  end.

Definition sameKeepMask (a b : list bool) : bool := bool_decide (a = b).

(** The retained window grows from the floor.  [None]: the fuel ran out. *)
Fixpoint grow (fuel : nat) (msgs : list Message) (cost : Message -> Z) (maxTokens : Z) (next : Z) (keep : list bool) :
    option (list bool) :=
  match fuel with
  | O => None
  | S fuel =>
      let grown := trimByExchangesKeep msgs next in
      if sameKeepMask grown keep then Some keep
      else if maxTokens <? keptRawCost msgs grown cost 0 then Some keep
      else grow fuel msgs cost maxTokens (next + 1) grown
  end.

(** What stays, and what is folded into the summary. *)
Fixpoint partition_kept (msgs : list Message) (keep : list bool) : list Message * list Message :=
  match msgs with
  | [] => ([], [])
  | m :: rest =>
      let '(recent, old) := partition_kept rest (tail keep) in
      if negb (kept keep 0) && negb (is_system m) then (recent, m :: old) else (m :: recent, old)
  end.

Section Compress.
Context (TrimSpace : string -> string).

Definition blank (s : string) : bool := bool_decide (TrimSpace s = EmptyString).

(** Rounds of the growing loop: one for each exchange, and the last. *)
Definition grow_fuel (msgs : list Message) : nat := S (S (length msgs)).

(** [None] is the panic on a nil cost function, or fuel. *)
Definition CompressMessagesWithCost (conv : Conversation) (maxTokens minRecentExchanges : Z)
    (cost : option (Message -> Z)) (summarize : option Summarizer) : option (result compressError Conversation) :=
  match cost with
  | None => None
  | Some cost =>
      match summarize with
      | None => Some (Err errNilSummarizer)
      | Some summarize =>
          let '(prior, priorCount) := match Durable conv with
                                      | Some d => (SummaryContent d, MessageCount d)
                                      | None => (EmptyString, 0)
                                      end in
          let hasPrior := negb (blank prior) in
          if (rawCost (ConvMessages conv) cost 0 <=? maxTokens) && negb hasPrior then Some (Ok conv)
          else
            let minRecentExchanges := if minRecentExchanges <? 0 then 0 else minRecentExchanges in
            keep ← grow (grow_fuel (ConvMessages conv)) (ConvMessages conv) cost maxTokens (minRecentExchanges + 1)
                     (trimByExchangesKeep (ConvMessages conv) minRecentExchanges);
            let '(recent, old) := partition_kept (ConvMessages conv) keep in
            if (len old =? 0) && negb hasPrior then Some (Ok conv)
            else
              match summarize prior old with
              | Err err => Some (Err (ErrSummarizer err))
              | Ok newSummary =>
                  if blank newSummary then Some (Err ErrEmptySummary)
                  else Some (Ok (mkConversation (ID conv) (Title conv) recent
                                   (Some (mkSummary (TrimSpace newSummary) (wrap_int (priorCount + len old))))
                                   (Revision conv) (CreatedAt conv) (UpdatedAt conv)))
              end
      end
  end.

Definition CompressMessages (conv : Conversation) (maxTokens minRecentExchanges : Z)
    (estimator : option TokenEstimator) (summarize : option Summarizer) : option (result compressError Conversation) :=
  match estimator with
  | None => None
  | Some estimator =>
      CompressMessagesWithCost conv maxTokens minRecentExchanges (Some (fun m => messageCost m estimator)) summarize
  end.
End Compress.

(** ** Masks through [orig] *)

Lemma orig_bound msgs : forall i k j, orig_from i msgs !! k = Some j -> (i <= j < i + length msgs)%nat.
Proof.
  induction msgs as [|m msgs IH]; intros i k j; simpl; [done|]. destruct (is_system m).
  - intros H. apply IH in H. lia.
  - destruct k as [|k]; simpl; [intros [= <-]; lia|]. intros H. apply IH in H. lia.
Qed.

Lemma orig_inj msgs : forall i k k' j, orig_from i msgs !! k = Some j -> orig_from i msgs !! k' = Some j -> k = k'.
Proof.
  induction msgs as [|m msgs IH]; intros i k k' j; simpl; [done|]. destruct (is_system m); [apply IH|].
  destruct k as [|k], k' as [|k']; simpl; [done|..].
  - intros [= <-] H. apply orig_bound in H. lia.
  - intros H [= <-]. apply orig_bound in H. lia.
  - intros H1 H2. f_equal. by eapply IH.
Qed.

Lemma length_orig msgs : forall i, length (orig_from i msgs) = length (nonSystemMsgs msgs).
Proof.
  unfold nonSystemMsgs. induction msgs as [|m msgs IH]; intros i; simpl; [done|].
  destruct (is_system m); simpl; by rewrite IH.
Qed.

Lemma length_weave msgs : forall keep, length (weave msgs keep) = length msgs.
Proof. induction msgs as [|m msgs IH]; intros keep; simpl; [done|]. destruct (is_system m); simpl; by rewrite IH. Qed.

(** The woven mask holds the mask of the others where [orig] says they stand. *)
Lemma weave_kept msgs : forall keep i j m, msgs !! j = Some m ->
  if is_system m then kept (weave msgs keep) j = true
  else exists k, orig_from i msgs !! k = Some (i + j)%nat /\ kept (weave msgs keep) j = kept keep k.
Proof.
  induction msgs as [|x msgs IH]; intros keep i [|j] m; simpl; [done..| |].
  - intros [= ->]. destruct (is_system m); [done|]. exists 0%nat. simpl. by rewrite Nat.add_0_r.
  - intros Hm. destruct (is_system x).
    + specialize (IH keep (S i) j m Hm). destruct (is_system m); [done|].
      destruct IH as (k & Hk & E). exists k. by rewrite Nat.add_succ_r.
    + specialize (IH (tail keep) (S i) j m Hm). destruct (is_system m); [done|].
      destruct IH as (k & Hk & E). exists (S k). simpl. rewrite Nat.add_succ_r. split; [done|].
      change (kept (weave msgs (tail keep)) j = kept keep (S k)). rewrite E. by destruct keep.
Qed.

Lemma set_orig_spec msgs ks : forall keep, length keep = length msgs ->
  length (set_orig (orig_from 0 msgs) ks keep) = length msgs /\
  forall j, kept (set_orig (orig_from 0 msgs) ks keep) j =
    kept keep j || existsb (fun k => bool_decide (orig_from 0 msgs !! k = Some j)) ks.
Proof.
  unfold set_orig. induction ks as [|k ks IH]; intros keep Hl; simpl; [split; [done|]; intros j; by rewrite orb_false_r|].
  destruct (orig_from 0 msgs !! k) as [i|] eqn:E.
  - apply orig_bound in E as Hb. destruct (IH (<[i := true]> keep)) as [H1 H2]; [by rewrite length_insert|].
    split; [done|]. intros j. rewrite H2, kept_insert by lia.
    destruct (Nat.eqb_spec j i) as [->|Hne]; [rewrite bool_decide_true by done; by rewrite !orb_true_r|].
    rewrite (bool_decide_false (Some i = Some j)) by congruence. done.
  - destruct (IH keep Hl) as [H1 H2]. split; [done|]. intros j. rewrite H2. by rewrite bool_decide_false.
Qed.

(** ** The window *)

(** Whether message [k] of those that are not system messages is kept. *)
Definition window (nonSystem : list Message) (maxExchanges : Z) (k : nat) : bool :=
  existsb (fun ex => within (ex_start ex) (ex_end ex) k)
    (drop (keepFrom maxExchanges (exchanges_of nonSystem)) (exchanges_of nonSystem)) ||
  match unresolvedStart nonSystem with Some s => (tailStart nonSystem s <=? k)%nat | None => false end.

Definition window_mask (nonSystem : list Message) (maxExchanges : Z) : list bool :=
  map (window nonSystem maxExchanges) (seq 0 (length nonSystem)).

Lemma kept_map_seq f n k : kept (map f (seq 0 n)) k = (k <? n)%nat && f k.
Proof.
  unfold kept. rewrite list_lookup_fmap. destruct (Nat.ltb_spec k n) as [H|H].
  - by rewrite lookup_seq_lt.
  - by rewrite lookup_seq_ge.
Qed.

Lemma set_exchanges_spec msgs exs : forall keep, length keep = length msgs ->
  let keep' := fold_left (fun keep ex => set_orig (orig_from 0 msgs) (seq (ex_start ex) (S (ex_end ex) - ex_start ex)) keep) exs keep in
  length keep' = length msgs /\
  forall j, kept keep' j = kept keep j ||
    existsb (fun ex => existsb (fun k => bool_decide (orig_from 0 msgs !! k = Some j)) (seq (ex_start ex) (S (ex_end ex) - ex_start ex))) exs.
Proof.
  induction exs as [|ex exs IH]; intros keep Hl; simpl; [split; [done|]; intros j; by rewrite orb_false_r|].
  destruct (set_orig_spec msgs (seq (ex_start ex) (S (ex_end ex) - ex_start ex)) keep Hl) as [H1 H2].
  destruct (IH _ H1) as [H3 H4]. split; [exact H3|]. intros j. rewrite H4, H2. by rewrite orb_assoc.
Qed.

(** The index [k] of a message stands for it among some indices. *)
Lemma orig_exists msgs ks k j : orig_from 0 msgs !! k = Some j ->
  existsb (fun k => bool_decide (orig_from 0 msgs !! k = Some j)) ks = bool_decide (k ∈ ks).
Proof.
  intros Hk. apply Bool.eq_true_iff_eq. rewrite existsb_exists, bool_decide_eq_true. split.
  - intros (k' & Hin & E%bool_decide_eq_true). rewrite (orig_inj msgs 0 k k' j) by done. by apply list_elem_of_In.
  - intros H. exists k. split; [by apply list_elem_of_In|by apply bool_decide_eq_true].
Qed.

Lemma elem_of_range s e k : bool_decide (k ∈ seq s (S e - s)) = within s e k.
Proof.
  apply Bool.eq_true_iff_eq. unfold within. rewrite bool_decide_eq_true, elem_of_seq, andb_true_iff, !Nat.leb_le. lia.
Qed.

Lemma existsb_ext {A} (f g : A -> bool) l : (forall x, f x = g x) -> existsb f l = existsb g l.
Proof. intros H. induction l; simpl; congruence. Qed.

Lemma trimByExchangesKeep_window msgs n :
  trimByExchangesKeep msgs n = weave msgs (window_mask (nonSystemMsgs msgs) n).
Proof.
  set (ns := nonSystemMsgs msgs).
  assert (Hl0 : length (map is_system msgs) = length msgs) by apply length_map.
  destruct (set_exchanges_spec msgs (drop (keepFrom n (exchanges_of ns)) (exchanges_of ns)) _ Hl0) as [Hl1 Hk1].
  set (keep1 := fold_left _ _ _) in *.
  set (ks := match unresolvedStart ns with Some s => seq (tailStart ns s) (length ns - tailStart ns s) | None => [] end).
  assert (E : trimByExchangesKeep msgs n = if len ns =? 0 then map is_system msgs else set_orig (orig_from 0 msgs) ks keep1).
  { unfold trimByExchangesKeep, ks. fold ns keep1. by destruct (unresolvedStart ns). }
  destruct (set_orig_spec msgs ks keep1 Hl1) as [Hl2 Hk2]. rewrite E. apply kept_ext.
  { rewrite length_weave. by destruct (len ns =? 0). }
  intros j. destruct (msgs !! j) as [m|] eqn:Em.
  2: { apply lookup_ge_None_1 in Em. assert (forall keep, length keep = length msgs -> kept keep j = false) as Hout.
       { intros keep Hl. unfold kept. by rewrite lookup_ge_None_2 by (rewrite Hl; done). }
       rewrite !Hout; [done|by rewrite length_weave|by destruct (len ns =? 0)]. }
  pose proof (weave_kept msgs (window_mask ns n) 0 j m Em) as Hw.
  assert (Hsys : kept (map is_system msgs) j = is_system m) by (unfold kept; by rewrite list_lookup_fmap, Em).
  destruct (is_system m).
  { rewrite Hw. destruct (len ns =? 0); [done|]. by rewrite Hk2, Hk1, Hsys. }
  destruct Hw as (k & Hk & ->). simpl in Hk. apply lookup_lt_Some in Hk as Hkn. rewrite length_orig in Hkn. fold ns in Hkn.
  destruct (Z.eqb_spec (len ns) 0); [unfold len in *; lia|].
  rewrite Hk2, Hk1, Hsys, (orig_exists msgs ks k j Hk). unfold window_mask. rewrite kept_map_seq.
  rewrite (proj2 (Nat.ltb_lt _ _) Hkn). cbn [orb andb]. unfold window. f_equal.
  - apply existsb_ext. intros ex. rewrite (orig_exists msgs _ k j Hk). apply elem_of_range.
  - unfold ks. destruct (unresolvedStart ns) as [s|]; [|done]. apply Bool.eq_true_iff_eq.
    rewrite bool_decide_eq_true, elem_of_seq, Nat.leb_le. lia.
Qed.

(** ** Exchanges *)

(** What an exchange of a transcript is: a user's message up to the next answer. *)
Record exchange_of (msgs : list Message) (ex : exchange) : Prop := {
  exchange_bounds : (ex_start ex < ex_end ex)%nat;
  exchange_user : exists m, msgs !! ex_start ex = Some m /\ is_user m = true;
  exchange_answer : exists m, msgs !! ex_end ex = Some m /\ answers m = true;
  exchange_first k m : (ex_start ex < k < ex_end ex)%nat -> msgs !! k = Some m -> answers m = false
}.

Lemma find_answer_spec msgs :
  match find_answer msgs with
  | Some d => (exists m, msgs !! d = Some m /\ answers m = true) /\
              forall k m, (k < d)%nat -> msgs !! k = Some m -> answers m = false
  | None => forall k m, msgs !! k = Some m -> answers m = false
  end.
Proof.
  induction msgs as [|x msgs IH]; simpl; [done|]. destruct (answers x) eqn:E; [split; [eauto|lia]|].
  destruct (find_answer msgs) as [d|]; simpl.
  - destruct IH as [H1 H2]. split; [done|]. intros [|k] m Hk Hm; simpl in Hm; [congruence|apply (H2 k); [lia|done]].
  - intros [|k] m Hm; simpl in Hm; [congruence|by apply (IH k)].
Qed.

Definition ex_ordered (a b : exchange) : Prop := (ex_end a < ex_start b)%nat.

Lemma exchanges_from_spec fuel : forall pre msgs, (length msgs <= fuel)%nat ->
  let exs := exchanges_from fuel (length pre) msgs in
  Forall (exchange_of (pre ++ msgs)) exs /\
  Forall (fun ex => length pre <= ex_start ex)%nat exs /\
  StronglySorted ex_ordered exs /\
  (forall u a m m', (length pre <= u < a)%nat -> (pre ++ msgs) !! u = Some m -> is_user m = true ->
     (pre ++ msgs) !! a = Some m' -> answers m' = true ->
     (forall k t, (u < k < a)%nat -> (pre ++ msgs) !! k = Some t -> answers t = false) ->
     exists ex, ex ∈ exs /\ ex_end ex = a /\ (ex_start ex <= u)%nat).
Proof.
  induction fuel as [|fuel IH]; intros pre [|x msgs] Hf; simpl in Hf; try lia;
    try (split_and!; [constructor..|]; intros u a m m' Hu _ _ Ha _ _; apply lookup_lt_Some in Ha; rewrite length_app in Ha; simpl in Ha; lia).
  cbn [exchanges_from]. destruct (is_user x) eqn:Ex; cbn [negb].
  - pose proof (find_answer_spec msgs) as Hans. destruct (find_answer msgs) as [d|].
    + destruct Hans as [(t & Ht & Hta) Hno]. apply lookup_lt_Some in Ht as Hd.
      assert (E : pre ++ x :: msgs = (pre ++ x :: take (S d) msgs) ++ drop (S d) msgs).
      { rewrite <- app_assoc. simpl. by rewrite take_drop. }
      assert (Hlen : length (pre ++ x :: take (S d) msgs) = S (S (length pre) + d)) by (rewrite length_app; simpl; rewrite length_take; lia).
      destruct (IH (pre ++ x :: take (S d) msgs) (drop (S d) msgs)) as (H1 & H2 & H3 & H4); [rewrite length_drop; lia|].
      rewrite <- E, Hlen in H1, H4. rewrite Hlen in H2, H3.
      assert (Hlk : forall k, (pre ++ x :: msgs) !! (S (length pre) + k)%nat = msgs !! k).
      { intros k. rewrite lookup_app_r by lia. by replace (S (length pre) + k - length pre)%nat with (S k) by lia. }
      assert (Hex : exchange_of (pre ++ x :: msgs) (mkExchange (length pre) (S (length pre) + d))).
      { split; cbn [ex_start ex_end]; [lia|exists x; by rewrite list_lookup_middle|exists t; by rewrite Hlk|].
        intros k m Hk. replace k with (S (length pre) + (k - S (length pre)))%nat by lia. rewrite Hlk. apply Hno. lia. }
      split_and!.
      * by constructor.
      * constructor; [simpl; lia|]. eapply Forall_impl; [exact H2|]. simpl. lia.
      * constructor; [done|]. eapply Forall_impl; [exact H2|]. unfold ex_ordered. simpl. lia.
      * intros u a m m' Hu Hm Hmu Ha Hma Hbtw. destruct (decide (S (S (length pre) + d) <= u)%nat) as [Hle|Hgt].
        { destruct (H4 u a m m') as (ex & Hin & ? & ?); [lia|done..|]. exists ex. split; [by right|done]. }
        eexists. split; [by left|]. cbn [ex_start ex_end]. split; [|lia].
        destruct (lt_eq_lt_dec a (S (length pre) + d)) as [[Hlt|]|Hlt]; [exfalso|done|exfalso].
        { replace a with (S (length pre) + (a - S (length pre)))%nat in Ha by lia. rewrite Hlk in Ha.
          rewrite (Hno (a - S (length pre))%nat m' ltac:(lia) Ha) in Hma. done. }
        destruct (decide (u = (S (length pre) + d)%nat)) as [->|].
        { rewrite Hlk, Ht in Hm. injection Hm as <-. revert Hmu Hta. unfold is_user, answers, is_role. repeat case_bool_decide; try done. congruence. }
        rewrite (Hbtw (S (length pre) + d)%nat t) in Hta; [done|lia|by rewrite Hlk].
    + split_and!; [constructor..|]. intros u a m m' Hu Hm Hmu Ha Hma Hbtw. exfalso.
      rewrite lookup_app_r in Ha by lia. destruct (a - length pre)%nat as [|k] eqn:Ek; [lia|]. simpl in Ha.
      rewrite (Hans k m' Ha) in Hma. done.
  - destruct (IH (pre ++ [x]) msgs) as (H1 & H2 & H3 & H4); [lia|]. rewrite <- app_assoc in H1, H4.
    rewrite length_app in H1, H2, H3, H4. simpl in H1, H2, H3, H4. rewrite Nat.add_1_r in H1, H2, H3, H4. split_and!; try done.
    + eapply Forall_impl; [exact H2|]. simpl. lia.
    + intros u a m m' Hu Hm Hmu. destruct (decide (u = length pre)) as [->|Hne].
      { rewrite list_lookup_middle in Hm by done. congruence. }
      intros Ha Hma Hb. apply (H4 u a m m'); [lia|done..].
Qed.

Lemma unresolvedStart_spec ns s :
  unresolvedStart ns = Some s <-> exists c, unresolved (identifyToolChains ns None) c /\ start c = s.
Proof.
  unfold unresolvedStart, unresolved. destruct (last _) as [c|]; [|naive_solver].
  destruct (completed c) eqn:E; naive_solver congruence.
Qed.

Lemma back_to_user_spec ns s : pred (back_to_user ns s) = match user_before ns s with Some u => u | None => 0%nat end.
Proof.
  induction s as [|s IH]; simpl; [done|]. destruct (ns !! s) as [m|]; [|done]. by destruct (is_user m); cbn [negb].
Qed.

(** Below the unresolved tail, when there is one. *)
Lemma resolvedEnd_le ns : (resolvedEnd ns <= match unresolvedStart ns with Some s => tailStart ns s | None => length ns end)%nat.
Proof.
  unfold resolvedEnd. destruct (unresolvedStart ns) as [s|]; [|done]. rewrite back_to_user_spec. unfold tailStart.
  destruct (user_before ns s); simpl; lia.
Qed.

Lemma exchanges_of_spec ns :
  (forall ex, ex ∈ exchanges_of ns -> exchange_of ns ex /\ (ex_end ex < resolvedEnd ns)%nat) /\
  StronglySorted ex_ordered (exchanges_of ns) /\
  (forall u a m m', (u < a < resolvedEnd ns)%nat -> ns !! u = Some m -> is_user m = true ->
     ns !! a = Some m' -> answers m' = true ->
     (forall k t, (u < k < a)%nat -> ns !! k = Some t -> answers t = false) ->
     exists ex, ex ∈ exchanges_of ns /\ ex_end ex = a /\ (ex_start ex <= u)%nat).
Proof.
  destruct (exchanges_from_spec (length ns) [] (take (resolvedEnd ns) ns)) as (H1 & _ & H3 & H4).
  { rewrite length_take. lia. }
  simpl in H1, H4. rewrite Forall_forall in H1. split_and!; [|exact H3|].
  - intros ex Hin. destruct (H1 ex Hin) as [Hb (m & Hm & Hu) (m' & Hm' & Ha) Hf].
    apply lookup_take_Some in Hm as [Hm _], Hm' as [Hm' Hlt]. split; [|done]. split; [done|eauto..|].
    intros k t Hk Ht. apply (Hf k); [done|]. rewrite lookup_take_lt; [done|lia].
  - intros u a m m' Hu Hm Hmu Ha Hma Hbtw. apply (H4 u a m m'); try done; [lia|by rewrite lookup_take_lt by lia..|].
    intros k t Hk. rewrite lookup_take_lt by lia. by apply Hbtw.
Qed.

(** An answer is in no chain. *)
Lemma answer_not_in_chain ns e c k m :
  c ∈ identifyToolChains ns e -> ns !! k = Some m -> answers m = true -> in_chain c k = false.
Proof.
  intros Hc Hm Ha. apply Bool.not_true_iff_false. rewrite in_chain_bounds. intros Hk.
  pose proof (identify_chains _ _ c Hc) as Hof. destruct (decide (k = start c)) as [->|Hne].
  - destruct (chain_call _ _ Hof) as (m' & E & Hcall). rewrite Hm in E. injection E as <-.
    revert Ha Hcall. unfold answers, calls_tools. by destruct (is_role _ _); [repeat case_bool_decide|].
  - destruct (chain_results _ _ Hof k) as (t & E & Ht); [lia|]. rewrite Hm in E. injection E as <-.
    revert Ha Ht. unfold answers, is_tool, is_role. repeat case_bool_decide; try done. congruence.
Qed.

(** A stretch of messages whose ends are in no chain cuts no chain. *)
Lemma range_atomic ns e c k lo hi :
  c ∈ identifyToolChains ns e -> in_chain c k = true -> in_chain c lo = false -> in_chain c hi = false ->
  within lo hi k = within lo hi (start c).
Proof.
  intros Hc Hk Hlo Hhi. pose proof (chain_bounds _ _ (identify_chains _ _ c Hc)) as Hb.
  unfold in_chain, within in *. apply Bool.eq_true_iff_eq. revert Hk Hlo Hhi.
  rewrite !andb_false_iff, !andb_true_iff, !Nat.leb_le, !Nat.leb_gt. lia.
Qed.

Lemma window_atomic ns n c k :
  c ∈ identifyToolChains ns None -> in_chain c k = true -> window ns n k = window ns n (start c).
Proof.
  intros Hc Hk. unfold window. pose proof (chain_bounds _ _ (identify_chains _ _ c Hc)) as Hb.
  apply in_chain_bounds in Hk as Hkb. f_equal.
  - destruct (exchanges_of_spec ns) as [Hex _]. revert Hex. generalize (exchanges_of ns) as exs. intros exs Hex.
    assert (Hd : forall ex, ex ∈ drop (keepFrom n exs) exs -> exchange_of ns ex) by (intros ex Hin; apply Hex; by apply (subseteq_drop (keepFrom n exs))).
    induction (drop _ exs) as [|ex l IH]; [done|]. simpl. f_equal; [|apply IH; intros x Hx; apply Hd; by right].
    destruct (Hd ex ltac:(by left)) as [_ (m & Hm & Hu) (m' & Hm' & Ha) _].
    apply (range_atomic ns None); [done..| |].
    + by apply (user_not_in_chain ns None c _ m).
    + by apply (answer_not_in_chain ns None c _ m').
  - destruct (unresolvedStart ns) as [s|] eqn:Es; [|done]. apply unresolvedStart_spec in Es as (d & [Hd _] & <-).
    assert (in_chain c (tailStart ns (start d)) = true -> tailStart ns (start d) = start c) as Ht.
    { intros Hin. unfold tailStart in *. pose proof (user_before_spec ns (start d)) as Hu.
      destruct (user_before ns (start d)) as [u|]; simpl in *.
      - destruct Hu as (_ & m & Hm & Hu). by rewrite (user_not_in_chain ns None c u m) in Hin.
      - f_equal. pose proof (last_In _ _ Hd) as Hdin. apply (chain_unique ns None d c (start d)); [done..| |done].
        apply in_chain_bounds. pose proof (chain_bounds _ _ (identify_chains _ _ d Hdin)). lia. }
    rewrite in_chain_bounds in Ht. apply Bool.eq_true_iff_eq. rewrite !Nat.leb_le. lia.
Qed.

Lemma keepFrom_mono n n' exs : 0 <= n <= n' -> (keepFrom n' exs <= keepFrom n exs)%nat.
Proof.
  intros H. unfold keepFrom. destruct (Z.leb_spec 0 n), (Z.leb_spec 0 n'), (Z.ltb_spec n (len exs)), (Z.ltb_spec n' (len exs)); simpl; lia.
Qed.

Lemma window_mono ns n n' k : 0 <= n <= n' -> window ns n k = true -> window ns n' k = true.
Proof.
  intros H. unfold window. rewrite !orb_true_iff. intros [Hk|]; [left|by right].
  rewrite existsb_exists in Hk |- *. destruct Hk as (ex & Hin & Hw). exists ex. split; [|done].
  pose proof (keepFrom_mono n n' (exchanges_of ns) H) as Hle. rewrite <- list_elem_of_In in Hin |- *.
  replace (keepFrom n (exchanges_of ns)) with (keepFrom n' (exchanges_of ns) + (keepFrom n (exchanges_of ns) - keepFrom n' (exchanges_of ns)))%nat in Hin by lia.
  rewrite <- drop_drop in Hin. by eapply subseteq_drop.
Qed.

(** ** The promise of a window *)

(** [keep] is the window of [n] exchanges over the messages. *)
Record windowed (msgs : list Message) (n : Z) (keep : list bool) : Prop := {
  windowed_length : length keep = length msgs;
  windowed_system j m : msgs !! j = Some m -> is_system m = true -> kept keep j = true;
  (** of the others, what is in the last [n] exchanges or the unresolved tail *)
  windowed_rest : nonSystemMsgs (select keep msgs) = select (window_mask (nonSystemMsgs msgs) n) (nonSystemMsgs msgs);
  windowed_recent : 0 <= n ->
    len (drop (keepFrom n (exchanges_of (nonSystemMsgs msgs))) (exchanges_of (nonSystemMsgs msgs))) =
    Z.min n (len (exchanges_of (nonSystemMsgs msgs)));
  (** tool calls stay with their results *)
  windowed_atomic c k : c ∈ identifyToolChains (nonSystemMsgs msgs) None -> in_chain c k = true ->
    window (nonSystemMsgs msgs) n k = window (nonSystemMsgs msgs) n (start c);
  (** the unresolved tail, from the user who started it *)
  windowed_tail c k : unresolved (identifyToolChains (nonSystemMsgs msgs) None) c ->
    (tailStart (nonSystemMsgs msgs) (start c) <= k)%nat -> window (nonSystemMsgs msgs) n k = true;
  (** a wider window keeps more *)
  windowed_wider n' k : 0 <= n <= n' -> window (nonSystemMsgs msgs) n k = true -> window (nonSystemMsgs msgs) n' k = true
}.

Lemma pick_spec msgs : forall keep n, pick msgs keep n = (select keep msgs, n + (len msgs - len (select keep msgs))).
Proof.
  induction msgs as [|m msgs IH]; intros keep n; simpl.
  { destruct keep; cbn; by rewrite Z.add_0_r. }
  rewrite select_kept. destruct (kept keep 0); rewrite IH, ?len_cons; f_equal; lia.
Qed.

(** The mask of an exchange window keeps every system message and, of the
    others, exactly the last [n] exchanges and the unresolved tail from the user
    who started it; exchanges run from a user's message to the next answer, in
    order, and none before the tail is missed; tool calls stay with their
    results; wider windows keep more; and the trimmed conversation is what the
    mask selects, with the count of the rest. *)
Theorem exchange_window msgs n :
  let ns := nonSystemMsgs msgs in
  windowed msgs n (trimByExchangesKeep msgs n) /\
  (forall ex, ex ∈ exchanges_of ns -> exchange_of ns ex /\ (ex_end ex < resolvedEnd ns)%nat) /\
  StronglySorted ex_ordered (exchanges_of ns) /\
  (forall u a m m', (u < a < resolvedEnd ns)%nat -> ns !! u = Some m -> is_user m = true ->
     ns !! a = Some m' -> answers m' = true ->
     (forall k t, (u < k < a)%nat -> ns !! k = Some t -> answers t = false) ->
     exists ex, ex ∈ exchanges_of ns /\ ex_end ex = a /\ (ex_start ex <= u)%nat) /\
  TrimByExchanges msgs n = mkTrimResult (select (trimByExchangesKeep msgs n) msgs)
    (len msgs - len (select (trimByExchangesKeep msgs n) msgs)) 0.
Proof.
  intros ns. split; [|split_and!; [apply exchanges_of_spec..|]].
  - rewrite trimByExchangesKeep_window. fold ns. split; fold ns.
    + apply length_weave.
    + intros j m Hm Hs. pose proof (weave_kept msgs (window_mask ns n) 0 j m Hm) as H. by rewrite Hs in H.
    + apply select_weave.
    + intros Hn. unfold keepFrom, len in *. rewrite length_drop.
      destruct (Z.leb_spec 0 n), (Z.ltb_spec n (Z.of_nat (length (exchanges_of ns)))); simpl; lia.
    + intros c k. by apply window_atomic.
    + intros c k Hc Hk. unfold window. rewrite (proj2 (unresolvedStart_spec ns (start c))) by eauto.
      by rewrite (proj2 (Nat.leb_le _ _) Hk), orb_true_r.
    + intros n' k. apply window_mono.
  - unfold TrimByExchanges. rewrite pick_spec. destruct msgs as [|m msgs]; [done|].
    rewrite len_cons. by destruct (Z.eqb_spec (1 + len msgs) 0); [pose proof (len_nonneg msgs); lia|].
Qed.

(** ** The growing window ends *)

Section Grow.
Context (msgs : list Message) (cost : Message -> Z) (maxTokens : Z).
#[local] Notation K := (trimByExchangesKeep msgs).
#[local] Notation fits n := (keptRawCost msgs (K n) cost 0 <= maxTokens).

(** Where the window of [n] exchanges is as wide as it may be. *)
Definition widest (n : Z) : Prop := K (n + 1) = K n \/ ~ fits (n + 1).

Lemma all_exchanges n : len (exchanges_of (nonSystemMsgs msgs)) <= n -> K (n + 1) = K n.
Proof.
  intros H. rewrite !trimByExchangesKeep_window. unfold window_mask, window, keepFrom.
  destruct (Z.ltb_spec n (len (exchanges_of (nonSystemMsgs msgs)))); [lia|].
  destruct (Z.ltb_spec (n + 1) (len (exchanges_of (nonSystemMsgs msgs)))); [lia|]. by rewrite !andb_false_r.
Qed.

Lemma grow_spec fuel : forall n,
  len (exchanges_of (nonSystemMsgs msgs)) - n < Z.of_nat fuel -> 0 < Z.of_nat fuel ->
  exists k, n <= k /\ grow fuel msgs cost maxTokens (n + 1) (K n) = Some (K k) /\ widest k /\
    forall j, n < j <= k -> fits j.
Proof.
  unfold widest. induction fuel as [|fuel IH]; intros n Hf Hp; [lia|]. cbn [grow]. unfold sameKeepMask.
  case_bool_decide as E; [exists n; split_and!; [lia|done|by left|lia]|].
  destruct (Z.ltb_spec maxTokens (keptRawCost msgs (K (n + 1)) cost 0)) as [Hgt|Hle];
    [exists n; split_and!; [lia|done|right; lia|lia]|].
  destruct (Z_lt_le_dec n (len (exchanges_of (nonSystemMsgs msgs)))) as [Hn|Hn]; [|by destruct E; apply all_exchanges].
  destruct (IH (n + 1)) as (k & Hk & -> & Hw & Hfit); [lia|lia|]. exists k. split_and!; [lia|done|done|].
  intros j Hj. destruct (decide (j = n + 1)) as [->|]; [done|apply Hfit; lia].
Qed.
End Grow.

Lemma length_exchanges fuel : forall i msgs, (length (exchanges_from fuel i msgs) <= length msgs)%nat.
Proof.
  induction fuel as [|fuel IH]; intros i [|m msgs]; cbn [exchanges_from]; simpl; try lia.
  destruct (negb _); [specialize (IH (S i) msgs); lia|]. destruct (find_answer msgs) as [d|]; simpl; [|lia].
  specialize (IH (S (S i + d)) (drop (S d) msgs)). rewrite length_drop in IH. simpl in *. lia.
Qed.

Lemma exchanges_bound msgs : len (exchanges_of (nonSystemMsgs msgs)) <= len msgs.
Proof.
  unfold len, exchanges_of. pose proof (length_exchanges (length (nonSystemMsgs msgs)) 0 (take (resolvedEnd (nonSystemMsgs msgs)) (nonSystemMsgs msgs))) as H.
  rewrite length_take in H. assert (length (nonSystemMsgs msgs) <= length msgs)%nat; [|lia].
  apply List.filter_length_le.
Qed.

Lemma partition_spec msgs : forall keep, length keep = length msgs ->
  (forall j m, msgs !! j = Some m -> is_system m = true -> kept keep j = true) ->
  partition_kept msgs keep = (select keep msgs, select (map negb keep) msgs).
Proof.
  induction msgs as [|m msgs IH]; intros [|b keep] Hl Hs; simpl in *; try lia; [done|].
  rewrite (IH keep) by (try lia; intros j t Ht; exact (Hs (S j) t Ht)).
  unfold kept. simpl. destruct b; simpl; [done|]. destruct (is_system m) eqn:E; [|done].
  specialize (Hs 0%nat m eq_refl E). done.
Qed.

Lemma old_not_system msgs : forall keep, length keep = length msgs ->
  (forall j m, msgs !! j = Some m -> is_system m = true -> kept keep j = true) ->
  forall m, m ∈ select (map negb keep) msgs -> is_system m = false.
Proof.
  induction msgs as [|x msgs IH]; intros [|b keep] Hl Hs m; simpl in *; try (by intros ?%elem_of_nil); try lia.
  assert (Hrec : m ∈ select (map negb keep) msgs -> is_system m = false)
    by (apply IH; [lia|intros j t Ht; exact (Hs (S j) t Ht)]).
  destruct b; simpl; [done|]. rewrite elem_of_cons. intros [->|Hm]; [|by apply Hrec].
  destruct (is_system x) eqn:E; [|done]. specialize (Hs 0%nat x eq_refl E). done.
Qed.

Definition prior_of (conv : Conversation) : string * Z :=
  match Durable conv with Some d => (SummaryContent d, MessageCount d) | None => (EmptyString, 0) end.

(** Compression ends, whatever the costs and the summarizer: for the window
    of [n] exchanges, at least the floor, that still fits at every step it grew
    and cannot grow further, the conversation comes back as it was when there is
    nothing to fold and no summary to rewrite; otherwise the summarizer gets the
    prior summary and exactly the messages outside the window, none of them a
    system message, and only a nonblank answer replaces summary and messages:
    an error or a blank one returns no conversation. *)
Theorem compress_window TrimSpace conv maxTokens minRecent cost summarize :
  let msgs := ConvMessages conv in
  exists n, Z.max 0 minRecent <= n /\ widest msgs cost maxTokens n /\
    (forall j, Z.max 0 minRecent < j <= n -> keptRawCost msgs (trimByExchangesKeep msgs j) cost 0 <= maxTokens) /\
    let recent := select (trimByExchangesKeep msgs n) msgs in
    let old := select (map negb (trimByExchangesKeep msgs n)) msgs in
    Forall (fun m => is_system m = false) old /\
    CompressMessagesWithCost TrimSpace conv maxTokens minRecent (Some cost) (Some summarize) =
    Some (if ((rawCost msgs cost 0 <=? maxTokens) || bool_decide (old = [])) && blank TrimSpace (prior_of conv).1
          then Ok conv
          else match summarize (prior_of conv).1 old with
               | Err err => Err (ErrSummarizer err)
               | Ok s => if blank TrimSpace s then Err ErrEmptySummary
                         else Ok (mkConversation (ID conv) (Title conv) recent
                                    (Some (mkSummary (TrimSpace s) (wrap_int ((prior_of conv).2 + len old))))
                                    (Revision conv) (CreatedAt conv) (UpdatedAt conv))
               end).
Proof.
  intros msgs. set (floor := Z.max 0 minRecent).
  destruct (grow_spec msgs cost maxTokens (grow_fuel msgs) floor) as (n & Hn & Hg & Hw & Hfit).
  { unfold grow_fuel. pose proof (exchanges_bound msgs). unfold len in *. lia. }
  { unfold grow_fuel. lia. }
  exists n. split_and!; [done..|]. intros recent old.
  destruct (exchange_window msgs n) as [[Hl Hs _ _ _ _ _] _]. split.
  { apply Forall_forall. intros m. by apply old_not_system. }
  unfold CompressMessagesWithCost. fold msgs. fold (prior_of conv). destruct (prior_of conv) as [prior count]. cbn [fst snd].
  rewrite negb_involutive.
  assert ((if minRecent <? 0 then 0 else minRecent) = floor) as -> by (unfold floor; destruct (Z.ltb_spec minRecent 0); lia).
  rewrite Hg. cbn [mbind option_bind]. rewrite (partition_spec msgs _ Hl Hs). fold recent old.
  assert ((len old =? 0) = bool_decide (old = [])) as ->.
  { destruct old as [|x l]; [done|]. rewrite len_cons. rewrite bool_decide_false by done.
    apply Z.eqb_neq. pose proof (len_nonneg l). lia. }
  destruct (rawCost msgs cost 0 <=? maxTokens), (bool_decide (old = [])), (blank TrimSpace prior); simpl; try done;
    (destruct (summarize prior old) as [s|]; [by destruct (blank TrimSpace s)|done]).
Qed.
