(* ===== verification/Breaker.v ===== *)
(** * Breaker: the per-provider circuit breaker (provider/circuit_breaker.go)

    The three-state breaker behind [Router]: its record, its options, and one
    function per method, each taking the value [time.Now()] returned to it.
    The mutex makes every method atomic, so an execution is a sequence of
    labelled steps ([cb_step], [cb_run]). *)

From S2P Require Import Prelude.

Inductive BreakerState := BreakerClosed | BreakerOpen | BreakerHalfOpen.

#[export] Instance BreakerState_eq_dec : EqDecision BreakerState.
Proof. solve_decision. Defined.

Definition defaultFailureThreshold : Z := 3.
Definition defaultCooldown : Z := 30 * 1000000000.

Section Breaker.
Context {E : Type}.

Record CircuitBreaker := mkCircuitBreaker {
  state : BreakerState;
  failures : Z;
  lastFailure : Z;
  lastError : option E;
  failureThreshold : Z;
  cooldown : Z;
}.

Definition BreakerOption := CircuitBreaker -> CircuitBreaker.

Definition WithFailureThreshold (n : Z) : BreakerOption := fun cb =>
  if 0 <? n
  then mkCircuitBreaker (state cb) (failures cb) (lastFailure cb) (lastError cb) n (cooldown cb)
  else cb.

Definition WithCooldown (d : Z) : BreakerOption := fun cb =>
  if 0 <? d
  then mkCircuitBreaker (state cb) (failures cb) (lastFailure cb) (lastError cb)
         (failureThreshold cb) d
  else cb.

Definition NewCircuitBreaker (opts : list BreakerOption) : CircuitBreaker :=
  fold_left (fun cb opt => opt cb) opts
    (mkCircuitBreaker BreakerClosed 0 0 None defaultFailureThreshold defaultCooldown).

Definition set_state (cb : CircuitBreaker) (s : BreakerState) : CircuitBreaker :=
  mkCircuitBreaker s (failures cb) (lastFailure cb) (lastError cb)
    (failureThreshold cb) (cooldown cb).

(** [time.Since(t)] is [Sub now t]. *)
Definition Allow (now : Z) (cb : CircuitBreaker) : bool * CircuitBreaker :=
  match state cb with
  | BreakerClosed => (true, cb)
  | BreakerOpen =>
      if cooldown cb <=? Sub now (lastFailure cb)
      then (true, set_state cb BreakerHalfOpen)
      else (false, cb)
  | BreakerHalfOpen => (false, cb)
  end.

Definition RecordSuccess (cb : CircuitBreaker) : CircuitBreaker :=
  let cb := mkCircuitBreaker (state cb) 0 (lastFailure cb) None
              (failureThreshold cb) (cooldown cb) in
  match state cb with
  | BreakerHalfOpen => set_state cb BreakerClosed
  | _ => cb
  end.

(** The counter after the decay of [RecordFailure]. *)
Definition decayed_failures (now : Z) (cb : CircuitBreaker) : Z :=
  if negb (IsZero (lastFailure cb)) && (cooldown cb <? Sub now (lastFailure cb))
  then 0 else failures cb.

Definition RecordFailure (now : Z) (err : E) (cb : CircuitBreaker) : CircuitBreaker :=
  let cb := mkCircuitBreaker (state cb) (wrap_int (decayed_failures now cb + 1)) now (Some err)
              (failureThreshold cb) (cooldown cb) in
  match state cb with
  | BreakerHalfOpen => set_state cb BreakerOpen
  | BreakerClosed =>
      if failureThreshold cb <=? failures cb then set_state cb BreakerOpen else cb
  | BreakerOpen => cb
  end.

Definition State (cb : CircuitBreaker) : BreakerState := state cb.

Record BreakerInfo := mkBreakerInfo {
  info_State : BreakerState;
  info_Failures : Z;
  info_LastFailure : Z;
  info_LastError : option E;
  info_RecoverAt : Z;
}.

(** [RecoverAt] is the zero time unless the breaker is open. *)
Definition Info (cb : CircuitBreaker) : BreakerInfo :=
  mkBreakerInfo (state cb) (failures cb) (lastFailure cb) (lastError cb)
    (match state cb with BreakerOpen => lastFailure cb + cooldown cb | _ => 0 end).

(** ** Executions *)

Inductive event :=
| EvAllow (now : Z) (granted : bool)
| EvSuccess
| EvFailure (now : Z) (err : E).

Inductive cb_step : CircuitBreaker -> event -> CircuitBreaker -> Prop :=
| step_allow now cb : cb_step cb (EvAllow now (Allow now cb).1) (Allow now cb).2
| step_success cb : cb_step cb EvSuccess (RecordSuccess cb)
| step_failure now err cb : cb_step cb (EvFailure now err) (RecordFailure now err cb).

Inductive cb_run : CircuitBreaker -> list event -> CircuitBreaker -> Prop :=
| run_nil cb : cb_run cb [] cb
| run_cons cb e cb' l cb'' :
    cb_step cb e cb' -> cb_run cb' l cb'' -> cb_run cb (e :: l) cb''.

Definition is_allow (e : event) : Prop :=
  match e with EvAllow _ _ => True | _ => False end.

Fixpoint grants (l : list event) : nat :=
  match l with
  | [] => 0
  | EvAllow _ true :: l => S (grants l)
  | _ :: l => grants l
  end.

(** Failures recorded at the given times, all with the same error. *)
Definition record_failures (err : E) (cb : CircuitBreaker) (ts : list Z) : CircuitBreaker :=
  fold_left (fun cb t => RecordFailure t err cb) ts cb.

(** Consecutive failures no further apart than the cooldown. *)
Fixpoint tight (d : Z) (ts : list Z) : Prop :=
  match ts with
  | t :: (u :: _) as ts' => Sub u t <= d /\ tight d ts'
  | _ => True
  end.

(** ** The invariant of every reachable breaker *)

Record wf (cb : CircuitBreaker) : Prop := mkWf {
  wf_threshold : 0 < failureThreshold cb <= MaxInt;
  wf_cooldown : 0 < cooldown cb <= MaxInt;
  wf_closed : state cb = BreakerClosed -> 0 <= failures cb < failureThreshold cb;
}.

Lemma wf_New opts :
  Forall (fun o => (exists n, in_int n /\ o = WithFailureThreshold n) \/
                   (exists d, in_int d /\ o = WithCooldown d)) opts ->
  wf (NewCircuitBreaker opts) /\ state (NewCircuitBreaker opts) = BreakerClosed.
Proof.
  intros Hopts. unfold NewCircuitBreaker.
  generalize (conj (mkWf (mkCircuitBreaker BreakerClosed 0 0 None defaultFailureThreshold
    defaultCooldown) ltac:(done) ltac:(done) ltac:(done)) (eq_refl BreakerClosed)).
  change BreakerClosed with (state (mkCircuitBreaker BreakerClosed 0 0 None
    defaultFailureThreshold defaultCooldown)) at 2.
  cut (forall cb, wf cb /\ state cb = BreakerClosed /\ failures cb = 0 ->
    let cb' := fold_left (fun cb opt => opt cb) opts cb in
    wf cb' /\ state cb' = BreakerClosed /\ failures cb' = 0).
  { intros H _. edestruct H as (? & ? & ?); [|by split]. by split_and!. }
  induction Hopts as [|o opts Ho _ IH]; intros cb ([Ht Hc Hf] & Hs & H0); [by split_and!|].
  apply IH. destruct Ho as [(n & Hn & ->)|(d & Hd & ->)];
    unfold WithFailureThreshold, WithCooldown, in_int in *; cases_if; to_prop;
    split_and!; simpl; try done; constructor; simpl; try done; lia.
Qed.

Lemma decayed_bounds now cb :
  0 <= failures cb < failureThreshold cb -> 0 <= decayed_failures now cb < failureThreshold cb.
Proof. unfold decayed_failures. case_match; lia. Qed.

Lemma cb_step_wf cb e cb' : cb_step cb e cb' -> wf cb -> wf cb'.
Proof.
  intros [now cb0|cb0|now err cb0] [[Ht1 Ht2] Hc Hf].
  - unfold Allow. destruct (state cb0) eqn:Hs; cases_if; constructor; simpl; auto; congruence.
  - unfold RecordSuccess. destruct (state cb0) eqn:Hs; constructor; simpl; auto; lia.
  - unfold RecordFailure. destruct (state cb0) eqn:Hs; [|constructor; simpl; auto; congruence..].
    specialize (Hf eq_refl).
    pose proof (decayed_bounds now cb0 Hf).
    rewrite wrap_int_id by (unfold in_int, MinInt, MaxInt in *; lia).
    simpl. case_match; to_prop; constructor; simpl in *; auto; try congruence; lia.
Qed.

Lemma cb_run_wf cb l cb' : cb_run cb l cb' -> wf cb -> wf cb'.
Proof. induction 1; eauto using cb_step_wf. Qed.

(** ** One probe at a time *)

(** A half-open breaker denies every call and stays half-open until a result
    is recorded. *)
Lemma halfopen_denies cb l cb' :
  cb_run cb l cb' -> Forall is_allow l -> state cb = BreakerHalfOpen ->
  grants l = 0%nat /\ cb' = cb.
Proof.
  induction 1 as [|cb e cb1 l cb2 Hstep Hrun IH]; intros Hall Hs; [done|].
  inversion_clear Hall as [|? ? He Hall'].
  inversion Hstep; subst; try done.
  assert (Allow now cb = (false, cb)) as HA by (unfold Allow; by rewrite Hs).
  rewrite HA in *. simpl in *. auto.
Qed.

Lemma grants_zero l t : grants l = 0%nat -> EvAllow t true ∉ l.
Proof.
  induction l as [|e l IH]; intros H0; [intros []%elem_of_nil|].
  intros [<-|Hin]%elem_of_cons; [done|]. destruct e as [? []| |]; simpl in *; try done; by apply IH.
Qed.

Lemma open_allow now cb :
  state cb = BreakerOpen ->
  Allow now cb = (false, cb) \/
  Allow now cb = (true, set_state cb BreakerHalfOpen) /\ cooldown cb <= Sub now (lastFailure cb).
Proof. intros Hs. unfold Allow. rewrite Hs. case_match; to_prop; auto. Qed.

(** C22: whatever calls of [Allow] follow, a breaker that is not closed grants
    at most one request before a result is recorded; when it grants one, the
    cooldown has elapsed and the breaker is half-open. *)
Theorem breaker_single_probe cb l cb' :
  cb_run cb l cb' -> Forall is_allow l -> state cb <> BreakerClosed ->
  (grants l <= 1)%nat /\ (grants l = 1%nat -> state cb' = BreakerHalfOpen) /\
  (forall now, EvAllow now true ∈ l -> cooldown cb <= Sub now (lastFailure cb)).
Proof.
  intros Hrun Hall Hs. destruct (state cb) eqn:Hst; [done| |].
  - clear Hs. induction Hrun as [|cb e cb1 l cb2 Hstep Hrun IH].
    { split_and!; simpl; [lia|done|]. intros ? []%elem_of_nil. }
    inversion_clear Hall as [|? ? He Hall']. inversion Hstep; subst; try done.
    destruct (open_allow now cb Hst) as [HA|[HA Hcd]]; rewrite HA in *; simpl in *.
    + destruct (IH Hall' Hst) as (? & ? & IHin). split_and!; auto.
      intros t Hin. inversion Hin; subst. by apply IHin.
    + destruct (halfopen_denies _ _ _ Hrun Hall' eq_refl) as [H0 ->].
      rewrite H0. split_and!; [lia|done|].
      intros t Hin. apply elem_of_cons in Hin as [[= ->]|Hin]; [done|].
      by destruct (grants_zero l t H0).
  - destruct (halfopen_denies _ _ _ Hrun Hall Hst) as [H0 ->]. rewrite H0.
    split_and!; [lia|done|].
    intros t Hin. by destruct (grants_zero l t H0).
Qed.

(** ** When the breaker trips *)

Lemma tight_mid d l x y k : tight d (l ++ x :: y :: k) -> Sub y x <= d.
Proof. induction l as [|z [|z' l] IH]; simpl in *; tauto. Qed.

Lemma tight_snoc d l x y : tight d (l ++ [x]) -> Sub y x <= d -> tight d (l ++ [x; y]).
Proof. induction l as [|z [|z' l] IH]; simpl in *; tauto. Qed.

Lemma record_failure_closed now err cb :
  wf cb -> state cb = BreakerClosed ->
  failures (RecordFailure now err cb) = decayed_failures now cb + 1 /\
  lastFailure (RecordFailure now err cb) = now /\
  failureThreshold (RecordFailure now err cb) = failureThreshold cb /\
  cooldown (RecordFailure now err cb) = cooldown cb /\
  state (RecordFailure now err cb) =
    if failureThreshold cb <=? decayed_failures now cb + 1 then BreakerOpen else BreakerClosed.
Proof.
  intros [Ht _ Hf] Hs. pose proof (decayed_bounds now cb (Hf Hs)).
  unfold RecordFailure. rewrite Hs. simpl.
  rewrite wrap_int_id by (unfold in_int, MinInt, MaxInt in *; lia).
  case_match; split_and!; done.
Qed.

Lemma record_failures_open err ts cb :
  state cb = BreakerOpen -> state (record_failures err cb ts) = BreakerOpen.
Proof.
  revert cb. induction ts as [|t ts IH]; intros cb Hs; [done|].
  apply IH. unfold RecordFailure. by rewrite Hs.
Qed.

(** [has_run n d l]: [n] consecutive elements of [l], none further than [d]
    from its predecessor. *)
Definition has_run (n d : Z) (l : list Z) : Prop :=
  exists pre run post, l = pre ++ run ++ post /\ len run = n /\ tight d run.

Lemma has_run_short n d l : len l < n -> ~ has_run n d l.
Proof.
  intros Hl (pre & run & post & -> & Hn & _). rewrite !len_app in Hl.
  pose proof (len_nonneg pre). pose proof (len_nonneg post). lia.
Qed.

(** A gap longer than [d] ends every run. *)
Lemma has_run_gap n d l x t ts :
  0 < n -> len (l ++ [x]) < n -> d < Sub t x ->
  has_run n d (l ++ [x] ++ t :: ts) <-> has_run n d (t :: ts).
Proof.
  intros Hpos Hlen Hgap. split.
  - intros (pre & run & post & Heq & Hn & Ht). rewrite app_assoc in Heq.
    apply app_eq_inv in Heq as [(k & Hpre & Hrest)|(k & Hpre & Hrest)].
    { apply app_eq_inv in Hrest as [(k2 & -> & Hpost)|(k2 & -> & ->)].
      - destruct k2 as [|t' k2]; simplify_eq/=.
        { exfalso. rewrite app_nil_r in *. revert Hlen. rewrite Hpre, len_app.
          pose proof (len_nonneg pre). lia. }
        induction k as [|y k' _] using rev_ind.
        { exists [], (t' :: k2), post. split_and!; done. }
        rewrite app_assoc in Hpre. apply app_inj_tail in Hpre as [_ ->].
        rewrite <-app_assoc in Ht. apply tight_mid in Ht. lia.
      - exfalso. revert Hlen. rewrite Hpre, !len_app.
        pose proof (len_nonneg pre). pose proof (len_nonneg k2). lia. }
    exists k, run, post. split_and!; done.
  - intros (pre & run & post & -> & Hn & Ht).
    exists ((l ++ [x]) ++ pre), run, post. split_and!; [|done..].
    by rewrite <-!app_assoc.
Qed.

Lemma trips_from_run err ts cb cur :
  wf cb -> state cb = BreakerClosed -> Forall (fun t => t <> 0) (cur ++ ts) ->
  failures cb = len cur -> tight (cooldown cb) cur ->
  (forall l x, cur = l ++ [x] -> lastFailure cb = x) ->
  state (record_failures err cb ts) = BreakerOpen <->
  has_run (failureThreshold cb) (cooldown cb) (cur ++ ts).
Proof.
  revert cb cur. induction ts as [|t ts IH]; intros cb cur Hwf Hs Hnz Hlen Htight Hlast.
  { simpl. rewrite Hs, app_nil_r. split; [done|]. intros []%has_run_short.
    rewrite <-Hlen. by apply Hwf. }
  destruct (record_failure_closed t err cb Hwf Hs) as (Hf' & Hl' & Ht' & Hc' & Hs').
  pose proof (wf_closed _ Hwf Hs) as Hb. pose proof (wf_threshold _ Hwf) as Hth.
  assert (Hwf' : wf (RecordFailure t err cb)) by (eapply cb_step_wf; [apply step_failure|done]).
  set (cb' := RecordFailure t err cb) in *.
  change (record_failures err cb (t :: ts)) with (record_failures err cb' ts).
  (* the failures since the last decay, after this one *)
  assert (exists cur', failures cb' = len cur' /\ tight (cooldown cb) cur' /\
      Forall (fun t => t <> 0) (cur' ++ ts) /\ (exists l, cur' = l ++ [t]) /\
      (has_run (failureThreshold cb) (cooldown cb) (cur ++ t :: ts) <->
       has_run (failureThreshold cb) (cooldown cb) (cur' ++ ts)))
    as (cur' & Hlen' & Htight' & Hnz' & (l & Hcur') & ->).
  { rewrite Hf'. unfold decayed_failures, IsZero.
    induction cur as [|x l _] using rev_ind.
    { exists [t]. rewrite Hlen. split_and!; [by destruct (_ && _)|done|done|by exists []|done]. }
    rewrite (Hlast l x eq_refl) in *.
    assert (x <> 0) as Hx by (rewrite !Forall_app, Forall_singleton in Hnz; tauto).
    destruct (negb (x =? 0) && (cooldown cb <? Sub t x)) eqn:Hdec; to_prop.
    - exists [t]. split_and!; [done|done| |by exists []|].
      + rewrite Forall_app, Forall_cons in Hnz. simpl. apply Forall_cons. tauto.
      + rewrite <-app_assoc. apply has_run_gap; lia.
    - destruct Hdec as [?|Hdec]; to_prop; [done|].
      exists (l ++ [x; t]). split_and!.
      + rewrite Hlen. len_lia.
      + by apply tight_snoc.
      + rewrite <-!app_assoc in *. done.
      + exists (l ++ [x]). by rewrite <-app_assoc.
      + by rewrite <-!app_assoc. }
  destruct (failureThreshold cb <=? decayed_failures t cb + 1) eqn:Htrip; to_prop.
  - rewrite record_failures_open by done. split; [intros _|done].
    exists [], cur', ts. split_and!; [done| |done].
    rewrite <-Hlen', Hf'. unfold decayed_failures in *. case_match; lia.
  - rewrite <-Ht', <-Hc'. apply IH; rewrite ?Hc'; try done.
    intros l' x Hx. subst cur'. apply app_inj_tail in Hx as [_ ->]. done.
Qed.

(** starting from a closed breaker with no counted failure (a fresh one, or
    one whose last recorded result was a success), recording failures at the
    times [ts] opens it exactly when [failureThreshold] consecutive ones are
    each within the cooldown of the previous one: the decay makes neither an
    older nor a more spread-out failure count. *)
Theorem breaker_trips_iff err ts (cb : CircuitBreaker) :
  wf cb -> state cb = BreakerClosed -> failures cb = 0 -> Forall (fun t => t <> 0) ts ->
  state (record_failures err cb ts) = BreakerOpen <->
  has_run (failureThreshold cb) (cooldown cb) ts.
Proof.
  intros Hwf Hs H0 Hnz. apply (trips_from_run err ts cb []); try done.
  intros l x Hx. by destruct l.
Qed.
End Breaker.
Arguments CircuitBreaker E : clear implicits.
Arguments event E : clear implicits.

(** ** The theorems at concrete inputs *)

Definition cb_open : CircuitBreaker string :=
  record_failures "down" (NewCircuitBreaker []) [10; 20; 30].

Lemma breaker_single_probe_witness :
  state cb_open <> BreakerClosed /\
  (grants [EvAllow (E := string) (defaultCooldown + 30) true;
           EvAllow (defaultCooldown + 31) false] <= 1)%nat.
Proof.
  assert (cb_run cb_open
    [EvAllow (defaultCooldown + 30) true; EvAllow (defaultCooldown + 31) false]
    (set_state cb_open BreakerHalfOpen)) as Hrun.
  { eapply run_cons; [exact (step_allow (defaultCooldown + 30) cb_open)|].
    eapply run_cons; [exact (step_allow (defaultCooldown + 31) (set_state cb_open BreakerHalfOpen))|].
    apply run_nil. }
  assert (state cb_open <> BreakerClosed) as Hs by (vm_compute; discriminate).
  split; [exact Hs|].
  apply (breaker_single_probe cb_open _ _ Hrun); [|exact Hs].
  repeat constructor.
Defined.

Lemma breaker_trips_iff_witness :
  wf (NewCircuitBreaker (E := string) []) /\
  has_run 3 defaultCooldown [10; 20; 30] /\
  state (record_failures "down" (NewCircuitBreaker []) [10; 20; 30]) = BreakerOpen.
Proof.
  assert (wf (NewCircuitBreaker (E := string) [])) as Hwf
    by (constructor; simpl; unfold MaxInt, defaultFailureThreshold, defaultCooldown; lia).
  assert (has_run 3 defaultCooldown [10; 20; 30]) as Hr
    by (exists [], [10; 20; 30], []; repeat split; unfold Sub, MinInt, MaxInt, defaultCooldown; lia).
  split; [exact Hwf|]. split; [exact Hr|].
  apply (breaker_trips_iff "down" [10; 20; 30] (NewCircuitBreaker []) Hwf);
    [reflexivity|reflexivity|repeat constructor; lia|exact Hr].
Defined.
