(* ===== verification/TailRing.v ===== *)
(** * TailRing: the output ring of background jobs (agent/tools/background_buffer.go)

    A bounded byte ring that keeps the newest bytes of a stream and addresses
    them with absolute 64-bit cursors.  The backing array is allocated once with
    the requested capacity, so the capacity is a field of the model; [buf] is the
    slice of it in use. *)

From S2P Require Import Prelude.

Record tailRing := mkRing {
  capBytes : Z;
  buf : bytes;
  floor : Z;
  end_ : Z;
}.

(** [newTailRing] panics ([None]) on a capacity below 1. *)
Definition newTailRing (capBytes : Z) : option tailRing :=
  if capBytes <=? 0 then None else Some (mkRing capBytes [] 0 0).

(** [Write] returns [len(p)] and a nil error, and the new ring. *)
Definition Write (p : bytes) (r : tailRing) : Z * tailRing :=
  let n := len p in
  let end' := wrap_uint64 (end_ r + n) in
  if capBytes r <=? n then
    (n, mkRing (capBytes r) (drop (Z.to_nat (n - capBytes r)) p)
          (wrap_uint64 (end' - capBytes r)) end')
  else
    let over := len (buf r) + n - capBytes r in
    if 0 <? over then
      (n, mkRing (capBytes r) (drop (Z.to_nat over) (buf r) ++ p)
            (wrap_uint64 (floor r + over)) end')
    else (n, mkRing (capBytes r) (buf r ++ p) (floor r) end').

Record readResult := mkRead { data : bytes; next : Z; dropped : Z }.

(** [Read] panics ([None]) when [maxBytes < 1]; the cursor is a [*uint64]. *)
Definition Read (cursor : option Z) (maxBytes : Z) (r : tailRing) : option readResult :=
  if maxBytes <? 1 then None else Some
    match cursor with
    | None =>
        let n := if maxBytes <? len (buf r) then maxBytes else len (buf r) in
        mkRead (drop (Z.to_nat (len (buf r) - n)) (buf r)) (end_ r) (floor r)
    | Some c =>
        if end_ r <? c then mkRead [] (end_ r) 0 else
        let dropped := if c <? floor r then floor r - c else 0 in
        let c := if c <? floor r then floor r else c in
        let start := c - floor r in
        let n := len (buf r) - start in
        let n := if maxBytes <? n then maxBytes else n in
        mkRead (take (Z.to_nat n) (drop (Z.to_nat start) (buf r)))
          (wrap_uint64 (c + n)) dropped
    end.

Definition Bounds (r : tailRing) : Z * Z := (floor r, end_ r).

(** ** The abstract stream

    [holds r s]: the ring holds the newest bytes of the stream [s]. *)
Record holds (r : tailRing) (s : bytes) : Prop := mkHolds {
  holds_cap : 0 < capBytes r;
  holds_end : end_ r = len s;
  holds_floor : floor r = Z.max 0 (len s - capBytes r);
  holds_buf : buf r = drop (Z.to_nat (floor r)) s;
}.

Definition writes (ps : list bytes) (r : tailRing) : tailRing :=
  fold_left (fun r p => (Write p r).2) ps r.

Lemma holds_buf_len r s : holds r s -> len (buf r) = len s - floor r.
Proof.
  intros [Hc He Hf Hb]. rewrite Hb. unfold len in *. rewrite length_drop. lia.
Qed.

Lemma Write_holds p r s :
  holds r s -> len s + len p < 2 ^ 64 -> holds (Write p r).2 (s ++ p).
Proof.
  intros H Hlt. pose proof (holds_buf_len r s H) as Hbl. destruct H as [Hc He Hf Hb].
  pose proof (len_nonneg s) as Hs. pose proof (len_nonneg p) as Hp.
  unfold Write. rewrite He, (wrap_uint64_id (len s + len p)) by lia.
  destruct (capBytes r <=? len p) eqn:Hbig; [|destruct (0 <? _) eqn:Hover]; to_prop;
    simpl; constructor; simpl; rewrite ?len_app, ?wrap_uint64_id by lia; try lia.
  - rewrite drop_app_ge by (unfold len in *; lia). f_equal. unfold len in *. lia.
  - rewrite Hbl, Hb, drop_drop, drop_app_le by (unfold len in *; lia). do 2 f_equal. lia.
  - rewrite Hb, drop_app_le by (unfold len in *; lia). done.
Qed.

Lemma writes_holds ps r s :
  holds r s -> len (s ++ mjoin ps) < 2 ^ 64 -> holds (writes ps r) (s ++ mjoin ps).
Proof.
  revert r s. induction ps as [|p ps IH]; intros r s Hr Hlt; simpl in *.
  - by rewrite app_nil_r.
  - rewrite app_assoc in *. apply IH; [|done]. apply Write_holds; [done|].
    len_lia.
Qed.

Lemma new_holds c r : newTailRing c = Some r -> capBytes r = c /\ holds r [].
Proof.
  unfold newTailRing. intros H. cases_if. to_prop. split; [done|].
  constructor; simpl; try done; unfold len; simpl; lia.
Qed.

(** ** What a reader sees *)

Lemma Read_cursor m c r s :
  holds r s -> len s < 2 ^ 64 -> 1 <= m -> 0 <= c <= end_ r ->
  exists d, Read (Some c) m r = Some d /\
    dropped d = Z.max 0 (floor r - c) /\
    next d = c + dropped d + len (data d) /\ next d <= len s /\
    data d = take (Z.to_nat (len (data d))) (drop (Z.to_nat (c + dropped d)) s) /\
    len (data d) = Z.min m (len s - (c + dropped d)).
Proof.
  intros H Hlt Hm Hc. pose proof (holds_buf_len r s H) as Hbl. destruct H as [Hcap He Hf Hb].
  unfold Read. destruct (m <? 1) eqn:?; to_prop; [lia|].
  destruct (end_ r <? c) eqn:?; to_prop; [lia|]. eexists; split; [done|]. simpl.
  set (dr := if c <? floor r then floor r - c else 0).
  assert (dr = Z.max 0 (floor r - c)) as Hdr by (unfold dr; case_match; to_prop; lia).
  replace (if c <? floor r then floor r else c) with (c + dr)
    by (unfold dr; case_match; to_prop; lia).
  rewrite Hbl.
  replace (if m <? len s - floor r - (c + dr - floor r) then m
           else len s - floor r - (c + dr - floor r)) with (Z.min m (len s - (c + dr)))
    by (case_match; to_prop; lia).
  rewrite Hb, drop_drop.
  replace (Z.to_nat (floor r) + Z.to_nat (c + dr - floor r))%nat with (Z.to_nat (c + dr)) by lia.
  set (k := Z.min m (len s - (c + dr))).
  assert (len (take (Z.to_nat k) (drop (Z.to_nat (c + dr)) s)) = k) as Hk.
  { unfold len in *. rewrite length_take, length_drop. lia. }
  rewrite wrap_uint64_id by lia. split_and!; rewrite ?Hk; lia || done.
Qed.

(** A reader that polls the ring while the job writes: it asks from the cursor
    the previous read returned. *)
Inductive ring_op := OpWrite (p : bytes) | OpRead (maxBytes : Z).

(** The reader's log of (bytes skipped, bytes delivered), oldest first. *)
Fixpoint poll (ops : list ring_op) (r : tailRing) (cursor : Z) (log : list (Z * bytes)) :
    option (tailRing * Z * list (Z * bytes)) :=
  match ops with
  | [] => Some (r, cursor, log)
  | OpWrite p :: ops => poll ops (Write p r).2 cursor log
  | OpRead m :: ops =>
      match Read (Some cursor) m r with
      | None => None
      | Some d => poll ops r (next d) (log ++ [(dropped d, data d)])
      end
  end.

Fixpoint written (ops : list ring_op) : bytes :=
  match ops with
  | [] => []
  | OpWrite p :: ops => p ++ written ops
  | OpRead _ :: ops => written ops
  end.

Definition op_ok (o : ring_op) : Prop :=
  match o with OpWrite _ => True | OpRead m => 1 <= m end.

(** The log accounts for the stream from [off] up to [upto]: each entry skips
    the bytes it says it skips and then delivers the stream's own bytes. *)
Fixpoint accounts (s : bytes) (off upto : Z) (log : list (Z * bytes)) : Prop :=
  match log with
  | [] => off = upto
  | (k, d) :: log =>
      0 <= k /\ d = take (length d) (drop (Z.to_nat (off + k)) s) /\
      accounts s (off + k + len d) upto log
  end.

Lemma accounts_snoc s off mid log k d :
  accounts s off mid log -> 0 <= k -> d = take (length d) (drop (Z.to_nat (mid + k)) s) ->
  accounts s off (mid + k + len d) (log ++ [(k, d)]).
Proof.
  revert off. induction log as [|[k' d'] log IH]; intros off; simpl.
  - intros <- ? ?. split_and!; done.
  - intros (? & ? & ?) ? ?. split_and!; auto.
Qed.

Lemma accounts_extend s s' off upto log :
  0 <= off -> upto <= len s -> accounts s off upto log -> accounts (s ++ s') off upto log.
Proof.
  revert off. induction log as [|[k d] log IH]; intros off Hoff Hup; simpl; [done|].
  intros (Hk & Hd & Hrest). pose proof (len_nonneg d).
  assert (off + k + len d <= upto) as Hle.
  { revert Hrest. generalize (off + k + len d). clear. induction log as [|[k d] log IH];
      simpl; intros o; [lia|]. intros (? & _ & H%IH). pose proof (len_nonneg d). lia. }
  split_and!; [done| |by apply IH; [lia|..]].
  rewrite drop_app_le by (unfold len in *; lia).
  rewrite take_app_le; [done|]. rewrite length_drop. unfold len in *. lia.
Qed.

Lemma poll_accounts ops r cursor log s :
  holds r s -> 0 <= cursor <= len s -> accounts s 0 cursor log ->
  Forall op_ok ops -> len s + len (written ops) < 2 ^ 64 ->
  exists r' cursor' log', poll ops r cursor log = Some (r', cursor', log') /\
    holds r' (s ++ written ops) /\ cursor' <= len (s ++ written ops) /\
    accounts (s ++ written ops) 0 cursor' log'.
Proof.
  revert r cursor log s. induction ops as [|[p|m] ops IH]; intros r cursor log s Hr Hcur Hlog Hok Hlt;
    simpl in *.
  - rewrite app_nil_r. eauto 10 with lia.
  - rewrite app_assoc. inversion_clear Hok. apply IH; try done.
    + apply Write_holds; [done|]. len_lia.
    + len_lia.
    + apply accounts_extend; lia || done.
    + len_lia.
  - inversion_clear Hok as [|? ? Hm Hok']. simpl in Hm.
    assert (len s < 2 ^ 64) by len_lia.
    destruct (Read_cursor m cursor r s Hr) as (d & -> & Hdr & Hn & Hle & Hd & _);
      [done..|by rewrite (holds_end _ _ Hr)|].
    pose proof (len_nonneg (data d)). apply IH; try done; [lia|].
    rewrite Hn. apply accounts_snoc; [done|lia|].
    rewrite Hd at 1. unfold len. by rewrite Nat2Z.id.
Qed.

(** ** Properties *)

(** after any sequence of writes to a new ring of capacity [c], the ring
    retains exactly the newest [c] bytes of the stream (all of it while it is
    shorter), and [Bounds] reports the absolute offsets of the retained bytes:
    the ring refines the stream it has consumed. *)
Theorem ring_refines_stream c r ps :
  newTailRing c = Some r -> len (mjoin ps) < 2 ^ 64 ->
  let s := mjoin ps in
  let r' := writes ps r in
  Bounds r' = (Z.max 0 (len s - c), len s) /\
  buf r' = drop (Z.to_nat (len s - c)) s /\ len (buf r') = Z.min c (len s).
Proof.
  intros Hnew Hlt s r'. destruct (new_holds _ _ Hnew) as [<- Hr].
  assert (holds r' s) as Hs by (by apply (writes_holds ps r [])).
  assert (capBytes r' = capBytes r) as Hcap.
  { unfold r'. clear. revert r. induction ps as [|p ps IH]; intros r; [done|]. simpl. rewrite IH.
    unfold Write. repeat case_match; done. }
  pose proof (holds_buf_len _ _ Hs) as Hbl. destruct Hs as [Hc He Hf Hb]. rewrite Hcap in *.
  unfold Bounds. rewrite Hbl, Hb, He, Hf. pose proof (len_nonneg s).
  split_and!; [done| |lia]. f_equal. lia.
Qed.

(** a reader that starts at offset 0 and always resumes at the cursor it was
    given loses nothing silently: whatever writes interleave with its reads,
    each read skips exactly the number of bytes it reports as dropped and then
    delivers the stream's own next bytes, and one read large enough for the ring
    catches up with the end of the stream. *)
Theorem ring_no_silent_gap c r ops :
  newTailRing c = Some r -> Forall op_ok ops -> len (written ops) < 2 ^ 64 ->
  exists r' cursor log,
    poll ops r 0 [] = Some (r', cursor, log) /\
    accounts (written ops) 0 cursor log /\
    (forall m, c <= m -> exists d, Read (Some cursor) m r' = Some d /\ next d = len (written ops)).
Proof.
  intros Hnew Hok Hlt. destruct (new_holds _ _ Hnew) as [Hc Hr].
  assert (0 < c) as Hpos by (rewrite <-Hc; apply Hr).
  destruct (poll_accounts ops r 0 [] [] Hr) as (r' & cur & log & Hp & Hr' & Hle & Hacc);
    [done..|]. simpl in *.
  exists r', cur, log. split_and!; [done..|]. intros m Hm.
  assert (capBytes r' = c) as Hcap.
  { rewrite <-Hc. revert Hp. clear. generalize 0, (@nil (Z * bytes)). revert r.
    induction ops as [|[p|m] ops IH]; intros r z l; simpl.
    - by intros [= -> _ _].
    - intros H%IH. rewrite H. unfold Write. repeat case_match; done.
    - destruct (Read (Some z) m r); [|done]. by intros H%IH. }
  assert (0 <= cur) as Hcur.
  { assert (forall off, 0 <= off -> accounts (written ops) off cur log -> 0 <= cur) as Hg;
      [|by apply (Hg 0)].
    clear. induction log as [|[k d] log IH]; simpl; intros off ?; [lia|].
    intros (? & _ & ?). pose proof (len_nonneg d). apply (IH (off + k + len d)); [lia|done]. }
  destruct (Read_cursor m cur r' _ Hr' Hlt) as (d & -> & Hdr & Hn & _ & _ & Hlen);
    [lia|by rewrite (holds_end _ _ Hr')|].
  exists d. split; [done|]. rewrite Hn, Hlen. rewrite Hdr.
  pose proof (holds_floor _ _ Hr'). lia.
Qed.

(** *** The properties at concrete inputs *)

Lemma ring_refines_stream_witness :
  buf (writes [lit "abc"; lit "defgh"] (mkRing 4 [] 0 0)) = lit "efgh".
Proof.
  destruct (ring_refines_stream 4 (mkRing 4 [] 0 0) [lit "abc"; lit "defgh"]) as (_ & H & _);
    [reflexivity|vm_compute; reflexivity|].
  rewrite H. reflexivity.
Defined.

Lemma ring_no_silent_gap_witness :
  exists r' cursor log,
    poll [OpWrite (lit "abc"); OpRead 2; OpWrite (lit "defgh"); OpRead 3] (mkRing 4 [] 0 0) 0 []
      = Some (r', cursor, log) /\ cursor = 7.
Proof.
  destruct (ring_no_silent_gap 4 (mkRing 4 [] 0 0)
    [OpWrite (lit "abc"); OpRead 2; OpWrite (lit "defgh"); OpRead 3])
    as (r' & cur & log & H & _); [reflexivity|repeat constructor; done|vm_compute; reflexivity|].
  exists r', cur, log. split; [done|]. revert H. vm_compute. congruence.
Defined.
