(* ===== verification/ModelKey.v ===== *)
(** * ModelKey: the identity of a routed model (provider/model_profile.go)

    A provider name and a model name; the key of the router's breakers, gates
    and sticky routes. *)

From S2P Require Import Prelude.

Record ModelKey := mkModelKey { Provider : string; Model : string }.

#[export] Instance ModelKey_eq_dec : EqDecision ModelKey.
Proof. solve_decision. Defined.

#[export] Program Instance ModelKey_countable : Countable ModelKey :=
  inj_countable' (fun k => (Provider k, Model k)) (fun p => mkModelKey p.1 p.2) _.
Next Obligation. by intros []. Qed.
