(* ===== verification/Admission.v ===== *)
(** * Admission: the slot-aware admission gate (provider/admission.go)

    A per-model permit counter.  The code is concurrent: any number of
    goroutines run [acquire] and, once admitted, the release closure.  The model
    is a step relation whose steps are the code's atomic actions: one read of
    the capacity source, one check of the context or of the done channel, one
    critical section under [sa.mu], one outcome of a [select].  Everything
    between two steps is local to a goroutine, so every interleaving of the code
    is a sequence of steps.

    The wake channel of a gate is identified by how many channels the gate had
    before it: [release] closes the current channel and replaces it in one
    critical section, so channel [w] is closed exactly when [w] is below the
    gate's current one. *)

From S2P Require Import Prelude ModelKey.

Record slotGateState := mkGate {
  inflight : Z;
  waiting : Z;
  wake : nat;
  admitted : Z;
  queued : Z;
  rejected : Z;
}.

Abbreviation gatemap := (gmap ModelKey slotGateState).

Definition newGate : slotGateState := mkGate 0 0 0 0 0 0.

(** ** The critical sections *)

(** What the locked part of one iteration of [acquire] decides. *)
Inductive decision := Admit | Queue (w : nat).

(** [acquire] under [sa.mu]: [n] is the capacity just read, [first] whether this
    is the caller's first iteration. *)
Definition lockSection (key : ModelKey) (n : Z) (first : bool) (gs : gatemap) :
    decision * gatemap :=
  let n := if n <? 1 then 1 else n in
  let g := default newGate (gs !! key) in
  if inflight g <? n then
    (Admit, <[key := mkGate (wrap_int (inflight g + 1))
                       (if first then waiting g else wrap_int (waiting g - 1)) (wake g)
                       (wrap_uint64 (admitted g + 1)) (queued g) (rejected g)]> gs)
  else
    let g := if first
             then mkGate (inflight g) (wrap_int (waiting g + 1)) (wake g) (admitted g)
                    (wrap_uint64 (queued g + 1)) (rejected g)
             else g in
    (Queue (wake g), <[key := g]> gs).

Definition release (key : ModelKey) (gs : gatemap) : gatemap :=
  match gs !! key with
  | None => gs
  | Some g =>
      <[key := mkGate (if 0 <? inflight g then inflight g - 1 else inflight g)
                 (waiting g) (S (wake g)) (admitted g) (queued g) (rejected g)]> gs
  end.

Definition exitWait (key : ModelKey) (rej : bool) (gs : gatemap) : gatemap :=
  match gs !! key with
  | None => gs
  | Some g =>
      <[key := mkGate (inflight g) (wrap_int (waiting g - 1)) (wake g) (admitted g) (queued g)
                 (if rej then wrap_uint64 (rejected g + 1) else rejected g)]> gs
  end.

Definition closed (gs : gatemap) (key : ModelKey) (w : nat) : bool :=
  match gs !! key with Some g => bool_decide (w < wake g)%nat | None => false end.

(** ** Goroutines *)

Inductive admErr := ErrContext | ErrRouterClosed.

(** The program counter of one call of [acquire] and of the closure it returned. *)
Inductive pc :=
| PEntry                               (** first iteration, before the capacity read *)
| PCtx (n : Z)                         (** first iteration, governed, before [ctx.Err()] *)
| PLock (n : Z) (first : bool)         (** before the critical section *)
| PParked (w : nat)                    (** in the [select] on wake channel [w] *)
| PTop                                 (** later iteration, before [ctx.Err()] *)
| PTop2                                (** later iteration, before the done check *)
| PCap                                 (** later iteration, before the capacity read *)
| PExit (rej : bool) (e : option admErr) (** before [exitWait] *)
| PNoop                                (** returned [noopRelease] *)
| PHeld                                (** returned with a permit, not yet released *)
| PReleased                            (** the release closure has run *)
| PErr (e : admErr).                   (** returned an error *)

Record thread := mkThread { t_key : ModelKey; t_cancelled : bool; t_pc : pc }.

Definition at_pc (t : thread) (p : pc) : thread := mkThread (t_key t) (t_cancelled t) p.

Record sys := mkSys { gates : gatemap; done : bool; threads : gmap nat thread }.

(** What the environment supplies to a step of a goroutine: the answer of the
    capacity source, or the case the [select] takes among the ready ones. *)
Inductive choice :=
| CCapacity (n : Z) (ok : bool)
| CWake | CCtxDone | CDone
| CRun.

(** One atomic action of a goroutine; [None] when it is not enabled. *)
Definition acquire_step (gs : gatemap) (dn : bool) (t : thread) (c : choice) :
    option (gatemap * thread) :=
  let key := t_key t in
  match t_pc t, c with
  | PEntry, CCapacity n ok =>
      Some (gs, at_pc t (if ok then PCtx n else PNoop))
  | PCtx n, CRun =>
      Some (gs, at_pc t (if t_cancelled t then PErr ErrContext else PLock n true))
  | PLock n first, CRun =>
      match lockSection key n first gs with
      | (Admit, gs') => Some (gs', at_pc t PHeld)
      | (Queue w, gs') => Some (gs', at_pc t (PParked w))
      end
  | PParked w, CWake => if closed gs key w then Some (gs, at_pc t PTop) else None
  | PParked w, CCtxDone =>
      if t_cancelled t then Some (gs, at_pc t (PExit true (Some ErrContext))) else None
  | PParked w, CDone =>
      if dn then Some (gs, at_pc t (PExit true (Some ErrRouterClosed))) else None
  | PTop, CRun =>
      Some (gs, at_pc t (if t_cancelled t then PExit true (Some ErrContext) else PTop2))
  | PTop2, CRun =>
      Some (gs, at_pc t (if dn then PExit true (Some ErrRouterClosed) else PCap))
  | PCap, CCapacity n ok =>
      Some (gs, at_pc t (if ok then PLock n false else PExit false None))
  | PExit rej e, CRun =>
      Some (exitWait key rej gs,
            at_pc t (match e with Some e => PErr e | None => PNoop end))
  | PHeld, CRun => Some (release key gs, at_pc t PReleased)
  | _, _ => None
  end.

(** [src key n]: the slot source may answer the capacity [n] for [key]. *)
Section System.
Context (src : ModelKey -> Z -> Prop).

Definition choice_ok (t : thread) (c : choice) : Prop :=
  match c with CCapacity n _ => in_int n /\ src (t_key t) n | _ => True end.

Inductive step : sys -> sys -> Prop :=
| step_thread s i t c gs' t' :
    threads s !! i = Some t -> choice_ok t c ->
    acquire_step (gates s) (done s) t c = Some (gs', t') ->
    step s (mkSys gs' (done s) (<[i := t']> (threads s)))
| step_call s i key cancelled :
    threads s !! i = None ->
    step s (mkSys (gates s) (done s) (<[i := mkThread key cancelled PEntry]> (threads s)))
| step_cancel s i t :
    threads s !! i = Some t ->
    step s (mkSys (gates s) (done s) (<[i := mkThread (t_key t) true (t_pc t)]> (threads s)))
| step_close s : step s (mkSys (gates s) true (threads s)).

Definition initial : sys := mkSys ∅ false ∅.
Definition reachable (s : sys) : Prop := rtc step initial s.

(** ** The accounting invariant *)

Definition holds_permit (key : ModelKey) (t : thread) : bool :=
  bool_decide (t_key t = key) && match t_pc t with PHeld => true | _ => false end.

(** In the queue: from the first block until the caller leaves it. *)
Definition in_queue (key : ModelKey) (t : thread) : bool :=
  bool_decide (t_key t = key) &&
  match t_pc t with
  | PLock _ false | PParked _ | PTop | PTop2 | PCap | PExit _ _ => true
  | _ => false
  end.

Definition gate_of (gs : gatemap) (key : ModelKey) : slotGateState :=
  default newGate (gs !! key).

(** What every goroutine may rely on about its own gate. *)
Definition thread_ok (gs : gatemap) (t : thread) : Prop :=
  let g := gate_of gs (t_key t) in
  (in_queue (t_key t) t = true \/ holds_permit (t_key t) t = true -> is_Some (gs !! t_key t)) /\
  match t_pc t with
  | PCtx n | PLock n _ => in_int n
  | PParked w => (w <= wake g)%nat /\ (w = wake g -> 1 <= inflight g)
  | PHeld => 1 <= inflight g
  | _ => True
  end.

Record inv (s : sys) : Prop := mkInv {
  inv_inflight key : inflight (gate_of (gates s) key) = count (holds_permit key) (threads s);
  inv_waiting key :
    waiting (gate_of (gates s) key) = wrap_int (count (in_queue key) (threads s));
  inv_thread i t : threads s !! i = Some t -> thread_ok (gates s) t;
}.

(** The effect of one step on the goroutine's own gate, and on no other. *)
Record effect (gs gs' : gatemap) (t t' : thread) : Prop := mkEffect {
  eff_key : t_key t' = t_key t;
  eff_other k : k <> t_key t -> gs' !! k = gs !! k;
  eff_some : is_Some (gs !! t_key t) -> is_Some (gs' !! t_key t);
  eff_inflight :
    inflight (gate_of gs' (t_key t)) = inflight (gate_of gs (t_key t))
      - Z.b2z (holds_permit (t_key t) t) + Z.b2z (holds_permit (t_key t) t');
  eff_waiting :
    waiting (gate_of gs' (t_key t)) = wrap_int (waiting (gate_of gs (t_key t))
      - Z.b2z (in_queue (t_key t) t) + Z.b2z (in_queue (t_key t) t'));
  eff_wake : (wake (gate_of gs (t_key t)) <= wake (gate_of gs' (t_key t)))%nat;
  eff_keep : wake (gate_of gs' (t_key t)) = wake (gate_of gs (t_key t)) ->
    inflight (gate_of gs (t_key t)) <= inflight (gate_of gs' (t_key t));
  eff_ok : thread_ok gs' t';
}.

Lemma gate_of_insert gs k g : gate_of (<[k := g]> gs) k = g.
Proof. unfold gate_of. by rewrite lookup_insert_eq. Qed.

Lemma gate_of_ext gs gs' k : gs' !! k = gs !! k -> gate_of gs' k = gate_of gs k.
Proof. unfold gate_of. by intros ->. Qed.

(** Steps that leave the gates alone. *)
Lemma effect_local gs t p :
  in_int (waiting (gate_of gs (t_key t))) ->
  holds_permit (t_key t) t = false -> holds_permit (t_key t) (at_pc t p) = false ->
  in_queue (t_key t) (at_pc t p) = in_queue (t_key t) t -> thread_ok gs (at_pc t p) ->
  effect gs gs t (at_pc t p).
Proof.
  intros Hw H1 H2 H3 Hok. constructor; auto; rewrite ?H1, ?H2, ?H3; try lia.
  apply wrap_int_same; [done|lia].
Qed.

(** The three critical sections. *)
Lemma in_queue_pc key key' canc p :
  in_queue key (mkThread key' canc p) = bool_decide (key' = key) &&
    match p with PLock _ false | PParked _ | PTop | PTop2 | PCap | PExit _ _ => true
    | _ => false end.
Proof. done. Qed.

Lemma holds_permit_pc key key' canc p :
  holds_permit key (mkThread key' canc p) = bool_decide (key' = key) &&
    match p with PHeld => true | _ => false end.
Proof. done. Qed.

Ltac pcs := rewrite ?in_queue_pc, ?holds_permit_pc, ?bool_decide_true by done; simpl.

Lemma lock_effect key canc n first gs gs' d :
  lockSection key n first gs = (d, gs') -> in_int n ->
  in_int (waiting (gate_of gs key)) -> 0 <= inflight (gate_of gs key) ->
  effect gs gs' (mkThread key canc (PLock n first))
    (mkThread key canc (match d with Admit => PHeld | Queue w => PParked w end)).
Proof.
  unfold lockSection. intros Hl Hn Hw Hin. fold (gate_of gs key) in Hl.
  set (g := gate_of gs key) in *.
  assert (1 <= (if n <? 1 then 1 else n) <= MaxInt) as Hn'
    by (unfold in_int, MaxInt, MinInt in *; destruct (Z.ltb_spec n 1); lia).
  destruct (inflight g <? _) eqn:Hlt; to_prop; simplify_eq.
  - assert (wrap_int (inflight g + 1) = inflight g + 1) as Hwrap
      by (apply wrap_int_id; unfold in_int, MinInt in *; lia).
    constructor; simpl; fold g; rewrite ?gate_of_insert; simpl; pcs; rewrite ?Hwrap;
      try (intros; (done || lia)).
    + intros k Hk. by apply lookup_insert_ne.
    + intros _. rewrite lookup_insert_eq. eauto.
    + destruct first; simpl; [apply wrap_int_same; [done|lia]|f_equal; lia].
    + split; simpl; rewrite ?gate_of_insert; simpl; [|lia].
      intros _. rewrite lookup_insert_eq. eauto.
  - constructor; simpl; fold g; rewrite ?gate_of_insert; simpl; pcs;
      try (intros; (done || lia)); try (destruct first; simpl; intros; (done || lia)).
    + intros k Hk. by apply lookup_insert_ne.
    + intros _. rewrite lookup_insert_eq. eauto.
    + destruct first; simpl; [f_equal; lia|apply wrap_int_same; [done|lia]].
    + split; simpl; rewrite ?gate_of_insert.
      * intros _. rewrite lookup_insert_eq. eauto.
      * destruct first; simpl; split; lia.
Qed.

Lemma exit_effect key canc rej e gs :
  is_Some (gs !! key) ->
  effect gs (exitWait key rej gs) (mkThread key canc (PExit rej e))
    (mkThread key canc (match e with Some e => PErr e | None => PNoop end)).
Proof.
  intros [g Hg]. unfold exitWait. rewrite Hg.
  assert (gate_of gs key = g) as Hgo by (unfold gate_of; by rewrite Hg).
  destruct e as [e|]; (constructor; simpl; rewrite ?gate_of_insert, ?Hgo; simpl; pcs;
    [done|by intros k Hk; apply lookup_insert_ne|by intros _; rewrite lookup_insert_eq; eauto|
     lia|f_equal; lia|done|done|]);
    (split; [pcs; intros [|]; done|done]).
Qed.

Lemma release_effect key canc gs :
  is_Some (gs !! key) -> 1 <= inflight (gate_of gs key) -> in_int (waiting (gate_of gs key)) ->
  effect gs (release key gs) (mkThread key canc PHeld) (mkThread key canc PReleased).
Proof.
  intros [g Hg]. unfold release. rewrite Hg.
  assert (gate_of gs key = g) as Hgo by (unfold gate_of; by rewrite Hg). rewrite Hgo.
  intros Hin Hw. destruct (0 <? inflight g) eqn:?; to_prop; [|lia].
  constructor; simpl; rewrite ?gate_of_insert, ?Hgo; simpl; pcs; try (intros; (done || lia)).
  - intros k Hk. by apply lookup_insert_ne.
  - intros _. rewrite lookup_insert_eq. eauto.
  - apply wrap_int_same; [done|lia].
  - split; [pcs; intros [|]; done|done].
Qed.

Lemma acquire_step_effect gs dn t c gs' t' :
  acquire_step gs dn t c = Some (gs', t') -> choice_ok t c ->
  thread_ok gs t -> in_int (waiting (gate_of gs (t_key t))) ->
  0 <= inflight (gate_of gs (t_key t)) ->
  effect gs gs' t t'.
Proof.
  intros Hstep Hc [Hsome Hpc] Hw Hin. destruct t as [key canc p].
  rewrite in_queue_pc, holds_permit_pc, bool_decide_true in Hsome by done.
  simpl in *. unfold acquire_step, at_pc in Hstep. simpl in Hstep.
  destruct p, c; try discriminate Hstep; simplify_eq/=.
  (* the critical sections *)
  all: try (destruct (lockSection _ _ _ _) as [d gs1] eqn:Hl; destruct d; simplify_eq;
    by apply (lock_effect _ _ _ _ _ _ _ Hl)).
  all: try (apply exit_effect; by apply Hsome; left).
  all: try (apply release_effect; [by apply Hsome; right|done|done]).
  (* the local steps *)
  all: repeat case_match; simplify_eq/=.
  all: apply (effect_local _ (mkThread _ _ _)); unfold at_pc; simpl; [done|pcs; done..|].
  all: split; simpl; pcs; try (intros [|]; done); try (by apply Hc); auto.
Qed.

Lemma holds_permit_other key t : t_key t <> key -> holds_permit key t = false.
Proof. intros H. unfold holds_permit. by rewrite bool_decide_false. Qed.

Lemma in_queue_other key t : t_key t <> key -> in_queue key t = false.
Proof. intros H. unfold in_queue. by rewrite bool_decide_false. Qed.

Lemma thread_ok_other gs gs' t t' u :
  effect gs gs' t t' -> thread_ok gs u ->
  (t_pc u = PHeld -> 1 <= inflight (gate_of gs' (t_key u))) -> thread_ok gs' u.
Proof.
  intros He [Hs Hp] Hheld. destruct (decide (t_key u = t_key t)) as [Hk|Hk].
  - destruct He as [_ _ Hsome _ _ Hw Hkeep _]. rewrite <-Hk in *. split; [auto|].
    destruct (t_pc u); auto. destruct Hp as [Hle Heq]. split; [lia|].
    intros ->. etrans; [apply Heq; lia|]. apply Hkeep. lia.
  - pose proof (eff_other _ _ _ _ He _ Hk) as Hg. split.
    + by rewrite Hg.
    + rewrite (gate_of_ext _ _ _ Hg) in *. done.
Qed.

Lemma step_inv s s' : step s s' -> inv s -> inv s'.
Proof.
  intros Hstep [Hi Hw Ht]. destruct Hstep as [s i t c gs' t' Hti Hc Hst|s i key canc Hti|s i t Hti|s].
  - pose proof (Ht _ _ Hti) as Hok.
    assert (effect (gates s) gs' t t') as He.
    { eapply acquire_step_effect; eauto; [rewrite Hw; apply wrap_int_range|].
      rewrite Hi. apply count_nonneg. }
    assert (forall key, inflight (gate_of gs' key) =
        count (holds_permit key) (<[i := t']> (threads s))) as Hi'.
    { intros key. rewrite (count_update _ _ _ _ _ Hti). destruct (decide (key = t_key t)) as [->|Hk].
      - rewrite (eff_inflight _ _ _ _ He), Hi. lia.
      - rewrite (gate_of_ext _ _ _ (eff_other _ _ _ _ He _ Hk)), Hi.
        unfold holds_permit. rewrite (eff_key _ _ _ _ He), bool_decide_false by done. simpl. lia. }
    constructor; simpl; [done| |].
    + intros key. rewrite (count_update _ _ _ _ _ Hti). destruct (decide (key = t_key t)) as [->|Hk].
      * rewrite (eff_waiting _ _ _ _ He), Hw.
        replace (wrap_int _ - _ + _) with (wrap_int (count (in_queue (t_key t)) (threads s)) +
          (Z.b2z (in_queue (t_key t) t') - Z.b2z (in_queue (t_key t) t))) by lia.
        rewrite wrap_int_add_l. f_equal. lia.
      * rewrite (gate_of_ext _ _ _ (eff_other _ _ _ _ He _ Hk)), Hw. f_equal.
        rewrite !in_queue_other by (rewrite ?(eff_key _ _ _ _ He); congruence). simpl. lia.
    + intros j u [[-> <-]|[Hne Hu]]%lookup_insert_Some; [apply He|].
      eapply thread_ok_other; [done|by eapply Ht|]. intros Hheld. rewrite Hi'.
      enough (0 < count (holds_permit (t_key u)) (<[i:=t']> (threads s))) by lia.
      apply count_pos. exists j, u. rewrite lookup_insert_ne by done. split; [done|].
      unfold holds_permit. by rewrite bool_decide_true, Hheld.
  - constructor; simpl.
    + intros k. rewrite count_insert_new by done. rewrite holds_permit_pc, andb_false_r.
      rewrite Hi. simpl. lia.
    + intros k. rewrite count_insert_new by done. rewrite in_queue_pc, andb_false_r.
      rewrite Hw. f_equal. simpl. lia.
    + intros j u [[-> <-]|[_ Hu]]%lookup_insert_Some; [|by eapply Ht].
      split; simpl; [|done]. pcs. intros [|]; done.
  - constructor; simpl.
    + intros k. rewrite (count_update _ _ _ _ _ Hti), Hi. change (holds_permit k (mkThread _ _ _)) with (holds_permit k t). lia.
    + intros k. rewrite (count_update _ _ _ _ _ Hti), Hw. f_equal. change (in_queue k (mkThread _ _ _)) with (in_queue k t). lia.
    + intros j u [[-> <-]|[_ Hu]]%lookup_insert_Some; [|by eapply Ht].
      apply (Ht _ _ Hti).
  - constructor; done.
Qed.

Lemma reachable_inv s : reachable s -> inv s.
Proof.
  unfold reachable. intros H. cut (inv initial).
  { induction H; eauto using step_inv. }
  constructor; simpl; intros; rewrite ?count_empty; done.
Qed.

(** Goroutines holding an unreleased permit for [key]. *)
Definition holders (s : sys) (key : ModelKey) : Z := count (holds_permit key) (threads s).

(** ** The bound on concurrent permits *)

Section Bound.
Context (key : ModelKey) (cap : Z).
Context (Hcap : forall n, src key n -> n <= cap) (Hpos : 1 <= cap).

(** A capacity a goroutine is about to decide with came from the source. *)
Definition read_ok (t : thread) : Prop :=
  t_key t = key -> match t_pc t with PCtx n | PLock n _ => src key n | _ => True end.

Lemma acquire_step_read gs dn t c gs' t' :
  acquire_step gs dn t c = Some (gs', t') -> choice_ok t c -> read_ok t -> read_ok t'.
Proof.
  destruct t as [k canc p]. unfold acquire_step, read_ok, at_pc. simpl. intros Hst Hc Hr.
  destruct p, c; try discriminate Hst; try (destruct (lockSection _ _ _ _) as [d ?]; destruct d);
    repeat case_match; simplify_eq/=; intros; subst; auto; by apply Hc.
Qed.

Lemma acquire_step_bound gs dn t c gs' t' :
  acquire_step gs dn t c = Some (gs', t') -> read_ok t ->
  0 <= inflight (gate_of gs key) <= cap -> in_int cap -> inflight (gate_of gs' key) <= cap.
Proof.
  destruct t as [k canc p]. unfold acquire_step, read_ok. simpl. intros Hst Hr Hb Hi.
  destruct (decide (k = key)) as [->|Hk].
  - destruct p, c; try discriminate Hst; simplify_eq/=; try (repeat case_match; simplify_eq; lia).
    + specialize (Hcap _ (Hr eq_refl)). unfold lockSection in Hst. fold (gate_of gs key) in Hst.
      destruct (_ <? _) eqn:Hlt in Hst; to_prop; simplify_eq; rewrite gate_of_insert; simpl.
      * rewrite wrap_int_id by (unfold in_int, MinInt in *; destruct (Z.ltb_spec n 1); lia).
        destruct (Z.ltb_spec n 1); lia.
      * destruct first; simpl; lia.
    + unfold exitWait. destruct (gs !! key) eqn:Hg; [|lia]. rewrite gate_of_insert. simpl.
      unfold gate_of in Hb. rewrite Hg in Hb. simpl in Hb. lia.
    + unfold release. destruct (gs !! key) eqn:Hg; [|lia]. rewrite gate_of_insert. simpl.
      unfold gate_of in Hb. rewrite Hg in Hb. simpl in Hb. case_match; lia.
  - assert (gs' !! key = gs !! key) as Heq; [|rewrite (gate_of_ext _ _ _ Heq); lia].
    destruct p, c; try discriminate Hst;
      unfold lockSection, exitWait, release in Hst; repeat case_match; simplify_eq;
      rewrite ?lookup_insert_ne by done; done.
Qed.

Lemma reachable_bound s :
  in_int cap -> reachable s ->
  inflight (gate_of (gates s) key) <= cap /\ (forall i t, threads s !! i = Some t -> read_ok t).
Proof.
  intros Hi. revert s. apply (rtc_ind_r (fun s => inflight (gate_of (gates s) key) <= cap /\
    (forall i t, threads s !! i = Some t -> read_ok t))).
  { split; [change (0 <= cap); lia|]. intros ? ?. simpl. by rewrite lookup_empty. }
  intros s s' Hr Hst [Hb Hrd]. pose proof (reachable_inv s Hr) as Hinv.
  destruct Hst as [s i t c gs' t' Hti Hc Hst|s i k canc Hti|s i t Hti|s]; simpl in *.
  - split.
    + eapply acquire_step_bound; eauto. split; [|done].
      rewrite (inv_inflight _ Hinv). apply count_nonneg.
    + intros j u [[-> <-]|[_ Hu]]%lookup_insert_Some; eauto using acquire_step_read.
  - split; [done|]. intros j u [[-> <-]|[_ Hu]]%lookup_insert_Some; [done|eauto].
  - split; [done|]. intros j u [[-> <-]|[_ Hu]]%lookup_insert_Some; [|eauto].
    exact (Hrd _ _ Hti).
  - done.
Qed.
End Bound.

(** C6: in every interleaving, a gate's [inflight] is the number of goroutines
    that hold an unreleased permit (so the clamp of [release] is never needed)
    and its [waiting] gauge the number of callers in its queue; and when the slot
    source never answers more than [cap] for a key, at most [cap] permits of that
    key are held at once. *)
Theorem admission_permits_bounded s key cap :
  reachable s -> (forall n, src key n -> n <= cap) -> 1 <= cap <= MaxInt ->
  holders s key <= cap /\
  inflight (gate_of (gates s) key) = holders s key /\
  waiting (gate_of (gates s) key) = wrap_int (count (in_queue key) (threads s)).
Proof.
  intros Hr Hcap Hpos. pose proof (reachable_inv s Hr) as Hinv.
  destruct (reachable_bound key cap Hcap ltac:(lia) s) as [Hb _];
    [unfold in_int, MinInt; lia|done|].
  unfold holders. rewrite <-(inv_inflight _ Hinv). split_and!; [done..|].
  apply (inv_waiting _ Hinv).
Qed.

(** C7: no wake-up is lost. In every reachable state a caller still blocked on its
    wake channel has a permit holder of the same key that will close that channel
    by releasing; so once all permits of a key are released every caller of its
    queue can leave its [select]. *)
Theorem admission_no_lost_wakeup s i t w :
  reachable s -> threads s !! i = Some t -> t_pc t = PParked w ->
  closed (gates s) (t_key t) w = false ->
  exists j u, threads s !! j = Some u /\ t_key u = t_key t /\ t_pc u = PHeld /\
    closed (release (t_key t) (gates s)) (t_key t) w = true.
Proof.
  intros Hr Hi Hp Hcl. pose proof (reachable_inv s Hr) as Hinv.
  destruct (inv_thread _ Hinv _ _ Hi) as [Hsome Hpc]. rewrite Hp in Hpc. destruct Hpc as [Hle Hin].
  destruct Hsome as [g Hg].
  { left. unfold in_queue. by rewrite bool_decide_true, Hp. }
  unfold closed in Hcl. rewrite Hg in Hcl. to_prop.
  assert (gate_of (gates s) (t_key t) = g) as Hgo by (unfold gate_of; by rewrite Hg).
  rewrite Hgo in *. assert (w = wake g) as Hw by lia. specialize (Hin Hw).
  rewrite <-Hgo, (inv_inflight _ Hinv) in Hin.
  destruct (proj1 (count_pos (holds_permit (t_key t)) (threads s))) as (j & u & Hj & Hu); [lia|].
  unfold holds_permit in Hu. to_prop. exists j, u. split_and!; [done..| |].
  - destruct (t_pc u); done.
  - unfold release, closed. rewrite Hg, lookup_insert_eq. simpl. apply bool_decide_true. lia.
Qed.

(** A caller past its first block that finds the router closed leaves with an
    error: its program counter never gets to the critical section again. *)
Definition leaving (t : thread) : Prop :=
  match t_pc t with
  | PTop | PTop2 | PExit true (Some _) | PErr _ => True
  | _ => False
  end.

(** once the router is closed, a queued caller that was woken or is about to
    re-check is never admitted, whatever capacity frees up: from that point on it
    only ever returns an error. *)
Theorem admission_close_priority s s' i t :
  rtc step s s' -> done s = true -> threads s !! i = Some t -> leaving t ->
  exists t', threads s' !! i = Some t' /\ t_key t' = t_key t /\ leaving t'.
Proof.
  intros Hst. revert t. induction Hst as [s|s s1 s2 Hst _ IH]; intros t Hd Hi Hl; [eauto|].
  assert (done s1 = true /\ exists t1, threads s1 !! i = Some t1 /\ t_key t1 = t_key t /\ leaving t1)
    as (Hd1 & t1 & Hi1 & Hk1 & Hl1).
  { destruct Hst as [s j u c gs' u' Hu Hc Hst|s j k canc Hj|s j u Hj|s]; simpl; (split; [done|]).
    - destruct (decide (j = i)) as [->|Hne]; [|rewrite lookup_insert_ne by done; eauto].
      assert (u = t) as -> by congruence. rewrite lookup_insert_eq. eexists; split; [done|].
      unfold acquire_step, leaving, at_pc in *. rewrite Hd in Hst.
      destruct (t_pc t) as [| | | | | | |[] []| | | |], c; try done;
        repeat case_match; simplify_eq/=; done.
    - rewrite lookup_insert_ne by congruence. eauto.
    - destruct (decide (j = i)) as [->|Hne]; [|rewrite lookup_insert_ne by done; eauto].
      assert (u = t) as -> by congruence. rewrite lookup_insert_eq. eauto.
    - eauto. }
  destruct (IH t1 Hd1 Hi1 Hl1) as (t' & ? & Hk & ?). exists t'. by rewrite Hk.
Qed.
End System.

(** ** Executable schedules *)

Inductive label :=
| LThread (i : nat) (c : choice)
| LCall (i : nat) (key : ModelKey) (cancelled : bool)
| LCancel (i : nat)
| LClose.

Definition exec1 (s : sys) (l : label) : option sys :=
  match l with
  | LThread i c =>
      t ← threads s !! i;
      '(gs, t') ← acquire_step (gates s) (done s) t c;
      Some (mkSys gs (done s) (<[i := t']> (threads s)))
  | LCall i key canc =>
      match threads s !! i with
      | Some _ => None
      | None => Some (mkSys (gates s) (done s) (<[i := mkThread key canc PEntry]> (threads s)))
      end
  | LCancel i =>
      t ← threads s !! i;
      Some (mkSys (gates s) (done s) (<[i := mkThread (t_key t) true (t_pc t)]> (threads s)))
  | LClose => Some (mkSys (gates s) true (threads s))
  end.

Fixpoint exec (ls : list label) (s : sys) : option sys :=
  match ls with
  | [] => Some s
  | l :: ls => s' ← exec1 s l; exec ls s'
  end.

Definition label_ok (src : ModelKey -> Z -> Prop) (l : label) : Prop :=
  match l with LThread _ (CCapacity n _) => in_int n /\ forall k, src k n | _ => True end.

Lemma exec_sound src ls s s' :
  Forall (label_ok src) ls -> exec ls s = Some s' -> rtc (step src) s s'.
Proof.
  revert s. induction ls as [|l ls IH]; intros s Hok Hex; [by simplify_eq/=|].
  inversion_clear Hok as [|? ? Hl Hls]. simpl in Hex.
  destruct (exec1 s l) as [s1|] eqn:H1; [|done]. eapply rtc_l; [|by apply IH].
  destruct l as [i c|i key canc|i|]; simpl in H1.
  - destruct (threads s !! i) as [t|] eqn:Hi; [|done]. simpl in H1.
    destruct (acquire_step _ _ _ _) as [[gs t']|] eqn:Ha; [|done]. simplify_eq/=.
    eapply step_thread; eauto. destruct c; try done. simpl in *. naive_solver.
  - case_match; simplify_eq. by apply step_call.
  - destruct (threads s !! i) as [t|] eqn:Hi; [|done]. simplify_eq/=. by apply step_cancel.
  - simplify_eq. apply step_close.
Qed.

(** One holder and one waiter of a single-slot model. *)
Definition key0 : ModelKey := mkModelKey "llamacpp" "qwen3:8b".
Definition src1 : ModelKey -> Z -> Prop := fun _ n => n = 1.
Definition schedule0 : list label :=
  [ LCall 0 key0 false; LThread 0 (CCapacity 1 true); LThread 0 CRun; LThread 0 CRun;
    LCall 1 key0 false; LThread 1 (CCapacity 1 true); LThread 1 CRun; LThread 1 CRun ].
Definition state0 : sys := default initial (exec schedule0 initial).
(** The holder releases, the waiter wakes up, and the router is closed. *)
Definition state1 : sys :=
  default initial (exec [LThread 0 CRun; LThread 1 CWake; LClose] state0).
Definition state2 : sys := default initial (exec [LThread 1 CRun; LThread 1 CRun] state1).

Lemma schedule0_ok : Forall (label_ok src1) schedule0.
Proof. repeat constructor; done. Qed.

Lemma admission_permits_bounded_witness : holders state0 key0 <= 1.
Proof.
  apply (admission_permits_bounded src1 state0 key0 1).
  - apply (exec_sound _ schedule0); [apply schedule0_ok|vm_compute; reflexivity].
  - intros n ->. done.
  - done.
Defined.

Lemma admission_no_lost_wakeup_witness :
  exists j u, threads state0 !! j = Some u /\ t_pc u = PHeld.
Proof.
  destruct (admission_no_lost_wakeup src1 state0 1 (mkThread key0 false (PParked 0)) 0)
    as (j & u & ? & _ & ? & _).
  - apply (exec_sound _ schedule0); [apply schedule0_ok|vm_compute; reflexivity].
  - vm_compute; reflexivity.
  - reflexivity.
  - vm_compute; reflexivity.
  - eauto.
Defined.

Lemma admission_close_priority_witness :
  exists t', threads state2 !! 1%nat = Some t' /\ leaving t'.
Proof.
  destruct (admission_close_priority src1 state1 state2 1 (mkThread key0 false PTop))
    as (t' & ? & _ & ?).
  - apply (exec_sound _ [LThread 1 CRun; LThread 1 CRun]);
      [repeat constructor; done|vm_compute; reflexivity].
  - vm_compute; reflexivity.
  - vm_compute; reflexivity.
  - exact I.
  - eauto.
Defined.
