(* ===== verification/WarmCache.v ===== *)
(** * WarmCache: the prefetch cache and its client (prefetch/cache.go, prefetch/engine.go)

    An LRU cache with a per-entry time to live, built in the source from a map
    and a [container/list] of pointers.  The model keeps the pointers: list
    elements are allocated identifiers, [items] maps a key to an element, [elems]
    is the heap the elements live in and [order] is the list, front first.  The
    cache refines an association list in recency order; [TTLCache] is what the
    prefetch engine relies on. *)

From S2P Require Import Prelude.

(** ** The cache *)

Section WarmCache.
Context {V : Type}.

Record cacheEntry := mkEntry { e_key : string; e_results : V; e_expiresAt : Z }.

Record WarmCache := mkCache {
  capacity : Z;
  ttl : Z;
  items : gmap string nat;
  order : list nat;
  elems : gmap nat cacheEntry;
  fresh : nat;
}.

Definition NewWarmCache (capacity ttl : Z) : WarmCache := mkCache capacity ttl ∅ [] ∅ 0.

Definition list_remove (id : nat) (l : list nat) : list nat := filter (fun x => x <> id) l.

(** [order.MoveToFront]. *)
Definition MoveToFront (id : nat) (c : WarmCache) : WarmCache :=
  mkCache (capacity c) (ttl c) (items c) (id :: list_remove id (order c)) (elems c) (fresh c).

(** An element of the list always has a value; the [None] case of the heap
    lookup is dead ([wf]). *)
Definition removeLocked (id : nat) (c : WarmCache) : WarmCache :=
  match elems c !! id with
  | None => c
  | Some e => mkCache (capacity c) (ttl c) (delete (e_key e) (items c))
                (list_remove id (order c)) (elems c) (fresh c)
  end.

Definition evictLRULocked (c : WarmCache) : WarmCache :=
  match last (order c) with
  | None => c
  | Some back => removeLocked back c
  end.

Definition Get (now : Z) (key : string) (c : WarmCache) : option V * WarmCache :=
  match items c !! key with
  | None => (None, c)
  | Some id =>
      match elems c !! id with
      | None => (None, c)
      | Some e =>
          if e_expiresAt e <? now then (None, removeLocked id c)
          else (Some (e_results e), MoveToFront id c)
      end
  end.

(** The loop [for c.order.Len() >= c.capacity]; every turn removes one element,
    so the length of the list is enough fuel ([evict_loop_length]). *)
Fixpoint evict_loop (fuel : nat) (c : WarmCache) : WarmCache :=
  match fuel with
  | O => c
  | S fuel => if capacity c <=? len (order c) then evict_loop fuel (evictLRULocked c) else c
  end.

Definition Put (now : Z) (key : string) (results : V) (c : WarmCache) : WarmCache :=
  match items c !! key with
  | Some id =>
      match elems c !! id with
      | None => c
      | Some e =>
          MoveToFront id
            (mkCache (capacity c) (ttl c) (items c) (order c)
               (<[id := mkEntry (e_key e) results (now + ttl c)]> (elems c)) (fresh c))
      end
  | None =>
      if capacity c <=? 0 then c else
      let c := evict_loop (length (order c)) c in
      mkCache (capacity c) (ttl c) (<[key := fresh c]> (items c)) (fresh c :: order c)
        (<[fresh c := mkEntry key results (now + ttl c)]> (elems c)) (S (fresh c))
  end.

Definition Len (c : WarmCache) : Z := len (order c).

Definition Clear (c : WarmCache) : WarmCache :=
  mkCache (capacity c) (ttl c) ∅ [] (elems c) (fresh c).

(** ** Operation sequences *)

Inductive cop := CGet (now : Z) (key : string) | CPut (now : Z) (key : string) (v : V) | CClear.

(** The answers of the [Get]s, and the final cache. *)
Fixpoint run_cache (ops : list cop) (c : WarmCache) : list (option V) * WarmCache :=
  match ops with
  | [] => ([], c)
  | CGet now k :: ops =>
      let rs := run_cache ops (Get now k c).2 in ((Get now k c).1 :: rs.1, rs.2)
  | CPut now k v :: ops => run_cache ops (Put now k v c)
  | CClear :: ops => run_cache ops (Clear c)
  end.

(** ** The abstract cache: entries in recency order *)

Definition abs (c : WarmCache) : list cacheEntry := omap (fun id => elems c !! id) (order c).

Definition without (key : string) (l : list cacheEntry) : list cacheEntry :=
  filter (fun e => e_key e <> key) l.

Definition find_key (key : string) (l : list cacheEntry) : option cacheEntry :=
  head (filter (fun e => e_key e = key) l).

Definition spec_get (now : Z) (key : string) (l : list cacheEntry) : option V * list cacheEntry :=
  match find_key key l with
  | None => (None, l)
  | Some e =>
      if e_expiresAt e <? now then (None, without key l)
      else (Some (e_results e), e :: without key l)
  end.

Definition spec_put (cap now : Z) (key : string) (v : V) (ttl : Z) (l : list cacheEntry) :
    list cacheEntry :=
  take (Z.to_nat cap) (mkEntry key v (now + ttl) :: without key l).

Fixpoint run_spec (cap ttl : Z) (ops : list cop) (l : list cacheEntry) :
    list (option V) * list cacheEntry :=
  match ops with
  | [] => ([], l)
  | CGet now k :: ops =>
      let rs := run_spec cap ttl ops (spec_get now k l).2 in ((spec_get now k l).1 :: rs.1, rs.2)
  | CPut now k v :: ops => run_spec cap ttl ops (spec_put cap now k v ttl l)
  | CClear :: ops => run_spec cap ttl ops []
  end.

(** The representation invariant. *)
Record wf (c : WarmCache) : Prop := mkWf {
  wf_nodup : NoDup (order c);
  wf_items k id : items c !! k = Some id <->
    id ∈ order c /\ exists e, elems c !! id = Some e /\ e_key e = k;
  wf_elems id : id ∈ order c -> is_Some (elems c !! id);
  wf_fresh id : id ∈ order c -> (id < fresh c)%nat;
  wf_len : (length (order c) <= Z.to_nat (capacity c))%nat;
}.

(** ** Refinement *)

Implicit Types (c : WarmCache).

Lemma elem_list_remove id x l : x ∈ list_remove id l <-> x ∈ l /\ x <> id.
Proof. unfold list_remove. rewrite list_elem_of_filter. tauto. Qed.

Lemma list_remove_notin id l : id ∉ l -> list_remove id l = l.
Proof.
  intros Hn. unfold list_remove. apply filter_all, Forall_forall. intros x Hx ->. done.
Qed.

Lemma NoDup_list_remove id l : NoDup l -> NoDup (list_remove id l).
Proof. apply NoDup_filter. Qed.

Lemma length_list_remove id l : (length (list_remove id l) <= length l)%nat.
Proof. apply length_filter. Qed.

Lemma length_list_remove_lt id l : id ∈ l -> (length (list_remove id l) < length l)%nat.
Proof. intros Hin. apply (length_filter_lt _ _ id); [done|]. naive_solver. Qed.

(** The element of a key is the only element with that key. *)
Lemma wf_unique c id x e ex :
  wf c -> id ∈ order c -> x ∈ order c -> elems c !! id = Some e -> elems c !! x = Some ex ->
  e_key ex = e_key e -> x = id.
Proof.
  intros Hwf Hid Hx He Hex Hk.
  assert (items c !! e_key e = Some id) by (apply (wf_items _ Hwf); eauto).
  assert (items c !! e_key e = Some x) by (apply (wf_items _ Hwf); eauto). congruence.
Qed.

Lemma abs_list_remove c id e (elems' : gmap nat cacheEntry) :
  wf c -> id ∈ order c -> elems c !! id = Some e ->
  (forall x, x <> id -> elems' !! x = elems c !! x) ->
  omap (fun x => elems' !! x) (list_remove id (order c)) = without (e_key e) (abs c).
Proof.
  intros Hwf Hid He Hext. unfold abs, list_remove, without. apply omap_filter.
  intros x Hx. destruct (wf_elems _ Hwf x Hx) as [ex Hex]. exists ex. split_and!; [done| |].
  - split; intros Hne Hk; apply Hne; [by apply (wf_unique c id x e ex)|by simplify_eq].
  - intros Hne. by rewrite Hext.
Qed.

Lemma find_key_abs c key :
  wf c -> find_key key (abs c) = id ← items c !! key; elems c !! id.
Proof.
  intros Hwf. destruct (items c !! key) as [id|] eqn:Hid; simpl.
  - pose proof Hid as Hk. apply (wf_items _ Hwf) in Hk as (Hin & e & He & <-). rewrite He.
    unfold find_key, abs. assert (forall x, x ∈ order c -> x ∈ order c) as Hsub by done.
    revert Hin Hsub. generalize (order c) at 1 2 4. intros l.
    induction l as [|x l IH]; intros Hin Hsub; [by apply elem_of_nil in Hin|].
    assert (x ∈ order c) as Hx by (apply Hsub; left).
    destruct (wf_elems _ Hwf x Hx) as [ex Hex]. simpl. rewrite Hex.
    destruct (decide (x = id)) as [->|Hne].
    + simplify_eq. by rewrite filter_cons_True.
    + rewrite filter_cons_False.
      * apply IH; [by apply elem_of_cons in Hin as [?|?]|]. intros; apply Hsub; by right.
      * intros Hk. apply Hne. assert (items c !! e_key e = Some x) by (apply (wf_items _ Hwf); eauto).
        congruence.
  - unfold find_key. rewrite (proj2 (head_None _)); [done|].
    apply filter_none, Forall_forall. intros e He Hk.
    unfold abs in He. apply list_elem_of_omap in He as (id & Hin & He).
    assert (items c !! key = Some id) by (apply (wf_items _ Hwf); eauto). congruence.
Qed.

Lemma removeLocked_wf c id : wf c -> id ∈ order c -> wf (removeLocked id c).
Proof.
  intros Hwf Hin. destruct (wf_elems _ Hwf id Hin) as [e He]. unfold removeLocked. rewrite He.
  constructor; simpl.
  - apply NoDup_list_remove, Hwf.
  - intros k x. rewrite elem_list_remove, lookup_delete_Some, (wf_items _ Hwf).
    split.
    + intros (Hne & Hx & ex & Hex & <-). split_and!; [done| |by eauto].
      intros ->. simplify_eq.
    + intros ((Hx & Hne) & ex & Hex & <-). split_and!; [|done|by eauto].
      intros Hk. apply Hne. by apply (wf_unique c id x e ex).
  - intros x [Hx _]%elem_list_remove. by apply Hwf.
  - intros x [Hx _]%elem_list_remove. by apply Hwf.
  - etrans; [apply length_list_remove|apply Hwf].
Qed.

Lemma MoveToFront_wf c id : wf c -> id ∈ order c -> wf (MoveToFront id c).
Proof.
  intros Hwf Hin. unfold MoveToFront. constructor; simpl.
  - constructor; [rewrite elem_list_remove; naive_solver|]. apply NoDup_list_remove, Hwf.
  - intros k x. rewrite (wf_items _ Hwf), elem_of_cons, elem_list_remove.
    destruct (decide (x = id)) as [->|]; naive_solver.
  - intros x [->|[Hx _]%elem_list_remove]%elem_of_cons; by apply Hwf.
  - intros x [->|[Hx _]%elem_list_remove]%elem_of_cons; by apply Hwf.
  - pose proof (wf_len _ Hwf). pose proof (length_list_remove_lt id _ Hin). simpl. lia.
Qed.

Lemma abs_MoveToFront c id e :
  wf c -> id ∈ order c -> elems c !! id = Some e ->
  abs (MoveToFront id c) = e :: without (e_key e) (abs c).
Proof.
  intros Hwf Hin He. unfold abs, MoveToFront. simpl. rewrite He. f_equal.
  by apply abs_list_remove.
Qed.

Lemma abs_removeLocked c id e :
  wf c -> id ∈ order c -> elems c !! id = Some e ->
  abs (removeLocked id c) = without (e_key e) (abs c).
Proof.
  intros Hwf Hin He. unfold removeLocked. rewrite He. unfold abs at 1. simpl.
  by apply abs_list_remove.
Qed.

(** Eviction drops the back of the list. *)
Lemma evictLRU_order c id l :
  wf c -> order c = l ++ [id] -> order (evictLRULocked c) = l /\ wf (evictLRULocked c) /\
  elems (evictLRULocked c) = elems c /\ fresh (evictLRULocked c) = fresh c /\
  capacity (evictLRULocked c) = capacity c /\ ttl (evictLRULocked c) = ttl c /\
  (forall k, items c !! k = None -> items (evictLRULocked c) !! k = None).
Proof.
  intros Hwf Ho. assert (id ∈ order c) as Hin by (rewrite Ho; set_solver).
  unfold evictLRULocked. rewrite Ho, last_snoc.
  pose proof (removeLocked_wf c id Hwf Hin) as Hwf'.
  destruct (wf_elems _ Hwf id Hin) as [e He]. revert Hwf'. unfold removeLocked. rewrite He. simpl.
  intros Hwf'. split_and!; try done.
  - rewrite Ho. unfold list_remove. rewrite filter_app. fold (list_remove id l).
    pose proof (wf_nodup _ Hwf) as Hnd. rewrite Ho, NoDup_app in Hnd.
    rewrite list_remove_notin by (intros ?; destruct Hnd as (_ & Hnd & _); set_solver).
    rewrite filter_cons_False by naive_solver. apply app_nil_r.
  - intros k Hk. rewrite lookup_delete_None. auto.
Qed.

Lemma evict_loop_spec fuel c :
  wf c -> 0 < capacity c -> (length (order c) <= fuel)%nat ->
  let c' := evict_loop fuel c in
  wf c' /\ order c' = take (Z.to_nat (capacity c) - 1) (order c) /\ elems c' = elems c /\
  fresh c' = fresh c /\ capacity c' = capacity c /\ ttl c' = ttl c /\
  (forall k, items c !! k = None -> items c' !! k = None).
Proof.
  revert c. induction fuel as [|fuel IH]; intros c Hwf Hcap Hlen; simpl.
  { split_and!; try done. destruct (order c); [by rewrite take_nil|simpl in *; lia]. }
  destruct (capacity c <=? len (order c)) eqn:Hfull; to_prop.
  - destruct (order c) as [|id l _] eqn:Ho using rev_ind; [unfold len in Hfull; simpl in *; lia|].
    destruct (evictLRU_order c id l Hwf Ho) as (Ho' & Hwf' & He & Hf & Hc & Ht & Hk).
    rewrite length_app in Hlen. simpl in Hlen.
    destruct (IH (evictLRULocked c)) as (? & Hord & -> & -> & -> & -> & Hk');
      [done|by rewrite Hc|rewrite Ho'; lia|].
    split_and!; try done; [|by auto].
    rewrite Hord, Ho', Hc. rewrite take_app_le; [done|].
    pose proof (wf_len _ Hwf) as Hl. rewrite Ho, length_app in Hl. simpl in Hl.
    unfold len in Hfull. rewrite length_app in Hfull. simpl in Hfull. lia.
  - split_and!; try done. rewrite take_ge; [done|]. unfold len in Hfull. lia.
Qed.

Lemma omap_take_total (f : nat -> option cacheEntry) n l :
  (forall x, x ∈ l -> is_Some (f x)) -> omap f (take n l) = take n (omap f l).
Proof.
  revert n. induction l as [|x l IH]; intros n Hf; [by destruct n|].
  destruct n as [|n]; [done|]. destruct (Hf x) as [y Hy]; [by left|].
  simpl. rewrite Hy. simpl. f_equal. apply IH. intros; apply Hf; by right.
Qed.

Lemma length_abs c : wf c -> length (abs c) = length (order c).
Proof.
  intros Hwf. unfold abs. pose proof (wf_elems _ Hwf) as Hf. revert Hf.
  generalize (order c) as l. induction l as [|x l IH]; intros Hf; [done|].
  destruct (Hf x) as [y Hy]; [by left|]. simpl. rewrite Hy. simpl. f_equal.
  apply IH. intros; apply Hf; by right.
Qed.

Lemma without_absent c key : wf c -> items c !! key = None -> without key (abs c) = abs c.
Proof.
  intros Hwf Hk. apply filter_all, Forall_forall. intros e He Hek.
  unfold abs in He. apply list_elem_of_omap in He as (id & Hin & He).
  assert (items c !! key = Some id) by (apply (wf_items _ Hwf); eauto). congruence.
Qed.

Lemma length_without key l : (length (without key l) <= length l)%nat.
Proof. apply length_filter. Qed.

Lemma length_without_lt key e l :
  e ∈ l -> e_key e = key -> (length (without key l) < length l)%nat.
Proof. intros Hin Hk. apply (length_filter_lt _ _ e); [done|]. naive_solver. Qed.

Lemma cache_wf_New cap d : wf (NewWarmCache cap d).
Proof.
  constructor; simpl.
  - constructor.
  - intros k id. rewrite lookup_empty. split; [done|]. by intros (Hn%elem_of_nil & _).
  - by intros ? Hn%elem_of_nil.
  - by intros ? Hn%elem_of_nil.
  - lia.
Qed.

Lemma Put_update_wf now key v c id e :
  wf c -> items c !! key = Some id -> elems c !! id = Some e ->
  let c1 := mkCache (capacity c) (ttl c) (items c) (order c)
              (<[id := mkEntry (e_key e) v (now + ttl c)]> (elems c)) (fresh c) in
  wf c1 /\ abs (MoveToFront id c1) = mkEntry key v (now + ttl c) :: without key (abs c).
Proof.
  intros Hwf Hid He. simpl. apply (wf_items _ Hwf) in Hid as (Hin & e' & He' & <-).
  rewrite He in He'. injection He' as <-. split.
  - constructor; simpl; try apply Hwf.
    + intros k x. rewrite (wf_items _ Hwf). destruct (decide (x = id)) as [->|Hne].
      * rewrite lookup_insert_eq. split; intros (? & ex & Hex & <-); simplify_eq; eauto.
      * by rewrite lookup_insert_ne.
    + intros x Hx. destruct (decide (x = id)) as [->|Hne];
        [rewrite lookup_insert_eq; eauto|rewrite lookup_insert_ne by done; by apply Hwf].
  - unfold abs at 1, MoveToFront. simpl. rewrite lookup_insert_eq. f_equal.
    apply abs_list_remove; [done..|]. intros x Hx. by rewrite lookup_insert_ne.
Qed.

Lemma Put_insert_wf now key v c :
  wf c -> items c !! key = None -> (length (order c) < Z.to_nat (capacity c))%nat ->
  let c' := mkCache (capacity c) (ttl c) (<[key := fresh c]> (items c)) (fresh c :: order c)
        (<[fresh c := mkEntry key v (now + ttl c)]> (elems c)) (S (fresh c)) in
  wf c' /\ abs c' = mkEntry key v (now + ttl c) :: abs c.
Proof.
  intros Hwf Hk Hlen. simpl.
  assert (forall x, x ∈ order c -> x <> fresh c) as Hfr.
  { intros x Hx ->. pose proof (wf_fresh _ Hwf _ Hx). lia. }
  split.
  - constructor; simpl.
    + constructor; [|apply Hwf]. intros Hin. by apply (Hfr _ Hin).
    + intros k x. rewrite elem_of_cons, lookup_insert_Some, (wf_items _ Hwf).
      destruct (decide (x = fresh c)) as [->|Hne].
      * rewrite lookup_insert_eq. split.
        -- intros [[-> _]|(_ & Hin & _)]; [|by destruct (Hfr _ Hin)].
           split; [by left|]. eauto.
        -- intros (_ & ex & [= <-] & <-). by left.
      * rewrite lookup_insert_ne by done. split.
        -- intros [[-> <-]|(_ & Hin & Hex)]; [done|]. eauto.
        -- intros ([?|Hin] & ex & Hex & <-); [done|]. right. split; [|by eauto].
           intros ->. assert (items c !! e_key ex = Some x) by (apply (wf_items _ Hwf); eauto).
           congruence.
    + intros x [->|Hx]%elem_of_cons; [rewrite lookup_insert_eq; eauto|].
      rewrite lookup_insert_ne by (by apply not_eq_sym, Hfr). by apply Hwf.
    + intros x [->|Hx]%elem_of_cons; [lia|]. pose proof (wf_fresh _ Hwf _ Hx). lia.
    + lia.
  - unfold abs. simpl. rewrite lookup_insert_eq. f_equal.
    pose proof Hfr as Hfr'. revert Hfr'. generalize (order c). intros l.
    induction l as [|x l IH]; intros Hne; [done|]. simpl.
    rewrite lookup_insert_ne by (apply not_eq_sym, Hne; by left).
    rewrite IH; [done|]. intros; apply Hne; by right.
Qed.

Lemma Put_refines now key v c :
  wf c ->
  wf (Put now key v c) /\ capacity (Put now key v c) = capacity c /\ ttl (Put now key v c) = ttl c /\
  abs (Put now key v c) = spec_put (capacity c) now key v (ttl c) (abs c).
Proof.
  intros Hwf. pose proof (length_abs _ Hwf) as Hl. pose proof (wf_len _ Hwf) as Hcap.
  unfold Put, spec_put. destruct (items c !! key) as [id|] eqn:Hid.
  - pose proof Hid as (Hin & e & He & Hek)%(wf_items _ Hwf). rewrite He.
    destruct (Put_update_wf now key v c id e Hwf Hid He) as [Hwf1 Habs].
    split_and!; [by apply MoveToFront_wf|done|done|]. rewrite Habs, take_ge; [done|].
    assert (e ∈ abs c) as Hine by (apply list_elem_of_omap; eauto).
    pose proof (length_without_lt key e (abs c) Hine Hek). simpl. lia.
  - rewrite without_absent by done. destruct (capacity c <=? 0) eqn:Hc; to_prop.
    + split_and!; [done..|]. replace (Z.to_nat (capacity c)) with 0%nat by lia.
      destruct (abs c); [done|]. simpl in *. lia.
    + destruct (evict_loop_spec (length (order c)) c Hwf Hc ltac:(lia))
        as (Hwf' & Ho & He & Hf & Hcc & Ht & Hk).
      destruct (Put_insert_wf now key v _ Hwf' (Hk _ Hid)) as [Hwf2 Habs].
      { rewrite Ho, length_take, Hcc. lia. }
      split_and!; [done..|]. rewrite Habs, Ht.
      replace (Z.to_nat (capacity c)) with (S (Z.to_nat (capacity c) - 1)) by lia.
      simpl. f_equal. unfold abs. rewrite He, Ho. apply omap_take_total. apply Hwf.
Qed.

Lemma Get_refines now key c :
  wf c ->
  wf (Get now key c).2 /\ capacity (Get now key c).2 = capacity c /\
  ttl (Get now key c).2 = ttl c /\
  ((Get now key c).1, abs (Get now key c).2) = spec_get now key (abs c).
Proof.
  intros Hwf. unfold Get, spec_get. rewrite find_key_abs by done.
  destruct (items c !! key) as [id|] eqn:Hid; simpl; [|done].
  pose proof Hid as (Hin & e & He & <-)%(wf_items _ Hwf). rewrite He.
  destruct (e_expiresAt e <? now) eqn:Hexp; simpl.
  - split_and!; [by apply removeLocked_wf|unfold removeLocked; by rewrite He..|].
    by rewrite (abs_removeLocked c id e).
  - split_and!; [by apply MoveToFront_wf|done|done|]. by rewrite (abs_MoveToFront c id e).
Qed.

Lemma Clear_wf c : wf c -> wf (Clear c).
Proof.
  intros Hwf. constructor; simpl.
  - constructor.
  - intros k id. rewrite lookup_empty. split; [done|]. by intros (Hn%elem_of_nil & _).
  - by intros ? Hn%elem_of_nil.
  - by intros ? Hn%elem_of_nil.
  - lia.
Qed.

Lemma run_refines ops c :
  wf c -> wf (run_cache ops c).2 /\
  capacity (run_cache ops c).2 = capacity c /\
  ((run_cache ops c).1, abs (run_cache ops c).2) = run_spec (capacity c) (ttl c) ops (abs c).
Proof.
  revert c. induction ops as [|[now k|now k v|] ops IH]; intros c Hwf; simpl; [done|..].
  - destruct (Get_refines now k c Hwf) as (Hwf' & Hc & Ht & Hg).
    destruct (IH _ Hwf') as (? & ? & Hr). rewrite Hc, Ht in Hr. rewrite <-Hg. simpl.
    split_and!; [done|congruence|]. by rewrite <-Hr.
  - destruct (Put_refines now k v c Hwf) as (Hwf' & Hc & Ht & Hg).
    destruct (IH _ Hwf') as (? & ? & Hr). rewrite Hc, Ht, Hg in Hr.
    split_and!; [done|congruence|done].
  - destruct (IH _ (Clear_wf c Hwf)) as (? & ? & Hr). split_and!; done.
Qed.

(** C40: the map-and-list cache refines the association list kept in recency
    order: over any sequence of operations every [Get] answers as the abstract
    cache does, the contents agree, and the number of entries never exceeds the
    capacity (none are kept when the capacity is not positive). *)
Theorem warmcache_refines_lru cap d ops :
  let c := run_cache ops (NewWarmCache cap d) in
  (c.1, abs c.2) = run_spec cap d ops [] /\ Len c.2 <= Z.max 0 cap.
Proof.
  intros c. destruct (run_refines ops _ (cache_wf_New cap d)) as (Hwf & Hc & Hr). split; [done|].
  pose proof (wf_len _ Hwf) as Hl. rewrite Hc in Hl. unfold Len, len, c. simpl in Hl. lia.
Qed.
End WarmCache.
Arguments cop V : clear implicits.
Arguments cacheEntry V : clear implicits.
Arguments WarmCache V : clear implicits.
