(* ===== verification/Prefetch.v ===== *)
(** * Prefetch: the prefetching retriever over its cache (prefetch/engine.go, prefetch/cache.go)

    [TTLCache] is the interface the engine relies on: a cache answers a key only
    with the value last put under it, and only within its time to live.  The
    engine's property is proved against the interface; [WarmCache] implements
    it. *)

From stdpp Require Import pretty.
From S2P Require Import Prelude GoString WarmCache.
#[local] Open Scope Z_scope.

(** ** The interface *)

Class TTLCache (C V : Type) := {
  c_ttl : C -> Z;
  c_get : Z -> string -> C -> option V * C;
  c_put : Z -> string -> V -> C -> C;
}.

(** [Rep c last]: [last k] is the time and value of the last put under [k]. *)
Class TTLCacheLaws (C V : Type) `{TTLCache C V} (Rep : C -> (string -> option (Z * V)) -> Prop) := {
  rep_get c last now k r c' :
    Rep c last -> c_get now k c = (r, c') ->
    Rep c' last /\ c_ttl c' = c_ttl c /\
    (forall v, r = Some v -> exists t, last k = Some (t, v) /\ now <= t + c_ttl c);
  rep_put c last now k v :
    Rep c last ->
    Rep (c_put now k v c) (fun k' => if decide (k' = k) then Some (now, v) else last k') /\
    c_ttl (c_put now k v c) = c_ttl c;
}.

(** ** Cache keys *)

Record QueryContext := mkQueryContext {
  q_CurrentFile : string;
  q_WorkspaceRoot : string;
  q_OpenFiles : list string;
  q_Timestamp : option Z;  (** Unix seconds; [None] is the zero time *)
  q_Metadata : gmap string string;
}.

Record cacheKey := mkCacheKey {
  ck_query : string;
  ck_k : Z;
  ck_currentFile : string;
  ck_workspaceRoot : string;
  ck_openFiles : list string;
  ck_timestampUnix : Z;
}.

(** [sort.Strings]: byte-wise order. *)
Definition sort_strings (l : list string) : list string := merge_sort String.le l.

Definition newCacheKey (query : string) (k : Z) (qCtx : QueryContext) : cacheKey :=
  mkCacheKey query k (q_CurrentFile qCtx) (q_WorkspaceRoot qCtx)
    (sort_strings (q_OpenFiles qCtx)) (default 0 (q_Timestamp qCtx)).

Definition US : Ascii.ascii := Ascii.Ascii true true true true true false false false.

(** [strings.Join(ss, "\x1f")]. *)
Fixpoint join_us (ss : list string) : string :=
  match ss with
  | [] => ""
  | [s] => s
  | s :: ss => s +:+ String US (join_us ss)
  end.

Definition key_String (ck : cacheKey) : string :=
  ck_query ck +:+ String NUL (pretty (ck_k ck) +:+ String NUL (ck_currentFile ck +:+
    String NUL (ck_workspaceRoot ck +:+ String NUL (join_us (ck_openFiles ck) +:+
    String NUL (pretty (ck_timestampUnix ck)))))).

(** ** The engine *)

Record RetrieveResult (V : Type) := mkRetrieveResult { Chunks : V; CacheHit : bool }.
Arguments mkRetrieveResult {V}.
Arguments Chunks {V}.
Arguments CacheHit {V}.

(** [fmt.Errorf("prefetch: cold retrieve: %w", err)]. *)
Inductive engineErr (E : Type) := ErrColdRetrieve (err : E).
Arguments ErrColdRetrieve {E}.

Definition prefetchK : Z := 10.

Section Engine.
Context {C V E : Type} `{TTLCache C V}.

(** [cache] is nil when prefetching is disabled; [prefetching] says whether
    [prefetchCancel] is set, that is whether a prefetch round is in flight. *)
Record Engine := mkEngine { cache : option C; prefetching : bool }.

Definition cancelPrefetch (e : Engine) : Engine := mkEngine (cache e) false.

(** The cold retriever's answer to this request is [cold]; [now1] and [now2] are
    the clock readings of the cache's [Get] and [Put]. *)
Definition Retrieve (now1 now2 : Z) (query : string) (k : Z) (qCtx : QueryContext)
    (policyActive skipCache : bool) (cold : result E (RetrieveResult V)) (e : Engine) :
    result (engineErr E) (RetrieveResult V) * Engine :=
  let e := cancelPrefetch e in
  let key := key_String (newCacheKey query k qCtx) in
  let '(hit, e) :=
    match cache e with
    | Some c =>
        if negb policyActive && negb skipCache
        then let '(r, c) := c_get now1 key c in (r, mkEngine (Some c) (prefetching e))
        else (None, e)
    | None => (None, e)
    end in
  match hit with
  | Some results => (Ok (mkRetrieveResult results true), e)
  | None =>
      match cold with
      | Err err => (Err (ErrColdRetrieve err), e)
      | Ok result =>
          let e := match cache e with
                   | Some c => if negb policyActive
                               then mkEngine (Some (c_put now2 key (Chunks result) c)) (prefetching e)
                               else e
                   | None => e
                   end in
          (Ok result, e)
      end
  end.

(** One turn of the loop of [prefetchForState], for the query [q]: nothing when
    the round has been cancelled, and errors of the retriever are skipped. *)
Definition prefetchOne (now : Z) (q activeFile : string) (openFiles : list string)
    (cancelled : bool) (cold : result E (RetrieveResult V)) (e : Engine) : Engine :=
  if cancelled then e else
  let qCtx := mkQueryContext activeFile "" openFiles None ∅ in
  match cold with
  | Err _ => e
  | Ok result =>
      match cache e with
      | Some c => mkEngine (Some (c_put now (key_String (newCacheKey q prefetchK qCtx))
                                    (Chunks result) c)) (prefetching e)
      | None => e
      end
  end.

(** ** Executions of the engine *)

(** One call of [Retrieve] or one query of a prefetch round, with what the cold
    retriever answers should it be asked. *)
Inductive engine_op :=
| OpRetrieve (now1 now2 : Z) (query : string) (k : Z) (qCtx : QueryContext)
    (policyActive skipCache : bool) (cold : result E (RetrieveResult V))
| OpPrefetch (now : Z) (q activeFile : string) (openFiles : list string)
    (cancelled : bool) (cold : result E (RetrieveResult V)).

Definition engine_op_run (o : engine_op) (e : Engine) : Engine :=
  match o with
  | OpRetrieve n1 n2 q k qc pa sc cold => (Retrieve n1 n2 q k qc pa sc cold e).2
  | OpPrefetch n q af ofs cc cold => prefetchOne n q af ofs cc cold e
  end.

Definition engine_run (ops : list engine_op) (e : Engine) : Engine :=
  fold_left (fun e o => engine_op_run o e) ops e.

(** The operation asked the cold retriever a question with the cache key [key],
    and its answer [v] was to be stored at time [t]. *)
Definition answers (o : engine_op) (key : string) (t : Z) (v : V) : Prop :=
  match o with
  | OpRetrieve _ n2 q k qc _ _ (Ok r) =>
      key = key_String (newCacheKey q k qc) /\ t = n2 /\ v = Chunks r
  | OpPrefetch n q af ofs false (Ok r) =>
      key = key_String (newCacheKey q prefetchK (mkQueryContext af "" ofs None ∅)) /\
      t = n /\ v = Chunks r
  | _ => False
  end.

Definition cold_answer (ops : list engine_op) (key : string) (t : Z) (v : V) : Prop :=
  exists o, o ∈ ops /\ answers o key t v.

Section Client.
Context (Rep : C -> (string -> option (Z * V)) -> Prop) `{!TTLCacheLaws C V Rep}.

(** Every value the cache may still answer came from the cold retriever. *)
Definition sound (d : Z) (ops : list engine_op) (e : Engine) : Prop :=
  match cache e with
  | None => True
  | Some c => c_ttl c = d /\ exists last, Rep c last /\
      forall k t v, last k = Some (t, v) -> cold_answer ops k t v
  end.

Lemma cold_answer_app ops ops' k t v :
  cold_answer ops k t v -> cold_answer (ops ++ ops') k t v.
Proof. unfold cold_answer. setoid_rewrite elem_of_app. naive_solver. Qed.

Lemma cold_answer_last ops o k t v : answers o k t v -> cold_answer (ops ++ [o]) k t v.
Proof. intros Ha. exists o. split; [|done]. apply elem_of_app. right. by left. Qed.

Lemma sound_app d ops ops' e : sound d ops e -> sound d (ops ++ ops') e.
Proof.
  unfold sound. destruct (cache e); [|done]. intros (? & last & ? & Hl).
  split; [done|]. exists last. split; [done|]. eauto using cold_answer_app.
Qed.

Lemma sound_put d ops e c now k v :
  cache e = Some c -> sound d ops e -> cold_answer ops k now v ->
  sound d ops (mkEngine (Some (c_put now k v c)) (prefetching e)).
Proof.
  unfold sound. intros ->. intros (Ht & last & Hr & Hl) Hcold. simpl.
  destruct (rep_put c last now k v Hr) as [Hr' Ht']. split; [congruence|].
  eexists; split; [exact Hr'|]. intros k' t' v'. simpl. case_decide; [|eauto].
  intros [= <- <-]. by subst.
Qed.

Lemma sound_get d ops e c now k r c' :
  cache e = Some c -> sound d ops e -> c_get now k c = (r, c') ->
  sound d ops (mkEngine (Some c') (prefetching e)) /\
  (forall v, r = Some v -> exists t, cold_answer ops k t v /\ now <= t + d).
Proof.
  unfold sound. intros ->. intros (Ht & last & Hr & Hl) Hget. simpl.
  destruct (rep_get c last now k r c' Hr Hget) as (Hr' & Ht' & Hv).
  split; [split; [congruence|by exists last]|].
  intros v Hv'. destruct (Hv v Hv') as (t & Hlast & Hle). exists t. rewrite Ht in Hle. eauto.
Qed.

(** Either the cold retriever's own result, or a stored answer to the same
    question that has not outlived the time to live. *)
Definition served (d : Z) (ops : list engine_op) (n1 : Z) (q : string) (k : Z) (qc : QueryContext)
    (pa sc : bool) (cold : result E (RetrieveResult V)) (r : RetrieveResult V) : Prop :=
  cold = Ok r \/
  (pa = false /\ sc = false /\ CacheHit r = true /\
   exists t, cold_answer ops (key_String (newCacheKey q k qc)) t (Chunks r) /\ n1 <= t + d).

Lemma Retrieve_sound d ops n1 n2 q k qc pa sc cold e :
  sound d ops e ->
  sound d (ops ++ [OpRetrieve n1 n2 q k qc pa sc cold]) (Retrieve n1 n2 q k qc pa sc cold e).2 /\
  (forall r, (Retrieve n1 n2 q k qc pa sc cold e).1 = Ok r -> served d ops n1 q k qc pa sc cold r).
Proof.
  intros Hs. set (o := OpRetrieve n1 n2 q k qc pa sc cold).
  set (key := key_String (newCacheKey q k qc)).
  assert (forall r, cold = Ok r -> cold_answer (ops ++ [o]) key n2 (Chunks r))
    as Hcold by (intros r Hr; apply cold_answer_last; unfold o; by rewrite Hr).
  assert (Hmiss : forall e1, sound d ops e1 -> forall r, cold = Ok r ->
    sound d (ops ++ [o]) match cache e1 with
                   | Some c => if negb pa
                               then mkEngine (Some (c_put n2 key (Chunks r) c)) (prefetching e1)
                               else e1
                   | None => e1
                   end).
  { intros e1 Hs1 r Hr. pose proof (sound_app d ops [o] e1 Hs1).
    destruct (cache e1) eqn:Hc; [|done]. destruct (negb pa); [|done]. eapply sound_put; eauto. }
  unfold Retrieve, cancelPrefetch, served. fold key. simpl.
  assert (Hs0 : sound d ops (mkEngine (cache e) false)) by done.
  destruct (cache e) as [c|] eqn:Hc;
    [destruct (negb pa && negb sc) eqn:Hask; [destruct (c_get n1 key c) as [r c'] eqn:Hget|]|].
  - destruct (sound_get d ops (mkEngine (Some c) false) c n1 key r c' eq_refl Hs0 Hget)
      as [Hs1 Hhit].
    destruct r as [v|].
    + split; [by apply sound_app|]. intros r [= <-]. right. to_prop. split_and!; auto.
    + destruct cold as [r|err]; [|split; [by apply sound_app|done]].
      split; [by apply (Hmiss (mkEngine (Some c') false) ltac:(assumption) r eq_refl)|intros ? [= <-]; by left].
  - destruct cold as [r|err]; [|split; [by apply sound_app|done]].
    split; [by apply (Hmiss (mkEngine (Some c) false) ltac:(assumption) r eq_refl)|intros ? [= <-]; by left].
  - destruct cold as [r|err]; [|split; [by apply sound_app|done]].
    split; [by apply (Hmiss (mkEngine None false) ltac:(assumption) r eq_refl)|intros ? [= <-]; by left].
Qed.

Lemma engine_run_sound d ops e :
  sound d [] e -> sound d ops (engine_run ops e).
Proof.
  intros Hs. induction ops as [|o ops IH] using rev_ind; [done|].
  unfold engine_run. rewrite fold_left_app. simpl. fold (engine_run ops e).
  destruct o as [n1 n2 q k qc pa sc cold|n q af ofs cc cold]; simpl; [by apply Retrieve_sound|].
  set (o := OpPrefetch n q af ofs cc cold).
  pose proof (sound_app d ops [o] _ IH) as Hs'.
  unfold prefetchOne. destruct cc; [done|]. destruct cold as [r|] eqn:Hr; [|done].
  destruct (cache (engine_run ops e)) as [c|] eqn:Hc; [|done].
  eapply sound_put; eauto. by apply cold_answer_last.
Qed.
End Client.
End Engine.
Arguments Engine C : clear implicits.
Arguments engine_op V E : clear implicits.

(** ** The warm cache is such a cache *)

#[export] Instance WarmCache_TTLCache {V} : TTLCache (WarmCache V) V := {
  c_ttl := ttl;
  c_get := Get;
  c_put := Put;
}.

Definition warm_rep {V} (c : WarmCache V) (last : string -> option (Z * V)) : Prop :=
  wf c /\ forall e, e ∈ abs c ->
    exists t, last (e_key e) = Some (t, e_results e) /\ e_expiresAt e = t + ttl c.

Lemma elem_without {V} key (e : cacheEntry V) l : e ∈ without key l -> e ∈ l /\ e_key e <> key.
Proof. unfold without. rewrite list_elem_of_filter. tauto. Qed.

Lemma find_key_Some {V} key (e : cacheEntry V) l :
  find_key key l = Some e -> e ∈ l /\ e_key e = key.
Proof.
  unfold find_key. intros Hh%head_Some_elem_of. apply list_elem_of_filter in Hh. tauto.
Qed.

Lemma spec_get_elem {V} now key (l : list (cacheEntry V)) r l' :
  spec_get now key l = (r, l') ->
  (forall e, e ∈ l' -> e ∈ l) /\
  (forall v, r = Some v -> exists e, e ∈ l /\ e_key e = key /\ e_results e = v /\ now <= e_expiresAt e).
Proof.
  unfold spec_get. destruct (find_key key l) as [e|] eqn:Hf; [|by intros [= <- <-]].
  apply find_key_Some in Hf as [Hin Hk].
  destruct (e_expiresAt e <? now) eqn:Hx; intros [= <- <-]; to_prop.
  - split; [|done]. by intros e' [? _]%elem_without.
  - split; [|intros v [= <-]; eauto].
    by intros e' [->|[? _]%elem_without]%elem_of_cons.
Qed.

#[export] Instance WarmCache_laws {V} : TTLCacheLaws (WarmCache V) V warm_rep.
Proof.
  constructor; simpl.
  - intros c last now k r c' [Hwf Hl] Hget.
    destruct (Get_refines now k c Hwf) as (Hwf' & _ & Ht & Hg). rewrite Hget in *. simpl in *.
    destruct (spec_get_elem now k (abs c) r (abs c')) as [Hsub Hhit]; [done|].
    split_and!; [split; [done|]|done|].
    + intros e He. rewrite Ht. auto.
    + intros v Hv. destruct (Hhit v Hv) as (e & Hin & <- & <- & Hle).
      destruct (Hl e Hin) as (t & ? & Hx). exists t. split; [done|]. lia.
  - intros c last now k v [Hwf Hl].
    destruct (Put_refines now k v c Hwf) as (Hwf' & _ & Ht & Ha).
    split; [split; [done|]|done]. rewrite Ha, Ht. intros e He.
    apply elem_of_take in He as (i & He%list_elem_of_lookup_2 & _).
    apply elem_of_cons in He as [->|[He Hk]%elem_without].
    + exists now. simpl. by rewrite decide_True.
    + rewrite decide_False by done. auto.
Qed.

(** [configForResources]: the cache capacity, the concurrency and whether the
    policy is not ["disabled"]. *)
Inductive triggerPolicy := every_open | debounced | disabled.

Record resourceConfig := mkResourceConfig {
  cacheCapacity : Z;
  concurrency : Z;
  policy : triggerPolicy;
}.

Definition configForResources (TotalMemoryMB : Z) : resourceConfig :=
  if 65536 <=? TotalMemoryMB then mkResourceConfig 500 4 every_open
  else if 16384 <=? TotalMemoryMB then mkResourceConfig 100 1 debounced
  else mkResourceConfig 0 0 disabled.

(** [NewEngine], once the options are applied and the resources detected. *)
Definition NewEngine {V} (TotalMemoryMB cacheTTL : Z) : Engine (WarmCache V) :=
  let config := configForResources TotalMemoryMB in
  mkEngine (if 0 <? cacheCapacity config
            then Some (NewWarmCache (cacheCapacity config) cacheTTL) else None) false.

Lemma NewEngine_sound {V E} mem d : sound (E := E) (V := V) warm_rep d [] (NewEngine mem d).
Proof.
  unfold sound, NewEngine. simpl. case_match; [|done]. simplify_eq. split.
  { by case_match; simplify_eq. }
  exists (fun _ => None). split; [split; [|]|done].
  - case_match; simplify_eq. apply cache_wf_New.
  - case_match; simplify_eq. by intros ? ?%elem_of_nil.
Qed.

(** whatever calls and prefetch rounds went before, an engine built by
    [NewEngine] answers a request either with the cold retriever's own result or
    with an answer the cold retriever gave to a request of the same cache key,
    stored no more than the time to live ago; and it never serves the cache when
    a policy is active or the caller asked to skip it. *)
Theorem engine_serves_cold_answers {V E} mem d (ops : list (engine_op V E))
    n1 n2 q k qc pa sc (cold : result E (RetrieveResult V)) r :
  (Retrieve n1 n2 q k qc pa sc cold (engine_run ops (NewEngine mem d))).1 = Ok r ->
  served d ops n1 q k qc pa sc cold r.
Proof.
  apply (Retrieve_sound warm_rep). apply (engine_run_sound warm_rep). apply NewEngine_sound.
Qed.

(** ** The cache key determines the query *)

(** A file name as the operating system has it: not empty, no NUL, and without
    the unit separator. *)
Definition clean_name (s : string) : Prop :=
  s <> "" /\ has_char NUL s = false /\ has_char US s = false.

Lemma join_us_no_NUL ss : Forall clean_name ss -> has_char NUL (join_us ss) = false.
Proof.
  induction 1 as [|s ss (_ & Hn & _) _ IH]; [done|]. destruct ss as [|s' ss]; [done|].
  cbn [join_us]. rewrite has_char_app, Hn. done.
Qed.

Lemma join_us_inj ss ss' :
  Forall clean_name ss -> Forall clean_name ss' -> join_us ss = join_us ss' -> ss = ss'.
Proof.
  intros H. revert ss'. induction H as [|s ss (Hne & _ & Hus) Hss IH];
    intros [|s' ss2] H' Heq; [|apply Forall_cons in H' as [(Hne' & _ & Hus') Hss']|
      |apply Forall_cons in H' as [(Hne' & _ & Hus') Hss']].
  - done.
  - exfalso. destruct ss2; simpl in Heq; [congruence|]. by destruct s'.
  - exfalso. destruct ss; simpl in Heq; [congruence|]. by destruct s.
  - destruct ss as [|t ss], ss2 as [|t' ss2].
    + simpl in Heq. by subst.
    + exfalso. by apply no_sep_app in Heq.
    + exfalso. symmetry in Heq. by apply no_sep_app in Heq.
    + cbn [join_us] in Heq. apply app_sep_inj in Heq as [-> Heq]; [|done..].
      f_equal. by apply IH.
Qed.

Lemma sort_strings_Permutation l : sort_strings l ≡ₚ l.
Proof. apply merge_sort_Permutation. Qed.

Lemma sort_strings_ext l l' : l ≡ₚ l' -> sort_strings l = sort_strings l'.
Proof.
  intros Hl. apply (StronglySorted_unique String.le).
  - apply (StronglySorted_merge_sort _).
  - apply (StronglySorted_merge_sort _).
  - by rewrite !sort_strings_Permutation.
Qed.

Definition clean_query (query : string) (q : QueryContext) : Prop :=
  has_char NUL query = false /\ has_char NUL (q_CurrentFile q) = false /\
  has_char NUL (q_WorkspaceRoot q) = false /\ Forall clean_name (q_OpenFiles q).

(** for queries and paths without NUL bytes (and open files whose names are
    not empty and hold no unit separator), two requests share a cache key
    exactly when they ask the same query with the same result count, current
    file, workspace and second, over the same multiset of open files: entries
    of different requests never collide, and the order in which the editor
    lists the open files does not matter.  The context's [Metadata] is not part
    of the key: requests that differ only there share an entry. *)
Theorem cache_key_identifies query k q query' k' q' :
  clean_query query q -> clean_query query' q' ->
  key_String (newCacheKey query k q) = key_String (newCacheKey query' k' q') <->
  query = query' /\ k = k' /\ q_CurrentFile q = q_CurrentFile q' /\
  q_WorkspaceRoot q = q_WorkspaceRoot q' /\ q_OpenFiles q ≡ₚ q_OpenFiles q' /\
  default 0 (q_Timestamp q) = default 0 (q_Timestamp q').
Proof.
  intros (Hq & Hf & Hw & Ho) (Hq' & Hf' & Hw' & Ho').
  assert (Forall clean_name (sort_strings (q_OpenFiles q))) as Hos
    by by rewrite sort_strings_Permutation.
  assert (Forall clean_name (sort_strings (q_OpenFiles q'))) as Hos'
    by by rewrite sort_strings_Permutation.
  split.
  - unfold key_String, newCacheKey. simpl. intros Heq.
    apply app_sep_inj in Heq as [-> Heq]; [|done..].
    apply app_sep_inj in Heq as [Hk Heq]; [|apply (pretty_Z_no_char NUL); done..].
    apply app_sep_inj in Heq as [-> Heq]; [|done..].
    apply app_sep_inj in Heq as [-> Heq]; [|done..].
    apply app_sep_inj in Heq as [Hj Ht]; [|by apply join_us_no_NUL..].
    apply (inj pretty) in Hk, Ht. apply join_us_inj in Hj; [|done..].
    split_and!; try done. by rewrite <-sort_strings_Permutation, Hj, sort_strings_Permutation.
  - intros (-> & -> & Hcf & Hcw & Hp & Ht). unfold key_String, newCacheKey. simpl.
    by rewrite Hcf, Hcw, (sort_strings_ext _ _ Hp), Ht.
Qed.

(** ** The theorems at concrete inputs *)

Definition qctx0 (ofs : list string) : QueryContext := mkQueryContext "a.go" "/w" ofs (Some 7) ∅.

Definition warm_ops : list (engine_op (list Z) string) :=
  [OpRetrieve 1 2 "q" 5 (qctx0 ["b"; "c"]) false false (Ok (mkRetrieveResult [42] false))].

Lemma engine_serves_cold_answers_witness :
  (Retrieve 50 51 "q" 5 (qctx0 ["c"; "b"]) false false (Err "down")
     (engine_run warm_ops (NewEngine 65536 100))).1 = Ok (mkRetrieveResult [42] true) /\
  served 100 warm_ops 50 "q" 5 (qctx0 ["c"; "b"]) false false (Err "down")
    (mkRetrieveResult [42] true).
Proof.
  assert ((Retrieve 50 51 "q" 5 (qctx0 ["c"; "b"]) false false (Err "down")
     (engine_run warm_ops (NewEngine 65536 100))).1 = Ok (mkRetrieveResult [42] true)) as Hr
    by (vm_compute; reflexivity).
  split; [exact Hr|]. exact (engine_serves_cold_answers 65536 100 _ 50 51 _ _ _ _ _ _ _ Hr).
Defined.

Lemma clean_names_dec ofs : bool_decide (Forall (fun s =>
    s <> "" /\ has_char NUL s = false /\ has_char US s = false) ofs) = true -> Forall clean_name ofs.
Proof. intros H. by apply bool_decide_eq_true in H. Qed.

Lemma cache_key_identifies_witness :
  clean_query "q" (qctx0 ["b"; "c"]) /\ clean_query "q" (qctx0 ["c"; "b"]) /\
  key_String (newCacheKey "q" 5 (qctx0 ["b"; "c"])) =
  key_String (newCacheKey "q" 5 (qctx0 ["c"; "b"])).
Proof.
  assert (clean_query "q" (qctx0 ["b"; "c"])) as H1
    by (repeat split; try reflexivity; apply clean_names_dec; vm_compute; reflexivity).
  assert (clean_query "q" (qctx0 ["c"; "b"])) as H2
    by (repeat split; try reflexivity; apply clean_names_dec; vm_compute; reflexivity).
  split; [exact H1|]. split; [exact H2|].
  apply (cache_key_identifies "q" 5 _ "q" 5 _ H1 H2).
  repeat split; try reflexivity. simpl. apply Permutation_swap.
Defined.
