(* ===== verification/Sticky.v ===== *)
(** * Sticky: the sticky routing cache (provider/router_sticky.go)

    A map of routing decisions bounded by [maxEntries], with touch-based expiry.
    Every method holds the mutex, so it is one step.  Go iterates a map in an
    order of its choosing: the eviction takes that order as an argument, and the
    step relation allows every order that lists the keys. *)

From S2P Require Import Prelude ModelKey.

Section Sticky.
(** Scores and reasons are carried, never read. *)
Context {Score Reason : Type}.

Record routeSticky := mkSticky {
  s_key : string;
  providerKey : ModelKey;
  s_score : Score;
  s_reason : Reason;
  createdAt : Z;
  lastUsedAt : Z;
  expiresAt : Z;
}.

Record stickyCache := mkStickyCache {
  entries : gmap string routeSticky;
  sticky_ttl : Z;
  maxEntries : Z;
}.

Definition newStickyCache (ttl maxEntries : Z) : stickyCache := mkStickyCache ∅ ttl maxEntries.

Definition with_entries (sc : stickyCache) (m : gmap string routeSticky) : stickyCache :=
  mkStickyCache m (sticky_ttl sc) (maxEntries sc).

(** [now.After(entry.expiresAt)]. *)
Definition expired (now : Z) (e : routeSticky) : bool := expiresAt e <? now.

Definition get (now : Z) (key : string) (sc : stickyCache) : option routeSticky * stickyCache :=
  match entries sc !! key with
  | None => (None, sc)
  | Some entry =>
      if expired now entry then (None, with_entries sc (delete key (entries sc)))
      else (Some entry, sc)
  end.

(** [len] of the map. *)
Definition map_len (m : gmap string routeSticky) : Z := Z.of_nat (size m).

(** The loop of the second phase: [acc] is the key and time of the oldest entry
    so far, [None] while [first] holds. *)
Definition oldest_step (m : gmap string routeSticky) (acc : option (string * Z)) (k : string) :
    option (string * Z) :=
  match m !! k with
  | None => acc
  | Some entry =>
      match acc with
      | None => Some (k, lastUsedAt entry)
      | Some (_, oldestTime) =>
          if lastUsedAt entry <? oldestTime then Some (k, lastUsedAt entry) else acc
      end
  end.

Definition oldest (m : gmap string routeSticky) (order : list string) : option (string * Z) :=
  fold_left (oldest_step m) order None.

Definition evictLocked (now : Z) (order : list string) (sc : stickyCache) : stickyCache :=
  let m := filter (fun kv => expired now kv.2 = false) (entries sc) in
  if maxEntries sc <=? map_len m then
    match oldest m order with
    | None => with_entries sc m
    | Some (k, _) => with_entries sc (delete k m)
    end
  else with_entries sc m.

Definition put (now : Z) (order : list string) (entry : routeSticky) (sc : stickyCache) :
    stickyCache :=
  match entries sc !! s_key entry with
  | Some _ => with_entries sc (<[s_key entry := entry]> (entries sc))
  | None =>
      let sc := if maxEntries sc <=? map_len (entries sc) then evictLocked now order sc else sc in
      with_entries sc (<[s_key entry := entry]> (entries sc))
  end.

Definition touch (now : Z) (key : string) (sc : stickyCache) : stickyCache :=
  match entries sc !! key with
  | None => sc
  | Some e =>
      with_entries sc (<[key := mkSticky (s_key e) (providerKey e) (s_score e) (s_reason e)
                                  (createdAt e) now (now + sticky_ttl sc)]> (entries sc))
  end.

Definition invalidate (key : string) (sc : stickyCache) : stickyCache :=
  with_entries sc (delete key (entries sc)).

Definition invalidateProvider (provider : string) (sc : stickyCache) : stickyCache :=
  with_entries sc (filter (fun kv => Provider (providerKey kv.2) <> provider) (entries sc)).

Record StickyRouteInfo := mkStickyInfo {
  si_Key : ModelKey;
  si_Score : Score;
  si_Reason : Reason;
  si_CreatedAt : Z;
  si_LastUsedAt : Z;
  si_ExpiresAt : Z;
}.

Definition snapshot (now : Z) (sc : stickyCache) : gmap string StickyRouteInfo :=
  omap (fun e => if expired now e then None
                 else Some (mkStickyInfo (providerKey e) (s_score e) (s_reason e) (createdAt e)
                              (lastUsedAt e) (expiresAt e))) (entries sc).

(** ** Steps *)

(** Go ranges over every key of the map once, in any order. *)
Definition ranges_over (order : list string) (m : gmap string routeSticky) : Prop :=
  NoDup order /\ forall k, k ∈ order <-> is_Some (m !! k).

Inductive sstep : stickyCache -> stickyCache -> Prop :=
| sstep_get now k sc : sstep sc (get now k sc).2
| sstep_put now order e sc :
    ranges_over order (filter (fun kv => expired now kv.2 = false) (entries sc)) ->
    sstep sc (put now order e sc)
| sstep_touch now k sc : sstep sc (touch now k sc)
| sstep_invalidate k sc : sstep sc (invalidate k sc)
| sstep_invalidateProvider p sc : sstep sc (invalidateProvider p sc).

Record swf (sc : stickyCache) : Prop := mkSwf {
  swf_len : map_len (entries sc) <= Z.max 1 (maxEntries sc);
  swf_key k e : entries sc !! k = Some e -> s_key e = k;
}.

(** ** Eviction *)

Lemma map_len_insert_new m k e : m !! k = None -> map_len (<[k := e]> m) = map_len m + 1.
Proof. intros Hk. unfold map_len. rewrite map_size_insert_None by done. lia. Qed.

Lemma map_len_insert_old m k e e' : m !! k = Some e' -> map_len (<[k := e]> m) = map_len m.
Proof. intros Hk. unfold map_len. rewrite map_size_insert_Some by eauto. lia. Qed.

Lemma map_len_subseteq m m' : m ⊆ m' -> map_len m <= map_len m'.
Proof. intros Hs. unfold map_len. pose proof (map_subseteq_size _ _ Hs). lia. Qed.

Lemma map_len_delete m k e : m !! k = Some e -> map_len (delete k m) = map_len m - 1.
Proof.
  intros Hk. unfold map_len. rewrite map_size_delete_Some by eauto.
  assert (size m <> 0%nat); [|lia].
  intros H0. apply map_size_empty_iff in H0. subst. by rewrite lookup_empty in Hk.
Qed.

(** The fold keeps the least recently used of the entries it has seen. *)
Lemma oldest_fold m order acc :
  (forall k t, acc = Some (k, t) -> exists e, m !! k = Some e /\ lastUsedAt e = t) ->
  match fold_left (oldest_step m) order acc with
  | None => acc = None /\ forall k, k ∈ order -> m !! k = None
  | Some (k, t) => (exists e, m !! k = Some e /\ lastUsedAt e = t) /\
      (forall k' t', acc = Some (k', t') -> t <= t') /\
      (forall k' e', k' ∈ order -> m !! k' = Some e' -> t <= lastUsedAt e')
  end.
Proof.
  revert acc. induction order as [|x order IH]; intros acc Hacc; simpl.
  { destruct acc as [[k t]|]; [|split; [done|]; by intros ? ?%elem_of_nil].
    split_and!; [eauto|intros ? ? [= -> ->]; lia|by intros ? ? ?%elem_of_nil]. }
  specialize (IH (oldest_step m acc x)).
  destruct (m !! x) as [ex|] eqn:Hx.
  - assert (exists kx tx, oldest_step m acc x = Some (kx, tx) /\
      (exists e, m !! kx = Some e /\ lastUsedAt e = tx) /\ tx <= lastUsedAt ex /\
      forall k' t', acc = Some (k', t') -> tx <= t') as (kx & tx & Hstep & Hin & Hle & Hle').
    { unfold oldest_step. rewrite Hx. destruct acc as [[k t]|].
      - destruct (Z.ltb_spec (lastUsedAt ex) t).
        + exists x, (lastUsedAt ex). split_and!; eauto; [lia|]. intros ? ? [= <- <-]. lia.
        + exists k, t. split_and!; eauto. intros ? ? [= <- <-]. lia.
      - exists x, (lastUsedAt ex). split_and!; eauto; [lia|]. done. }
    rewrite Hstep in IH |- *. specialize (IH ltac:(intros ? ? [= <- <-]; done)).
    destruct (fold_left _ _ _) as [[k t]|]; [|by destruct IH].
    destruct IH as (He & Hacc' & Hord). specialize (Hacc' kx tx eq_refl).
    split_and!; [done| |].
    + intros k' t' Heq. specialize (Hle' k' t' Heq). lia.
    + intros k' e' [->|Hk']%elem_of_cons He'; [|by eapply Hord]. simplify_eq. lia.
  - assert (oldest_step m acc x = acc) as Hstep by (unfold oldest_step; by rewrite Hx).
    rewrite Hstep in IH |- *. specialize (IH Hacc).
    destruct (fold_left _ _ _) as [[k t]|].
    + destruct IH as (He & Hacc' & Hord). split_and!; [done..|].
      intros k' e' [->|Hk']%elem_of_cons He'; [congruence|by eapply Hord].
    + destruct IH as (-> & Hord). split; [done|]. intros k' [->|Hk']%elem_of_cons; auto.
Qed.

Lemma oldest_Some m order k t :
  oldest m order = Some (k, t) ->
  (exists e, m !! k = Some e /\ lastUsedAt e = t) /\
  (forall k' e', k' ∈ order -> m !! k' = Some e' -> t <= lastUsedAt e').
Proof.
  intros Ho. pose proof (oldest_fold m order None ltac:(done)) as H.
  unfold oldest in Ho. rewrite Ho in H. tauto.
Qed.

Lemma oldest_None m order : ranges_over order m -> oldest m order = None -> m = ∅.
Proof.
  intros [_ Hr] Ho. pose proof (oldest_fold m order None ltac:(done)) as H.
  unfold oldest in Ho. rewrite Ho in H. destruct H as [_ H].
  apply map_empty. intros k. destruct (m !! k) as [e|] eqn:Hk; [|done].
  rewrite <-Hk. apply H, Hr. eauto.
Qed.

Lemma evict_sub now order sc : entries (evictLocked now order sc) ⊆ entries sc.
Proof.
  unfold evictLocked. set (m := filter _ (entries sc)).
  assert (m ⊆ entries sc) as Hm by apply map_filter_subseteq.
  destruct (_ <=? _); [|done]. destruct (oldest m order) as [[k t]|]; [|done].
  simpl. etrans; [apply delete_subseteq|done].
Qed.

(** Eviction of a cache within its bound leaves room for one more entry. *)
Lemma evict_len now order sc :
  ranges_over order (filter (fun kv => expired now kv.2 = false) (entries sc)) ->
  map_len (entries sc) <= Z.max 1 (maxEntries sc) ->
  map_len (entries (evictLocked now order sc)) + 1 <= Z.max 1 (maxEntries sc).
Proof.
  intros Hr Hlen. unfold evictLocked. set (m := filter _ (entries sc)) in *.
  assert (map_len m <= map_len (entries sc)) as Hm by apply map_len_subseteq, map_filter_subseteq.
  destruct (Z.leb_spec (maxEntries sc) (map_len m)); simpl; [|lia].
  destruct (oldest m order) as [[k t]|] eqn:Ho; simpl.
  - apply oldest_Some in Ho as [(e & He & _) _]. rewrite (map_len_delete _ _ _ He). lia.
  - rewrite (oldest_None _ _ Hr Ho). unfold map_len. rewrite map_size_empty. lia.
Qed.

Lemma put_maxEntries now order e sc :
  maxEntries (put now order e sc) = maxEntries sc /\ sticky_ttl (put now order e sc) = sticky_ttl sc.
Proof.
  unfold put, evictLocked. destruct (entries sc !! s_key e); [done|].
  destruct (maxEntries sc <=? map_len (entries sc)); [|done].
  destruct (_ <=? _); [|done]. by destruct (oldest _ _) as [[]|].
Qed.

Lemma put_entries now order e sc :
  entries (put now order e sc) =
  <[s_key e := e]> (match entries sc !! s_key e with
                    | Some _ => entries sc
                    | None => if maxEntries sc <=? map_len (entries sc)
                              then entries (evictLocked now order sc) else entries sc
                    end).
Proof.
  unfold put. destruct (entries sc !! s_key e); [done|].
  by destruct (maxEntries sc <=? map_len (entries sc)).
Qed.

Lemma put_swf now order e sc :
  ranges_over order (filter (fun kv => expired now kv.2 = false) (entries sc)) ->
  swf sc -> swf (put now order e sc).
Proof.
  intros Hr [Hlen Hkey]. destruct (put_maxEntries now order e sc) as [Hmax _].
  pose proof (evict_sub now order sc) as Hsub.
  constructor; rewrite put_entries, ?Hmax.
  - destruct (entries sc !! s_key e) eqn:Hk; [by rewrite (map_len_insert_old _ _ _ _ Hk)|].
    destruct (Z.leb_spec (maxEntries sc) (map_len (entries sc))).
    + rewrite map_len_insert_new; [by apply evict_len|]. by eapply lookup_weaken_None.
    + rewrite map_len_insert_new by done. lia.
  - intros k e'. rewrite lookup_insert_Some. intros [[<- <-]|[_ He']]; [done|].
    apply Hkey. destruct (entries sc !! s_key e); [done|]. destruct (_ <=? _); [|done].
    by eapply lookup_weaken.
Qed.

Lemma sub_swf sc m : m ⊆ entries sc -> swf sc -> swf (with_entries sc m).
Proof.
  intros Hm [Hlen Hkey]. constructor; simpl.
  - apply map_len_subseteq in Hm. lia.
  - intros k e He. eapply Hkey, lookup_weaken; eauto.
Qed.

Lemma get_swf now k sc : swf sc -> swf (get now k sc).2.
Proof.
  intros Hw. unfold get. destruct (entries sc !! k); [|done]. destruct (expired now r); [|done].
  apply sub_swf; [apply delete_subseteq|done].
Qed.

Lemma touch_swf now k sc : swf sc -> swf (touch now k sc).
Proof.
  intros [Hlen Hkey]. unfold touch. destruct (entries sc !! k) as [e|] eqn:Hk; [|by constructor].
  constructor; simpl; [by rewrite (map_len_insert_old _ _ _ _ Hk)|].
  intros k' e'. rewrite lookup_insert_Some. intros [[<- <-]|[_ He']]; simpl; auto.
Qed.

Lemma invalidateProvider_swf p sc : swf sc -> swf (invalidateProvider p sc).
Proof. apply sub_swf, map_filter_subseteq. Qed.

Lemma sstep_swf sc sc' : sstep sc sc' -> swf sc -> swf sc'.
Proof.
  intros [] Hw.
  - by apply get_swf.
  - by apply put_swf.
  - by apply touch_swf.
  - apply sub_swf; [apply delete_subseteq|done].
  - by apply invalidateProvider_swf.
Qed.

(** after any sequence of operations, whatever order the map iterates in,
    the cache holds at most [maxEntries] routes (one, when [maxEntries] is not
    positive), each under its own key, and none of a provider that has just been
    invalidated. *)
Theorem sticky_bounded ttl max sc p :
  rtc sstep (newStickyCache ttl max) sc ->
  map_len (entries sc) <= Z.max 1 max /\ (forall k e, entries sc !! k = Some e -> s_key e = k) /\
  (forall k e, entries (invalidateProvider p sc) !! k = Some e -> Provider (providerKey e) <> p).
Proof.
  intros Hrun. assert (swf sc /\ maxEntries sc = max) as [[Hlen Hkey] Hmax].
  { revert sc Hrun. apply (rtc_ind_r (fun sc => swf sc /\ maxEntries sc = max)).
    - split; [|done]. constructor; simpl; [unfold map_len; rewrite map_size_empty; lia|].
      intros ? ?. by rewrite lookup_empty.
    - intros sc1 sc2 _ Hstep [Hw <-]. split; [by eapply sstep_swf|].
      destruct Hstep; try done.
      + unfold get. destruct (entries sc !! k); [|done]. by destruct (expired now r).
      + apply put_maxEntries.
      + unfold touch. by destruct (entries sc !! k). }
  split_and!; [by rewrite <-Hmax|done|].
  intros k e He. unfold invalidateProvider in He. simpl in He.
  by apply map_lookup_filter_Some in He as [_ ?].
Qed.

(** [put] always stores the new route, and it drops another one only to
    make room for a key the full cache does not hold: routes that have expired,
    and when none of those frees a place, one route, the least recently used. *)
Theorem sticky_put_evicts now order e sc k old :
  ranges_over order (filter (fun kv => expired now kv.2 = false) (entries sc)) ->
  k <> s_key e -> entries sc !! k = Some old ->
  entries (put now order e sc) !! s_key e = Some e /\
  (entries (put now order e sc) !! k = None <->
   entries sc !! s_key e = None /\ maxEntries sc <= map_len (entries sc) /\
   (expired now old = true \/
    maxEntries sc <= map_len (filter (fun kv => expired now kv.2 = false) (entries sc)) /\
    exists t, oldest (filter (fun kv => expired now kv.2 = false) (entries sc)) order = Some (k, t) /\
      t = lastUsedAt old /\
      forall k' e', entries sc !! k' = Some e' -> expired now e' = false ->
        lastUsedAt old <= lastUsedAt e')).
Proof.
  intros Hr Hne Hold. rewrite put_entries. split; [apply lookup_insert_eq|].
  rewrite lookup_insert_ne by done.
  destruct (entries sc !! s_key e) eqn:Hk; [rewrite Hold; split; [done|by intros (? & _)]|].
  destruct (Z.leb_spec (maxEntries sc) (map_len (entries sc)));
    [|rewrite Hold; split; [done|intros (_ & ? & _); lia]].
  unfold evictLocked. set (m := filter _ (entries sc)) in *.
  assert (m !! k = if expired now old then None else Some old) as Hmk.
  { destruct (expired now old) eqn:Hx.
    - apply map_lookup_filter_None. right. intros e' He'. simpl. congruence.
    - by apply map_lookup_filter_Some. }
  destruct (Z.leb_spec (maxEntries sc) (map_len m)); simpl; rewrite ?Hmk.
  2: { destruct (expired now old); [tauto|]. split; [done|]. intros (_ & _ & [?|[? _]]); [done|lia]. }
  destruct (oldest m order) as [[ko t]|] eqn:Ho; simpl.
  - apply oldest_Some in Ho as [(eo & Heo & Ht) Hall]. rewrite lookup_delete_None, Hmk.
    destruct (expired now old) eqn:Hx; [tauto|]. split.
    + intros [->|?]; [|done]. split_and!; [done..|]. right. split; [done|].
      exists t. assert (eo = old) as -> by congruence. split_and!; [done|done|].
      intros k' e' He' Hx'. rewrite Ht. apply (Hall k'); [|by apply map_lookup_filter_Some].
      apply Hr. exists e'. by apply map_lookup_filter_Some.
    + intros (_ & _ & [?|(_ & t' & [= -> ->] & _)]); [done|by left].
  - rewrite Hmk. destruct (expired now old); [tauto|]. split; [done|].
    intros (_ & _ & [?|(_ & t' & ? & _)]); done.
Qed.
End Sticky.
Arguments routeSticky Score Reason : clear implicits.
Arguments stickyCache Score Reason : clear implicits.

(** ** The theorems at concrete inputs *)

Definition route0 (k p : string) (t : Z) : routeSticky Z string :=
  mkSticky k (mkModelKey p "m") 1 "scored" t t (t + 100).

Definition cache1 : stickyCache Z string := put 1 [] (route0 "a" "p" 1) (newStickyCache 100 1).

Lemma ranges_over_empty (m : gmap string (routeSticky Z string)) : m = ∅ -> ranges_over [] m.
Proof.
  intros ->. split; [constructor|]. intros k. rewrite lookup_empty.
  split; [by intros ?%elem_of_nil|by intros []].
Qed.

Lemma ranges_over_singleton (m : gmap string (routeSticky Z string)) k e :
  m = {[k := e]} -> ranges_over [k] m.
Proof.
  intros ->. split; [apply NoDup_singleton|]. intros k'.
  rewrite list_elem_of_singleton, lookup_singleton. case_decide; naive_solver.
Qed.

Lemma sticky_bounded_witness :
  let sc := put 2 ["a"] (route0 "b" "q" 2) cache1 in
  map_len (entries sc) = 1 /\ map_len (entries sc) <= Z.max 1 1.
Proof.
  intros sc. assert (rtc sstep (newStickyCache 100 1) sc) as Hrun.
  { eapply rtc_l; [apply (sstep_put 1 [] (route0 "a" "p" 1)), ranges_over_empty; vm_compute; reflexivity|].
    apply rtc_once, sstep_put. eapply ranges_over_singleton. vm_compute. reflexivity. }
  split; [vm_compute; reflexivity|]. exact (proj1 (sticky_bounded 100 1 sc "p" Hrun)).
Defined.

Lemma sticky_put_evicts_witness :
  let sc := put 2 ["a"] (route0 "b" "q" 2) cache1 in
  entries sc !! "b" = Some (route0 "b" "q" 2) /\ entries sc !! "a" = None.
Proof.
  assert (ranges_over ["a"] (filter (fun kv => expired 2 kv.2 = false) (entries cache1))) as Hr
    by (eapply ranges_over_singleton; vm_compute; reflexivity).
  assert ("a" <> "b") as Hne by discriminate.
  assert (entries cache1 !! "a" = Some (route0 "a" "p" 1)) as Hold by (vm_compute; reflexivity).
  split; [|vm_compute; reflexivity].
  exact (proj1 (sticky_put_evicts 2 ["a"] (route0 "b" "q" 2) cache1 "a" _ Hr Hne Hold)).
Defined.
