(* ===== verification/RouteErrors.v ===== *)
(** * RouteErrors: error trees and their classification (provider/router_errors.go, provider/route_errors.go)

    Go errors form trees: an error may wrap one or several others, and
    [errors.Is] and [errors.As] search the tree in pre-order.  The tree is
    modelled; [IsInfrastructureError] and [classifyError] search it as the code
    does. *)

From S2P Require Import Prelude.

(** The errors the routing layer tells apart.  An [id] stands for the identity
    of an allocated error value. *)
Inductive goerr :=
| Canceled                                 (** context.Canceled *)
| DeadlineExceeded                         (** context.DeadlineExceeded *)
| OpError (id : nat) (inner : option goerr)   (** *net.OpError *)
| DNSError (id : nat) (inner : option goerr)  (** *net.DNSError *)
| HTTPStatus (id : nat) (code : Z)         (** any error with an HTTPStatusCode method *)
| ErrContentDenied
| ErrNoViableCandidate
| ErrAllBreakersOpen
| ErrBudgetAdaptationRequired
| ErrBudgetExceeded
| ErrRouterClosed
| ErrProviderMismatch
| Opaque (id : nat)                        (** any other leaf *)
| Wrap (id : nat) (inner : goerr)          (** fmt.Errorf with %w *)
| Join (id : nat) (errs : list goerr)      (** errors.Join *)
| AdmissionError (id : nat) (err : goerr). (** *admissionError *)

#[export] Instance goerr_eq_dec : EqDecision goerr.
Proof.
  refine (fix go (x y : goerr) {struct x} : {x = y} + {x <> y} := _).
  pose (go_list := List.list_eq_dec go). pose (go_opt := @option_eq_dec _ go).
  decide equality; first [exact (go_list _ _) | exact (go_opt _ _) | exact (go _ _) |
    exact (Nat.eq_dec _ _) | exact (Z.eq_dec _ _)].
Defined.

(** The pre-order listing of the error tree. *)
Fixpoint nodes (e : goerr) : list goerr :=
  e :: match e with
       | OpError _ (Some e') | DNSError _ (Some e') | Wrap _ e' | AdmissionError _ e' => nodes e'
       | Join _ es => (fix go es := match es with [] => [] | e :: es => nodes e ++ go es end) es
       | _ => []
       end.

(** [errors.Is(err, target)]. *)
Definition errors_Is (err target : goerr) : bool :=
  existsb (fun e => bool_decide (e = target)) (nodes err).

(** [errors.As]: the first node of the wanted type. *)
Definition errors_As (P : goerr -> bool) (err : goerr) : option goerr := List.find P (nodes err).

Definition is_OpError (e : goerr) : bool := match e with OpError _ _ => true | _ => false end.
Definition is_DNSError (e : goerr) : bool := match e with DNSError _ _ => true | _ => false end.
Definition is_HTTPStatus (e : goerr) : bool := match e with HTTPStatus _ _ => true | _ => false end.
Definition is_admissionError (e : goerr) : bool :=
  match e with AdmissionError _ _ => true | _ => false end.

Definition httpStatusCode (err : goerr) : option Z :=
  match errors_As is_HTTPStatus err with
  | Some (HTTPStatus _ code) => Some code
  | _ => None
  end.

(** The error argument is Go's interface value: [None] is nil. *)
Definition IsInfrastructureError (err : option goerr) : bool :=
  match err with
  | None => false
  | Some err =>
      if errors_Is err Canceled || errors_Is err DeadlineExceeded then false
      else if opt_b (errors_As is_OpError err) then true
      else if opt_b (errors_As is_DNSError err) then true
      else match httpStatusCode err with
           | Some statusCode =>
               if 500 <=? statusCode then true
               else if statusCode =? 429 then true
               else false
           | None => false
           end
  end.

Inductive ErrorClass :=
| ErrorClassNone | ErrorClassNetwork | ErrorClassTimeout | ErrorClass4xx | ErrorClass5xx
| ErrorClassRateLimit | ErrorClassUnknown.

(** [AttemptStatusOther n]: any other value of the int type. *)
Inductive AttemptStatus :=
| AttemptStatusUnknown | AttemptStatusSucceeded | AttemptStatusFailed | AttemptStatusOther (n : Z).

#[export] Instance ErrorClass_eq_dec : EqDecision ErrorClass.
Proof. solve_decision. Defined.
#[export] Instance AttemptStatus_eq_dec : EqDecision AttemptStatus.
Proof. solve_decision. Defined.

Definition classifyError (err : option goerr) : ErrorClass * AttemptStatus :=
  match err with
  | None => (ErrorClassNone, AttemptStatusSucceeded)
  | Some err =>
      if errors_Is err Canceled then (ErrorClassNone, AttemptStatusUnknown)
      else if errors_Is err DeadlineExceeded then (ErrorClassTimeout, AttemptStatusFailed)
      else if opt_b (errors_As is_OpError err) then (ErrorClassNetwork, AttemptStatusFailed)
      else if opt_b (errors_As is_DNSError err) then (ErrorClassNetwork, AttemptStatusFailed)
      else match httpStatusCode err with
           | Some statusCode =>
               if statusCode =? 429 then (ErrorClassRateLimit, AttemptStatusFailed)
               else if (500 <=? statusCode) && (statusCode <=? 599)
               then (ErrorClass5xx, AttemptStatusFailed)
               else if (400 <=? statusCode) && (statusCode <=? 499)
               then (ErrorClass4xx, AttemptStatusFailed)
               else (ErrorClassUnknown, AttemptStatusFailed)
           | None => (ErrorClassUnknown, AttemptStatusFailed)
           end
  end.

Definition ErrorClassOf (err : option goerr) : ErrorClass := (classifyError err).1.

(** [unwrapAdmissionError]. *)
Definition unwrapAdmissionError (err : option goerr) : option goerr :=
  match err with
  | None => None
  | Some e => match errors_As is_admissionError e with
              | Some (AdmissionError _ inner) => Some inner
              | _ => Some e
              end
  end.

#[global] Arguments IsInfrastructureError : simpl never.
#[global] Arguments classifyError : simpl never.
#[global] Arguments unwrapAdmissionError : simpl never.
#[global] Arguments errors_Is : simpl never.
#[global] Arguments errors_As : simpl never.

(** ** Facts about the search *)

Lemma errors_Is_nodes err target : errors_Is err target = true <-> target ∈ nodes err.
Proof.
  unfold errors_Is. rewrite existsb_exists. split.
  - intros (x & Hx & Heq). to_prop. subst. by apply list_elem_of_In.
  - intros Hin. exists target. split; [by apply list_elem_of_In|]. by apply bool_decide_eq_true.
Qed.

(** Wrapping an error keeps what can be found in it. *)
Lemma classify_wrap id e :
  errors_Is (Wrap id e) Canceled = errors_Is e Canceled /\
  errors_Is (Wrap id e) DeadlineExceeded = errors_Is e DeadlineExceeded /\
  errors_As is_OpError (Wrap id e) = errors_As is_OpError e /\
  errors_As is_DNSError (Wrap id e) = errors_As is_DNSError e /\
  errors_As is_HTTPStatus (Wrap id e) = errors_As is_HTTPStatus e.
Proof. split_and!; done. Qed.

Lemma infra_some err : IsInfrastructureError err = true -> exists e, err = Some e.
Proof. destruct err; [eauto|done]. Qed.

(** the two classifications agree: an error counts against a breaker and
    triggers a fallback exactly when its attempt is classified as a network
    failure, a rate limit or a server error, or it carries a status of 600 or
    more (which the attempt classification calls unknown); and wrapping an
    error with context changes neither. *)
Theorem infrastructure_iff_class err :
  (IsInfrastructureError err = true <->
   ErrorClassOf err = ErrorClassNetwork \/ ErrorClassOf err = ErrorClassRateLimit \/
   ErrorClassOf err = ErrorClass5xx \/
   ErrorClassOf err = ErrorClassUnknown /\
     exists e code, err = Some e /\ httpStatusCode e = Some code /\ 600 <= code) /\
  (forall id, IsInfrastructureError (option_map (Wrap id) err) = IsInfrastructureError err /\
     classifyError (option_map (Wrap id) err) = classifyError err).
Proof.
  split.
  - destruct err as [e|]; [|by split; [done|intros [|[|[|[]]]]]].
    unfold ErrorClassOf, classifyError, IsInfrastructureError.
    destruct (errors_Is e Canceled); simpl; [naive_solver|].
    destruct (errors_Is e DeadlineExceeded); simpl; [naive_solver|].
    destruct (opt_b (errors_As is_OpError e)); simpl; [naive_solver|].
    destruct (opt_b (errors_As is_DNSError e)); simpl; [naive_solver|].
    destruct (httpStatusCode e) as [code|] eqn:Hc; simpl; [|naive_solver].
    destruct (Z.leb_spec 500 code), (Z.eqb_spec code 429), (Z.leb_spec code 599),
      (Z.leb_spec 400 code), (Z.leb_spec code 499); simpl; try lia;
      (split; [intros ?|intros [|[|[|(? & ? & ? & [= <-] & ? & ?)]]]]); simplify_eq; try done; try lia;
      auto.
    do 3 right. split; [done|]. exists e, code. split_and!; [done..|lia].
  - intros id. destruct err as [e|]; [|done]. simpl. destruct (classify_wrap id e) as (H1 & H2 & H3 & H4 & H5).
    unfold IsInfrastructureError, classifyError, httpStatusCode.
    by rewrite H1, H2, H3, H4, H5.
Qed.
