(* ===== verification/Request.v ===== *)
(** * Request: routing requests, model profiles and the token budget
    (provider/routing_request.go, provider/types.go, provider/model_profile.go,
    provider/token_budget.go)

    What the router is asked for, what it knows about a model, and whether the
    one fits the other.  Byte strings are Rocq strings, one character a byte. *)

From stdpp Require Import pretty.
From S2P Require Import Prelude GoString GoFloat ModelKey.
#[local] Open Scope Z_scope.

(** [len(s)]. *)
Definition slen (s : string) : Z := Z.of_nat (String.length s).

Definition string_eqb (a b : string) : bool := bool_decide (a = b).

(** ** Capabilities *)

(** A [uint32] bit mask. *)
Abbreviation Capability := Z.
Definition CapChat : Capability := Z.shiftl 1 0.
Definition CapGenerate : Capability := Z.shiftl 1 1.
Definition CapInsert : Capability := Z.shiftl 1 2.
Definition CapEmbed : Capability := Z.shiftl 1 3.
Definition CapStream : Capability := Z.shiftl 1 4.
Definition CapToolCall : Capability := Z.shiftl 1 5.
Definition CapThinking : Capability := Z.shiftl 1 6.

Definition Has (c flag : Capability) : bool := Z.land c flag =? flag.

(** ** Options and thinking *)

Inductive ThinkMode := ThinkNone | ThinkAlways | ThinkToggle | ThinkAuto.

#[export] Instance ThinkMode_eq_dec : EqDecision ThinkMode.
Proof. solve_decision. Defined.

Record ThinkTags := mkThinkTags { Open : string; Close : string }.

Record ModelOptions := mkModelOptions {
  Temperature : option float64;
  TopP : option float64;
  TopK : option Z;
  NumPredict : Z;
  NumCtx : Z;
  Stop : list string;
  RepeatPenalty : option float64;
  Think : option bool;
  ThinkEffort : string;
}.

Record SamplingDefaults := mkSamplingDefaults {
  def_Temperature : option float64;
  def_TopP : option float64;
  def_TopK : option Z;
}.

(** The pointers are cloned, so the merged options share nothing. *)
Definition mergeModelDefaults (request : ModelOptions) (defaults : SamplingDefaults) : ModelOptions :=
  let or {A} (a b : option A) := match a with Some _ => a | None => b end in
  mkModelOptions (or (Temperature request) (def_Temperature defaults))
    (or (TopP request) (def_TopP defaults)) (or (TopK request) (def_TopK defaults))
    (NumPredict request) (NumCtx request) (Stop request) (RepeatPenalty request)
    (Think request) (ThinkEffort request).

(** ** Requests *)

(** A tool call; its arguments are raw JSON. *)
Record ToolCall := mkToolCall {
  tc_ID : string;
  tc_Type : string;
  tc_Name : string;
  tc_Arguments : string;
}.

Record ChatMessage := mkChatMessage {
  Role : string;
  Content : string;
  ToolCalls : list ToolCall;
  ToolName : string;
  ToolCallID : string;
}.

Inductive Priority := PriorityBackground | PriorityNormal | PriorityHigh | PriorityCritical.

Definition priority_int (p : Priority) : Z :=
  match p with
  | PriorityBackground => 0 | PriorityNormal => 1 | PriorityHigh => 2 | PriorityCritical => 3
  end.

Inductive RouteKind := RouteKindChat | RouteKindGenerate | RouteKindEmbed.

Record RoutingRequest := mkRoutingRequest {
  rq_Model : string;
  UseCase : string;
  RequiredCaps : Capability;
  Messages : list ChatMessage;
  Prompt : string;
  System : string;
  Suffix : string;
  Input : list string;
  Tools : list string;  (** tool definitions, carried and never read *)
  Options : ModelOptions;
  ExpectedOutput : Z;
  PreferWarm : bool;
  rq_Priority : Priority;
  AffinityKey : string;
  SessionID : string;
  PreferredChain : list string;
  StrictChain : bool;
  rq_Provider : string;
  DryRun : bool;
}.

Definition inferRouteKind (req : RoutingRequest) : RouteKind :=
  if 0 <? len (Input req) then RouteKindEmbed
  else if negb (string_eqb (Prompt req) "") || negb (string_eqb (Suffix req) "")
  then RouteKindGenerate else RouteKindChat.

Definition DefaultExpectedOutput (useCase : string) : Z :=
  if string_eqb useCase "fim" then 200
  else if string_eqb useCase "chat" then 2048
  else if string_eqb useCase "embedding" then 0
  else if string_eqb useCase "code-review" then 4096
  else if string_eqb useCase "reasoning" then 4096
  else 2048.

Definition inputBudgetClass (tokens : Z) : string :=
  if tokens <? 2048 then "small" else if tokens <? 8192 then "medium" else "large".

Definition outputBudgetClass (tokens : Z) : string :=
  if tokens <? 512 then "small" else if tokens <? 2048 then "medium" else "large".

Definition estimateTokens (s : string) : Z :=
  let n := Z.quot (slen s) 4 in
  if (n =? 0) && (0 <? slen s) then 1 else n.

Definition estimateRoutingInputTokens (req : RoutingRequest) : Z :=
  let total := fold_left (fun t m => wrap_int (t + estimateTokens (Content m))) (Messages req) 0 in
  let total := wrap_int (total + estimateTokens (Prompt req)) in
  let total := wrap_int (total + estimateTokens (System req)) in
  let total := wrap_int (total + estimateTokens (Suffix req)) in
  fold_left (fun t s => wrap_int (t + estimateTokens s)) (Input req) total.

(** ** The sticky key *)

Definition PIPE : Ascii.ascii := Ascii.Ascii false false true true true true true false.

(** The text that is hashed: [%s|%s|%s|%d|%d|%s|%s], and the provider when set. *)
Definition stickyData (req : RoutingRequest) : string :=
  let expectedOut := if ExpectedOutput req =? 0 then DefaultExpectedOutput (UseCase req)
                     else ExpectedOutput req in
  let inClass := inputBudgetClass (estimateRoutingInputTokens req) in
  let outClass := outputBudgetClass expectedOut in
  AffinityKey req +:+ String PIPE (rq_Model req +:+ String PIPE (UseCase req +:+
    String PIPE (pretty (RequiredCaps req) +:+ String PIPE (pretty (priority_int (rq_Priority req)) +:+
    String PIPE (inClass +:+ String PIPE (outClass +:+
    (if string_eqb (rq_Provider req) "" then ""
     else String NUL ("provider=" +:+ rq_Provider req)))))))).

Section StickyKey.
(** SHA-256, and the hexadecimal rendering of its first 16 bytes. *)
Context (sha256_hex16 : string -> string).

Definition StickyKey (req : RoutingRequest) : string := sha256_hex16 (stickyData req).
End StickyKey.

(** ** Model profiles *)

Inductive Tier := TierBasic | TierGood | TierGreat | TierBest.

(** The fields the router reads. *)
Record ModelProfile := mkModelProfile {
  Key : ModelKey;
  RAMRequired : float64;
  Caps : Capability;
  p_ThinkMode : ThinkMode;
  p_ThinkTags : option ThinkTags;
  Quality : Tier;
  Speed : Tier;
  ContextWindow : Z;
  QualityCtxCeiling : Z;
  Template : string;
}.

Definition qualitySensitiveUseCases (u : string) : bool :=
  existsb (string_eqb u) ["chat"; "reasoning"; "code-review"; "planning"; "analysis"].

Definition EffectiveContextWindow (p : ModelProfile) (useCase : string) : Z :=
  if (0 <? QualityCtxCeiling p) && qualitySensitiveUseCases useCase then
    if (0 <? ContextWindow p) && (ContextWindow p <? QualityCtxCeiling p)
    then ContextWindow p
    else QualityCtxCeiling p
  else ContextWindow p.

(** [strings.Contains]. *)
Fixpoint contains (s sub : string) : bool :=
  String.prefix sub s || match s with EmptyString => false | String _ s => contains s sub end.

Definition templateUsesSuffix (tmpl : string) : bool := contains tmpl ".Suffix".

Definition SupportsFIM (p : ModelProfile) : bool :=
  if negb (string_eqb (Template p) "") then templateUsesSuffix (Template p)
  else Has (Caps p) CapInsert.

Definition profileSatisfiesRequiredCaps (p : ModelProfile) (required : Capability) : bool :=
  if required =? 0 then true else
  let caps := if Has required CapInsert && SupportsFIM p then Z.lor (Caps p) CapInsert
              else Caps p in
  Has caps required.

(** ** The token budget *)

Inductive BudgetDecision := BudgetOK | BudgetTruncate | BudgetReject.

#[export] Instance BudgetDecision_eq_dec : EqDecision BudgetDecision.
Proof. solve_decision. Defined.

(** The human-readable reason is left out. *)
Record BudgetResult := mkBudgetResult {
  Decision : BudgetDecision;
  RequestTokens : Z;
  BudgetTokens : Z;
  HeadroomPct : float64;
  HeadroomScore : float64;
}.

Abbreviation TokenBudgetValidator := (gmap string Z).

Definition expectedOutput (v : TokenBudgetValidator) (req : RoutingRequest) : Z :=
  if 0 <? ExpectedOutput req then ExpectedOutput req
  else match v !! UseCase req with
       | Some tokens => tokens
       | None => DefaultExpectedOutput (UseCase req)
       end.

Definition computeHeadroomScore (utilization : float64) : float64 :=
  if fle utilization (flit 1 2) then fone
  else if fle fone utilization then fzero
  else fmul (of_int 2) (fsub fone utilization).

Definition Validate (v : TokenBudgetValidator) (req : RoutingRequest) (profile : ModelProfile) :
    BudgetResult :=
  let inputTokens := estimateRoutingInputTokens req in
  let expectedOut := expectedOutput v req in
  let effectiveCtx := EffectiveContextWindow profile (UseCase req) in
  if effectiveCtx <=? 0 then mkBudgetResult BudgetReject inputTokens 0 fzero fzero else
  let budget := wrap_int (effectiveCtx - expectedOut) in
  let budget := if budget <? 0 then 0 else budget in
  if budget =? 0 then mkBudgetResult BudgetReject inputTokens 0 fzero fzero else
  let utilization := fdiv (of_int inputTokens) (of_int budget) in
  let headroomPct := fsub fone utilization in
  let headroomPct := if flt headroomPct fzero then fzero else headroomPct in
  let headroomScore := computeHeadroomScore utilization in
  let decision :=
    if inputTokens <=? budget then BudgetOK
    else if flt (of_int inputTokens) (fmul (of_int budget) (flit 3 2)) then BudgetTruncate
    else BudgetReject in
  mkBudgetResult decision inputTokens budget headroomPct headroomScore.

(** ** Properties *)

Lemma Has_spec c flag : 0 <= flag ->
  Has c flag = true <-> forall i, 0 <= i -> Z.testbit flag i = true -> Z.testbit c i = true.
Proof.
  intros Hf. unfold Has. rewrite Z.eqb_eq. split.
  - intros Heq i Hi Hb. rewrite <-Heq, Z.land_spec in Hb. by apply andb_true_iff in Hb as [? _].
  - intros Hall. apply Z.bits_inj'. intros i Hi. rewrite Z.land_spec.
    destruct (Z.testbit flag i) eqn:Hb; [|apply andb_false_r]. by rewrite Hall.
Qed.

Lemma CapInsert_bit i : 0 <= i -> Z.testbit CapInsert i = bool_decide (i = 2).
Proof.
  intros Hi. change CapInsert with (2 ^ 2). rewrite Z.pow2_bits_eqb by lia.
  rewrite Z.eqb_sym. destruct (Z.eqb_spec i 2) as [->|Hne]; symmetry;
    [by apply bool_decide_eq_true|by apply bool_decide_eq_false].
Qed.

(** a model passes the capability gate exactly when it has every required
    bit, where the insert bit is also granted by a profile that supports native
    insertion. *)
Theorem capability_gate p required :
  0 <= required ->
  profileSatisfiesRequiredCaps p required = true <->
  forall i, 0 <= i -> Z.testbit required i = true ->
    Z.testbit (Caps p) i = true \/ i = 2 /\ SupportsFIM p = true.
Proof.
  intros Hr. unfold profileSatisfiesRequiredCaps.
  destruct (Z.eqb_spec required 0) as [->|Hne].
  { split; [|done]. intros _ i _. by rewrite Z.bits_0. }
  rewrite Has_spec by done. destruct (Has required CapInsert) eqn:Hins; simpl.
  - destruct (SupportsFIM p).
    + split; intros H i Hi Hb; specialize (H i Hi Hb).
      * rewrite Z.lor_spec, CapInsert_bit in H by done.
        apply orb_true_iff in H as [|H]; [by left|]. apply bool_decide_eq_true in H. by right.
      * rewrite Z.lor_spec, CapInsert_bit by done. apply orb_true_iff.
        destruct H as [|[-> _]]; [by left|right]. by apply bool_decide_eq_true.
    + naive_solver.
  - split; [naive_solver|]. intros H i Hi Hb. destruct (H i Hi Hb) as [|[-> _]]; [done|].
    exfalso. assert (Has required CapInsert = true); [|congruence].
    apply Has_spec; [done|]. intros j Hj. rewrite CapInsert_bit by done.
    intros Hj2. apply bool_decide_eq_true in Hj2. by subst.
Qed.

(** *** The sticky key *)

Definition no_pipe (req : RoutingRequest) : Prop :=
  has_char PIPE (AffinityKey req) = false /\ has_char PIPE (rq_Model req) = false /\
  has_char PIPE (UseCase req) = false.

(** The output class a request is keyed under. *)
Definition out_class (req : RoutingRequest) : string :=
  outputBudgetClass (if ExpectedOutput req =? 0 then DefaultExpectedOutput (UseCase req)
                     else ExpectedOutput req).

Lemma in_class_no_pipe n : has_char PIPE (inputBudgetClass n) = false.
Proof. unfold inputBudgetClass. by repeat case_match. Qed.

Lemma out_class_no_nul n : has_char NUL (outputBudgetClass n) = false.
Proof. unfold outputBudgetClass. by repeat case_match. Qed.

Lemma string_app_nil_r (s : string) : s +:+ "" = s.
Proof. induction s as [|a s IH]; [done|]. change (String a (s +:+ "") = String a s). by f_equal. Qed.

Lemma provider_tail_inj c c' p p' :
  has_char NUL c = false -> has_char NUL c' = false ->
  c +:+ (if string_eqb p "" then "" else String NUL ("provider=" +:+ p)) =
  c' +:+ (if string_eqb p' "" then "" else String NUL ("provider=" +:+ p')) ->
  c = c' /\ p = p'.
Proof.
  intros Hc Hc'. unfold string_eqb.
  destruct (bool_decide_reflect (p = "")) as [->|Hp], (bool_decide_reflect (p' = "")) as [->|Hp'].
  - by rewrite !string_app_nil_r.
  - rewrite string_app_nil_r. intros Heq. by apply no_sep_app in Heq.
  - rewrite string_app_nil_r. intros Heq. symmetry in Heq. by apply no_sep_app in Heq.
  - intros Heq. apply app_sep_inj in Heq as [-> Heq]; [|done..].
    split; [done|]. by apply (inj (String.append "provider=")) in Heq.
Qed.

Lemma priority_int_inj p p' : priority_int p = priority_int p' -> p = p'.
Proof. by destruct p, p'. Qed.

Lemma stickyData_inj req req' :
  no_pipe req -> no_pipe req' -> stickyData req = stickyData req' ->
  AffinityKey req = AffinityKey req' /\ rq_Model req = rq_Model req' /\
  UseCase req = UseCase req' /\ RequiredCaps req = RequiredCaps req' /\
  rq_Priority req = rq_Priority req' /\
  inputBudgetClass (estimateRoutingInputTokens req) =
    inputBudgetClass (estimateRoutingInputTokens req') /\
  out_class req = out_class req' /\ rq_Provider req = rq_Provider req'.
Proof.
  intros (Ha & Hm & Hu) (Ha' & Hm' & Hu') Heq. unfold stickyData in Heq.
  apply app_sep_inj in Heq as [H1 Heq]; [|done..].
  apply app_sep_inj in Heq as [H2 Heq]; [|done..].
  apply app_sep_inj in Heq as [H3 Heq]; [|done..].
  apply app_sep_inj in Heq as [H4 Heq]; [|by apply pretty_Z_no_char..].
  apply app_sep_inj in Heq as [H5 Heq]; [|by apply pretty_Z_no_char..].
  apply app_sep_inj in Heq as [H6 Heq]; [|apply in_class_no_pipe..].
  apply provider_tail_inj in Heq as [H7 H8]; [|apply out_class_no_nul..].
  apply (inj pretty) in H4, H5. apply priority_int_inj in H5. split_and!; done.
Qed.

(** when the text fields hold no [|], two requests get the same sticky key
    exactly when they agree on the affinity key, the model, the use case, the
    capabilities, the priority, the input and output size classes and the
    provider, provided the hash does not collide on them: nothing else of a
    request, its exact sizes included, moves it to another route. *)
Theorem sticky_key_identifies sha256_hex16 req req' :
  no_pipe req -> no_pipe req' ->
  (sha256_hex16 (stickyData req) = sha256_hex16 (stickyData req') ->
   stickyData req = stickyData req') ->
  StickyKey sha256_hex16 req = StickyKey sha256_hex16 req' <->
  AffinityKey req = AffinityKey req' /\ rq_Model req = rq_Model req' /\
  UseCase req = UseCase req' /\ RequiredCaps req = RequiredCaps req' /\
  rq_Priority req = rq_Priority req' /\
  inputBudgetClass (estimateRoutingInputTokens req) =
    inputBudgetClass (estimateRoutingInputTokens req') /\
  out_class req = out_class req' /\ rq_Provider req = rq_Provider req'.
Proof.
  intros Hp Hp' Hcol. unfold StickyKey. split.
  - intros Heq. by apply stickyData_inj; [| |apply Hcol].
  - intros (H1 & H2 & H3 & H4 & H5 & H6 & H7 & H8). f_equal. unfold stickyData.
    unfold out_class in H7. by rewrite H7, H1, H2, H3, H4, H5, H6, H8.
Qed.

(** *** The budget *)

Lemma EffectiveContextWindow_le p u :
  0 < ContextWindow p -> EffectiveContextWindow p u <= ContextWindow p.
Proof.
  intros Hc. unfold EffectiveContextWindow. cases_if; to_prop; lia.
Qed.

Ltac budget_cases :=
  split_and!; try (split; intros; first [done | simplify_eq; lia]); intros;
  first [done | simplify_eq; lia | lia].

(** with a reservation that is not negative, a request is accepted for a
    model exactly when its estimated input and the reserved output fit the
    effective context together and leave room for any input at all; it is never
    sent back for truncation unless its input exceeds what the reservation
    leaves; and what is accepted fits the model's whole context window. *)
Theorem budget_ok_iff v req p :
  let out := expectedOutput v req in
  let ctx := EffectiveContextWindow p (UseCase req) in
  let r := Validate v req p in
  0 <= out -> in_int out -> in_int ctx ->
  (Decision r = BudgetOK <-> out < ctx /\ RequestTokens r + out <= ctx) /\
  (Decision r = BudgetTruncate -> out < ctx /\ ctx < RequestTokens r + out) /\
  (Decision r = BudgetOK -> 0 < ContextWindow p -> RequestTokens r + out <= ContextWindow p) /\
  RequestTokens r = estimateRoutingInputTokens req /\ 0 <= BudgetTokens r.
Proof.
  intros out ctx r Hout Hio Hic. pose proof (EffectiveContextWindow_le p (UseCase req)) as Hle.
  fold ctx in Hle. subst r. unfold Validate. fold out. fold ctx.
  set (inp := estimateRoutingInputTokens req).
  destruct (Z.leb_spec ctx 0); simpl; [budget_cases|].
  rewrite (wrap_int_id (ctx - out)) by (unfold in_int, MinInt, MaxInt in *; lia).
  destruct (Z.ltb_spec (ctx - out) 0); simpl; [budget_cases|].
  destruct (Z.eqb_spec (ctx - out) 0); simpl; [budget_cases|].
  destruct (Z.leb_spec inp (ctx - out)); simpl; [budget_cases|].
  destruct (flt _ _); simpl; budget_cases.
Qed.

(** ** The theorems at concrete inputs *)

Definition opts0 : ModelOptions := mkModelOptions None None None 0 0 [] None None "".
Definition req0 (aff prompt : string) : RoutingRequest :=
  mkRoutingRequest "qwen3" "chat" CapChat [] prompt "" "" [] [] opts0 100 false PriorityNormal aff
    "s" [] false "ollama" false.
Definition prof0 : ModelProfile :=
  mkModelProfile (mkModelKey "ollama" "qwen3") fzero CapChat ThinkAuto None TierGood TierGood
    4096 0 "".

Lemma capability_gate_witness :
  profileSatisfiesRequiredCaps prof0 CapChat = true /\
  forall i, 0 <= i -> Z.testbit CapChat i = true -> Z.testbit (Caps prof0) i = true \/
    i = 2 /\ SupportsFIM prof0 = true.
Proof.
  assert (0 <= CapChat) as H0 by (vm_compute; discriminate).
  split; [vm_compute; reflexivity|].
  apply (capability_gate prof0 CapChat H0). vm_compute. reflexivity.
Defined.

Lemma sticky_key_identifies_witness :
  let h := fun s : string => s in
  StickyKey h (req0 "sess" "hi") = StickyKey h (req0 "sess" "hello") /\
  inputBudgetClass (estimateRoutingInputTokens (req0 "sess" "hi")) =
  inputBudgetClass (estimateRoutingInputTokens (req0 "sess" "hello")).
Proof.
  assert (no_pipe (req0 "sess" "hi")) as H1 by (repeat split).
  assert (no_pipe (req0 "sess" "hello")) as H2 by (repeat split).
  split; [vm_compute; reflexivity|].
  apply (sticky_key_identifies (fun s => s) _ _ H1 H2 (fun e => e)). vm_compute. reflexivity.
Defined.

Lemma budget_ok_iff_witness :
  Decision (Validate ∅ (req0 "sess" "hi") prof0) = BudgetOK /\
  RequestTokens (Validate ∅ (req0 "sess" "hi") prof0) + 100 <= 4096.
Proof.
  split; [vm_compute; reflexivity|].
  assert (0 <= expectedOutput ∅ (req0 "sess" "hi")) as H1 by (vm_compute; discriminate).
  assert (in_int (expectedOutput ∅ (req0 "sess" "hi"))) as H2
    by (split; vm_compute; discriminate).
  assert (in_int (EffectiveContextWindow prof0 "chat")) as H3 by (split; vm_compute; discriminate).
  apply (budget_ok_iff ∅ (req0 "sess" "hi") prof0 H1 H2 H3); vm_compute; reflexivity.
Defined.
