(* ===== verification/ProgressiveText.v ===== *)
(** * ProgressiveText: the blocks of a progressive render (rag/progressive_render.go, rag/summary_validity.go)

    A source is rendered as one orientation block and any number of evidence
    blocks.  The texts are exact: quoting, time stamps, scores and line numbers
    are those of the standard library as [GoFormat] models it.  Whether a stored
    summary may be used is decided by [deriveSummaryValidity]. *)

From Stdlib Require Import Strings.Ascii.
From stdpp Require Import strings list gmap sorting pretty.
From S2P Require Import Prelude GoString GoFloat GoText GoFormat Request.

#[local] Open Scope string_scope.
#[local] Open Scope Z_scope.

(** ** Retrieval results (chunker.go, store.go) *)

Record Chunk := mkChunk {
  ID : string;
  Content : string;
  Source : string;
  StartLine : Z;
  EndLine : Z;
  Language : string;
  Metadata : gmap string string;
  StableKey : string;
}.

Record SearchResult := mkResult { res_Chunk : Chunk; res_Score : float64; res_Distance : float64 }.

(** ** Provenance and summaries (source_provenance.go, source_summary.go) *)

Record SourceProvenance := mkProvenance {
  p_Source : string;
  p_ContentHash : string;
  p_VectorSpaceID : string;
  IndexedAt : Z;
  Mixed : bool;
  Managed : bool;
  Title : string;
  Collection : string;
  Tags : list string;
  Freshness : string;
}.

Definition no_provenance : SourceProvenance := mkProvenance "" "" "" 0 false false "" "" [] "".

Record SourceSummary := mkSummary {
  s_Source : string;
  s_ContentHash : string;
  s_VectorSpaceID : string;
  Abstract : string;
  Overview : string;
  SummaryModel : string;
  FormatVersion : Z;
  SummarizedAt : Z;
}.

Definition SourceSummaryFormatVersion : Z := 1.

(** ** Validity of a stored summary *)

Definition summaryRowMalformed (row : SourceSummary) : bool :=
  blank (s_ContentHash row) || blank (s_VectorSpaceID row) || blank (Abstract row) ||
  blank (Overview row) || blank (SummaryModel row) || (SummarizedAt row <=? 0) ||
  (SourceSummaryFormatVersion <? FormatVersion row).

Inductive ValidityReason :=
| ReasonMissing | ReasonMalformedRow | ReasonStaleContent | ReasonStaleVectorSpace | ReasonStaleFormat
| ReasonUnknownContentHash | ReasonUnknownVectorSpace | ReasonMixedProvenance | ReasonEvidenceMismatch.

#[export] Instance ValidityReason_eq_dec : EqDecision ValidityReason.
Proof. solve_decision. Defined.

Definition reason_string (r : ValidityReason) : string :=
  match r with
  | ReasonMissing => "missing"
  | ReasonMalformedRow => "malformed_row"
  | ReasonStaleContent => "stale_content"
  | ReasonStaleVectorSpace => "stale_vector_space"
  | ReasonStaleFormat => "stale_format"
  | ReasonUnknownContentHash => "unknown_content_hash"
  | ReasonUnknownVectorSpace => "unknown_vector_space"
  | ReasonMixedProvenance => "mixed_provenance"
  | ReasonEvidenceMismatch => "evidence_mismatch"
  end.

Definition reasonOrder (r : ValidityReason) : nat :=
  match r with
  | ReasonMissing => 0 | ReasonMalformedRow => 1 | ReasonStaleContent => 2 | ReasonStaleVectorSpace => 3
  | ReasonStaleFormat => 4 | ReasonUnknownContentHash => 5 | ReasonUnknownVectorSpace => 6
  | ReasonMixedProvenance => 7 | ReasonEvidenceMismatch => 8
  end.

Definition reason_le (a b : ValidityReason) : Prop := (reasonOrder a <= reasonOrder b)%nat.
#[export] Instance reason_le_dec a b : base.Decision (reason_le a b).
Proof. unfold reason_le. apply _. Defined.

Definition sortReasons (reasons : list ValidityReason) : list ValidityReason :=
  merge_sort reason_le reasons.

Definition when_ {A} (b : bool) (x : A) : list A := if b then [x] else [].

Definition deriveSummaryValidity (row : option SourceSummary) (prov : SourceProvenance)
    (provFound evidenceOK : bool) : list ValidityReason :=
  let prov := if negb provFound then no_provenance else prov in
  let hash := p_ContentHash prov in
  let space := p_VectorSpaceID prov in
  let malformed := match row with Some r => summaryRowMalformed r | None => false end in
  let about_row :=
    match row with
    | None => [ReasonMissing]
    | Some r =>
        if malformed then [ReasonMalformedRow]
        else
          when_ (negb (string_eqb hash "") && negb (string_eqb (s_ContentHash r) hash)) ReasonStaleContent ++
          when_ (negb (string_eqb space "") && negb (string_eqb (s_VectorSpaceID r) space))
            ReasonStaleVectorSpace ++
          when_ (FormatVersion r <? SourceSummaryFormatVersion) ReasonStaleFormat
    end%list in
  let unknown :=
    if malformed then []
    else (when_ (string_eqb hash "") ReasonUnknownContentHash ++
          when_ (string_eqb space "") ReasonUnknownVectorSpace)%list in
  sortReasons (about_row ++ unknown ++ when_ (Mixed prov) ReasonMixedProvenance ++
               when_ (negb evidenceOK) ReasonEvidenceMismatch)%list.

(** ** A source during a render *)

Inductive orientationLevel := orientationNone | orientationMeta | orientationL0 | orientationL0L1.

#[export] Instance orientationLevel_eq_dec : EqDecision orientationLevel.
Proof. solve_decision. Defined.

Definition level_rank (l : orientationLevel) : nat :=
  match l with orientationNone => 0 | orientationMeta => 1 | orientationL0 => 2 | orientationL0L1 => 3 end.

(** [level >= than]. *)
Definition level_ge (level than : orientationLevel) : bool := (level_rank than <=? level_rank level)%nat.

(** The fields of a [progressiveSource] that the allocator only reads... *)
Record preparedSource := mkPrepared {
  source : string;
  firstIndex : Z;
  results : list SearchResult;
  resultIdx : list Z;
  prov : SourceProvenance;
  provFound : bool;
  summary : option SourceSummary;
  reasons : list ValidityReason;
  fresh : bool;
  snapshotMeta : bool;
}.

(** ...and the whole; [decisions] is the set of the keys set to true. *)
Record progressiveSource := mkSource {
  prep : preparedSource;
  orientation : orientationLevel;
  evidence : list nat;
  rejectedEvidence : list nat;
  pinnedEvidence : list nat;
  floorEvidence : list nat;
  costRejected : bool;
  decisions : gset string;
  summaryBudgetOmitted : bool;
}.

(** ** Lines *)

Definition nl : string := String "010" EmptyString.

Definition orientationValueReplacer : list (string * string) := [
  (String "013" "", " "); (nl, " "); (String "011" "", " "); (String "012" "", " ");
  (String "194" (String "133" ""), " ");
  (String "226" (String "128" (String "168" "")), " ");
  (String "226" (String "128" (String "169" "")), " ")].

Definition replaceOrientationLineBreaks (v : string) : string := Replace orientationValueReplacer v.

Definition normalizeOrientationValue (v : string) : string := TrimSpace (replaceOrientationLineBreaks v).

(** The loop of [joinSortedUnique]. *)
Fixpoint uniqueValues (seen : gset string) (values : list string) : list string :=
  match values with
  | [] => []
  | v :: values =>
      let v := normalizeOrientationValue v in
      if string_eqb v "" || bool_decide (v ∈ seen) then uniqueValues seen values
      else v :: uniqueValues ({[v]} ∪ seen) values
  end.

Definition joinSortedUnique (values : list string) : string := Join (SortStrings (uniqueValues ∅ values)) ", ".

Definition contentLineBreakReplacer : list (string * string) := [
  (String "013" nl, nl); (String "013" "", nl); (String "011" "", nl); (String "012" "", nl);
  (String "194" (String "133" ""), nl);
  (String "226" (String "128" (String "168" "")), nl);
  (String "226" (String "128" (String "169" "")), nl)].

(** The lines without the empty one after a final line break. *)
Definition contentLines (content : string) : list string :=
  let lines := Split "010" (Replace contentLineBreakReplacer content) in
  match last lines with
  | Some l => if string_eqb l "" then removelast lines else lines
  | None => lines
  end.

(** [numberLines] of retriever.go. *)
Definition numberLines (content : string) (startLine : Z) : string :=
  String.concat "" (imap (fun i line => pretty (wrap_int (startLine + Z.of_nat i)) +:+ "| " +:+ line +:+ nl)
                      (contentLines content)).

(** ** The blocks *)

Section text.
Context (IsPrintWide : Z -> bool).

(** [writeField]: nothing for an empty value. *)
Definition field (name value : string) : string :=
  if string_eqb value "" then "" else name +:+ ": " +:+ value +:+ nl.

Definition meta_of (key : string) (res : SearchResult) : string :=
  default "" (Metadata (res_Chunk res) !! key).

Definition nonempty (l : list string) : list string := List.filter (fun v => negb (string_eqb v "")) l.

Definition orientationHeader (src : preparedSource) : string :=
  "### source: " +:+ Quote IsPrintWide (source src) +:+
  (if Managed (prov src) && negb (string_eqb (Title (prov src)) "")
   then " managed-title: " +:+ Quote IsPrintWide (Title (prov src)) else "").

Definition metaNote (src : preparedSource) (summaryBudgetOmitted : bool) : string :=
  if negb summaryBudgetOmitted
  then "metadata overview (no summary" +:+
       (match reasons src with
        | [] => ""
        | l => ": " +:+ Join (map reason_string l) ", "
        end) +:+ ")"
  else "metadata overview (summary omitted: budget)".

Definition orientationTextWithNote (src : preparedSource) (level : orientationLevel)
    (summaryBudgetOmitted : bool) : string :=
  let p := prov src in
  let summarized := level_ge level orientationL0 in
  orientationHeader src +:+ nl +:+
  (match summary src with
   | Some s => if summarized then field "purpose" (normalizeOrientationValue (Abstract s)) else ""
   | None => ""
   end) +:+
  (match summary src with
   | Some s => if level_ge level orientationL0L1
               then field "overview" (normalizeOrientationValue (Overview s)) else ""
   | None => ""
   end) +:+
  field "language" (normalizeOrientationValue
    (default "" (head (nonempty (map (fun r => Language (res_Chunk r)) (results src)))))) +:+
  field "symbols" (joinSortedUnique (nonempty (map (meta_of "symbol_path") (results src)))) +:+
  field "sections" (joinSortedUnique (nonempty (map (meta_of "section_path") (results src)))) +:+
  field "collection" (normalizeOrientationValue (Collection p)) +:+
  field "tags" (joinSortedUnique (Tags p)) +:+
  (if 0 <? IndexedAt p then field "indexed" (rfc3339 (IndexedAt p)) else "") +:+
  (if Managed p && negb (string_eqb (Freshness p) "")
   then field "freshness" (normalizeOrientationValue (Freshness p)) else "") +:+
  (match summary src with
   | Some s => if summarized && (0 <? SummarizedAt s)
               then field "summary" (normalizeOrientationValue (SummaryModel s) +:+ " @ " +:+
                                     rfc3339 (SummarizedAt s)) else ""
   | None => ""
   end) +:+
  (if decide (level = orientationMeta) then field "note" (metaNote src summaryBudgetOmitted) else "").

Definition orientationText (src : progressiveSource) (level : orientationLevel) : string :=
  orientationTextWithNote (prep src) level (summaryBudgetOmitted src).

Definition evidenceHeader (res : SearchResult) : string :=
  "--- source: " +:+ Quote IsPrintWide (Source (res_Chunk res)) +:+ " (lines " +:+
  pretty (StartLine (res_Chunk res)) +:+ "-" +:+ pretty (EndLine (res_Chunk res)) +:+
  ", similarity: " +:+ FormatFixed2 (res_Score res) +:+ ") ---".

Definition evidenceText (res : SearchResult) : string :=
  let content := Replace [(String "013" nl, nl)] (Content (res_Chunk res)) in
  let content := Replace [(String "013" "", nl)] content in
  evidenceHeader res +:+ nl +:+ numberLines content (StartLine (res_Chunk res)).
End text.
