(* ===== verification/RoutePlan.v ===== *)
(** * RoutePlan: executing a routed request (provider/route_plan.go)

    A plan holds the selected model and its fallbacks.  The Execute methods call
    the selected provider and walk the fallbacks on infrastructure errors, with
    a destination check and an admission permit around every call, and report
    what happened to the recorder and the feedback seam.

    What a method does to the outside world is a trace of signals, and what the
    outside world answers is a function of the attempt's number (0 the selected
    model, [i] the [i]-th fallback): the destination gate, the admission seam,
    the clock and the providers.  A streaming provider is a tree: it emits
    chunks, sees what the callback returned, and ends with an error or nil. *)

From S2P Require Import GoString GoFloat Prelude ModelKey RouteErrors Request.

Record ChatRequest := mkChatRequest {
  cr_Model : string;
  cr_Messages : list ChatMessage;
  cr_Options : ModelOptions;
  cr_Tools : list string;
  cr_Stream : bool;
  ParseThinkMode : option ThinkMode;
  ParseThinkTags : option ThinkTags;
  cr_SessionID : string;
}.

Record GenerateRequest := mkGenerateRequest {
  gr_Model : string;
  gr_Prompt : string;
  gr_System : string;
  gr_Suffix : string;
  gr_Options : ModelOptions;
  gr_Stream : bool;
}.

Record EmbedRequest := mkEmbedRequest { er_Model : string; er_Input : list string }.

Record RouteAttempt := mkAttempt {
  at_Key : ModelKey;
  at_Status : AttemptStatus;
  at_LatencyMs : Z;
  at_ErrorClass : ErrorClass;
}.

(** The random [RouteID] and the feedback breakdown are left out. *)
Record RouteOutcome := mkOutcome {
  PlannedModel : ModelKey;
  ActualModel : ModelKey;
  o_UseCase : string;
  FallbacksUsed : Z;
  WasSticky : bool;
  o_Score : float64;
  Attempts : list RouteAttempt;
}.

(** [governed] and [gated]: the admission and destination seams are set;
    [recorder]: whether a recorder is set, and whether it also takes slot
    signals; [feedback]: whether a feedback wrapper is set. *)
Inductive RoutePlan := mkPlan {
  Kind : RouteKind;
  Model : string;
  Profile : ModelProfile;
  rp_Request : RoutingRequest;
  Score : float64;
  Budget : BudgetResult;
  Fallbacks : list RoutePlan;
  Degraded : bool;
  wasSticky : bool;
  recorder : option bool;
  feedback : bool;
  governed : bool;
  gated : bool;
}.

Definition plan_key (rp : RoutePlan) : ModelKey := Key (Profile rp).

(** ** Request builders *)

Definition buildChatRequest (rp : RoutePlan) (stream : bool) : ChatRequest :=
  let opts := Options (rp_Request rp) in
  let mode := p_ThinkMode (Profile rp) in
  let mode := match mode with
              | ThinkToggle => if negb (opt_b (Think opts)) && string_eqb (ThinkEffort opts) ""
                               then ThinkAuto else ThinkToggle
              | m => m
              end in
  let opts := match p_ThinkMode (Profile rp) with
              | ThinkNone => mkModelOptions (Temperature opts) (TopP opts) (TopK opts)
                               (NumPredict opts) (NumCtx opts) (Stop opts) (RepeatPenalty opts)
                               None ""
              | _ => opts
              end in
  mkChatRequest (Model rp) (Messages (rp_Request rp)) opts (Tools (rp_Request rp)) stream
    (Some mode) (p_ThinkTags (Profile rp)) (SessionID (rp_Request rp)).

Definition buildGenerateRequest (rp : RoutePlan) (stream : bool) : GenerateRequest :=
  let r := rp_Request rp in
  mkGenerateRequest (Model rp) (Prompt r) (System r) (Suffix r) (Options r) stream.

Definition buildEmbedRequest (rp : RoutePlan) : EmbedRequest :=
  mkEmbedRequest (Model rp) (Input (rp_Request rp)).

(** ** Attempts and outcomes *)

(** [duration.Milliseconds()], not below zero. *)
Definition clampMs (duration : Z) : Z :=
  let ms := Z.quot duration 1000000 in if ms <? 0 then 0 else ms.

Definition makeUnknownAttempt (key : ModelKey) (duration : Z) : RouteAttempt :=
  mkAttempt key AttemptStatusUnknown (clampMs duration) ErrorClassNone.

Definition makeAttempt (key : ModelKey) (err : option goerr) (duration : Z) : RouteAttempt :=
  if match err with Some e => errors_Is e ErrContentDenied | None => false end
  then makeUnknownAttempt key duration
  else let '(class, status) := classifyError err in
       mkAttempt key status (clampMs duration) class.

Definition buildOutcome (rp : RoutePlan) (fallbacksUsed : Z) (attempts : list RouteAttempt) :
    RouteOutcome :=
  let actualKey :=
    match last attempts with
    | Some a => if decide (at_Status a = AttemptStatusSucceeded) then at_Key a else plan_key rp
    | None => plan_key rp
    end in
  mkOutcome (plan_key rp) actualKey (UseCase (rp_Request rp)) fallbacksUsed (wasSticky rp)
    (Score rp) attempts.

(** ** Signals *)

Inductive signal :=
| SigAcquire (key : ModelKey)
| SigRelease (key : ModelKey)
| SigCall (i : nat) (key : ModelKey)
| SigDeliver (i : nat) (visible : bool) (outcome : option RouteOutcome)
| SigFailure (key : ModelKey) (err : goerr)
| SigSuccess (key : ModelKey)
| SigWarmth (key : ModelKey)
| SigSlotUse (key : ModelKey)
| SigFeedback (useCase : string) (outcome : RouteOutcome).

Definition recordSuccess (rp : RoutePlan) (key : ModelKey) : list signal :=
  match recorder rp with Some _ => [SigSuccess key] | None => [] end.

Definition recordFailure (rp : RoutePlan) (key : ModelKey) (err : goerr) : list signal :=
  match recorder rp with Some _ => [SigFailure key err] | None => [] end.

Definition recordWarmthUse (rp : RoutePlan) (key : ModelKey) : list signal :=
  match recorder rp with Some _ => [SigWarmth key] | None => [] end.

Definition recordSlotUse (rp : RoutePlan) (key : ModelKey) : list signal :=
  match recorder rp with Some true => [SigSlotUse key] | _ => [] end.

Definition recordOutcomeFeedback (rp : RoutePlan) (outcome : RouteOutcome) : list signal :=
  if feedback rp && negb (string_eqb (UseCase (rp_Request rp)) "")
  then [SigFeedback (UseCase (rp_Request rp)) outcome] else [].

Definition recordResult (rp : RoutePlan) (err : option goerr) (attempts : list RouteAttempt)
    (outcome : RouteOutcome) : list signal :=
  let actualKey := match last attempts with Some a => at_Key a | None => plan_key rp end in
  match err with
  | None => recordSuccess rp actualKey ++ recordWarmthUse rp actualKey ++ recordSlotUse rp actualKey
  | Some e =>
      if opt_b (errors_As is_admissionError e) then []
      else if errors_Is e Canceled || errors_Is e DeadlineExceeded
      then recordWarmthUse rp actualKey else []
  end ++ recordOutcomeFeedback rp outcome.

Definition handleResult (rp : RoutePlan) (err : option goerr) (fallbacksUsed : Z)
    (attempts : list RouteAttempt) : RouteOutcome * list signal :=
  let outcome := buildOutcome rp fallbacksUsed attempts in
  (outcome, recordResult rp err attempts outcome).

(** ** The outside world *)

(** What [acquireSlot] answers: a permit, a no-op release, or an error. *)
Inductive acquired := AcqPermit | AcqNoop | AcqErr (e : goerr).

Section Execute.
Context (bind : nat -> ModelKey -> option goerr).
Context (acquire : nat -> ModelKey -> acquired).
Context (latency : nat -> Z).

Definition bindDestination (rp : RoutePlan) (i : nat) (key : ModelKey) : option goerr :=
  if gated rp then bind i key else None.

Definition acquireFor (rp : RoutePlan) (i : nat) (key : ModelKey) : acquired :=
  if governed rp then acquire i key else AcqNoop.

(** ** Non-streaming execution *)

Section NonStreaming.
Context {R : Type}.

(** The response a provider returned, with the outcome attached to it. *)
Record response := mkResponse { body : R; resp_RouteOutcome : option RouteOutcome }.

(** An attempt is denied before the provider is called, or the provider was
    called and returned an error or nil. *)
Inductive contacted := Denied (e : goerr) | Called (err : option goerr).

(** [contact rp i target prev]: the destination check, the permit and the call of
    the [i]-th candidate [target]; the response replaces [prev]. *)
Context (contact : RoutePlan -> nat -> RoutePlan -> option R ->
  list signal * (option R * contacted)).

(** The loop over the fallbacks, from the [i]-th. *)
Fixpoint walkFallbacks (rp : RoutePlan) (i : nat) (fbs : list RoutePlan)
    (attempts : list RouteAttempt) (resp : option R) (err : option goerr) :
    list signal * (option R * option goerr * Z * list RouteAttempt) :=
  match fbs with
  | [] => ([], (resp, err, 0, attempts))
  | fb :: fbs =>
      match contact rp i fb resp with
      | (s, (resp, Denied e)) => (s, (resp, Some (AdmissionError i e), 0, attempts))
      | (s, (resp, Called err)) =>
          let attempts := attempts ++ [makeAttempt (plan_key fb) err (latency i)] in
          match err with
          | None => (s, (resp, None, Z.of_nat i, attempts))
          | Some e =>
              if IsInfrastructureError err then
                let '(s', r) := walkFallbacks rp (S i) fbs attempts resp err in
                (s ++ recordFailure rp (plan_key fb) e ++ s', r)
              else (s, (resp, err, 0, attempts))
          end
      end
  end.

(** The result of an Execute method: the trace, the response and the error. *)
Definition Execute (rp : RoutePlan) : list signal * option response * option goerr :=
  match Decision (Budget rp) with
  | BudgetTruncate => ([], None, Some ErrBudgetAdaptationRequired)
  | _ =>
      match contact rp 0 rp None with
      | (s, (_, Denied e)) => (s, None, Some e)
      | (s, (resp, Called err)) =>
          let attempts := [makeAttempt (plan_key rp) err (latency 0)] in
          let '(s', (resp, err, fallbacksUsed, attempts)) :=
            match err with
            | Some e =>
                if IsInfrastructureError err then
                  let '(s', r) := walkFallbacks rp 1 (Fallbacks rp) attempts resp err in
                  (recordFailure rp (plan_key rp) e ++ s', r)
                else ([], (resp, err, 0, attempts))
            | None => ([], (resp, err, 0, attempts))
            end in
          let '(outcome, s'') := handleResult rp err fallbacksUsed attempts in
          (s ++ s' ++ s'', option_map (fun b => mkResponse b (Some outcome)) resp,
           unwrapAdmissionError err)
      end
  end.
End NonStreaming.

(** The admission bracket of one call: [call] is what the provider answers, and
    the release after it is the one that counts, the deferred one being guarded
    by a [sync.Once]. *)
Definition bracketCall {R} (call : nat -> RoutePlan -> option R * option goerr) (rp : RoutePlan)
    (i : nat) (target : RoutePlan) (prev : option R) : list signal * (option R * contacted) :=
  let key := plan_key target in
  match acquireFor rp i key with
  | AcqErr e => ([], (prev, Denied e))
  | AcqNoop => let '(resp, err) := call i target in ([SigCall i key], (resp, Called err))
  | AcqPermit => let '(resp, err) := call i target in
                 ([SigAcquire key; SigCall i key; SigRelease key], (resp, Called err))
  end.

Definition bracket {R} (call : nat -> RoutePlan -> option R * option goerr) (rp : RoutePlan)
    (i : nat) (target : RoutePlan) (prev : option R) : list signal * (option R * contacted) :=
  match bindDestination rp i (plan_key target) with
  | Some e => ([], (prev, Denied e))
  | None => bracketCall call rp i target prev
  end.

Definition ExecuteChat {R} (chat : nat -> ChatRequest -> option R * option goerr) (rp : RoutePlan) :
    list signal * option response * option goerr :=
  Execute (bracket (fun i target => chat i (buildChatRequest target false))) rp.

Definition ExecuteGenerate {R} (generate : nat -> GenerateRequest -> option R * option goerr)
    (rp : RoutePlan) : list signal * option response * option goerr :=
  Execute (bracket (fun i target => generate i (buildGenerateRequest target false))) rp.

(** *** Embedding *)

(** A provider that dedupes embeds admits inside its leader: [Follower] joins a
    flight another caller leads, [Leader k] asks for admission and goes on with
    what it answered. *)
Inductive embedder (R : Type) :=
| PlainEmbedder (embed : EmbedRequest -> option R * option goerr)
| AdmittedEmbedder_Follower (r : EmbedRequest -> option R * option goerr)
| AdmittedEmbedder_Leader (k : EmbedRequest -> option goerr -> option R * option goerr).
Arguments PlainEmbedder {R}.
Arguments AdmittedEmbedder_Follower {R}.
Arguments AdmittedEmbedder_Leader {R}.

(** [ctxErr]: the caller's context is already done before this attempt. *)
Context (ctxErr : nat -> bool).

(** [admitFuncFor], called by the leader: its signals and its error. *)
Definition admitFuncFor (rp : RoutePlan) (i : nat) (key : ModelKey) : list signal * option goerr :=
  match acquireFor rp i key with
  | AcqErr e => ([], Some (AdmissionError i e))
  | AcqNoop => ([], None)
  | AcqPermit => ([SigAcquire key; SigRelease key], None)
  end.

(** The pre-check of a dead caller: [None] lets the call proceed. *)
Definition deadCallerCheck (rp : RoutePlan) (i : nat) (key : ModelKey) :
    list signal * option goerr :=
  if ctxErr i then
    match acquireFor rp i key with
    | AcqErr e => ([], Some e)
    | AcqNoop => ([], None)
    | AcqPermit => ([SigAcquire key; SigRelease key], None)
    end
  else ([], None).

Definition embedContact {R} (provider : nat -> embedder R) (rp : RoutePlan) (i : nat)
    (target : RoutePlan) (prev : option R) : list signal * (option R * contacted) :=
  let key := plan_key target in
  let req := buildEmbedRequest target in
  let admitted (s : list signal) (r : option R * option goerr) :=
    match r.2 with
    | Some e => match errors_As is_admissionError e with
                | Some (AdmissionError _ inner) => (s, (r.1, Denied inner))
                | _ => (s, (r.1, Called r.2))
                end
    | None => (s, (r.1, Called r.2))
    end in
  match bindDestination rp i key with
  | Some e => ([], (prev, Denied e))
  | None =>
      match provider i with
      | PlainEmbedder embed => bracketCall (fun _ _ => embed req) rp i target prev
      | AdmittedEmbedder_Follower r =>
          match deadCallerCheck rp i key with
          | (s, Some e) => (s, (prev, Denied e))
          | (s, None) => admitted (s ++ [SigCall i key]) (r req)
          end
      | AdmittedEmbedder_Leader k =>
          match deadCallerCheck rp i key with
          | (s, Some e) => (s, (prev, Denied e))
          | (s, None) => let '(s', a) := admitFuncFor rp i key in
                         admitted (s ++ [SigCall i key] ++ s') (k req a)
          end
      end
  end.

Definition ExecuteEmbed {R} (provider : nat -> embedder R) (rp : RoutePlan) :
    list signal * option response * option goerr :=
  Execute (embedContact provider) rp.

(** ** Streaming execution *)

(** What the streaming code reads and writes of a chunk. *)
Class StreamChunk (C : Type) := {
  visible : C -> bool;
  chunk_Done : C -> bool;
  chunk_Partial : C -> bool;
  with_outcome : RouteOutcome -> C -> C;
}.

(** A provider's stream: the chunks it hands to the callback, what it does with
    each answer, and the error it returns. *)
Inductive stream (C : Type) :=
| StreamEnd (err : option goerr)
| StreamChunkTo (c : C) (k : option goerr -> stream C).
Arguments StreamEnd {C}.
Arguments StreamChunkTo {C}.

Section Streaming.
Context {C : Type} `{StreamChunk C}.
(** The caller's callback, given the chunks it was handed before. *)
Context (fn : list C -> C -> option goerr).
Context (latencyDone : nat -> Z).

(** The variables the stream callback closes over, and the trace. *)
Record sstate := mkS {
  st_hist : list C;
  delivered : bool;
  streamDone : bool;
  callbackErr : option goerr;
  st_attempts : list RouteAttempt;
  st_fallbacksUsed : Z;
  st_outcome : option RouteOutcome;
  st_trace : list signal;
}.

(** [wrappedFn] and [wrappedFbFn] of the [i]-th candidate: the primary's pending
    count is the one it started with, a fallback's is its number. *)
Definition wrappedFn (rp : RoutePlan) (i : nat) (key : ModelKey) (chunk : C) (st : sstate) :
    option goerr * sstate :=
  let vis := visible chunk in
  let deliv := delivered st || vis in
  if chunk_Done chunk && negb (chunk_Partial chunk) && negb (streamDone st) then
    let pendingAttempts := st_attempts st ++ [makeAttempt key None (latencyDone i)] in
    let pendingFallbacksUsed := Z.of_nat i in
    let pendingOutcome := buildOutcome rp pendingFallbacksUsed pendingAttempts in
    let chunk := with_outcome pendingOutcome chunk in
    let hist := st_hist st ++ [chunk] in
    let tr := st_trace st ++ [SigDeliver i vis (Some pendingOutcome)] in
    match fn (st_hist st) chunk with
    | Some e => (Some e, mkS hist deliv (streamDone st) (Some e) (st_attempts st)
                           (st_fallbacksUsed st) (st_outcome st) tr)
    | None => (None, mkS hist deliv true (callbackErr st) pendingAttempts pendingFallbacksUsed
                       (Some pendingOutcome) tr)
    end
  else
    let hist := st_hist st ++ [chunk] in
    let tr := st_trace st ++ [SigDeliver i vis None] in
    match fn (st_hist st) chunk with
    | Some e => (Some e, mkS hist deliv (streamDone st) (Some e) (st_attempts st)
                           (st_fallbacksUsed st) (st_outcome st) tr)
    | None => (None, mkS hist deliv (streamDone st) (callbackErr st) (st_attempts st)
                       (st_fallbacksUsed st) (st_outcome st) tr)
    end.

Fixpoint runStream (rp : RoutePlan) (i : nat) (key : ModelKey) (s : stream C) (st : sstate) :
    option goerr * sstate :=
  match s with
  | StreamEnd err => (err, st)
  | StreamChunkTo c k =>
      let '(e, st) := wrappedFn rp i key c st in runStream rp i key (k e) st
  end.

Definition with_attempts (st : sstate) (a : list RouteAttempt) : sstate :=
  mkS (st_hist st) (delivered st) (streamDone st) (callbackErr st) a (st_fallbacksUsed st)
    (st_outcome st) (st_trace st).

Definition signals (st : sstate) (s : list signal) : sstate :=
  mkS (st_hist st) (delivered st) (streamDone st) (callbackErr st) (st_attempts st)
    (st_fallbacksUsed st) (st_outcome st) (st_trace st ++ s).

Definition with_fallbacksUsed (st : sstate) (n : Z) : sstate :=
  mkS (st_hist st) (delivered st) (streamDone st) (callbackErr st) (st_attempts st) n
    (st_outcome st) (st_trace st).

(** The variables of a new attempt. *)
Definition freshAttempt (st : sstate) : sstate :=
  mkS (st_hist st) false false None (st_attempts st) (st_fallbacksUsed st) (st_outcome st)
    (st_trace st).

(** One attempt, after the destination check and the permit: the stream runs, an
    accepted Done chunk overrides a later error of the provider, and a stream
    without one leaves its attempt here. *)
Definition streamAttempt (rp : RoutePlan) (i : nat) (key : ModelKey) (s : stream C) (st : sstate) :
    option goerr * sstate :=
  let '(err, st) := runStream rp i key s (signals (freshAttempt st) [SigCall i key]) in
  let err := match err with
             | Some e => if streamDone st &&
                              match callbackErr st with
                              | None => true
                              | Some ce => negb (errors_Is e ce)
                              end then None else err
             | None => None
             end in
  let st := if streamDone st then st
            else with_attempts st (st_attempts st ++
                   [if opt_b (callbackErr st) then makeUnknownAttempt key (latency i)
                    else makeAttempt key err (latency i)]) in
  (err, st).

(** An attempt with its destination check and its bracket. *)
Definition streamContact (rp : RoutePlan) (i : nat) (key : ModelKey) (s : stream C) (st : sstate) :
    contacted * sstate :=
  match bindDestination rp i key with
  | Some e => (Denied e, st)
  | None =>
      match acquireFor rp i key with
      | AcqErr e => (Denied e, st)
      | AcqNoop => let '(err, st) := streamAttempt rp i key s st in (Called err, st)
      | AcqPermit =>
          let '(err, st) := streamAttempt rp i key s (signals st [SigAcquire key]) in
          (Called err, signals st [SigRelease key])
      end
  end.

(** [open i target] is the stream the provider of the [i]-th candidate opens. *)
Context (open : nat -> RoutePlan -> stream C).

Fixpoint streamFallbacks (rp : RoutePlan) (i : nat) (fbs : list RoutePlan) (err : option goerr)
    (st : sstate) : option goerr * sstate :=
  match fbs with
  | [] => (err, st)
  | fb :: fbs =>
      let key := plan_key fb in
      match streamContact rp i key (open i fb) st with
      | (Denied e, st) => (Some (AdmissionError i e), st)
      | (Called err, st) =>
          match err with
          | None => (None, with_fallbacksUsed st (Z.of_nat i))
          | Some e =>
              if IsInfrastructureError err then
                let st := signals st (recordFailure rp key e) in
                if delivered st then (err, st) else streamFallbacks rp (S i) fbs err st
              else (err, st)
          end
      end
  end.

Definition initial_sstate : sstate := mkS [] false false None [] 0 None [].

(** The error returned, and the final variables with the whole trace. *)
Definition ExecuteStream (rp : RoutePlan) : option goerr * sstate :=
  match Decision (Budget rp) with
  | BudgetTruncate => (Some ErrBudgetAdaptationRequired, initial_sstate)
  | _ =>
      match streamContact rp 0 (plan_key rp) (open 0%nat rp) initial_sstate with
      | (Denied e, st) => (Some e, st)
      | (Called err, st) =>
          let '(err, st) :=
            match err with
            | Some e =>
                if IsInfrastructureError err then
                  let st := signals st (recordFailure rp (plan_key rp) e) in
                  if delivered st then (err, st) else streamFallbacks rp 1 (Fallbacks rp) err st
                else (err, st)
            | None => (err, st)
            end in
          let st :=
            match st_outcome st with
            | None => signals st (handleResult rp err (st_fallbacksUsed st) (st_attempts st)).2
            | Some outcome =>
                match err with
                | None => signals st (recordResult rp None (st_attempts st) outcome)
                | Some _ => st
                end
            end in
          (unwrapAdmissionError err, st)
      end
  end.
End Streaming.

(** A chunk of a chat stream, and of a generate stream. *)
Record ChatResponse := mkChatResponse {
  c_Content : string;
  c_Thinking : string;
  c_ToolCalls : list ToolCall;
  c_Done : bool;
  c_Partial : bool;
  c_RouteOutcome : option RouteOutcome;
}.

Record GenerateResponse := mkGenerateResponse {
  g_Response : string;
  g_Done : bool;
  g_Partial : bool;
  g_RouteOutcome : option RouteOutcome;
}.

Definition hasVisibleContent (content thinking : string) (toolCalls : list ToolCall) : bool :=
  negb (string_eqb content "") || negb (string_eqb thinking "") || (0 <? len toolCalls).

#[export] Instance ChatResponse_chunk : StreamChunk ChatResponse := {
  visible c := hasVisibleContent (c_Content c) (c_Thinking c) (c_ToolCalls c);
  chunk_Done := c_Done;
  chunk_Partial := c_Partial;
  with_outcome o c := mkChatResponse (c_Content c) (c_Thinking c) (c_ToolCalls c) (c_Done c)
                        (c_Partial c) (Some o);
}.

#[export] Instance GenerateResponse_chunk : StreamChunk GenerateResponse := {
  visible c := negb (string_eqb (g_Response c) "");
  chunk_Done := g_Done;
  chunk_Partial := g_Partial;
  with_outcome o c := mkGenerateResponse (g_Response c) (g_Done c) (g_Partial c) (Some o);
}.

Definition ExecuteChatStream (chatStream : nat -> ChatRequest -> stream ChatResponse)
    (fn : list ChatResponse -> ChatResponse -> option goerr) (latencyDone : nat -> Z)
    (rp : RoutePlan) : option goerr * sstate (C := ChatResponse) :=
  ExecuteStream fn latencyDone (fun i target => chatStream i (buildChatRequest target true)) rp.

Definition ExecuteGenerateStream (generateStream : nat -> GenerateRequest -> stream GenerateResponse)
    (fn : list GenerateResponse -> GenerateResponse -> option goerr) (latencyDone : nat -> Z)
    (rp : RoutePlan) : option goerr * sstate (C := GenerateResponse) :=
  ExecuteStream fn latencyDone
    (fun i target => generateStream i (buildGenerateRequest target true)) rp.
End Execute.

Arguments StreamEnd {C}.
Arguments StreamChunkTo {C}.
Arguments PlainEmbedder {R}.
Arguments AdmittedEmbedder_Follower {R}.
Arguments AdmittedEmbedder_Leader {R}.
#[global] Arguments makeAttempt : simpl never.
#[global] Arguments buildOutcome : simpl never.
#[global] Arguments recordFailure : simpl never.
#[global] Arguments recordResult : simpl never.

(** ** What a trace says *)

Definition calls (l : list signal) : list (nat * ModelKey) :=
  omap (fun s => match s with SigCall i k => Some (i, k) | _ => None end) l.

Definition failures (l : list signal) : list (ModelKey * goerr) :=
  omap (fun s => match s with SigFailure k e => Some (k, e) | _ => None end) l.

Definition successes (l : list signal) : list ModelKey :=
  omap (fun s => match s with SigSuccess k => Some k | _ => None end) l.

(** The candidates that showed visible content to the caller. *)
Definition shown (l : list signal) : list nat :=
  omap (fun s => match s with SigDeliver i true _ => Some i | _ => None end) l.

(** The permit held along a trace: an acquire needs none held, a release the one
    held, and a call of a candidate with [needs] the permit of its own key. *)
Fixpoint permit_run (needs : nat -> ModelKey -> bool) (held : option ModelKey) (l : list signal) :
    option (option ModelKey) :=
  match l with
  | [] => Some held
  | SigAcquire k :: l =>
      match held with None => permit_run needs (Some k) l | Some _ => None end
  | SigRelease k :: l =>
      if decide (held = Some k) then permit_run needs None l else None
  | SigCall i k :: l =>
      if negb (needs i k) || bool_decide (held = Some k) then permit_run needs held l else None
  | _ :: l => permit_run needs held l
  end.

Definition bracketed (needs : nat -> ModelKey -> bool) (l : list signal) : Prop :=
  permit_run needs None l = Some None.

Lemma permit_run_app needs h h' l l' :
  permit_run needs h l = Some h' -> permit_run needs h (l ++ l') = permit_run needs h' l'.
Proof.
  revert h. induction l as [|[] l IH]; simpl; intros h Hl; try (by simplify_eq); auto.
  - destruct h; [done|]. auto.
  - case_decide; [|done]. auto.
  - destruct (_ || _); [|done]. auto.
Qed.

Lemma bracketed_app needs l l' : bracketed needs l -> bracketed needs l' -> bracketed needs (l ++ l').
Proof. unfold bracketed. intros Hl Hl'. by rewrite (permit_run_app _ _ _ _ _ Hl). Qed.

(** Signals other than the permits and the calls. *)
Definition quiet (l : list signal) : Prop :=
  Forall (fun s => match s with SigAcquire _ | SigRelease _ | SigCall _ _ => False | _ => True end) l.

Lemma quiet_run needs h l : quiet l -> permit_run needs h l = Some h.
Proof. induction 1 as [|[] l Hs _ IH]; simpl; done. Qed.

Lemma quiet_bracketed needs l : quiet l -> bracketed needs l.
Proof. apply quiet_run. Qed.

Lemma calls_app l l' : calls (l ++ l') = calls l ++ calls l'.
Proof. apply omap_app. Qed.
Lemma failures_app l l' : failures (l ++ l') = failures l ++ failures l'.
Proof. apply omap_app. Qed.
Lemma successes_app l l' : successes (l ++ l') = successes l ++ successes l'.
Proof. apply omap_app. Qed.
Lemma shown_app l l' : shown (l ++ l') = shown l ++ shown l'.
Proof. apply omap_app. Qed.

(** The recorder's and the feedback's signals touch no permit, call nothing and
    show nothing. *)
Ltac recorder_cases :=
  unfold recordFailure, recordResult, recordSuccess, recordWarmthUse, recordSlotUse,
    recordOutcomeFeedback;
  repeat (match goal with |- context [recorder ?rp] => destruct (recorder rp) as [[]|] end
    || match goal with |- context [if ?b then _ else _] => destruct b end).

Lemma recordFailure_spec rp k e :
  quiet (recordFailure rp k e) /\ calls (recordFailure rp k e) = [] /\
  successes (recordFailure rp k e) = [] /\ shown (recordFailure rp k e) = [] /\
  failures (recordFailure rp k e) = (if recorder rp then [(k, e)] else []).
Proof. recorder_cases; split_and!; simpl; try done; repeat constructor. Qed.

Lemma recordResult_spec rp err a o :
  quiet (recordResult rp err a o) /\ calls (recordResult rp err a o) = [] /\
  failures (recordResult rp err a o) = [] /\ shown (recordResult rp err a o) = [] /\
  successes (recordResult rp err a o) =
    (if recorder rp then match err with None => [match last a with Some a => at_Key a
                                                 | None => plan_key rp end]
                         | Some _ => [] end else []).
Proof.
  unfold recordResult. destruct err as [e|]; [destruct (opt_b _); [|destruct (_ || _)]|];
    recorder_cases; split_and!; simpl; try done; repeat constructor.
Qed.

Section Properties.
Context (bind : nat -> ModelKey -> option goerr) (acquire : nat -> ModelKey -> acquired).
Context (latency : nat -> Z).

(** ** The non-streaming walk *)

Section NonStreamingProperties.
Context {R : Type}.

(** A candidate whose call needs a permit of its own. *)
Definition needs_permit (rp : RoutePlan) (i : nat) (k : ModelKey) : bool :=
  match acquireFor acquire rp i k with AcqPermit => true | _ => false end.

Lemma bracketCall_spec (call : nat -> RoutePlan -> option R * option goerr) rp i target prev :
  bracketed (needs_permit rp) (bracketCall acquire call rp i target prev).1.
Proof.
  unfold bracketCall, bracketed, needs_permit. destruct (acquireFor acquire rp i _) eqn:Ha;
    try destruct (call i target); simpl; rewrite ?Ha; simpl; [|done..].
  rewrite bool_decide_true by done. simpl. by rewrite decide_True.
Qed.

Lemma bracket_spec (call : nat -> RoutePlan -> option R * option goerr) rp i target prev :
  bracketed (needs_permit rp) (bracket bind acquire call rp i target prev).1.
Proof. unfold bracket. destruct (bindDestination _ _ _ _); [done|]. apply bracketCall_spec. Qed.

Section Contact.
Context (contact : RoutePlan -> nat -> RoutePlan -> option R ->
  list signal * (option R * contacted)).
Context (needs : nat -> ModelKey -> bool) (rp : RoutePlan).
Hypothesis contact_bracketed : forall i target prev, bracketed needs (contact rp i target prev).1.

Lemma walkFallbacks_bracketed i fbs a resp err :
  bracketed needs (walkFallbacks latency contact rp i fbs a resp err).1.
Proof.
  revert i a resp err. induction fbs as [|fb fbs IH]; intros i a resp err; [done|]. simpl.
  pose proof (contact_bracketed i fb resp) as Hc.
  destruct (contact rp i fb resp) as [s [resp' [e|[e|]]]]; simpl in *; [done| |done].
  destruct (IsInfrastructureError (Some e)); [|done].
  specialize (IH (S i) (a ++ [makeAttempt (plan_key fb) (Some e) (latency i)]) resp' (Some e)).
  destruct (walkFallbacks _ _ _ _ _ _ _ _) as [s' r]. simpl in *.
  apply bracketed_app; [done|]. apply bracketed_app; [|done].
  apply quiet_bracketed, recordFailure_spec.
Qed.

Lemma Execute_bracketed : bracketed needs (Execute latency contact rp).1.1.
Proof.
  unfold Execute. pose proof (contact_bracketed 0%nat rp None) as Hc.
  destruct (Decision (Budget rp)); try done;
    (destruct (contact rp 0 rp None) as [s [resp [e|[e|]]]]; simpl in *; [done| |]);
    [destruct (IsInfrastructureError (Some e))| |destruct (IsInfrastructureError (Some e))|];
    try (apply bracketed_app; [done|]; apply quiet_bracketed, recordResult_spec).
  all: pose proof (walkFallbacks_bracketed 1 (Fallbacks rp)
         [makeAttempt (plan_key rp) (Some e) (latency 0)] resp (Some e)) as Hw;
    destruct (walkFallbacks _ _ _ _ _ _ _ _) as [s' [[[resp' err'] n] a']]; simpl in *;
    apply bracketed_app; [done|]; (apply bracketed_app; [|apply quiet_bracketed, recordResult_spec]);
    (apply bracketed_app; [|done]); apply quiet_bracketed, recordFailure_spec.
Qed.
End Contact.

Context (ctxErr : nat -> bool).

Lemma embedContact_bracketed (provider : nat -> embedder R) rp i target prev :
  bracketed (fun _ _ => false) (embedContact bind acquire ctxErr provider rp i target prev).1.
Proof.
  unfold embedContact. destruct (bindDestination _ _ _ _); [done|].
  assert (Hd : bracketed (fun _ _ => false)
    (deadCallerCheck acquire ctxErr rp i (plan_key target)).1).
  { unfold deadCallerCheck. destruct (ctxErr i); [|done].
    destruct (acquireFor _ _ _ _); try done. unfold bracketed. simpl. by rewrite decide_True. }
  assert (Ha : bracketed (fun _ _ => false) (admitFuncFor acquire rp i (plan_key target)).1).
  { unfold admitFuncFor. destruct (acquireFor _ _ _ _); try done.
    unfold bracketed. simpl. by rewrite decide_True. }
  destruct (provider i) as [embed|r|k].
  - unfold bracketCall. destruct (acquireFor _ _ _ _); try destruct (embed _); try done.
    unfold bracketed. simpl. by rewrite decide_True.
  - destruct (deadCallerCheck _ _ _ _ _) as [s [e|]]; simpl in Hd; [done|].
    destruct (r _) as [resp [e|]]; simpl;
      [destruct (errors_As _ e) as [[]|]; simpl|]; by apply bracketed_app.
  - destruct (deadCallerCheck _ _ _ _ _) as [s [e|]]; simpl in Hd; [done|].
    destruct (admitFuncFor _ _ _ _) as [s' a]. simpl in Ha.
    destruct (k _ a) as [resp [e|]]; simpl;
      [destruct (errors_As _ e) as [[]|]; simpl|]; (apply bracketed_app; [exact Hd|exact Ha]).
Qed.
End NonStreamingProperties.

(** *** The walk and its reference *)

(** Why the [i]-th candidate may not be called, if so. *)
Definition denied_by (rp : RoutePlan) (i : nat) (target : RoutePlan) : option goerr :=
  match bindDestination bind rp i (plan_key target) with
  | Some e => Some e
  | None => match acquireFor acquire rp i (plan_key target) with
            | AcqErr e => Some e
            | _ => None
            end
  end.

Lemma makeAttempt_key k err d : at_Key (makeAttempt k err d) = k.
Proof.
  unfold makeAttempt. destruct (match err with Some _ => _ | None => _ end); [done|].
  by destruct (classifyError err).
Qed.

Lemma makeAttempt_succeeded k err d :
  at_Status (makeAttempt k err d) = AttemptStatusSucceeded <-> err = None.
Proof.
  unfold makeAttempt. destruct err as [e|]; [|done].
  destruct (errors_Is e ErrContentDenied); [done|]. unfold classifyError.
  repeat case_match; simpl; naive_solver.
Qed.

Section Reference.
Context {R : Type}.

(** What meeting a candidate comes to: the signals it sends, the response it puts
    in place of the one so far, if it does, and its end. *)
Record meeting := mkMeeting { sent : list signal; answer : option (option R); ending : contacted }.

Context (meet : nat -> RoutePlan -> meeting).

(** The candidates called, in order, and the one whose denial ended the walk, if
    one did: a candidate is tried when every one before it failed with an
    infrastructure error. *)
Fixpoint reference (i : nat) (cands : list RoutePlan) :
    list (nat * RoutePlan) * option (nat * RoutePlan * goerr) :=
  match cands with
  | [] => ([], None)
  | c :: cands =>
      match ending (meet i c) with
      | Denied e => ([], Some (i, c, e))
      | Called err =>
          let r := if IsInfrastructureError err then reference (S i) cands else ([], None) in
          ((i, c) :: r.1, r.2)
      end
  end.

Definition error_of (ic : nat * RoutePlan) : option goerr :=
  match ending (meet ic.1 ic.2) with Called err => err | Denied e => Some e end.

Definition attempt_of (ic : nat * RoutePlan) : RouteAttempt :=
  makeAttempt (plan_key ic.2) (error_of ic) (latency ic.1).

(** The response in hand after a candidate. *)
Definition response_after (resp : option R) (ic : nat * RoutePlan) : option R :=
  default resp (answer (meet ic.1 ic.2)).

(** The breaker hears of every call that failed with an infrastructure error. *)
Definition failure_report (rp : RoutePlan) (ic : nat * RoutePlan) : list signal :=
  match error_of ic with
  | Some e => if opt_b (recorder rp) && IsInfrastructureError (Some e)
              then [SigFailure (plan_key ic.2) e] else []
  | None => []
  end.

Definition walk_trace (rp : RoutePlan) (tried : list (nat * RoutePlan))
    (denied : option (nat * RoutePlan * goerr)) : list signal :=
  concat (map (fun ic => sent (meet ic.1 ic.2) ++ failure_report rp ic) tried) ++
  match denied with Some (i, c, _) => sent (meet i c) | None => [] end.

(** The walk ended with an answer of its last candidate. *)
Definition served (tried : list (nat * RoutePlan)) (denied : option (nat * RoutePlan * goerr)) :
    option (nat * RoutePlan) :=
  match denied, last tried with
  | None, Some ic => if opt_b (error_of ic) then None else Some ic
  | _, _ => None
  end.

(** The actual model is the last one called, when its call returned no error. *)
Definition served_outcome (rp : RoutePlan) (tried : list (nat * RoutePlan))
    (denied : option (nat * RoutePlan * goerr)) : RouteOutcome :=
  mkOutcome (plan_key rp)
    (match last tried with
     | Some ic => if opt_b (error_of ic) then plan_key rp else plan_key ic.2
     | None => plan_key rp
     end)
    (UseCase (rp_Request rp))
    (match served tried denied with Some ic => Z.of_nat ic.1 | None => 0 end)
    (wasSticky rp) (Score rp) (map attempt_of tried).

(** The caller gave up: its context ended, and not inside an admission. *)
Definition abandoned (e : goerr) : bool :=
  negb (opt_b (errors_As is_admissionError e)) &&
  (errors_Is e Canceled || errors_Is e DeadlineExceeded).

(** What the recorder and the feedback seam hear at the end of the walk. *)
Definition closing (rp : RoutePlan) (tried : list (nat * RoutePlan))
    (denied : option (nat * RoutePlan * goerr)) : list signal :=
  match served tried denied, denied, last tried with
  | Some ic, _, _ =>
      let k := plan_key ic.2 in
      match recorder rp with
      | Some slots => [SigSuccess k; SigWarmth k] ++ (if slots then [SigSlotUse k] else [])
      | None => []
      end
  | None, None, Some ic =>
      match error_of ic with
      | Some e => if opt_b (recorder rp) && abandoned e then [SigWarmth (plan_key ic.2)] else []
      | None => []
      end
  | _, _, _ => []
  end ++
  (if feedback rp && negb (string_eqb (UseCase (rp_Request rp)) "")
   then [SigFeedback (UseCase (rp_Request rp)) (served_outcome rp tried denied)] else []).

(** A method does what the reference walk says. *)
Definition walks (rp : RoutePlan) (result : list signal * option (response (R := R)) * option goerr) : Prop :=
  let '(tried, denied) := reference 0 (rp :: Fallbacks rp) in
  let '(tr, resp, err) := result in
  match last tried with
  | None => tr = walk_trace rp tried denied /\ resp = None /\ err = option_map snd denied
  | Some ic =>
      tr = walk_trace rp tried denied ++ closing rp tried denied /\
      resp = option_map (fun b => mkResponse b (Some (served_outcome rp tried denied)))
               (fold_left response_after (tried ++ option_list (option_map fst denied)) None) /\
      err = match denied with Some (_, _, e) => Some e | None => unwrapAdmissionError (error_of ic) end
  end.

(** *** The loop *)

(** The loop stands over the meetings. *)
Definition meets (contact : RoutePlan -> nat -> RoutePlan -> option R -> list signal * (option R * contacted))
    (rp : RoutePlan) : Prop :=
  forall i c prev, contact rp i c prev =
    (sent (meet i c), (default prev (answer (meet i c)), ending (meet i c))).

Lemma recordFailure_report rp ic e :
  error_of ic = Some e -> IsInfrastructureError (Some e) = true ->
  recordFailure rp (plan_key ic.2) e = failure_report rp ic.
Proof. intros He Hi. unfold recordFailure, failure_report. rewrite He, Hi. by destruct (recorder rp). Qed.

Lemma failure_report_none rp ic :
  IsInfrastructureError (error_of ic) = false -> failure_report rp ic = [].
Proof. unfold failure_report. destruct (error_of ic); [|done]. intros ->. by rewrite andb_false_r. Qed.

Definition walk_result (tried : list (nat * RoutePlan)) (denied : option (nat * RoutePlan * goerr))
    (a : list RouteAttempt) (resp : option R) (err : option goerr) :
    option R * option goerr * Z * list RouteAttempt :=
  (fold_left response_after (tried ++ option_list (option_map fst denied)) resp,
   match denied, last tried with
   | Some (i, _, e), _ => Some (AdmissionError i e)
   | None, Some ic => error_of ic
   | None, None => err
   end,
   match served tried denied with Some ic => Z.of_nat ic.1 | None => 0 end,
   a ++ map attempt_of tried).

Lemma walk_result_cons ic tried denied a resp err e :
  error_of ic = Some e ->
  walk_result (ic :: tried) denied a resp err =
  walk_result tried denied (a ++ [attempt_of ic]) (response_after resp ic) (Some e).
Proof.
  intros He. unfold walk_result, served. rewrite <-app_assoc. cbn [app fold_left map]. rewrite last_cons.
  destruct denied as [[[]]|]; [done|]. destruct (last tried); [done|]. by rewrite He.
Qed.

Lemma walk_reference contact rp i fbs a resp err :
  meets contact rp ->
  let '(tried, denied) := reference i fbs in
  walkFallbacks latency contact rp i fbs a resp err =
  (walk_trace rp tried denied, walk_result tried denied a resp err).
Proof.
  intros Hc. revert i a resp err. induction fbs as [|fb fbs IH]; intros i a resp err; cbn [reference].
  { simpl. unfold walk_result. simpl. by rewrite app_nil_r. }
  cbn [walkFallbacks]. rewrite Hc. destruct (ending (meet i fb)) as [e|e0] eqn:He.
  { unfold walk_result. cbn. by rewrite app_nil_r. }
  assert (error_of (i, fb) = e0) as Her by (unfold error_of; simpl; by rewrite He).
  assert (makeAttempt (plan_key fb) e0 (latency i) = attempt_of (i, fb)) as ->
    by (unfold attempt_of; by rewrite Her).
  change (default resp (answer (meet i fb))) with (response_after resp (i, fb)).
  destruct (IsInfrastructureError e0) eqn:Hi.
  - destruct e0 as [e|]; [|done]. specialize (IH (S i) (a ++ [attempt_of (i, fb)]) (response_after resp (i, fb)) (Some e)).
    destruct (reference (S i) fbs) as [tried denied]. rewrite IH. cbn [fst snd].
    pose proof (recordFailure_report rp (i, fb) e Her Hi) as Hf. cbn [snd] in Hf.
    rewrite Hf, <-(walk_result_cons _ _ _ _ _ err e Her).
    f_equal. unfold walk_trace. cbn [map concat]. by rewrite <-!app_assoc.
  - cbn [fst snd]. assert (walk_trace rp [(i, fb)] None = sent (meet i fb)) as ->.
    { unfold walk_trace. cbn. rewrite failure_report_none by (by rewrite Her). by rewrite !app_nil_r. }
    unfold walk_result, served. cbn. rewrite Her. destruct e0; done.
Qed.

(** The end of an Execute method, once some provider was called. *)
Lemma buildOutcome_served rp tried denied :
  tried <> [] ->
  buildOutcome rp (match served tried denied with Some ic => Z.of_nat ic.1 | None => 0 end)
    (map attempt_of tried) = served_outcome rp tried denied.
Proof.
  intros Hne. unfold buildOutcome, served_outcome.
  destruct tried as [|ic tried _] using rev_ind; [done|].
  rewrite map_app, !last_snoc. simpl. rewrite last_snoc. f_equal.
  assert (at_Key (attempt_of ic) = plan_key ic.2) as -> by apply makeAttempt_key.
  assert (at_Status (attempt_of ic) = AttemptStatusSucceeded <-> error_of ic = None) as Hs
    by apply makeAttempt_succeeded.
  destruct (error_of ic) as [e|] eqn:Hc; simpl.
  - rewrite decide_False; [done|]. by rewrite Hs.
  - by rewrite decide_True by by apply Hs.
Qed.

Lemma recordResult_closing rp tried denied ic i :
  last tried = Some ic ->
  recordResult rp
    (match denied with Some (_, _, e) => Some (AdmissionError i e) | None => error_of ic end)
    (map attempt_of tried) (served_outcome rp tried denied) = closing rp tried denied.
Proof.
  intros Hl. unfold recordResult, closing.
  assert (last (map attempt_of tried) = Some (attempt_of ic)) as ->
    by (destruct tried as [|x l _] using rev_ind; [done|]; rewrite last_snoc in Hl; simplify_eq;
        rewrite map_app; apply last_snoc).
  assert (at_Key (attempt_of ic) = plan_key ic.2) as -> by apply makeAttempt_key.
  f_equal. unfold served. rewrite Hl.
  unfold recordSuccess, recordWarmthUse, recordSlotUse, abandoned.
  destruct denied as [[[j c] e]|]; [done|].
  destruct (error_of ic) as [e|]; simpl; [|by destruct (recorder rp) as [[]|]].
  destruct (opt_b (errors_As is_admissionError e)); simpl; [by rewrite andb_false_r|].
  destruct (_ || _); [|by rewrite andb_false_r]. by destruct (recorder rp).
Qed.

(** The selected model is the first candidate of the same loop. *)
Lemma Execute_eq contact rp :
  meets contact rp -> Decision (Budget rp) <> BudgetTruncate ->
  Execute latency contact rp =
  match ending (meet 0 rp) with
  | Denied e => (sent (meet 0 rp), None, Some e)
  | Called _ =>
      let '(s, (resp, err, n, attempts)) := walkFallbacks latency contact rp 0 (rp :: Fallbacks rp) [] None None in
      let h := handleResult rp err n attempts in
      (s ++ h.2, option_map (fun b => mkResponse b (Some h.1)) resp, unwrapAdmissionError err)
  end.
Proof.
  intros Hc Hb.
  cbn [walkFallbacks]. rewrite Hc.
  transitivity (match (sent (meet 0 rp), (default None (answer (meet 0 rp)), ending (meet 0 rp))) with
    | (s, (_, Denied e)) => (s, None, Some e)
    | (s, (resp, Called err)) =>
        let attempts := [makeAttempt (plan_key rp) err (latency 0%nat)] in
        let '(s', (resp, err, n, attempts)) :=
          match err with
          | Some e =>
              if IsInfrastructureError err then
                let '(s', r) := walkFallbacks latency contact rp 1 (Fallbacks rp) attempts resp err in
                (recordFailure rp (plan_key rp) e ++ s', r)
              else ([], (resp, err, 0, attempts))
          | None => ([], (resp, err, 0, attempts))
          end in
        let h := handleResult rp err n attempts in
        (s ++ s' ++ h.2, option_map (fun b => mkResponse b (Some h.1)) resp, unwrapAdmissionError err)
    end).
  { unfold Execute. destruct (Decision (Budget rp)); [|done|]; rewrite Hc;
      (destruct (ending (meet 0 rp)) as [|[e|]]; [reflexivity| |reflexivity]);
      (destruct (IsInfrastructureError (Some e)); [|reflexivity]);
      by destruct (walkFallbacks _ _ _ _ _ _ _ _) as [s' [[[r er] n] a]]. }
  destruct (ending (meet 0 rp)) as [|[e|]]; [done| |done]. cbn [fst snd].
  destruct (IsInfrastructureError (Some e)); [|done]. cbn [app].
  destruct (walkFallbacks _ _ _ _ _ _ _ _) as [s' [[[r er] n] a]]. by rewrite <-!app_assoc.
Qed.

Lemma Execute_walks contact rp :
  meets contact rp -> Decision (Budget rp) <> BudgetTruncate -> walks rp (Execute latency contact rp).
Proof.
  intros Hc Hb.
  rewrite Execute_eq by done.
  pose proof (walk_reference contact rp 0 (rp :: Fallbacks rp) [] None None Hc) as Hw.
  unfold walks. destruct (reference 0 (rp :: Fallbacks rp)) as [tried denied] eqn:Hr.
  cbn [reference] in Hr. destruct (ending (meet 0 rp)) as [e|e0] eqn:He.
  { simplify_eq. cbn. done. }
  rewrite Hw. clear Hw. unfold walk_result. cbn [app].
  assert (tried <> []) as Hne by (by simplify_eq).
  destruct (last tried) as [ic|] eqn:Hl; [|by apply last_None in Hl].
  unfold handleResult. cbn [fst snd]. rewrite buildOutcome_served by done.
  split_and!; [|done|by destruct denied as [[[]]|]].
  f_equal. destruct denied as [[[j c] e]|].
  - apply (recordResult_closing rp tried (Some (j, c, e)) ic j Hl).
  - apply (recordResult_closing rp tried None ic 0%nat Hl).
Qed.
End Reference.

(** *** What meeting a candidate comes to *)

(** A chat or generate call, inside its permit. *)
Definition bracket_meet {R} (call : nat -> RoutePlan -> option R * option goerr) (rp : RoutePlan)
    (i : nat) (c : RoutePlan) : meeting :=
  let k := plan_key c in
  match denied_by rp i c with
  | Some e => mkMeeting [] None (Denied e)
  | None => mkMeeting (if needs_permit rp i k then [SigAcquire k; SigCall i k; SigRelease k] else [SigCall i k])
              (Some (call i c).1) (Called (call i c).2)
  end.

(** The permit an embedding takes and gives back before its flight. *)
Definition permit_signals (rp : RoutePlan) (i : nat) (k : ModelKey) : list signal :=
  if needs_permit rp i k then [SigAcquire k; SigRelease k] else [].

(** An admission inside a flight comes back wrapped in the flight's error. *)
Definition flight_meet {R} (l : list signal) (r : option R * option goerr) : meeting :=
  mkMeeting l (Some r.1)
    (match r.2 with
     | Some e => match errors_As is_admissionError e with
                 | Some (AdmissionError _ inner) => Denied inner
                 | _ => Called (Some e)
                 end
     | None => Called None
     end).

(** An embedding: a provider without a flight is called inside its permit; with
    one, only a caller whose context has ended is admitted beforehand, and only
    the leader of a flight asks for a permit in it. *)
Definition embed_meet (ctxErr : nat -> bool) {R} (provider : nat -> embedder R) (rp : RoutePlan)
    (i : nat) (c : RoutePlan) : meeting :=
  let k := plan_key c in
  let req := buildEmbedRequest c in
  let first := if ctxErr i then permit_signals rp i k else [] in
  match provider i with
  | PlainEmbedder embed => bracket_meet (fun _ _ => embed req) rp i c
  | AdmittedEmbedder_Follower r =>
      match (if ctxErr i then denied_by rp i c else bindDestination bind rp i k) with
      | Some e => mkMeeting [] None (Denied e)
      | None => flight_meet (first ++ [SigCall i k]) (r req)
      end
  | AdmittedEmbedder_Leader go =>
      match (if ctxErr i then denied_by rp i c else bindDestination bind rp i k) with
      | Some e => mkMeeting [] None (Denied e)
      | None => flight_meet (first ++ [SigCall i k] ++ permit_signals rp i k)
                  (go req (match acquireFor acquire rp i k with
                           | AcqErr e => Some (AdmissionError i e)
                           | _ => None
                           end))
      end
  end.

Lemma bracket_meets {R} (call : nat -> RoutePlan -> option R * option goerr) rp :
  meets (bracket_meet call rp) (bracket bind acquire call) rp.
Proof.
  intros i c prev. unfold bracket_meet, bracket, bracketCall, denied_by, needs_permit.
  destruct (bindDestination _ _ _ _); [done|]. destruct (acquireFor _ _ _ _); [| |done]; by destruct (call i c).
Qed.

Lemma embed_meets ctxErr {R} (provider : nat -> embedder R) rp :
  meets (embed_meet ctxErr provider rp) (embedContact bind acquire ctxErr provider) rp.
Proof.
  intros i c prev. unfold embed_meet, embedContact.
  destruct (provider i) as [embed|r|go].
  - pose proof (bracket_meets (fun _ _ => embed (buildEmbedRequest c)) rp i c prev) as H. exact H.
  - unfold denied_by, deadCallerCheck, flight_meet, permit_signals, needs_permit.
    destruct (bindDestination _ _ _ _); [by destruct (ctxErr i)|].
    destruct (ctxErr i); [destruct (acquireFor _ _ _ _)|]; destruct (r (buildEmbedRequest c)) as [resp [e'|]]; simpl; try done;
      by destruct (errors_As is_admissionError e') as [[]|].
  - unfold denied_by, deadCallerCheck, admitFuncFor, flight_meet, permit_signals, needs_permit.
    destruct (bindDestination _ _ _ _); [by destruct (ctxErr i)|].
    destruct (ctxErr i), (acquireFor _ _ _ _); simpl; try done;
      (match goal with |- context [go ?x ?y] => destruct (go x y) as [resp [e'|]] end); simpl; try done;
      by destruct (errors_As is_admissionError e') as [[]|].
Qed.

(** C4: the non-streaming Execute methods do what the reference walk says.  The
    whole trace is that of the candidates the reference tries, in order, each
    with its permit and followed by a breaker failure exactly when its call
    failed with an infrastructure error, and then the closing reports: success,
    warmth and slot use of the model that served, warmth alone when the caller
    gave up, nothing when a denial ended the walk, and the feedback outcome when
    feedback is on and the request names its use case; a walk denied at once
    reports nothing.  The caller gets the last call's error or the denial itself,
    and the last response with that same outcome, one attempt a call. *)
Theorem execute_walk ctxErr rp :
  Decision (Budget rp) <> BudgetTruncate ->
  (forall R (chat : nat -> ChatRequest -> option R * option goerr),
     walks (bracket_meet (fun i c => chat i (buildChatRequest c false)) rp) rp
       (ExecuteChat bind acquire latency chat rp)) /\
  (forall R (generate : nat -> GenerateRequest -> option R * option goerr),
     walks (bracket_meet (fun i c => generate i (buildGenerateRequest c false)) rp) rp
       (ExecuteGenerate bind acquire latency generate rp)) /\
  (forall R (provider : nat -> embedder R),
     walks (embed_meet ctxErr provider rp) rp (ExecuteEmbed bind acquire latency ctxErr provider rp)).
Proof.
  intros Hb. split_and!; intros.
  - by apply Execute_walks; [apply bracket_meets|].
  - by apply Execute_walks; [apply bracket_meets|].
  - by apply Execute_walks; [apply embed_meets|].
Qed.



(** *** Streams *)

Section StreamProperties.
Context {C : Type} `{StreamChunk C} (fn : list C -> C -> option goerr) (latencyDone : nat -> Z).

Definition delivers (i : nat) (l : list signal) : Prop :=
  Forall (fun s => match s with SigDeliver j _ _ => j = i | _ => False end) l.

Lemma delivers_spec i l :
  delivers i l -> quiet l /\ calls l = [] /\ successes l = [] /\ (forall j, j ∈ shown l -> j = i).
Proof.
  induction 1 as [|s l Hs _ (Hq & Hc & Hsu & Hsh)].
  { split_and!; try done; [by constructor|]. by intros j ?%elem_of_nil. }
  destruct s; try done. subst. split_and!; simpl; try done; [by constructor|].
  intros j. unfold shown. simpl. destruct visible0; [|apply Hsh].
  intros [->|Hj]%elem_of_cons; [done|by apply Hsh].
Qed.

(** What the callbacks of the [i]-th attempt leave behind: deliveries of that
    attempt, and its record and outcome once a Done chunk was accepted. *)
Record ran (rp : RoutePlan) (i : nat) (key : ModelKey) (st st' : sstate (C := C)) : Prop := mkRan {
  ran_trace : exists ds, st_trace st' = st_trace st ++ ds /\ delivers i ds /\
    (delivered st' = false -> shown ds = [] /\ delivered st = false);
  ran_attempts :
    streamDone st' = streamDone st /\ st_attempts st' = st_attempts st /\
      st_outcome st' = st_outcome st \/
    streamDone st = false /\ streamDone st' = true /\
      st_attempts st' = st_attempts st ++ [makeAttempt key None (latencyDone i)] /\
      st_outcome st' = Some (buildOutcome rp (Z.of_nat i) (st_attempts st'));
}.

Lemma ran_refl rp i key st : ran rp i key st st.
Proof.
  constructor; [|by left]. exists []. rewrite app_nil_r. split_and!; [done|constructor|done].
Qed.

Lemma ran_trans rp i key st1 st2 st3 :
  ran rp i key st1 st2 -> ran rp i key st2 st3 -> ran rp i key st1 st3.
Proof.
  intros [(d1 & T1 & D1 & V1) A1] [(d2 & T2 & D2 & V2) A2]. constructor.
  - exists (d1 ++ d2). split_and!.
    + by rewrite T2, T1, <-app_assoc.
    + by apply Forall_app.
    + intros Hd. destruct (V2 Hd) as [S2 Hd2]. destruct (V1 Hd2) as [S1 ?].
      by rewrite shown_app, S1, S2.
  - destruct A1 as [(B1 & B2 & B3)|(B1 & B2 & B3 & B4)], A2 as [(E1 & E2 & E3)|(E1 & E2 & E3 & E4)].
    + left. split_and!; congruence.
    + right. split_and!; congruence.
    + right. split_and!; congruence.
    + congruence.
Qed.

Lemma wrappedFn_ran rp i key c st : ran rp i key st (wrappedFn fn latencyDone rp i key c st).2.
Proof.
  unfold wrappedFn.
  assert (forall b o, delivers i [SigDeliver i b o]) as Hd by (intros; repeat constructor).
  destruct (chunk_Done c && negb (chunk_Partial c) && negb (streamDone st)) eqn:Hdone.
  - destruct (fn _ _); constructor; simpl; try (by left);
      try (eexists; split_and!; [done|apply Hd|]; intros [? Hv]%orb_false_iff).
    + unfold shown. simpl. by rewrite Hv.
    + unfold shown. simpl. by rewrite Hv.
    + right. to_prop. done.
  - destruct (fn _ _); constructor; simpl; try (by left);
      eexists; (split_and!; [done|apply Hd|]); intros [? Hv]%orb_false_iff;
      unfold shown; simpl; by rewrite Hv.
Qed.

Lemma runStream_ran rp i key s st : ran rp i key st (runStream fn latencyDone rp i key s st).2.
Proof.
  revert st. induction s as [err|c k IH]; intros st; simpl; [apply ran_refl|].
  pose proof (wrappedFn_ran rp i key c st) as Hw.
  destruct (wrappedFn _ _ _ _ _ _ _) as [e st1]. simpl in Hw.
  eapply ran_trans; [exact Hw|apply IH].
Qed.

(** One attempt: its call and its deliveries, one record under its own key, and
    when it returns no error after an accepted Done chunk its outcome is the one
    the chunk carried. *)
Lemma streamAttempt_spec rp i key s st :
  let r := streamAttempt latency fn latencyDone rp i key s st in
  (exists ds, st_trace r.2 = st_trace st ++ SigCall i key :: ds /\ delivers i ds /\
     (delivered r.2 = false -> shown ds = [])) /\
  (exists a, st_attempts r.2 = st_attempts st ++ [a] /\ at_Key a = key).
Proof.
  unfold streamAttempt. set (st0 := signals (freshAttempt st) [SigCall i key]).
  pose proof (runStream_ran rp i key s st0) as [(ds & Ht & Hd & Hv) Ha].
  destruct (runStream _ _ _ _ _ _ _) as [err st1]. simpl in *. rewrite <-app_assoc in Ht.
  split.
  - exists ds. destruct (streamDone st1); simpl; (split_and!; [done|done|]); intros Hf; by apply Hv.
  - destruct Ha as [(-> & Ha & _)|(_ & -> & Ha & _)]; simpl.
    + rewrite Ha. eexists. split; [done|]. destruct (opt_b _); [done|apply makeAttempt_key].
    + rewrite Ha. eexists. split; [done|apply makeAttempt_key].
Qed.

(** An attempt with its bracket. *)
Lemma streamContact_spec rp i key s st :
  let r := streamContact bind acquire latency fn latencyDone rp i key s st in
  (exists e, r = (Denied e, st)) \/
  exists err sg a, r.1 = Called err /\ st_trace r.2 = st_trace st ++ sg /\
    calls sg = [(i, key)] /\ successes sg = [] /\ bracketed (needs_permit rp) sg /\
    (forall j, j ∈ shown sg -> j = i) /\ (delivered r.2 = false -> shown sg = []) /\
    st_attempts r.2 = st_attempts st ++ [a] /\ at_Key a = key.
Proof.
  unfold streamContact, bracketed, needs_permit. destruct (bindDestination _ _ _ _); [by left; eauto|].
  assert (forall ds h, delivers i ds ->
    permit_run (fun i k => match acquireFor acquire rp i k with AcqPermit => true | _ => false end)
      h ds = Some h) as Hq by (intros; by apply quiet_run, (delivers_spec i)).
  destruct (acquireFor acquire rp i key) eqn:Hacq; [| |by left; eauto]; right.
  - destruct (streamAttempt_spec rp i key s (signals st [SigAcquire key]))
      as [(ds & Ht & Hd & Hv) (a & Ha & Hk)].
    destruct (streamAttempt _ _ _ _ _ _ _ _) as [err st1]. simpl in *.
    destruct (delivers_spec i ds Hd) as (_ & Dc & Ds & Dsh).
    exists err, (SigAcquire key :: SigCall i key :: ds ++ [SigRelease key]), a.
    rewrite Ht, <-!app_assoc. split_and!; try done.
    + simpl. f_equal. change (calls (ds ++ [SigRelease key]) = []). by rewrite calls_app, Dc.
    + change (successes (ds ++ [SigRelease key]) = []). by rewrite successes_app, Ds.
    + simpl. rewrite bool_decide_true, orb_true_r by done.
      rewrite (permit_run_app _ _ _ _ _ (Hq ds (Some key) Hd)). simpl. by rewrite decide_True.
    + intros j. change (j ∈ shown (ds ++ [SigRelease key]) -> j = i).
      rewrite shown_app, app_nil_r. apply Dsh.
    + intros Hf. change (shown (ds ++ [SigRelease key]) = []). by rewrite shown_app, (Hv Hf).
  - destruct (streamAttempt_spec rp i key s st) as [(ds & Ht & Hd & Hv) (a & Ha & Hk)].
    destruct (streamAttempt _ _ _ _ _ _ _ _) as [err st1]. simpl in *.
    destruct (delivers_spec i ds Hd) as (_ & Dc & Ds & Dsh).
    exists err, (SigCall i key :: ds), a. split_and!; try done.
    + simpl. f_equal. done.
    + simpl. rewrite Hacq. simpl. by apply Hq.
Qed.

Fixpoint numbered (i : nat) (cands : list RoutePlan) : list (nat * ModelKey) :=
  match cands with
  | [] => []
  | c :: cands => (i, plan_key c) :: numbered (S i) cands
  end.

(** The calls so far are the first candidates in order, each with its attempt
    record; nothing but the last call showed content, and the permits are back. *)
Record sinv (rp : RoutePlan) (cands : list RoutePlan) (st : sstate (C := C)) : Prop := mkSinv {
  si_calls : exists n, calls (st_trace st) = numbered 0 (take n cands);
  si_attempts : map at_Key (st_attempts st) = (calls (st_trace st)).*2;
  si_shown : forall j, j ∈ shown (st_trace st) -> exists k, last (calls (st_trace st)) = Some (j, k);
  si_successes : successes (st_trace st) = [];
  si_permits : bracketed (needs_permit rp) (st_trace st);
}.

(** In front of the [i]-th candidate nothing was shown and all before it were called. *)
Definition ready (rp : RoutePlan) (pre : list RoutePlan) (st : sstate (C := C)) : Prop :=
  calls (st_trace st) = numbered 0 pre /\ shown (st_trace st) = [] /\
  map at_Key (st_attempts st) = (calls (st_trace st)).*2 /\
  successes (st_trace st) = [] /\ bracketed (needs_permit rp) (st_trace st).

Lemma numbered_app i l l' : numbered i (l ++ l') = numbered i l ++ numbered (i + length l) l'.
Proof.
  revert i. induction l as [|x l IH]; intros i; simpl; [by rewrite Nat.add_0_r|].
  by rewrite IH, Nat.add_succ_r.
Qed.

Lemma ready_sinv rp pre cands st : ready rp pre st -> sinv rp (pre ++ cands) st.
Proof.
  intros (Hc & Hs & Ha & Hsu & Hb). constructor; try done.
  - exists (length pre). by rewrite take_app_length.
  - rewrite Hs. by intros ? ?%elem_of_nil.
Qed.

Lemma signals_ready rp pre st k e :
  ready rp pre st -> ready rp pre (signals st (recordFailure rp k e)).
Proof.
  intros (Hc & Hs & Ha & Hsu & Hb).
  destruct (recordFailure_spec rp k e) as (Rq & Rc & Rs & Rsh & _). unfold ready. simpl.
  rewrite calls_app, shown_app, successes_app, Rc, Rs, Rsh, !app_nil_r.
  split_and!; try done. apply bracketed_app; [done|]. by apply quiet_bracketed.
Qed.

Lemma signals_sinv rp cands st k e :
  sinv rp cands st -> sinv rp cands (signals st (recordFailure rp k e)).
Proof.
  intros [Hc Ha Hs Hsu Hb].
  destruct (recordFailure_spec rp k e) as (Rq & Rc & Rs & Rsh & _).
  constructor; simpl; rewrite ?calls_app, ?shown_app, ?successes_app, ?Rc, ?Rs, ?Rsh, ?app_nil_r;
    try done.
  apply bracketed_app; [done|]. by apply quiet_bracketed.
Qed.

(** One candidate, from ready. *)
Lemma contact_ready rp pre c rest s st :
  ready rp pre st ->
  let r := streamContact bind acquire latency fn latencyDone rp (length pre) (plan_key c) s st in
  sinv rp (pre ++ c :: rest) r.2 /\
  (forall err, r.1 = Called err -> delivered r.2 = false -> ready rp (pre ++ [c]) r.2).
Proof.
  intros Hr. pose proof Hr as (Hc & Hs & Ha & Hsu & Hb).
  destruct (streamContact_spec rp (length pre) (plan_key c) s st)
    as [[e ->]|(err & sg & a & H1 & Ht & Gc & Gsu & Gb & Gsh & Gd & Hat & Hk)].
  { split; [by apply ready_sinv|done]. }
  cbn zeta. set (r := streamContact _ _ _ _ _ _ _ _ _ _) in *.
  assert (Hcalls : calls (st_trace r.2) = numbered 0 (pre ++ [c])).
  { by rewrite Ht, calls_app, Hc, Gc, numbered_app. }
  assert (Hatt : map at_Key (st_attempts r.2) = (calls (st_trace r.2)).*2).
  { rewrite Hat, map_app, Ha, Hcalls, Hc, numbered_app, fmap_app. simpl. by rewrite Hk. }
  assert (Hsucc : successes (st_trace r.2) = []) by by rewrite Ht, successes_app, Hsu, Gsu.
  assert (Hbr : bracketed (needs_permit rp) (st_trace r.2))
    by by rewrite Ht; apply bracketed_app.
  split.
  - constructor; try done.
    + exists (S (length pre)). rewrite Hcalls. f_equal.
      rewrite take_app_ge by lia. by replace (S (length pre) - length pre)%nat with 1%nat by lia.
    + intros j. rewrite Ht, shown_app, Hs. simpl. intros Hj. exists (plan_key c).
      rewrite <-Ht, Hcalls, numbered_app, last_app. simpl. by rewrite (Gsh j Hj).
  - intros err' _ Hd. split_and!; try done. by rewrite Ht, shown_app, Hs, (Gd Hd).
Qed.

Context (open : nat -> RoutePlan -> stream C).

Lemma streamFallbacks_inv rp pre fbs err st :
  ready rp pre st ->
  sinv rp (pre ++ fbs)
    (streamFallbacks bind acquire latency fn latencyDone open rp (length pre) fbs err st).2.
Proof.
  revert pre err st. induction fbs as [|fb fbs IH]; intros pre err st Hr; simpl.
  { by apply ready_sinv. }
  destruct (contact_ready rp pre fb fbs (open (length pre) fb) st Hr) as [Hinv Hready].
  destruct (streamContact _ _ _ _ _ _ _ _ _ _) as [[e|[e|]] st1]; simpl in *; [done| |].
  - destruct (IsInfrastructureError (Some e)); [|done]. simpl.
    destruct (delivered st1) eqn:Hd; [by apply signals_sinv|].
    replace (S (length pre)) with (length (pre ++ [fb])) by (rewrite length_app; simpl; lia).
    change (fb :: fbs) with ([fb] ++ fbs). rewrite (app_assoc pre).
    apply IH, signals_ready. by eapply Hready.
  - destruct Hinv. by constructor.
Qed.

(** The final signals add the success, if there was one. *)
Lemma sinv_finish rp cands st err o :
  sinv rp cands st ->
  let s := recordResult rp err (st_attempts st) o in
  (exists n, calls (st_trace st ++ s) = numbered 0 (take n cands)) /\
  (forall j, j ∈ shown (st_trace st ++ s) -> exists k, last (calls (st_trace st ++ s)) = Some (j, k)) /\
  bracketed (needs_permit rp) (st_trace st ++ s) /\
  map at_Key (st_attempts st) = (calls (st_trace st ++ s)).*2 /\
  successes (st_trace st ++ s) =
    (if recorder rp then match err with
                         | None => [default (plan_key rp) (last (calls (st_trace st ++ s)).*2)]
                         | Some _ => [] end else []).
Proof.
  intros [Hc Ha Hs Hsu Hb].
  destruct (recordResult_spec rp err (st_attempts st) o) as (Rq & Rc & _ & Rsh & Rs). simpl.
  rewrite calls_app, Rc, app_nil_r, shown_app, Rsh, app_nil_r, successes_app, Hsu, Rs. simpl.
  split_and!; try done.
  - apply bracketed_app; [done|]. by apply quiet_bracketed.
  - destruct (recorder rp); [|done]. destruct err; [done|]. do 2 f_equal.
    rewrite <-Ha. rewrite fmap_last. by destruct (last (st_attempts st)).
Qed.

Lemma unwrap_None err : unwrapAdmissionError err = None <-> err = None.
Proof.
  destruct err as [e|]; [|done]. unfold unwrapAdmissionError.
  destruct (errors_As _ e) as [[]|]; done.
Qed.

(** The state in which the loops of a streaming method leave it, and the error. *)
Definition streamWalk (rp : RoutePlan) : option goerr * sstate (C := C) :=
  match streamContact bind acquire latency fn latencyDone rp 0 (plan_key rp) (open 0%nat rp)
          initial_sstate with
  | (Denied e, st) => (Some e, st)
  | (Called err, st) =>
      match err with
      | Some e =>
          if IsInfrastructureError err then
            let st := signals st (recordFailure rp (plan_key rp) e) in
            if delivered st then (err, st)
            else streamFallbacks bind acquire latency fn latencyDone open rp 1 (Fallbacks rp) err st
          else (err, st)
      | None => (err, st)
      end
  end.

Lemma streamWalk_inv rp : sinv rp (rp :: Fallbacks rp) (streamWalk rp).2.
Proof.
  unfold streamWalk.
  assert (ready rp [] initial_sstate) as Hr by (split_and!; done).
  destruct (contact_ready rp [] rp (Fallbacks rp) (open 0%nat rp) initial_sstate Hr) as [Hinv Hready].
  simpl in *. destruct (streamContact _ _ _ _ _ _ _ _ _ _) as [[e|[e|]] st1]; simpl in *; try done.
  destruct (IsInfrastructureError (Some e)); [|done]. simpl.
  destruct (delivered st1) eqn:Hd; [by apply signals_sinv|].
  apply (streamFallbacks_inv rp [rp]), signals_ready. by eapply Hready.
Qed.

Definition stream_report (rp : RoutePlan) (r : option goerr * sstate (C := C)) : Prop :=
  let tr := st_trace r.2 in
  (exists n, calls tr = numbered 0 (take n (rp :: Fallbacks rp))) /\
  (forall j, j ∈ shown tr -> exists k, last (calls tr) = Some (j, k)) /\
  bracketed (needs_permit rp) tr /\
  map at_Key (st_attempts r.2) = (calls tr).*2 /\
  successes tr =
    (if recorder rp then match r.1 with
                         | None => [default (plan_key rp) (last (calls tr).*2)]
                         | Some _ => [] end else []).

Lemma sinv_report rp st e : sinv rp (rp :: Fallbacks rp) st -> stream_report rp (Some e, st).
Proof. intros []. split_and!; try done. simpl. by destruct (recorder rp). Qed.

Lemma ExecuteStream_report rp :
  stream_report rp (ExecuteStream bind acquire latency fn latencyDone open rp).
Proof.
  assert (forall err st, sinv rp (rp :: Fallbacks rp) st ->
    stream_report rp (let st' := match st_outcome st with
        | None => signals st (handleResult rp err (st_fallbacksUsed st) (st_attempts st)).2
        | Some outcome => match err with
                          | None => signals st (recordResult rp None (st_attempts st) outcome)
                          | Some _ => st
                          end
        end in (unwrapAdmissionError err, st'))) as Hfin.
  { intros err st Hi. assert (forall o, stream_report rp
      (unwrapAdmissionError err, signals st (recordResult rp err (st_attempts st) o))) as Hrep.
    { intros o. destruct (sinv_finish rp _ st err o Hi) as (? & ? & ? & ? & Hs).
      split_and!; try done. simpl in *. rewrite Hs. destruct (recorder rp); [|done].
      destruct err as [e|]; [|done]. destruct (unwrapAdmissionError (Some e)) eqn:Hu; [done|].
      by apply (proj1 (unwrap_None _)) in Hu. }
    destruct (st_outcome st) as [o|]; simpl; [|apply Hrep].
    destruct err as [e|]; [|apply (Hrep o)].
    destruct (unwrapAdmissionError (Some e)) eqn:Hu; [by apply sinv_report|].
    by apply (proj1 (unwrap_None _)) in Hu. }
  pose proof (streamWalk_inv rp) as Hw. unfold streamWalk in Hw. unfold ExecuteStream.
  assert (stream_report rp (Some ErrBudgetAdaptationRequired, initial_sstate)) as Hb.
  { split_and!; try done; [by exists 0%nat|by intros ? ?%elem_of_nil|]. simpl. by destruct (recorder rp). }
  destruct (streamContact _ _ _ _ _ _ _ _ _ _) as [[e|[e|]] st1].
  - destruct (Decision (Budget rp)); first [exact Hb | apply sinv_report; exact Hw].
  - destruct (IsInfrastructureError (Some e)); [cbn zeta in *; destruct (delivered _)|].
    2: destruct (streamFallbacks _ _ _ _ _ _ _ _ _ _ _) as [err st2].
    all: destruct (Decision (Budget rp)); try exact Hb; by apply Hfin.
  - destruct (Decision (Budget rp)); try exact Hb; by apply Hfin.
Qed.

(** C19: a streaming Execute method calls the candidates in order from the
    selected one, and everything the caller was shown as content or thinking
    comes from the last candidate called: once something visible was delivered,
    no other model is asked. *)
Theorem stream_single_source rp :
  let tr := st_trace (ExecuteStream bind acquire latency fn latencyDone open rp).2 in
  (exists n, calls tr = numbered 0 (take n (rp :: Fallbacks rp))) /\
  (forall j, j ∈ shown tr -> exists k, last (calls tr) = Some (j, k)).
Proof. destruct (ExecuteStream_report rp) as (? & ? & _). by split. Qed.

(** a streaming Execute method records exactly one attempt for every call of
    a provider, under the key that was called, and reports a success exactly when
    it returns no error: one, for the last model called. *)
Theorem stream_accounts rp :
  let r := ExecuteStream bind acquire latency fn latencyDone open rp in
  map at_Key (st_attempts r.2) = (calls (st_trace r.2)).*2 /\
  successes (st_trace r.2) =
    (if recorder rp then match r.1 with
                         | None => [default (plan_key rp) (last (calls (st_trace r.2)).*2)]
                         | Some _ => [] end else []).
Proof. destruct (ExecuteStream_report rp) as (_ & _ & _ & ? & ?). by split. Qed.

(** an error of the caller's own callback is charged to the provider: when
    the callback fails on a visible chunk with an error classified as
    infrastructure (a broken client connection, say) and the provider returns it,
    the attempt is attributed as unknown, yet the same error is recorded as a
    failure of the provider's circuit breaker. *)
Theorem stream_callback_failure_counted rp c e b :
  recorder rp = Some b -> Decision (Budget rp) = BudgetOK -> denied_by rp 0 rp = None ->
  open 0%nat rp = StreamChunkTo c StreamEnd ->
  visible c = true -> chunk_Done c = false -> fn [] c = Some e ->
  IsInfrastructureError (Some e) = true ->
  let r := ExecuteStream bind acquire latency fn latencyDone open rp in
  failures (st_trace r.2) = [(plan_key rp, e)] /\
  st_attempts r.2 = [makeUnknownAttempt (plan_key rp) (latency 0%nat)].
Proof.
  intros Hrec Hb Hd Hopen Hvis Hdone Hfn Hinf. unfold ExecuteStream, streamContact.
  rewrite Hb, Hopen. unfold streamAttempt. simpl. unfold wrappedFn. simpl. rewrite Hdone, Hvis, Hfn.
  unfold denied_by in Hd. destruct (bindDestination _ _ _ _); [done|].
  destruct (acquireFor _ _ _ _); [| |done]; simpl; rewrite Hinf; simpl;
    unfold recordFailure; rewrite Hrec; simpl; (split; [|done]);
    destruct (recordResult_spec rp (Some e) [makeUnknownAttempt (plan_key rp) (latency 0%nat)]
      (buildOutcome rp 0 [makeUnknownAttempt (plan_key rp) (latency 0%nat)])) as (_ & _ & -> & _);
    done.
Qed.
End StreamProperties.

(** every Execute method gives back each admission permit before it asks for
    the next one and holds none when it returns, whatever the providers, the
    callback and the seams do; and a chat or generate call of a governed key,
    streaming or not, is made while its own permit is held. *)
Theorem permits_bracketed ctxErr rp :
  (forall R (chat : nat -> ChatRequest -> option R * option goerr),
     bracketed (needs_permit rp) (ExecuteChat bind acquire latency chat rp).1.1) /\
  (forall R (gen : nat -> GenerateRequest -> option R * option goerr),
     bracketed (needs_permit rp) (ExecuteGenerate bind acquire latency gen rp).1.1) /\
  (forall R (provider : nat -> embedder R),
     bracketed (fun _ _ => false) (ExecuteEmbed bind acquire latency ctxErr provider rp).1.1) /\
  (forall chatStream fn latencyDone,
     bracketed (needs_permit rp)
       (st_trace (ExecuteChatStream bind acquire latency chatStream fn latencyDone rp).2)) /\
  (forall genStream fn latencyDone,
     bracketed (needs_permit rp)
       (st_trace (ExecuteGenerateStream bind acquire latency genStream fn latencyDone rp).2)).
Proof.
  split_and!; intros.
  - apply Execute_bracketed. intros. apply bracket_spec.
  - apply Execute_bracketed. intros. apply bracket_spec.
  - apply Execute_bracketed. intros. apply embedContact_bracketed.
  - apply ExecuteStream_report.
  - apply ExecuteStream_report.
Qed.
End Properties.

(** ** The theorems at concrete inputs *)

Definition plan0 (p : string) (fbs : list RoutePlan) : RoutePlan :=
  mkPlan RouteKindChat "qwen3"
    (mkModelProfile (mkModelKey p "qwen3") fzero CapChat ThinkAuto None TierGood TierGood 4096 0 "")
    (req0 "sess" "hi") fone (mkBudgetResult BudgetOK 0 4096 fone fone) fbs false false (Some true)
    true true false.

Definition walk0 : list signal * option response * option goerr :=
  ExecuteChat (fun _ _ => None) (fun _ _ => AcqPermit) (fun _ => 0)
    (fun i _ => if decide (i = 1%nat) then (Some "hello", None) else (None, Some (HTTPStatus i 503)))
    (plan0 "a" [plan0 "b" []; plan0 "c" []]).

Lemma execute_walk_witness :
  calls walk0.1.1 = [(0%nat, mkModelKey "a" "qwen3"); (1%nat, mkModelKey "b" "qwen3")] /\
  walk0.2 = None /\ successes walk0.1.1 = [mkModelKey "b" "qwen3"].
Proof.
  pose proof (proj1 (execute_walk (fun _ _ => None) (fun _ _ => AcqPermit) (fun _ => 0) (fun _ => false)
    (plan0 "a" [plan0 "b" []; plan0 "c" []]) ltac:(discriminate)) string
    (fun i _ => if decide (i = 1%nat) then (Some "hello", None) else (None, Some (HTTPStatus i 503)))) as H.
  change (ExecuteChat _ _ _ _ _) with walk0 in H.
  destruct walk0 as [[tr resp] err] eqn:Hw. vm_compute in H.
  destruct H as (-> & _ & ->). split; [|split]; reflexivity.
Defined.

Definition chunk0 : ChatResponse := mkChatResponse "hel" "" [] false false None.

Lemma stream_callback_failure_counted_witness :
  let r := ExecuteStream (fun _ _ => None) (fun _ _ => AcqPermit) (fun _ => 0)
    (fun _ _ => Some (OpError 7 None)) (fun _ => 0)
    (fun _ _ => StreamChunkTo chunk0 StreamEnd) (plan0 "a" []) in
  failures (st_trace r.2) = [(mkModelKey "a" "qwen3", OpError 7 None)].
Proof.
  exact (proj1 (stream_callback_failure_counted (fun _ _ => None) (fun _ _ => AcqPermit)
    (fun _ => 0) (fun _ _ => Some (OpError 7 None)) (fun _ => 0)
    (fun _ _ => StreamChunkTo chunk0 StreamEnd) (plan0 "a" []) chunk0 (OpError 7 None) true
    eq_refl eq_refl eq_refl eq_refl eq_refl eq_refl eq_refl eq_refl)).
Defined.
