(* ===== verification/RunBudget.v ===== *)
(** * RunBudget: the token allowances of nested runs (agent/run_budget.go)

    Every run owns a node of a tree; a nested run's node points to the node of
    the run that started it.  One mutex guards the whole tree, so every method
    is one step on a heap that holds the nodes and the outstanding reservations.
    A node is its index in the heap and a parent pointer is the index of the
    parent, [None] when nil. *)

From S2P Require Import Prelude Tokens RouteErrors ModelKey Request RoutePlan.

#[local] Open Scope Z_scope.
#[local] Open Scope go_scope.

(** ** Data *)

(** [provider.Usage] *)
Record Usage := mkUsage {
  PromptTokens : Z;
  CompletionTokens : Z;
  TotalTokens : Z;
  ReasoningTokens : Z;
  ReasoningTokensReported : bool;
  CachedPromptTokens : Z;
  CachedPromptTokensReported : bool;
  CacheWriteTokens : Z;
  CacheWriteTokensReported : bool;
}.

#[export] Instance Usage_eq_dec : EqDecision Usage.
Proof. solve_decision. Defined.

Definition noUsage : Usage := mkUsage 0 0 0 0 false 0 false 0 false.

(** The fields of [agent.Budget] and [agent.Request] a budget reads or writes. *)
Record RunRequest := mkRunRequest {
  InputCeiling : Z;
  OutputReserve : Z;
  b_TotalTokens : Z;      (** Budget.TotalTokens *)
  MaxSteps : Z;
  o_NumPredict : Z;       (** Options.NumPredict *)
}.

Definition defaultMaxSteps : Z := 16.

Record runBudget := mkRunBudget {
  parent : option nat;
  cancelled : bool;       (** the cancel function was called *)
  input : Z; generation : Z; steps : Z;
  limit : Z;
  finite : bool;
  charged : Z; reserved : Z;
  closed : bool; overrun : bool;
  descendants : Usage;
  descendantSucceeded : bool;
}.

Record tokenReservation := mkReservation {
  run : nat;
  prompt : Z; tokens : Z;
  settled : bool;
}.

Record Tree := mkTree { nodes : list runBudget; reservations : list tokenReservation }.

(** A context carries the innermost run and what its caller may do to it. *)
Record Context := mkContext { ctx_run : option nat; ctx_ext : option goerr }.

Inductive reserveError :=
| CtxErr (err : goerr)
| errRunBudgetExhausted.

(** The usage and outcomes of [agent.ModelResult]. *)
Record ModelResult := mkModelResult {
  mr_Usage : Usage;                        (** Response.Usage *)
  mr_RouteOutcome : option RouteOutcome;   (** RouteOutcome *)
  resp_RouteOutcome : option RouteOutcome; (** Response.RouteOutcome *)
}.

(** ** Operations *)

(** [for node := b; node != nil; node = node.parent]: parents are older than
    their children, so the number of nodes bounds the walk ([chain_fuel]). *)
Fixpoint chain_from (fuel : nat) (ns : list runBudget) (node : option nat) : list nat :=
  match fuel, node with
  | S fuel, Some i => i :: chain_from fuel ns (ns !! i ≫= parent)
  | _, _ => []
  end.

Definition chain (ns : list runBudget) (b : nat) : list nat :=
  chain_from (length ns) ns (Some b).

(** The loops that update every node of the chain. *)
Definition update_chain (f : nat -> runBudget -> runBudget) (l : list nat)
    (ns : list runBudget) : list runBudget :=
  fold_left (fun ns i => alter (f i) i ns) l ns.

(** [ctx.Err()]: cancelling a run cancels the contexts derived from it. *)
Definition ctx_Err (t : Tree) (ctx : Context) : option goerr :=
  match ctx_ext ctx with
  | Some e => Some e
  | None =>
      match ctx_run ctx with
      | Some b => if existsb (fun i => match nodes t !! i with
                                       | Some node => cancelled node | None => false end)
                       (chain (nodes t) b)
                  then Some Canceled else None
      | None => None
      end
  end.

(** The capacities of the new run: defaults for the unset ones, and never more
    than the enclosing run has. *)
Definition clip (par : option runBudget) (cap : runBudget -> Z) (n : Z) : Z :=
  match par with Some p => Z.min n (cap p) | None => n end.

Definition run_generation (par : option runBudget) (fin : bool) (req : RunRequest) : Z :=
  let gen := OutputReserve req in
  let gen := if gen <=? 0 then o_NumPredict req else gen in
  let gen := if (gen <=? 0) && fin then DefaultExpectedOutput "chat" else gen in
  match par with
  | Some p => if (0 <? generation p) && ((gen <=? 0) || (generation p <? gen))
              then generation p else gen
  | None => gen
  end.

Definition newRunBudget (t : Tree) (ctx : Context) (req : RunRequest) :
    Tree * Context * RunRequest * nat :=
  let par := ctx_run ctx ≫= fun i => nodes t !! i in
  let fin := (0 <? b_TotalTokens req) || match par with Some p => finite p | None => false end in
  let inp := clip par input (if InputCeiling req <=? 0 then DefaultInputCeiling
                             else InputCeiling req) in
  let stp := clip par steps (if MaxSteps req <=? 0 then defaultMaxSteps else MaxSteps req) in
  let gen := run_generation par fin req in
  let b := mkRunBudget (ctx_run ctx) false inp (Z.max 0 gen) stp (b_TotalTokens req) fin
             0 0 false false noUsage false in
  let '(out, npr) :=
    if 0 <? gen
    then (if 0 <? OutputReserve req then gen else OutputReserve req, gen)
    else (OutputReserve req, o_NumPredict req) in
  (mkTree (nodes t ++ [b]) (reservations t), mkContext (Some (length (nodes t))) (ctx_ext ctx),
   mkRunRequest inp out (b_TotalTokens req) stp npr, length (nodes t)).

(** Why a node admits nothing more. *)
Definition exhausted (node : runBudget) : bool :=
  closed node || overrun node || ((0 <? limit node) && (limit node <=? charged node)).

(** One round of the loop that checks the chain. *)
Definition admits (need : Z) (node : runBudget) : bool :=
  if exhausted node then false
  else if limit node <=? 0 then true
  else
    let '(used, usedOK) := checkedTokenAdd (charged node) (reserved node) in
    let '(total, totalOK) := checkedTokenAdd used need in
    negb (negb usedOK || negb totalOK || (limit node <? total)).

Definition all_nodes (P : runBudget -> bool) (ns : list runBudget) (l : list nat) : bool :=
  forallb (fun i => match ns !! i with Some node => P node | None => true end) l.

Definition set_reserved (n : Z) (node : runBudget) : runBudget :=
  mkRunBudget (parent node) (cancelled node) (input node) (generation node) (steps node)
    (limit node) (finite node) (charged node) n (closed node) (overrun node)
    (descendants node) (descendantSucceeded node).

Definition reserve_node (need : Z) (node : runBudget) : runBudget :=
  if 0 <? limit node then set_reserved (reserved node +i need) node else node.

(** [reserve]: the answer is an index in [reservations]. *)
Definition reserve (t : Tree) (b : nat) (ctx : Context) (promptTokens : Z) :
    Tree * result reserveError nat :=
  match nodes t !! b with
  | None => (t, Err errRunBudgetExhausted)      (* no nil receiver *)
  | Some node =>
      match ctx_Err t ctx with
      | Some err => (t, Err (CtxErr err))
      | None =>
          let '(need, ok) := checkedTokenAdd promptTokens (generation node) in
          if finite node && ((promptTokens <? 0) || negb ok)
          then (t, Err errRunBudgetExhausted)
          else if all_nodes (admits need) (nodes t) (chain (nodes t) b)
          then (mkTree (update_chain (fun _ => reserve_node need) (chain (nodes t) b) (nodes t))
                  (reservations t ++ [mkReservation b promptTokens need false]),
                Ok (length (reservations t)))
          else (t, Err errRunBudgetExhausted)
      end
  end.

(** The two multi-attempt tests of [settle]. *)
Definition multi (o : option RouteOutcome) : bool :=
  match o with
  | Some outcome => (1 <? len (Attempts outcome)) || (0 <? FallbacksUsed outcome)
  | None => false
  end.

Definition isDenied (callErr : option goerr) : bool :=
  match callErr with Some e => errors_Is e ErrContentDenied | None => false end.

(** The counters are usable: no negative one, and the total agrees. *)
Definition valid (u : Usage) : bool :=
  let '(sum, sumOK) := checkedTokenAdd (Z.max 0 (PromptTokens u)) (Z.max 0 (CompletionTokens u)) in
  (0 <=? PromptTokens u) && (0 <=? CompletionTokens u) && (0 <=? TotalTokens u) &&
  (0 <=? ReasoningTokens u) && (0 <=? CachedPromptTokens u) && (0 <=? CacheWriteTokens u) && sumOK &&
  ((TotalTokens u =? 0) || (TotalTokens u =? sum) ||
   ((PromptTokens u =? 0) && (CompletionTokens u =? 0))).

(** What [settle] charges for a call. *)
Definition charge_of (r : tokenReservation) (mr : ModelResult) (callErr : option goerr) : Z :=
  let u := mr_Usage mr in
  let logical := saturatedTokenAdd (Z.max (prompt r) (PromptTokens u)) (Z.max 0 (CompletionTokens u)) in
  let charge := Z.max logical (TotalTokens u) in
  let multiAttempt := multi (mr_RouteOutcome mr) || multi (resp_RouteOutcome mr) in
  let charge := if opt_b callErr || negb (valid u) || (PromptTokens u =? 0) || multiAttempt
                then Z.max charge (tokens r) else charge in
  if isDenied callErr then 0 else charge.

(** Whether it stops the run: output beyond the generation cap. *)
Definition overruns (b : runBudget) (r : tokenReservation) (mr : ModelResult) (charge : Z) : bool :=
  finite b && (generation b <? charge -i Z.max (prompt r) (PromptTokens (mr_Usage mr))).

Definition add_usage (d u : Usage) : Usage :=
  mkUsage (saturatedTokenAdd (PromptTokens d) (PromptTokens u))
    (saturatedTokenAdd (CompletionTokens d) (CompletionTokens u))
    (saturatedTokenAdd (TotalTokens d) (TotalTokens u))
    (ReasoningTokens d) (ReasoningTokensReported d)
    (saturatedTokenAdd (CachedPromptTokens d) (CachedPromptTokens u))
    (CachedPromptTokensReported d || CachedPromptTokensReported u)
    (saturatedTokenAdd (CacheWriteTokens d) (CacheWriteTokens u))
    (CacheWriteTokensReported d || CacheWriteTokensReported u).

(** One round of the loop of [settle]; [own] is [node == b]. *)
Definition settle_node (own : bool) (r : tokenReservation) (charge : Z) (u : Usage)
    (ok : bool) (node : runBudget) : runBudget :=
  let limited := 0 <? limit node in
  mkRunBudget (parent node) (cancelled node) (input node) (generation node) (steps node)
    (limit node) (finite node)
    (if limited then saturatedTokenAdd (charged node) charge else charged node)
    (if limited then reserved node -i tokens r else reserved node)
    (closed node) (overrun node)
    (if negb own && valid u then add_usage (descendants node) u else descendants node)
    (descendantSucceeded node || (negb own && ok)).

Definition set_overrun (node : runBudget) : runBudget :=
  mkRunBudget (parent node) (cancelled node) (input node) (generation node) (steps node)
    (limit node) (finite node) (charged node) (reserved node) (closed node) true
    (descendants node) (descendantSucceeded node).

Definition set_settled (r : tokenReservation) : tokenReservation :=
  mkReservation (run r) (prompt r) (tokens r) true.

Definition settle (t : Tree) (k : nat) (mr : ModelResult) (callErr : option goerr) : Tree :=
  match reservations t !! k with
  | None => t
  | Some r =>
      if settled r then t
      else match nodes t !! run r with
           | None => t
           | Some b =>
               let charge := charge_of r mr callErr in
               let ns := if overruns b r mr charge then alter set_overrun (run r) (nodes t)
                         else nodes t in
               mkTree (update_chain (fun i => settle_node (bool_decide (i = run r)) r charge
                                                (mr_Usage mr) (negb (opt_b callErr)))
                         (chain ns (run r)) ns)
                 (alter set_settled k (reservations t))
           end
  end.

Definition stopped (t : Tree) (b : nat) : bool :=
  negb (all_nodes (fun node => negb (exhausted node)) (nodes t) (chain (nodes t) b)).

Definition runBudgetStopped (t : Tree) (ctx : Context) : bool :=
  match ctx_run ctx with Some b => stopped t b | None => false end.

Definition checkRunBudget (t : Tree) (ctx : Context) : option reserveError :=
  match ctx_Err t ctx with
  | Some err => Some (CtxErr err)
  | None => if runBudgetStopped t ctx then Some errRunBudgetExhausted else None
  end.

Definition close_node (node : runBudget) : runBudget :=
  mkRunBudget (parent node) true (input node) (generation node) (steps node) (limit node)
    (finite node) (charged node) (reserved node) true (overrun node) (descendants node)
    (descendantSucceeded node).

Definition close (t : Tree) (b : nat) : Tree * option Usage :=
  (mkTree (alter close_node b (nodes t)) (reservations t),
   match nodes t !! b with
   | Some node =>
       if bool_decide (descendants node = noUsage) && negb (descendantSucceeded node)
       then None else Some (descendants node)
   | None => None
   end).

(** ** Runs of the tree

    The operations any number of goroutines issue, in the order the mutex
    serves them.  The log keeps what each reservation was settled at. *)

Definition wf_usage (u : Usage) : Prop :=
  in_int (PromptTokens u) /\ in_int (CompletionTokens u) /\ in_int (TotalTokens u) /\
  in_int (CachedPromptTokens u) /\ in_int (CacheWriteTokens u).

Definition wf_request (req : RunRequest) : Prop :=
  in_int (InputCeiling req) /\ in_int (OutputReserve req) /\ in_int (b_TotalTokens req) /\
  in_int (MaxSteps req) /\ in_int (o_NumPredict req).

Definition live (t : Tree) (ctx : Context) : Prop :=
  forall b, ctx_run ctx = Some b -> (b < length (nodes t))%nat.

(** What a reservation was settled at: its index, the reservation, the charge. *)
Record settlement := mkSettlement {
  s_index : nat; s_reservation : tokenReservation; s_charge : Z
}.

Inductive budget_step (t : Tree) : list settlement -> Tree -> Prop :=
| step_new ctx req :
    live t ctx -> wf_request req -> budget_step t [] (newRunBudget t ctx req).1.1.1
| step_reserve b ctx promptTokens :
    in_int promptTokens -> budget_step t [] (reserve t b ctx promptTokens).1
| step_settle k r mr callErr :
    wf_usage (mr_Usage mr) -> reservations t !! k = Some r ->
    budget_step t (if settled r then [] else [mkSettlement k r (charge_of r mr callErr)])
      (settle t k mr callErr)
| step_close b :
    budget_step t [] (close t b).1.

Inductive budget_run : Tree -> list settlement -> Prop :=
| run_init : budget_run (mkTree [] []) []
| run_step t log ev t' :
    budget_run t log -> budget_step t ev t' -> budget_run t' (log ++ ev).

(** Everything that happens later in a tree. *)
Inductive budget_later (t : Tree) : Tree -> Prop :=
| later_refl : budget_later t t
| later_step t1 ev t2 : budget_later t t1 -> budget_step t1 ev t2 -> budget_later t t2.

(** What a log amounts to for a node: the tokens held by the outstanding
    reservations of its subtree, the charges of its settlements, and by how much
    these exceeded what had been reserved for them. *)
Definition below (ns : list runBudget) (j : nat) (r : tokenReservation) : bool :=
  bool_decide (j ∈ chain ns (run r)).

Definition outstanding (t : Tree) (j : nat) : Z :=
  Zsum (map (fun r => if negb (settled r) && below (nodes t) j r then tokens r else 0)
          (reservations t)).

Definition charges (ns : list runBudget) (log : list settlement) (j : nat) : Z :=
  Zsum (map (fun s => if below ns j (s_reservation s) then s_charge s else 0) log).

Definition excess (ns : list runBudget) (log : list settlement) (j : nat) : Z :=
  Zsum (map (fun s => if below ns j (s_reservation s)
                      then Z.max 0 (s_charge s - tokens (s_reservation s)) else 0) log).

(** ** The shape of a tree

    The capacities and the parent links, which no operation changes. *)
Definition caps (n : runBudget) : option nat * Z * Z * Z * Z * bool :=
  (parent n, input n, generation n, steps n, limit n, finite n).

Definition shape (ns : list runBudget) := caps <$> ns.

Record node_ok (ns : list runBudget) (i : nat) (n : runBudget) : Prop := mkNodeOk {
  ok_parent : forall j, parent n = Some j -> (j < i)%nat;
  ok_limit : 0 < limit n -> finite n = true;
  ok_int : in_int (limit n);
  ok_input : 0 < input n <= MaxInt;
  ok_steps : 0 < steps n <= MaxInt;
  ok_generation : 0 <= generation n <= MaxInt;
  ok_finite : finite n = true -> 0 < generation n;
  ok_nested : forall j p, parent n = Some j -> ns !! j = Some p ->
    input n <= input p /\ steps n <= steps p /\
    (0 < generation p -> 0 < generation n <= generation p) /\
    (finite p = true -> finite n = true)
}.

Definition static (ns : list runBudget) : Prop :=
  forall i n, ns !! i = Some n -> node_ok ns i n.

Lemma shape_lookup ns ns' i n' :
  shape ns = shape ns' -> ns' !! i = Some n' -> exists n, ns !! i = Some n /\ caps n = caps n'.
Proof.
  intros Hs Hn. pose proof (f_equal (lookup i) Hs) as H.
  unfold shape in H. rewrite !list_lookup_fmap, Hn in H.
  destruct (ns !! i) as [n|]; [|done]. exists n. split; [done|]. simpl in H. congruence.
Qed.

Lemma shape_parent ns ns' i : shape ns = shape ns' -> ns !! i ≫= parent = ns' !! i ≫= parent.
Proof.
  intros Hs. destruct (ns' !! i) as [n'|] eqn:E.
  - destruct (shape_lookup _ _ _ _ Hs E) as (n & -> & Hc). simpl. unfold caps in Hc. congruence.
  - destruct (ns !! i) as [n|] eqn:E'; [|done].
    destruct (shape_lookup _ _ _ _ (eq_sym Hs) E') as (? & ? & _). congruence.
Qed.

Lemma shape_length ns ns' : shape ns = shape ns' -> length ns = length ns'.
Proof. intros H. apply (f_equal length) in H. unfold shape in H. by rewrite !length_fmap in H. Qed.

Lemma chain_shape ns ns' b : shape ns = shape ns' -> chain ns b = chain ns' b.
Proof.
  intros Hs. unfold chain. rewrite (shape_length _ _ Hs). generalize (length ns'), (Some b).
  intros f. induction f as [|f IH]; intros o; [done|]. destruct o as [i|]; [|done]. simpl.
  by rewrite (shape_parent _ _ i Hs), IH.
Qed.

Lemma caps_inv n m :
  caps n = caps m ->
  parent n = parent m /\ input n = input m /\ generation n = generation m /\
  steps n = steps m /\ limit n = limit m /\ finite n = finite m.
Proof. unfold caps. intros H. by simplify_eq. Qed.

Lemma static_shape ns ns' : shape ns = shape ns' -> static ns -> static ns'.
Proof.
  intros Hs H i n' Hn. destruct (shape_lookup _ _ _ _ Hs Hn) as (n & Hn' & Hc).
  apply caps_inv in Hc as (E1 & E2 & E3 & E4 & E5 & E6). destruct (H i n Hn') as [].
  constructor; rewrite <- ?E1, <- ?E2, <- ?E3, <- ?E4, <- ?E5, <- ?E6; try done.
  intros j q Hp Hj. destruct (shape_lookup _ _ _ _ Hs Hj) as (p & Hq & Hcq).
  apply caps_inv in Hcq as (F1 & F2 & F3 & F4 & F5 & F6).
  rewrite <- F2, <- F3, <- F4, <- F6. eauto.
Qed.

(** *** The walk to the root *)

Lemma chain_fuel ns f g o :
  static ns -> (forall i, o = Some i -> (i < f)%nat /\ (i < g)%nat) ->
  chain_from f ns o = chain_from g ns o.
Proof.
  intros Hst. revert g o. induction f as [|f IH]; intros g o Ho; destruct o as [i|]; simpl.
  - destruct (Ho i eq_refl). lia.
  - by destruct g.
  - destruct (Ho i eq_refl). destruct g as [|g]; [lia|]. simpl. f_equal. apply IH.
    intros j Hj. destruct (ns !! i) as [n|] eqn:E; [|done]. simpl in Hj.
    pose proof (ok_parent _ _ _ (Hst i n E) j Hj). lia.
  - by destruct g.
Qed.

Lemma chain_unfold ns i n :
  static ns -> ns !! i = Some n ->
  chain ns i = i :: match parent n with Some j => chain ns j | None => [] end.
Proof.
  intros Hst Hn. pose proof (lookup_lt_Some _ _ _ Hn) as Hi. unfold chain.
  rewrite (chain_fuel ns _ (S (length ns)) (Some i)) by (naive_solver lia).
  simpl. f_equal. rewrite Hn. simpl. destruct (parent n) as [j|] eqn:E; [|by destruct (length ns)].
  done.
Qed.

(** Everything that holds of a node and passes from parent to child. *)
Lemma chain_ind ns (P : nat -> Prop) :
  static ns ->
  (forall i n, ns !! i = Some n -> (forall j, parent n = Some j -> P j) -> P i) ->
  forall i, (i < length ns)%nat -> P i.
Proof.
  intros Hst H i. induction i as [i IH] using lt_wf_ind. intros Hi.
  destruct (lookup_lt_is_Some_2 ns i Hi) as [n Hn]. apply (H i n Hn).
  intros j Hj. pose proof (ok_parent _ _ _ (Hst i n Hn) j Hj). apply IH; lia.
Qed.

Lemma chain_le ns i j :
  static ns -> (i < length ns)%nat -> j ∈ chain ns i -> (j <= i)%nat.
Proof.
  intros Hst Hi. revert j. pattern i. apply (chain_ind ns); [done| |done].
  intros k n Hn IH j. rewrite (chain_unfold ns k n Hst Hn). intros [->|Hj]%elem_of_cons; [done|].
  destruct (parent n) as [l|] eqn:E; [|by apply not_elem_of_nil in Hj].
  pose proof (ok_parent _ _ _ (Hst k n Hn) l E). specialize (IH l eq_refl j Hj). lia.
Qed.

Lemma chain_NoDup ns i : static ns -> (i < length ns)%nat -> NoDup (chain ns i).
Proof.
  intros Hst Hi. pattern i. apply (chain_ind ns); [done| |done]. intros k n Hn IH.
  rewrite (chain_unfold ns k n Hst Hn). destruct (parent n) as [l|] eqn:E.
  - apply NoDup_cons. split; [|auto]. intros Hin.
    pose proof (ok_parent _ _ _ (Hst k n Hn) l E). pose proof (lookup_lt_Some _ _ _ Hn).
    apply chain_le in Hin; [lia|done|lia].
  - apply NoDup_singleton.
Qed.

Lemma chain_self ns i : static ns -> (i < length ns)%nat -> i ∈ chain ns i.
Proof.
  intros Hst [n Hn]%lookup_lt_is_Some_2. rewrite (chain_unfold ns i n Hst Hn). by left.
Qed.

(** Ancestors of an ancestor. *)
Lemma chain_trans ns i j k :
  static ns -> (i < length ns)%nat -> j ∈ chain ns i -> k ∈ chain ns j -> k ∈ chain ns i.
Proof.
  intros Hst Hi. revert j k. pattern i. apply (chain_ind ns); [done| |done].
  intros l n Hn IH j k Hj Hk. rewrite (chain_unfold ns l n Hst Hn) in Hj |- *.
  apply elem_of_cons in Hj as [->|Hj].
  - by rewrite (chain_unfold ns l n Hst Hn) in Hk.
  - destruct (parent n) as [m|]; [|by apply not_elem_of_nil in Hj].
    right. eauto.
Qed.

(** Finiteness, and with it a positive generation cap, reaches down the tree. *)
Lemma finite_below ns i n j p :
  static ns -> ns !! i = Some n -> j ∈ chain ns i -> ns !! j = Some p -> finite p = true ->
  finite n = true.
Proof.
  intros Hst Hn Hj Hp Hf. revert n Hn Hj.
  assert (Hi : (i < length ns)%nat \/ (length ns <= i)%nat) by lia.
  destruct Hi as [Hi|Hi]; [|intros n Hn; apply lookup_lt_Some in Hn; lia].
  pattern i. apply (chain_ind ns); [done| |done].
  intros k n Hm IH n' Hn. assert (n' = n) as -> by congruence.
  rewrite (chain_unfold ns k n Hst Hm).
  intros [->|Hj]%elem_of_cons; [congruence|].
  destruct (parent n) as [l|] eqn:E; [|by apply not_elem_of_nil in Hj].
  pose proof (ok_parent _ _ _ (Hst k n Hm) l E). pose proof (lookup_lt_Some _ _ _ Hm).
  destruct (lookup_lt_is_Some_2 ns l ltac:(lia)) as [q Hq].
  destruct (ok_nested _ _ _ (Hst k n Hm) l q E Hq) as (_ & _ & _ & Hfin).
  apply Hfin. by apply (IH l eq_refl q Hq).
Qed.

(** ** What the operations leave alone *)

Lemma shape_alter f i ns : (forall n, caps (f n) = caps n) -> shape (alter f i ns) = shape ns.
Proof.
  intros Hf. unfold shape. apply list_eq. intros j. rewrite !list_lookup_fmap.
  destruct (decide (i = j)) as [<-|Hij].
  - rewrite list_lookup_alter_eq. destruct (ns !! i) as [n|]; simpl; [by rewrite Hf|done].
  - by rewrite list_lookup_alter_ne.
Qed.

Lemma shape_update_chain f l ns :
  (forall i n, caps (f i n) = caps n) -> shape (update_chain f l ns) = shape ns.
Proof.
  intros Hf. unfold update_chain. revert ns. induction l as [|i l IH]; intros ns; [done|]. simpl.
  rewrite IH. apply shape_alter. auto.
Qed.

Lemma lookup_update_chain f l ns j :
  NoDup l -> update_chain f l ns !! j = if bool_decide (j ∈ l) then f j <$> ns !! j else ns !! j.
Proof.
  unfold update_chain. revert ns. induction l as [|i l IH]; intros ns Hl; [done|].
  apply NoDup_cons in Hl as [Hi Hl]. simpl. rewrite IH by done.
  destruct (decide (i = j)) as [<-|Hij].
  - rewrite (bool_decide_eq_false_2 (i ∈ l)), (bool_decide_eq_true_2 (i ∈ i :: l))
      by (done || by left). apply list_lookup_alter_eq.
  - rewrite list_lookup_alter_ne by done.
    by rewrite (bool_decide_ext (j ∈ i :: l) (j ∈ l)) by (rewrite elem_of_cons; naive_solver).
Qed.

Lemma caps_reserve_node need n : caps (reserve_node need n) = caps n.
Proof. unfold reserve_node. by destruct (0 <? limit n). Qed.

Lemma caps_settle_node own r c u ok n : caps (settle_node own r c u ok n) = caps n.
Proof. done. Qed.

Lemma shape_reserve t b ctx p : shape (nodes (reserve t b ctx p).1) = shape (nodes t).
Proof.
  unfold reserve. repeat (case_match; try done). simpl.
  apply shape_update_chain. intros. apply caps_reserve_node.
Qed.

Lemma shape_overrun (o : bool) i ns :
  shape (if o then alter set_overrun i ns else ns) = shape ns.
Proof. destruct o; [|done]. by apply shape_alter. Qed.

Lemma shape_settle t k mr callErr : shape (nodes (settle t k mr callErr)) = shape (nodes t).
Proof.
  unfold settle. repeat (case_match; try done); simpl; rewrite shape_update_chain by done;
    try done; by apply shape_alter.
Qed.

Lemma shape_close t b : shape (nodes (close t b).1) = shape (nodes t).
Proof. by apply shape_alter. Qed.

(** A new node extends the tree. *)
Lemma chain_extend ns n b :
  static ns -> static (ns ++ [n]) -> (b < length ns)%nat -> chain (ns ++ [n]) b = chain ns b.
Proof.
  intros Hst Hst' Hb. pattern b. apply (chain_ind ns); [done| |done]. intros i m Hm IH.
  pose proof (lookup_lt_Some _ _ _ Hm).
  assert ((ns ++ [n]) !! i = Some m) as Hm' by (by rewrite lookup_app_l).
  rewrite (chain_unfold _ i m Hst Hm), (chain_unfold _ i m Hst' Hm').
  destruct (parent m) as [j|]; [|done]. by rewrite IH.
Qed.

Lemma DefaultExpectedOutput_chat : DefaultExpectedOutput "chat" = 2048.
Proof. reflexivity. Qed.

Lemma static_app ns n : static ns -> node_ok ns (length ns) n -> static (ns ++ [n]).
Proof.
  intros Hst Hok i m Hm.
  assert (Hm' : node_ok ns i m /\ (i <= length ns)%nat).
  { apply lookup_app_Some in Hm as [Hm|[Hi Hm]].
    - pose proof (lookup_lt_Some _ _ _ Hm). split; [auto|lia].
    - apply list_lookup_singleton_Some in Hm as [Hi' ->].
      replace i with (length ns) by lia. split; [done|lia]. }
  destruct Hm' as [[] Hi]. constructor; try done. intros j p Hj Hp.
  pose proof (ok_parent0 j Hj). rewrite lookup_app_l in Hp by lia. eauto.
Qed.

Lemma clip_range par cap d n :
  (forall p, par = Some p -> 0 < cap p <= MaxInt) -> 0 < d <= MaxInt -> in_int n ->
  0 < clip par cap (if n <=? 0 then d else n) <= MaxInt.
Proof.
  intros Hp Hd Hn. assert (0 < (if n <=? 0 then d else n) <= MaxInt) by (cases_if; to_prop; int_lia).
  destruct par as [p|]; simpl; [|done]. specialize (Hp p eq_refl). lia.
Qed.

Lemma run_generation_spec par fin req :
  wf_request req -> (forall p, par = Some p -> 0 <= generation p <= MaxInt) ->
  run_generation par fin req <= MaxInt /\
  (fin = true -> 0 < run_generation par fin req) /\
  (forall p, par = Some p -> 0 < generation p -> 0 < run_generation par fin req <= generation p).
Proof.
  intros (_ & Ho & _ & _ & Hn) Hp. unfold run_generation. rewrite DefaultExpectedOutput_chat.
  set (g := if _ <=? 0 then o_NumPredict req else _).
  assert (in_int g) by (unfold g; cases_if; done). clearbody g.
  set (h := if (g <=? 0) && fin then 2048 else g).
  assert (in_int h /\ (fin = true -> 0 < h)) as [? Hh]
    by (unfold h; destruct fin, (Z.leb_spec g 0); simpl; split; (int_lia || done)).
  clearbody h. destruct par as [p|]; [|split_and!; (int_lia || done)].
  specialize (Hp p eq_refl). destruct (Z.ltb_spec 0 (generation p)); simpl.
  - destruct (Z.leb_spec h 0), (Z.ltb_spec (generation p) h); simpl; split_and!;
      intros; simplify_eq; int_lia.
  - split_and!; [int_lia|done|]. intros q [= <-]. lia.
Qed.

Lemma static_new t ctx req :
  static (nodes t) -> live t ctx -> wf_request req ->
  static (nodes (newRunBudget t ctx req).1.1.1).
Proof.
  intros Hst Hlive Hreq. pose proof Hreq as (H1 & H2 & H3 & H4 & H5).
  unfold newRunBudget. set (par := ctx_run ctx ≫= _).
  assert (Hpar : forall j p, ctx_run ctx = Some j -> nodes t !! j = Some p -> par = Some p)
    by (unfold par; intros j p -> Hp; exact Hp).
  assert (Hok : forall p, par = Some p -> exists j, node_ok (nodes t) j p)
    by (unfold par; destruct (ctx_run ctx); naive_solver).
  destruct (run_generation_spec par ((0 <? b_TotalTokens req) ||
    match par with Some p => finite p | None => false end) req Hreq) as (G1 & G2 & G3).
  { intros p (j & [])%Hok. done. }
  set (fin := (0 <? b_TotalTokens req) || _) in *. set (gen := run_generation par fin req) in *.
  replace (nodes _) with (nodes t ++ [mkRunBudget (ctx_run ctx) false
    (clip par input (if InputCeiling req <=? 0 then DefaultInputCeiling else InputCeiling req))
    (Z.max 0 gen)
    (clip par steps (if MaxSteps req <=? 0 then defaultMaxSteps else MaxSteps req))
    (b_TotalTokens req) fin 0 0 false false noUsage false]) by (by destruct (0 <? gen)).
  apply static_app; [done|]. constructor; simpl; try done.
  - intros H. unfold fin. destruct (Z.ltb_spec 0 (b_TotalTokens req)); [done|lia].
  - apply clip_range; [intros p (j & [])%Hok; done|done|done].
  - apply clip_range; [intros p (j & [])%Hok; done|done|done].
  - int_lia.
  - intros F. specialize (G2 F). lia.
  - intros j p Hj Hp. pose proof (Hpar j p Hj Hp) as E. rewrite E. simpl.
    split_and!; [lia|lia|intros; specialize (G3 p E); lia|].
    unfold fin. rewrite E. intros ->. by rewrite orb_true_r.
Qed.

(** ** The accounting invariant *)

Definition wf_reservation (ns : list runBudget) (r : tokenReservation) : Prop :=
  exists n, ns !! run r = Some n /\ in_int (prompt r) /\ in_int (tokens r) /\
    (finite n = true -> 0 <= prompt r /\ tokens r = prompt r + generation n).

Record node_books (t : Tree) (log : list settlement) (j : nat) (n : runBudget) : Prop := mkBooks {
  bk_reserved : reserved n = outstanding t j;
  bk_reserved_int : 0 <= reserved n <= MaxInt;
  bk_charges : 0 <= charges (nodes t) log j;
  bk_charged : charged n = Z.min MaxInt (charges (nodes t) log j);
  bk_bound : charged n + reserved n <= limit n + excess (nodes t) log j
}.

Record books (t : Tree) (log : list settlement) : Prop := mkInv {
  bk_static : static (nodes t);
  bk_res : forall k r, reservations t !! k = Some r -> wf_reservation (nodes t) r;
  bk_log : forall s, s ∈ log ->
    reservations t !! s_index s = Some (set_settled (s_reservation s));
  bk_once : NoDup (map s_index log);
  bk_node : forall j n, nodes t !! j = Some n -> 0 < limit n -> node_books t log j n
}.

Lemma wf_reservation_shape ns ns' r :
  shape ns = shape ns' -> wf_reservation ns r -> wf_reservation ns' r.
Proof.
  intros Hs (n & Hn & H). destruct (shape_lookup _ _ _ _ (eq_sym Hs) Hn) as (n' & Hn' & Hc).
  apply caps_inv in Hc as (_ & _ & E & _ & _ & F). exists n'. by rewrite E, F.
Qed.

Lemma wf_reservation_lt ns r : wf_reservation ns r -> (run r < length ns)%nat.
Proof. intros (n & Hn & _). by apply lookup_lt_Some in Hn. Qed.

Lemma below_shape ns ns' j r : shape ns = shape ns' -> below ns j r = below ns' j r.
Proof. intros Hs. unfold below. by rewrite (chain_shape _ _ _ Hs). Qed.

Lemma charges_shape ns ns' log j : shape ns = shape ns' -> charges ns log j = charges ns' log j.
Proof. intros Hs. apply Zsum_map_ext. intros s _. by rewrite (below_shape _ _ _ _ Hs). Qed.

Lemma excess_shape ns ns' log j : shape ns = shape ns' -> excess ns log j = excess ns' log j.
Proof. intros Hs. apply Zsum_map_ext. intros s _. by rewrite (below_shape _ _ _ _ Hs). Qed.

Lemma excess_nonneg ns log j : 0 <= excess ns log j.
Proof. apply Zsum_map_nonneg. intros s _. destruct (below _ _ _); lia. Qed.

(** The reservations of a limited subtree are sound and nonnegative. *)
Lemma below_finite ns j n r :
  static ns -> ns !! j = Some n -> 0 < limit n -> below ns j r = true -> wf_reservation ns r ->
  0 <= prompt r /\ 0 <= tokens r <= MaxInt.
Proof.
  intros Hst Hn Hl Hb%bool_decide_eq_true (m & Hm & _ & Ht & Hf).
  pose proof (ok_limit _ _ _ (Hst j n Hn) Hl) as Hfin.
  pose proof (finite_below _ _ _ _ _ Hst Hm Hb Hn Hfin) as Hfm.
  destruct (Hf Hfm). pose proof (ok_generation _ _ _ (Hst _ _ Hm)). int_lia.
Qed.

Lemma charge_range r mr callErr :
  wf_usage (mr_Usage mr) -> in_int (prompt r) -> in_int (tokens r) ->
  in_int (charge_of r mr callErr) /\ (0 <= prompt r -> 0 <= charge_of r mr callErr).
Proof.
  intros (Hp & Hc & Ht & _) Hpr Htk. unfold charge_of.
  set (p := Z.max (prompt r) _). set (c := Z.max 0 _).
  assert (in_int p /\ in_int c) as [Hp' Hc'] by int_lia.
  pose proof (saturatedTokenAdd_range p c Hp' Hc').
  assert (0 <= prompt r -> 0 <= saturatedTokenAdd p c) as H0
    by (intros; rewrite saturatedTokenAdd_nonneg by (done || int_lia); int_lia).
  clearbody p c. destruct (isDenied callErr); [int_lia|].
  match goal with |- context [if ?b then _ else _] => destruct b end; int_lia.
Qed.

(** Reserving, on success and on failure. *)
Definition reserved_tree (t : Tree) (b : nat) (p need : Z) : Tree :=
  mkTree (update_chain (fun _ => reserve_node need) (chain (nodes t) b) (nodes t))
    (reservations t ++ [mkReservation b p need false]).

Lemma reserve_spec t b ctx p :
  match reserve t b ctx p with
  | (t', Err _) => t' = t
  | (t', Ok k) =>
      exists node need ok, nodes t !! b = Some node /\ ctx_Err t ctx = None /\
        checkedTokenAdd p (generation node) = (need, ok) /\
        (finite node = true -> 0 <= p /\ ok = true) /\
        all_nodes (admits need) (nodes t) (chain (nodes t) b) = true /\
        t' = reserved_tree t b p need /\ k = length (reservations t)
  end.
Proof.
  unfold reserve. destruct (nodes t !! b) as [node|] eqn:Hb; [|done].
  destruct (ctx_Err t ctx) eqn:He; [done|].
  destruct (checkedTokenAdd p (generation node)) as [need ok] eqn:Ha.
  destruct (finite node && _) eqn:Hf; [done|].
  destruct (all_nodes _ _ _) eqn:Hall; [|done].
  exists node, need, ok. split_and!; try done. intros Hfin. rewrite Hfin in Hf.
  destruct (Z.ltb_spec p 0), ok; done.
Qed.

Lemma all_nodes_lookup P ns l j n :
  all_nodes P ns l = true -> j ∈ l -> ns !! j = Some n -> P n = true.
Proof.
  unfold all_nodes. rewrite forallb_forall. intros H Hj Hn.
  specialize (H j (proj1 (list_elem_of_In _ _) Hj)). by rewrite Hn in H.
Qed.

Lemma admits_limited need n :
  admits need n = true -> 0 < limit n -> in_int (charged n) -> in_int (reserved n) -> in_int need ->
  charged n + reserved n + need <= limit n /\ exhausted n = false.
Proof.
  unfold admits. destruct (exhausted n); [done|]. destruct (Z.leb_spec (limit n) 0); [lia|].
  intros Had _ Hc Hr Hn.
  destruct (checkedTokenAdd (charged n) (reserved n)) as [used uok] eqn:E1.
  destruct (checkedTokenAdd used need) as [total tok] eqn:E2.
  destruct uok, tok; try done. simpl in Had.
  apply checkedTokenAdd_ok in E1 as [-> ?]; [|done..].
  apply checkedTokenAdd_ok in E2 as [-> ?]; [|done..]. to_prop. done.
Qed.

Lemma outstanding_snoc ns ns' rs r j :
  shape ns' = shape ns -> settled r = false ->
  outstanding (mkTree ns' (rs ++ [r])) j =
  outstanding (mkTree ns rs) j + (if below ns j r then tokens r else 0).
Proof.
  intros Hs Hr. unfold outstanding. simpl. rewrite map_app, Zsum_app. simpl. rewrite Hr. simpl.
  rewrite (below_shape _ _ j r Hs).
  rewrite (Zsum_map_ext _ (fun r => if negb (settled r) && below ns j r then tokens r else 0)); [lia|].
  intros x _. by rewrite (below_shape _ _ j x Hs).
Qed.

Lemma charged_int t log j n : books t log -> nodes t !! j = Some n -> 0 < limit n ->
  0 <= charged n <= MaxInt /\ 0 <= reserved n <= MaxInt.
Proof. intros H Hn Hl. destruct (bk_node _ _ H j n Hn Hl). int_lia. Qed.

Lemma books_reserve t log b ctx p :
  books t log -> in_int p -> books (reserve t b ctx p).1 log.
Proof.
  intros H Hp. pose proof (reserve_spec t b ctx p) as Hr.
  pose proof (shape_reserve t b ctx p) as Hs.
  destruct (reserve t b ctx p) as [t' [k|e]]; simpl in *; [|by subst].
  destruct Hr as (node & need & ok & Hb & _ & Ha & Hf & Hall & -> & _).
  pose proof (bk_static _ _ H) as Hst. pose proof (lookup_lt_Some _ _ _ Hb) as Hlt.
  pose proof (ok_generation _ _ _ (Hst b node Hb)) as Hg.
  assert (in_int need) as Hneed
    by (pose proof (checkedTokenAdd_range p (generation node)) as R; rewrite Ha in R;
        apply R; int_lia).
  assert (Hwf : wf_reservation (nodes t) (mkReservation b p need false)).
  { exists node. split_and!; try done. simpl. intros [? ->]%Hf. split; [done|].
    apply checkedTokenAdd_ok in Ha; int_lia. }
  constructor.
  - by eapply static_shape.
  - intros k' r Hk. apply (wf_reservation_shape (nodes t)); [done|]. simpl in Hk.
    apply lookup_app_Some in Hk as [Hk|[_ Hk]]; [by apply (bk_res _ _ H k')|].
    by apply list_lookup_singleton_Some in Hk as [_ <-].
  - intros s' Hs'. simpl. apply lookup_app_l_Some. by apply (bk_log _ _ H).
  - apply (bk_once _ _ H).
  - intros j n' Hn' Hl. simpl in Hn'. rewrite lookup_update_chain in Hn' by (by apply chain_NoDup).
    assert (exists n, nodes t !! j = Some n /\
      n' = if below (nodes t) j (mkReservation b p need false) then reserve_node need n else n)
      as (n & Hn & ->).
    { unfold below. simpl. case_bool_decide; [|by eauto].
      apply fmap_Some in Hn' as (n & ? & ->). eauto. }
    assert (0 < limit n) as Hl'
      by (destruct (below _ _ _); [|done]; unfold reserve_node in Hl; by destruct (0 <? limit n)).
    destruct (charged_int _ _ _ _ H Hn Hl') as [Hc Hrs].
    destruct (bk_node _ _ H j n Hn Hl') as [B1 B2 B3 B4 B5].
    pose proof (charges_shape _ _ log j Hs) as Es. pose proof (excess_shape _ _ log j Hs) as Ex.
    pose proof (excess_nonneg (nodes t) log j).
    assert (outstanding (reserved_tree t b p need) j = outstanding t j +
      if below (nodes t) j (mkReservation b p need false) then need else 0) as Eo
      by exact (outstanding_snoc _ _ (reservations t) (mkReservation b p need false) j Hs eq_refl).
    destruct (below (nodes t) j _) eqn:Hbl.
    + destruct (below_finite _ _ _ _ Hst Hn Hl' Hbl Hwf) as [_ Ht]. simpl in Ht.
      unfold below in Hbl. apply bool_decide_eq_true in Hbl.
      pose proof (all_nodes_lookup _ _ _ _ _ Hall Hbl Hn) as Had.
      apply admits_limited in Had as [Had _]; [|int_lia..].
      pose proof (ok_int _ _ _ (Hst j n Hn)). clear Hn'.
      unfold reserve_node. destruct (Z.ltb_spec 0 (limit n)); [|lia].
      constructor; cbn [reserved charged limit set_reserved];
        rewrite ?Es, ?Ex, ?wrap_int_id by int_lia; try int_lia.
    + clear Hn'. constructor; rewrite ?Es, ?Ex; try done.
      rewrite Eo. lia.
Qed.

(** Settling. *)
Lemma settle_spec t log k r mr callErr :
  books t log -> reservations t !! k = Some r -> settled r = false ->
  exists b, nodes t !! run r = Some b /\
    let charge := charge_of r mr callErr in
    let ns := if overruns b r mr charge then alter set_overrun (run r) (nodes t) else nodes t in
    shape ns = shape (nodes t) /\
    settle t k mr callErr =
      mkTree (update_chain (fun i => settle_node (bool_decide (i = run r)) r charge (mr_Usage mr)
                                       (negb (opt_b callErr))) (chain (nodes t) (run r)) ns)
        (alter set_settled k (reservations t)).
Proof.
  intros H Hk Hr. destruct (bk_res _ _ H k r Hk) as (b & Hb & _). exists b. split; [done|].
  cbn zeta. split; [apply shape_overrun|]. unfold settle. rewrite Hk, Hr, Hb.
  by rewrite (chain_shape _ (nodes t) (run r)) by apply shape_overrun.
Qed.

Lemma outstanding_settle t t' k r j :
  shape (nodes t') = shape (nodes t) -> reservations t' = alter set_settled k (reservations t) ->
  reservations t !! k = Some r -> settled r = false ->
  outstanding t' j = outstanding t j - (if below (nodes t) j r then tokens r else 0).
Proof.
  intros Hs Hrs Hk Hr. unfold outstanding. rewrite Hrs, (Zsum_map_alter _ _ _ _ r Hk). simpl.
  rewrite Hr. simpl. rewrite (below_shape _ _ j r Hs).
  rewrite (Zsum_map_ext _ (fun r => if negb (settled r) && below (nodes t) j r then tokens r else 0)
             (reservations t)); [lia|].
  intros x _. by rewrite (below_shape _ _ j x Hs).
Qed.

Lemma charges_snoc ns log s j :
  charges ns (log ++ [s]) j =
  charges ns log j + if below ns j (s_reservation s) then s_charge s else 0.
Proof. unfold charges. rewrite map_app, Zsum_app. simpl. lia. Qed.

Lemma excess_snoc ns log s j :
  excess ns (log ++ [s]) j =
  excess ns log j + if below ns j (s_reservation s)
                    then Z.max 0 (s_charge s - tokens (s_reservation s)) else 0.
Proof. unfold excess. rewrite map_app, Zsum_app. simpl. lia. Qed.

(** Membership is settled before: a limited node below which [r] lies holds it. *)
Lemma outstanding_ge t log j n k r :
  books t log -> nodes t !! j = Some n -> 0 < limit n ->
  reservations t !! k = Some r -> settled r = false -> below (nodes t) j r = true ->
  tokens r <= outstanding t j.
Proof.
  intros H Hn Hl Hk Hr Hb. unfold outstanding.
  pose proof (Zsum_map_alter (fun r => if negb (settled r) && below (nodes t) j r then tokens r else 0)
    set_settled _ k r Hk) as E. simpl in E. rewrite Hr, Hb in E. simpl in E.
  match type of E with ?a = _ => assert (0 <= a) end; [|lia].
  apply Zsum_map_nonneg. intros x [i Hi]%list_elem_of_lookup_1.
  destruct (negb (settled x) && below (nodes t) j x) eqn:Ex; [|lia].
  apply andb_true_iff in Ex as [Ex1 Ex2].
  assert (reservations t !! i = Some x) as Hix.
  { destruct (decide (i = k)) as [->|Hik]; [|by rewrite list_lookup_alter_ne in Hi].
    rewrite list_lookup_alter_eq, Hk in Hi. by simplify_eq/=. }
  eapply below_finite; [apply H|done..|]. by apply (bk_res _ _ H i).
Qed.

Lemma books_node_settle t t' log k r j n n' c own u ok :
  books t log -> nodes t !! j = Some n -> 0 < limit n ->
  shape (nodes t') = shape (nodes t) ->
  charged n' = charged n -> reserved n' = reserved n -> limit n' = limit n ->
  in_int c -> (0 <= prompt r -> 0 <= c) -> wf_reservation (nodes t) r ->
  outstanding t' j = outstanding t j - (if below (nodes t) j r then tokens r else 0) ->
  (below (nodes t) j r = true -> tokens r <= outstanding t j) ->
  node_books t' (log ++ [mkSettlement k r c]) j
    (if below (nodes t) j r then settle_node own r c u ok n' else n').
Proof.
  intros H Hn Hl Hs Ec Er El Hc Hc0 Hwf Ho Hge.
  destruct (charged_int _ _ _ _ H Hn Hl) as [Hci Hri].
  destruct (bk_node _ _ H j n Hn Hl) as [B1 B2 B3 B4 B5].
  pose proof (charges_shape _ _ (log ++ [mkSettlement k r c]) j Hs) as Es.
  pose proof (excess_shape _ _ (log ++ [mkSettlement k r c]) j Hs) as Ex.
  rewrite (charges_snoc (nodes t)) in Es. rewrite (excess_snoc (nodes t)) in Ex. simpl in Es, Ex.
  destruct (below (nodes t) j r) eqn:Hbl.
  - specialize (Hge eq_refl).
    destruct (below_finite _ _ _ _ (bk_static _ _ H) Hn Hl Hbl Hwf) as [Hpr Htk].
    specialize (Hc0 Hpr).
    pose proof (saturatedTokenAdd_nonneg (charged n) c ltac:(int_lia) Hc ltac:(lia) Hc0) as Hsat.
    assert (0 < limit n') as Hl' by lia. apply Z.ltb_lt in Hl'.
    constructor; unfold settle_node; rewrite ?Hl';
      cbn [reserved charged limit]; rewrite ?Ec, ?Er, ?El, ?Es, ?Ex, ?Ho, ?Hsat,
        ?wrap_int_id by int_lia; int_lia.
  - constructor; rewrite ?Ec, ?Er, ?El, ?Es, ?Ex, ?Ho; int_lia.
Qed.

Lemma overrun_lookup (o : bool) (i : nat) (ns : list runBudget) (j : nat) m :
  (if o then alter set_overrun i ns else ns) !! j = Some m ->
  exists n, ns !! j = Some n /\ charged m = charged n /\ reserved m = reserved n /\ limit m = limit n.
Proof.
  destruct o; [|by eauto]. destruct (decide (i = j)) as [<-|Hij].
  - rewrite list_lookup_alter_eq. intros (n & -> & ->)%fmap_Some. by exists n.
  - rewrite list_lookup_alter_ne by done. by eauto.
Qed.

Lemma books_settle t log k r mr callErr :
  books t log -> wf_usage (mr_Usage mr) -> reservations t !! k = Some r ->
  books (settle t k mr callErr)
    (log ++ if settled r then [] else [mkSettlement k r (charge_of r mr callErr)]).
Proof.
  intros H Hu Hk. destruct (settled r) eqn:Hr.
  { rewrite app_nil_r. unfold settle. by rewrite Hk, Hr. }
  pose proof (bk_res _ _ H k r Hk) as Hwf. pose proof (bk_static _ _ H) as Hst.
  pose proof (shape_settle t k mr callErr) as Hs.
  destruct (settle_spec _ _ _ _ mr callErr H Hk Hr) as (b & Hb & Hns & E).
  pose proof Hwf as (b' & Hb' & Hpi & Hti & Hfi).
  destruct (charge_range r mr callErr Hu Hpi Hti) as [Hc Hc0].
  assert (Ers : reservations (settle t k mr callErr) = alter set_settled k (reservations t))
    by by rewrite E.
  pose proof (fun j => outstanding_settle t _ k r j Hs Ers Hk Hr) as Ho.
  constructor.
  - by eapply static_shape.
  - intros i x Hi. apply (wf_reservation_shape (nodes t)); [done|]. rewrite Ers in Hi.
    destruct (decide (i = k)) as [->|Hik].
    + rewrite list_lookup_alter_eq, Hk in Hi. simpl in Hi. injection Hi as <-. exact Hwf.
    + rewrite list_lookup_alter_ne in Hi by done. by apply (bk_res _ _ H i).
  - intros x [Hx| ->%list_elem_of_singleton]%elem_of_app; rewrite Ers.
    + pose proof (bk_log _ _ H x Hx) as Hx'. destruct (decide (s_index x = k)) as [Ek|Hik].
      * rewrite Ek, Hk in Hx'. simplify_eq.
      * by rewrite list_lookup_alter_ne.
    + simpl. by rewrite list_lookup_alter_eq, Hk.
  - rewrite map_app. apply NoDup_app. split_and!; [apply (bk_once _ _ H)| |apply NoDup_singleton].
    intros i Hi Hi'%list_elem_of_singleton. simpl in Hi'. subst i.
    apply list_elem_of_In, in_map_iff in Hi as (x & Ex & Hx%list_elem_of_In).
    pose proof (bk_log _ _ H x Hx) as Hx'. rewrite Ex, Hk in Hx'. by simplify_eq.
  - rewrite E. intros j n' Hn' Hl. cbn [nodes] in Hn'.
    rewrite lookup_update_chain in Hn' by (apply chain_NoDup; [done|by eapply lookup_lt_Some]).
    set (ns := if overruns _ _ _ _ then _ else _) in *.
    assert (exists n m, nodes t !! j = Some n /\ charged m = charged n /\ reserved m = reserved n /\
      limit m = limit n /\ n' = if below (nodes t) j r
        then settle_node (bool_decide (j = run r)) r (charge_of r mr callErr) (mr_Usage mr)
               (negb (opt_b callErr)) m else m) as (n & m & Hn & Ec & Er & El & ->).
    { assert (exists m, ns !! j = Some m /\ n' = if below (nodes t) j r
        then settle_node (bool_decide (j = run r)) r (charge_of r mr callErr) (mr_Usage mr)
               (negb (opt_b callErr)) m else m) as (m & Hm & ->).
      { unfold below. case_bool_decide; [|by eauto]. apply fmap_Some in Hn' as (m & ? & ->). eauto. }
      destruct (overrun_lookup _ _ _ _ _ Hm) as (n & ? & ? & ? & ?). by exists n, m. }
    assert (0 < limit n) as Hl' by (rewrite <- El; by destruct (below _ _ _)).
    rewrite E in Hs, Ho. eapply books_node_settle; try done.
    intros Hbl. by eapply outstanding_ge.
Qed.

(** Opening a run and closing one. *)
Lemma books_new t log ctx req :
  books t log -> live t ctx -> wf_request req -> books (newRunBudget t ctx req).1.1.1 log.
Proof.
  intros H Hl Hreq. pose proof (bk_static _ _ H) as Hst.
  pose proof (static_new t ctx req Hst Hl Hreq) as Hst'.
  assert (exists b, nodes (newRunBudget t ctx req).1.1.1 = nodes t ++ [b] /\
    reservations (newRunBudget t ctx req).1.1.1 = reservations t /\ charged b = 0 /\ reserved b = 0)
    as (b & En & Er & Hc & Hr)
    by (unfold newRunBudget; destruct (0 <? run_generation _ _ _); simpl; by eexists).
  set (t' := (newRunBudget t ctx req).1.1.1) in *. rewrite En in Hst'.
  assert (Hbl : forall j r, wf_reservation (nodes t) r -> below (nodes t') j r = below (nodes t) j r).
  { intros j r Hwf%wf_reservation_lt. unfold below. by rewrite En, chain_extend. }
  assert (Hlog : forall s, s ∈ log -> wf_reservation (nodes t) (s_reservation s)).
  { intros s Hs. pose proof (bk_res _ _ H _ _ (bk_log _ _ H s Hs)) as (n & Hn & ?). by exists n. }
  assert (Ho : forall j, outstanding t' j = outstanding t j).
  { intros j. unfold outstanding. rewrite Er. apply Zsum_map_ext. intros r [k Hk]%list_elem_of_lookup_1.
    by rewrite Hbl by (by apply (bk_res _ _ H k)). }
  assert (Hch : forall j, charges (nodes t') log j = charges (nodes t) log j).
  { intros j. apply Zsum_map_ext. intros s Hs. by rewrite Hbl by auto. }
  assert (Hex : forall j, excess (nodes t') log j = excess (nodes t) log j).
  { intros j. apply Zsum_map_ext. intros s Hs. by rewrite Hbl by auto. }
  constructor; rewrite ?En, ?Er; try apply H; [done| |].
  - intros k r Hk. destruct (bk_res _ _ H k r Hk) as (n & Hn & ?). exists n.
    split; [by apply lookup_app_l_Some|done].
  - intros j n Hn Hlim. apply lookup_app_Some in Hn as [Hn|[Hj Hn]].
    + destruct (bk_node _ _ H j n Hn Hlim). constructor; by rewrite ?Ho, ?Hch, ?Hex.
    + apply list_lookup_singleton_Some in Hn as [Hj' <-].
      assert (Hnone : forall r, wf_reservation (nodes t) r -> below (nodes t) j r = false).
      { intros r Hwf%wf_reservation_lt. unfold below. apply bool_decide_eq_false_2. intros Hin.
        apply chain_le in Hin; [lia|done|done]. }
      assert (outstanding t j = 0 /\ charges (nodes t) log j = 0 /\ excess (nodes t) log j = 0)
        as (O1 & O2 & O3).
      { split_and!; (etrans; [apply (Zsum_map_ext _ (fun _ => 0))|apply Zsum_map_zero]).
        - intros r [k Hk]%list_elem_of_lookup_1. rewrite Hnone by (by apply (bk_res _ _ H k)).
          by rewrite andb_false_r.
        - intros s Hs. by rewrite Hnone by auto.
        - intros s Hs. by rewrite Hnone by auto. }
      constructor; rewrite ?Ho, ?Hch, ?Hex, ?O1, ?O2, ?O3, ?Hc, ?Hr; int_lia.
Qed.

Lemma books_close t log b : books t log -> books (close t b).1 log.
Proof.
  intros H. pose proof (shape_close t b) as Hs. constructor.
  - eapply static_shape; [by symmetry|apply H].
  - intros k r Hk. apply (wf_reservation_shape (nodes t)); [done|]. by apply (bk_res _ _ H k).
  - apply (bk_log _ _ H).
  - apply (bk_once _ _ H).
  - intros j n' Hn' Hl. simpl in Hn'.
    assert (exists n, nodes t !! j = Some n /\ charged n' = charged n /\ reserved n' = reserved n /\
      limit n' = limit n) as (n & Hn & Ec & Er & El).
    { destruct (decide (b = j)) as [<-|Hbj].
      - rewrite list_lookup_alter_eq in Hn'. apply fmap_Some in Hn' as (n & -> & ->). by exists n.
      - rewrite list_lookup_alter_ne in Hn' by done. by exists n'. }
    destruct (bk_node _ _ H j n Hn ltac:(lia)).
    assert (outstanding (close t b).1 j = outstanding t j) as Ho.
    { apply Zsum_map_ext. intros r _. by rewrite (below_shape _ _ _ _ Hs). }
    constructor; rewrite ?Ec, ?Er, ?El, ?Ho, ?(charges_shape _ _ _ _ Hs), ?(excess_shape _ _ _ _ Hs);
      done.
Qed.

Lemma books_step t log ev t' : books t log -> budget_step t ev t' -> books t' (log ++ ev).
Proof.
  intros H []; rewrite ?app_nil_r; eauto using books_new, books_reserve, books_settle, books_close.
Qed.

Lemma books_run t log : budget_run t log -> books t log.
Proof.
  induction 1 as [|t log ev t' _ IH Hstep]; [|by eapply books_step].
  constructor; simpl; [by intros [|?] ?|by intros [|?] ?| |constructor|by intros [|?] ?].
  by intros s ?%elem_of_nil.
Qed.

(** ** Stopping is final *)

Lemma charged_settle t log k r mr callErr j n :
  books t log -> wf_usage (mr_Usage mr) -> reservations t !! k = Some r ->
  nodes t !! j = Some n -> exhausted n = true ->
  exists n', nodes (settle t k mr callErr) !! j = Some n' /\ exhausted n' = true.
Proof.
  intros H Hu Hk Hn Hex. destruct (settled r) eqn:Hr.
  { unfold settle. rewrite Hk, Hr. by exists n. }
  destruct (settle_spec _ _ _ _ mr callErr H Hk Hr) as (b & Hb & _ & ->). cbn [nodes].
  pose proof (bk_res _ _ H k r Hk) as Hwf. pose proof (wf_reservation_lt _ _ Hwf).
  rewrite lookup_update_chain by (apply chain_NoDup; [apply H|done]).
  set (ns := if overruns _ _ _ _ then _ else _).
  assert (exists m, ns !! j = Some m /\ exhausted m = true /\ charged m = charged n /\
    limit m = limit n) as (m & Hm & Hem & Ec & El).
  { unfold ns. destruct (overruns _ _ _ _); [|by exists n].
    destruct (decide (run r = j)) as [<-|Hj].
    - rewrite list_lookup_alter_eq, Hn. eexists. split_and!; try done.
      unfold exhausted. simpl. by rewrite orb_true_r.
    - rewrite list_lookup_alter_ne by done. by exists n. }
  case_bool_decide as Hin; [|by exists m]. rewrite Hm. eexists. split; [done|].
  unfold exhausted in *. simpl. destruct (closed m), (overrun m); try done. simpl in *. to_prop.
  rewrite (proj2 (Z.ltb_lt 0 (limit m))) by done. simpl. apply Z.leb_le.
  destruct (charged_int _ _ _ _ H Hn ltac:(lia)) as [? _].
  destruct (charge_range r mr callErr Hu) as [Hc Hc0]; [destruct Hwf as (?&?&?&?&?); done..|].
  destruct (below_finite _ _ _ r (bk_static _ _ H) Hn ltac:(lia)) as [Hp _];
    [by apply bool_decide_eq_true_2|done|].
  rewrite Ec. pose proof (saturatedTokenAdd_le (charged n) _ ltac:(int_lia) Hc ltac:(lia) (Hc0 Hp)).
  lia.
Qed.

Lemma exhausted_step t log ev t' j n :
  books t log -> budget_step t ev t' -> nodes t !! j = Some n -> exhausted n = true ->
  exists n', nodes t' !! j = Some n' /\ exhausted n' = true.
Proof.
  intros H Hstep Hn Hex. destruct Hstep as [ctx req Hl Hreq|b ctx p Hp|k r mr callErr Hu Hk|b].
  - exists n. split; [|done].
    assert (exists b, nodes (newRunBudget t ctx req).1.1.1 = nodes t ++ [b]) as (b & ->)
      by (unfold newRunBudget; destruct (0 <? run_generation _ _ _); simpl; by eexists).
    by apply lookup_app_l_Some.
  - pose proof (reserve_spec t b ctx p) as Hr.
    destruct (reserve t b ctx p) as [t1 [k|e]]; simpl; [|subst; by exists n].
    destruct Hr as (node & need & ok & Hb & _ & _ & _ & _ & -> & _). simpl.
    pose proof (lookup_lt_Some _ _ _ Hb).
    rewrite lookup_update_chain by (apply chain_NoDup; [apply H|done]).
    case_bool_decide; [|by exists n]. rewrite Hn. eexists. split; [done|].
    unfold reserve_node. destruct (0 <? limit n); [|done]. exact Hex.
  - by eapply charged_settle.
  - simpl. destruct (decide (b = j)) as [<-|Hbj].
    + rewrite list_lookup_alter_eq, Hn. eexists. split; [done|]. done.
    + rewrite list_lookup_alter_ne by done. by exists n.
Qed.

Lemma chain_step t log ev t' b :
  books t log -> budget_step t ev t' -> (b < length (nodes t))%nat ->
  chain (nodes t') b = chain (nodes t) b /\ (b < length (nodes t'))%nat.
Proof.
  intros H Hstep Hb. pose proof (books_step _ _ _ _ H Hstep) as H'.
  destruct Hstep as [ctx req Hl Hreq|c ctx p Hp|k r mr callErr Hu Hk|c].
  - pose proof (bk_static _ _ H') as Hst'.
    assert (exists m, nodes (newRunBudget t ctx req).1.1.1 = nodes t ++ [m]) as (m & Em)
      by (unfold newRunBudget; destruct (0 <? run_generation _ _ _); simpl; by eexists).
    rewrite Em in *. rewrite chain_extend by (done || apply H). rewrite length_app. split; [done|lia].
  - rewrite (chain_shape _ _ b (shape_reserve t c ctx p)).
    by rewrite (shape_length _ _ (shape_reserve t c ctx p)).
  - rewrite (chain_shape _ _ b (shape_settle t k mr callErr)).
    by rewrite (shape_length _ _ (shape_settle t k mr callErr)).
  - rewrite (chain_shape _ _ b (shape_close t c)). by rewrite (shape_length _ _ (shape_close t c)).
Qed.

Lemma stopped_iff t b :
  stopped t b = true <-> exists j n, j ∈ chain (nodes t) b /\ nodes t !! j = Some n /\ exhausted n = true.
Proof.
  unfold stopped, all_nodes. induction (chain (nodes t) b) as [|i l IH]; simpl.
  { split; [done|]. by intros (j & n & Hj%elem_of_nil & _). }
  rewrite negb_andb, orb_true_iff, IH. split.
  - intros [Hi|(j & n & Hj & H)]; [|exists j, n; split; [by right|done]].
    destruct (nodes t !! i) as [n|] eqn:Hn; [|done]. exists i, n. split_and!; [by left|done|].
    by destruct (exhausted n).
  - intros (j & n & [->|Hj]%elem_of_cons & Hn & Hex); [left; by rewrite Hn, Hex|right].
    by exists j, n.
Qed.

Lemma stopped_later t log b t' :
  books t log -> budget_later t t' -> stopped t b = true -> (b < length (nodes t))%nat ->
  (exists log', books t' log') /\ stopped t' b = true /\ (b < length (nodes t'))%nat.
Proof.
  intros H Hl Hs Hb. induction Hl as [|t1 ev t2 Hl IH Hstep]; [by eauto|].
  destruct IH as ([log1 H1] & Hs1 & Hb1). split; [by eauto using books_step|].
  destruct (chain_step _ _ _ _ b H1 Hstep Hb1) as [Ec Hb2]. split; [|done].
  apply stopped_iff in Hs1 as (j & n & Hj & Hn & Hex). apply stopped_iff.
  destruct (exhausted_step _ _ _ _ _ _ H1 Hstep Hn Hex) as (n' & Hn' & Hex').
  exists j, n'. by rewrite Ec.
Qed.

Lemma reserve_stopped t log b c ctx p :
  books t log -> stopped t b = true -> b ∈ chain (nodes t) c -> (c < length (nodes t))%nat ->
  exists e, reserve t c ctx p = (t, Err e).
Proof.
  intros H Hs Hbc Hc. pose proof (reserve_spec t c ctx p) as Hr.
  destruct (reserve t c ctx p) as [t1 [k|e]]; [|subst; eauto].
  destruct Hr as (node & need & ok & _ & _ & _ & _ & Hall & _). exfalso.
  apply stopped_iff in Hs as (j & n & Hj & Hn & Hex).
  pose proof (chain_trans _ _ _ _ (bk_static _ _ H) Hc Hbc Hj) as Hjc.
  pose proof (all_nodes_lookup _ _ _ _ _ Hall Hjc Hn) as Had. unfold admits in Had.
  by rewrite Hex in Had.
Qed.

(** ** The properties *)

(** C23: in every tree any sequence of calls can build, a limited run's
    [reserved] is the sum of the outstanding reservations of its subtree,
    its [charged] the (saturated) sum of the charges settled in it, each
    reservation settled at most once; and the two together exceed the limit by
    at most what settlements charged beyond their own reservation. *)
Theorem budget_accounts t log j n :
  budget_run t log -> nodes t !! j = Some n -> 0 < limit n ->
  reserved n = outstanding t j /\
  charged n = Z.min MaxInt (charges (nodes t) log j) /\
  NoDup (map s_index log) /\
  charged n + reserved n <= limit n + excess (nodes t) log j.
Proof.
  intros H%books_run Hn Hl. destruct (bk_node _ _ H j n Hn Hl). split_and!; try done. apply H.
Qed.

(** a run that has stopped (closed, overrun, or its allowance spent, it or
    a run around it) never admits another call, nor does any run nested in it,
    whatever happens afterwards; the failed attempts change nothing, and
    closing a run stops it. *)
Theorem budget_stop_final t log b t' c ctx p :
  budget_run t log -> (b < length (nodes t))%nat ->
  stopped (close t b).1 b = true /\
  (stopped t b = true -> budget_later t t' -> (c < length (nodes t'))%nat ->
   b ∈ chain (nodes t') c ->
   stopped t' b = true /\ exists e, reserve t' c ctx p = (t', Err e)).
Proof.
  intros H%books_run Hb. split.
  - apply stopped_iff. destruct (lookup_lt_is_Some_2 _ _ Hb) as [n Hn].
    exists b, (close_node n). simpl. rewrite list_lookup_alter_eq, Hn. split_and!; try done.
    rewrite (chain_shape _ (nodes t)) by apply (shape_close t b).
    apply chain_self; [apply H|done].
  - intros Hs Hl Hc Hbc. destruct (stopped_later _ _ _ _ H Hl Hs Hb) as ([log' H'] & Hs' & _).
    split; [done|]. by eapply reserve_stopped.
Qed.

(** capacities are nested: a run has at most the input ceiling, the steps
    and (where one is set) the generation cap of every run around it, is finite
    when one of them is, and a finite run always has a generation cap, so that
    each of its reservations covers its prompt and that cap.  All of them stay
    positive 64-bit integers. *)
Theorem budget_caps_nested t log i n j p :
  budget_run t log -> nodes t !! i = Some n -> j ∈ chain (nodes t) i -> nodes t !! j = Some p ->
  0 < input n <= input p /\ 0 < steps n <= steps p /\
  (0 < generation p -> 0 < generation n <= generation p) /\
  (finite p = true -> finite n = true /\ 0 < generation n) /\
  (0 < limit p -> finite p = true) /\
  (forall k r, reservations t !! k = Some r -> run r = i -> finite n = true ->
     0 <= prompt r /\ tokens r = prompt r + generation n /\ in_int (tokens r)).
Proof.
  intros H%books_run Hn Hj Hp. pose proof (bk_static _ _ H) as Hst.
  assert (Hcap : input n <= input p /\ steps n <= steps p /\
    (0 < generation p -> 0 < generation n <= generation p)).
  { clear H. pose proof (lookup_lt_Some _ _ _ Hn) as Hi. revert n Hn Hj. pattern i.
    apply (chain_ind (nodes t)); [done| |done]. intros k m Hm IH n Hn.
    assert (n = m) as -> by congruence. rewrite (chain_unfold _ _ _ Hst Hm).
    intros [->|Hj]%elem_of_cons; [assert (m = p) as -> by congruence; lia|].
    destruct (parent m) as [l|] eqn:E; [|by apply not_elem_of_nil in Hj].
    pose proof (ok_parent _ _ _ (Hst k m Hm) l E). pose proof (lookup_lt_Some _ _ _ Hm).
    destruct (lookup_lt_is_Some_2 (nodes t) l ltac:(lia)) as [q Hq].
    destruct (ok_nested _ _ _ (Hst k m Hm) l q E Hq) as (? & ? & ? & _).
    destruct (IH l eq_refl q Hq Hj) as (? & ? & ?). split_and!; lia. }
  destruct (Hst i n Hn) as [_ _ _ Hin Hstp _ Hfg _]. destruct (Hst j p Hp) as [_ Hlp _ _ _ _ _ _].
  destruct Hcap as (? & ? & ?). split_and!; try done; try lia.
  - intros Hf. pose proof (finite_below _ _ _ _ _ Hst Hn Hj Hp Hf) as Hfn. auto.
  - intros k r Hk <- Hf. destruct (bk_res _ _ H k r Hk) as (m & Hm & _ & Ht & Hfr).
    assert (m = n) as -> by congruence. destruct (Hfr Hf). done.
Qed.

(** what a finite run is charged for a call.  A call whose content was
    denied costs nothing and stops nothing.  Otherwise a failed call, unusable
    or missing counters and several attempts keep at least the whole
    reservation, and a clean report is charged at the larger prompt plus the
    completion, or the reported total.  A call that respects the generation cap
    never stops the run, however far the prompt estimate was off, and costs no
    more than its reservation when the estimate was not too low. *)
Theorem settle_charges b r mr callErr :
  finite b = true -> 0 <= generation b <= MaxInt -> 0 <= prompt r ->
  tokens r = prompt r + generation b -> tokens r <= MaxInt -> wf_usage (mr_Usage mr) ->
  let u := mr_Usage mr in
  let c := charge_of r mr callErr in
  let clean := negb (opt_b callErr) && valid u && negb (PromptTokens u =? 0) &&
               negb (multi (mr_RouteOutcome mr)) && negb (multi (resp_RouteOutcome mr)) in
  (isDenied callErr = true -> c = 0 /\ overruns b r mr c = false) /\
  (isDenied callErr = false -> clean = false -> tokens r <= c) /\
  (clean = true ->
     c = Z.max (Z.min MaxInt (Z.max (prompt r) (PromptTokens u) + CompletionTokens u)) (TotalTokens u)) /\
  (CompletionTokens u <= generation b ->
   TotalTokens u <= Z.max 0 (PromptTokens u) + Z.max 0 (CompletionTokens u) ->
   overruns b r mr c = false /\ (PromptTokens u <= prompt r -> c <= tokens r)).
Proof.
  intros Hf Hg Hp Ht Htm (Hpu & Hcu & Htu & _). cbn zeta.
  set (u := mr_Usage mr) in *. unfold overruns, charge_of. fold u. rewrite Hf. simpl.
  assert (saturatedTokenAdd (Z.max (prompt r) (PromptTokens u)) (Z.max 0 (CompletionTokens u)) =
    Z.min MaxInt (Z.max (prompt r) (PromptTokens u) + Z.max 0 (CompletionTokens u))) as Hsat
    by (apply saturatedTokenAdd_nonneg; int_lia).
  rewrite Hsat. set (m := multi _ || multi _).
  replace (negb (opt_b callErr) && valid u && negb (PromptTokens u =? 0) &&
    negb (multi (mr_RouteOutcome mr)) && negb (multi (resp_RouteOutcome mr)))
    with (negb (opt_b callErr || negb (valid u) || (PromptTokens u =? 0) || m))
    by (unfold m; destruct (opt_b callErr), (valid u), (PromptTokens u =? 0), (multi _), (multi _);
        reflexivity).
  assert (isDenied callErr = true -> opt_b callErr = true) as Hd by (by destruct callErr).
  assert (valid u = true -> 0 <= CompletionTokens u) as Hv
    by (unfold valid; destruct (checkedTokenAdd _ _); intros; to_prop; done).
  destruct (opt_b callErr || negb (valid u) || (PromptTokens u =? 0) || m) eqn:Hk; simpl.
  - destruct (isDenied callErr); split_and!; try done; intros;
      rewrite ?wrap_int_id by int_lia; rewrite ?Z.ltb_ge; try split; try intros; int_lia.
  - apply orb_false_iff in Hk as [[[E1 E2]%orb_false_iff _]%orb_false_iff _].
    apply negb_false_iff, Hv in E2.
    destruct (isDenied callErr); [rewrite Hd in E1 by done; done|].
    split_and!; try done; intros; rewrite ?wrap_int_id by int_lia; rewrite ?Z.ltb_ge;
      try split; try intros; int_lia.
Qed.

(** ** A concrete tree

    A run allowed 5000 tokens starts a nested one, which reserves a call of 300
    prompt tokens and settles it at 350 prompt and 200 completion tokens. *)
Definition demo_new : Tree :=
  (newRunBudget (newRunBudget (mkTree [] []) (mkContext None None) (mkRunRequest 0 1000 5000 0 0)).1.1.1
     (mkContext (Some 0%nat) None) (mkRunRequest 4096 0 0 4 0)).1.1.1.
Definition demo_reserved : Tree := (reserve demo_new 1 (mkContext (Some 1%nat) None) 300).1.
Definition demo_result : ModelResult := mkModelResult (mkUsage 350 200 550 0 false 0 false 0 false) None None.
Definition demo_reservation : tokenReservation := mkReservation 1 300 1300 false.
Definition demo_settled : Tree := settle demo_reserved 0 demo_result None.

Lemma demo_run_reserved : budget_run demo_reserved [].
Proof.
  assert (forall t, budget_run t [] -> forall ctx req, live t ctx -> wf_request req ->
    budget_run (newRunBudget t ctx req).1.1.1 []) as Hnew
    by (intros t H ctx req Hl Hr; exact (run_step _ [] [] _ H (step_new t ctx req Hl Hr))).
  assert (budget_run demo_new []) as H.
  { apply Hnew; [apply Hnew; [apply run_init|by intros ?|]|intros b [= <-]; simpl; lia|];
      unfold wf_request; simpl; int_lia. }
  refine (run_step _ [] [] _ H (step_reserve _ _ _ _ _)). int_lia.
Qed.

Lemma demo_run_settled : budget_run demo_settled [mkSettlement 0 demo_reservation 550].
Proof.
  refine (run_step _ [] _ _ demo_run_reserved (step_settle _ 0 demo_reservation demo_result None _ _)).
  - unfold wf_usage. simpl. int_lia.
  - reflexivity.
Qed.

Lemma budget_accounts_witness :
  exists n, nodes demo_settled !! 0%nat = Some n /\ charged n = 550 /\ reserved n = 0 /\
    charged n + reserved n <= limit n + 0.
Proof.
  eexists. split; [reflexivity|].
  destruct (budget_accounts demo_settled _ 0 _ demo_run_settled eq_refl ltac:(reflexivity))
    as (_ & _ & _ & H).
  split_and!; [reflexivity|reflexivity|exact H].
Defined.

Lemma budget_stop_final_witness :
  stopped (close demo_reserved 0).1 0 = true /\
  exists e, reserve (close demo_reserved 0).1 1 (mkContext (Some 1%nat) None) 10 =
            ((close demo_reserved 0).1, Err e).
Proof.
  assert (budget_run (close demo_reserved 0).1 []) as Hc
    by exact (run_step _ [] [] _ demo_run_reserved (step_close _ 0)).
  split.
  - apply (budget_stop_final demo_reserved [] 0 demo_reserved 0 (mkContext None None) 0
             demo_run_reserved). vm_compute. lia.
  - destruct (budget_stop_final (close demo_reserved 0).1 [] 0 (close demo_reserved 0).1 1
      (mkContext (Some 1%nat) None) 10 Hc) as [_ H]; [vm_compute; lia|].
    apply H; [reflexivity|apply later_refl|vm_compute; lia|vm_compute; right; left].
Defined.

Lemma budget_caps_nested_witness :
  exists n p, nodes demo_reserved !! 1%nat = Some n /\ nodes demo_reserved !! 0%nat = Some p /\
    limit n = 0 /\ finite n = true /\ 0 < generation n <= generation p.
Proof.
  do 2 eexists. split; [reflexivity|]. split; [reflexivity|].
  destruct (budget_caps_nested demo_reserved [] 1 _ 0 _ demo_run_reserved eq_refl
    ltac:(vm_compute; right; left) eq_refl) as (_ & _ & H & _ & _ & _).
  split_and!; [reflexivity|reflexivity|apply H; reflexivity..].
Defined.

Lemma settle_charges_witness :
  exists b, nodes demo_reserved !! 1%nat = Some b /\
    overruns b demo_reservation demo_result 550 = false /\
    charge_of demo_reservation demo_result None = 550.
Proof.
  eexists. split; [reflexivity|].
  edestruct (settle_charges (mkRunBudget (Some 0%nat) false 4096 1000 4 0 true 0 0 false false
    noUsage false) demo_reservation demo_result None) as (_ & _ & Hc & Ho);
    [reflexivity|vm_compute; split; discriminate|vm_compute; discriminate|reflexivity
    |vm_compute; discriminate|unfold wf_usage; simpl; int_lia|].
  split; [|exact (Hc eq_refl)]. apply Ho; vm_compute; discriminate.
Defined.
