(* ===== verification/ContextSets.v ===== *)
(** * ContextSets: what a tool result may carry instead of its text (agent/context_set.go, contextdepth)

    A context set groups the alternatives of each subject of a tool result, in
    ascending utility; the boundary checks that mixed assembly relies on. *)

From S2P Require Import Prelude GoString GoFloat.

#[local] Open Scope Z_scope.
#[local] Open Scope go_scope.

(** ** Fidelity (contextdepth) *)

Definition DepthInvalid : Z := 0.
Definition DepthL0 : Z := 1.
Definition DepthL1 : Z := 2.
Definition DepthL2 : Z := 3.
Definition depth_Valid (d : Z) : bool := (DepthL0 <=? d) && (d <=? DepthL2).

Definition RepresentationMetadata : Z := 1.
Definition RepresentationGenerated : Z := 2.
Definition RepresentationCompact : Z := 3.
Definition RepresentationVerbatim : Z := 4.
Definition kind_Valid (k : Z) : bool := (RepresentationMetadata <=? k) && (k <=? RepresentationVerbatim).

Record SubjectRef := mkRef { Domain : string; ref_ID : string }.
#[export] Instance SubjectRef_eq_dec : EqDecision SubjectRef.
Proof. solve_decision. Defined.

Definition DomainRAG : string := "rag".
Definition DomainConversation : string := "conversation".
Definition DomainMemory : string := "memory".

Record RepresentationDesc := mkRep { rep_Depth : Z; rep_Kind : Z }.

(** An alternative is described by its representations. *)
Definition AlternativeDesc := list RepresentationDesc.

Definition desc_Valid (d : AlternativeDesc) : bool :=
  negb (len d =? 0) && forallb (fun r => depth_Valid (rep_Depth r) && kind_Valid (rep_Kind r)) d.

Definition desc_Depth (d : AlternativeDesc) : Z :=
  if negb (desc_Valid d) then DepthInvalid
  else fold_left (fun m r => if m <? rep_Depth r then rep_Depth r else m) d DepthInvalid.

(** ** Context sets (context_set.go) *)

Record RetrievedSource := mkRetrievedSource {
  StableKey : string; rs_Source : string; StartLine : Z; EndLine : Z; rs_Score : float64
}.

Record ContextAlternative := mkAlternative { Desc : AlternativeDesc; ca_Content : string; ca_Attrib : option (list RetrievedSource) }.
Record ContextGroup := mkContextGroup { cg_Subject : SubjectRef; Rank : Z; Alternatives : list ContextAlternative }.
Record ContextSet := mkSet { Groups : list ContextGroup; MinVerbatim : Z }.

Definition maxContextGroups : Z := 256.
Definition maxContextAlternatives : Z := 64.

Definition verbatimComponents (d : AlternativeDesc) : Z := len (List.filter (fun r => rep_Kind r =? RepresentationVerbatim) d).

Inductive setError :=
| ErrMinVerbatim (n : Z) | ErrNoGroups | ErrManyGroups (n : Z) | ErrManyAlternatives (group : nat)
| ErrOwnedDomain (group : nat) | ErrUnknownDomain (group : nat) | ErrBlankSubject (group : nat) | ErrDuplicateSubject (group previous : nat)
| ErrNoAlternatives (group : nat) | ErrInvalidDesc (group alt : nat) | ErrEmptyContent (group alt : nat)
| ErrAttribution (group alt : nat) | ErrDecreasing (group alt : nat) (from to : Z).

Fixpoint cardinality_from (i : nat) (gs : list ContextGroup) : option setError :=
  match gs with
  | [] => None
  | g :: gs => if maxContextAlternatives <? len (Alternatives g) then Some (ErrManyAlternatives i) else cardinality_from (S i) gs
  end.

Definition validateContextSetCardinality (s : option ContextSet) : option setError :=
  match s with
  | None => None
  | Some s => if maxContextGroups <? len (Groups s) then Some (ErrManyGroups (len (Groups s))) else cardinality_from 0 (Groups s)
  end.

Fixpoint validate_alternatives (i j : nat) (prevVerbatim : Z) (l : list ContextAlternative) : option setError :=
  match l with
  | [] => None
  | a :: l =>
      let verbatim := verbatimComponents (Desc a) in
      if negb (desc_Valid (Desc a)) then Some (ErrInvalidDesc i j)
      else if bool_decide (ca_Content a = EmptyString) then Some (ErrEmptyContent i j)
      else if opt_b (ca_Attrib a) && (verbatim =? 0) then Some (ErrAttribution i j)
      else if verbatim <? prevVerbatim then Some (ErrDecreasing i j prevVerbatim verbatim)
      else validate_alternatives i (S j) verbatim l
  end.

Fixpoint index_of (r : SubjectRef) (i : nat) (l : list SubjectRef) : option nat :=
  match l with
  | [] => None
  | x :: l => if bool_decide (x = r) then Some i else index_of r (S i) l
  end.

(** The groups after those of [seen]. *)
Fixpoint validate_groups (i : nat) (seen : list SubjectRef) (gs : list ContextGroup) : option setError :=
  match gs with
  | [] => None
  | g :: gs =>
      let r := cg_Subject g in
      if bool_decide (Domain r = DomainConversation) then Some (ErrOwnedDomain i)
      else if negb (bool_decide (Domain r = DomainRAG) || bool_decide (Domain r = DomainMemory)) then Some (ErrUnknownDomain i)
      else if bool_decide (ref_ID r = EmptyString) then Some (ErrBlankSubject i)
      else match index_of r 0 seen with
      | Some prev => Some (ErrDuplicateSubject i prev)
      | None =>
          if len (Alternatives g) =? 0 then Some (ErrNoAlternatives i)
          else match validate_alternatives i 0 0 (Alternatives g) with
          | Some err => Some err
          | None => validate_groups (S i) (seen ++ [r]) gs
          end
      end
  end.

Definition validateContextSet (s : option ContextSet) : option setError :=
  match s with
  | None => None
  | Some set =>
      if MinVerbatim set <? 0 then Some (ErrMinVerbatim (MinVerbatim set))
      else if len (Groups set) =? 0 then Some ErrNoGroups
      else match validateContextSetCardinality s with
      | Some err => Some err
      | None => validate_groups 0 [] (Groups set)
      end
  end.

