(* ===== verification/Compactor.v ===== *)
(** * Compactor: fitting a transcript into a token budget (agent/compactor.go, agent/types.go)

    The transcript is cut into groups that stay whole (a tool call with its
    results, a question with its answer), and groups are dropped, prior history
    first, until the rest fits.  The estimator is a parameter; a Go function
    value that may be nil is an [option]. *)

From S2P Require Import Prelude GoString GoFloat Tokens Request ContextSets.

#[local] Open Scope Z_scope.
#[local] Open Scope go_scope.

(** ** Data *)

Inductive Segment := Elastic | Pinned.

#[export] Instance Segment_eq_dec : EqDecision Segment.
Proof. solve_decision. Defined.

(** The fence of a message is left out: nothing here reads it.  [idx] is the
    runtime tag that identifies a message of the canonical state. *)
Record Message := mkMessage {
  msg : ChatMessage;
  segment : Segment;
  Attrib : option (list RetrievedSource);
  msg_Context : option ContextSet;
  OutputCap : Z;
  idx : Z;
}.

Record State := mkState {
  st_System : string;
  DurableSummary : string;
  st_Messages : list Message;
  systemKeys : list string;
}.

Record PressureThresholds := mkThresholds { Watch : float64; Warn : float64; Critical : float64 }.

Record TokenBudget := mkTokenBudget {
  tb_Input : Z;
  Thresholds : PressureThresholds;
  ToolResultOverhead : Z;
  LowWaterFraction : float64;
}.

Record CompactionReport := mkReport {
  Strategy : string;
  DroppedCount : Z;
  TokensBefore : Z;
  TokensAfter : Z;
}.

(** The errors of assembly; a custom compactor may answer others. *)
Inductive agentError := ErrContextExhausted | OtherError (id : nat).

Record RecencyCompactor := mkCompactor {
  Estimate : option (string -> Z);
  toolResultOverhead : Z;
}.

Inductive compactionGroupKind :=
| groupPinned | groupHistory | groupCompletedTool | groupUnresolvedTool | groupPlainElastic.

#[export] Instance compactionGroupKind_eq_dec : EqDecision compactionGroupKind.
Proof. solve_decision. Defined.

Record compactionGroup := mkGroup {
  g_msgs : list Message;
  g_tokens : Z;
  g_kind : compactionGroupKind;
  g_drop : bool;
  g_overflow : bool;
}.

(** ** Costs *)

(** [len(s)], an [int]: no Go string is longer than [MaxInt] bytes. *)
Definition go_len (s : string) : Z := Z.min MaxInt (slen s).

Definition estimate (rc : RecencyCompactor) (s : string) : Z :=
  match Estimate rc with
  | Some f => f s
  | None => if string_eqb s "" then 0 else 1 +i Z.quot (go_len s -i 1) 4
  end.

(** Successive checked additions, up to the first that overflows. *)
Fixpoint add_all (n : Z) (costs : list Z) : Z * bool :=
  match costs with
  | [] => (n, true)
  | c :: costs =>
      let '(n, ok) := checkedTokenAdd n c in
      if ok then add_all n costs else (n, false)
  end.

(** What a message is charged for besides its content, in the order it is added. *)
Definition extra_costs (rc : RecencyCompactor) (m : Message) : list Z :=
  flat_map (fun tc => [estimate rc (tc_ID tc); estimate rc (tc_Type tc);
                       estimate rc (tc_Name tc); estimate rc (tc_Arguments tc)])
    (ToolCalls (msg m)) ++
  [estimate rc (ToolName (msg m)); estimate rc (ToolCallID (msg m))] ++
  (if string_eqb (Role (msg m)) "tool" then [toolResultOverhead rc] else []).

Definition checkedMessageCost (rc : RecencyCompactor) (m : Message) : Z * bool :=
  add_all (estimate rc (Content (msg m))) (extra_costs rc m).

Definition messageCost (rc : RecencyCompactor) (m : Message) : Z := (checkedMessageCost rc m).1.

(** The loop of [checkedTotal]. *)
Fixpoint checkedSum (rc : RecencyCompactor) (n : Z) (msgs : list Message) : Z * bool :=
  match msgs with
  | [] => (n, true)
  | m :: msgs =>
      let '(cost, costOK) := checkedMessageCost rc m in
      if negb costOK then (cost, false)
      else let '(n, ok) := checkedTokenAdd n cost in
           if negb ok then (n, false) else checkedSum rc n msgs
  end.

Definition checkedTotal (rc : RecencyCompactor) (st : State) : Z * bool :=
  checkedSum rc (estimate rc (st_System st)) (st_Messages st).

Definition total (rc : RecencyCompactor) (st : State) : Z := (checkedTotal rc st).1.

(** ** Groups *)

Definition is_role (r : string) (m : Message) : bool := string_eqb (Role (msg m)) r.
Definition is_segment (s : Segment) (m : Message) : bool := bool_decide (segment m = s).
Definition no_calls (m : Message) : bool := len (ToolCalls (msg m)) =? 0.

Definition pairableExchange (msgs : list Message) (i : nat) : bool :=
  match msgs !! i, msgs !! S i with
  | Some u, Some a =>
      is_segment Elastic u && is_segment Elastic a && is_role "user" u && is_role "assistant" a &&
      no_calls u && no_calls a
  | _, _ => false
  end.

(** How many tool results open a list. *)
Fixpoint tool_run (msgs : list Message) : nat :=
  match msgs with
  | m :: msgs => if is_role "tool" m then S (tool_run msgs) else O
  | [] => O
  end.

Definition chainAt (msgs : list Message) (i : nat) : nat :=
  match msgs !! i with
  | Some m => if no_calls m then i else (i + tool_run (drop (S i) msgs))%nat
  | None => i
  end.

(** The loop of [firstPinnedIndex], from index [i]. *)
Fixpoint firstPinned_from (i leading : Z) (msgs : list Message) : Z :=
  match msgs with
  | [] => -1
  | m :: msgs =>
      if negb (is_segment Pinned m) then firstPinned_from (i + 1) leading msgs
      else if is_role "system" m && (i =? leading) then firstPinned_from (i + 1) (leading + 1) msgs
      else i
  end.

Definition firstPinnedIndex (msgs : list Message) : Z := firstPinned_from 0 0 msgs.

Definition priorHistoryGroup (start fin firstPinned : Z) : bool :=
  (0 <=? firstPinned) && (fin <? firstPinned).

(** [msgs[start : end+1]] *)
Definition slice (msgs : list Message) (start fin : nat) : list Message :=
  take (S fin - start) (drop start msgs).

Definition classifyGroup (msgs : list Message) (start fin : nat) (firstPinned : Z) :
    compactionGroupKind :=
  if existsb (is_segment Pinned) (slice msgs start fin) then groupPinned
  else
    let calls := match msgs !! start with Some m => len (ToolCalls (msg m)) | None => 0 end in
    if priorHistoryGroup (Z.of_nat start) (Z.of_nat fin) firstPinned && (calls =? 0)
    then groupHistory
    else if calls =? 0 then groupPlainElastic
    else if calls <=? Z.of_nat fin - Z.of_nat start then groupCompletedTool
    else groupUnresolvedTool.

(** The cost of a group, and whether it overflowed. *)
Fixpoint group_tokens (rc : RecencyCompactor) (tokens : Z) (msgs : list Message) : Z * bool :=
  match msgs with
  | [] => (tokens, false)
  | m :: msgs =>
      let '(cost, costOK) := checkedMessageCost rc m in
      let '(tokens, addOK) := checkedTokenAdd tokens cost in
      if negb costOK || negb addOK then (MaxInt, true) else group_tokens rc tokens msgs
  end.

(** The last index of the group that starts at [i]. *)
Definition group_end (msgs : list Message) (i : nat) : nat :=
  let fin := chainAt msgs i in
  if bool_decide (fin = i) && pairableExchange msgs i then S i else fin.

Definition group_at (rc : RecencyCompactor) (msgs : list Message) (i : nat) : compactionGroup :=
  let fin := group_end msgs i in
  let '(tokens, overflow) := group_tokens rc 0 (slice msgs i fin) in
  mkGroup (slice msgs i fin) tokens (classifyGroup msgs i fin (firstPinnedIndex msgs)) false overflow.

(** The loop of [groups]; each round moves past its group ([group_end_ge]), so
    one round a message is enough ([groups_fuel]). *)
Fixpoint groups_loop (fuel : nat) (rc : RecencyCompactor) (msgs : list Message) (i : nat) :
    list compactionGroup :=
  match fuel with
  | O => []
  | S fuel =>
      if (i <? length msgs)%nat
      then group_at rc msgs i :: groups_loop fuel rc msgs (S (group_end msgs i))
      else []
  end.

Definition groups (rc : RecencyCompactor) (st : State) : list compactionGroup :=
  groups_loop (length (st_Messages st)) rc (st_Messages st) 0.

(** The search of [newestCurrentRunGroup], over the groups newest first; [i] is
    the index of the first of them. *)
Fixpoint newest_from (i : Z) (gs : list compactionGroup) : Z :=
  match gs with
  | [] => -1
  | g :: gs =>
      match g_kind g with
      | groupPinned => -1
      | groupCompletedTool | groupPlainElastic => i
      | _ => newest_from (i - 1) gs
      end
  end.

Definition newestCurrentRunGroup (gs : list compactionGroup) : Z :=
  newest_from (len gs - 1) (rev gs).

(** ** The fit *)

(** [int(f)] of a finite float64, truncated towards zero. *)
Definition ftrunc (f : float64) : Z :=
  match f with
  | S754_finite s m e =>
      let n := if 0 <=? e then Z.pos m * 2 ^ e else Z.pos m / 2 ^ (- e) in
      if s then - n else n
  | _ => 0
  end.

Definition lowWaterMark (input : Z) (frac : float64) : Z * bool :=
  if negb (flt fzero frac && flt frac fone) then (input, false)
  else (ftrunc (fmul (of_int input) frac), true).

Definition set_drop (g : compactionGroup) : compactionGroup :=
  mkGroup (g_msgs g) (g_tokens g) (g_kind g) true (g_overflow g).

(** The variables [dropKind] captures. *)
Record fitState := mkFit { remaining : Z; arithmeticOK : bool; dropped : Z }.

(** [dropKind], from group [i] on. *)
Fixpoint dropKind (kind : compactionGroupKind) (target keep : Z) (i : nat)
    (gs : list compactionGroup) (s : fitState) : list compactionGroup * fitState :=
  match gs with
  | [] => ([], s)
  | g :: gs' =>
      if negb (arithmeticOK s) || (remaining s <=? target) then (gs, s)
      else if bool_decide (g_kind g = kind) && negb (Z.of_nat i =? keep) then
        let '(r, ok) := checkedTokenSub (remaining s) (g_tokens g) in
        let '(gs', s') := dropKind kind target keep (S i) gs' (mkFit r ok (dropped s +i 1)) in
        (set_drop g :: gs', s')
      else
        let '(gs', s') := dropKind kind target keep (S i) gs' s in (g :: gs', s')
  end.

(** The three passes. *)
Definition fit (target keep : Z) (gs : list compactionGroup) (before : Z) :
    list compactionGroup * fitState :=
  let '(gs, s) := dropKind groupHistory target keep 0 gs (mkFit before true 0) in
  let '(gs, s) := dropKind groupCompletedTool target keep 0 gs s in
  dropKind groupPlainElastic target keep 0 gs s.

Definition kept_messages (gs : list compactionGroup) : list Message :=
  flat_map (fun g => if g_drop g then [] else g_msgs g) gs.

Definition with_overhead (rc : RecencyCompactor) (b : TokenBudget) : RecencyCompactor :=
  mkCompactor (Estimate rc) (ToolResultOverhead b).

(** [Compact]; the recursive call has no low-water mark, so it is the last
    ([compact_terminates]). *)
Fixpoint Compact (fuel : nat) (rc : RecencyCompactor) (st : State) (b : TokenBudget) :
    option (State * CompactionReport * option agentError) :=
  match fuel with
  | O => None
  | S fuel =>
      let rc := with_overhead rc b in
      let report d before after := mkReport "recency" d before after in
      let '(before, ok) := checkedTotal rc st in
      if negb ok then Some (st, report 0 before before, Some ErrContextExhausted)
      else if before <=? tb_Input b then Some (st, report 0 before before, None)
      else
        let gs := groups rc st in
        if existsb g_overflow gs then Some (st, report 0 before MaxInt, Some ErrContextExhausted)
        else
          let '(target, lowWater) := lowWaterMark (tb_Input b) (LowWaterFraction b) in
          let keep := if lowWater then newestCurrentRunGroup gs else -1 in
          let '(gs, s) := fit target keep gs before in
          if lowWater && (target <? remaining s)
          then Compact fuel rc st (mkTokenBudget (tb_Input b) (Thresholds b) (ToolResultOverhead b) fzero)
          else if negb (arithmeticOK s)
          then Some (st, report (dropped s) before MaxInt, Some ErrContextExhausted)
          else
            let out := mkState (st_System st) "" (kept_messages gs) [] in
            let '(after, ok) := checkedTotal rc out in
            if negb ok then Some (out, report (dropped s) before MaxInt, Some ErrContextExhausted)
            else Some (out, report (dropped s) before after, None)
  end.

(** ** The grouping loop *)

Lemma tool_run_length msgs : (tool_run msgs <= length msgs)%nat.
Proof. induction msgs as [|m msgs IH]; simpl; [lia|]. destruct (is_role "tool" m); lia. Qed.

Lemma group_end_range msgs i :
  (i < length msgs)%nat -> (i <= group_end msgs i < length msgs)%nat.
Proof.
  intros Hi. unfold group_end.
  assert (i <= chainAt msgs i < length msgs)%nat as Hc.
  { unfold chainAt. destruct (lookup_lt_is_Some_2 msgs i Hi) as [m ->].
    destruct (no_calls m); [lia|]. pose proof (tool_run_length (drop (S i) msgs)) as H.
    rewrite length_drop in H. lia. }
  destruct (bool_decide _ && pairableExchange msgs i) eqn:E; [|done].
  apply andb_true_iff in E as [_ E]. unfold pairableExchange in E.
  destruct (msgs !! i); [|done]. destruct (msgs !! S i) eqn:E2; [|done].
  apply lookup_lt_Some in E2. lia.
Qed.

Lemma slice_drop msgs i j :
  (i <= j)%nat -> slice msgs i j ++ drop (S j) msgs = drop i msgs.
Proof.
  intros Hij. unfold slice. rewrite <- (take_drop (S j - i) (drop i msgs)) at 2.
  f_equal. rewrite drop_drop. f_equal. lia.
Qed.

(** More fuel than there are messages left changes nothing. *)
Lemma groups_fuel rc msgs f g i :
  (length msgs - i <= f)%nat -> (length msgs - i <= g)%nat ->
  groups_loop f rc msgs i = groups_loop g rc msgs i.
Proof.
  revert g i. induction f as [|f IH]; intros [|g] i Hf Hg; simpl; try done;
    destruct (Nat.ltb_spec i (length msgs)) as [Hi|Hi]; try done; try lia.
  f_equal. apply IH; pose proof (group_end_range msgs i Hi); lia.
Qed.

Lemma groups_loop_concat rc msgs f i :
  (length msgs - i <= f)%nat -> flat_map g_msgs (groups_loop f rc msgs i) = drop i msgs.
Proof.
  revert i. induction f as [|f IH]; intros i Hf; simpl.
  - rewrite drop_ge by lia. done.
  - destruct (Nat.ltb_spec i (length msgs)) as [Hi|Hi]; [|by rewrite drop_ge by lia].
    pose proof (group_end_range msgs i Hi). simpl. rewrite IH by lia.
    rewrite <- (slice_drop msgs i (group_end msgs i)) by lia. f_equal.
    unfold group_at. by destruct (group_tokens _ _ _).
Qed.

(** The groups are a partition of the transcript, in its order. *)
Lemma groups_concat rc st : flat_map g_msgs (groups rc st) = st_Messages st.
Proof. unfold groups. rewrite groups_loop_concat by lia. done. Qed.

Lemma groups_loop_In rc msgs f i g :
  g ∈ groups_loop f rc msgs i ->
  exists k, (i <= k < length msgs)%nat /\ g = group_at rc msgs k.
Proof.
  revert i. induction f as [|f IH]; intros i; simpl; [by intros ?%elem_of_nil|].
  destruct (Nat.ltb_spec i (length msgs)) as [Hi|Hi]; [|by intros ?%elem_of_nil].
  intros [->|Hg]%elem_of_cons; [by exists i|]. destruct (IH _ Hg) as (k & Hk & ->).
  exists k. pose proof (group_end_range msgs i Hi). split; [lia|done].
Qed.

Lemma groups_In rc st g :
  g ∈ groups rc st -> exists k, (k < length (st_Messages st))%nat /\ g = group_at rc (st_Messages st) k.
Proof. intros (k & Hk & ->)%groups_loop_In. exists k. split; [lia|done]. Qed.

Lemma group_at_drop rc msgs i : g_drop (group_at rc msgs i) = false.
Proof. unfold group_at. by destruct (group_tokens _ _ _). Qed.

(** ** Costs as sums

    With an estimator that answers counts, a checked cost is the sum when that
    is representable and [MaxInt] with a failure otherwise. *)
Definition saturated (n : Z) : Z * bool := if n <=? MaxInt then (n, true) else (MaxInt, false).

Definition count_like (n : Z) : Prop := 0 <= n <= MaxInt.

(** The default estimator answers counts. *)
Lemma default_counts rc s : Estimate rc = None -> count_like (estimate rc s).
Proof.
  intros E. unfold estimate, count_like. rewrite E. unfold string_eqb.
  case_bool_decide as Hs; [int_lia|].
  assert (1 <= go_len s <= MaxInt) as Hl.
  { unfold go_len, slen. destruct s; [done|]. simpl. int_lia. }
  rewrite (wrap_int_id (go_len s - 1)) by int_lia.
  pose proof (Z.quot_le_upper_bound (go_len s - 1) 4 MaxInt ltac:(lia)).
  pose proof (Z.quot_pos (go_len s - 1) 4 ltac:(lia) ltac:(lia)).
  assert (Z.quot (go_len s - 1) 4 <= go_len s - 1) by (apply Z.quot_le_upper_bound; lia).
  rewrite wrap_int_id by int_lia. int_lia.
Qed.

Lemma checkedTokenAdd_counts a b :
  count_like a -> count_like b -> checkedTokenAdd a b = saturated (a + b).
Proof.
  intros Ha Hb. unfold count_like in *. rewrite checkedTokenAdd_spec by int_lia.
  unfold saturated. case_bool_decide; destruct (Z.leb_spec (a + b) MaxInt); (done || int_lia).
Qed.

Lemma saturated_le n m : saturated n = (m, true) -> n = m /\ n <= MaxInt.
Proof. unfold saturated. destruct (Z.leb_spec n MaxInt); by intros [= <-]. Qed.

Lemma add_all_spec n costs :
  count_like n -> Forall count_like costs -> add_all n costs = saturated (n + Zsum costs).
Proof.
  intros Hn Hc. revert n Hn. induction Hc as [|c costs Hc Hcs IH]; intros n Hn; simpl.
  - unfold saturated, count_like in *. destruct (Z.leb_spec (n + 0) MaxInt); [f_equal; lia|lia].
  - rewrite checkedTokenAdd_counts by done.
    assert (0 <= Zsum costs)
      by (apply Zsum_nonneg; eapply Forall_impl; [done|]; by intros ? []).
    unfold saturated at 1. destruct (Z.leb_spec (n + c) MaxInt).
    + rewrite IH by (unfold count_like in *; lia). f_equal. lia.
    + unfold saturated. destruct (Z.leb_spec (n + (c + Zsum costs)) MaxInt); [lia|done].
Qed.

Section Costs.
Context (rc : RecencyCompactor).
Context (Hest : forall s, count_like (estimate rc s)) (Hover : count_like (toolResultOverhead rc)).

(** The exact cost of a message and of a list of them. *)
Definition cost (m : Message) : Z := estimate rc (Content (msg m)) + Zsum (extra_costs rc m).
Definition costs (msgs : list Message) : Z := Zsum (map cost msgs).

Lemma extra_costs_counts m : Forall count_like (extra_costs rc m).
Proof using Hest Hover.
  unfold extra_costs. repeat apply Forall_app_2.
  - apply Forall_flat_map, Forall_forall. intros tc _. repeat constructor; auto; apply Hest.
  - repeat constructor; apply Hest.
  - destruct (string_eqb _ _); repeat constructor; apply Hover.
Qed.

Lemma cost_nonneg m : 0 <= cost m.
Proof using Hest Hover.
  unfold cost. pose proof (Hest (Content (msg m))) as [? _].
  assert (0 <= Zsum (extra_costs rc m)); [|lia].
  apply Zsum_nonneg. eapply Forall_impl; [apply extra_costs_counts|]. by intros ? [].
Qed.

Lemma costs_nonneg msgs : 0 <= costs msgs.
Proof using Hest Hover. apply Zsum_map_nonneg. intros m _. apply cost_nonneg. Qed.

Lemma costs_app l k : costs (l ++ k) = costs l + costs k.
Proof using. unfold costs. by rewrite map_app, Zsum_app. Qed.

Lemma costs_sublist l k : l `sublist_of` k -> costs l <= costs k.
Proof using Hest Hover.
  induction 1 as [|x l k _ IH|x l k _ IH]; [done|..]; unfold costs in *; simpl;
    pose proof (cost_nonneg x); lia.
Qed.

Lemma checkedMessageCost_spec m : checkedMessageCost rc m = saturated (cost m).
Proof using Hest Hover. apply add_all_spec; [apply Hest|apply extra_costs_counts]. Qed.

Lemma checkedSum_spec n msgs :
  count_like n -> checkedSum rc n msgs = saturated (n + costs msgs).
Proof using Hest Hover.
  revert n. induction msgs as [|m msgs IH]; intros n Hn; simpl.
  - unfold saturated, count_like, costs in *. simpl.
    destruct (Z.leb_spec (n + 0) MaxInt); [f_equal; lia|lia].
  - rewrite checkedMessageCost_spec. pose proof (cost_nonneg m). pose proof (costs_nonneg msgs).
    replace (costs (m :: msgs)) with (cost m + costs msgs) by done.
    unfold count_like in *. unfold saturated at 1. destruct (Z.leb_spec (cost m) MaxInt); simpl.
    + rewrite checkedTokenAdd_counts by done. unfold saturated at 1.
      destruct (Z.leb_spec (n + cost m) MaxInt); simpl; [rewrite IH by lia; f_equal; lia|].
      unfold saturated. destruct (Z.leb_spec (n + (cost m + costs msgs)) MaxInt); [lia|done].
    + unfold saturated. destruct (Z.leb_spec (n + (cost m + costs msgs)) MaxInt); [lia|done].
Qed.

Lemma checkedTotal_spec st :
  checkedTotal rc st = saturated (estimate rc (st_System st) + costs (st_Messages st)).
Proof using Hest Hover. apply checkedSum_spec, Hest. Qed.

Lemma group_tokens_spec n msgs :
  count_like n ->
  group_tokens rc n msgs = (if n + costs msgs <=? MaxInt then (n + costs msgs, false) else (MaxInt, true)).
Proof using Hest Hover.
  revert n. induction msgs as [|m msgs IH]; intros n Hn; simpl.
  - unfold count_like, costs in *. simpl. destruct (Z.leb_spec (n + 0) MaxInt); [f_equal; lia|lia].
  - rewrite checkedMessageCost_spec. pose proof (cost_nonneg m). pose proof (costs_nonneg msgs).
    replace (costs (m :: msgs)) with (cost m + costs msgs) by done.
    unfold count_like in *. unfold saturated. destruct (Z.leb_spec (cost m) MaxInt); simpl.
    + rewrite checkedTokenAdd_counts by done. unfold saturated.
      destruct (Z.leb_spec (n + cost m) MaxInt); simpl; [rewrite IH by lia; by rewrite Z.add_assoc|].
      destruct (Z.leb_spec (n + (cost m + costs msgs)) MaxInt); [lia|done].
    + destruct (checkedTokenAdd n MaxInt).
      destruct (Z.leb_spec (n + (cost m + costs msgs)) MaxInt); [lia|done].
Qed.

(** When the whole transcript is representable no group overflows, and each
    holds the cost of its messages. *)
Lemma groups_tokens st :
  costs (st_Messages st) <= MaxInt ->
  forall g, g ∈ groups rc st ->
    g_tokens g = costs (g_msgs g) /\ g_overflow g = false /\ g_drop g = false /\ 0 <= g_tokens g.
Proof using Hest Hover.
  intros Hle g Hg. pose proof Hg as Hg'. apply groups_In in Hg as (k & Hk & ->).
  pose proof (group_at_drop rc (st_Messages st) k) as Hd.
  assert (costs (g_msgs (group_at rc (st_Messages st) k)) <= costs (flat_map g_msgs (groups rc st))) as Hcle.
  { apply list_elem_of_split in Hg' as (l1 & l2 & ->). rewrite flat_map_app, costs_app. simpl.
    rewrite costs_app. pose proof (costs_nonneg (flat_map g_msgs l1)).
    pose proof (costs_nonneg (flat_map g_msgs l2)). lia. }
  rewrite groups_concat in Hcle.
  unfold group_at in *. rewrite group_tokens_spec in * by (unfold count_like; int_lia).
  set (sl := slice _ _ _) in *. pose proof (costs_nonneg sl). rewrite Z.add_0_l in *.
  destruct (Z.leb_spec (costs sl) MaxInt); simpl in *; [split_and!; (done || lia)|lia].
Qed.

End Costs.

(** ** The reference: the shortest prefix of the drop order

    [drop_order] lists the groups that may go, first those that go first;
    [need] takes as few of them as bring the total to the target. *)
Fixpoint cands (kind : compactionGroupKind) (keep : Z) (i : nat) (gs : list compactionGroup) :
    list nat :=
  match gs with
  | [] => []
  | g :: gs =>
      if bool_decide (g_kind g = kind) && negb (Z.of_nat i =? keep)
      then i :: cands kind keep (S i) gs else cands kind keep (S i) gs
  end.

Definition drop_order (keep : Z) (gs : list compactionGroup) : list nat :=
  cands groupHistory keep 0 gs ++ cands groupCompletedTool keep 0 gs ++
  cands groupPlainElastic keep 0 gs.

Fixpoint need (tok : nat -> Z) (order : list nat) (r target : Z) : list nat :=
  match order with
  | [] => []
  | j :: order => if r <=? target then [] else j :: need tok order (r - tok j) target
  end.

Definition tokens_at (gs : list compactionGroup) (j : nat) : Z :=
  match gs !! j with Some g => g_tokens g | None => 0 end.

(** The groups, from index [i], with those of [ks] dropped. *)
Fixpoint mark (ks : list nat) (i : nat) (gs : list compactionGroup) : list compactionGroup :=
  match gs with
  | [] => []
  | g :: gs => (if bool_decide (i ∈ ks) then set_drop g else g) :: mark ks (S i) gs
  end.

Definition held (tok : nat -> Z) (ks : list nat) : Z := Zsum (map tok ks).

Lemma need_spec tok order r target :
  exists rest, order = need tok order r target ++ rest /\
    (rest = [] \/ r - held tok (need tok order r target) <= target) /\
    (forall p j q, need tok order r target = p ++ j :: q -> target < r - held tok p).
Proof.
  revert r. induction order as [|j order IH]; intros r; simpl.
  { exists []. split_and!; [done|by left|]. intros [] ? ?; done. }
  destruct (Z.leb_spec r target).
  { exists (j :: order). split_and!; [done|right; unfold held; simpl; lia|]. intros [] ? ?; done. }
  destruct (IH (r - tok j)) as (rest & E1 & E2 & E3). exists rest. split_and!.
  - simpl. by rewrite <- E1.
  - destruct E2 as [E2|E2]; [by left|right]. unfold held in *. simpl. lia.
  - intros [|x p] k q; intros [= -> Ek].
    + unfold held. simpl. lia.
    + specialize (E3 p k q Ek). unfold held in *. simpl. lia.
Qed.

Lemma need_done tok order r target : r <= target -> need tok order r target = [].
Proof. intros H. destruct order; simpl; [done|]. by rewrite (proj2 (Z.leb_le r target)). Qed.

Lemma need_app tok o1 o2 r target :
  need tok (o1 ++ o2) r target =
  need tok o1 r target ++ need tok o2 (r - held tok (need tok o1 r target)) target.
Proof.
  revert r. induction o1 as [|j o1 IH]; intros r; simpl.
  - unfold held. simpl. by rewrite Z.sub_0_r.
  - destruct (Z.leb_spec r target).
    + unfold held. simpl. by rewrite Z.sub_0_r, need_done.
    + rewrite IH. unfold held. simpl. by rewrite Z.sub_add_distr.
Qed.

Lemma held_app tok l k : held tok (l ++ k) = held tok l + held tok k.
Proof. unfold held. by rewrite map_app, Zsum_app. Qed.

Lemma cands_spec kind keep i gs j :
  j ∈ cands kind keep i gs <->
  (i <= j)%nat /\ Z.of_nat j <> keep /\ exists g, gs !! (j - i)%nat = Some g /\ g_kind g = kind.
Proof.
  revert i. induction gs as [|g gs IH]; intros i; simpl.
  { rewrite elem_of_nil. split; [done|]. by intros (_ & _ & g & ? & _). }
  assert (Htl : (S i <= j)%nat /\ Z.of_nat j <> keep /\
    (exists g', gs !! (j - S i)%nat = Some g' /\ g_kind g' = kind) <->
    (i < j)%nat /\ Z.of_nat j <> keep /\
    (exists g', (g :: gs) !! (j - i)%nat = Some g' /\ g_kind g' = kind)).
  { split; intros (H1 & H2 & H3); (split; [lia|split; [done|]]);
      (replace (j - i)%nat with (S (j - S i)) in * by lia); done. }
  destruct (bool_decide (g_kind g = kind) && negb (Z.of_nat i =? keep)) eqn:E.
  - rewrite elem_of_cons, IH, Htl. to_prop. split.
    + intros [->|(? & ? & ?)]; split_and!; try done; try lia.
      exists g. by rewrite Nat.sub_diag.
    + intros (? & ? & ?). destruct (decide (j = i)); [by left|right]. split_and!; [lia|done|done].
  - rewrite IH, Htl. split; intros (? & ? & g' & Hg & Hk); (split; [lia|split; [done|by exists g']]) || idtac.
    split; [|split; [done|by exists g']]. destruct (decide (j = i)) as [->|]; [|lia].
    rewrite Nat.sub_diag in Hg. simplify_eq/=. rewrite bool_decide_eq_true_2 in E by done.
    simpl in E. to_prop. lia.
Qed.

Lemma cands_NoDup kind keep i gs : NoDup (cands kind keep i gs).
Proof.
  revert i. induction gs as [|g gs IH]; intros i; simpl; [constructor|].
  destruct (_ && _); [|done]. apply NoDup_cons. split; [|done].
  rewrite cands_spec. lia.
Qed.

Lemma drop_order_NoDup keep gs : NoDup (drop_order keep gs).
Proof.
  assert (Hd : forall k1 k2 j, k1 <> k2 -> j ∈ cands k1 keep 0 gs -> j ∉ cands k2 keep 0 gs).
  { intros k1 k2 j Hk (_ & _ & g & Hg & Hg1)%cands_spec (_ & _ & h & Hh & Hh2)%cands_spec.
    congruence. }
  unfold drop_order. rewrite !NoDup_app. split_and!; try apply cands_NoDup; intros j Hj.
  - intros [H|H]%elem_of_app; [apply (Hd groupHistory groupCompletedTool j)|
      apply (Hd groupHistory groupPlainElastic j)]; done.
  - by apply (Hd groupCompletedTool groupPlainElastic j).
Qed.

(** The reference takes distinct members of the order, until the target is met. *)
Lemma need_order tok keep gs r target :
  let ks := need tok (drop_order keep gs) r target in
  NoDup ks /\ (forall j, j ∈ ks -> j ∈ drop_order keep gs) /\
  (r - held tok ks <= target \/ ks = drop_order keep gs).
Proof.
  intros ks. pose proof (drop_order_NoDup keep gs) as Hnd.
  destruct (need_spec tok (drop_order keep gs) r target) as (rest & Eo & Hr & _). fold ks in Eo, Hr.
  rewrite Eo in Hnd. apply NoDup_app in Hnd as (? & _). split_and!; [done| |].
  - intros j Hj. rewrite Eo, elem_of_app. by left.
  - destruct Hr as [->|Hr]; [right; by rewrite app_nil_r in Eo|by left].
Qed.

(** What may go: history, completed tool chains and plain messages. *)
Lemma drop_order_spec keep gs j :
  j ∈ drop_order keep gs ->
  Z.of_nat j <> keep /\ exists g, gs !! j = Some g /\
    (g_kind g = groupHistory \/ g_kind g = groupCompletedTool \/ g_kind g = groupPlainElastic).
Proof.
  unfold drop_order. rewrite !elem_of_app, !cands_spec, Nat.sub_0_r. naive_solver.
Qed.

(** *** Marking *)

Lemma mark_lt ks j i gs : (j < i)%nat -> mark (j :: ks) i gs = mark ks i gs.
Proof.
  revert i. induction gs as [|g gs IH]; intros i Hj; simpl; [done|].
  rewrite IH by lia. f_equal.
  by rewrite (bool_decide_ext (i ∈ j :: ks) (i ∈ ks)) by (rewrite elem_of_cons; naive_solver lia).
Qed.

Lemma mark_nil i gs : mark [] i gs = gs.
Proof.
  revert i. induction gs as [|g gs IH]; intros i; simpl; [done|]. by rewrite IH.
Qed.

Lemma mark_mark ks1 ks2 i gs : mark ks2 i (mark ks1 i gs) = mark (ks1 ++ ks2) i gs.
Proof.
  revert i. induction gs as [|g gs IH]; intros i; simpl; [done|]. rewrite IH. f_equal.
  rewrite (bool_decide_ext (i ∈ ks1 ++ ks2) (i ∈ ks1 \/ i ∈ ks2)) by apply elem_of_app.
  rewrite bool_decide_or. by destruct (bool_decide (i ∈ ks1)), (bool_decide (i ∈ ks2)).
Qed.

Lemma cands_mark kind keep ks i gs : cands kind keep i (mark ks i gs) = cands kind keep i gs.
Proof.
  revert i. induction gs as [|g gs IH]; intros i; simpl; [done|]. rewrite IH.
  by destruct (bool_decide (i ∈ ks)).
Qed.

Lemma mark_length ks i gs : length (mark ks i gs) = length gs.
Proof. revert i. induction gs as [|g gs IH]; intros i; simpl; [done|]. by rewrite IH. Qed.

Lemma mark_lookup ks i gs j g :
  gs !! j = Some g -> exists g', mark ks i gs !! j = Some g' /\ g_tokens g' = g_tokens g.
Proof.
  revert i j. induction gs as [|h gs IH]; intros i [|j]; simpl; try done; [|by apply IH].
  intros [= ->]. case_bool_decide; by eexists.
Qed.

(** ** The passes compute the reference *)

Lemma dropKind_spec kind target keep tok gs i r d :
  (forall j g, gs !! j = Some g -> tok (i + j)%nat = g_tokens g /\ count_like (g_tokens g)) ->
  0 <= r - held tok (cands kind keep i gs) -> r <= MaxInt -> in_int d ->
  dropKind kind target keep i gs (mkFit r true d) =
  let ks := need tok (cands kind keep i gs) r target in
  (mark ks i gs, mkFit (r - held tok ks) true (wrap_int (d + len ks))).
Proof.
  revert i r d. induction gs as [|g gs IH]; intros i r d Htok Hr Hr' Hd; simpl.
  { unfold held, len. simpl. by rewrite Z.sub_0_r, Z.add_0_r, wrap_int_id. }
  destruct (Htok 0%nat g eq_refl) as [Ht [Ht0 Ht1]]. rewrite Nat.add_0_r in Ht.
  assert (Htok' : forall j g, gs !! j = Some g -> tok (S i + j)%nat = g_tokens g /\ count_like (g_tokens g))
    by (intros j h Hj; replace (S i + j)%nat with (i + S j)%nat by lia; exact (Htok (S j) h Hj)).
  assert (Hge : 0 <= held tok (cands kind keep (S i) gs)).
  { apply Zsum_map_nonneg. intros j (Hij & _ & h & Hh & _)%cands_spec.
    destruct (Htok' _ _ Hh) as [Hj [? _]]. replace (S i + (j - S i))%nat with j in Hj by lia. lia. }
  destruct (Z.leb_spec r target) as [Hle|Hgt].
  - rewrite need_done by done.
    simpl. rewrite mark_nil. unfold held, len. simpl. by rewrite Z.sub_0_r, Z.add_0_r, wrap_int_id.
  - destruct (bool_decide (g_kind g = kind) && negb (Z.of_nat i =? keep)) eqn:E; simpl.
    + simpl in Hr. rewrite E in Hr. unfold held in Hr. simpl in Hr. fold (held tok (cands kind keep (S i) gs)) in Hr.
      rewrite checkedTokenSub_spec, bool_decide_eq_true_2 by int_lia.
      rewrite IH by (done || lia || apply wrap_int_range). rewrite (proj2 (Z.leb_gt r target)) by done.
      rewrite Ht. simpl. set (ks := need tok _ (r - g_tokens g) target).
      rewrite mark_lt, bool_decide_eq_true_2 by (lia || by left). rewrite len_cons.
      unfold held. simpl. rewrite Ht, wrap_int_add_l. do 2 f_equal; [lia|f_equal; lia].
    + simpl in Hr. rewrite E in Hr. rewrite IH by done.
      rewrite bool_decide_eq_false_2; [done|]. intros Hin.
      destruct (need_spec tok (cands kind keep (S i) gs) r target) as (rest & Eo & _).
      assert (i ∈ cands kind keep (S i) gs) as Hc by (rewrite Eo, elem_of_app; by left).
      apply cands_spec in Hc. lia.
Qed.

(** *** What dropping leaves *)

Section Kept.
Context (rc : RecencyCompactor).
Context (Hest : forall s, count_like (estimate rc s)) (Hover : count_like (toolResultOverhead rc)).

Lemma kept_mark_cons ks k i gs g :
  k ∉ ks -> (i <= k)%nat -> gs !! (k - i)%nat = Some g -> g_drop g = false ->
  costs rc (kept_messages (mark ks i gs)) =
  costs rc (g_msgs g) + costs rc (kept_messages (mark (k :: ks) i gs)).
Proof using.
  intros Hk. revert i. induction gs as [|h gs IH]; intros i Hi Hg Hd; [done|].
  cbn [mark kept_messages flat_map]. rewrite !costs_app. destruct (decide (i = k)) as [->|Hne].
  - rewrite Nat.sub_diag in Hg. simplify_eq/=. rewrite bool_decide_eq_false_2 by done.
    rewrite bool_decide_eq_true_2 by (by left). simpl. rewrite Hd, mark_lt by lia.
    change (costs rc []) with 0. lia.
  - replace (k - i)%nat with (S (k - S i)) in Hg by lia. simpl in Hg.
    pose proof (IH (S i) ltac:(lia) Hg Hd) as E. unfold kept_messages in E. rewrite E.
    rewrite (bool_decide_ext (i ∈ k :: ks) (i ∈ ks)) by (rewrite elem_of_cons; naive_solver). lia.
Qed.

Lemma kept_mark ks gs :
  NoDup ks ->
  (forall j, j ∈ ks -> exists g, gs !! j = Some g /\ g_drop g = false /\ g_tokens g = costs rc (g_msgs g)) ->
  costs rc (kept_messages (mark ks 0 gs)) = costs rc (kept_messages gs) - held (tokens_at gs) ks.
Proof using.
  induction 1 as [|k ks Hk _ IH]; intros H.
  { rewrite mark_nil. unfold held. simpl. lia. }
  destruct (H k) as (g & Hg & Hd & Ht); [by left|].
  pose proof (kept_mark_cons ks k 0 gs g Hk ltac:(lia) ltac:(by rewrite Nat.sub_0_r) Hd) as E.
  rewrite IH in E by (intros j Hj; apply H; by right).
  assert (tokens_at gs k = g_tokens g) by (unfold tokens_at; by rewrite Hg).
  unfold held in *. simpl. lia.
Qed.

Lemma kept_undropped gs : (forall g, g ∈ gs -> g_drop g = false) -> kept_messages gs = flat_map g_msgs gs.
Proof using.
  induction gs as [|g gs IH]; intros H; [done|]. simpl. rewrite H by (by left). f_equal.
  apply IH. intros h Hh. apply H. by right.
Qed.

(** *** The three passes together *)

Lemma groups_loop_length f msgs i : (length (groups_loop f rc msgs i) <= f)%nat.
Proof using.
  revert i. induction f as [|f IH]; intros i; simpl; [lia|].
  destruct (i <? length msgs)%nat; simpl; [|lia]. specialize (IH (S (group_end msgs i))). lia.
Qed.

Lemma indices_length ks (gs : list compactionGroup) :
  NoDup ks -> (forall j, j ∈ ks -> (j < length gs)%nat) -> (length ks <= length gs)%nat.
Proof using.
  intros Hnd H. rewrite <- (length_seq (length gs) 0). apply submseteq_length, NoDup_submseteq; [done|].
  intros j Hj. apply elem_of_seq. specialize (H j Hj). lia.
Qed.

Lemma held_nonneg tok o : (forall j, 0 <= tok j) -> 0 <= held tok o.
Proof using. intros H. apply Zsum_map_nonneg. auto. Qed.

Lemma held_need_le tok o r target :
  (forall j, 0 <= tok j) -> held tok (need tok o r target) <= held tok o.
Proof using.
  intros H. destruct (need_spec tok o r target) as (rest & E & _). rewrite E at 2.
  rewrite held_app. pose proof (held_nonneg tok rest H). lia.
Qed.

(** One pass over groups some of which are dropped already. *)
Lemma dropKind_marked kind target keep tok gs ks r n :
  (forall j g, gs !! j = Some g -> tok j = g_tokens g /\ count_like (g_tokens g)) ->
  0 <= r - held tok (cands kind keep 0 gs) -> r <= MaxInt ->
  0 <= n -> n + len (need tok (cands kind keep 0 gs) r target) <= MaxInt ->
  let ks' := need tok (cands kind keep 0 gs) r target in
  dropKind kind target keep 0 (mark ks 0 gs) (mkFit r true n) =
  (mark (ks ++ ks') 0 gs, mkFit (r - held tok ks') true (n + len ks')).
Proof using.
  intros Htok Hr Hm Hn Hl. cbn zeta.
  pose proof (len_nonneg (need tok (cands kind keep 0 gs) r target)).
  rewrite (dropKind_spec kind target keep tok); rewrite ?cands_mark; try done; [| |int_lia].
  - cbn zeta. by rewrite mark_mark, wrap_int_id by int_lia.
  - intros j g' Hg'. simpl.
    assert (exists g, gs !! j = Some g) as [g Hg].
    { apply lookup_lt_is_Some_2. apply lookup_lt_Some in Hg'. by rewrite mark_length in Hg'. }
    destruct (mark_lookup ks 0 gs j g Hg) as (g1 & Hg1 & Ht). simplify_eq. rewrite Ht. by apply Htok.
Qed.

Lemma fit_phases target keep tok gs before :
  (forall j g, gs !! j = Some g -> tok j = g_tokens g /\ count_like (g_tokens g)) ->
  (forall j, 0 <= tok j) ->
  0 <= before - held tok (drop_order keep gs) -> before <= MaxInt ->
  len (need tok (drop_order keep gs) before target) <= MaxInt ->
  let ks := need tok (drop_order keep gs) before target in
  fit target keep gs before = (mark ks 0 gs, mkFit (before - held tok ks) true (len ks)).
Proof using.
  intros Htok H0 Hpos Hmax Hlen. cbn zeta. unfold fit, drop_order in *.
  rewrite !held_app in Hpos. rewrite !need_app in *. rewrite !len_app in *. rewrite !held_app.
  set (o1 := cands groupHistory keep 0 gs) in *.
  set (o2 := cands groupCompletedTool keep 0 gs) in *.
  set (o3 := cands groupPlainElastic keep 0 gs) in *.
  set (k1 := need tok o1 before target) in *.
  set (k2 := need tok o2 (before - held tok k1) target) in *.
  set (r2 := before - held tok k1 - held tok k2) in *.
  pose proof (held_need_le tok o1 before target H0). fold k1 in H.
  pose proof (held_need_le tok o2 (before - held tok k1) target H0). fold k2 in H1.
  pose proof (held_nonneg tok o1 H0). pose proof (held_nonneg tok o2 H0).
  pose proof (held_nonneg tok o3 H0). pose proof (held_nonneg tok k1 H0).
  pose proof (held_nonneg tok k2 H0). pose proof (len_nonneg k1). pose proof (len_nonneg k2).
  pose proof (len_nonneg (need tok o3 r2 target)).
  rewrite <- (mark_nil 0 gs) at 1.
  rewrite (dropKind_marked groupHistory target keep tok gs [] before 0) by (done || (fold o1 k1; lia)).
  fold o1 k1. cbn zeta iota. rewrite app_nil_l.
  rewrite (dropKind_marked groupCompletedTool target keep tok gs k1) by (done || (fold o2 k2; lia)).
  fold o2 k2. cbn zeta iota.
  rewrite (dropKind_marked groupPlainElastic target keep tok gs (k1 ++ k2))
    by (done || (fold o3; fold r2; lia)).
  fold o3 r2. rewrite <- app_assoc. f_equal. f_equal; unfold r2; lia.
Qed.

Lemma fit_spec target keep st before :
  let gs := groups rc st in
  let ks := need (tokens_at gs) (drop_order keep gs) before target in
  before = estimate rc (st_System st) + costs rc (st_Messages st) -> before <= MaxInt ->
  len (st_Messages st) <= MaxInt ->
  fit target keep gs before =
    (mark ks 0 gs, mkFit (before - held (tokens_at gs) ks) true (len ks)) /\
  estimate rc (st_System st) + costs rc (kept_messages (mark ks 0 gs)) =
    before - held (tokens_at gs) ks /\
  len ks <= len (st_Messages st).
Proof using Hest Hover.
  intros gs ks Hb Hle Hlen. pose proof (Hest (st_System st)) as [Hs0 _].
  assert (Hgs : forall g, g ∈ gs -> g_tokens g = costs rc (g_msgs g) /\ g_drop g = false /\
    count_like (g_tokens g)).
  { intros g Hg. destruct (groups_tokens rc Hest Hover st ltac:(lia) g Hg) as (E & _ & Hd & H0).
    split_and!; try done. apply list_elem_of_split in Hg as (l1 & l2 & Hg).
    pose proof (groups_concat rc st) as Hc. fold gs in Hc. rewrite Hg, flat_map_app in Hc. simpl in Hc.
    rewrite <- Hc, !costs_app in Hb. pose proof (costs_nonneg rc Hest Hover (flat_map g_msgs l1)).
    pose proof (costs_nonneg rc Hest Hover (flat_map g_msgs l2)). unfold count_like. lia. }
  assert (Hat : forall j, j ∈ drop_order keep gs -> exists g, gs !! j = Some g /\ g_drop g = false /\
    g_tokens g = costs rc (g_msgs g)).
  { intros j (_ & g & Hg & _)%drop_order_spec. exists g.
    destruct (Hgs g) as (? & ? & _); [by eapply list_elem_of_lookup_2|done]. }
  assert (Hkeptsum : forall l, NoDup l -> (forall j, j ∈ l -> j ∈ drop_order keep gs) ->
    costs rc (kept_messages (mark l 0 gs)) = costs rc (st_Messages st) - held (tokens_at gs) l).
  { intros l Hl Hin. rewrite kept_mark by (done || auto).
    rewrite kept_undropped by (intros g Hg; by apply Hgs). unfold gs. by rewrite groups_concat. }
  assert (Htok : forall j g, gs !! j = Some g -> tokens_at gs j = g_tokens g /\
    count_like (g_tokens g)).
  { intros j g Hg. unfold tokens_at. rewrite Hg. split; [done|].
    apply Hgs. by eapply list_elem_of_lookup_2. }
  pose proof (drop_order_NoDup keep gs) as Hnd.
  destruct (need_order (tokens_at gs) keep gs before target) as (Hndk & Hin & _). fold ks in Hndk, Hin.
  pose proof (Hkeptsum ks Hndk Hin) as Hk.
  assert (Hpos : 0 <= before - held (tokens_at gs) (drop_order keep gs)).
  { pose proof (Hkeptsum (drop_order keep gs) Hnd (fun _ H => H)).
    pose proof (costs_nonneg rc Hest Hover (kept_messages (mark (drop_order keep gs) 0 gs))). lia. }
  assert (Hlk : len ks <= len (st_Messages st)).
  { unfold len. pose proof (groups_loop_length (length (st_Messages st)) (st_Messages st) 0) as Hl.
    apply inj_le. etrans; [|exact Hl]. apply indices_length; [done|]. intros j (_ & g & Hg & _)%Hin%drop_order_spec.
    by eapply lookup_lt_Some. }
  split_and!; [|lia|done]. apply (fit_phases _ _ (tokens_at gs)); try done; [|fold ks; lia].
  intros j. unfold tokens_at. destruct (gs !! j) as [g|] eqn:Hg; [|done].
  apply Hgs. by eapply list_elem_of_lookup_2.
Qed.

End Kept.

(** *** What stays *)

Lemma kept_sublist ks i gs : kept_messages (mark ks i gs) `sublist_of` flat_map g_msgs gs.
Proof.
  revert i. induction gs as [|g gs IH]; intros i; simpl; [done|].
  destruct (g_drop _); simpl; [by apply sublist_inserts_l|].
  apply sublist_app; [|apply IH]. by case_bool_decide.
Qed.

Lemma kept_group ks i gs k g :
  gs !! k = Some g -> g_drop g = false -> (i + k)%nat ∉ ks ->
  g_msgs g `sublist_of` kept_messages (mark ks i gs).
Proof.
  revert i k. induction gs as [|h gs IH]; intros i [|k] Hg Hd Hk; simplify_eq/=.
  - rewrite bool_decide_eq_false_2 by (by rewrite Nat.add_0_r in Hk). rewrite Hd.
    by apply sublist_inserts_r.
  - apply sublist_inserts_l. apply (IH (S i) k Hg Hd). by rewrite Nat.add_succ_l, <- Nat.add_succ_r.
Qed.

(** Pinned messages and unresolved tool chains are in no drop order. *)
Lemma kept_stays rc st keep ks g :
  (forall j, j ∈ ks -> j ∈ drop_order keep (groups rc st)) ->
  g ∈ groups rc st -> g_kind g = groupPinned \/ g_kind g = groupUnresolvedTool ->
  g_msgs g `sublist_of` kept_messages (mark ks 0 (groups rc st)).
Proof.
  intros Hin Hg Hk. pose proof Hg as (i & Hi & ->)%groups_In.
  apply list_elem_of_lookup in Hg as [k Hg].
  apply (kept_group ks 0 _ k _ Hg (group_at_drop _ _ _)).
  intros (_ & h & Hh & Hkind)%Hin%drop_order_spec. simpl in Hh. simplify_eq.
  destruct Hk as [Hk|Hk], Hkind as [?|[?|?]]; congruence.
Qed.

(** Sparing no group, everything droppable is in the order. *)
Lemma drop_order_all keep gs j : j ∈ drop_order keep gs -> j ∈ drop_order (-1) gs.
Proof. unfold drop_order. rewrite !elem_of_app, !cands_spec. naive_solver lia. Qed.

Lemma held_subset tok ks D :
  (forall j, 0 <= tok j) -> NoDup ks -> (forall j, j ∈ ks -> j ∈ D) -> held tok ks <= held tok D.
Proof.
  intros H0 Hnd Hin. destruct (submseteq_Permutation ks D) as [k Hk].
  { apply NoDup_submseteq; [done|]. intros j. apply Hin. }
  unfold held. rewrite (Zsum_Permutation (map tok D) (map tok (ks ++ k)))
    by (apply Permutation_map; exact Hk).
  rewrite map_app, Zsum_app. pose proof (held_nonneg tok k H0). unfold held in *. lia.
Qed.

Lemma tokens_at_nonneg rc st j :
  (forall s, count_like (estimate rc s)) -> count_like (toolResultOverhead rc) ->
  costs rc (st_Messages st) <= MaxInt -> 0 <= tokens_at (groups rc st) j.
Proof.
  intros Hest Hover Hc. unfold tokens_at. destruct (groups rc st !! j) as [g|] eqn:Hg; [|done].
  apply (groups_tokens rc Hest Hover st Hc). by eapply list_elem_of_lookup_2.
Qed.

(** The pinned messages of the transcript are kept whatever is dropped. *)
Lemma filter_pinned_kept ks i gs :
  (forall g, g ∈ gs -> g_drop g = false) ->
  (forall j g, j ∈ ks -> gs !! (j - i)%nat = Some g -> (i <= j)%nat ->
     List.filter (is_segment Pinned) (g_msgs g) = []) ->
  List.filter (is_segment Pinned) (flat_map g_msgs gs) `sublist_of` kept_messages (mark ks i gs).
Proof.
  revert i. induction gs as [|g gs IH]; intros i Hd Hp; [done|]. simpl. rewrite List.filter_app.
  assert (List.filter (is_segment Pinned) (flat_map g_msgs gs)
    `sublist_of` kept_messages (mark ks (S i) gs)) as Htl.
  { apply IH; [intros h Hh; apply Hd; by right|]. intros j h Hj Hh Hi. apply (Hp j h Hj); [|lia].
    by replace (j - i)%nat with (S (j - S i)) by lia. }
  case_bool_decide as Hi.
  - rewrite (Hp i g Hi) by (rewrite ?Nat.sub_diag; done || lia). done.
  - rewrite Hd by (by left). by apply sublist_app; [apply sublist_filter_list|].
Qed.

Lemma kept_pinned rc st keep ks :
  (forall j, j ∈ ks -> j ∈ drop_order keep (groups rc st)) ->
  List.filter (is_segment Pinned) (st_Messages st)
    `sublist_of` kept_messages (mark ks 0 (groups rc st)).
Proof.
  intros Hin. rewrite <- (groups_concat rc st) at 1. apply filter_pinned_kept.
  - intros g (k & _ & ->)%groups_In. apply group_at_drop.
  - intros j g Hj Hg _. rewrite Nat.sub_0_r in Hg.
    destruct (drop_order_spec _ _ _ (Hin j Hj)) as (_ & h & Hh & Hkind). simplify_eq.
    pose proof (list_elem_of_lookup_2 _ _ _ Hg) as (k & _ & ->)%groups_In.
    unfold group_at in *. destruct (group_tokens _ _ _) as [t o]. cbn [g_msgs g_kind] in *.
    set (sl := slice _ _ _) in *. destruct (existsb (is_segment Pinned) sl) eqn:E.
    + exfalso. unfold classifyGroup in Hkind. fold sl in Hkind. rewrite E in Hkind. naive_solver.
    + destruct (List.filter (is_segment Pinned) sl) as [|x l] eqn:F; [done|]. exfalso.
      assert (In x (List.filter (is_segment Pinned) sl)) as [Hx1 Hx2]%filter_In by (rewrite F; by left).
      apply not_true_iff_false in E. apply E, existsb_exists. by exists x.
Qed.

(** ** [Compact] *)

Lemma lowWater_off input : lowWaterMark input fzero = (input, false).
Proof. reflexivity. Qed.

Section CompactSpec.
Context (rc : RecencyCompactor) (st : State) (b : TokenBudget).
Let rc' := with_overhead rc b.
Context (Hest : forall s, count_like (estimate rc' s)) (Hover : count_like (ToolResultOverhead b)).
Context (Hlen : len (st_Messages st) <= MaxInt).
Let before := estimate rc' (st_System st) + costs rc' (st_Messages st).
Let gs := groups rc' st.

(** The outcome of a fit towards [target] that spares the group [keep]. *)
Definition fitted (target keep : Z) : State * CompactionReport * option agentError :=
  let ks := need (tokens_at gs) (drop_order keep gs) before target in
  (mkState (st_System st) "" (kept_messages (mark ks 0 gs)) [],
   mkReport "recency" (len ks) before (before - held (tokens_at gs) ks), None).

Lemma no_overflow : before <= MaxInt -> existsb g_overflow gs = false.
Proof using Hest Hover.
  intros Hb. apply not_true_iff_false. intros (g & Hg & Ho)%existsb_exists.
  apply list_elem_of_In in Hg. pose proof (Hest (st_System st)) as [? _].
  destruct (groups_tokens rc' Hest Hover st ltac:(unfold before in Hb; lia) g Hg) as (_ & E & _).
  congruence.
Qed.

Lemma after_exact target keep :
  before <= MaxInt ->
  let ks := need (tokens_at gs) (drop_order keep gs) before target in
  checkedTotal rc' (mkState (st_System st) "" (kept_messages (mark ks 0 gs)) []) =
    (before - held (tokens_at gs) ks, true) /\
  fit target keep gs before = (mark ks 0 gs, mkFit (before - held (tokens_at gs) ks) true (len ks)).
Proof using Hest Hover Hlen.
  intros Hb. cbn zeta. destruct (fit_spec rc' Hest Hover target keep st before eq_refl Hb Hlen)
    as (E1 & E2 & _). split; [|exact E1]. rewrite checkedTotal_spec by done. cbn [st_System st_Messages].
  fold gs in E2. rewrite E2. unfold saturated. apply (proj2 (Z.leb_le _ MaxInt)) in Hb as Hb'.
  pose proof (costs_nonneg rc' Hest Hover (kept_messages (mark
    (need (tokens_at gs) (drop_order keep gs) before target) 0 gs))) as H0.
  assert (0 <= held (tokens_at gs) (need (tokens_at gs) (drop_order keep gs) before target)) as H1.
  { apply held_nonneg. intros j. unfold tokens_at. destruct (gs !! j) as [g|] eqn:Hg; [|done].
    pose proof (Hest (st_System st)) as [? _].
    apply (groups_tokens rc' Hest Hover st); [unfold before in Hb; lia|].
    by eapply list_elem_of_lookup_2. }
  by rewrite (proj2 (Z.leb_le _ MaxInt)) by lia.
Qed.

(** Without a mark; the budget may be the one of the recursive call. *)
Lemma Compact_plain n b' :
  tb_Input b' = tb_Input b -> ToolResultOverhead b' = ToolResultOverhead b ->
  tb_Input b < before <= MaxInt -> (lowWaterMark (tb_Input b) (LowWaterFraction b')).2 = false ->
  Compact (S n) rc st b' = Some (fitted (tb_Input b) (-1)).
Proof using Hest Hover Hlen.
  intros Hin Hov [Hlt Hle] Hlow. cbn [Compact].
  replace (with_overhead rc b') with rc' by (unfold rc', with_overhead; by rewrite Hov).
  rewrite checkedTotal_spec by done. fold before. rewrite Hin.
  unfold saturated. rewrite (proj2 (Z.leb_le before MaxInt)) by done. cbn [negb].
  rewrite (proj2 (Z.leb_gt before (tb_Input b))) by done. fold gs.
  rewrite no_overflow by done.
  assert (lowWaterMark (tb_Input b) (LowWaterFraction b') = (tb_Input b, false)) as ->
    by (unfold lowWaterMark in *; by destruct (negb _)).
  destruct (after_exact (tb_Input b) (-1) Hle) as [E1 E2]. rewrite E2. cbn [andb negb arithmeticOK].
  by rewrite E1.
Qed.

Lemma Compact_low n target :
  tb_Input b < before <= MaxInt ->
  lowWaterMark (tb_Input b) (LowWaterFraction b) = (target, true) ->
  Compact (S (S n)) rc st b =
    if TokensAfter (fitted target (newestCurrentRunGroup gs)).1.2 <=? target
    then Some (fitted target (newestCurrentRunGroup gs))
    else Some (fitted (tb_Input b) (-1)).
Proof using Hest Hover Hlen.
  intros [Hlt Hle] Hlow. remember (S n) as m eqn:Em. cbn [Compact]. fold rc'.
  rewrite checkedTotal_spec by done. fold before.
  unfold saturated. rewrite (proj2 (Z.leb_le before MaxInt)) by done. cbn [negb].
  rewrite (proj2 (Z.leb_gt before (tb_Input b))) by done. fold gs. rewrite no_overflow by done.
  rewrite Hlow. destruct (after_exact target (newestCurrentRunGroup gs) Hle) as [E1 E2]. rewrite E2.
  cbn [andb negb arithmeticOK remaining]. rewrite E1. rewrite Z.ltb_antisym.
  unfold fitted at 1. cbn [fst snd TokensAfter].
  destruct (_ <=? target); cbn [negb]; [done|]. subst m. by apply Compact_plain.
Qed.

Lemma Compact_fits n :
  before <= tb_Input b -> before <= MaxInt ->
  Compact (S n) rc st b = Some (st, mkReport "recency" 0 before before, None).
Proof using Hest Hover.
  intros Hb Hm. cbn [Compact]. fold rc'. rewrite checkedTotal_spec by done. fold before.
  unfold saturated. rewrite (proj2 (Z.leb_le before MaxInt)) by done. cbn [negb].
  by rewrite (proj2 (Z.leb_le before (tb_Input b))).
Qed.

(** Every fit is one of the two. *)
Lemma Compact_fitted n :
  tb_Input b < before <= MaxInt ->
  exists target keep, Compact (S (S n)) rc st b = Some (fitted target keep) /\
    (lowWaterMark (tb_Input b) (LowWaterFraction b) = (target, true) /\
     keep = newestCurrentRunGroup gs /\ TokensAfter (fitted target keep).1.2 <= target \/
     target = tb_Input b /\ keep = -1 /\ forall low, lowWaterMark (tb_Input b) (LowWaterFraction b) = (low, true) ->
       low < TokensAfter (fitted low (newestCurrentRunGroup gs)).1.2).
Proof using Hest Hover Hlen.
  intros Hb. destruct (lowWaterMark (tb_Input b) (LowWaterFraction b)) as [target low] eqn:El.
  destruct low; [|exists (tb_Input b), (-1)].
  - pose proof (Compact_low n target Hb El) as Ec.
    destruct (Z.leb_spec (TokensAfter (fitted target (newestCurrentRunGroup gs)).1.2) target).
    + exists target, (newestCurrentRunGroup gs). split; [exact Ec|by left].
    + exists (tb_Input b), (-1). split; [exact Ec|right]. split_and!; [done|done|]. by intros low [= <-].
  - split; [|by right; split_and!]. apply Compact_plain; try done. by rewrite El.
Qed.

End CompactSpec.

(** ** What the groups should be

    Stated over the messages, without the grouping code. *)

Definition is_pinned (m : Message) : Prop := segment m = Pinned.
Definition is_tool (m : Message) : Prop := Role (msg m) = "tool"%string.
Definition calling (m : Message) : Prop := ToolCalls (msg m) <> [].

(** A question and its answer. *)
Definition exchange (u a : Message) : Prop :=
  segment u = Elastic /\ segment a = Elastic /\ Role (msg u) = "user"%string /\ Role (msg a) = "assistant"%string /\
  ~ calling u /\ ~ calling a.

(** What opens a transcript and stays together: calls with all the results that
    follow, an exchange, or a single message. *)
Inductive block : list Message -> list Message -> Prop :=
| block_chain m ts rest :
    calling m -> Forall is_tool ts -> (forall m', head rest = Some m' -> ~ is_tool m') -> block (m :: ts) rest
| block_exchange u a rest : exchange u a -> block [u; a] rest
| block_plain m rest : ~ calling m -> (forall a, head rest = Some a -> ~ exchange m a) -> block [m] rest.

(** The goal of the run: the first pinned message after the pinned system
    messages that may open the transcript. *)
Definition goal (msgs : list Message) (p : nat) : Prop :=
  exists sys mid m post, msgs = sys ++ mid ++ m :: post /\ p = length (sys ++ mid) /\
    Forall (fun m => is_pinned m /\ Role (msg m) = "system"%string) sys /\
    (forall m', head (mid ++ m :: post) = Some m' -> is_pinned m' -> Role (msg m') <> "system"%string) /\
    Forall (fun m => ~ is_pinned m) mid /\ is_pinned m.

(** The kind of a block that ends before index [fin]. *)
Definition kind_ok (msgs : list Message) (fin : nat) (ms : list Message) (kind : compactionGroupKind) : Prop :=
  match kind with
  | groupPinned => Exists is_pinned ms
  | groupHistory =>
      ~ Exists is_pinned ms /\ (forall m, head ms = Some m -> ~ calling m) /\ exists p, goal msgs p /\ (fin <= p)%nat
  | groupPlainElastic =>
      ~ Exists is_pinned ms /\ (forall m, head ms = Some m -> ~ calling m) /\ forall p, goal msgs p -> (p < fin)%nat
  | groupCompletedTool =>
      ~ Exists is_pinned ms /\ exists m ts, ms = m :: ts /\ calling m /\ (length (ToolCalls (msg m)) <= length ts)%nat
  | groupUnresolvedTool =>
      ~ Exists is_pinned ms /\ exists m ts, ms = m :: ts /\ calling m /\ (length ts < length (ToolCalls (msg m)))%nat
  end.

(** The groups of what is left of the transcript after its first [n] messages. *)
Inductive grouped (rc : RecencyCompactor) (msgs : list Message) : nat -> list Message -> list compactionGroup -> Prop :=
| grouped_nil n : grouped rc msgs n [] []
| grouped_cons n ms rest g gs :
    block ms rest -> g_msgs g = ms -> kind_ok msgs (n + length ms) ms (g_kind g) -> g_tokens g = costs rc ms ->
    g_drop g = false -> grouped rc msgs (n + length ms) rest gs -> grouped rc msgs n (ms ++ rest) (g :: gs).

(** The newest group of the current run that could go: none but unresolved calls
    and history follows it. *)
Definition current (g : compactionGroup) : Prop := g_kind g = groupCompletedTool \/ g_kind g = groupPlainElastic.
Definition spared (gs : list compactionGroup) (keep : Z) : Prop :=
  (exists i g, keep = Z.of_nat i /\ gs !! i = Some g /\ current g /\
     forall j h, (i < j)%nat -> gs !! j = Some h -> ~ current h /\ g_kind h <> groupPinned) \/
  (keep = -1 /\ forall i g, gs !! i = Some g -> current g ->
     exists j h, (i < j)%nat /\ gs !! j = Some h /\ g_kind h = groupPinned).

(** The budget has a low-water mark at [target]. *)
Definition low_water (b : TokenBudget) (target : Z) : Prop :=
  flt fzero (LowWaterFraction b) = true /\ flt (LowWaterFraction b) fone = true /\
  target = ftrunc (fmul (of_int (tb_Input b)) (LowWaterFraction b)).

(** The messages of the groups but those of the indices [ks]. *)
Definition left_over (ks : list nat) (gs : list compactionGroup) : list Message :=
  concat (imap (fun j g => if bool_decide (j ∈ ks) then [] else g_msgs g) gs).

(** *** The code's groups are these *)

Lemma no_calls_spec m : no_calls m = true <-> ~ calling m.
Proof.
  unfold no_calls, calling. rewrite Z.eqb_eq. unfold len. destruct (ToolCalls (msg m)); simpl.
  - split; [|done]. intros _ H. by apply H.
  - split; [lia|]. intros H. exfalso. by apply H.
Qed.

Lemma is_role_spec r m : is_role r m = true <-> Role (msg m) = r.
Proof. unfold is_role, string_eqb. by rewrite bool_decide_eq_true. Qed.

Lemma is_segment_spec sg m : is_segment sg m = true <-> segment m = sg.
Proof. unfold is_segment. by rewrite bool_decide_eq_true. Qed.

Lemma pairable_spec msgs i u :
  msgs !! i = Some u -> pairableExchange msgs i = true <-> exists a, msgs !! S i = Some a /\ exchange u a.
Proof.
  intros Hu. unfold pairableExchange. rewrite Hu. unfold exchange. destruct (msgs !! S i) as [a|].
  - rewrite !andb_true_iff, !is_segment_spec, !is_role_spec, !no_calls_spec. naive_solver.
  - naive_solver.
Qed.

Lemma tool_run_spec msgs :
  Forall is_tool (take (tool_run msgs) msgs) /\ forall m', head (drop (tool_run msgs) msgs) = Some m' -> ~ is_tool m'.
Proof.
  unfold is_tool. induction msgs as [|m msgs [IH1 IH2]]; simpl; [by split|].
  destruct (is_role "tool" m) eqn:E; [split; [constructor; [by apply is_role_spec|done]|done]|].
  split; [done|]. intros m' [= <-]. rewrite <-is_role_spec. by rewrite E.
Qed.

(** The block of the code is a block. *)
Lemma group_block msgs i :
  (i < length msgs)%nat -> block (slice msgs i (group_end msgs i)) (drop (S (group_end msgs i)) msgs).
Proof.
  intros Hi. destruct (lookup_lt_is_Some_2 msgs i Hi) as [m Hm]. pose proof (drop_S _ _ _ Hm) as Ed.
  unfold group_end, chainAt, slice. rewrite Hm, Ed. destruct (no_calls m) eqn:Ec.
  - apply no_calls_spec in Ec. rewrite bool_decide_eq_true_2 by done. cbn [andb].
    destruct (pairableExchange msgs i) eqn:Ep.
    + apply (pairable_spec msgs i m Hm) in Ep as (a & Ha & He). rewrite (drop_S _ _ _ Ha).
      replace (S (S i) - i)%nat with 2%nat by lia. by apply block_exchange.
    + replace (S i - i)%nat with 1%nat by lia. cbn [take]. apply block_plain; [done|]. intros a Ha He.
      assert (pairableExchange msgs i = true) as E; [|by rewrite E in Ep]. apply (pairable_spec msgs i m Hm).
      exists a. split; [|done]. rewrite head_lookup, lookup_drop, Nat.add_0_r in Ha. done.
  - set (n := tool_run (drop (S i) msgs)).
    assert ((if bool_decide ((i + n)%nat = i) && pairableExchange msgs i then S i else (i + n)%nat) = (i + n)%nat) as ->.
    { destruct (pairableExchange msgs i) eqn:Ep; [|by rewrite andb_false_r]. exfalso.
      apply (pairable_spec msgs i m Hm) in Ep as (a & _ & _ & _ & _ & _ & Hc & _). apply no_calls_spec in Hc. congruence. }
    replace (S (i + n) - i)%nat with (S n) by lia. cbn [take]. destruct (tool_run_spec (drop (S i) msgs)) as [H1 H2].
    apply block_chain; [|done|].
    + intros H. assert (no_calls m = true) as E; [|by rewrite E in Ec]. unfold no_calls. by rewrite H.
    + rewrite drop_drop in H2. by replace (S i + tool_run (drop (S i) msgs))%nat with (S (i + n)) in H2 by (subst n; lia).
Qed.

(** After the opening system messages the first pinned message is the goal. *)
Lemma firstPinned_later i leading l :
  leading < i ->
  (firstPinned_from i leading l = -1 /\ Forall (fun m => ~ is_pinned m) l) \/
  (exists mid m post, l = mid ++ m :: post /\ Forall (fun m => ~ is_pinned m) mid /\ is_pinned m /\
     firstPinned_from i leading l = i + Z.of_nat (length mid)).
Proof.
  revert i. induction l as [|m l IH]; intros i Hi; cbn [firstPinned_from]; [by left|].
  destruct (is_segment Pinned m) eqn:Ep; cbn [negb].
  - apply is_segment_spec in Ep. right. exists [], m, l. split_and!; [done|constructor|done|].
    destruct (Z.eqb_spec i leading); [lia|]. rewrite andb_false_r. simpl. lia.
  - assert (~ is_pinned m) as Hm by (unfold is_pinned; rewrite <-is_segment_spec; congruence).
    destruct (IH (i + 1) ltac:(lia)) as [[E H]|(mid & x & post & -> & H & Hx & E)].
    + left. split; [done|by constructor].
    + right. exists (m :: mid), x, post. split_and!; [done|by constructor|done|]. rewrite E. simpl. lia.
Qed.

(** A longest prefix is unique. *)
Lemma longest_unique {A} (P : A -> Prop) l k l' k' :
  l ++ k = l' ++ k' -> Forall P l -> Forall P l' ->
  (forall x, head k = Some x -> ~ P x) -> (forall x, head k' = Some x -> ~ P x) -> l = l' /\ k = k'.
Proof.
  intros E Hl. revert l' E. induction Hl as [|x l Hx Hl IH]; intros l' E Hl' Hk Hk'.
  - destruct Hl' as [|y l' Hy]; [done|]. simpl in E. subst k. exfalso. by apply (Hk y).
  - destruct Hl' as [|y l' Hy Hl']; simpl in E; [subst k'; exfalso; by apply (Hk' x)|].
    injection E as -> E. by destruct (IH l' E Hl' Hk Hk') as [-> ->].
Qed.

Lemma goal_unique msgs p q : goal msgs p -> goal msgs q -> p = q.
Proof.
  intros (sys & mid & m & post & -> & -> & H1 & H2 & H3 & H4) (sys' & mid' & m' & post' & E & -> & J1 & J2 & J3 & J4).
  apply (longest_unique (fun m => is_pinned m /\ Role (msg m) = "system"%string)) in E as [-> E]; [|done|done| |].
  - apply (longest_unique (fun m => ~ is_pinned m)) in E as [-> _]; [done|done|done|..].
    + intros x [= <-] H. by apply H.
    + intros x [= <-] H. by apply H.
  - intros x Hx [Hp Hr]. by apply (H2 x).
  - intros x Hx [Hp Hr]. by apply (J2 x).
Qed.

Lemma firstPinned_goal sys l :
  Forall (fun m => is_pinned m /\ Role (msg m) = "system"%string) sys ->
  let k := firstPinned_from (Z.of_nat (length sys)) (Z.of_nat (length sys)) l in
  (exists p, k = Z.of_nat p /\ goal (sys ++ l) p) \/ (k = -1 /\ forall p, ~ goal (sys ++ l) p).
Proof.
  revert sys. induction l as [|m l IH]; intros sys Hs; cbn zeta; cbn [firstPinned_from].
  { right. split; [done|]. intros p (sys' & mid & x & post & E & _ & H1 & H2 & _ & Hx).
    apply (longest_unique (fun m => is_pinned m /\ Role (msg m) = "system"%string)) in E as [_ E]; [by destruct mid|done|done|done|].
    intros y Hy [Hp Hr]. by apply (H2 y). }
  destruct (is_segment Pinned m) eqn:Ep; cbn [negb]; [destruct (is_role "system" m) eqn:Er|].
  - rewrite Z.eqb_refl. cbn [andb]. apply is_segment_spec in Ep. apply is_role_spec in Er.
    specialize (IH (sys ++ [m]) ltac:(apply Forall_app; split; [done|by constructor])).
    rewrite length_app, Nat2Z.inj_add, <-app_assoc in IH. exact IH.
  - cbn [andb]. left. exists (length sys). split; [done|]. exists sys, [], m, l. rewrite app_nil_r.
    split_and!; [done|done|done| |constructor|by apply is_segment_spec].
    intros m' [= <-] _ Hr. apply is_role_spec in Hr. congruence.
  - assert (~ is_pinned m) as Hm by (unfold is_pinned; rewrite <-is_segment_spec; congruence).
    destruct (firstPinned_later (Z.of_nat (length sys) + 1) (Z.of_nat (length sys)) l ltac:(lia))
      as [[E H]|(mid & x & post & -> & H & Hx & E)]; rewrite E.
    + right. split; [done|]. intros p (sys' & mid & x & post & E' & _ & H1 & H2 & _ & Hx).
      apply (longest_unique (fun m => is_pinned m /\ Role (msg m) = "system"%string)) in E' as [_ E']; [|done|done| |].
      * assert (x ∈ m :: l) as Hin by (rewrite E'; set_solver). apply elem_of_cons in Hin as [->|Hin]; [done|].
        rewrite Forall_forall in H. by apply (H x).
      * by intros y [= <-] [Hp _].
      * intros y Hy [Hp Hr]. by apply (H2 y).
    + left. exists (length (sys ++ m :: mid)). split; [rewrite length_app; simpl; lia|].
      exists sys, (m :: mid), x, post. split_and!; [done|done|done| |by constructor|done]. by intros m' [= <-].
Qed.

Lemma firstPinnedIndex_goal msgs :
  (exists p, firstPinnedIndex msgs = Z.of_nat p /\ goal msgs p) \/ (firstPinnedIndex msgs = -1 /\ forall p, ~ goal msgs p).
Proof. exact (firstPinned_goal [] msgs (List.Forall_nil _)). Qed.

(** The kind of a group of the code. *)
Lemma classify_ok msgs i :
  (i < length msgs)%nat ->
  kind_ok msgs (S (group_end msgs i)) (slice msgs i (group_end msgs i))
    (classifyGroup msgs i (group_end msgs i) (firstPinnedIndex msgs)).
Proof.
  intros Hi. pose proof (group_end_range msgs i Hi) as Hr. destruct (lookup_lt_is_Some_2 msgs i Hi) as [m Hm].
  set (fin := group_end msgs i) in *. unfold classifyGroup, priorHistoryGroup. rewrite Hm.
  assert (exists ts, slice msgs i fin = m :: ts /\ length ts = (fin - i)%nat) as (ts & Es & Hl).
  { unfold slice. rewrite (drop_S _ _ _ Hm). replace (S fin - i)%nat with (S (fin - i)) by lia.
    exists (take (fin - i) (drop (S i) msgs)). split; [done|]. rewrite length_take, length_drop. lia. }
  destruct (existsb (is_segment Pinned) (slice msgs i fin)) eqn:Ee.
  { apply existsb_exists in Ee as (x & Hx & Hp). apply Exists_exists. exists x.
    split; [by apply list_elem_of_In|by apply is_segment_spec]. }
  assert (~ Exists is_pinned (slice msgs i fin)) as Hno.
  { rewrite Exists_exists. intros (x & Hx & Hp). assert (existsb (is_segment Pinned) (slice msgs i fin) = true); [|congruence].
    apply existsb_exists. exists x. split; [by apply list_elem_of_In|by apply is_segment_spec]. }
  rewrite Es in *. fold (no_calls m). destruct (no_calls m) eqn:Ec.
  - assert (forall x, head (m :: ts) = Some x -> ~ calling x) as Hh by (intros x [= <-]; by apply no_calls_spec).
    destruct (firstPinnedIndex_goal msgs) as [(p & E & Hg)|[E Hg]]; rewrite E, andb_true_r.
    + destruct (Z.leb_spec 0 (Z.of_nat p)); [|lia]. destruct (Z.ltb_spec (Z.of_nat fin) (Z.of_nat p)); cbn [andb].
      * split_and!; [done|done|]. exists p. split; [done|lia].
      * split_and!; [done|done|]. intros q Hq. rewrite (goal_unique _ _ _ Hq Hg). lia.
    + cbn [andb Z.leb Z.compare]. split_and!; [done|done|]. intros q Hq. by apply Hg in Hq.
  - rewrite andb_false_r. assert (calling m) as Hc by (intros H; unfold no_calls in Ec; by rewrite H in Ec).
    destruct (Z.leb_spec (len (ToolCalls (msg m))) (Z.of_nat fin - Z.of_nat i)); unfold len in *;
      (split; [done|]; exists m, ts; split_and!; [done|done|lia]).
Qed.

Section Reference.
Context (rc : RecencyCompactor) (st : State).
Context (Hest : forall s, count_like (estimate rc s)) (Hover : count_like (toolResultOverhead rc)).
Context (Hcost : costs rc (st_Messages st) <= MaxInt).

Lemma grouped_loop f i :
  (i <= length (st_Messages st))%nat -> (length (st_Messages st) - i <= f)%nat ->
  (forall g, g ∈ groups_loop f rc (st_Messages st) i -> g_tokens g = costs rc (g_msgs g)) ->
  grouped rc (st_Messages st) i (drop i (st_Messages st)) (groups_loop f rc (st_Messages st) i).
Proof using.
  revert i. induction f as [|f IH]; intros i Hi Hf Hg; cbn [groups_loop] in *; [rewrite drop_ge by lia; constructor|].
  destruct (Nat.ltb_spec i (length (st_Messages st))) as [Hlt|Hge]; [|rewrite drop_ge by lia; constructor].
  pose proof (group_end_range (st_Messages st) i Hlt) as Hr. set (fin := group_end (st_Messages st) i) in *.
  assert (g_msgs (group_at rc (st_Messages st) i) = slice (st_Messages st) i fin) as Em
    by (unfold group_at; by destruct (group_tokens _ _ _)).
  assert ((i + length (slice (st_Messages st) i fin))%nat = S fin) as El
    by (unfold slice; rewrite length_take, length_drop; lia).
  rewrite <-(slice_drop (st_Messages st) i fin) by lia. apply grouped_cons.
  - by apply group_block.
  - exact Em.
  - rewrite El. unfold group_at. destruct (group_tokens _ _ _). by apply classify_ok.
  - rewrite <-Em. apply Hg. by left.
  - apply group_at_drop.
  - rewrite El. apply IH; [lia|lia|]. intros g Hin. apply Hg. by right.
Qed.

Lemma groups_grouped : grouped rc (st_Messages st) 0 (st_Messages st) (groups rc st).
Proof using Hest Hover Hcost.
  apply (grouped_loop _ 0); [lia|lia|]. intros g Hg. by apply (groups_tokens rc Hest Hover st Hcost).
Qed.
End Reference.

Lemma newest_snoc gs g :
  newestCurrentRunGroup (gs ++ [g]) =
    match g_kind g with
    | groupPinned => -1
    | groupCompletedTool | groupPlainElastic => len gs
    | _ => newestCurrentRunGroup gs
    end.
Proof.
  unfold newestCurrentRunGroup. rewrite rev_app_distr, len_app. cbn [rev app newest_from].
  change (len [g]) with 1. replace (len gs + 1 - 1) with (len gs) by lia. by destruct (g_kind g).
Qed.

Lemma newest_spared gs : spared gs (newestCurrentRunGroup gs).
Proof.
  induction gs as [|g gs IH] using rev_ind; [right; by split|]. rewrite newest_snoc.
  assert ((gs ++ [g]) !! length gs = Some g) as Hlast by (by apply list_lookup_middle).
  assert (forall j h, (length gs < j)%nat -> (gs ++ [g]) !! j = Some h -> False) as Hno.
  { intros j h Hj Hh. apply lookup_lt_Some in Hh. rewrite length_app in Hh. simpl in Hh. lia. }
  assert (current g -> spared (gs ++ [g]) (len gs)) as Hcur.
  { intros Hc. left. exists (length gs), g. split_and!; [done|done|done|]. intros j h Hj Hh. by destruct (Hno j h). }
  assert (~ current g -> g_kind g <> groupPinned -> spared (gs ++ [g]) (newestCurrentRunGroup gs)) as Hskip.
  { intros Hc Hp. destruct IH as [(i & x & E & Hx & Hcx & Hafter)|[E Hall]]; [left|right].
    - exists i, x. split_and!; [done|by apply lookup_app_l_Some|done|]. intros j h Hj Hh.
      destruct (decide (j < length gs)%nat) as [Hlt|Hge]; [rewrite lookup_app_l in Hh by done; by apply (Hafter j)|].
      destruct (decide (j = length gs)) as [->|]; [|by destruct (Hno j h ltac:(lia))].
        rewrite Hlast in Hh. by injection Hh as <-.
    - split; [done|]. intros i x Hx Hcx. destruct (decide (i < length gs)%nat) as [Hlt|Hge].
      + rewrite lookup_app_l in Hx by done. destruct (Hall i x Hx Hcx) as (j & h & Hj & Hh & Hk).
        exists j, h. split_and!; [done|by apply lookup_app_l_Some|done].
      + destruct (decide (i = length gs)) as [->|]; [rewrite Hlast in Hx; by injection Hx as <-|].
        by destruct (Hno i x ltac:(lia)). }
  unfold current in *. destruct (g_kind g) eqn:Eg; try (by apply Hcur; auto); try (apply Hskip; [intros [|]|]; done).
  right. split; [done|]. intros i x Hx Hcx. exists (length gs), g. split_and!; [|done|done].
  destruct (decide (i = length gs)) as [->|]; [rewrite Hlast in Hx; injection Hx as <-; destruct Hcx; congruence|].
  apply lookup_lt_Some in Hx as Hl. rewrite length_app in Hl. simpl in Hl. lia.
Qed.

Lemma lowWater_spec b target : lowWaterMark (tb_Input b) (LowWaterFraction b) = (target, true) <-> low_water b target.
Proof.
  unfold lowWaterMark, low_water. destruct (flt fzero _), (flt _ fone); cbn; naive_solver.
Qed.

Lemma left_over_kept ks gs :
  (forall g, g ∈ gs -> g_drop g = false) -> kept_messages (mark ks 0 gs) = left_over ks gs.
Proof.
  unfold kept_messages, left_over. intros Hd. rewrite flat_map_concat_map. f_equal.
  assert (forall i, map (fun g => if g_drop g then [] else g_msgs g) (mark ks i gs) =
    imap (fun j g => if bool_decide ((i + j)%nat ∈ ks) then [] else g_msgs g) gs) as H; [|apply H].
  induction gs as [|g gs IH]; intros i; [done|]. cbn [mark map imap]. rewrite Nat.add_0_r. f_equal.
  - case_bool_decide; [done|]. by rewrite Hd by (by left).
  - rewrite IH by (intros h Hh; apply Hd; by right). apply imap_ext. intros j h _. cbn. by rewrite Nat.add_succ_r.
Qed.

Lemma spared_unique gs k k' : spared gs k -> spared gs k' -> k = k'.
Proof.
  intros [(i & g & -> & Hg & Hc & Ha)|[-> Ha]] [(j & h & -> & Hh & Hd & Hb)|[-> Hb]].
  - destruct (Nat.lt_trichotomy i j) as [H|[->|H]]; [by destruct (Ha j h H Hh)|done|by destruct (Hb i g H Hg)].
  - destruct (Hb i g Hg Hc) as (j & h & Hj & Hh & Hp). by destruct (Ha j h Hj Hh).
  - destruct (Ha j h Hh Hd) as (i & g & Hi & Hg & Hp). by destruct (Hb i g Hi Hg).
  - done.
Qed.

(** ** The properties *)

(** C35: with an estimator that answers counts, compaction leaves a transcript
    that fits alone, refuses one whose cost overflows, and otherwise drops the
    shortest prefix of the drop order (history, then completed tool chains,
    then plain messages, oldest first) that reaches its target, or all of it.
    The target is the low-water mark, with the newest current group spared, when
    the budget has a mark and that reaches it; otherwise it is the input budget
    and nothing is spared, and then no fit that spares the newest group reaches
    the mark.  The groups are those of the transcript ([grouped], stated over the
    messages): calls with the results that follow, exchanges, single messages;
    what lies before the goal is history.  What is left is whole groups in their
    order, every pinned message and every unresolved tool chain among them, and
    the report's counts are exact. *)
Theorem compact_drops_least rc st b n :
  let rc' := with_overhead rc b in
  let before := estimate rc' (st_System st) + costs rc' (st_Messages st) in
  (forall s, count_like (estimate rc' s)) -> count_like (ToolResultOverhead b) ->
  len (st_Messages st) <= MaxInt ->
  (MaxInt < before ->
     Compact (S (S n)) rc st b = Some (st, mkReport "recency" 0 MaxInt MaxInt, Some ErrContextExhausted)) /\
  (before <= tb_Input b -> before <= MaxInt ->
     Compact (S (S n)) rc st b = Some (st, mkReport "recency" 0 before before, None)) /\
  (tb_Input b < before <= MaxInt ->
     exists gs target keep out after, grouped rc' (st_Messages st) 0 (st_Messages st) gs /\
       let ks := need (tokens_at gs) (drop_order keep gs) before target in
       Compact (S (S n)) rc st b = Some (out, mkReport "recency" (len ks) before after, None) /\
       out = mkState (st_System st) "" (left_over ks gs) [] /\
       after = before - held (tokens_at gs) ks /\ after = estimate rc' (st_System st) + costs rc' (st_Messages out) /\
       (low_water b target /\ spared gs keep /\ after <= target \/
        target = tb_Input b /\ keep = -1 /\ forall mark newest, low_water b mark -> spared gs newest ->
          mark < before - held (tokens_at gs) (drop_order newest gs)) /\
       (after <= target \/ ks = drop_order keep gs) /\
       (forall p j q, ks = p ++ j :: q -> target < before - held (tokens_at gs) p) /\
       st_Messages out `sublist_of` st_Messages st /\
       List.filter (is_segment Pinned) (st_Messages st) `sublist_of` st_Messages out /\
       (forall g, g ∈ gs -> g_kind g = groupUnresolvedTool -> g_msgs g `sublist_of` st_Messages out)).
Proof.
  intros rc' before Hest Hover Hlen. set (gs := groups rc' st). split_and!.
  - intros Hb. cbn [Compact]. fold rc'. rewrite checkedTotal_spec by done. fold before.
    unfold saturated. by rewrite (proj2 (Z.leb_gt before MaxInt)).
  - intros Hb Hm. by apply Compact_fits.
  - intros Hb. destruct (Compact_fitted rc st b Hest Hover Hlen n Hb) as (target & keep & Ec & Hw).
    assert (costs rc' (st_Messages st) <= MaxInt) as Hc by (destruct (Hest (st_System st)); unfold before in Hb; lia).
    assert (forall g, g ∈ gs -> g_drop g = false) as Hd by (by intros g (k & _ & ->)%groups_In; apply group_at_drop).
    set (out := (fitted rc st b target keep).1.1). exists gs, target, keep, out, (TokensAfter (fitted rc st b target keep).1.2).
    destruct (need_order (tokens_at gs) keep gs before target) as (_ & Hsub & Hend).
    destruct (need_spec (tokens_at gs) (drop_order keep gs) before target) as (_ & _ & _ & Hmin).
    destruct (fit_spec rc' Hest Hover target keep st before eq_refl (proj2 Hb) Hlen) as (_ & Hcosts & _).
    split; [by apply groups_grouped|]. cbn zeta. subst out. cbn [fitted fst snd TokensAfter st_Messages]. fold rc' gs before.
    split_and!; try done.
    + by rewrite left_over_kept.
    + destruct Hw as [(El & -> & Hle)|(-> & -> & Hno)]; [left|right].
      * split_and!; [by apply lowWater_spec|apply newest_spared|exact Hle].
      * split_and!; [done|done|]. intros low newest Hl%lowWater_spec Hsp.
        rewrite (spared_unique _ _ _ Hsp (newest_spared gs)). specialize (Hno low Hl). cbn [fitted fst snd TokensAfter] in Hno.
        destruct (need_order (tokens_at gs) (newestCurrentRunGroup gs) gs before low) as (_ & _ & [H|<-]); [|exact Hno].
        destruct (Z.lt_irrefl low). eapply Z.lt_le_trans; [exact Hno|exact H].
    + rewrite <- (groups_concat rc' st). apply kept_sublist.
    + by apply (kept_pinned rc' st keep).
    + intros g Hg Hk. apply (kept_stays rc' st keep); [done|done|by right].
Qed.

(** grouping and compaction terminate, whatever the estimator answers: the
    grouping loop makes at most one round a message and covers the transcript
    with groups that are not empty, and [Compact] calls itself at most once. *)
Theorem compact_terminates rc st b :
  (forall f, (length (st_Messages st) <= f)%nat ->
     groups_loop f rc (st_Messages st) 0 = groups rc st) /\
  flat_map g_msgs (groups rc st) = st_Messages st /\
  (forall g, g ∈ groups rc st -> g_msgs g <> []) /\
  exists r, forall n, (2 <= n)%nat -> Compact n rc st b = Some r.
Proof.
  split_and!.
  - intros f Hf. apply groups_fuel; lia.
  - apply groups_concat.
  - intros g (k & Hk & ->)%groups_In E. pose proof (group_end_range _ k Hk) as [Hge _].
    assert (slice (st_Messages st) k (group_end (st_Messages st) k) = []) as Es
      by (unfold group_at in E; by destruct (group_tokens _ _ _)).
    apply (f_equal length) in Es. unfold slice in Es. rewrite length_take, length_drop in Es.
    simpl in Es. lia.
  - assert (forall rc b', (lowWaterMark (tb_Input b') (LowWaterFraction b')).2 = false ->
      exists r, forall n, (1 <= n)%nat -> Compact n rc st b' = Some r) as Hplain.
    { clear rc. intros rc b' Hb. destruct (lowWaterMark (tb_Input b') (LowWaterFraction b')) as [t l] eqn:El.
      simpl in Hb. subst l. destruct (Compact 1 rc st b') as [r|] eqn:E.
      - exists r. intros [|n] Hn; [lia|]. rewrite <- E. cbn [Compact]. by rewrite El.
      - exfalso. revert E. cbn [Compact]. rewrite El. cbn [andb].
        repeat (case_match; try done). }
    destruct (Hplain (with_overhead rc b) (mkTokenBudget (tb_Input b) (Thresholds b) (ToolResultOverhead b) fzero) eq_refl)
      as [r1 Hr1].
    destruct (Compact 2 rc st b) as [r|] eqn:E.
    + exists r. intros [|[|n]] Hn; [lia..|]. rewrite <- E. remember (S n) as m eqn:Em.
      remember 1%nat as one eqn:E1. cbn [Compact]. rewrite !Hr1 by lia. done.
    + exfalso. revert E. remember 1%nat as one eqn:E1. cbn [Compact]. rewrite !Hr1 by lia.
      repeat (case_match; try done).
Qed.

(** ** A concrete transcript

    An exchange of an earlier turn, the pinned goal, a completed tool chain and
    an unresolved one. *)
Definition demo_msg (role content : string) (seg : Segment) : Message :=
  mkMessage (mkChatMessage role content [] "" "") seg None None 0 0.
Definition demo_call (content : string) : Message :=
  mkMessage (mkChatMessage "assistant" content [mkToolCall "id" "function" "read" "{}"] "" "")
    Elastic None None 0 0.
Definition demo_state : State :=
  mkState "system prompt" ""
    [demo_msg "user" "an old question" Elastic; demo_msg "assistant" "an old answer" Elastic;
     demo_msg "user" "the goal" Pinned;
     demo_call "let me look"; demo_msg "tool" "the observation" Elastic;
     demo_call "and again"] [].
Definition demo_compactor : RecencyCompactor := mkCompactor None 0.
Definition demo_budget (input : Z) (low : float64) : TokenBudget :=
  mkTokenBudget input (mkThresholds fzero fzero fzero) 2 low.

Example demo_groups :
  map (fun g => (length (g_msgs g), g_tokens g, g_kind g)) (groups (mkCompactor None 2) demo_state) =
  [(2%nat, 8, groupHistory); (1%nat, 2, groupPinned); (2%nat, 14, groupCompletedTool);
   (1%nat, 8, groupUnresolvedTool)].
Proof. vm_compute. reflexivity. Qed.

Lemma compact_drops_least_witness :
  exists out after,
    Compact 2 demo_compactor demo_state (demo_budget 30 fzero) =
      Some (out, mkReport "recency" 1 36 after, None) /\ after = 28 /\
    List.filter (is_segment Pinned) (st_Messages demo_state) `sublist_of` st_Messages out.
Proof.
  destruct (compact_drops_least demo_compactor demo_state (demo_budget 30 fzero) 0)
    as (_ & _ & H); [intros s; by apply default_counts|unfold count_like; simpl; int_lia|
    vm_compute; discriminate|].
  destruct H as (gs & target & keep & out & after & _ & Ec & _ & _ & _ & _ & _ & _ & _ & Hp & _);
    [vm_compute; split; [reflexivity|discriminate]|].
  exists out, after. vm_compute in Ec. injection Ec as Eo _ Ea. subst out after.
  split_and!; [vm_compute; reflexivity|reflexivity|exact Hp].
Defined.
