(* ===== verification/MixedAlloc.v ===== *)
(** * MixedAlloc: dividing the input budget between context subjects (agent/mixed_alloc.go)

    In mixed assembly a tool result may carry alternatives for each of its
    subjects.  Message groups compete for the budget by lane, newest first; a
    retained tool chain starts with placeholders for its structured results,
    and every alternative is admitted at the exact cost of the text it changes.
    The units, anchors and subjects that the code shares by pointer are values
    at a path here: each has one owner.  The estimator is an argument. *)

From stdpp Require Import list.
From S2P Require Import Prelude GoString GoText GoFloat Tokens Request ContextSets Compactor ContextManager.

#[local] Open Scope Z_scope.
#[local] Open Scope go_scope.

(** ** Units, anchors, subjects (mixed_subjects.go) *)

Inductive decisionKind := Undecided | DecisionBase | DecisionFloor | DecisionUpgrade | DecisionOmitted.
Inductive omission := NoReason | OmitTokenBudget | OmitByteCap | OmitChainEvicted.
#[export] Instance decisionKind_eq_dec : EqDecision decisionKind.
Proof. solve_decision. Defined.
#[export] Instance omission_eq_dec : EqDecision omission.
Proof. solve_decision. Defined.

Definition omittedObservation : string := "context omitted for budget".

Definition lanePlain : Z := 0.
Definition laneTool : Z := 1.
Definition laneHistory : Z := 2.

Inductive mixedUnitKind := unitPinned | unitUnresolved | unitPlainSpan | unitHistorySpan | unitChain.
#[export] Instance mixedUnitKind_eq_dec : EqDecision mixedUnitKind.
Proof. solve_decision. Defined.

Record upgradeCand := mkCand { uc_next : nat; uc_dTok : Z; capOK : bool; addsVerbatim : bool }.

(** [chosen] is an index into [alts]; -1 is [None]. *)
Record mixedSubject := mkSubject {
  ref : SubjectRef; toolCallID : string; lane : Z; s_rank : Z; alts : list ContextAlternative; span : bool; spanTokens : Z;
  chosen : option nat; omitted : bool; decision : decisionKind; reason : omission; cands : list upgradeCand
}.

Record mixedAnchor := mkAnchor {
  msgIdx : nat; callID : string; a_set : ContextSet; cap : Z; minVerbatim : Z; verbatimGot : Z; content : string; tokens : Z;
  subjects : list mixedSubject
}.

(** The subject of a unit is absent when the unit must fit. *)
Record mixedUnit := mkUnit {
  u_kind : mixedUnitKind; u_msgs : list Message; baseTokens : Z; anchors : list mixedAnchor; subject : option mixedSubject;
  evicted : bool; keep : bool
}.

Definition set_chosen (c : option nat) (s : mixedSubject) : mixedSubject :=
  mkSubject (ref s) (toolCallID s) (lane s) (s_rank s) (alts s) (span s) (spanTokens s) c (omitted s) (decision s) (reason s) (cands s).
Definition set_decision (d : decisionKind) (s : mixedSubject) : mixedSubject :=
  mkSubject (ref s) (toolCallID s) (lane s) (s_rank s) (alts s) (span s) (spanTokens s) (chosen s) (omitted s) d (reason s) (cands s).
Definition set_omitted (o : bool) (r : omission) (s : mixedSubject) : mixedSubject :=
  mkSubject (ref s) (toolCallID s) (lane s) (s_rank s) (alts s) (span s) (spanTokens s) (chosen s) o (decision s) r (cands s).
Definition set_cands (c : list upgradeCand) (s : mixedSubject) : mixedSubject :=
  mkSubject (ref s) (toolCallID s) (lane s) (s_rank s) (alts s) (span s) (spanTokens s) (chosen s) (omitted s) (decision s) (reason s) c.
Definition set_subjects (l : list mixedSubject) (a : mixedAnchor) : mixedAnchor :=
  mkAnchor (msgIdx a) (callID a) (a_set a) (cap a) (minVerbatim a) (verbatimGot a) (content a) (tokens a) l.
Definition set_content (c : string) (t : Z) (a : mixedAnchor) : mixedAnchor :=
  mkAnchor (msgIdx a) (callID a) (a_set a) (cap a) (minVerbatim a) (verbatimGot a) c t (subjects a).
Definition set_verbatim (n : Z) (a : mixedAnchor) : mixedAnchor :=
  mkAnchor (msgIdx a) (callID a) (a_set a) (cap a) (minVerbatim a) n (content a) (tokens a) (subjects a).
Definition set_anchors (l : list mixedAnchor) (u : mixedUnit) : mixedUnit :=
  mkUnit (u_kind u) (u_msgs u) (baseTokens u) l (subject u) (evicted u) (keep u).
Definition set_subject (s : mixedSubject) (u : mixedUnit) : mixedUnit :=
  mkUnit (u_kind u) (u_msgs u) (baseTokens u) (anchors u) (Some s) (evicted u) (keep u).
Definition set_evicted (u : mixedUnit) : mixedUnit :=
  mkUnit (u_kind u) (u_msgs u) (baseTokens u) (anchors u) (subject u) true (keep u).

(** A subject of an anchor, changed in place. *)
Definition on_subject (k : nat) (f : mixedSubject -> mixedSubject) (a : mixedAnchor) : mixedAnchor :=
  set_subjects (alter f k (subjects a)) a.

(** ** The ledger *)

Record mixedAllocState := mkAlloc {
  budget : Z; used : Z; arithmeticOverflow : bool; verbatimShortfalls : Z; evictedGroups : Z; anchorOmissions : Z
}.
Definition set_used (n : Z) (overflow : bool) (st : mixedAllocState) : mixedAllocState :=
  mkAlloc (budget st) n overflow (verbatimShortfalls st) (evictedGroups st) (anchorOmissions st).
Definition one_evicted (st : mixedAllocState) : mixedAllocState :=
  mkAlloc (budget st) (used st) (arithmeticOverflow st) (verbatimShortfalls st) (evictedGroups st +i 1) (anchorOmissions st).
Definition omissions (n : Z) (st : mixedAllocState) : mixedAllocState :=
  mkAlloc (budget st) (used st) (arithmeticOverflow st) (verbatimShortfalls st) (evictedGroups st) (anchorOmissions st +i n).
Definition one_shortfall (st : mixedAllocState) : mixedAllocState :=
  mkAlloc (budget st) (used st) (arithmeticOverflow st) (verbatimShortfalls st +i 1) (evictedGroups st) (anchorOmissions st).

(** An addition that overflows poisons the ledger, also when it is only probed. *)
Definition fits (st : mixedAllocState) (n : Z) : mixedAllocState * bool :=
  if arithmeticOverflow st then (st, false)
  else
    let '(next, ok) := checkedTokenAdd (used st) n in
    (if ok then st else set_used next true st, ok && (next <=? budget st)).

Definition charge (st : mixedAllocState) (n : Z) : mixedAllocState * bool :=
  if arithmeticOverflow st then (st, false)
  else let '(next, ok) := checkedTokenAdd (used st) n in (set_used next (negb ok) st, ok).

Definition omitSubject (r : omission) (s : mixedSubject) : mixedSubject := set_decision DecisionOmitted (set_omitted true r s).

(** ** Admission *)

(** The text of the alternative chosen for a subject. *)
Definition chosen_text (s : mixedSubject) : option string := i ← chosen s; ca_Content <$> alts s !! i.

Definition anchorJoined (a : mixedAnchor) : string :=
  match omap chosen_text (subjects a) with
  | [] => omittedObservation
  | parts => Join parts (String (Ascii.ascii_of_nat 10) EmptyString)
  end.

Definition alt_verbatim (s : mixedSubject) (i : nat) : Z :=
  match alts s !! i with Some alt => verbatimComponents (Desc alt) | None => 0 end.

Section Alloc.
Context (est : string -> Z).

(** The anchor with alternative [i] for subject [k]. *)
Definition assigned (a : mixedAnchor) (k i : nat) : mixedAnchor := on_subject k (set_chosen (Some i)) a.

(** Every memo of the anchor is dropped: its text, its tokens and the index have moved. *)
Definition committed (a : mixedAnchor) (k i : nat) (s : mixedSubject) (next : string) (nextTokens : Z) (d : decisionKind) : mixedAnchor :=
  let got := verbatimGot a +i alt_verbatim s i in
  let got := match chosen s with Some prev => got -i alt_verbatim s prev | None => got end in
  let a := on_subject k (fun s => set_decision d (set_chosen (Some i) s)) a in
  let a := set_verbatim got (set_content next nextTokens a) in
  set_subjects (map (set_cands []) (subjects a)) a.

Definition tryAssign (st : mixedAllocState) (a : mixedAnchor) (k i : nat) (d : decisionKind) : mixedAllocState * mixedAnchor * bool :=
  match subjects a !! k with
  | None => (st, a, false)
  | Some s =>
      let next := anchorJoined (assigned a k i) in
      if cap a <? slen next then (st, a, false)
      else
        let nextTokens := est next in
        let dTok := nextTokens -i tokens a in
        let '(st, ok) := fits st dTok in
        if negb ok then (st, a, false)
        else ((charge st dTok).1, committed a k i s next nextTokens d, true)
  end.

(** The first of the alternatives that is accepted. *)
Fixpoint try_alts (st : mixedAllocState) (a : mixedAnchor) (k : nat) (l : list nat) (d : decisionKind) : mixedAllocState * mixedAnchor * bool :=
  match l with
  | [] => (st, a, false)
  | i :: l =>
      let '(st, a, ok) := tryAssign st a k i d in
      if ok then (st, a, true) else try_alts st a k l d
  end.

Definition alt_indices (s : mixedSubject) : list nat := seq 0 (length (alts s)).
Definition subject_indices (a : mixedAnchor) : list nat := seq 0 (length (subjects a)).

(** The loops over a list that change it as they go, with the position of each element; [smap_back] goes from the last element to the first. *)
Fixpoint smap {S A} (f : nat -> S -> A -> S * A) (i : nat) (s : S) (l : list A) : S * list A :=
  match l with
  | [] => (s, [])
  | x :: l => let '(s, x) := f i s x in let '(s, l) := smap f (Datatypes.S i) s l in (s, x :: l)
  end.
Fixpoint smap_back {S A} (f : nat -> S -> A -> S * A) (i : nat) (s : S) (l : list A) : S * list A :=
  match l with
  | [] => (s, [])
  | x :: l => let '(s, l) := smap_back f (Datatypes.S i) s l in let '(s, x) := f i s x in (s, x :: l)
  end.

(** The loops over the subjects of an anchor, which change the anchor. *)
Definition over_subjects {S} (f : S -> mixedAnchor -> nat -> S * mixedAnchor) (st : S) (a : mixedAnchor) : S * mixedAnchor :=
  fold_left (fun '(st, a) k => f st a k) (subject_indices a) (st, a).

Definition omissionReason (st : mixedAllocState) (a : mixedAnchor) (k : nat) (s : mixedSubject) : omission :=
  if len (alts s) =? 0 then reason s
  else
    let next := anchorJoined (assigned a k 0) in
    if cap a <? slen next then OmitByteCap
    else
      let '(total, ok) := checkedTokenAdd (used st) (est next -i tokens a) in
      if negb ok || (budget st <? total) then OmitTokenBudget
      else if bool_decide (reason s = NoReason) then OmitTokenBudget
      else reason s.

Definition with_subject (f : mixedSubject -> mixedSubject) (u : mixedUnit) : mixedUnit :=
  match subject u with Some s => set_subject (f s) u | None => u end.

Definition based (s : mixedSubject) : mixedSubject := set_decision DecisionBase (set_chosen (Some 0%nat) s).

Definition admitSpan (st : mixedAllocState) (u : mixedUnit) : mixedAllocState * mixedUnit :=
  let '(st, ok) := fits st (baseTokens u) in
  if ok then ((charge st (baseTokens u)).1, with_subject based u)
  else (one_evicted st, with_subject (omitSubject OmitTokenBudget) u).

(** Every anchor starts with the placeholder; the sum, whether it overflowed, and whether a cap cannot hold it. *)
Fixpoint precharge (base : Z) (l : list mixedAnchor) : Z * bool * bool * list mixedAnchor :=
  match l with
  | [] => (base, true, false, [])
  | a :: l =>
      let a := set_content omittedObservation (est omittedObservation) a in
      let '(base, ok) := checkedTokenAdd base (tokens a) in
      let '(base, baseOK, capViolated, l) := precharge base l in
      (base, ok && baseOK, (cap a <? slen omittedObservation) || capViolated, a :: l)
  end.

(** The anchor's floor is met once and for all, so leaving the loop is doing nothing in the rest of it. *)
Definition floor_subject (st : mixedAllocState) (a : mixedAnchor) (k : nat) : mixedAllocState * mixedAnchor :=
  if minVerbatim a <=? verbatimGot a then (st, a)
  else match subjects a !! k with
  | None => (st, a)
  | Some s => (try_alts st a k (List.filter (fun i => negb (alt_verbatim s i =? 0)) (alt_indices s)) DecisionFloor).1
  end.
Definition floor_anchor (i : nat) (st : mixedAllocState) (a : mixedAnchor) : mixedAllocState * mixedAnchor :=
  if minVerbatim a <=? 0 then (st, a) else over_subjects floor_subject st a.

Definition base_subject (st : mixedAllocState) (a : mixedAnchor) (k : nat) : mixedAllocState * mixedAnchor :=
  match subjects a !! k with
  | None => (st, a)
  | Some s =>
      if opt_b (chosen s) || omitted s then (st, a)
      else
        let '(st, a, admitted) := try_alts st a k (alt_indices s) DecisionBase in
        if admitted then (st, a)
        else let st := omissions 1 st in (st, on_subject k (omitSubject (omissionReason st a k s)) a)
  end.
Definition base_anchor (i : nat) (st : mixedAllocState) (a : mixedAnchor) : mixedAllocState * mixedAnchor := over_subjects base_subject st a.

Definition evict (u : mixedUnit) : mixedUnit :=
  set_anchors (map (fun a => set_subjects (map (omitSubject OmitChainEvicted) (subjects a)) a) (anchors u))
    (with_subject (omitSubject OmitChainEvicted) (set_evicted u)).

Definition allocateChain (st : mixedAllocState) (u : mixedUnit) : mixedAllocState * mixedUnit :=
  let '(base, baseOK, capViolated, l) := precharge (baseTokens u) (anchors u) in
  let u := set_anchors l u in
  let '(st, ok) := if capViolated || negb baseOK then (st, false) else fits st base in
  if negb ok then (one_evicted (if baseOK then st else set_used base true st), evict u)
  else
    let st := (charge st base).1 in
    let '(st, l) := smap floor_anchor 0 st (anchors u) in
    let '(st, l) := smap base_anchor 0 st l in
    (st, set_anchors l (with_subject based u)).

(** ** Upgrades *)

Definition is_chain (u : mixedUnit) : bool := bool_decide (u_kind u = unitChain).
Definition retained_chain (u : mixedUnit) : bool := is_chain u && negb (evicted u).

(** The loops over the anchors of the chains that are kept. *)
Definition over_anchors {S} (f : nat -> S -> mixedAnchor -> S * mixedAnchor) (st : S) (u : mixedUnit) : S * mixedUnit :=
  if negb (retained_chain u) then (st, u)
  else let '(st, l) := smap f 0 st (anchors u) in (st, set_anchors l u).

(** A later alternative, priced against the anchor as it is. *)
Definition price (a : mixedAnchor) (k : nat) (s : mixedSubject) (prev next : nat) : upgradeCand :=
  let joined := anchorJoined (assigned a k next) in
  let ok := slen joined <=? cap a in
  mkCand next (if ok then est joined -i tokens a else 0) ok (alt_verbatim s prev <? alt_verbatim s next).

(** The scan from candidate [i], with [n] of them left; the memo is filled as far as the scan goes. *)
Fixpoint scan_cands (n i : nat) (st : mixedAllocState) (a : mixedAnchor) (k : nat) (s : mixedSubject) (prev : nat) (memo : list upgradeCand) (evidenceOnly : bool) : mixedAllocState * list upgradeCand * option (nat * Z) :=
  match n with
  | O => (st, memo, None)
  | S n =>
      let memo := if (i =? length memo)%nat then memo ++ [price a k s prev (prev + 1 + i)] else memo in
      match memo !! i with
      | None => (st, memo, None)
      | Some c =>
          if (evidenceOnly && negb (addsVerbatim c)) || negb (capOK c) then scan_cands n (S i) st a k s prev memo evidenceOnly
          else
            let '(st, ok) := fits st (uc_dTok c) in
            if ok then (st, memo, Some (uc_next c, uc_dTok c)) else scan_cands n (S i) st a k s prev memo evidenceOnly
      end
  end.

Definition upgradeCandidate (st : mixedAllocState) (a : mixedAnchor) (k : nat) (s : mixedSubject) (prev : nat) (evidenceOnly : bool) : mixedAllocState * mixedAnchor * option (nat * Z) :=
  let '(st, memo, r) := scan_cands (length (alts s) - (prev + 1)) 0 st a k s prev (cands s) evidenceOnly in
  (st, on_subject k (set_cands memo) a, r).

(** The best candidate so far: its anchor's and its subject's position, its alternative and its cost. *)
Record best := mkBest { b_unit : nat; b_anchor : nat; b_subject : nat; b_next : nat; b_dTok : Z }.

Definition look_subject (evidenceOnly : bool) (iu ia : nat) (acc : mixedAllocState * option best) (a : mixedAnchor) (k : nat) : mixedAllocState * option best * mixedAnchor :=
  let '(st, b) := acc in
  match subjects a !! k with
  | None => (acc, a)
  | Some s =>
      match chosen s with
      | None => (acc, a)
      | Some prev =>
          let '(st, a, r) := upgradeCandidate st a k s prev evidenceOnly in
          let b' := match r with
                    | None => b
                    | Some (next, dTok) =>
                        if match b with None => true | Some b => dTok <? b_dTok b end then Some (mkBest iu ia k next dTok) else b
                    end in
          (st, b', a)
      end
  end.
Definition look_anchor (evidenceOnly : bool) (iu ia : nat) (acc : mixedAllocState * option best) (a : mixedAnchor) : mixedAllocState * option best * mixedAnchor :=
  over_subjects (look_subject evidenceOnly iu ia) acc a.
Definition look_unit (evidenceOnly : bool) (iu : nat) (acc : mixedAllocState * option best) (u : mixedUnit) : mixedAllocState * option best * mixedUnit :=
  over_anchors (look_anchor evidenceOnly iu) acc u.

Definition on_anchor (iu ia : nat) (a : mixedAnchor) (units : list mixedUnit) : list mixedUnit :=
  alter (fun u => set_anchors (alter (fun _ => a) ia (anchors u)) u) iu units.

(** [done] tells that the context is over. *)
Definition upgradeOnce (done : bool) (st : mixedAllocState) (units : list mixedUnit) (evidenceOnly : bool) : mixedAllocState * list mixedUnit * bool :=
  if done then (st, units, false)
  else
    let '(st, b, units) := smap (look_unit evidenceOnly) 0 (st, None) units in
    match b with
    | None => (st, units, false)
    | Some b =>
        match units !! b_unit b ≫= fun u => anchors u !! b_anchor b with
        | None => (st, units, false)
        | Some a =>
            let '(st, a, ok) := tryAssign st a (b_subject b) (b_next b) DecisionUpgrade in
            (st, on_anchor (b_unit b) (b_anchor b) a units, ok)
        end
    end.

Definition retry_subject (acc : mixedAllocState * bool) (a : mixedAnchor) (k : nat) : mixedAllocState * bool * mixedAnchor :=
  let '(st, progress) := acc in
  match subjects a !! k with
  | None => (acc, a)
  | Some s =>
      if negb (omitted s) || bool_decide (reason s = OmitChainEvicted) then (acc, a)
      else
        let '(st, a, ok) := try_alts st a k (alt_indices s) DecisionBase in
        if ok then (omissions (-1) st, true, on_subject k (set_omitted false NoReason) a) else (st, progress, a)
  end.
Definition retry_anchor (ia : nat) (acc : mixedAllocState * bool) (a : mixedAnchor) : mixedAllocState * bool * mixedAnchor :=
  over_subjects retry_subject acc a.
Definition retry_unit (iu : nat) (acc : mixedAllocState * bool) (u : mixedUnit) : mixedAllocState * bool * mixedUnit :=
  over_anchors retry_anchor acc u.

Fixpoint retryOmitted (fuel : nat) (st : mixedAllocState) (units : list mixedUnit) : option (mixedAllocState * list mixedUnit) :=
  match fuel with
  | O => None
  | S fuel =>
      let '(st, progress, units) := smap_back retry_unit 0 (st, false) units in
      if progress then retryOmitted fuel st units else Some (st, units)
  end.

Definition refresh_subject (st : mixedAllocState) (a : mixedAnchor) (k : nat) : mixedAllocState * mixedAnchor :=
  match subjects a !! k with
  | None => (st, a)
  | Some s =>
      if omitted s && negb (bool_decide (reason s = OmitChainEvicted)) && (0 <? len (alts s))
      then (st, on_subject k (set_omitted true (omissionReason st a k s)) a) else (st, a)
  end.
Definition refresh_unit (iu : nat) (st : mixedAllocState) (u : mixedUnit) : mixedAllocState * mixedUnit :=
  over_anchors (fun _ => over_subjects refresh_subject) st u.
Definition refreshOmissionReasons (st : mixedAllocState) (units : list mixedUnit) : list mixedUnit :=
  (smap refresh_unit 0 st units).2.

(** ** The whole allocation *)

Definition must_fit (u : mixedUnit) : bool := bool_decide (u_kind u = unitPinned) || bool_decide (u_kind u = unitUnresolved).

Fixpoint reserve (st : mixedAllocState) (units : list mixedUnit) : mixedAllocState * bool :=
  match units with
  | [] => (st, true)
  | u :: units =>
      if must_fit u then
        let '(st, ok) := charge st (baseTokens u) in
        let '(st, rest) := reserve st units in (st, ok && rest)
      else reserve st units
  end.

Definition is_omitted (u : mixedUnit) : bool := match subject u with Some s => omitted s | None => false end.

Definition admit_unit (st : mixedAllocState) (u : mixedUnit) : mixedAllocState * mixedUnit :=
  if is_chain u then allocateChain st u else admitSpan st u.

(** The kept units, in order; the first that does not fit ends the pass. *)
Fixpoint admit_kept (st : mixedAllocState) (units : list mixedUnit) : mixedAllocState * list mixedUnit * bool :=
  match units with
  | [] => (st, [], true)
  | u :: units =>
      if negb (keep u) then let '(st, units, ok) := admit_kept st units in (st, u :: units, ok)
      else
        let '(st, u) := admit_unit st u in
        if is_omitted u then (st, u :: units, false)
        else let '(st, units, ok) := admit_kept st units in (st, u :: units, ok)
  end.

Definition lane_unit (kind : mixedUnitKind) (f : mixedAllocState -> mixedUnit -> mixedAllocState * mixedUnit) (iu : nat) (st : mixedAllocState) (u : mixedUnit) : mixedAllocState * mixedUnit :=
  if negb (bool_decide (u_kind u = kind)) || (negb (bool_decide (kind = unitHistorySpan)) && keep u) then (st, u) else f st u.

Definition lanes (st : mixedAllocState) (units : list mixedUnit) : mixedAllocState * list mixedUnit :=
  let '(st, units) := smap_back (lane_unit unitPlainSpan admitSpan) 0 st units in
  let '(st, units) := smap_back (lane_unit unitChain allocateChain) 0 st units in
  smap_back (lane_unit unitHistorySpan admitSpan) 0 st units.

(** [over n] tells whether the context is over at the [n]-th call of [upgradeOnce]. *)
Fixpoint upgrades (fuel : nat) (over : nat -> bool) (n : nat) (st : mixedAllocState) (units : list mixedUnit) : option (mixedAllocState * list mixedUnit) :=
  match fuel with
  | O => None
  | S fuel' =>
      let '(st, units, ok) := upgradeOnce (over n) st units true in
      let '(st, units, ok, n) :=
        if ok then (st, units, true, S n)
        else let '(st, units, ok) := upgradeOnce (over (S n)) st units false in (st, units, ok, S (S n)) in
      if ok then '(st, units) ← retryOmitted fuel st units; upgrades fuel' over n st units else Some (st, units)
  end.

Definition short (a : mixedAnchor) : bool := (0 <? minVerbatim a) && (verbatimGot a <? minVerbatim a).
Definition count_shortfalls (st : mixedAllocState) (units : list mixedUnit) : mixedAllocState :=
  fold_left (fun st a => if short a then one_shortfall st else st) (flat_map anchors units) st.

Definition allocateMixed (fuel : nat) (over : nat -> bool) (units : list mixedUnit) (n sysTokens : Z) : option (mixedAllocState * list mixedUnit * option agentError) :=
  let st := mkAlloc n sysTokens false 0 0 0 in
  let '(st, reservationsOK) := reserve st units in
  if negb reservationsOK || (budget st <? used st) then Some (st, units, Some ErrContextExhausted)
  else
    let '(st, units, kept) := admit_kept st units in
    if negb kept then Some (st, units, Some ErrContextExhausted)
    else
      let '(st, units) := lanes st units in
      '(st, units) ← upgrades fuel over 0 st units;
      let units := if arithmeticOverflow st then units else refreshOmissionReasons st units in
      let st := count_shortfalls st units in
      Some (st, units, if arithmeticOverflow st then Some ErrContextExhausted else None).
End Alloc.

(** ** Reading the definitions *)

(** A subject as a text sees it. *)
Definition view (s : mixedSubject) : list ContextAlternative * option nat := (alts s, chosen s).
Definition view_text (v : list ContextAlternative * option nat) : option string := i ← v.2; ca_Content <$> v.1 !! i.
Definition joined (l : list (list ContextAlternative * option nat)) : string :=
  match omap view_text l with
  | [] => omittedObservation
  | parts => Join parts (String (Ascii.ascii_of_nat 10) EmptyString)
  end.

Lemma anchorJoined_view a : anchorJoined a = joined (view <$> subjects a).
Proof.
  unfold anchorJoined, joined. replace (omap view_text (view <$> subjects a)) with (omap chosen_text (subjects a)); [done|].
  induction (subjects a) as [|s l IH]; [done|]. csimpl.
  change (view_text (view s)) with (chosen_text s). by rewrite IH.
Qed.

(** ** The loops *)

(** A loop body keeps an account, what is booked being the rest and the element, and turns [P] elements into [Q] elements. *)
Definition passes {S A} (Inv : Z -> S -> Prop) (w : A -> Z) (P Q : A -> Prop) (f : S -> A -> S * A) : Prop :=
  forall R s x, 0 <= R -> P x -> Inv (R + w x) s -> Inv (R + w (f s x).2) (f s x).1 /\ Q (f s x).2.
Definition keeps {S A} (Inv : Z -> S -> Prop) (w : A -> Z) (Q : A -> Prop) (f : S -> A -> S * A) : Prop := passes Inv w Q Q f.

Lemma weights_nonneg {A} (w : A -> Z) (P : A -> Prop) l : (forall x, P x -> 0 <= w x) -> Forall P l -> 0 <= Zsum (map w l).
Proof. intros Hw Hl. apply Zsum_nonneg, Forall_map. eapply Forall_impl; [exact Hl|apply Hw]. Qed.

Lemma weight_le {A} (w : A -> Z) (P : A -> Prop) l k x :
  (forall x, P x -> 0 <= w x) -> Forall P l -> l !! k = Some x -> w x <= Zsum (map w l).
Proof.
  intros Hw Hl. revert k. induction Hl as [|y l Hy Hl IH]; intros [|k] Hk; simplify_eq/=.
  - pose proof (weights_nonneg w P l Hw Hl). lia.
  - specialize (IH k Hk). specialize (Hw y Hy). lia.
Qed.

Lemma passes_smap {S A} Inv w P Q (f : nat -> S -> A -> S * A) :
  (forall x, P x -> 0 <= w x) -> (forall x, Q x -> 0 <= w x) -> (forall i, passes Inv w P Q (f i)) ->
  forall i R s l, 0 <= R -> Forall P l -> Inv (R + Zsum (map w l)) s ->
  Inv (R + Zsum (map w (smap f i s l).2)) (smap f i s l).1 /\ Forall Q (smap f i s l).2.
Proof.
  intros HP HQ Hf i R s l HR Hl. revert i R s HR. induction Hl as [|x l Hx Hl IH]; intros i R s HR HI; [done|].
  simpl in *. pose proof (weights_nonneg w P l HP Hl). destruct (f i s x) as [s1 x1] eqn:E.
  destruct (Hf i (R + Zsum (map w l)) s x) as [H1 H2]; [lia|done| |].
  { by replace (R + Zsum (map w l) + w x) with (R + (w x + Zsum (map w l))) by lia. }
  rewrite E in H1, H2. simpl in H1, H2. pose proof (HQ x1 H2).
  destruct (IH (Datatypes.S i) (R + w x1) s1) as [H3 H4]; [lia| |].
  { by replace (R + w x1 + Zsum (map w l)) with (R + Zsum (map w l) + w x1) by lia. }
  destruct (smap f (Datatypes.S i) s1 l) as [s2 l2]. simpl in *. split; [|by constructor].
  by replace (R + (w x1 + Zsum (map w l2))) with (R + w x1 + Zsum (map w l2)) by lia.
Qed.

Lemma passes_smap_back {S A} Inv w P Q (f : nat -> S -> A -> S * A) :
  (forall x, P x -> 0 <= w x) -> (forall x, Q x -> 0 <= w x) -> (forall i, passes Inv w P Q (f i)) ->
  forall i R s l, 0 <= R -> Forall P l -> Inv (R + Zsum (map w l)) s ->
  Inv (R + Zsum (map w (smap_back f i s l).2)) (smap_back f i s l).1 /\ Forall Q (smap_back f i s l).2.
Proof.
  intros HP HQ Hf i R s l HR Hl. revert i R s HR. induction Hl as [|x l Hx Hl IH]; intros i R s HR HI; [done|].
  simpl in *. pose proof (HP x Hx). destruct (IH (Datatypes.S i) (R + w x) s) as [H1 H2]; [lia| |].
  { by replace (R + w x + Zsum (map w l)) with (R + (w x + Zsum (map w l))) by lia. }
  destruct (smap_back f (Datatypes.S i) s l) as [s1 l1]. simpl in *. pose proof (weights_nonneg w Q l1 HQ H2).
  destruct (Hf i (R + Zsum (map w l1)) s1 x) as [H3 H4]; [lia|done| |].
  { by replace (R + Zsum (map w l1) + w x) with (R + w x + Zsum (map w l1)) by lia. }
  destruct (f i s1 x) as [s2 x2]. simpl in *. split; [|by constructor].
  by replace (R + (w x2 + Zsum (map w l1))) with (R + Zsum (map w l1) + w x2) by lia.
Qed.

(** What a body leaves as it is. *)
Lemma smap_map {S A B} (g : A -> B) (f : nat -> S -> A -> S * A) i s l :
  (forall i s x, g (f i s x).2 = g x) -> map g (smap f i s l).2 = map g l.
Proof.
  intros Hf. revert i s. induction l as [|x l IH]; intros i s; [done|]. simpl. pose proof (Hf i s x) as H.
  destruct (f i s x) as [s1 x1]. specialize (IH (Datatypes.S i) s1). destruct (smap f (Datatypes.S i) s1 l). simpl in *. congruence.
Qed.
Lemma smap_back_map {S A B} (g : A -> B) (f : nat -> S -> A -> S * A) i s l :
  (forall i s x, g (f i s x).2 = g x) -> map g (smap_back f i s l).2 = map g l.
Proof.
  intros Hf. revert i s. induction l as [|x l IH]; intros i s; [done|]. simpl. specialize (IH (Datatypes.S i) s).
  destruct (smap_back f (Datatypes.S i) s l) as [s1 l1]. pose proof (Hf i s1 x) as H. destruct (f i s1 x). simpl in *. congruence.
Qed.

(** What a body keeps true of the state, at each position. *)
Lemma smap_state {S A} (P : S -> Prop) (f : nat -> S -> A -> S * A) i s l :
  (forall j s x, l !! j = Some x -> P s -> P (f (i + j)%nat s x).1) -> P s -> P (smap f i s l).1.
Proof.
  revert i s. induction l as [|x l IH]; intros i s Hf Hs; [done|]. simpl.
  pose proof (Hf 0%nat s x eq_refl Hs) as H. rewrite Nat.add_0_r in H. destruct (f i s x) as [s1 x1].
  assert (P (smap f (Datatypes.S i) s1 l).1) as H1; [|by destruct (smap f (Datatypes.S i) s1 l)].
  apply IH; [|done]. intros j s' x' Hj. specialize (Hf (Datatypes.S j) s' x' Hj).
  by replace (Datatypes.S i + j)%nat with (i + Datatypes.S j)%nat by lia.
Qed.

Lemma over_subjects_ind {S} (P : S -> mixedAnchor -> Prop) f st a :
  (forall st a k, P st a -> P (f st a k).1 (f st a k).2) -> P st a -> P (over_subjects f st a).1 (over_subjects f st a).2.
Proof.
  intros Hf. unfold over_subjects. generalize (subject_indices a) as l.
  intros l. revert st a. induction l as [|k l IH]; intros st a Ha; [done|]. simpl.
  specialize (Hf st a k Ha). destruct (f st a k). by apply IH.
Qed.

Lemma over_subjects_keeps {S} Inv w Q (f : S -> mixedAnchor -> nat -> S * mixedAnchor) :
  (forall k, keeps Inv w Q (fun s a => f s a k)) -> keeps Inv w Q (over_subjects f).
Proof.
  intros Hf R s a HR Hq HI. apply (over_subjects_ind (fun s a => Inv (R + w a) s /\ Q a)); [|done].
  intros s' a' k [H1 H2]. by apply (Hf k R s' a').
Qed.

(** ** The ledger *)

(** The state accounts for [R] tokens within the budget [n], unless it is poisoned. *)
Definition Led (n R : Z) (st : mixedAllocState) : Prop :=
  budget st = n /\ (arithmeticOverflow st = true \/ used st = R /\ R <= n /\ arithmeticOverflow st = false).

Section Ledger.
Context (n : Z) (Hn : in_int n).

Lemma fits_led R st d : 0 <= R -> Led n R st -> in_int d -> 0 <= R + d ->
  Led n R (fits st d).1 /\ ((fits st d).2 = true -> (fits st d).1 = st /\ Led n (R + d) (charge st d).1).
Proof using Hn.
  intros HR [Hb Hu] Hd HRd. unfold fits, charge. destruct Hu as [Ho|(Hu & HRn & Ho)]; rewrite Ho.
  { split; [|done]. split; [done|by left]. }
  assert (in_int (used st)) by (rewrite Hu; unfold in_int, MinInt in *; lia).
  rewrite checkedTokenAdd_spec by done. case_bool_decide as Hin; simpl.
  - split; [split; [done|by right]|]. rewrite Hb. intros Hle%Z.leb_le.
    split; [done|]. split; [done|]. right. simpl. rewrite Hu. rewrite Hu in Hle. done.
  - split; [|done]. split; [done|by left].
Qed.

Lemma omissions_led R m st : Led n R st -> Led n R (omissions m st).
Proof. done. Qed.
Lemma one_evicted_led R st : Led n R st -> Led n R (one_evicted st).
Proof. done. Qed.
End Ledger.

(** ** Anchors *)

Definition chosen_verbatim (s : mixedSubject) : Z := match chosen s with Some i => alt_verbatim s i | None => 0 end.
Definition in_range (s : mixedSubject) : Prop := match chosen s with Some i => (i < length (alts s))%nat | None => True end.
Definition apart (s : mixedSubject) : Prop := omitted s = true -> chosen s = None.
Definition not_omitted (s : mixedSubject) : Prop := omitted s = false.

Section Anchors.
Context (est : string -> Z).

Definition memo_valid (a : mixedAnchor) : Prop :=
  forall k s prev, subjects a !! k = Some s -> chosen s = Some prev ->
  forall i c, cands s !! i = Some c -> c = price est a k s prev (prev + 1 + i).

(** A retained anchor carries its text at its exact cost, within its cap, with the verbatim parts counted. *)
Record core (a : mixedAnchor) : Prop := {
  core_content : content a = anchorJoined a;
  core_tokens : tokens a = est (content a);
  core_cap : slen (content a) <= cap a;
  core_verbatim : verbatimGot a = wrap_int (Zsum (map chosen_verbatim (subjects a)));
  core_range : Forall in_range (subjects a);
  core_memo : memo_valid a
}.

Lemma assigned_joined a k i :
  anchorJoined (assigned a k i) = joined (alter (fun v => (v.1, Some i)) k (view <$> subjects a)).
Proof using.
  rewrite anchorJoined_view. f_equal. unfold assigned, on_subject. simpl.
  apply list_fmap_alter, Forall_forall. done.
Qed.

Lemma price_same a a' k s s' prev next :
  view <$> subjects a = view <$> subjects a' -> cap a = cap a' -> tokens a = tokens a' -> alts s = alts s' ->
  price est a k s prev next = price est a' k s' prev next.
Proof using.
  intros Hv Hc Ht Ha. unfold price. rewrite !assigned_joined, Hv, Hc, Ht. unfold alt_verbatim. by rewrite Ha.
Qed.

Lemma view_chosen_verbatim l l' : view <$> l = view <$> l' -> map chosen_verbatim l = map chosen_verbatim l'.
Proof using.
  revert l'. induction l as [|s l IH]; intros [|s' l'] E; try done. injection E as Ea Ec E. simpl.
  f_equal; [|by apply IH]. unfold chosen_verbatim, alt_verbatim. by rewrite Ea, Ec.
Qed.

Lemma view_in_range l l' : view <$> l = view <$> l' -> Forall in_range l -> Forall in_range l'.
Proof using.
  revert l'. induction l as [|s l IH]; intros [|s' l'] E; try done. injection E as Ea Ec E.
  intros [H1 H2]%Forall_cons_1. constructor; [|by apply IH]. unfold in_range in *. by rewrite <- Ea, <- Ec.
Qed.

Lemma core_same a a' :
  view <$> subjects a = view <$> subjects a' -> cap a = cap a' -> tokens a = tokens a' -> content a = content a' ->
  verbatimGot a = verbatimGot a' -> memo_valid a' -> core a -> core a'.
Proof using.
  intros Hv Hc Ht Hco Hg Hm [H1 H2 H3 H4 H5 _]. split; [| | | | |done].
  - by rewrite <- Hco, H1, !anchorJoined_view, Hv.
  - congruence.
  - congruence.
  - by rewrite <- Hg, H4, (view_chosen_verbatim _ _ Hv).
  - by eapply view_in_range.
Qed.

(** A change of a subject that shows neither in the text nor in the memo. *)
Lemma on_subject_view k f a : (forall s, view (f s) = view s) -> view <$> subjects (on_subject k f a) = view <$> subjects a.
Proof using.
  intros Hf. unfold on_subject. simpl. rewrite (list_fmap_alter view f (fun v => v)).
  - apply list_eq. intros i. rewrite list_lookup_alter. case_decide; [subst|done]. by destruct (_ !! i).
  - apply Forall_forall. done.
Qed.

Lemma core_on_subject k f a : (forall s, view (f s) = view s /\ cands (f s) = cands s) -> core a -> core (on_subject k f a).
Proof using.
  intros Hf Hc. assert (view <$> subjects a = view <$> subjects (on_subject k f a)) as Hv
    by (symmetry; apply on_subject_view; apply Hf).
  apply (core_same a); try done.
  intros j s prev Hs Hch i c Hi. unfold on_subject in Hs. simpl in Hs. rewrite list_lookup_alter in Hs.
  case_decide; subst.
  - apply fmap_Some in Hs as (s0 & Hs & ->). destruct (Hf s0) as [E1 E2]. injection E1 as Ea Ech.
    rewrite E2 in Hi. rewrite Ech in Hch. rewrite (core_memo _ Hc _ _ _ Hs Hch i c Hi). by apply price_same.
  - rewrite (core_memo _ Hc _ _ _ Hs Hch i c Hi). by apply price_same.
Qed.

(** ** Committing an alternative *)

Lemma committed_view a k i s t n d :
  view <$> subjects (committed a k i s t n d) = alter (fun v => (v.1, Some i)) k (view <$> subjects a).
Proof using.
  unfold committed, on_subject. simpl. rewrite <- list_fmap_compose.
  apply list_fmap_alter, Forall_forall. done.
Qed.

Lemma committed_core a k i s d :
  core a -> subjects a !! k = Some s -> (i < length (alts s))%nat ->
  let next := anchorJoined (assigned a k i) in
  slen next <= cap a -> core (committed a k i s next (est next) d).
Proof using.
  intros [H1 H2 H3 H4 H5 _] Hs Hi next Hcap. split; [| | | | |].
  - rewrite anchorJoined_view, committed_view. simpl. unfold next. by rewrite assigned_joined.
  - done.
  - done.
  - unfold committed, on_subject. simpl. rewrite map_map.
    change (map (fun x => chosen_verbatim (set_cands [] x))) with (map chosen_verbatim).
    rewrite (Zsum_map_alter _ _ _ _ s) by done. rewrite H4.
    replace (chosen_verbatim (set_decision d (set_chosen (Some i) s))) with (alt_verbatim s i) by done.
    assert (chosen_verbatim s = match chosen s with Some i => alt_verbatim s i | None => 0 end) as -> by done.
    destruct (chosen s) as [prev|]; rewrite !wrap_int_add_l.
    + etrans; [apply (wrap_int_add_l _ (- _))|]. f_equal. lia.
    + f_equal. lia.
  - apply Forall_map. unfold on_subject. simpl.
    apply Forall_alter; [done|]. rewrite Hs. by intros ? [= <-] _.
  - intros j s' prev Hj Hc m c Hm. unfold committed in Hj. simpl in Hj.
    rewrite list_lookup_fmap in Hj. apply fmap_Some in Hj as (s0 & _ & ->). done.
Qed.

(** An assignment either leaves the anchor alone or commits it. *)
Lemma tryAssign_spec st a k i d :
  core a -> (forall s, subjects a !! k = Some s -> (i < length (alts s))%nat) ->
  let '(st', a', ok) := tryAssign est st a k i d in
  core a' /\
  if ok then exists s, subjects a !! k = Some s /\ a' = committed a k i s (anchorJoined (assigned a k i)) (tokens a') d
  else a' = a.
Proof using.
  intros Hc Hi. unfold tryAssign. destruct (subjects a !! k) as [s|] eqn:Hs; [|done].
  destruct (cap a <? slen _) eqn:Hcap; [done|]. to_prop. destruct (fits _ _) as [st1 []]; [|done]. simpl.
  split; [apply committed_core; auto; lia|]. by exists s.
Qed.

Lemma tryAssign_led n R st a k i d :
  (forall s, count_like (est s)) -> in_int n -> core a -> 0 <= R -> Led n (R + tokens a) st ->
  Led n (R + tokens (tryAssign est st a k i d).1.2) (tryAssign est st a k i d).1.1.
Proof using.
  intros He Hn Hc HR HL. unfold tryAssign. destruct (subjects a !! k) as [s|] eqn:Hs; [|done].
  destruct (cap a <? slen _) eqn:Hcap; [done|].
  pose proof (He (content a)) as H1. pose proof (He (anchorJoined (assigned a k i))) as H2. rewrite <- (core_tokens _ Hc) in H1.
  unfold count_like in *. set (t := est _) in *. rewrite wrap_int_id by int_lia.
  destruct (fits_led n Hn (R + tokens a) st (t - tokens a)) as [H3 H4]; [lia|done|int_lia|lia|].
  destruct (fits _ _) as [st1 []]; simpl in *; [|done]. destruct (H4 eq_refl) as [-> H5].
  by replace (R + t) with (R + tokens a + (t - tokens a)) by lia.
Qed.

Lemma committed_Forall (X : mixedSubject -> Prop) a k i s t m d :
  (forall s', X s' -> X (set_cands [] s')) -> X (set_cands [] (set_decision d (set_chosen (Some i) s))) ->
  subjects a !! k = Some s -> Forall X (subjects a) -> Forall X (subjects (committed a k i s t m d)).
Proof using.
  intros HX Hk Hs Ha. unfold committed, on_subject. simpl. apply Forall_lookup. intros j s' Hj.
  rewrite list_lookup_fmap, list_lookup_alter in Hj. case_decide; subst.
  - rewrite Hs in Hj. simpl in Hj. by injection Hj as <-.
  - destruct (subjects a !! j) as [s0|] eqn:E; [|done]. simpl in Hj. injection Hj as <-. apply HX.
    by eapply Forall_lookup_1.
Qed.

(** The anchor and the subject that took an alternative from [l]. *)
Lemma try_alts_spec st a k l d :
  core a -> (forall s, subjects a !! k = Some s -> Forall (fun i => (i < length (alts s))%nat) l) ->
  let '(st', a', ok) := try_alts est st a k l d in
  core a' /\
  if ok then exists i s, i ∈ l /\ (i < length (alts s))%nat /\ subjects a !! k = Some s /\ a' = committed a k i s (anchorJoined (assigned a k i)) (tokens a') d
  else a' = a.
Proof using.
  intros Hc. revert st. induction l as [|i l IH]; intros st Hl; [done|]. simpl.
  pose proof (tryAssign_spec st a k i d Hc) as H. destruct (tryAssign est st a k i d) as [[st1 a1] ok].
  destruct H as [H1 H2]; [intros s Hs; by apply Hl, Forall_cons_1 in Hs as []|].
  destruct ok; [|subst a1].
  - split; [done|]. destruct H2 as (s & H2 & H3). exists i, s. split; [by left|].
    split; [|done]. by apply Hl, Forall_cons_1 in H2 as [].
  - specialize (IH st1). destruct (try_alts est st1 a k l d) as [[st2 a2] ok2].
    destruct IH as [H3 H4]; [intros s Hs; by apply Hl, Forall_cons_1 in Hs as []|].
    split; [done|]. destruct ok2; [|done]. destruct H4 as (j & s & ? & ? & ? & ?). exists j, s.
    split; [by right|done].
Qed.

Lemma try_alts_led n R st a k l d :
  (forall s, count_like (est s)) -> in_int n -> core a -> 0 <= R -> Led n (R + tokens a) st ->
  (forall s, subjects a !! k = Some s -> Forall (fun i => (i < length (alts s))%nat) l) ->
  Led n (R + tokens (try_alts est st a k l d).1.2) (try_alts est st a k l d).1.1.
Proof using.
  intros He Hn Hc HR. revert st. induction l as [|i l IH]; intros st HL Hl; [done|]. simpl.
  pose proof (tryAssign_led n R st a k i d He Hn Hc HR HL) as H1. pose proof (tryAssign_spec st a k i d Hc) as H2.
  destruct (tryAssign est st a k i d) as [[st1 a1] ok]. destruct ok; [done|].
  destruct H2 as [_ ->]; [intros s Hs; by apply Hl, Forall_cons_1 in Hs as []|].
  apply IH; [done|]. intros s Hs; by apply Hl, Forall_cons_1 in Hs as [].
Qed.

Lemma alt_indices_range s : Forall (fun i => (i < length (alts s))%nat) (alt_indices s).
Proof using. apply Forall_forall. intros i Hi%elem_of_seq. lia. Qed.
End Anchors.

(** ** Decisions *)

Definition admitted (s : mixedSubject) : Prop :=
  opt_b (chosen s) = true /\ omitted s = false /\ reason s = NoReason /\ (decision s = DecisionBase \/ decision s = DecisionFloor \/ decision s = DecisionUpgrade).
Definition dropped (s : mixedSubject) : Prop :=
  chosen s = None /\ omitted s = true /\ decision s = DecisionOmitted /\ (reason s = OmitTokenBudget \/ reason s = OmitByteCap).
Definition pending (s : mixedSubject) : Prop := chosen s = None /\ omitted s = false /\ reason s = NoReason.
Definition settled (s : mixedSubject) : Prop := admitted s \/ dropped s.
Definition has_alts (s : mixedSubject) : Prop := alts s <> [].
Definition opened (s : mixedSubject) : Prop := has_alts s /\ (pending s \/ admitted s).
Definition partial (s : mixedSubject) : Prop := has_alts s /\ (pending s \/ settled s).
Definition resolved (s : mixedSubject) : Prop := has_alts s /\ settled s.

Lemma cleared_partial s : partial s -> partial (set_cands [] s).
Proof. done. Qed.
Lemma cleared_resolved s : resolved s -> resolved (set_cands [] s).
Proof. done. Qed.

(** Committing a subject that was not omitted admits it. *)
Lemma chosen_admitted d i s :
  d = DecisionBase \/ d = DecisionFloor \/ d = DecisionUpgrade -> omitted s = false -> reason s = NoReason ->
  admitted (set_cands [] (set_decision d (set_chosen (Some i) s))).
Proof. done. Qed.

Lemma omissionReason_names est st a k s :
  has_alts s -> reason s = NoReason \/ reason s = OmitTokenBudget \/ reason s = OmitByteCap ->
  omissionReason est st a k s = OmitTokenBudget \/ omissionReason est st a k s = OmitByteCap.
Proof.
  unfold has_alts, omissionReason. intros Ha Hr. destruct (alts s) eqn:E; [done|]. simpl.
  destruct (_ <? _); [by right|]. destruct (checkedTokenAdd _ _) as [total ok]. destruct (_ || _); [by left|].
  case_bool_decide; [by left|]. destruct Hr as [|[|]]; [done|by left|by right].
Qed.

Definition shape (a : mixedAnchor) : list (list ContextAlternative * option nat) := view <$> subjects a.
Definition shapes (units : list mixedUnit) : list (list (list (list ContextAlternative * option nat))) :=
  map (fun u => map shape (anchors u)) units.

(** ** The measure

    How far the subjects can still advance. *)

Definition room_subject (s : mixedSubject) : Z := len (alts s) - match chosen s with Some i => Z.of_nat i + 1 | None => 0 end.
Definition room_anchor (a : mixedAnchor) : Z := Zsum (map room_subject (subjects a)).
Definition room_unit (u : mixedUnit) : Z := Zsum (map room_anchor (anchors u)).
Definition room (units : list mixedUnit) : Z := Zsum (map room_unit units).

Lemma room_subject_nonneg s : in_range s -> 0 <= room_subject s.
Proof. unfold in_range, room_subject, len. destruct (chosen s); lia. Qed.

Lemma room_anchor_nonneg est a : core est a -> 0 <= room_anchor a.
Proof. intros Hc. apply (weights_nonneg _ in_range); [apply room_subject_nonneg|apply (core_range _ _ Hc)]. Qed.

Definition room_view (v : list ContextAlternative * option nat) : Z := len v.1 - match v.2 with Some i => Z.of_nat i + 1 | None => 0 end.

Lemma room_shape a : room_anchor a = Zsum (map room_view (shape a)).
Proof. unfold room_anchor, shape. f_equal. change (view <$> subjects a) with (map view (subjects a)). by rewrite map_map. Qed.

Lemma room_shapes units units' : shapes units = shapes units' -> room units = room units'.
Proof.
  assert (forall l, room l = Zsum (map (fun L => Zsum (map (fun sh => Zsum (map room_view sh)) L)) (shapes l))) as H; [|intros E; by rewrite !H, E].
  intros l. unfold room, shapes. rewrite map_map. apply Zsum_map_ext. intros u _. unfold room_unit. rewrite map_map.
  apply Zsum_map_ext. intros a _. apply room_shape.
Qed.

Lemma committed_room a k i s t m d :
  subjects a !! k = Some s -> room_anchor (committed a k i s t m d) = room_anchor a - room_subject s + (len (alts s) - (Z.of_nat i + 1)).
Proof.
  intros Hs. unfold room_anchor, committed, on_subject. simpl. rewrite map_map.
  change (map (fun x => room_subject (set_cands [] x))) with (map room_subject).
  by rewrite (Zsum_map_alter _ _ _ _ s).
Qed.

Lemma on_subject_room k f a : (forall s, view (f s) = view s) -> room_anchor (on_subject k f a) = room_anchor a.
Proof. intros Hf. rewrite !room_shape. unfold shape. by rewrite on_subject_view. Qed.

(** ** What the passes keep *)

Section Steps.
Context (est : string -> Z) (He : forall s, count_like (est s)) (n : Z) (Hn : in_int n).

(** An anchor at its exact cost, whose subjects are all [X]. *)
Definition exact (X : mixedSubject -> Prop) (a : mixedAnchor) : Prop := core est a /\ Forall X (subjects a).

Lemma floor_keeps k : keeps (Led n) tokens (exact opened) (fun st a => floor_subject est st a k).
Proof using He Hn.
  intros R st a HR [Hc HX] HL. unfold floor_subject. destruct (_ <=? _); [done|].
  destruct (subjects a !! k) as [s|] eqn:Hs; [|done].
  set (l := List.filter _ _).
  assert (forall s', subjects a !! k = Some s' -> Forall (fun i => (i < length (alts s'))%nat) l) as Hl.
  { rewrite Hs. intros ? [= <-]. apply Forall_forall. intros i Hi%list_elem_of_In%filter_In.
    destruct Hi as [Hi%list_elem_of_In _]. by eapply Forall_forall in Hi; [|apply alt_indices_range]. }
  pose proof (try_alts_led est n R st a k l DecisionFloor He Hn Hc HR HL Hl) as H1.
  pose proof (try_alts_spec est st a k l DecisionFloor Hc Hl) as H2.
  destruct (try_alts _ _ _ _ _ _) as [[st1 a1] ok]. simpl in *. split; [done|]. destruct H2 as [H2 H3].
  split; [done|]. destruct ok; [|by subst]. destruct H3 as (i & s0 & _ & _ & Hs0 & ->). simplify_eq.
  apply committed_Forall; [done| |done|done].
  eapply Forall_lookup_1 in HX as [Ha HX]; [|done]. split; [done|]. right.
  destruct HX as [(?&?&?)|(?&?&?&?)]; apply chosen_admitted; auto.
Qed.

Lemma base_exact st a k : exact partial a -> exact partial (base_subject est st a k).2.
Proof using.
  intros [Hc HX]. unfold base_subject. destruct (subjects a !! k) as [s|] eqn:Hs; [|done].
  destruct (opt_b (chosen s) || omitted s) eqn:E; [done|]. to_prop.
  assert (forall s', subjects a !! k = Some s' -> Forall (fun i => (i < length (alts s'))%nat) (alt_indices s)) as Hl.
  { rewrite Hs. intros ? [= <-]. apply alt_indices_range. }
  pose proof (try_alts_spec est st a k (alt_indices s) DecisionBase Hc Hl) as H2.
  destruct (try_alts _ _ _ _ _ _) as [[st1 a1] ok]. destruct H2 as [H2 H3].
  pose proof (Forall_lookup_1 _ _ _ _ HX Hs) as [Ha Hp].
  destruct ok.
  - split; [done|]. destruct H3 as (i & s0 & _ & _ & Hs0 & ->). simplify_eq.
    apply committed_Forall; [done| |done|done]. split; [done|]. right. left.
    destruct Hp as [(?&?&?)|[(?&?&?&?)|(?&?&?&?)]]; try congruence; apply chosen_admitted; auto.
  - subst a1. cbn [fst snd]. split.
    + by apply core_on_subject.
    + unfold on_subject. simpl. apply Forall_alter; [done|]. rewrite Hs. intros ? [= <-] _.
      split; [done|]. right. right. destruct Hp as [(?&?&?)|[(?&?&?&?)|(?&?&?&?)]]; try congruence.
      split; [done|]. split; [done|]. split; [done|]. simpl. by apply omissionReason_names; auto.
Qed.

Lemma base_keeps k : keeps (Led n) tokens (exact partial) (fun st a => base_subject est st a k).
Proof using He Hn.
  intros R st a HR Ha HL. split; [|by apply base_exact]. destruct Ha as [Hc HX].
  unfold base_subject. destruct (subjects a !! k) as [s|] eqn:Hs; [|done].
  destruct (opt_b (chosen s) || omitted s) eqn:E; [done|].
  assert (forall s', subjects a !! k = Some s' -> Forall (fun i => (i < length (alts s'))%nat) (alt_indices s)) as Hl.
  { rewrite Hs. intros ? [= <-]. apply alt_indices_range. }
  pose proof (try_alts_led est n R st a k (alt_indices s) DecisionBase He Hn Hc HR HL Hl) as H1.
  by destruct (try_alts _ _ _ _ _ _) as [[st1 a1] []].
Qed.

(** A subject that is taken back uses some of the room. *)
Lemma retry_spec st p a k :
  exact resolved a ->
  let r := retry_subject est (st, p) a k in
  exact resolved r.2 /\ room_anchor r.2 + (if r.1.2 then 1 else 0) <= room_anchor a + (if p : bool then 1 else 0).
Proof using.
  intros [Hc HX]. unfold retry_subject. destruct (subjects a !! k) as [s|] eqn:Hs; [|split; [done|simpl; lia]].
  destruct (negb (omitted s) || _) eqn:E; [split; [done|simpl; lia]|]. to_prop.
  assert (forall s', subjects a !! k = Some s' -> Forall (fun i => (i < length (alts s'))%nat) (alt_indices s)) as Hl.
  { rewrite Hs. intros ? [= <-]. apply alt_indices_range. }
  pose proof (try_alts_spec est st a k (alt_indices s) DecisionBase Hc Hl) as H2.
  destruct (try_alts _ _ _ _ _ _) as [[st1 a1] ok]. cbn [fst snd] in *. destruct H2 as [H2 H3].
  destruct ok; cbn [fst snd]; [|subst; split; [done|lia]]. destruct H3 as (i & s0 & _ & _ & Hs0 & E1). simplify_eq.
  pose proof (Forall_lookup_1 _ _ _ _ HX Hs) as [Ha Hset].
  assert (chosen s = None) as Hch by (destruct Hset as [(_&?&_)|(?&_)]; congruence).
  split; [split; [by apply core_on_subject|]|]; rewrite E1.
  - unfold committed, on_subject. simpl. apply Forall_lookup. intros j s' Hj.
    destruct (decide (j = k)) as [->|Hne].
    + rewrite list_lookup_alter_eq, list_lookup_fmap, list_lookup_alter_eq, Hs in Hj. simpl in Hj. simplify_eq.
      split; [done|]. left. split; [done|]. by auto.
    + rewrite list_lookup_alter_ne, list_lookup_fmap, list_lookup_alter_ne in Hj by done.
      destruct (subjects a !! j) as [s1|] eqn:E2; [|done]. simpl in Hj. simplify_eq.
      apply cleared_resolved. by eapply Forall_lookup_1.
  - rewrite on_subject_room by done. rewrite (committed_room _ _ _ s) by done. unfold room_subject. rewrite Hch.
    destruct p; lia.
Qed.

Lemma retry_keeps k : keeps (fun R acc => Led n R acc.1) tokens (exact resolved) (fun acc a => retry_subject est acc a k).
Proof using He Hn.
  intros R [st p] a HR Ha HL. split; [|by apply retry_spec]. destruct Ha as [Hc HX].
  unfold retry_subject. destruct (subjects a !! k) as [s|] eqn:Hs; [|done].
  destruct (negb (omitted s) || _) eqn:E; [done|].
  assert (forall s', subjects a !! k = Some s' -> Forall (fun i => (i < length (alts s'))%nat) (alt_indices s)) as Hl.
  { rewrite Hs. intros ? [= <-]. apply alt_indices_range. }
  pose proof (try_alts_led est n R st a k (alt_indices s) DecisionBase He Hn Hc HR HL Hl) as H1.
  by destruct (try_alts _ _ _ _ _ _) as [[st1 a1] []].
Qed.

Definition Room (C R : Z) (acc : mixedAllocState * bool) : Prop := R + (if acc.2 then 1 else 0) <= C.

Lemma retry_room C k : keeps (Room C) room_anchor (exact resolved) (fun acc a => retry_subject est acc a k).
Proof using.
  intros R [st p] a HR Ha HL. destruct (retry_spec st p a k Ha) as [H1 H2]. split; [|done]. unfold Room in *.
  cbn [snd] in HL. lia.
Qed.

Lemma refresh_keeps (Inv : Z -> mixedAllocState -> Prop) k : keeps Inv tokens (exact resolved) (fun st a => refresh_subject est st a k).
Proof using.
  intros R st a HR [Hc HX] HL. unfold refresh_subject. destruct (subjects a !! k) as [s|] eqn:Hs; [|done].
  destruct (omitted s && _ && _) eqn:E; [|done]. to_prop. split; [done|]. split; [by apply core_on_subject|].
  unfold on_subject. simpl. apply Forall_alter; [done|]. rewrite Hs. intros ? [= <-] [Ha [(?&?&?)|(?&?&?&Hr)]]; [congruence|].
  split; [done|]. right. split; [done|]. split; [done|]. split; [done|]. simpl. by apply omissionReason_names; auto.
Qed.
End Steps.

(** ** The memo

    The scan that the memo replaces: every later alternative is priced again. *)

Section Memo.
Context (est : string -> Z).

Fixpoint scan_fresh (n i : nat) (st : mixedAllocState) (a : mixedAnchor) (k : nat) (s : mixedSubject) (prev : nat) (evidenceOnly : bool) : mixedAllocState * option (nat * Z) :=
  match n with
  | O => (st, None)
  | S n =>
      let c := price est a k s prev (prev + 1 + i) in
      if (evidenceOnly && negb (addsVerbatim c)) || negb (capOK c) then scan_fresh n (S i) st a k s prev evidenceOnly
      else
        let '(st, ok) := fits st (uc_dTok c) in
        if ok then (st, Some (uc_next c, uc_dTok c)) else scan_fresh n (S i) st a k s prev evidenceOnly
  end.

Definition memo_of (a : mixedAnchor) (k : nat) (s : mixedSubject) (prev : nat) (memo : list upgradeCand) : Prop :=
  forall i c, memo !! i = Some c -> c = price est a k s prev (prev + 1 + i).

Lemma memo_grows a k s prev memo : memo_of a k s prev memo -> memo_of a k s prev (memo ++ [price est a k s prev (prev + 1 + length memo)]).
Proof using.
  intros Hm i c Hi. apply lookup_app_Some in Hi as [Hi|[Hle Hi]]; [by apply Hm|].
  apply list_lookup_singleton_Some in Hi as [Hi <-]. by replace i with (length memo) by lia.
Qed.

Lemma scan_memo n i st a k s prev memo ev :
  memo_of a k s prev memo -> (i <= length memo)%nat ->
  let '(st', memo', r) := scan_cands est n i st a k s prev memo ev in
  scan_fresh n i st a k s prev ev = (st', r) /\ memo_of a k s prev memo'.
Proof using.
  revert i st memo. induction n as [|n IH]; intros i st memo Hm Hi; [done|]. cbn [scan_cands scan_fresh].
  set (memo1 := if (i =? length memo)%nat then _ else _).
  assert (memo_of a k s prev memo1 /\ exists c, memo1 !! i = Some c) as (Hm1 & c & Hc).
  { unfold memo1. destruct (Nat.eqb_spec i (length memo)) as [->|Hne].
    - split; [by apply memo_grows|]. rewrite lookup_app_r, Nat.sub_diag by done. by eexists.
    - split; [done|]. apply lookup_lt_is_Some_2. lia. }
  rewrite Hc. rewrite <- (Hm1 _ _ Hc). apply lookup_lt_Some in Hc.
  destruct (_ || _); [by apply IH|]. destruct (fits st (uc_dTok c)) as [st1 []]; [done|]. by apply IH.
Qed.

Lemma scan_fresh_spec n i st a k s prev ev :
  match (scan_fresh n i st a k s prev ev).2 with
  | Some (next, dTok) => exists j, (j < n)%nat /\ next = (prev + 1 + i + j)%nat /\ dTok = uc_dTok (price est a k s prev next)
      /\ capOK (price est a k s prev next) = true
  | None => True
  end.
Proof using.
  revert i st. induction n as [|n IH]; intros i st; [done|]. cbn [scan_cands scan_fresh].
  assert (forall st, match (scan_fresh n (S i) st a k s prev ev).2 with
    | Some (next, dTok) => exists j, (j < S n)%nat /\ next = (prev + 1 + i + j)%nat /\ dTok = uc_dTok (price est a k s prev next)
        /\ capOK (price est a k s prev next) = true
    | None => True end) as Hnext.
  { intros st'. specialize (IH (S i) st'). destruct (scan_fresh _ _ _ _ _ _ _ _).2 as [[next dTok]|]; [|done].
    destruct IH as (j & Hj & -> & ? & ?). exists (S j). split; [lia|]. split; [lia|done]. }
  destruct (_ || _) eqn:E; [apply Hnext|]. destruct (fits st _) as [st1 []]; [|apply Hnext].
  apply orb_false_iff in E as [_ E%negb_false_iff]. cbn [snd]. exists 0%nat. split; [lia|]. split; [by rewrite Nat.add_0_r|]. done.
Qed.

Lemma scan_fresh_led m n R i st a k s prev ev :
  (forall s, count_like (est s)) -> in_int m -> core est a -> 0 <= R -> Led m (R + tokens a) st ->
  Led m (R + tokens a) (scan_fresh n i st a k s prev ev).1.
Proof using.
  intros He Hm Hc HR. revert i st. induction n as [|n IH]; intros i st HL; [done|]. cbn [scan_cands scan_fresh].
  destruct (_ || _) eqn:E; [by apply IH|].
  apply orb_false_iff in E as [_ E%negb_false_iff]. unfold price in *. cbn [capOK uc_dTok uc_next] in *. rewrite E.
  pose proof (He (content a)) as H1. rewrite <- (core_tokens _ _ Hc) in H1.
  set (t := anchorJoined _) in *. pose proof (He t) as H2.
  unfold count_like in *.
  destruct (fits_led m Hm (R + tokens a) st (wrap_int (est t - tokens a))) as [H3 _]; [lia|done|apply wrap_int_range| |].
  { rewrite wrap_int_id by int_lia. lia. }
  destruct (fits st _) as [st1 []]; [done|]. by apply IH.
Qed.
End Memo.

(** A candidate advances its subject to a later alternative. *)
Definition best_ok (L : list (list (list (list ContextAlternative * option nat)))) (b : best) : Prop :=
  exists v prev, (l ← L !! b_unit b; l ← l !! b_anchor b; l !! b_subject b) = Some v
    /\ v.2 = Some prev /\ (prev < b_next b)%nat /\ (b_next b < length v.1)%nat.
Definition acc_ok L (acc : mixedAllocState * option best) : Prop := match acc.2 with Some b => best_ok L b | None => True end.

Section Look.
Context (est : string -> Z).

Lemma upgradeCandidate_spec st a k s prev ev :
  core est a -> subjects a !! k = Some s -> chosen s = Some prev ->
  let '(st', a', r) := upgradeCandidate est st a k s prev ev in
  scan_fresh est (length (alts s) - (prev + 1)) 0 st a k s prev ev = (st', r) /\ core est a' /\ exists memo, a' = on_subject k (set_cands memo) a.
Proof using.
  intros Hc Hs Hch. unfold upgradeCandidate.
  pose proof (scan_memo est (length (alts s) - (prev + 1)) 0 st a k s prev (cands s) ev) as H.
  destruct (scan_cands _ _ _ _ _ _ _ _ _ _) as [[st1 memo] r].
  destruct H as [H1 H2]; [intros i c; by apply (core_memo _ _ Hc)|lia|]. split; [done|]. split; [|by exists memo].
  apply (core_same est a); try done; [by rewrite on_subject_view|].
  intros j s' prev' Hj Hch' i c Hi. unfold on_subject in Hj. simpl in Hj. destruct (decide (k = j)) as [->|Hne].
  - rewrite list_lookup_alter_eq, Hs in Hj. simpl in Hj. simplify_eq/=. rewrite (H2 _ _ Hi).
    apply price_same; try done. by rewrite on_subject_view.
  - rewrite list_lookup_alter_ne in Hj by done. rewrite (core_memo _ _ Hc _ _ _ Hj Hch' i c Hi).
    apply price_same; try done. by rewrite on_subject_view.
Qed.

Lemma look_shape ev iu ia acc a k : shape (look_subject est ev iu ia acc a k).2 = shape a.
Proof using.
  unfold look_subject. destruct acc as [st b]. destruct (subjects a !! k) as [s|]; [|done].
  destruct (chosen s) as [prev|]; [|done]. unfold upgradeCandidate. destruct (scan_cands _ _ _ _ _ _ _ _ _ _) as [[st1 memo] r].
  by apply on_subject_view.
Qed.

Lemma resolved_cands memo k a : Forall resolved (subjects a) -> Forall resolved (subjects (on_subject k (set_cands memo) a)).
Proof using. intros HX. unfold on_subject. simpl. by apply Forall_alter. Qed.

Lemma look_exact ev iu ia acc a k : exact est resolved a -> exact est resolved (look_subject est ev iu ia acc a k).2.
Proof using.
  intros [Hc HX]. unfold look_subject. destruct acc as [st b]. destruct (subjects a !! k) as [s|] eqn:Hs; [|done].
  destruct (chosen s) as [prev|] eqn:Hch; [|done]. pose proof (upgradeCandidate_spec st a k s prev ev Hc Hs Hch) as H.
  destruct (upgradeCandidate _ _ _ _ _ _ _) as [[st1 a1] r]. destruct H as (_ & H & memo & ->).
  split; [done|]. by apply resolved_cands.
Qed.

Lemma look_keeps n ev iu ia k :
  (forall s, count_like (est s)) -> in_int n ->
  keeps (fun R acc => Led n R acc.1) tokens (exact est resolved) (fun acc a => look_subject est ev iu ia acc a k).
Proof using.
  intros He Hn R [st b] a HR Ha HL. split; [|by apply look_exact]. destruct Ha as [Hc HX].
  unfold look_subject. destruct (subjects a !! k) as [s|] eqn:Hs; [|done].
  destruct (chosen s) as [prev|] eqn:Hch; [|done].
  pose proof (upgradeCandidate_spec st a k s prev ev Hc Hs Hch) as H.
  destruct (upgradeCandidate _ _ _ _ _ _ _) as [[st1 a1] r]. destruct H as (H1 & H2 & memo & ->).
  pose proof (scan_fresh_led est n (length (alts s) - (prev + 1)) R 0 st a k s prev ev He Hn Hc HR HL) as H3.
  by rewrite H1 in H3.
Qed.

Lemma look_acc L l ev iu ia acc a k :
  L !! iu = Some l -> l !! ia = Some (shape a) -> core est a -> acc_ok L acc -> acc_ok L (look_subject est ev iu ia acc a k).1.
Proof using.
  intros HL Hl Hc Hacc. unfold look_subject. destruct acc as [st b]. destruct (subjects a !! k) as [s|] eqn:Hs; [|done].
  destruct (chosen s) as [prev|] eqn:Hch; [|done].
  pose proof (upgradeCandidate_spec st a k s prev ev Hc Hs Hch) as H.
  pose proof (scan_fresh_spec est (length (alts s) - (prev + 1)) 0 st a k s prev ev) as H1.
  destruct (upgradeCandidate _ _ _ _ _ _ _) as [[st1 a1] r]. destruct H as (H & _). rewrite H in H1.
  destruct r as [[next dTok]|]; [|done]. cbn [snd] in H1. destruct H1 as (j & Hj & Hnext & _).
  unfold acc_ok. cbn [fst snd]. destruct (match b with Some _ => _ | None => _ end); [|done].
  exists (view s), prev. simpl. rewrite HL. simpl. rewrite Hl. simpl. unfold shape. rewrite list_lookup_fmap, Hs.
  split; [done|]. split; [done|]. lia.
Qed.
End Look.

(** ** Units *)

Definition evicted_subject (s : mixedSubject) : Prop :=
  chosen s = None /\ omitted s = true /\ decision s = DecisionOmitted /\ reason s = OmitChainEvicted.

(** What a unit takes from the budget. *)
Definition held (u : mixedUnit) : Z :=
  if must_fit u then baseTokens u
  else match subject u with
  | Some s => if opt_b (chosen s) then baseTokens u + Zsum (map tokens (anchors u)) else 0
  | None => 0
  end.

Definition fresh_subject (s : mixedSubject) : Prop := has_alts s /\ pending s /\ cands s = [].
Definition fresh_anchor (a : mixedAnchor) : Prop := verbatimGot a = 0 /\ Forall fresh_subject (subjects a).

(** A unit as the builder makes it. *)
Definition unit_fresh (u : mixedUnit) : Prop :=
  count_like (baseTokens u) /\ evicted u = false /\ Forall fresh_anchor (anchors u) /\ (u_kind u <> unitChain -> anchors u = []) /\
  if must_fit u then subject u = None else exists s, subject u = Some s /\ pending s.

Section Units.
Context (est : string -> Z).

Definition chain_done (u : mixedUnit) (s : mixedSubject) : Prop :=
  if evicted u then evicted_subject s /\ Forall (fun a => Forall evicted_subject (subjects a)) (anchors u)
  else admitted s /\ Forall (exact est resolved) (anchors u).

(** A unit whose fate is settled. *)
Definition unit_done (u : mixedUnit) : Prop :=
  count_like (baseTokens u) /\
  if must_fit u then subject u = None /\ anchors u = []
  else exists s, subject u = Some s /\ if is_chain u then chain_done u s else settled s /\ anchors u = [].

Context (He : forall s, count_like (est s)) (n : Z) (Hn : in_int n).

Lemma tokens_nonneg X a : exact est X a -> 0 <= tokens a.
Proof using He. intros [Hc _]. rewrite (core_tokens _ _ Hc). apply He. Qed.

Lemma exact_tokens X l : Forall (exact est X) l -> 0 <= Zsum (map tokens l).
Proof using He. induction 1 as [|a l Ha _ IH]; simpl; [done|]. pose proof (tokens_nonneg _ _ Ha). lia. Qed.

Lemma taken_nonneg u : unit_fresh u \/ unit_done u -> 0 <= held u.
Proof using He.
  unfold held. intros [(Hb & _ & _ & Ha & Hu)|(Hb & Hu)]; destruct (must_fit u); try (unfold count_like in *; lia).
  - destruct Hu as (s & -> & Hc & _). by rewrite Hc.
  - destruct Hu as (s & -> & Hu). destruct (is_chain u).
    + unfold chain_done in Hu. destruct (evicted u); destruct Hu as [(Hc & _) Hx]; [by rewrite Hc|].
      destruct (opt_b _); [|done]. pose proof (exact_tokens _ _ Hx). unfold count_like in Hb. lia.
    + destruct Hu as [_ ->]. unfold count_like in Hb. simpl. destruct (opt_b _); lia.
Qed.

Lemma placeholder_joined a : Forall fresh_subject (subjects a) -> omap chosen_text (subjects a) = [] /\ map chosen_verbatim (subjects a) = map (fun _ => 0) (subjects a).
Proof using.
  induction 1 as [|s l (_ & (Hc & _) & _) _ [IH1 IH2]]; [done|]. csimpl. split.
  - unfold chosen_text at 1. by rewrite Hc.
  - rewrite IH2. f_equal. unfold chosen_verbatim. by rewrite Hc.
Qed.

Lemma placed_exact a :
  fresh_anchor a -> slen omittedObservation <= cap a -> exact est opened (set_content omittedObservation (est omittedObservation) a).
Proof using.
  intros [Hg Hs] Hcap. destruct (placeholder_joined a Hs) as [H1 H2]. split.
  - split; simpl; try done.
    + unfold anchorJoined. simpl. by rewrite H1.
    + rewrite H2, Zsum_map_zero, Hg. by rewrite wrap_int_id.
    + eapply Forall_impl; [done|]. intros s (_ & (Hc & _) & _). unfold in_range. by rewrite Hc.
    + intros k s prev Hk Hc. eapply Forall_lookup_1 in Hs as (_ & (Hc' & _) & _); [|done]. simplify_eq.
  - simpl. eapply Forall_impl; [done|]. intros s (Ha & Hp & _). split; [done|by left].
Qed.

Lemma precharge_spec base l :
  count_like base -> Forall fresh_anchor l ->
  let '(b, ok, violated, l') := precharge est base l in
  count_like b /\ (ok = true -> b = base + Zsum (map tokens l')) /\ (violated = false -> Forall (exact est opened) l') /\
  map subjects l' = map subjects l.
Proof using He.
  intros Hb Hl. revert base Hb. induction Hl as [|a l Ha Hl IH]; intros base Hb; simpl.
  { split; [done|]. split; [intros _; lia|]. by split. }
  rewrite checkedTokenAdd_counts by (done || apply He). destruct (saturated _) as [b1 ok1] eqn:E.
  assert (count_like b1) as Hb1.
  { pose proof (He omittedObservation). unfold saturated, count_like in *. destruct (_ <=? _) eqn:E1; simplify_eq; to_prop; int_lia. }
  specialize (IH b1 Hb1). destruct (precharge est b1 l) as [[[b ok] violated] l'].
  destruct IH as (H1 & H2 & H3 & H4). split; [done|]. split; [|split].
  - intros [-> Hok]%andb_true_iff. rewrite (H2 Hok). apply saturated_le in E as [<- _]. simpl. lia.
  - intros [Hcap Hv]%orb_false_iff. to_prop. constructor; [by apply placed_exact|by apply H3].
  - simpl. by rewrite H4.
Qed.


Lemma held_set s u : must_fit u = false -> held (set_subject s u) = if opt_b (chosen s) then baseTokens u + Zsum (map tokens (anchors u)) else 0.
Proof using. intros Hm. unfold held. change (must_fit (set_subject s u)) with (must_fit u). by rewrite Hm. Qed.

Lemma span_done s u :
  count_like (baseTokens u) -> must_fit u = false -> is_chain u = false -> anchors u = [] -> settled s -> unit_done (set_subject s u).
Proof using.
  intros Hb Hm Hc Ha Hs. unfold unit_done. change (must_fit (set_subject s u)) with (must_fit u).
  change (is_chain (set_subject s u)) with (is_chain u). rewrite Hm, Hc. split; [done|]. by exists s.
Qed.

Lemma admitSpan_led R st u :
  0 <= R -> unit_fresh u -> must_fit u = false -> is_chain u = false -> Led n R st ->
  Led n (R + held (admitSpan st u).2) (admitSpan st u).1 /\ unit_done (admitSpan st u).2.
Proof using He Hn.
  intros HR (Hb & Hev & _ & Ha & Hu) Hm Hc HL. rewrite Hm in Hu. destruct Hu as (s & Hs & Hch & Ho & Hr).
  assert (anchors u = []) as Han.
  { apply Ha. unfold is_chain in Hc. by case_bool_decide. }
  destruct (fits_led n Hn R st (baseTokens u)) as [H1 H2]; [done|done|unfold count_like in *; int_lia|unfold count_like in *; lia|].
  unfold admitSpan. destruct (fits st (baseTokens u)) as [st1 ok]. simpl in H1, H2.
  unfold with_subject. rewrite Hs. destruct ok; simpl; rewrite held_set by done; simpl.
  - destruct (H2 eq_refl) as [-> H3]. rewrite Han. simpl. rewrite Z.add_0_r. split; [done|].
    apply span_done; try done. left. repeat split; auto.
  - rewrite Hch. simpl. rewrite Z.add_0_r. split; [done|]. apply span_done; try done. right. repeat split; auto.
Qed.

(** A pass that settles the subject it is at, and keeps what was settled, settles them all. *)
Lemma over_subjects_settle {S} (f : S -> mixedAnchor -> nat -> S * mixedAnchor) (P : S -> mixedAnchor -> Prop) (D : mixedSubject -> Prop) st a :
  (forall st a k, P st a -> P (f st a k).1 (f st a k).2 /\ length (subjects (f st a k).2) = length (subjects a) /\
    (forall j s, subjects (f st a k).2 !! j = Some s -> j = k \/ (exists s0, subjects a !! j = Some s0 /\ D s0) -> D s)) ->
  P st a -> Forall D (subjects (over_subjects f st a).2).
Proof using.
  intros Hf Ha. unfold over_subjects, subject_indices.
  set (m := length (subjects a)). assert (forall d, (d <= m)%nat ->
    let r := fold_left (fun '(st, a) k => f st a k) (seq 0 d) (st, a) in
    P r.1 r.2 /\ length (subjects r.2) = m /\ forall j s, (j < d)%nat -> subjects r.2 !! j = Some s -> D s) as H.
  { induction d as [|d IH]; intros Hd; [split; [done|]; split; [done|]; lia|].
    rewrite seq_S, fold_left_app. cbn [fold_left]. destruct IH as (H1 & H2 & H3); [lia|].
    destruct (fold_left _ _ _) as [st1 a1]. cbn [fst snd] in *. destruct (Hf st1 a1 (0 + d)%nat H1) as (H4 & H5 & H6).
    split; [done|]. split; [lia|]. intros j s Hj Hs. apply (H6 _ _ Hs). destruct (decide (j = d)) as [->|]; [by left|right].
    destruct (subjects a1 !! j) as [s0|] eqn:E; [|apply lookup_ge_None in E; apply lookup_lt_Some in Hs; lia].
    exists s0. split; [done|]. apply (H3 j); [lia|done]. }
  destruct (H m ltac:(lia)) as (_ & H2 & H3). apply Forall_lookup. intros j s Hs. apply (H3 j); [|done].
  rewrite <- H2. by apply lookup_lt_Some in Hs.
Qed.

Lemma committed_lookup a k i s t m d j :
  subjects (committed a k i s t m d) !! j = (fun s' => set_cands [] (if decide (k = j) then set_decision d (set_chosen (Some i) s') else s')) <$> subjects a !! j.
Proof using.
  unfold committed, on_subject. simpl. rewrite list_lookup_fmap, list_lookup_alter. case_decide; subst; by destruct (subjects a !! j).
Qed.

Lemma base_settles st a k :
  exact est partial a ->
  length (subjects (base_subject est st a k).2) = length (subjects a) /\
  (forall j s, subjects (base_subject est st a k).2 !! j = Some s -> j = k \/ (exists s0, subjects a !! j = Some s0 /\ resolved s0) -> resolved s).
Proof using.
  intros [Hc HX]. unfold base_subject. destruct (subjects a !! k) as [s|] eqn:Hs; cycle 1.
  { split; [done|]. cbn [fst snd]. intros j s' Hj [->|(s0 & ? & ?)]; by simplify_eq. }
  pose proof (Forall_lookup_1 _ _ _ _ HX Hs) as [Ha Hp].
  destruct (opt_b (chosen s) || omitted s) eqn:E.
  { split; [done|]. cbn [fst snd]. intros j s' Hj [->|(s0 & ? & ?)]; simplify_eq; [|done]. split; [done|].
    destruct Hp as [(Hch&Ho&_)|Hp]; [|done]. by rewrite Hch, Ho in E. }
  assert (forall s', subjects a !! k = Some s' -> Forall (fun i => (i < length (alts s'))%nat) (alt_indices s)) as Hl.
  { rewrite Hs. intros ? [= <-]. apply alt_indices_range. }
  pose proof (try_alts_spec est st a k (alt_indices s) DecisionBase Hc Hl) as H2.
  destruct (try_alts _ _ _ _ _ _) as [[st1 a1] ok]. destruct H2 as [H2 H3]. to_prop.
  assert (pending s) as (Hch & Ho & Hr).
  { destruct Hp as [?|[(Hch&?)|(?&?&?)]]; [done| |congruence]. by destruct (chosen s). }
  destruct ok.
  - destruct H3 as (i & s0 & _ & _ & Hs0 & ->). simplify_eq. cbn [fst snd]. split; [unfold committed, on_subject; simpl; by rewrite length_map, length_alter|].
    intros j s' Hj. rewrite committed_lookup in Hj. intros Hd. case_decide as Hjk.
    + subst. rewrite Hs in Hj. simplify_eq/=. split; [done|]. left. apply chosen_admitted; auto.
    + destruct Hd as [->|(s0 & Hs0 & Hr0)]; [done|]. rewrite Hs0 in Hj. by simplify_eq/=.
  - subst a1. cbn [fst snd]. unfold on_subject. simpl. split; [by rewrite length_alter|].
    intros j s' Hj Hd. rewrite list_lookup_alter in Hj. case_decide as Hjk.
    + subst. rewrite Hs in Hj. simplify_eq/=. split; [done|]. right. repeat split; [done|]. apply omissionReason_names; auto.
    + destruct Hd as [->|(s0 & Hs0 & Hr0)]; [done|]. by simplify_eq.
Qed.

Lemma base_anchor_passes i : passes (Led n) tokens (exact est partial) (exact est resolved) (base_anchor est i).
Proof using He Hn.
  intros R st a HR Ha HL. unfold base_anchor.
  destruct (over_subjects_keeps (Led n) tokens (exact est partial) (base_subject est)) with (R := R) (s := st) (x := a) as [H1 [H2 _]];
    try done; [intros k; by apply base_keeps|].
  split; [done|]. split; [done|]. apply (over_subjects_settle _ (fun _ a => exact est partial a)); [|done].
  intros st' a' k Ha'. split; [by apply base_exact|by apply base_settles].
Qed.

Lemma evict_done u s :
  count_like (baseTokens u) -> must_fit u = false -> is_chain u = true -> subject u = Some s -> pending s ->
  Forall (fun a => Forall (fun s => chosen s = None) (subjects a)) (anchors u) ->
  held (evict u) = 0 /\ unit_done (evict u).
Proof using.
  intros Hb Hm Hc Hs (Hch & _) Ha. unfold evict, with_subject. simpl. rewrite Hs.
  split.
  - unfold held. change (must_fit (set_anchors ?l (set_subject ?s (set_evicted u)))) with (must_fit u). rewrite Hm. simpl. by rewrite Hch.
  - unfold unit_done. change (must_fit (set_anchors ?l (set_subject ?s (set_evicted u)))) with (must_fit u).
    change (is_chain (set_anchors ?l (set_subject ?s (set_evicted u)))) with (is_chain u). rewrite Hm, Hc. split; [done|].
    eexists. split; [done|]. unfold chain_done. simpl. split; [by repeat split|].
    apply Forall_map. eapply Forall_impl; [done|]. intros a Hl. simpl. apply Forall_map. eapply Forall_impl; [exact Hl|].
    intros s' Hs'. by repeat split.
Qed.

Lemma floor_anchor_keeps i : keeps (Led n) tokens (exact est opened) (floor_anchor est i).
Proof using He Hn.
  intros R st a HR Ha HL. unfold floor_anchor. destruct (_ <=? _); [done|].
  apply (over_subjects_keeps (Led n) tokens (exact est opened)); try done. intros k. by apply floor_keeps.
Qed.

(** The two passes over the anchors of a chain that fits. *)
Lemma allocate_retained R st u l s :
  0 <= R -> count_like (baseTokens u) -> must_fit u = false -> is_chain u = true -> evicted u = false -> subject u = Some s -> pending s ->
  Forall (exact est opened) l -> Led n (R + (baseTokens u + Zsum (map tokens l))) st ->
  let r := smap (floor_anchor est) 0 st l in let r := smap (base_anchor est) 0 r.1 r.2 in
  Led n (R + held (set_anchors r.2 (with_subject based (set_anchors l u)))) r.1 /\ unit_done (set_anchors r.2 (with_subject based (set_anchors l u))).
Proof using He Hn.
  intros HR Hb Hm Hc Hev Hs (_ & Ho & Hr) Hl HL. rewrite Z.add_assoc in HL.
  assert (0 <= R + baseTokens u) as HRb by (unfold count_like in Hb; lia).
  pose proof (tokens_nonneg) as Ht.
  destruct (passes_smap (Led n) tokens (exact est opened) _ (floor_anchor est) (Ht _) (Ht _) floor_anchor_keeps 0 _ st l HRb Hl HL) as [H1 H2].
  destruct (smap _ _ _ _) as [st1 l1]. cbn [fst snd] in *.
  assert (Forall (exact est partial) l1) as H3.
  { eapply Forall_impl; [exact H2|]. intros a [Ha Hx]. split; [done|]. eapply Forall_impl; [exact Hx|].
    intros x [? [?|?]]; split; try done; [by left|right; by left]. }
  destruct (passes_smap (Led n) tokens _ _ (base_anchor est) (Ht _) (Ht _) base_anchor_passes 0 _ st1 l1 HRb H3 H1) as [H4 H5].
  destruct (smap _ _ _ _) as [st2 l2]. cbn [fst snd] in *. unfold with_subject. simpl. rewrite Hs. split.
  - unfold held. change (must_fit (set_anchors l2 _)) with (must_fit u). rewrite Hm. simpl. by rewrite Z.add_assoc.
  - split; [done|]. change (must_fit (set_anchors l2 _)) with (must_fit u). change (is_chain (set_anchors l2 _)) with (is_chain u).
    rewrite Hm, Hc. eexists. split; [done|]. unfold chain_done. simpl. rewrite Hev. split; [|done]. repeat split; auto.
Qed.

Lemma allocateChain_led R st u :
  0 <= R -> unit_fresh u -> must_fit u = false -> is_chain u = true -> Led n R st ->
  Led n (R + held (allocateChain est st u).2) (allocateChain est st u).1 /\ unit_done (allocateChain est st u).2.
Proof using He Hn.
  intros HR (Hb & Hev & Hf & _ & Hu) Hm Hc HL. rewrite Hm in Hu. destruct Hu as (s & Hs & Hp).
  pose proof (precharge_spec (baseTokens u) (anchors u) Hb Hf) as H. unfold allocateChain.
  destruct (precharge est (baseTokens u) (anchors u)) as [[[base ok] violated] l]. destruct H as (H1 & H2 & H3 & H4).
  assert (Forall (fun a => Forall (fun s => chosen s = None) (subjects a)) l) as Hnone.
  { assert (Forall (Forall (fun s => chosen s = None)) (map subjects l)) as Hx; [|by rewrite Forall_map in Hx].
    rewrite H4. apply Forall_map. eapply Forall_impl; [done|]. intros a [_ Ha]. simpl. eapply Forall_impl; [done|].
    by intros s' (_ & (? & _) & _). }
  pose proof (evict_done (set_anchors l u) s Hb Hm Hc Hs Hp Hnone) as [He1 He2].
  destruct (fits_led n Hn R st base) as [H5 H6]; [done|done|unfold count_like in *; int_lia|unfold count_like in *; lia|].
  destruct violated; [|destruct ok]; cbn [orb negb fst snd].
  - rewrite He1. rewrite Z.add_0_r. split; [|done]. destruct ok; [done|]. destruct HL as [Hbud _]. split; [done|]. by left.
  - destruct (fits st base) as [st1 fit]. cbn [fst snd] in *. destruct fit; simpl; [|rewrite He1, Z.add_0_r; by split].
    destruct (H6 eq_refl) as [-> H7]. rewrite (H2 eq_refl) in H7.
    pose proof (allocate_retained R (charge st (baseTokens u + Zsum (map tokens l))).1 u l s HR Hb Hm Hc Hev Hs Hp (H3 eq_refl) H7) as H8. simpl in H8.
    rewrite (H2 eq_refl). destruct (smap (floor_anchor est) _ _ _) as [st2 l2]. simpl in H8. by destruct (smap (base_anchor est) _ _ _).
  - rewrite He1. rewrite Z.add_0_r. split; [|done]. destruct HL as [Hbud _]. split; [done|]. by left.
Qed.

(** The units of the kinds [K] still wait; the kept ones are admitted first. *)
Definition stage (K : mixedUnitKind -> bool) (u : mixedUnit) : Prop :=
  (keep u = true -> u_kind u = unitPlainSpan \/ u_kind u = unitChain) /\
  if must_fit u || keep u || negb (K (u_kind u)) then unit_done u else unit_fresh u.
Definition but (k : mixedUnitKind) (K : mixedUnitKind -> bool) (k' : mixedUnitKind) : bool := negb (bool_decide (k' = k)) && K k'.

Lemma stage_nonneg K u : stage K u -> 0 <= held u.
Proof using He. intros [_ H]. apply taken_nonneg. destruct (_ || _); auto. Qed.

Lemma with_subject_same f u : u_kind (with_subject f u) = u_kind u /\ keep (with_subject f u) = keep u.
Proof using. unfold with_subject. by destruct (subject u). Qed.

Lemma admitSpan_same st u : u_kind (admitSpan st u).2 = u_kind u /\ keep (admitSpan st u).2 = keep u.
Proof using. unfold admitSpan. destruct (fits _ _) as [st1 []]; apply with_subject_same. Qed.

Lemma allocateChain_same st u : u_kind (allocateChain est st u).2 = u_kind u /\ keep (allocateChain est st u).2 = keep u.
Proof using.
  unfold allocateChain. destruct (precharge _ _ _) as [[[base ok] violated] l].
  destruct (if _ || _ then _ else _) as [st2 []]; cbn [negb].
  - destruct (smap _ _ _ _) as [st3 l3]. destruct (smap _ _ _ _) as [st4 l4]. apply (with_subject_same based (set_anchors l u)).
  - apply (with_subject_same (omitSubject OmitChainEvicted) (set_evicted (set_anchors l u))).
Qed.

Lemma stage_other K K' u : keep u = true \/ K' (u_kind u) = K (u_kind u) -> stage K u -> stage K' u.
Proof using. intros HK [Hk Hu]. split; [done|]. destruct HK as [HK|HK]; [by rewrite HK, orb_true_r in *|by rewrite HK]. Qed.

Lemma lane_passes K kind f i :
  kind <> unitPinned -> kind <> unitUnresolved -> K kind = true ->
  (kind = unitChain /\ f = allocateChain est \/ kind <> unitChain /\ f = admitSpan) ->
  passes (Led n) held (stage K) (stage (but kind K)) (lane_unit kind f i).
Proof using He Hn.
  intros Hk1 Hk2 HK Hf R st u HR Hst HL. unfold lane_unit. pose proof Hst as [Hkeep Hu].
  destruct (bool_decide (u_kind u = kind)) eqn:Ek; cycle 1.
  { cbn [negb orb fst snd]. split; [done|]. apply (stage_other K); [|done]. right. unfold but. by rewrite Ek. }
  apply bool_decide_eq_true in Ek. destruct (keep u) eqn:Ekeep.
  { replace (negb true || _) with true; [cbn [fst snd]; split; [done|]; apply (stage_other K); auto|].
    destruct (Hkeep eq_refl) as [Hx|Hx]; rewrite Hx in Ek; by rewrite <- Ek. }
  rewrite andb_false_r. cbn [negb orb]. destruct (must_fit u) eqn:Em.
  { unfold must_fit in Em. rewrite Ek in Em. by destruct kind. }
  rewrite Ek, HK in Hu. cbn [negb orb] in Hu.
  assert (Led n R st) as HL0.
  { destruct Hu as (_ & _ & _ & _ & Hu). unfold held in HL. rewrite Em in *. destruct Hu as (s & Hs & Hc & _).
    by rewrite Hs, Hc, Z.add_0_r in HL. }
  destruct (admitSpan_same st u) as [A1 A2]. destruct (allocateChain_same st u) as [A3 A4]. destruct Hf as [[-> ->]|[Hc ->]].
  - destruct (allocateChain_led R st u) as [H1 H2]; try done; [unfold is_chain; by rewrite bool_decide_true|].
    split; [done|]. split; [by rewrite A3, A4, Ekeep|]. unfold but. rewrite A3, Ek, bool_decide_true by done. by rewrite orb_true_r.
  - destruct (admitSpan_led R st u) as [H1 H2]; try done; [unfold is_chain; rewrite bool_decide_false; congruence|].
    split; [done|]. split; [by rewrite A1, A2, Ekeep|]. unfold but. rewrite A1, Ek, bool_decide_true by done. by rewrite orb_true_r.
Qed.

Lemma lanes_led R st units :
  0 <= R -> Forall (stage (fun _ => true)) units -> Led n (R + Zsum (map held units)) st ->
  Led n (R + Zsum (map held (lanes est st units).2)) (lanes est st units).1 /\ Forall unit_done (lanes est st units).2.
Proof using He Hn.
  intros HR Hu HL. unfold lanes. pose proof stage_nonneg as Hw.
  destruct (passes_smap_back (Led n) held (stage (fun _ => true)) (stage (but unitPlainSpan (fun _ => true))) (lane_unit unitPlainSpan admitSpan)
    (Hw _) (Hw _) ltac:(intros i; apply lane_passes; auto) 0 R st units HR Hu HL) as [H1 H2].
  destruct (smap_back _ _ st units) as [st1 l1]. cbn [fst snd] in *.
  destruct (passes_smap_back (Led n) held _ (stage (but unitChain (but unitPlainSpan (fun _ => true)))) (lane_unit unitChain (allocateChain est))
    (Hw _) (Hw _) ltac:(intros i; apply lane_passes; auto) 0 R st1 l1 HR H2 H1) as [H3 H4].
  destruct (smap_back _ _ st1 l1) as [st2 l2]. cbn [fst snd] in *.
  destruct (passes_smap_back (Led n) held _ (stage (but unitHistorySpan (but unitChain (but unitPlainSpan (fun _ => true))))) (lane_unit unitHistorySpan admitSpan)
    (Hw _) (Hw _) ltac:(intros i; apply lane_passes; auto) 0 R st2 l2 HR H4 H3) as [H5 H6].
  split; [done|]. eapply Forall_impl; [exact H6|]. intros u [_ Hu']. unfold but, must_fit in Hu'.
  by destruct (u_kind u), (keep u).
Qed.

(** A unit before anything is allocated. *)
Definition initial (u : mixedUnit) : Prop :=
  (keep u = true -> u_kind u = unitPlainSpan \/ u_kind u = unitChain) /\ unit_fresh u.

Lemma must_fit_done u : unit_fresh u -> must_fit u = true -> unit_done u.
Proof using.
  intros (Hb & _ & _ & Ha & Hu) Hm. split; [done|]. rewrite Hm in *. split; [done|]. apply Ha. intros E.
  unfold must_fit in Hm. by rewrite E in Hm.
Qed.

Lemma fresh_held u : unit_fresh u -> must_fit u = false -> held u = 0.
Proof using. intros (_ & _ & _ & _ & Hu) Hm. unfold held. rewrite Hm in *. destruct Hu as (s & -> & Hc & _). by rewrite Hc. Qed.

Lemma admit_led R st u :
  0 <= R -> initial u -> keep u = true -> Led n (R + held u) st ->
  Led n (R + held (admit_unit est st u).2) (admit_unit est st u).1 /\ stage (fun _ => true) (admit_unit est st u).2.
Proof using He Hn.
  intros HR [Hk Hu] Hkeep HL. assert (must_fit u = false) as Hm by (unfold must_fit; by destruct (Hk Hkeep) as [-> | ->]).
  rewrite fresh_held, Z.add_0_r in HL by done. unfold admit_unit.
  destruct (admitSpan_same st u) as [A1 A2]. destruct (allocateChain_same st u) as [A3 A4].
  destruct (is_chain u) eqn:Ec.
  - destruct (allocateChain_led R st u) as [H1 H2]; try done. split; [done|]. split; [by rewrite A3, A4|]. by rewrite A4, Hkeep, orb_true_r.
  - destruct (admitSpan_led R st u) as [H1 H2]; try done. split; [done|]. split; [by rewrite A1, A2|]. by rewrite A2, Hkeep, orb_true_r.
Qed.

Lemma admit_kept_led R st units :
  0 <= R -> Forall initial units -> Led n (R + Zsum (map held units)) st ->
  let '(st', units', ok) := admit_kept est st units in
  ok = true -> Led n (R + Zsum (map held units')) st' /\ Forall (stage (fun _ => true)) units'.
Proof using He Hn.
  intros HR Hu. revert R st HR. induction Hu as [|u units Hu Hus IH]; intros R st HR HL; [done|]. simpl in *.
  assert (0 <= Zsum (map held units)).
  { apply (weights_nonneg held initial); [|done]. intros x [_ Hx]. apply taken_nonneg. by left. }
  destruct (keep u) eqn:Ek; cbn [negb].
  - destruct (admit_led (R + Zsum (map held units)) st u) as [H1 H2]; [lia|done|done| |].
    { by replace (R + Zsum (map held units) + held u) with (R + (held u + Zsum (map held units))) by lia. }
    destruct (admit_unit est st u) as [st1 u1]. cbn [fst snd] in *. destruct (is_omitted u1); [done|].
    pose proof (stage_nonneg _ _ H2). specialize (IH (R + held u1) st1 ltac:(lia)).
    destruct (admit_kept est st1 units) as [[st2 l] ok]. intros ->. destruct IH as [H3 H4]; [|done|].
    { by replace (R + held u1 + Zsum (map held units)) with (R + Zsum (map held units) + held u1) by lia. }
    split; [|by constructor]. simpl. by rewrite Z.add_assoc.
  - assert (0 <= held u) by (apply taken_nonneg; left; apply Hu).
    specialize (IH (R + held u) st ltac:(lia)). destruct (admit_kept est st units) as [[st2 l] ok]. intros ->.
    destruct IH as [H3 H4]; [by rewrite <- Z.add_assoc|done|]. split; [simpl; by rewrite Z.add_assoc|]. constructor; [|done].
    destruct Hu as [Hk Hu]. split; [done|]. rewrite Ek, orb_false_r. destruct (must_fit u) eqn:Em; [by apply must_fit_done|done].
Qed.

Lemma reserve_budget st units : budget (reserve st units).1 = budget st.
Proof using.
  revert st. induction units as [|u units IH]; intros st; [done|]. simpl. destruct (must_fit u); [|apply IH].
  assert (budget (charge st (baseTokens u)).1 = budget st) as H by (unfold charge; destruct (arithmeticOverflow st); [done|]; by destruct (checkedTokenAdd _ _)).
  destruct (charge _ _) as [st1 ok]. specialize (IH st1). destruct (reserve st1 units). simpl in *. congruence.
Qed.

Lemma reserve_led sys units :
  count_like sys -> Forall initial units ->
  let '(st, ok) := reserve (mkAlloc n sys false 0 0 0) units in
  ok = true -> used st <= n -> Led n (sys + Zsum (map held units)) st.
Proof using.
  intros Hs Hu. revert sys Hs. induction Hu as [|u units [_ Hu] Hus IH]; intros sys Hs; simpl.
  { intros _ Hle. split; [done|]. right. simpl. by rewrite Z.add_0_r. }
  destruct (must_fit u) eqn:Em.
  - pose proof Hu as [Hb _]. unfold charge. simpl. rewrite checkedTokenAdd_counts by done. unfold held at 1. rewrite Em.
    unfold saturated. destruct (Z.leb_spec (sys + baseTokens u) MaxInt).
    + change (set_used ?m (negb true) _) with (mkAlloc n m false 0 0 0).
      specialize (IH (sys + baseTokens u)). destruct (reserve (mkAlloc n (sys + baseTokens u) false 0 0 0) units) as [st1 ok1]. simpl.
      rewrite Z.add_assoc. apply IH. unfold count_like in *. lia.
    + by destruct (reserve _ units).
  - rewrite fresh_held by done. specialize (IH sys Hs). by destruct (reserve _ units).
Qed.

Lemma retained_done u :
  unit_done u -> retained_chain u = true ->
  must_fit u = false /\ is_chain u = true /\ evicted u = false /\ count_like (baseTokens u) /\
  exists s, subject u = Some s /\ admitted s /\ Forall (exact est resolved) (anchors u).
Proof using.
  unfold retained_chain. intros [Hb Hu] [Hc He']%andb_true_iff. apply negb_true_iff in He'.
  assert (must_fit u = false) as Hm by (unfold must_fit, is_chain in *; to_prop; by rewrite bool_decide_false, bool_decide_false by congruence).
  rewrite Hm, Hc in Hu. destruct Hu as (s & Hs & Hu). unfold chain_done in Hu. rewrite He' in Hu. destruct Hu as [H1 H2]. eauto 10.
Qed.

Lemma anchors_done l u : unit_done u -> retained_chain u = true -> Forall (exact est resolved) l -> unit_done (set_anchors l u).
Proof using.
  intros Hu Hr Hl. destruct (retained_done u Hu Hr) as (Hm & Hc & Hev & Hb & s & Hs & Ha & _). split; [done|].
  change (must_fit (set_anchors l u)) with (must_fit u). change (is_chain (set_anchors l u)) with (is_chain u).
  rewrite Hm, Hc. exists s. split; [done|]. unfold chain_done. simpl. by rewrite Hev.
Qed.

Lemma anchors_held l u : unit_done u -> retained_chain u = true -> held (set_anchors l u) = baseTokens u + Zsum (map tokens l).
Proof using.
  intros Hu Hr. destruct (retained_done u Hu Hr) as (Hm & _ & _ & _ & s & Hs & [Ha _] & _). unfold held.
  change (must_fit (set_anchors l u)) with (must_fit u). simpl. by rewrite Hm, Hs, Ha.
Qed.

Lemma set_anchors_id u : set_anchors (anchors u) u = u.
Proof using. by destruct u. Qed.

Lemma room_unit_nonneg u : unit_done u -> 0 <= room_unit u.
Proof using.
  intros [_ Hu]. destruct (must_fit u); [destruct Hu as [_ Hx]; unfold room_unit; by rewrite Hx|]. destruct Hu as (s & _ & Hu).
  destruct (is_chain u); [|destruct Hu as [_ Hx]; unfold room_unit; by rewrite Hx].
  unfold room_unit. apply Zsum_nonneg, Forall_map. unfold chain_done in Hu. destruct (evicted u); destruct Hu as [_ Hu].
  - eapply Forall_impl; [exact Hu|]. intros a Ha. apply (weights_nonneg _ evicted_subject); [|exact Ha].
    intros s' (Hc & _). unfold room_subject. rewrite Hc. unfold len. lia.
  - eapply Forall_impl; [exact Hu|]. intros a [Hc _]. by eapply room_anchor_nonneg.
Qed.

Lemma over_anchors_keeps {S} (Inv : Z -> S -> Prop) (wa : mixedAnchor -> Z) (wu c : mixedUnit -> Z) f :
  (forall a, exact est resolved a -> 0 <= wa a) ->
  (forall u, unit_done u -> retained_chain u = true -> 0 <= c u /\ forall l, wu (set_anchors l u) = c u + Zsum (map wa l)) ->
  (forall i, keeps Inv wa (exact est resolved) (f i)) -> keeps Inv wu unit_done (over_anchors f).
Proof using.
  intros Hwa Hwu Hf R st u HR Hu HL. unfold over_anchors. destruct (retained_chain u) eqn:Er; [|done]. cbn [negb].
  destruct (Hwu u Hu Er) as [Hc0 Hl]. destruct (retained_done u Hu Er) as (_ & _ & _ & _ & s & _ & _ & Hx).
  rewrite <- (set_anchors_id u), Hl in HL.
  destruct (passes_smap Inv wa _ _ f Hwa Hwa Hf 0 (R + c u) st (anchors u)) as [H1 H2]; [lia|done|by rewrite <- Z.add_assoc|].
  destruct (smap f 0 st (anchors u)) as [st1 l]. cbn [fst snd] in *. rewrite Hl, Z.add_assoc. split; [done|]. by apply anchors_done.
Qed.

Lemma over_anchors_held {S} (Inv : Z -> S -> Prop) f :
  (forall i, keeps Inv tokens (exact est resolved) (f i)) -> keeps Inv held unit_done (over_anchors f).
Proof using He.
  apply over_anchors_keeps with (c := baseTokens); [apply tokens_nonneg|]. intros u Hu Hr. split.
  - by destruct (retained_done u Hu Hr) as (_ & _ & _ & [] & _).
  - intros l. by apply anchors_held.
Qed.

Lemma over_anchors_shapes {S} f (st : S) u :
  (forall i st a, shape (f i st a).2 = shape a) -> map shape (anchors (over_anchors f st u).2) = map shape (anchors u).
Proof using.
  intros Hf. unfold over_anchors. destruct (negb _); [done|].
  pose proof (smap_map shape f 0 st (anchors u) Hf). by destruct (smap _ _ _ _).
Qed.

Lemma look_shapes ev i acc u : map shape (anchors (look_unit est ev i acc u).2) = map shape (anchors u).
Proof using.
  apply over_anchors_shapes. intros ia acc' a. unfold look_anchor.
  apply (over_subjects_ind (fun _ a' => shape a' = shape a)); [|done]. intros ??? <-. apply look_shape.
Qed.

(** The search for an upgrade. *)
Lemma look_led R ev st units :
  0 <= R -> Forall unit_done units -> Led n (R + Zsum (map held units)) st ->
  let '(st', b, units') := smap (look_unit est ev) 0 (st, None) units in
  Led n (R + Zsum (map held units')) st' /\ Forall unit_done units'.
Proof using He Hn.
  intros HR Hu HL. pose proof taken_nonneg as Hw.
  destruct (passes_smap (fun R acc => Led n R acc.1) held unit_done unit_done (look_unit est ev)) with (i := 0%nat) (R := R) (s := (st, @None best)) (l := units) as [H1 H2];
    try done; [auto|auto| |].
  { intros i. apply (over_anchors_held (fun R acc => Led n R acc.1)). intros ia. apply (over_subjects_keeps (fun R acc => Led n R acc.1)).
    intros k. by apply look_keeps. }
  by destruct (smap _ _ _ _) as [[st1 b] l].
Qed.

Lemma look_best ev st units :
  Forall unit_done units ->
  let '(st', b, units') := smap (look_unit est ev) 0 (st, None) units in
  shapes units' = shapes units /\ match b with Some b => best_ok (shapes units) b | None => True end.
Proof using.
  intros Hu. pose proof (smap_map (fun u => map shape (anchors u)) (look_unit est ev) 0 (st, None) units (look_shapes ev)) as H1.
  assert (acc_ok (shapes units) (smap (look_unit est ev) 0 (st, None) units).1) as H2.
  { apply smap_state; [|done]. intros iu acc u Hiu Hacc. unfold look_unit, over_anchors. destruct (retained_chain u) eqn:Er; [|done].
    destruct (retained_done u (Forall_lookup_1 _ _ _ _ Hu Hiu) Er) as (_ & _ & _ & _ & s & _ & _ & Hx). cbn [negb].
    assert (acc_ok (shapes units) (smap (look_anchor est ev (0 + iu)) 0 acc (anchors u)).1) as H; [|by destruct (smap (look_anchor est ev (0 + iu)) 0 acc (anchors u))].
    apply smap_state; [|done]. intros ia acc' a Hia Hacc'. unfold look_anchor.
    apply (over_subjects_ind (fun acc a' => acc_ok (shapes units) acc /\ exact est resolved a' /\ shape a' = shape a));
      [|split; [done|split; [exact (Forall_lookup_1 _ _ _ _ Hx Hia)|done]]].
    intros acc1 a1 k (Ha & Hex & Hsh). split; [|split].
    - apply (look_acc est (shapes units) (map shape (anchors u)) ev iu ia acc1 a1 k); [|by rewrite list_lookup_fmap, Hia, Hsh|apply Hex|done].
      unfold shapes. by rewrite list_lookup_fmap, Hiu.
    - by apply look_exact.
    - by rewrite look_shape. }
  by destruct (smap _ _ _ _) as [[st1 b] l].
Qed.

(** A unit whose anchor [a] is replaced. *)
Lemma on_anchor_unit u ia a a' :
  unit_done u -> retained_chain u = true -> anchors u !! ia = Some a -> exact est resolved a' ->
  let u' := set_anchors (alter (fun _ => a') ia (anchors u)) u in
  unit_done u' /\ held u' = held u - tokens a + tokens a' /\ room_unit u' = room_unit u - room_anchor a + room_anchor a'.
Proof using.
  intros Hu Hr Ha Ha' u'. unfold u'. split; [|split].
  - apply anchors_done; [done|done|]. destruct (retained_done u Hu Hr) as (_ & _ & _ & _ & s & _ & _ & Hx). apply Forall_alter; [done|]. by intros.
  - replace (held u) with (held (set_anchors (anchors u) u)) by by rewrite set_anchors_id.
    rewrite !anchors_held, (Zsum_map_alter _ _ _ _ a) by done. lia.
  - unfold room_unit. simpl. by rewrite (Zsum_map_alter _ _ _ _ a).
Qed.

Lemma on_anchor_units units iu ia u a a' :
  Forall unit_done units -> units !! iu = Some u -> retained_chain u = true -> anchors u !! ia = Some a -> exact est resolved a' ->
  let l := on_anchor iu ia a' units in
  Forall unit_done l /\ Zsum (map held l) = Zsum (map held units) - tokens a + tokens a' /\ room l = room units - room_anchor a + room_anchor a'.
Proof using.
  intros Hd Hu Hr Ha Ha' l. pose proof (Forall_lookup_1 _ _ _ _ Hd Hu) as Hdu.
  destruct (on_anchor_unit u ia a a' Hdu Hr Ha Ha') as (H1 & H2 & H3). unfold l, on_anchor, room. split; [|split].
  - apply Forall_alter; [done|]. rewrite Hu. by intros ? [= <-] _.
  - rewrite (Zsum_map_alter _ _ _ _ u), H2 by done. lia.
  - rewrite (Zsum_map_alter _ _ _ _ u), H3 by done. lia.
Qed.

(** The candidate's subject is in a retained chain. *)
Lemma best_subject units b u a :
  Forall unit_done units -> best_ok (shapes units) b -> units !! b_unit b = Some u -> anchors u !! b_anchor b = Some a ->
  retained_chain u = true /\ exists s prev, subjects a !! b_subject b = Some s /\ chosen s = Some prev /\ (prev < b_next b)%nat /\ (b_next b < length (alts s))%nat.
Proof using.
  intros Hd (v & prev & Hv & Hprev & H1 & H2) Hu Ha. unfold shapes in Hv. rewrite list_lookup_fmap, Hu in Hv. simpl in Hv.
  rewrite list_lookup_fmap, Ha in Hv. simpl in Hv. unfold shape in Hv. rewrite list_lookup_fmap in Hv.
  destruct (subjects a !! b_subject b) as [s|] eqn:Hs; [|done]. injection Hv as <-. simpl in *.
  split; [|by exists s, prev]. pose proof (Forall_lookup_1 _ _ _ _ Hd Hu) as [_ Hdu].
  destruct (must_fit u); [destruct Hdu as [_ Hx]; by rewrite Hx in Ha|]. destruct Hdu as (s0 & _ & Hdu).
  unfold retained_chain. destruct (is_chain u); [|destruct Hdu as [_ Hx]; by rewrite Hx in Ha].
  unfold chain_done in Hdu. destruct (evicted u); [|done]. destruct Hdu as [_ Hdu].
  pose proof (Forall_lookup_1 _ _ _ _ (Forall_lookup_1 _ _ _ _ Hdu Ha) Hs) as [Hx _]. simpl in Hx. congruence.
Qed.

(** One upgrade: the account and the decisions are kept, and a subject has advanced. *)
Lemma upgradeOnce_led R over st units ev :
  0 <= R -> Forall unit_done units -> Led n (R + Zsum (map held units)) st ->
  let '(st', units', ok) := upgradeOnce est over st units ev in
  Led n (R + Zsum (map held units')) st' /\ Forall unit_done units' /\ room units' + (if ok then 1 else 0) <= room units.
Proof using He Hn.
  intros HR Hu HL. unfold upgradeOnce. destruct over; [split; [done|]; split; [done|lia]|].
  pose proof (look_led R ev st units HR Hu HL) as H1. pose proof (look_best ev st units Hu) as H2.
  destruct (smap _ _ _ _) as [[st1 b] l]. destruct H1 as [H1 Hd]. destruct H2 as [Hsh Hb].
  assert (room l = room units) as Hroom by (by apply room_shapes).
  destruct b as [b|]; [|split; [done|]; split; [done|lia]]. rewrite <- Hsh in Hb.
  destruct (l !! b_unit b) as [u|] eqn:Eu; simpl; [|split; [done|]; split; [done|lia]].
  destruct (anchors u !! b_anchor b) as [a|] eqn:Ea; [|split; [done|]; split; [done|lia]].
  destruct (best_subject l b u a Hd Hb Eu Ea) as (Hr & s & prev & Hs & Hch & Hlt & Hlen).
  pose proof (Forall_lookup_1 _ _ _ _ Hd Eu) as Hdu. destruct (retained_done u Hdu Hr) as (_ & _ & _ & _ & s0 & _ & _ & Hx).
  pose proof (Forall_lookup_1 _ _ _ _ Hx Ea) as [Hc HX].
  pose proof (tryAssign_spec est st1 a (b_subject b) (b_next b) DecisionUpgrade Hc) as H3.
  assert (0 <= Zsum (map held l) - tokens a) as Hrest.
  { pose proof (weight_le held (fun u => unit_fresh u \/ unit_done u) l (b_unit b) u taken_nonneg) as Hw.
    pose proof (weight_le tokens _ (anchors u) (b_anchor b) a (tokens_nonneg resolved) Hx Ea) as Hw'.
    destruct (retained_done u Hdu Hr) as (_ & _ & _ & [Hbase _] & _). specialize (Hw ltac:(eapply Forall_impl; [exact Hd|auto]) Eu).
    replace (held u) with (baseTokens u + Zsum (map tokens (anchors u))) in Hw by by rewrite <- anchors_held, set_anchors_id.
    lia. }
  pose proof (tryAssign_led est n (R + (Zsum (map held l) - tokens a)) st1 a (b_subject b) (b_next b) DecisionUpgrade He Hn Hc) as H4.
  destruct (tryAssign _ _ _ _ _ _) as [[st2 a2] ok]. cbn [fst snd] in *.
  destruct H3 as [H5 H6]; [rewrite Hs; by intros ? [= <-]|].
  assert (exact est resolved a2 /\ room_anchor a2 + (if ok then 1 else 0) <= room_anchor a) as [Hex Hra].
  { destruct ok; [|subst a2; split; [done|lia]]. destruct H6 as (s' & Hs' & E). simplify_eq.
    split; [split; [done|]; rewrite E|rewrite E, (committed_room _ _ _ s) by done; unfold room_subject; rewrite Hch; lia].
    pose proof (Forall_lookup_1 _ _ _ _ HX Hs) as [Ha [(_&?&?&_)|(?&_)]]; [|congruence].
    apply committed_Forall; [done| |done|done]. split; [done|]. left. apply chosen_admitted; auto. }
  destruct (on_anchor_units l (b_unit b) (b_anchor b) u a a2 Hd Eu Hr Ea Hex) as (H7 & H8 & H9).
  split; [|split; [done|lia]]. rewrite H8. replace (R + (Zsum (map held l) - tokens a + tokens a2)) with (R + (Zsum (map held l) - tokens a) + tokens a2) by lia.
  apply H4; [lia|]. by replace (R + (Zsum (map held l) - tokens a) + tokens a) with (R + Zsum (map held l)) by lia.
Qed.

Lemma retry_pass R st units :
  0 <= R -> Forall unit_done units -> Led n (R + Zsum (map held units)) st ->
  let '(st', progress, units') := smap_back (retry_unit est) 0 (st, false) units in
  Led n (R + Zsum (map held units')) st' /\ Forall unit_done units' /\ room units' + (if progress then 1 else 0) <= room units.
Proof using He Hn.
  intros HR Hu HL. assert (forall u, unit_done u -> 0 <= room_unit u) as Hroom by apply room_unit_nonneg.
  destruct (passes_smap_back (fun R acc => Led n R acc.1) held unit_done unit_done (retry_unit est)) with (i := 0%nat) (R := R) (s := (st, false)) (l := units) as [H1 H2];
    try done; [intros; apply taken_nonneg; by right..| |].
  { intros i. apply (over_anchors_held (fun R acc => Led n R acc.1)). intros ia. apply (over_subjects_keeps (fun R acc => Led n R acc.1)).
    intros k. by apply retry_keeps. }
  destruct (passes_smap_back (Room (room units)) room_unit unit_done unit_done (retry_unit est)) with (i := 0%nat) (R := 0) (s := (st, false)) (l := units) as [H3 _];
    try done; [| |].
  { intros i. apply over_anchors_keeps with (wa := room_anchor) (c := fun _ => 0).
    - intros a [Hc _]. by eapply room_anchor_nonneg.
    - intros u Hdu Hr. done.
    - intros ia. apply over_subjects_keeps. intros k. apply retry_room. }
  { unfold Room, room. simpl. lia. }
  destruct (smap_back _ _ _ _) as [[st1 b] l]. unfold Room in H3. split; [done|]. split; [done|]. unfold room at 1. simpl in H3. lia.
Qed.

Lemma retryOmitted_led R fuel st units :
  0 <= R -> Forall unit_done units -> Led n (R + Zsum (map held units)) st -> (Z.to_nat (room units) < fuel)%nat ->
  exists st' units', retryOmitted est fuel st units = Some (st', units') /\
    Led n (R + Zsum (map held units')) st' /\ Forall unit_done units' /\ room units' <= room units.
Proof using He Hn.
  intros HR. revert st units. induction fuel as [|fuel IH]; intros st units Hu HL Hf; [lia|]. simpl.
  pose proof (retry_pass R st units HR Hu HL) as H. destruct (smap_back _ _ _ _) as [[st1 b] l]. destruct H as (H1 & H2 & H3).
  destruct b; [|exists st1, l; split; [done|]; split; [done|]; split; [done|lia]].
  assert (0 <= room l) by (apply (weights_nonneg _ unit_done); [apply room_unit_nonneg|done]).
  destruct (IH st1 l H2 H1) as (st' & units' & E & H4 & H5 & H6); [lia|]. exists st', units'. split; [done|]. split; [done|]. split; [done|lia].
Qed.

(** The upgrades stop: with fuel for the room there is, the loop ends with the account and the decisions kept. *)
Lemma upgrades_led R fuel over m st units :
  0 <= R -> Forall unit_done units -> Led n (R + Zsum (map held units)) st -> (Z.to_nat (room units) < fuel)%nat ->
  exists st' units', upgrades est fuel over m st units = Some (st', units') /\
    Led n (R + Zsum (map held units')) st' /\ Forall unit_done units'.
Proof using He Hn.
  intros HR. revert m st units. induction fuel as [|fuel IH]; intros m st units Hu HL Hf; [lia|]. cbn [upgrades].
  pose proof (upgradeOnce_led R (over m) st units true HR Hu HL) as H. destruct (upgradeOnce _ _ _ _ _) as [[st1 l1] ok1].
  destruct H as (H1 & H2 & H3).
  assert (exists st2 l2 ok2 m2, (if ok1 then (st1, l1, true, S m) else let '(st, units, ok) := upgradeOnce est (over (S m)) st1 l1 false in (st, units, ok, S (S m))) = (st2, l2, ok2, m2)
    /\ Led n (R + Zsum (map held l2)) st2 /\ Forall unit_done l2 /\ room l2 + (if ok2 : bool then 1 else 0) <= room units) as (st2 & l2 & ok2 & m2 & -> & H4 & H5 & H6).
  { destruct ok1; [by exists st1, l1, true, (S m)|]. pose proof (upgradeOnce_led R (over (S m)) st1 l1 false HR H2 H1) as H.
    destruct (upgradeOnce _ _ _ _ _) as [[st2 l2] ok2]. destruct H as (? & ? & ?). exists st2, l2, ok2, (S (S m)).
    split; [done|]. split; [done|]. split; [done|]. destruct ok2; lia. }
  destruct ok2; [|by exists st2, l2].
  assert (0 <= room l2) by (apply (weights_nonneg _ unit_done); [apply room_unit_nonneg|done]).
  destruct (retryOmitted_led R (S fuel) st2 l2 HR H5 H4) as (st3 & l3 & -> & H7 & H8 & H9); [lia|]. simpl.
  assert (0 <= room l3) by (apply (weights_nonneg _ unit_done); [apply room_unit_nonneg|done]).
  apply IH; [done|done|lia].
Qed.
End Units.

(** ** What allocation leaves as it is *)

Definition bare_subject (s : mixedSubject) : mixedSubject :=
  mkSubject (ref s) (toolCallID s) (lane s) (s_rank s) (alts s) (span s) (spanTokens s) None false Undecided NoReason [].
Definition bare_anchor (a : mixedAnchor) : mixedAnchor :=
  mkAnchor (msgIdx a) (callID a) (a_set a) (cap a) (minVerbatim a) 0 EmptyString 0 (map bare_subject (subjects a)).
Definition bare (u : mixedUnit) : mixedUnit :=
  mkUnit (u_kind u) (u_msgs u) (baseTokens u) (map bare_anchor (anchors u)) (bare_subject <$> subject u) false (keep u).

Lemma map_alter_same {A B} (g : A -> B) (f : A -> A) k (l : list A) : (forall x, g (f x) = g x) -> map g (alter f k l) = map g l.
Proof.
  intros Hf. revert k. induction l as [|x l IH]; intros [|k]; [done|done| |]; simpl; [by rewrite Hf|]. f_equal. apply IH.
Qed.

Lemma on_subject_bare k f a : (forall s, bare_subject (f s) = bare_subject s) -> bare_anchor (on_subject k f a) = bare_anchor a.
Proof. intros Hf. unfold bare_anchor, on_subject. simpl. f_equal. by apply map_alter_same. Qed.

Lemma committed_bare a k i s t m d : bare_anchor (committed a k i s t m d) = bare_anchor a.
Proof.
  unfold bare_anchor, committed, on_subject. simpl. f_equal. rewrite map_map.
  change (map (fun x => bare_subject (set_cands [] x))) with (map bare_subject). by apply map_alter_same.
Qed.

Lemma over_subjects_bare {S} (f : S -> mixedAnchor -> nat -> S * mixedAnchor) st a :
  (forall st a k, bare_anchor (f st a k).2 = bare_anchor a) -> bare_anchor (over_subjects f st a).2 = bare_anchor a.
Proof. intros Hf. apply (over_subjects_ind (fun _ a' => bare_anchor a' = bare_anchor a)); [|done]. intros ??? <-. apply Hf. Qed.

Lemma with_subject_bare f u : (forall s, bare_subject (f s) = bare_subject s) -> bare (with_subject f u) = bare u.
Proof. intros Hf. unfold bare, with_subject. destruct (subject u) eqn:E; simpl; rewrite ?E; simpl; by rewrite ?Hf. Qed.

Lemma set_anchors_bare l u : map bare_anchor l = map bare_anchor (anchors u) -> bare (set_anchors l u) = bare u.
Proof. intros Hl. unfold bare. simpl. by rewrite Hl. Qed.

Lemma over_anchors_bare {S} (f : nat -> S -> mixedAnchor -> S * mixedAnchor) st u :
  (forall i st a, bare_anchor (f i st a).2 = bare_anchor a) -> bare (over_anchors f st u).2 = bare u.
Proof.
  intros Hf. unfold over_anchors. destruct (negb _); [done|].
  pose proof (smap_map bare_anchor f 0 st (anchors u) Hf). destruct (smap f 0 st (anchors u)). by apply set_anchors_bare.
Qed.

Section Bare.
Context (est : string -> Z).

Lemma tryAssign_bare st a k i d : bare_anchor (tryAssign est st a k i d).1.2 = bare_anchor a.
Proof.
  unfold tryAssign. destruct (subjects a !! k) as [s|]; [|done]. destruct (_ <? _); [done|].
  destruct (fits _ _) as [st1 []]; [|done]. apply committed_bare.
Qed.

Lemma try_alts_bare st a k l d : bare_anchor (try_alts est st a k l d).1.2 = bare_anchor a.
Proof.
  revert st a. induction l as [|i l IH]; intros st a; [done|]. simpl. pose proof (tryAssign_bare st a k i d) as H.
  destruct (tryAssign _ _ _ _ _ _) as [[st1 a1] []]; [done|]. by rewrite IH.
Qed.

Lemma floor_bare i st a : bare_anchor (floor_anchor est i st a).2 = bare_anchor a.
Proof.
  unfold floor_anchor. destruct (_ <=? _); [done|]. apply over_subjects_bare. clear. intros st a k. unfold floor_subject.
  destruct (_ <=? _); [done|]. destruct (subjects a !! k); [|done]. apply try_alts_bare.
Qed.

Lemma base_bare i st a : bare_anchor (base_anchor est i st a).2 = bare_anchor a.
Proof.
  apply over_subjects_bare. clear. intros st a k. unfold base_subject. destruct (subjects a !! k) as [s|]; [|done]. destruct (_ || _); [done|].
  pose proof (try_alts_bare st a k (alt_indices s) DecisionBase) as H. destruct (try_alts _ _ _ _ _ _) as [[st1 a1] []]; [done|].
  simpl in *. by rewrite on_subject_bare.
Qed.

Lemma look_bare ev i acc u : bare (look_unit est ev i acc u).2 = bare u.
Proof.
  apply over_anchors_bare. clear. intros ia acc a. apply over_subjects_bare. clear. intros [st b] a k. unfold look_subject.
  destruct (subjects a !! k) as [s|]; [|done]. destruct (chosen s); [|done]. unfold upgradeCandidate.
  destruct (scan_cands _ _ _ _ _ _ _ _ _ _) as [[st1 memo] r]. by apply on_subject_bare.
Qed.

Lemma retry_bare i acc u : bare (retry_unit est i acc u).2 = bare u.
Proof.
  apply over_anchors_bare. clear. intros ia acc a. apply over_subjects_bare. clear. intros [st b] a k. unfold retry_subject.
  destruct (subjects a !! k) as [s|]; [|done]. destruct (_ || _); [done|].
  pose proof (try_alts_bare st a k (alt_indices s) DecisionBase) as H. destruct (try_alts _ _ _ _ _ _) as [[st1 a1] []]; [|done].
  simpl in *. by rewrite on_subject_bare.
Qed.

Lemma refresh_bare i st u : bare (refresh_unit est i st u).2 = bare u.
Proof.
  apply over_anchors_bare. clear. intros ia st a. apply over_subjects_bare. clear. intros st a k. unfold refresh_subject.
  destruct (subjects a !! k) as [s|]; [|done]. destruct (_ && _ && _); [|done]. by apply on_subject_bare.
Qed.

Lemma admitSpan_bare st u : bare (admitSpan st u).2 = bare u.
Proof. unfold admitSpan. destruct (fits _ _) as [st1 []]; by apply with_subject_bare. Qed.

Lemma precharge_bare base l : map bare_anchor (precharge est base l).2 = map bare_anchor l.
Proof.
  revert base. induction l as [|a l IH]; intros base; [done|]. simpl. destruct (checkedTokenAdd _ _) as [b ok].
  specialize (IH b). destruct (precharge est b l) as [[[b1 ok1] v] l1]. simpl in *. by rewrite IH.
Qed.

Lemma allocateChain_bare st u : bare (allocateChain est st u).2 = bare u.
Proof.
  unfold allocateChain. pose proof (precharge_bare (baseTokens u) (anchors u)) as H.
  destruct (precharge _ _ _) as [[[base ok] violated] l]. simpl in H. destruct (if _ || _ then _ else _) as [st1 []]; cbn [negb].
  - simpl. pose proof (smap_map bare_anchor (floor_anchor est) 0 (charge st1 base).1 l floor_bare) as H1.
    destruct (smap (floor_anchor est) 0 (charge st1 base).1 l) as [st2 l2].
    pose proof (smap_map bare_anchor (base_anchor est) 0 st2 l2 base_bare) as H2. destruct (smap (base_anchor est) 0 st2 l2) as [st3 l3].
    simpl in *. rewrite set_anchors_bare; [rewrite with_subject_bare by done; by apply set_anchors_bare|].
    unfold with_subject. simpl. destruct (subject u); simpl; congruence.
  - unfold evict. cbn [snd]. rewrite set_anchors_bare; [rewrite with_subject_bare by done|].
    + unfold bare. simpl. by rewrite H.
    + unfold with_subject. simpl. assert (forall l, map bare_anchor (map (fun a => set_subjects (map (omitSubject OmitChainEvicted) (subjects a)) a) l) = map bare_anchor l) as E.
      { clear. intros l. rewrite map_map. apply map_ext. intros a. unfold bare_anchor. simpl. f_equal. by rewrite map_map. }
      by destruct (subject u); apply E.
Qed.

Lemma lanes_bare st units : map bare (lanes est st units).2 = map bare units.
Proof.
  assert (forall kind f i st u, (forall st u, bare (f st u).2 = bare u) -> bare (lane_unit kind f i st u).2 = bare u) as H.
  { intros kind f i st' u Hf. unfold lane_unit. by destruct (_ || _). }
  unfold lanes. pose proof (smap_back_map bare (lane_unit unitPlainSpan admitSpan) 0 st units (fun i s x => H _ _ i s x admitSpan_bare)) as H1.
  destruct (smap_back _ 0 st units) as [st1 l1].
  pose proof (smap_back_map bare (lane_unit unitChain (allocateChain est)) 0 st1 l1 (fun i s x => H _ _ i s x allocateChain_bare)) as H2.
  destruct (smap_back _ 0 st1 l1) as [st2 l2].
  rewrite (smap_back_map bare (lane_unit unitHistorySpan admitSpan) 0 st2 l2 (fun i s x => H _ _ i s x admitSpan_bare)).
  simpl in *. congruence.
Qed.

Lemma admit_kept_bare st units : map bare (admit_kept est st units).1.2 = map bare units.
Proof.
  revert st. induction units as [|u units IH]; intros st; [done|]. simpl. destruct (negb (keep u)).
  - specialize (IH st). destruct (admit_kept est st units) as [[st1 l] ok]. simpl in *. by rewrite IH.
  - assert (bare (admit_unit est st u).2 = bare u) as H by (unfold admit_unit; destruct (is_chain u); [apply allocateChain_bare|apply admitSpan_bare]).
    destruct (admit_unit est st u) as [st1 u1]. simpl in H. destruct (is_omitted u1); [simpl; by rewrite H|].
    specialize (IH st1). destruct (admit_kept est st1 units) as [[st2 l] ok]. simpl in *. by rewrite IH, H.
Qed.

Lemma on_anchor_bare iu ia a units :
  (forall u a0, units !! iu = Some u -> anchors u !! ia = Some a0 -> bare_anchor a = bare_anchor a0) ->
  map bare (on_anchor iu ia a units) = map bare units.
Proof.
  intros Ha. unfold on_anchor. revert iu Ha. induction units as [|u units IH]; intros [|iu] Ha; [done|done| |].
  - simpl. f_equal. apply set_anchors_bare. specialize (Ha u). simpl in Ha.
    assert (forall a0, anchors u !! ia = Some a0 -> bare_anchor a = bare_anchor a0) as Hx by (intros a0; by apply Ha). clear Ha IH. revert ia Hx.
    induction (anchors u) as [|x l IH]; intros [|ia] Hx; [done|done| |]; simpl; [by rewrite (Hx x)|]. f_equal. by apply IH.
  - simpl. f_equal. apply IH. intros u0 a0 Hu. by apply Ha.
Qed.

Lemma upgradeOnce_bare over st units ev : map bare (upgradeOnce est over st units ev).1.2 = map bare units.
Proof.
  unfold upgradeOnce. destruct over; [done|].
  pose proof (smap_map bare (look_unit est ev) 0 (st, None) units (fun i s x => look_bare ev i s x)) as H.
  destruct (smap _ _ _ _) as [[st1 b] l]. cbn [fst snd] in H. destruct b as [b|]; [|done].
  destruct (l !! b_unit b) as [u|] eqn:Eu; cbn [mbind option_bind]; [|done]. destruct (anchors u !! b_anchor b) as [a|] eqn:Ea; [|done].
  pose proof (tryAssign_bare st1 a (b_subject b) (b_next b) DecisionUpgrade) as H1. destruct (tryAssign _ _ _ _ _ _) as [[st2 a2] ok].
  cbn [fst snd] in *. rewrite <- H. apply on_anchor_bare. intros u0 a0 E0 E1. rewrite Eu in E0. injection E0 as <-. rewrite Ea in E1. by injection E1 as <-.
Qed.

Lemma retryOmitted_bare fuel st units st' units' : retryOmitted est fuel st units = Some (st', units') -> map bare units' = map bare units.
Proof.
  revert st units. induction fuel as [|fuel IH]; intros st units; [done|]. simpl.
  pose proof (smap_back_map bare (retry_unit est) 0 (st, false) units retry_bare) as H.
  destruct (smap_back _ _ _ _) as [[st1 b] l]. simpl in H. destruct b; [intros E%IH; congruence|by intros [= <- <-]].
Qed.

Lemma upgrades_bare fuel over m st units st' units' : upgrades est fuel over m st units = Some (st', units') -> map bare units' = map bare units.
Proof.
  revert m st units. induction fuel as [|fuel IH]; intros m st units; [done|]. cbn [upgrades].
  pose proof (upgradeOnce_bare (over m) st units true) as H1. destruct (upgradeOnce _ _ _ _ _) as [[st1 l1] ok1]. simpl in H1.
  assert (exists st2 l2 ok2 m2, (if ok1 then (st1, l1, true, S m) else let '(st, units, ok) := upgradeOnce est (over (S m)) st1 l1 false in (st, units, ok, S (S m))) = (st2, l2, ok2, m2)
    /\ map bare l2 = map bare units) as (st2 & l2 & ok2 & m2 & -> & H2).
  { destruct ok1; [by exists st1, l1, true, (S m)|]. pose proof (upgradeOnce_bare (over (S m)) st1 l1 false) as H.
    destruct (upgradeOnce _ _ _ _ _) as [[st2 l2] ok2]. exists st2, l2, ok2, (S (S m)). split; [done|]. simpl in H. congruence. }
  destruct ok2; [|by intros [= <- <-]]. destruct (retryOmitted _ _ _ _) as [[st3 l3]|] eqn:E; [|done]. simpl.
  intros H3%IH. apply retryOmitted_bare in E. congruence.
Qed.
End Bare.

(** ** The whole allocation *)

(** The alternatives there are to choose from. *)
Definition capacity (units : list mixedUnit) : Z :=
  Zsum (map (fun u => Zsum (map (fun a => Zsum (map (fun s => len (alts s)) (subjects a))) (anchors u))) units).

Lemma Zsum_map_mono {A} (f g : A -> Z) l : (forall x, f x <= g x) -> Zsum (map f l) <= Zsum (map g l).
Proof. intros H. induction l as [|x l IH]; simpl; [done|]. specialize (H x). lia. Qed.

Lemma room_capacity units : room units <= capacity units.
Proof.
  apply Zsum_map_mono. intros u. apply Zsum_map_mono. intros a. apply Zsum_map_mono. intros s. unfold room_subject.
  destruct (chosen s); lia.
Qed.

Lemma capacity_bare units units' : map bare units' = map bare units -> capacity units' = capacity units.
Proof.
  assert (forall l, capacity l = capacity (map bare l)) as H; [|intros E; by rewrite (H units'), E, <- H].
  intros l. unfold capacity. rewrite map_map. apply Zsum_map_ext. intros u _. simpl. rewrite map_map.
  apply Zsum_map_ext. intros a _. simpl. by rewrite map_map.
Qed.

(** What a unit costs as it will be written out. *)
Definition materialized (est : string -> Z) (u : mixedUnit) : Z :=
  if must_fit u then baseTokens u
  else if is_chain u then if evicted u then 0 else baseTokens u + Zsum (map (fun a => est (anchorJoined a)) (anchors u))
  else if is_omitted u then 0 else baseTokens u.

Section Whole.
Context (est : string -> Z) (He : forall s, count_like (est s)) (n : Z) (Hn : in_int n).

Lemma held_materialized u : unit_done est u -> held u = materialized est u.
Proof using.
  intros [Hb Hu]. unfold held, materialized, is_omitted. destruct (must_fit u); [done|]. destruct Hu as (s & Hs & Hu). rewrite Hs.
  destruct (is_chain u).
  - unfold chain_done in Hu. destruct (evicted u).
    + destruct Hu as [(Hc & _) _]. by rewrite Hc.
    + destruct Hu as [(Hc & _) Hx]. rewrite Hc. f_equal. f_equal. clear Hs. induction Hx as [|a l [Ha _] _ IH]; [done|]. simpl.
      by rewrite IH, (core_tokens _ _ Ha), (core_content _ _ Ha).
  - destruct Hu as [[(Hc & Ho & _)|(Hc & Ho & _)] Han]; rewrite Ho; [|by rewrite Hc]. rewrite Hc, Han. simpl. lia.
Qed.

Lemma refresh_done st units :
  Forall (unit_done est) units -> Zsum (map held (refreshOmissionReasons est st units)) = Zsum (map held units)
    /\ Forall (unit_done est) (refreshOmissionReasons est st units).
Proof using He.
  intros Hu. assert (forall x, unit_done est x -> 0 <= held x) as Hw by (intros; eapply taken_nonneg; eauto).
  destruct (passes_smap (fun R _ => R = Zsum (map held units)) held (unit_done est) (unit_done est) (refresh_unit est) Hw Hw) with (i := 0%nat) (R := 0) (s := st) (l := units)
    as [H1 H2]; try done.
  intros i. apply over_anchors_held; [done|]. intros ia. apply over_subjects_keeps. intros k. apply refresh_keeps.
Qed.

Lemma count_shortfalls_used st units : used (count_shortfalls st units) = used st /\ arithmeticOverflow (count_shortfalls st units) = arithmeticOverflow st.
Proof using.
  unfold count_shortfalls. generalize (flat_map anchors units) as l. intros l. revert st.
  induction l as [|a l IH]; intros st; [done|]. simpl. destruct (IH (if short a then one_shortfall st else st)) as [-> ->]. by destruct (short a).
Qed.

Lemma allocate_spec fuel over units sys :
  count_like sys -> Forall initial units -> (Z.to_nat (capacity units) < fuel)%nat ->
  exists st units' err, allocateMixed est fuel over units n sys = Some (st, units', err) /\ map bare units' = map bare units /\
    (err = None -> used st = sys + Zsum (map held units') /\ used st <= n /\ Forall (unit_done est) units').
Proof using He Hn.
  intros Hs Hu Hf. assert (0 <= sys) as Hs0 by (unfold count_like in Hs; lia).
  unfold allocateMixed. pose proof (reserve_led n sys units Hs Hu) as H1. pose proof (reserve_budget (mkAlloc n sys false 0 0 0) units) as Hb.
  destruct (reserve _ _) as [st1 ok1]. destruct (negb ok1 || _) eqn:E1; [by exists st1, units, (Some ErrContextExhausted)|].
  apply orb_false_iff in E1 as [->%negb_false_iff Hle%Z.ltb_ge]. simpl in Hb. rewrite Hb in Hle. specialize (H1 eq_refl Hle).
  pose proof (admit_kept_led est He n Hn sys st1 units Hs0 Hu H1) as H2. pose proof (admit_kept_bare est st1 units) as B2.
  destruct (admit_kept est st1 units) as [[st2 l2] ok2]. cbn [fst snd] in B2. destruct ok2; [|by exists st2, l2, (Some ErrContextExhausted)].
  destruct (H2 eq_refl) as [H3 H4]. destruct (lanes_led est He n Hn sys st2 l2 Hs0 H4 H3) as [H5 H6]. pose proof (lanes_bare est st2 l2) as B3.
  destruct (lanes est st2 l2) as [st3 l3]. cbn [negb fst snd] in *.
  destruct (upgrades_led est He n Hn sys fuel over 0 st3 l3 Hs0 H6 H5) as (st4 & l4 & E4 & H7 & H8).
  { pose proof (room_capacity l3). rewrite (capacity_bare units l3) in * by congruence. lia. }
  rewrite E4. cbn [mbind option_bind]. apply upgrades_bare in E4.
  set (l5 := if arithmeticOverflow st4 then l4 else refreshOmissionReasons est st4 l4).
  assert (map bare l5 = map bare units) as B5.
  { unfold l5. destruct (arithmeticOverflow st4); [congruence|]. unfold refreshOmissionReasons.
    rewrite (smap_map bare (refresh_unit est) 0 st4 l4 (refresh_bare est)). congruence. }
  destruct (count_shortfalls_used st4 l5) as [U1 U2].
  eexists _, l5, _. split; [done|]. split; [done|]. rewrite U1, U2. destruct H7 as [_ [Ho|(HU & HUn & Ho)]]; rewrite Ho; [done|].
  intros _. unfold l5. rewrite Ho. destruct (refresh_done st4 l4 H8) as [R1 R2]. rewrite R1. split; [done|]. split; [lia|done].
Qed.
End Whole.

(** ** Properties *)

(** C25: Mixed allocation always ends, with fuel for the alternatives there are, and leaves the messages, base costs, caps and alternatives as they were; when it does not report exhaustion, the ledger is exactly the reserved tokens plus the recomputed cost of every unit as it will be written out (an omitted span and an evicted chain cost nothing, a chain its envelope and the text of every anchor), it is within the budget, and the text of every retained anchor is the chosen fragments joined and within the anchor's byte cap. *)
Theorem allocation_exact est fuel over units n sys :
  (forall s, count_like (est s)) -> in_int n -> count_like sys -> Forall initial units -> (Z.to_nat (capacity units) < fuel)%nat ->
  exists st units' err, allocateMixed est fuel over units n sys = Some (st, units', err) /\ map bare units' = map bare units /\
    (err = None -> used st = sys + Zsum (map (materialized est) units') /\ used st <= n /\
      Forall (fun u => retained_chain u = true -> Forall (fun a => content a = anchorJoined a /\ slen (content a) <= cap a) (anchors u)) units').
Proof.
  intros He Hn Hs Hu Hf. destruct (allocate_spec est He n Hn fuel over units sys Hs Hu Hf) as (st & l & err & E & B & H).
  exists st, l, err. split; [done|]. split; [done|]. intros Herr. destruct (H Herr) as (H1 & H2 & H3). split; [|split; [done|]].
  - rewrite H1. f_equal. apply Zsum_map_ext. intros u Hx. eapply Forall_forall in H3; [|exact Hx]. by apply held_materialized.
  - eapply Forall_impl; [exact H3|]. intros u Hd Hr. destruct (retained_done est u Hd Hr) as (_ & _ & _ & _ & s & _ & _ & Hx).
    eapply Forall_impl; [exact Hx|]. intros a [Hc _]. split; [apply (core_content _ _ Hc)|apply (core_cap _ _ Hc)].
Qed.

Definition demo_subject (id : string) (l : list string) : mixedSubject :=
  mkSubject (mkRef DomainRAG id) "call" laneTool 1 (map (fun t => mkAlternative [mkRep DepthL2 RepresentationVerbatim] t None) l) false 0 None false Undecided NoReason [].
Definition demo_span (i : Z) : mixedSubject := mkSubject (mkRef DomainConversation "0") EmptyString i 0 [] true 0 None false Undecided NoReason [].
Definition demo_anchor : mixedAnchor :=
  mkAnchor 1 "call" (mkSet [] 0) 60 1 0 EmptyString 0 [demo_subject "a" ["short"; "a longer text"]; demo_subject "b" ["some"; "some more text"; "a text that cannot be held under the cap of the anchor it is in"]].
Definition demo_units : list mixedUnit :=
  [mkUnit unitPinned [] 7 [] None false false; mkUnit unitHistorySpan [] 900 [] (Some (demo_span laneHistory)) false false;
   mkUnit unitChain [] 20 [demo_anchor] (Some (demo_span laneTool)) false false].
Definition demo_est (s : string) : Z := Z.min 1000 (slen s).

Lemma demo_est_counts s : count_like (demo_est s).
Proof. unfold demo_est, slen, count_like. int_lia. Qed.

Lemma demo_initial : Forall initial demo_units.
Proof.
  repeat constructor; try done.
  - by exists (demo_span laneHistory).
  - by exists (demo_span laneTool).
Qed.

Lemma allocation_exact_witness :
  exists st units' err, allocateMixed demo_est 9 (fun _ => false) demo_units 100 3 = Some (st, units', err) /\ map bare units' = map bare demo_units /\
    (err = None -> used st = 3 + Zsum (map (materialized demo_est) units') /\ used st <= 100 /\
      Forall (fun u => retained_chain u = true -> Forall (fun a => content a = anchorJoined a /\ slen (content a) <= cap a) (anchors u)) units').
Proof.
  apply (allocation_exact demo_est 9 (fun _ => false) demo_units 100 3); [apply demo_est_counts|int_lia|unfold count_like; int_lia|apply demo_initial|].
  vm_compute. lia.
Defined.

Example demo_result : (fun r : mixedAllocState * list mixedUnit * option agentError => (used r.1.1, r.2, map content (flat_map anchors r.1.2), evictedGroups r.1.1))
  <$> allocateMixed demo_est 9 (fun _ => false) demo_units 100 3
  = Some (58, None, [String.append "a longer text" (String (Ascii.ascii_of_nat 10) "some more text")], 1).
Proof. by vm_compute. Qed.

(** The fate of a unit: a span is kept or omitted for the token budget or a cap; an evicted chain takes its subjects with it; a retained chain has every subject rendered, or omitted for a named constraint. *)
Definition decided (u : mixedUnit) : Prop :=
  if must_fit u then subject u = None
  else exists s, subject u = Some s /\
    if is_chain u then
      if evicted u then evicted_subject s /\ Forall (fun a => Forall evicted_subject (subjects a)) (anchors u)
      else admitted s /\ Forall (fun a => Forall settled (subjects a)) (anchors u)
    else settled s.

(** When mixed allocation succeeds no subject is silently skipped: every one is either rendered at an existing alternative with a base, floor or upgrade decision and no reason, or omitted with the omitted decision and the constraint that excluded it; an eviction omits the whole chain, and the verbatim count of a retained anchor is that of the alternatives finally chosen. *)
Theorem allocation_decided est fuel over units n sys st units' :
  (forall s, count_like (est s)) -> in_int n -> count_like sys -> Forall initial units -> (Z.to_nat (capacity units) < fuel)%nat ->
  allocateMixed est fuel over units n sys = Some (st, units', None) ->
  Forall decided units' /\
  Forall (fun u => retained_chain u = true -> Forall (fun a => Forall in_range (subjects a) /\ verbatimGot a = wrap_int (Zsum (map chosen_verbatim (subjects a)))) (anchors u)) units'.
Proof.
  intros He Hn Hs Hu Hf E. destruct (allocate_spec est He n Hn fuel over units sys Hs Hu Hf) as (st0 & l & err & E0 & B & H).
  rewrite E in E0. injection E0 as <- <- <-. destruct (H eq_refl) as (_ & _ & H3). split; (eapply Forall_impl; [exact H3|]).
  - intros u [_ Hd]. unfold decided. destruct (must_fit u); [apply Hd|]. destruct Hd as (s & Hs' & Hd). exists s. split; [done|].
    destruct (is_chain u); [|apply Hd]. unfold chain_done in Hd. destruct (evicted u); [done|]. destruct Hd as [Ha Hx]. split; [done|].
    eapply Forall_impl; [exact Hx|]. intros a [_ HX]. eapply Forall_impl; [exact HX|]. by intros x [_ ?].
  - intros u Hd Hr. destruct (retained_done est u Hd Hr) as (_ & _ & _ & _ & s & _ & _ & Hx).
    eapply Forall_impl; [exact Hx|]. intros a [Hc _]. split; [apply (core_range _ _ Hc)|apply (core_verbatim _ _ Hc)].
Qed.

Lemma allocation_decided_witness :
  exists st units', allocateMixed demo_est 9 (fun _ => false) demo_units 100 3 = Some (st, units', None) /\ Forall decided units'.
Proof.
  destruct (allocateMixed demo_est 9 (fun _ => false) demo_units 100 3) as [[[st units'] err]|] eqn:E; [|vm_compute in E; discriminate].
  assert (err = None) as -> by (vm_compute in E; congruence).
  exists st, units'. split; [reflexivity|].
  refine (proj1 (allocation_decided demo_est 9 (fun _ => false) demo_units 100 3 st units' demo_est_counts _ _ demo_initial _ E)).
  - int_lia.
  - unfold count_like. int_lia.
  - vm_compute. lia.
Defined.

(** The memo of priced upgrades is transparent: from an anchor in good order, the memoised scan gives the candidate, and leaves the ledger, that pricing every later alternative again would; it leaves the anchor in good order, and so does any assignment after it, which drops the memos it makes stale. *)
Theorem memo_transparent est st a k s prev evidenceOnly :
  core est a -> subjects a !! k = Some s -> chosen s = Some prev ->
  let '(st', a', r) := upgradeCandidate est st a k s prev evidenceOnly in
  scan_fresh est (length (alts s) - (prev + 1)) 0 st a k s prev evidenceOnly = (st', r) /\ core est a' /\ shape a' = shape a /\
  forall st2 j i d, (forall s, subjects a' !! j = Some s -> (i < length (alts s))%nat) -> core est (tryAssign est st2 a' j i d).1.2.
Proof.
  intros Hc Hs Hch. pose proof (upgradeCandidate_spec est st a k s prev evidenceOnly Hc Hs Hch) as H.
  destruct (upgradeCandidate _ _ _ _ _ _ _) as [[st1 a1] r]. destruct H as (H1 & H2 & memo & E). split; [done|]. split; [done|].
  split; [rewrite E; by apply on_subject_view|]. intros st2 j i d Hi. pose proof (tryAssign_spec est st2 a1 j i d H2 Hi) as H.
  destruct (tryAssign _ _ _ _ _ _) as [[st3 a3] ok]. apply H.
Qed.

Definition demo_chosen : mixedAnchor :=
  set_subjects (alter (set_chosen (Some 0%nat)) 0%nat (subjects demo_anchor)) (set_content "short" 5 (set_verbatim 1 demo_anchor)).

Lemma demo_chosen_core : core demo_est demo_chosen.
Proof.
  split; [done|done|done|done| |].
  - repeat constructor.
  - intros k s prev Hk _ i c Hi. destruct k as [|[|k]]; [| |done]; injection Hk as <-; done.
Qed.

Lemma memo_transparent_witness :
  let s := set_chosen (Some 0%nat) (demo_subject "a" ["short"; "a longer text"]) in
  let '(st', a', r) := upgradeCandidate demo_est (mkAlloc 100 50 false 0 0 0) demo_chosen 0 s 0 false in
  scan_fresh demo_est 1 0 (mkAlloc 100 50 false 0 0 0) demo_chosen 0 s 0 false = (st', r) /\ core demo_est a' /\ shape a' = shape demo_chosen /\
  forall st2 j i d, (forall s, subjects a' !! j = Some s -> (i < length (alts s))%nat) -> core demo_est (tryAssign demo_est st2 a' j i d).1.2.
Proof.
  intros s. apply (memo_transparent demo_est (mkAlloc 100 50 false 0 0 0) demo_chosen 0 s 0 false); [apply demo_chosen_core|done|done].
Defined.
