(* ===== verification/MixedAssemble.v ===== *)
(** * MixedAssemble: assembling a transcript with structured tool results (agent/mixed_subjects.go, mixed_assemble.go)

    The groups of the transcript become allocation units, [MixedAlloc] divides
    the budget between them, and the result is a copy of the transcript in which
    a structured result carries the text that was paid for.  The canonical state
    is never written: every message here is a value.  [strings.TrimSpace],
    [strconv.Quote] and the answers of the context are arguments. *)

From stdpp Require Import list pretty strings.
From S2P Require Import Prelude GoString GoText GoFloat Tokens Request ContextSets Compactor ContextManager MixedAlloc.

#[local] Open Scope string_scope.
#[local] Open Scope Z_scope.
#[local] Open Scope go_scope.
#[local] Open Scope list_scope.

(** ** The estimator *)

Definition guardedEstimate (est : option (string -> Z)) (s : string) : Z :=
  if string_eqb s "" then 0
  else
    let fallback := 1 +i Z.quot (go_len s -i 1) 4 in
    match est with
    | Some f => if 0 <? f s then f s else fallback
    | None => fallback
    end.

Definition guarded (m : ContextManager) : ContextManager :=
  mkManager (cm_Compactor m) (Some (guardedEstimate (cm_Estimate m))) (frameToolResults m) (advisoryTokens m) (Mixed m) (CompactionLowWater m).

Definition cm_checkedMessageCost (m : ContextManager) : Message -> Z * bool := checkedMessageCost (costCompactor m).

(** ** Building units (mixed_subjects.go) *)

Definition durableSummarySubjectID : string := "durable-summary".

Inductive assembleError :=
| ErrMixedCompactor
| Exhausted
| InvalidSet (callID : string) (err : setError)
| BlankCallID
| DuplicateCallID (id : string)
| UnknownResult (id : string)
| RepeatedResult (id : string)
| DuplicateTraceSubject (callID : string) (r : SubjectRef)
| LegacyError (err : agentError).

Definition spanSubject (firstMsg lane tokens : Z) : mixedSubject :=
  mkSubject (mkRef DomainConversation (pretty firstMsg)) "" lane 0 [] true tokens None false Undecided NoReason [].

(** The ids of the calls, none blank and none twice. *)
Fixpoint call_ids (seen : list string) (calls : list ToolCall) : result assembleError (list string) :=
  match calls with
  | [] => Ok seen
  | tc :: calls =>
      if bool_decide (tc_ID tc = "") then Err BlankCallID
      else if bool_decide (tc_ID tc ∈ seen) then Err (DuplicateCallID (tc_ID tc))
      else call_ids (tc_ID tc :: seen) calls
  end.

Fixpoint check_results (ids answered : list string) (results : list Message) : option assembleError :=
  match results with
  | [] => None
  | m :: results =>
      let id := ToolCallID (msg m) in
      if bool_decide (id = "") || negb (bool_decide (id ∈ ids)) then Some (UnknownResult id)
      else if bool_decide (id ∈ answered) then Some (RepeatedResult id)
      else check_results ids (id :: answered) results
  end.

Definition validateChainBijection (s : list Message) : option assembleError :=
  match s with
  | [] => None
  | call :: results =>
      match call_ids [] (ToolCalls (msg call)) with
      | Err err => Some err
      | Ok ids => check_results ids [] results
      end
  end.

Definition with_content (c : string) (m : Message) : Message :=
  let x := msg m in
  mkMessage (mkChatMessage (Role x) c (ToolCalls x) (ToolName x) (ToolCallID x)) (segment m) (Attrib m) (msg_Context m) (OutputCap m) (idx m).

Definition group_subject (callID : string) (g : ContextGroup) : mixedSubject :=
  mkSubject (cg_Subject g) callID laneTool (Rank g) (Alternatives g) false 0 None false Undecided NoReason [].

Definition anchor_of (j : nat) (m : Message) (set : ContextSet) : mixedAnchor :=
  mkAnchor j (ToolCallID (msg m)) set (OutputCap m) (MinVerbatim set) 0 "" 0 (map (group_subject (ToolCallID (msg m))) (Groups set)).

Section Manager.
Context (m : ContextManager).

(** The loop of [chainAnchors]: the results from index [j] on. *)
Fixpoint anchors_from (j : nat) (base : Z) (results : list Message) : result assembleError (list mixedAnchor * Z) :=
  match results with
  | [] => Ok ([], base)
  | x :: results =>
      let charged (envelope : Message) (rest : Z -> result assembleError (list mixedAnchor * Z)) :=
        let '(cost, costOK) := cm_checkedMessageCost m envelope in
        let '(base, ok) := checkedTokenAdd base cost in
        if negb costOK || negb ok then Err Exhausted else rest base in
      match msg_Context x with
      | None => charged x (fun base => anchors_from (S j) base results)
      | Some set =>
          match validateContextSet (Some set) with
          | Some err => Err (InvalidSet (ToolCallID (msg x)) err)
          | None =>
              charged (with_content "" x) (fun base =>
                match anchors_from (S j) base results with
                | Err err => Err err
                | Ok (l, base) => Ok (anchor_of j x set :: l, base)
                end)
          end
      end
  end.

Definition chainAnchors (s : list Message) : result assembleError (list mixedAnchor * Z) :=
  match s with
  | [] => Ok ([], 0)
  | call :: results =>
      let '(base, ok) := cm_checkedMessageCost m call in
      if negb ok then Err Exhausted else anchors_from 1 base results
  end.

Definition mixedUnitFor (g : compactionGroup) (first : Z) : result assembleError mixedUnit :=
  let unit kind base anchors subject := mkUnit kind (g_msgs g) base anchors subject false false in
  match g_kind g with
  | groupPinned => Ok (unit unitPinned (g_tokens g) [] None)
  | groupUnresolvedTool => Ok (unit unitUnresolved (g_tokens g) [] None)
  | groupPlainElastic => Ok (unit unitPlainSpan (g_tokens g) [] (Some (spanSubject first lanePlain (g_tokens g))))
  | groupHistory => Ok (unit unitHistorySpan (g_tokens g) [] (Some (spanSubject first laneHistory (g_tokens g))))
  | groupCompletedTool =>
      match validateChainBijection (g_msgs g) with
      | Some err => Err err
      | None =>
          match chainAnchors (g_msgs g) with
          | Err err => Err err
          | Ok (anchors, base) => Ok (unit unitChain base anchors (Some (spanSubject first laneTool base)))
          end
      end
  end.

(** The trace subjects of a unit, none of them seen before. *)
Definition trace_keys (u : mixedUnit) : list (string * SubjectRef) :=
  flat_map (fun a => map (fun s => (callID a, ref s)) (subjects a)) (anchors u).
Fixpoint add_keys (seen keys : list (string * SubjectRef)) : result assembleError (list (string * SubjectRef)) :=
  match keys with
  | [] => Ok seen
  | k :: keys => if bool_decide (k ∈ seen) then Err (DuplicateTraceSubject k.1 k.2) else add_keys (k :: seen) keys
  end.

Fixpoint build_units (first : Z) (seen : list (string * SubjectRef)) (gs : list compactionGroup) : result assembleError (list mixedUnit) :=
  match gs with
  | [] => Ok []
  | g :: gs =>
      if g_overflow g then Err Exhausted
      else
        let id := match g_msgs g with x :: _ => if 0 <? idx x then idx x - 1 else first | [] => first end in
        match mixedUnitFor g id with
        | Err err => Err err
        | Ok u =>
            match add_keys seen (trace_keys u) with
            | Err err => Err err
            | Ok seen =>
                match build_units (first + len (g_msgs g)) seen gs with
                | Err err => Err err
                | Ok units => Ok (u :: units)
                end
            end
        end
  end.

(** The groups are priced without the frame of a tool result. *)
Definition buildMixedUnits (st : State) : result assembleError (list mixedUnit) :=
  build_units 0 [] (groups (mkCompactor (cm_Estimate m) 0) st).
End Manager.

(** ** Materialization (mixed_assemble.go) *)

Definition hasStructuredAnchor (st : State) : bool := existsb (fun x => opt_b (msg_Context x)) (st_Messages st).

Definition detachContext (m : Message) : Message := mkMessage (msg m) (segment m) (Attrib m) None (OutputCap m) (idx m).

Definition anchorFor (l : list mixedAnchor) (i : nat) : option mixedAnchor := List.find (fun a => (msgIdx a =? i)%nat) l.

(** The sources of the chosen alternatives. *)
Definition chosen_sources (s : mixedSubject) : list RetrievedSource :=
  match i ← chosen s; alts s !! i with Some alt => default [] (ca_Attrib alt) | None => [] end.
Definition anchorAttrib (a : mixedAnchor) : option (list RetrievedSource) :=
  match flat_map chosen_sources (subjects a) with [] => None | sources => Some sources end.

Definition with_attrib (at_ : option (list RetrievedSource)) (m : Message) : Message :=
  mkMessage (msg m) (segment m) at_ (msg_Context m) (OutputCap m) (idx m).

Definition rendered (l : list mixedAnchor) (i : nat) (x : Message) : Message :=
  detachContext (match anchorFor l i with Some a => with_attrib (anchorAttrib a) (with_content (content a) x) | None => x end).

Definition materializeSkip (u : mixedUnit) : bool :=
  match u_kind u with
  | unitPlainSpan | unitHistorySpan => is_omitted u
  | unitChain => evicted u
  | _ => false
  end.

Definition unit_messages (u : mixedUnit) : list Message :=
  if materializeSkip u then [] else imap (rendered (anchors u)) (u_msgs u).

Definition materializeMixed (system : string) (summary : option Message) (units : list mixedUnit) : State :=
  mkState system "" (match summary with Some x => [detachContext x] | None => [] end ++ flat_map unit_messages units) [].

(** The kept units are compared position by position. *)
Definition selected (s : mixedSubject) : bool := opt_b (chosen s).
Definition preservesNewestContent (full low : list mixedUnit) : bool :=
  forallb (fun '(f, u) =>
    negb (keep u) || forallb (fun '(fa, a) => negb (existsb selected (subjects fa)) || existsb selected (subjects a)) (zip (anchors f) (anchors u)))
    (zip full low).

(** The newest unit of the current run, from the newest unit on. *)
Fixpoint keep_newest (units : list mixedUnit) : list mixedUnit :=
  match units with
  | [] => []
  | u :: units =>
      match u_kind u with
      | unitPinned => u :: units
      | unitChain | unitPlainSpan => mkUnit (u_kind u) (u_msgs u) (baseTokens u) (anchors u) (subject u) (evicted u) true :: units
      | _ => u :: keep_newest units
      end
  end.
Definition mark_newest (units : list mixedUnit) : list mixedUnit := reverse (keep_newest (reverse units)).

Definition mustFitCause (m : ContextManager) (stMat : State) (units : list mixedUnit) (toolSchemaTokens allocUsed : Z) : PressureCause :=
  let unresolved := fold_left (fun n u => if bool_decide (u_kind u = unitUnresolved) then saturatedTokenAdd n (baseTokens u) else n) units 0 in
  let '(pinnedRemainder, ok) := checkedTokenSub allocUsed unresolved in
  let pinnedRemainder := if ok then pinnedRemainder else MaxInt in
  if (toolSchemaTokens <? unresolved) && (pinnedRemainder <? unresolved) then CauseToolOutput
  else pinnedOverflowCause m stMat toolSchemaTokens.

(** ** The trace *)

Record ContextSubjectTrace := mkRow {
  Subject : SubjectRef; t_ToolCallID : string; t_Lane : Z; t_Rank : Z; Omitted : bool; EffectiveDepth : Z;
  Representations : AlternativeDesc; EstimatedTokens : Z; Bytes : Z; Decision : decisionKind; OmissionReason : omission
}.

Record ContextAssemblyTrace := mkTrace {
  MaxTokens : Z; EstimatedTokensUsed : Z; EstimatedTokensFree : Z; SelectedSubjects : Z; RenderedSubjects : Z; OmittedSubjects : Z;
  VerbatimShortfalls : Z; Subjects : option (list ContextSubjectTrace)
}.
Definition noTrace : ContextAssemblyTrace := mkTrace 0 0 0 0 0 0 0 None.

Definition spanRepresentations : AlternativeDesc := [mkRep DepthL2 RepresentationVerbatim].
Definition summaryRepresentations : AlternativeDesc := [mkRep DepthL1 RepresentationCompact].

Definition newSubjectRow (s : mixedSubject) : ContextSubjectTrace :=
  mkRow (ref s) (toolCallID s) (lane s) (s_rank s) (omitted s) DepthInvalid [] 0 0 (decision s) (reason s).

(** A rendered row. *)
Definition at_depth (row : ContextSubjectTrace) (d : Z) (reps : AlternativeDesc) (toks bytes : Z) : ContextSubjectTrace :=
  mkRow (Subject row) (t_ToolCallID row) (t_Lane row) (t_Rank row) (Omitted row) d reps toks bytes (Decision row) (OmissionReason row).

Definition spanBytes (u : mixedUnit) : Z :=
  fold_left (fun n '(i, x) => if opt_b (anchorFor (anchors u) i) then n else n +i slen (Content (msg x)))
    (imap pair (u_msgs u)) 0.

Definition spanRow (u : mixedUnit) (s : mixedSubject) : ContextSubjectTrace :=
  let row := newSubjectRow s in
  if omitted s then row else at_depth row DepthL2 spanRepresentations (spanTokens s) (spanBytes u).

Definition anchorRow (m : ContextManager) (s : mixedSubject) : ContextSubjectTrace :=
  let row := newSubjectRow s in
  match chosen s with
  | None => row
  | Some i =>
      if omitted s then row
      else match alts s !! i with
      | None => row
      | Some alt => at_depth row (desc_Depth (Desc alt)) (Desc alt) (cm_estimate m (ca_Content alt)) (slen (ca_Content alt))
      end
  end.

Definition summaryRow (m : ContextManager) (x : Message) : ContextSubjectTrace :=
  mkRow (mkRef DomainConversation durableSummarySubjectID) "" lanePlain 0 false DepthL1 summaryRepresentations
    (messageCost (costCompactor m) x) (slen (Content (msg x))) DecisionBase NoReason.

Definition unit_rows (m : ContextManager) (u : mixedUnit) : list ContextSubjectTrace :=
  match subject u with Some s => [spanRow u s] | None => [] end ++ flat_map (fun a => map (anchorRow m) (subjects a)) (anchors u).

Definition fillMixedTrace (m : ContextManager) (units : list mixedUnit) (summary : option Message) (alloc : mixedAllocState) (maxTokens used : Z) : ContextAssemblyTrace :=
  let free := (checkedTokenSub maxTokens used).1 in
  let rows := match summary with Some x => [summaryRow m x] | None => [] end ++ flat_map (unit_rows m) units in
  mkTrace maxTokens used free (len rows) (len (List.filter (fun r => negb (Omitted r)) rows)) (len (List.filter Omitted rows))
    (verbatimShortfalls alloc) (Some rows).

(** ** Assembly *)

Section Assemble.
Context (TrimSpace Quote : string -> string).

(** Enough rounds for the alternatives there are ([allocation_exact]). *)
Definition alloc_fuel (units : list mixedUnit) : nat := S (Z.to_nat (capacity units)).

(** The second allocation of a step that evicts, against the low-water mark. *)
Definition low_water (m : ContextManager) (over : nat -> bool) (st : State) (stateBudget sysTokens : Z) (units : list mixedUnit) (alloc : mixedAllocState) : option (list mixedUnit * mixedAllocState) :=
  let '(mark, ok) := lowWaterMark stateBudget (CompactionLowWater m) in
  if negb (ok && (0 <? evictedGroups alloc)) then Some (units, alloc)
  else
    match buildMixedUnits m st with
    | Err _ => Some (units, alloc)
    | Ok lowUnits =>
        let lowUnits := mark_newest lowUnits in
        '(lowAlloc, lowUnits, err) ← allocateMixed (cm_estimate m) (alloc_fuel lowUnits) over lowUnits mark sysTokens;
        match err with
        | None => if preservesNewestContent units lowUnits then Some (lowUnits, lowAlloc) else Some (units, alloc)
        | Some _ => Some (units, alloc)
        end
    end.

(** The system prompt, the summary and the advisory: what no unit stands for; or the sum that overflowed. *)
Definition fixedTokens (m : ContextManager) (stMat : State) (hadSummary : bool) : option Message * Z * bool :=
  let sysTokens := saturatedTokenAdd (cm_estimate m (st_System stMat)) (advisoryTokens m) in
  match st_Messages stMat with
  | x :: _ =>
      if hadSummary then
        let '(cost, costOK) := cm_checkedMessageCost m x in
        let '(sysTokens, addOK) := checkedTokenAdd sysTokens cost in
        (Some x, sysTokens, costOK && addOK)
      else (None, sysTokens, true)
  | [] => (None, sysTokens, true)
  end.

(** What is reported of an allocation that stands. *)
Definition assembled (m : ContextManager) (thresholds : PressureThresholds) (input toolSchemaTokens stateBudget : Z) (system : string) (summary : option Message) (units : list mixedUnit) (alloc : mixedAllocState) :
    State * Pressure * ContextAssemblyTrace * option assembleError :=
  let out := materializeMixed system summary units in
  let '(used, usedOK) := checkedTotalTokens m out 0 in
  let '(after, afterOK) := checkedTokenAdd used toolSchemaTokens in
  let shed := (0 <? evictedGroups alloc) || (0 <? anchorOmissions alloc) in
  let exhausted := negb usedOK || negb afterOK || (input <? after) in
  let usedPct := usedFraction after input in
  let '(level, mitigation) := Classify thresholds usedPct exhausted shed in
  let buckets := pressureBuckets m out toolSchemaTokens in
  let pressure := mkPressure usedPct (evictedGroups alloc) (if shed then 1 else 0) (anchorOmissions alloc) after input level
                    (dominantCause buckets) mitigation (if usedOK && afterOK then buckets else noBuckets) in
  if exhausted then (out, pressure, noTrace, Some Exhausted)
  else (out, pressure, fillMixedTrace m units summary alloc stateBudget used, None).

(** [over a n]: whether the context is over at the [n]-th upgrade of the [a]-th allocation. *)
Definition assembleMixed (m : ContextManager) (over : nat -> nat -> bool) (st : State) (toolSchemaTokens : Z) (budget : TokenBudget) :
    option (State * Pressure * ContextAssemblyTrace * option assembleError) :=
  let m := guarded m in
  let thresholds := normalize (Thresholds budget) in
  let input := tb_Input budget in
  let hadSummary := negb (string_eqb (TrimSpace (DurableSummary st)) "") in
  let stMat := materializeDurableSummary TrimSpace Quote st in
  let failed used tokens cause := Some (stMat, halt used tokens input cause, noTrace, Some Exhausted) in
  let '(pinned, pinnedOK) := checkedPinnedTokens m stMat toolSchemaTokens in
  if negb pinnedOK || (input <? pinned) then failed (usedFraction pinned input) pinned (pinnedOverflowCause m stMat toolSchemaTokens)
  else
    match buildMixedUnits m st with
    | Err Exhausted =>
        let tokens := (checkedTotalTokens m stMat toolSchemaTokens).1 in
        failed (usedFraction tokens input) tokens (dominantCause (pressureBuckets m stMat toolSchemaTokens))
    | Err err => Some (stMat, noPressure, noTrace, Some err)
    | Ok units =>
        let '(summary, sysTokens, sysOK) := fixedTokens m stMat hadSummary in
        if negb sysOK then failed fone sysTokens CausePinned
        else
          let '(stateBudget, stateBudgetOK) := checkedTokenSub input toolSchemaTokens in
          if negb stateBudgetOK then failed fone stateBudget CauseToolSchema
          else
            '(alloc, allocated, err) ← allocateMixed (cm_estimate m) (alloc_fuel units) (over 0%nat) units stateBudget sysTokens;
            match err with
            | Some _ =>
                let reserved := saturatedTokenAdd (used alloc) toolSchemaTokens in
                let cause := if arithmeticOverflow alloc then dominantCause (pressureBuckets m stMat toolSchemaTokens)
                             else mustFitCause m stMat allocated toolSchemaTokens (used alloc) in
                failed (usedFraction reserved input) reserved cause
            | None =>
                '(units, alloc) ← low_water m (over 1%nat) st stateBudget sysTokens allocated alloc;
                Some (assembled m thresholds input toolSchemaTokens stateBudget (st_System stMat) summary units alloc)
            end
    end.

Definition AssembleWithTrace (m : ContextManager) (over : nat -> nat -> bool) (st : State) (toolSchemaTokens : Z) (budget : TokenBudget) :
    option (State * Pressure * ContextAssemblyTrace * option assembleError) :=
  if Mixed m && opt_b (cm_Compactor m) then Some (st, noPressure, noTrace, Some ErrMixedCompactor)
  else if negb (Mixed m) || negb (hasStructuredAnchor st) then
    let '(out, pressure, err) := assembleLegacy TrimSpace Quote m st toolSchemaTokens budget in
    Some (out, pressure, noTrace, LegacyError <$> err)
  else assembleMixed m over st toolSchemaTokens budget.
End Assemble.

(** ** The estimator answers counts *)

Lemma guarded_counts est s : (forall f, est = Some f -> forall s, f s <= MaxInt) -> count_like (guardedEstimate est s).
Proof.
  intros Hf. unfold guardedEstimate, string_eqb. case_bool_decide as Hs; [unfold count_like; int_lia|].
  assert (1 <= go_len s <= MaxInt) as Hl.
  { unfold go_len, slen. destruct s; [done|]. simpl. int_lia. }
  assert (count_like (1 +i Z.quot (go_len s -i 1) 4)) as Hd.
  { rewrite (wrap_int_id (go_len s - 1)) by int_lia. pose proof (Z.quot_le_upper_bound (go_len s - 1) 4 MaxInt ltac:(lia)).
    pose proof (Z.quot_pos (go_len s - 1) 4 ltac:(lia) ltac:(lia)). pose proof (Z.quot_le_upper_bound (go_len s - 1) 4 (MaxInt - 1) ltac:(lia)).
    unfold count_like. rewrite wrap_int_id by int_lia. lia. }
  destruct est as [f|]; [|done]. specialize (Hf f eq_refl s). destruct (Z.ltb_spec 0 (f s)); [unfold count_like; lia|done].
Qed.

(** ** Costs *)

Section Costs.
Context (m : ContextManager) (Hest : forall s, count_like (cm_estimate m s)).
Context (Hnil : cm_estimate m "" = 0).
Let rc := costCompactor m.
Let rc0 := mkCompactor (cm_Estimate m) 0.

Lemma cost_msg x y : msg x = msg y -> cost rc x = cost rc y.
Proof using. intros E. unfold cost, extra_costs. by rewrite E. Qed.

Lemma cost_content c x : cost rc (with_content c x) = cm_estimate m c + cost rc (with_content "" x).
Proof using Hnil. unfold cost. simpl. change (estimate rc c) with (cm_estimate m c). change (estimate rc "") with (cm_estimate m ""). rewrite Hnil. unfold extra_costs. simpl. lia. Qed.

(** The frame is what the two prices of a message differ by. *)
Definition frames (l : list Message) : Z := toolResultOverhead rc * len (List.filter (is_role "tool") l).

Lemma cost_frame x : cost rc x = cost rc0 x + (if is_role "tool" x then toolResultOverhead rc else 0).
Proof using.
  unfold cost, extra_costs, is_role. change (estimate rc) with (estimate rc0). destruct (string_eqb _ _); rewrite !Zsum_app; simpl; lia.
Qed.

Lemma costs_frame l : costs rc l = costs rc0 l + frames l.
Proof using.
  induction l as [|x l IH]; [unfold frames, costs; simpl; len_lia|]. unfold costs in *. simpl. rewrite IH, cost_frame. unfold frames. simpl.
  destruct (is_role "tool" x); rewrite ?len_cons; lia.
Qed.

Lemma est0_counts s : count_like (estimate rc0 s).
Proof using Hest. apply (Hest s). Qed.

Lemma group_priced st g :
  g ∈ groups rc0 st -> g_overflow g = false -> g_tokens g = costs rc0 (g_msgs g) /\ count_like (g_tokens g).
Proof using Hest.
  intros (k & Hk & ->)%groups_In. unfold group_at. rewrite (group_tokens_spec rc0 est0_counts) by (done || (unfold count_like; simpl; int_lia)).
  set (l := slice _ _ _). pose proof (costs_nonneg rc0 est0_counts ltac:(unfold count_like; simpl; int_lia) l).
  destruct (Z.leb_spec (0 + costs rc0 l) MaxInt); simpl; [|done]. intros _. unfold count_like. split; lia.
Qed.

Lemma checked_cost x n : count_like n ->
  (checkedMessageCost rc x).2 = true -> (checkedTokenAdd n (checkedMessageCost rc x).1).2 = true ->
  (checkedTokenAdd n (checkedMessageCost rc x).1).1 = n + cost rc x /\ count_like (n + cost rc x).
Proof using Hest.
  intros Hn. pose proof (est_counts m Hest) as He. pose proof (overhead_counts m Hest) as Ho.
  rewrite (checkedMessageCost_spec rc He Ho). pose proof (cost_nonneg rc He Ho x).
  unfold saturated at 1. destruct (Z.leb_spec (cost rc x) MaxInt) as [Hle|Hgt]; cycle 1.
  { unfold saturated. by rewrite (proj2 (Z.leb_gt _ _) Hgt). }
  intros _. replace (saturated (cost rc x)).1 with (cost rc x) by (unfold saturated; by rewrite (proj2 (Z.leb_le _ _) Hle)).
  rewrite checkedTokenAdd_counts by (done || (unfold count_like; lia)). unfold saturated, count_like in *.
  destruct (Z.leb_spec (n + cost rc x) MaxInt); simpl; [lia|done].
Qed.
End Costs.

(** ** What is built *)

Lemma validated_alts set : validateContextSet (Some set) = None -> Forall (fun g => Alternatives g <> []) (Groups set).
Proof.
  unfold validateContextSet. destruct (_ <? _); [done|]. destruct (_ =? _); [done|]. destruct (validateContextSetCardinality _); [done|].
  assert (forall i seen gs, validate_groups i seen gs = None -> Forall (fun g => Alternatives g <> []) gs) as H; [|apply H].
  intros i seen gs. revert i seen. induction gs as [|g gs IH]; intros i seen; [constructor|]. simpl.
  destruct (bool_decide _); [done|]. destruct (negb _); [done|]. destruct (bool_decide _); [done|]. destruct (index_of _ _ _); [done|].
  destruct (Alternatives g) eqn:E; [done|]. destruct (len _ =? 0); [done|]. destruct (validate_alternatives _ _ _ _); [done|].
  intros H. constructor; [by rewrite E|]. by eapply IH.
Qed.

Lemma anchor_of_fresh j x set : validateContextSet (Some set) = None -> fresh_anchor (anchor_of j x set).
Proof.
  intros Hv. split; [done|]. simpl. apply Forall_map. eapply Forall_impl; [apply (validated_alts set Hv)|]. done.
Qed.

Lemma anchorFor_none l i : Forall (fun a => (i < msgIdx a)%nat) l -> anchorFor l i = None.
Proof. induction 1 as [|a l Ha _ IH]; [done|]. simpl. by rewrite (proj2 (Nat.eqb_neq (msgIdx a) i)) by lia. Qed.

Lemma anchorFor_skip a l i : msgIdx a <> i -> anchorFor (a :: l) i = anchorFor l i.
Proof. intros H. simpl. by rewrite (proj2 (Nat.eqb_neq (msgIdx a) i)). Qed.

Section Built.
Context (m : ContextManager) (Hest : forall s, count_like (cm_estimate m s)) (Hnil : cm_estimate m "" = 0).
Let rc := costCompactor m.

Lemma cost_rendered_none l i x : anchorFor l i = None -> cost rc (rendered l i x) = cost rc x.
Proof using. intros E. unfold rendered. rewrite E. by apply cost_msg. Qed.

Lemma cost_rendered_some l i x a : anchorFor l i = Some a -> cost rc (rendered l i x) = cm_estimate m (content a) + cost rc (with_content "" x).
Proof using Hnil. intros E. unfold rendered. rewrite E. rewrite <- cost_content by done. by apply cost_msg. Qed.

(** The messages from index [j] on, as the anchors [l] render them. *)
Definition rendered_from (l : list mixedAnchor) (j : nat) (xs : list Message) : list Message := imap (fun i => rendered l (j + i)) xs.

Lemma rendered_from_cons l j x xs : rendered_from l j (x :: xs) = rendered l j x :: rendered_from l (S j) xs.
Proof using.
  unfold rendered_from. rewrite imap_cons. rewrite Nat.add_0_r. f_equal. apply imap_ext. intros i y _. simpl. by rewrite Nat.add_succ_r.
Qed.

Lemma rendered_from_skip a l j xs : (msgIdx a < j)%nat -> rendered_from (a :: l) j xs = rendered_from l j xs.
Proof using. intros Hj. apply imap_ext. intros i y _. unfold rendered. by rewrite anchorFor_skip by lia. Qed.

Lemma later_anchors j l l' : map msgIdx l' = map msgIdx l -> Forall (fun a => (j <= msgIdx a)%nat) l -> Forall (fun a => (j <= msgIdx a)%nat) l'.
Proof using.
  intros E H. assert (Forall (fun i => (j <= i)%nat) (map msgIdx l')) as Hx; [rewrite E; by apply Forall_map|]. by rewrite Forall_map in Hx.
Qed.

Lemma anchors_from_spec j base results l b :
  count_like base -> anchors_from m j base results = Ok (l, b) ->
  count_like b /\ Forall fresh_anchor l /\ Forall (fun a => (j <= msgIdx a)%nat) l /\
  forall l', map msgIdx l' = map msgIdx l ->
    costs rc (rendered_from l' j results) = b - base + Zsum (map (fun a => cm_estimate m (content a)) l').
Proof using Hest Hnil.
  revert j base l b. induction results as [|x results IH]; intros j base l b Hb; cbn [anchors_from].
  { intros [= <- <-]. split; [done|]. split; [done|]. split; [done|]. intros l' E. apply map_eq_nil in E as ->. unfold costs. simpl. lia. }
  assert (forall y, let '(cost, costOK) := cm_checkedMessageCost m y in let '(b1, ok) := checkedTokenAdd base cost in
    negb costOK || negb ok = false -> b1 = base + Compactor.cost rc y /\ count_like b1) as Hcost.
  { intros y. pose proof (checked_cost m Hest y base Hb) as H. unfold cm_checkedMessageCost. fold rc in H. fold rc.
    destruct (checkedMessageCost rc y) as [c ok1]. simpl in H. destruct (checkedTokenAdd base c) as [b1 ok2]. simpl in H.
    intros [->%negb_false_iff ->%negb_false_iff]%orb_false_iff. destruct (H eq_refl eq_refl) as [-> ?]. done. }
  destruct (msg_Context x) as [set|] eqn:Ex.
  - destruct (validateContextSet (Some set)) eqn:Ev; [done|]. specialize (Hcost (with_content "" x)).
    destruct (cm_checkedMessageCost m (with_content "" x)) as [c ok1]. destruct (checkedTokenAdd base c) as [b1 ok2].
    destruct (negb ok1 || negb ok2); [done|]. destruct (Hcost eq_refl) as [-> Hb1].
    destruct (anchors_from m (S j) _ results) as [[l1 b2]|] eqn:E1; intros E; [|discriminate]. injection E as <- <-.
    destruct (IH (S j) _ l1 b2 Hb1 E1) as (H1 & H2 & H3 & H4). split; [done|]. split; [constructor; [by apply anchor_of_fresh|done]|]. split.
    + constructor; [simpl; lia|]. eapply Forall_impl; [exact H3|]. intros a. simpl. lia.
    + intros [|a l'] E; [done|]. simpl in E. injection E as Ej E. rewrite rendered_from_cons, rendered_from_skip by lia. unfold costs. simpl.
      change (Zsum (map (Compactor.cost rc) ?k)) with (costs rc k). rewrite (H4 l' E).
      rewrite (cost_rendered_some _ _ _ a); [lia|]. simpl. by rewrite Ej, Nat.eqb_refl.
  - specialize (Hcost x). destruct (cm_checkedMessageCost m x) as [c ok1]. destruct (checkedTokenAdd base c) as [b1 ok2].
    destruct (negb ok1 || negb ok2); [done|]. destruct (Hcost eq_refl) as [-> Hb1]. intros E1.
    destruct (IH (S j) _ l b Hb1 E1) as (H1 & H2 & H3 & H4). split; [done|]. split; [done|]. split.
    + eapply Forall_impl; [exact H3|]. intros a. simpl. lia.
    + intros l' E. rewrite rendered_from_cons. unfold costs. simpl. change (Zsum (map (Compactor.cost rc) ?k)) with (costs rc k). rewrite (H4 l' E).
      rewrite cost_rendered_none; [lia|]. apply anchorFor_none. eapply Forall_impl; [exact (later_anchors _ _ _ E H3)|]. intros a. simpl. lia.
Qed.

(** Every anchor stands for a message with a context set, under its cap. *)
Definition placed (xs : list Message) (a : mixedAnchor) : Prop :=
  exists x, xs !! msgIdx a = Some x /\ cap a = OutputCap x /\ msg_Context x = Some (a_set a).

Lemma anchors_from_placed pre base results l b :
  anchors_from m (length pre) base results = Ok (l, b) -> Forall (placed (pre ++ results)) l.
Proof using.
  revert pre base l b. induction results as [|x results IH]; intros pre base l b; cbn [anchors_from]; [by intros [= <- _]|].
  assert (forall base l b, anchors_from m (S (length pre)) base results = Ok (l, b) -> Forall (placed (pre ++ x :: results)) l) as Hnext.
  { intros base' l' b' E. specialize (IH (pre ++ [x]) base' l' b'). rewrite length_app, Nat.add_1_r, <- app_assoc in IH. by apply IH. }
  destruct (msg_Context x) as [set|] eqn:Ex.
  - destruct (validateContextSet (Some set)); [done|]. destruct (cm_checkedMessageCost m _) as [c ok1]. destruct (checkedTokenAdd base c) as [b1 ok2].
    destruct (negb ok1 || negb ok2); [done|]. destruct (anchors_from m (S (length pre)) b1 results) as [[l1 b2]|] eqn:E; [|discriminate].
    intros [= <- _]. constructor; [|by eapply Hnext]. exists x. split; [by apply list_lookup_middle|done].
  - destruct (cm_checkedMessageCost m x) as [c ok1]. destruct (checkedTokenAdd base c) as [b1 ok2].
    destruct (negb ok1 || negb ok2); [done|]. apply Hnext.
Qed.

Lemma chainAnchors_placed s l b : chainAnchors m s = Ok (l, b) -> Forall (placed s) l.
Proof using.
  destruct s as [|call results]; cbn [chainAnchors]; [by intros [= <- _]|]. destruct (cm_checkedMessageCost m call) as [base ok].
  destruct (negb ok); [done|]. apply (anchors_from_placed [call]).
Qed.

Lemma chainAnchors_spec s l b :
  chainAnchors m s = Ok (l, b) ->
  count_like b /\ Forall fresh_anchor l /\
  forall l', map msgIdx l' = map msgIdx l -> costs rc (imap (rendered l') s) = b + Zsum (map (fun a => cm_estimate m (content a)) l').
Proof using Hest Hnil.
  destruct s as [|call results]; cbn [chainAnchors].
  { intros [= <- <-]. split; [unfold count_like; int_lia|]. split; [done|]. intros l' E. apply map_eq_nil in E as ->. done. }
  unfold cm_checkedMessageCost. rewrite (checkedMessageCost_spec _ (est_counts m Hest) (overhead_counts m Hest)). fold rc.
  pose proof (cost_nonneg rc (est_counts m Hest) (overhead_counts m Hest) call). unfold saturated.
  destruct (Z.leb_spec (cost rc call) MaxInt); [|done]. cbn [negb]. intros E.
  destruct (anchors_from_spec 1 (cost rc call) results l b ltac:(unfold count_like; lia) E) as (H1 & H2 & H3 & H4).
  split; [done|]. split; [done|]. intros l' E'. change (imap (rendered l') (call :: results)) with (rendered_from l' 0 (call :: results)).
  rewrite rendered_from_cons. unfold costs. simpl. change (Zsum (map (cost rc) ?k)) with (costs rc k). rewrite (H4 l' E').
  rewrite cost_rendered_none; [lia|]. apply anchorFor_none. eapply Forall_impl; [exact (later_anchors _ _ _ E' H3)|]. intros a. simpl. lia.
Qed.

(** A unit costs what its messages cost: a chain with any text in its anchors, another unit without the frames. *)
Definition unit_priced (u : mixedUnit) : Prop :=
  if is_chain u then
    forall l', map msgIdx l' = map msgIdx (anchors u) -> costs rc (imap (rendered l') (u_msgs u)) = baseTokens u + Zsum (map (fun a => cm_estimate m (content a)) l')
  else baseTokens u = costs (mkCompactor (cm_Estimate m) 0) (u_msgs u) /\ anchors u = [].

Definition built (u : mixedUnit) : Prop :=
  initial u /\ unit_priced u /\ (u_kind u = unitPinned \/ Forall (fun x => is_segment Pinned x = false) (u_msgs u)) /\ Forall (placed (u_msgs u)) (anchors u).

Lemma group_unpinned st g : g ∈ groups (mkCompactor (cm_Estimate m) 0) st -> g_kind g = groupPinned \/ Forall (fun x => is_segment Pinned x = false) (g_msgs g).
Proof using.
  intros (k & Hk & ->)%groups_In. unfold group_at. destruct (group_tokens _ _ _) as [t o]. simpl. unfold classifyGroup.
  destruct (existsb _ _) eqn:E; [by left|right]. apply Forall_forall. intros x Hx. destruct (is_segment Pinned x) eqn:Ep; [|done].
  assert (existsb (is_segment Pinned) (slice (st_Messages st) k (group_end (st_Messages st) k)) = true); [|congruence].
  apply existsb_exists. exists x. split; [by apply list_elem_of_In|done].
Qed.

Lemma plain_built kind msgs base sub :
  kind <> unitChain -> count_like base -> base = costs (mkCompactor (cm_Estimate m) 0) msgs ->
  (if must_fit (mkUnit kind msgs base [] sub false false) then sub = None else exists s, sub = Some s /\ pending s) ->
  (kind = unitPinned \/ Forall (fun x => is_segment Pinned x = false) msgs) -> built (mkUnit kind msgs base [] sub false false).
Proof using.
  intros Hk Hb Hp Hs Hx. split; [split; [done|]|split; [|split; [done|constructor]]].
  - split; [done|]. split; [done|]. split; [constructor|]. split; [done|]. exact Hs.
  - unfold unit_priced, is_chain. simpl. by rewrite bool_decide_false.
Qed.

Lemma mixedUnitFor_built st g first u :
  g ∈ groups (mkCompactor (cm_Estimate m) 0) st -> g_overflow g = false -> mixedUnitFor m g first = Ok u -> u_msgs u = g_msgs g /\ built u /\ keep u = false.
Proof using Hest Hnil.
  intros Hg Ho. destruct (group_priced m Hest st g Hg Ho) as [Ht Hc]. pose proof (group_unpinned st g Hg) as Hp.
  unfold mixedUnitFor. destruct (g_kind g) eqn:Ek.
  1: intros [= <-]; split; [done|]; split; [|done]; by apply plain_built; auto.
  1,3,4: destruct Hp as [Hp|Hp]; [discriminate Hp|]; intros [= <-]; split; [done|]; split; [|done]; apply plain_built; auto; (done || by eexists).
  destruct (validateChainBijection _); [done|]. destruct (chainAnchors m (g_msgs g)) as [[l b]|] eqn:E; [|done]. intros [= <-].
  destruct (chainAnchors_spec _ _ _ E) as (H1 & H2 & H3). split; [done|]. split; [|done]. split; [|split; [|split]].
  - split; [done|]. split; [done|]. split; [done|]. split; [done|]. split; [done|]. simpl. by eexists.
  - done.
  - destruct Hp; [congruence|by right].
  - by eapply chainAnchors_placed.
Qed.

Lemma mixedUnitFor_chain g first u : mixedUnitFor m g first = Ok u -> is_chain u = true \/ g_kind g <> groupCompletedTool /\ u_msgs u = g_msgs g.
Proof using.
  unfold mixedUnitFor. destruct (g_kind g).
  1,2,4,5: by intros [= <-]; right.
  destruct (validateChainBijection _); [done|]. destruct (chainAnchors _ _) as [[l b]|]; [|done]. intros [= <-]. by left.
Qed.

(** What holds of the groups that are no completed chains. *)
Lemma build_units_chain (P : list Message -> Prop) first seen gs units :
  (forall g, g ∈ gs -> g_kind g <> groupCompletedTool -> P (g_msgs g)) -> build_units m first seen gs = Ok units ->
  Forall (fun u => is_chain u = true \/ P (u_msgs u)) units.
Proof using.
  revert first seen units. induction gs as [|g gs IH]; intros first seen units Hin; cbn [build_units]; [by intros [= <-]|].
  destruct (g_overflow g); [done|]. destruct (mixedUnitFor _ _ _) as [u|] eqn:Eu; [|done].
  destruct (add_keys _ _) as [seen'|]; [|done]. destruct (build_units _ _ seen' gs) as [units'|] eqn:E; [|done]. intros [= <-].
  constructor; [|eapply IH; [intros g' Hg'; apply Hin; by right|exact E]].
  destruct (mixedUnitFor_chain g _ u Eu) as [?|[Hk ->]]; [by left|right]. apply Hin; [by left|done].
Qed.

Lemma build_units_built st first seen gs units :
  (forall g, g ∈ gs -> g ∈ groups (mkCompactor (cm_Estimate m) 0) st) -> build_units m first seen gs = Ok units ->
  flat_map u_msgs units = flat_map g_msgs gs /\ Forall built units /\ Forall (fun u => keep u = false) units.
Proof using Hest Hnil.
  revert first seen units. induction gs as [|g gs IH]; intros first seen units Hin; cbn [build_units]; [by intros [= <-]|].
  destruct (g_overflow g) eqn:Eo; [done|]. destruct (mixedUnitFor _ _ _) as [u|] eqn:Eu; [|done].
  destruct (add_keys _ _) as [seen'|]; [|done]. destruct (build_units _ _ seen' gs) as [units'|] eqn:E; [|done]. intros [= <-].
  destruct (IH _ _ _ ltac:(intros; apply Hin; by right) E) as (H1 & H2 & H3).
  destruct (mixedUnitFor_built st g _ u (Hin g ltac:(by left)) Eo Eu) as (H4 & H5 & H6).
  split; [simpl; by rewrite H4, H1|]. split; by constructor.
Qed.

Lemma buildMixedUnits_built st units :
  buildMixedUnits m st = Ok units -> flat_map u_msgs units = st_Messages st /\ Forall built units /\ Forall (fun u => keep u = false) units.
Proof using Hest Hnil. intros E. apply (build_units_built st) in E; [|done]. by rewrite groups_concat in E. Qed.

(** The marked units differ in their mark only. *)
Definition marked (u u' : mixedUnit) : Prop :=
  u' = u \/ (u_kind u = unitPlainSpan \/ u_kind u = unitChain) /\ u' = mkUnit (u_kind u) (u_msgs u) (baseTokens u) (anchors u) (subject u) (evicted u) true.

Lemma mark_newest_marked units : Forall2 marked units (mark_newest units).
Proof using.
  assert (forall l, Forall2 marked l l) as Hrefl by (intros l; induction l; constructor; [by left|done]).
  unfold mark_newest. rewrite <- (reverse_involutive units) at 1. apply Forall2_reverse.
  induction (reverse units) as [|u l IH]; [constructor|]. cbn [keep_newest]. destruct (u_kind u) eqn:E; constructor; try apply Hrefl; try done; try (by left).
  all: right; rewrite E; auto.
Qed.

Lemma marked_built u u' : marked u u' -> built u -> built u' /\ u_msgs u' = u_msgs u /\ is_chain u' = is_chain u.
Proof using. intros [->|[Hk ->]] Hb; [done|]. destruct Hb as ([_ Hi] & Hp & Hx). split; [|done]. split; [by split|done]. Qed.
End Built.

(** ** What is materialized costs what was allocated *)

(** The tool results outside completed chains, that the units price without their frame. *)
Definition stray (u : mixedUnit) : Z :=
  if is_chain u || materializeSkip u then 0 else len (List.filter (is_role "tool") (u_msgs u)).

Lemma bare_fields u u' : bare u' = bare u ->
  u_kind u' = u_kind u /\ u_msgs u' = u_msgs u /\ baseTokens u' = baseTokens u /\ map msgIdx (anchors u') = map msgIdx (anchors u) /\ keep u' = keep u.
Proof.
  intros E. assert (map msgIdx (map bare_anchor (anchors u')) = map msgIdx (map bare_anchor (anchors u))) as Ha by (injection E; congruence).
  rewrite !map_map in Ha. simpl in Ha. injection E. intros. done.
Qed.

Section Exact.
Context (m : ContextManager) (Hest : forall s, count_like (cm_estimate m s)) (Hnil : cm_estimate m "" = 0).
Let rc := costCompactor m.

Lemma costs_rendered_nil j xs : costs rc (imap (fun i => rendered [] (j + i)) xs) = costs rc xs.
Proof using.
  revert j. induction xs as [|x xs IH]; intros j; [done|]. rewrite imap_cons. unfold costs in *. simpl. rewrite <- (IH (S j)).
  assert (imap ((fun i => rendered [] (j + i)) ∘ S) xs = imap (fun i => rendered [] (S j + i)) xs) as ->; [|done].
  apply imap_ext. intros i y _. simpl. by rewrite Nat.add_succ_r.
Qed.

Lemma costs_plain xs : costs rc (imap (rendered []) xs) = costs (mkCompactor (cm_Estimate m) 0) xs + toolResultOverhead rc * len (List.filter (is_role "tool") xs).
Proof using. etrans; [apply (costs_rendered_nil 0)|apply costs_frame]. Qed.

Lemma unit_cost u u' :
  built m u -> bare u' = bare u -> unit_done (cm_estimate m) u' ->
  costs rc (unit_messages u') = materialized (cm_estimate m) u' + toolResultOverhead rc * stray u'.
Proof using Hest Hnil.
  intros (_ & Hp & _ & _) E Hd. destruct (bare_fields u u' E) as (E1 & E2 & E3 & E4 & _).
  pose proof costs_plain as Hplain. unfold rc in *. unfold unit_messages, materialized, stray. unfold unit_priced in Hp. rewrite <- E2, <- E3, <- E4 in Hp.
  replace (is_chain u) with (is_chain u') in Hp by (unfold is_chain; by rewrite E1).
  destruct Hd as [_ Hd]. destruct (must_fit u') eqn:Em.
  - assert (is_chain u' = false /\ materializeSkip u' = false) as [Hc Hs].
    { unfold must_fit, is_chain, materializeSkip in *. by destruct (u_kind u'). }
    rewrite Hc, Hs in *. simpl. destruct Hd as [_ ->]. destruct Hp as [-> _]. by rewrite Hplain.
  - destruct Hd as (s & Hsub & Hd). destruct (is_chain u') eqn:Ec.
    + assert (materializeSkip u' = evicted u') as -> by (unfold is_chain, materializeSkip in *; by destruct (u_kind u')).
      unfold chain_done in Hd. simpl. destruct (evicted u'); [unfold costs; simpl; lia|]. destruct Hd as [_ Hx]. rewrite (Hp (anchors u') eq_refl).
      rewrite Z.mul_0_r, Z.add_0_r. f_equal. f_equal. clear -Hx. induction Hx as [|a l [Ha _] _ IH]; [done|]. simpl. by rewrite IH, (core_content _ _ Ha).
    + assert (materializeSkip u' = is_omitted u') as -> by (unfold is_chain, must_fit, materializeSkip in *; by destruct (u_kind u')).
      simpl. destruct (is_omitted u'); [unfold costs; simpl; lia|]. destruct Hd as [_ ->]. destruct Hp as [-> _]. by rewrite Hplain.
Qed.

Lemma units_cost units units' :
  Forall (built m) units -> map bare units' = map bare units -> Forall (unit_done (cm_estimate m)) units' ->
  costs rc (flat_map unit_messages units') = Zsum (map (materialized (cm_estimate m)) units') + toolResultOverhead rc * Zsum (map stray units').
Proof using Hest Hnil.
  intros Hb. revert units'. induction Hb as [|u units Hu Hus IH]; intros [|u' units'] E Hd; try done; [unfold costs; simpl; lia|].
  apply Forall_cons_1 in Hd as [Hd1 Hd2]. change (bare u' :: map bare units' = bare u :: map bare units) in E.
  assert (bare u' = bare u /\ map bare units' = map bare units) as [E1 E2] by (split; congruence).
  cbn [flat_map map Zsum]. rewrite costs_app, (IH units' E2 Hd2), (unit_cost u u' Hu E1 Hd1). lia.
Qed.
End Exact.

(** ** The pipeline *)

Section Pipeline.
Context (m : ContextManager) (Hest : forall s, count_like (cm_estimate m s)) (Hnil : cm_estimate m "" = 0).
Context (Hadv : count_like (advisoryTokens m)).
Let rc := costCompactor m.

(** Units cut from a transcript. *)
Definition cut (st : State) (source : list mixedUnit) : Prop :=
  Forall (built m) source /\ flat_map u_msgs source = st_Messages st /\
  forall P : list Message -> Prop,
    (forall g, g ∈ groups (mkCompactor (cm_Estimate m) 0) st -> g_kind g <> groupCompletedTool -> P (g_msgs g)) ->
    Forall (fun u => is_chain u = true \/ P (u_msgs u)) source.

(** An allocation that stands. *)
Definition stands (n sys : Z) (st : State) (units : list mixedUnit) (alloc : mixedAllocState) : Prop :=
  exists source, cut st source /\ map bare units = map bare source /\ Forall (unit_done (cm_estimate m)) units /\
    used alloc = sys + Zsum (map (materialized (cm_estimate m)) units) /\ used alloc <= n.

Lemma built_cut st units : buildMixedUnits m st = Ok units -> cut st units.
Proof using Hest Hnil.
  intros E. destruct (buildMixedUnits_built m Hest Hnil st units E) as (H1 & H2 & _). split; [done|]. split; [done|].
  intros P HP. by eapply build_units_chain.
Qed.

Lemma marked_cut st units : cut st units -> cut st (mark_newest units).
Proof using.
  intros (H1 & H2 & H3). pose proof (mark_newest_marked units) as Hm.
  assert (Forall (built m) (mark_newest units) /\ map (fun u => (u_msgs u, is_chain u)) (mark_newest units) = map (fun u => (u_msgs u, is_chain u)) units) as [H4 H5].
  { clear -H1 Hm. revert H1. induction Hm as [|u u' l l' Hu _ IH]; intros Hb; [done|].
    apply Forall_cons_1 in Hb as [Hb1 Hb2]. destruct (IH Hb2) as [IH1 IH2]. destruct (marked_built m u u' Hu Hb1) as (A & B & C).
    split; [by constructor|]. simpl. by rewrite B, C, IH2. }
  assert (forall l, flat_map u_msgs l = flat_map fst (map (fun u => (u_msgs u, is_chain u)) l)) as Hf by (intros l; induction l as [|u l IH]; [done|]; simpl; by rewrite IH).
  split; [done|]. split; [by rewrite Hf, H5, <- Hf|]. intros P HP. specialize (H3 P HP).
  assert (Forall (fun r : list Message * bool => r.2 = true \/ P r.1) (map (fun u => (u_msgs u, is_chain u)) (mark_newest units))) as Hx; [|by rewrite Forall_map in Hx].
  rewrite H5. by apply Forall_map.
Qed.

Lemma allocate_stands over n sys st source :
  in_int n -> count_like sys -> cut st source ->
  exists alloc units err, allocateMixed (cm_estimate m) (alloc_fuel source) over source n sys = Some (alloc, units, err) /\
    (err = None -> stands n sys st units alloc).
Proof using Hest.
  intros Hn Hs Hc. destruct (allocate_spec (cm_estimate m) Hest n Hn (alloc_fuel source) over source sys Hs) as (alloc & l & err & E & B & H).
  { destruct Hc as [Hb _]. eapply Forall_impl; [exact Hb|]. by intros u [? _]. }
  { unfold alloc_fuel. lia. }
  exists alloc, l, err. split; [done|]. intros Herr. destruct (H Herr) as (H1 & H2 & H3). exists source. repeat (split; [done|]). split; [|done].
  rewrite H1. f_equal. apply Zsum_map_ext. intros u Hu. eapply Forall_forall in H3; [|exact Hu]. by apply held_materialized.
Qed.

Lemma low_water_stands over st n sys units alloc :
  in_int n -> count_like sys -> (lowWaterMark n (CompactionLowWater m)).1 <= n -> in_int (lowWaterMark n (CompactionLowWater m)).1 ->
  stands n sys st units alloc ->
  exists units' alloc', low_water m over st n sys units alloc = Some (units', alloc') /\ stands n sys st units' alloc'.
Proof using Hest Hnil.
  intros Hn Hs Hle Hin Hst. unfold low_water. destruct (lowWaterMark n _) as [mark ok]. cbn [fst] in *.
  destruct (negb _); [by exists units, alloc|]. destruct (buildMixedUnits m st) as [low|] eqn:E; [|by exists units, alloc].
  pose proof (marked_cut st low (built_cut st low E)) as H3.
  destruct (allocate_stands over mark sys st (mark_newest low) Hin Hs H3) as (st1 & l1 & err & -> & H5). cbn [mbind option_bind].
  destruct err; [by exists units, alloc|]. destruct (preservesNewestContent _ _); [|by exists units, alloc].
  exists l1, st1. split; [done|]. destruct (H5 eq_refl) as (src & A & C & D & F & G). exists src. repeat (split; [done|]). lia.
Qed.

(** The final count is the ledger and the frames that were not priced. *)
Lemma final_priced n sys st units alloc system summary :
  stands n sys st units alloc ->
  sys = cm_estimate m system + advisoryTokens m + costs rc (match summary with Some x => [x] | None => [] end) ->
  priced m (fun _ => true) (materializeMixed system summary units) 0 = used alloc + toolResultOverhead rc * Zsum (map stray units).
Proof using Hest Hnil.
  intros (src & (Hb & _) & HB & Hd & Hu & _) Hsys. unfold priced, materializeMixed. cbn [st_System st_Messages]. rewrite filter_true, costs_app, Hu, Hsys. fold rc. unfold rc. rewrite (units_cost m Hest Hnil src units Hb HB Hd).
  replace (costs (costCompactor m) (match summary with Some x => [detachContext x] | None => [] end))
    with (costs (costCompactor m) (match summary with Some x => [x] | None => [] end)) by (by destruct summary).
  lia.
Qed.

Lemma stray_none n sys st units alloc :
  stands n sys st units alloc ->
  (forall g, g ∈ groups (mkCompactor (cm_Estimate m) 0) st -> g_kind g <> groupCompletedTool -> Forall (fun x => is_role "tool" x = false) (g_msgs g)) ->
  Zsum (map stray units) = 0.
Proof using.
  intros (src & (_ & _ & Hc) & HB & _) Hg. specialize (Hc _ Hg). clear Hg. revert units HB.
  induction Hc as [|u src Hu _ IH]; intros [|u' units] HB; try done. change (bare u' :: map bare units = bare u :: map bare src) in HB.
  assert (bare u' = bare u /\ map bare units = map bare src) as [E1 E2] by (split; congruence).
  cbn [map Zsum]. rewrite (IH units E2). destruct (bare_fields u u' E1) as (E3 & E4 & _). unfold stray.
  replace (is_chain u') with (is_chain u) by (unfold is_chain; by rewrite E3). rewrite E4.
  destruct Hu as [-> | Hu]; [done|]. destruct (_ || _); [done|].
  assert (List.filter (is_role "tool") (u_msgs u) = []) as ->; [|done]. clear -Hu. induction Hu as [|x l Hx _ IH]; [done|]. simpl. by rewrite Hx.
Qed.

Lemma fixed_exact (st stMat : State) (had : bool) ts pinned :
  count_like ts -> checkedPinnedTokens m stMat ts = (pinned, true) ->
  (had = true -> st_Messages stMat <> []) ->
  let '(summary, sys, ok) := fixedTokens m stMat had in
  ok = true -> sys = cm_estimate m (st_System stMat) + advisoryTokens m + costs rc (match summary with Some x => [x] | None => [] end) /\ count_like sys.
Proof using Hest Hadv.
  intros Hts Hp Hne. unfold checkedPinnedTokens in Hp. rewrite (checkedTokens_spec m Hest Hadv) in Hp by done. apply saturated_le in Hp as [Hp Hle].
  rewrite Hp in Hle. unfold priced in Hp. pose proof (costs_nonneg rc (est_counts m Hest) (overhead_counts m Hest) (List.filter (is_segment Pinned) (st_Messages stMat))) as Hc.
  pose proof (Hest (st_System stMat)) as He. fold rc in Hp. unfold count_like in *.
  assert (saturatedTokenAdd (cm_estimate m (st_System stMat)) (advisoryTokens m) = cm_estimate m (st_System stMat) + advisoryTokens m) as Hs
    by (rewrite saturatedTokenAdd_nonneg by int_lia; lia).
  unfold fixedTokens. rewrite Hs. destruct (st_Messages stMat) as [|x xs].
  { intros _. change (costs rc []) with 0. unfold count_like. lia. }
  destruct had; [|intros _; change (costs rc []) with 0; unfold count_like; lia]. unfold cm_checkedMessageCost. fold rc.
  pose proof (checked_cost m Hest x (cm_estimate m (st_System stMat) + advisoryTokens m) ltac:(unfold count_like; lia)) as H. fold rc in H.
  destruct (checkedMessageCost rc x) as [c ok1]. cbn [fst snd] in H. destruct (checkedTokenAdd _ c) as [s ok2]. cbn [fst snd] in H.
  intros [-> ->]%andb_true_iff. destruct (H eq_refl eq_refl) as [-> H2]. unfold costs. simpl. split; [lia|done].
Qed.
End Pipeline.

(** What a step that is assembled reports. *)
Definition accounted (g : ContextManager) (ts input : Z) (out : State) (p : Pressure) (tr : ContextAssemblyTrace) : Prop :=
  checkedTotalTokens g out ts = (InputTokens p, true) /\ InputTokens p <= input /\ MaxTokens tr = input - ts /\
  EstimatedTokensUsed tr = InputTokens p - ts /\ EstimatedTokensUsed tr + EstimatedTokensFree tr = MaxTokens tr.

Lemma assembled_accounted (g : ContextManager) thresholds input ts n sys st system summary units alloc :
  (forall s, count_like (cm_estimate g s)) -> cm_estimate g "" = 0 -> count_like (advisoryTokens g) -> count_like ts -> in_int input -> n = input - ts -> in_int n ->
  stands g n sys st units alloc ->
  sys = cm_estimate g system + advisoryTokens g + costs (costCompactor g) (match summary with Some x => [x] | None => [] end) ->
  toolResultOverhead (costCompactor g) * Zsum (map stray units) = 0 ->
  let '(out, p, tr, err) := assembled g thresholds input ts n system summary units alloc in
  out = materializeMixed system summary units /\ err = None /\ accounted g ts input out p tr.
Proof.
  intros He Hnil Hadv Hts Hin Hn Hnin Hst Hsys Hstray. pose proof (final_priced g He Hnil n sys st units alloc system summary Hst Hsys) as Hf.
  rewrite Hstray, Z.add_0_r in Hf. unfold assembled. set (out := materializeMixed system summary units) in *.
  pose proof Hst as (src & _ & _ & _ & _ & Hle).
  pose proof (costs_nonneg _ (est_counts g He) (overhead_counts g He) (List.filter (fun _ => true) (st_Messages out))) as Hc.
  pose proof (He (st_System out)) as Hs. assert (0 <= used alloc) as H0 by (unfold priced, count_like in *; lia).
  assert (used alloc <= MaxInt - ts) as H1 by int_lia.
  unfold checkedTotalTokens. rewrite (checkedTokens_spec g He Hadv), Hf by (unfold count_like; int_lia).
  unfold saturated at 1. rewrite (proj2 (Z.leb_le (used alloc) MaxInt)) by (unfold count_like in Hts; lia).
  rewrite checkedTokenAdd_counts by (done || (unfold count_like in *; lia)). unfold saturated at 1.
  rewrite (proj2 (Z.leb_le (used alloc + ts) MaxInt)) by lia. cbn [negb orb].
  rewrite (proj2 (Z.ltb_ge input (used alloc + ts))) by lia. destruct (Classify _ _ _ _) as [level mitigation].
  split; [done|]. split; [done|]. unfold accounted. cbn [InputTokens]. unfold fillMixedTrace. cbn [MaxTokens EstimatedTokensUsed EstimatedTokensFree].
  split; [|split; [lia|split; [lia|split; [lia|]]]].
  - unfold checkedTotalTokens. rewrite (checkedTokens_spec g He Hadv) by done.
    replace (priced g (fun _ => true) out ts) with (used alloc + ts) by (unfold priced in *; lia).
    unfold saturated. by rewrite (proj2 (Z.leb_le (used alloc + ts) MaxInt)) by lia.
  - rewrite checkedTokenSub_spec by int_lia. rewrite bool_decide_true by int_lia. simpl. lia.
Qed.

Section Assembly.
Context (TrimSpace Quote : string -> string) (m : ContextManager) (over : nat -> nat -> bool) (st : State) (ts : Z) (b : TokenBudget).
Let g := guarded m.
Let stMat := materializeDurableSummary TrimSpace Quote st.

(** What is relied on: the caller's estimator and the counts are machine integers, and the low-water mark is not above the budget it is taken of. *)
Record assembly_input : Prop := {
  in_est : forall f, cm_Estimate m = Some f -> forall s, f s <= MaxInt;
  in_advisory : count_like (advisoryTokens m);
  in_schema : count_like ts;
  in_budget : in_int (tb_Input b);
  in_mark : in_int (tb_Input b - ts) -> (lowWaterMark (tb_Input b - ts) (CompactionLowWater m)).1 <= tb_Input b - ts /\ in_int (lowWaterMark (tb_Input b - ts) (CompactionLowWater m)).1
}.

Context (H : assembly_input).

Lemma guarded_est s : count_like (cm_estimate g s).
Proof using H. apply guarded_counts, H. Qed.

(** The durable summary, when there is one. *)
Definition summary_of : option Message :=
  if string_eqb (TrimSpace (DurableSummary st)) "" then None else head (st_Messages stMat).

Lemma assembleMixed_cases :
  exists out p tr err, assembleMixed TrimSpace Quote m over st ts b = Some (out, p, tr, err) /\
    ((exists e, err = Some e /\ out = stMat /\ tr = noTrace) \/
     exists n sys units alloc, stands g n sys st units alloc /\ n = tb_Input b - ts /\ in_int n /\
       sys = cm_estimate g (st_System stMat) + advisoryTokens g + costs (costCompactor g) (match summary_of with Some x => [x] | None => [] end) /\
       (out, p, tr, err) = assembled g (normalize (Thresholds b)) (tb_Input b) ts n (st_System stMat) summary_of units alloc).
Proof using H.
  assert (forall used tokens cause, exists out p tr err,
    Some (stMat, halt used tokens (tb_Input b) cause, noTrace, Some Exhausted) = Some (out, p, tr, err) /\
    ((exists e, err = Some e /\ out = stMat /\ tr = noTrace) \/
     exists n sys units alloc, stands g n sys st units alloc /\ n = tb_Input b - ts /\ in_int n /\
       sys = cm_estimate g (st_System stMat) + advisoryTokens g + costs (costCompactor g) (match summary_of with Some x => [x] | None => [] end) /\
       (out, p, tr, err) = assembled g (normalize (Thresholds b)) (tb_Input b) ts n (st_System stMat) summary_of units alloc)) as Hfail.
  { intros. eexists _, _, _, _. split; [done|]. left. by eexists. }
  pose proof guarded_est as He. assert (cm_estimate g "" = 0) as Hnil by done. pose proof (in_advisory H : count_like (advisoryTokens g)) as Hadv.
  unfold assembleMixed. fold g stMat. destruct (checkedPinnedTokens g stMat ts) as [pinned pok] eqn:Ep.
  destruct pok; cbn [negb orb]; [|apply Hfail]. destruct (tb_Input b <? pinned); [apply Hfail|].
  destruct (buildMixedUnits g st) as [source|e] eqn:Eb; cycle 1.
  { destruct e; try apply Hfail; eexists _, _, _, _; (split; [done|]); left; by eexists. }
  set (had := negb (string_eqb (TrimSpace (DurableSummary st)) "")).
  pose proof (fixed_exact g He Hadv st stMat had ts pinned (in_schema H) Ep) as Hfix.
  assert (forall s y ok, fixedTokens g stMat had = (s, y, ok) -> s = summary_of) as Hsum.
  { unfold fixedTokens, summary_of, had. clear. intros s y ok. destruct (st_Messages stMat) as [|x l]; [by destruct (string_eqb _ _); intros [= <- _ _]|].
    destruct (string_eqb _ _); simpl; [by intros [= <- _ _]|]. destruct (cm_checkedMessageCost g x) as [c o]. destruct (checkedTokenAdd _ c). by intros [= <- _ _]. }
  destruct (fixedTokens g stMat had) as [[summary sys] sok] eqn:Ef. rewrite (Hsum _ _ _ eq_refl) in *.
  destruct sok; cbn [negb]; [|apply Hfail]. destruct Hfix as [Hsys Hsc]; [|done|].
  { unfold had, stMat, materializeDurableSummary. by destruct (string_eqb _ _). }
  destruct (checkedTokenSub (tb_Input b) ts) as [n nok] eqn:En. destruct nok; cbn [negb]; [|apply Hfail].
  apply checkedTokenSub_ok in En as [-> Hn]; [|apply H|destruct (in_schema H); int_lia].
  destruct (allocate_stands g He (over 0%nat) (tb_Input b - ts) sys st source Hn Hsc (built_cut g He Hnil st source Eb)) as (alloc & units & err & Ea & Hst).
  rewrite Ea. cbn [mbind option_bind]. destruct err; [apply Hfail|]. specialize (Hst eq_refl).
  destruct (in_mark H Hn) as [Hm1 Hm2].
  destruct (low_water_stands g He Hnil (over 1%nat) st (tb_Input b - ts) sys units alloc Hn Hsc Hm1 Hm2 Hst) as (units' & alloc' & -> & Hst').
  cbn [mbind option_bind]. destruct (assembled _ _ _ _ _ _ _ _ _) as [[[out p] tr] err] eqn:Er. exists out, p, tr, err. split; [done|]. right.
  exists (tb_Input b - ts), sys, units', alloc'. split; [done|]. split; [done|]. split; [done|]. by rewrite Er.
Qed.
End Assembly.

(** ** The transcript that comes out *)

(** How a kept message appears: without its context set, and, when it carried one in a completed chain, with a text under its cap. *)
Definition renders (x y : Message) : Prop :=
  y = detachContext x \/
  exists c sources, msg_Context x <> None /\ slen c <= OutputCap x /\ y = detachContext (with_attrib sources (with_content c x)).

Definition kept_of (u : mixedUnit) : list Message := if materializeSkip u then [] else u_msgs u.

Section Transcript.
Context (m : ContextManager).

Lemma anchorFor_Some l i a : anchorFor l i = Some a -> a ∈ l /\ msgIdx a = i.
Proof using. intros E. apply find_some in E as [H1 H2]. split; [by apply list_elem_of_In|]. by apply Nat.eqb_eq. Qed.

Lemma placed_bare xs l l' : map bare_anchor l' = map bare_anchor l -> Forall (placed xs) l -> Forall (placed xs) l'.
Proof using.
  revert l'. induction l as [|a l IH]; intros [|a' l'] E; try done. change (bare_anchor a' :: map bare_anchor l' = bare_anchor a :: map bare_anchor l) in E.
  assert (bare_anchor a' = bare_anchor a /\ map bare_anchor l' = map bare_anchor l) as [E1 E2] by (split; congruence).
  intros [Ha Hl]%Forall_cons_1. constructor; [|by apply IH]. injection E1 as F1 F2 F3 F4 F5 F6. unfold placed in *. by rewrite F1, F3, F4.
Qed.

Lemma unit_renders u u' :
  built m u -> bare u' = bare u -> unit_done (cm_estimate m) u' -> Forall2 renders (kept_of u') (unit_messages u').
Proof using.
  intros (_ & _ & _ & Hp) E Hd. destruct (bare_fields u u' E) as (_ & E2 & _). rewrite <- E2 in Hp.
  assert (map bare_anchor (anchors u') = map bare_anchor (anchors u)) as E3 by (by injection E).
  apply (placed_bare _ _ _ E3) in Hp. unfold kept_of, unit_messages. destruct (materializeSkip u') eqn:Es; [constructor|].
  assert (Forall (fun a => slen (content a) <= cap a) (anchors u')) as Hcap.
  { destruct Hd as [_ Hd]. destruct (must_fit u'); [by destruct Hd as [_ ->]|]. destruct Hd as (s & _ & Hd).
    destruct (is_chain u') eqn:Ec; [|by destruct Hd as [_ ->]].
    assert (evicted u' = false) as Hev by (unfold is_chain, materializeSkip in *; by destruct (u_kind u')).
    unfold chain_done in Hd. rewrite Hev in Hd. destruct Hd as [_ Hx]. eapply Forall_impl; [exact Hx|]. intros a [Hc _]. apply (core_cap _ _ Hc). }
  apply Forall2_same_length_lookup. split; [by rewrite length_imap|]. intros i x y Hx Hy. rewrite list_lookup_imap, Hx in Hy. simpl in Hy. injection Hy as <-.
  unfold rendered. destruct (anchorFor (anchors u') i) as [a|] eqn:Ea; [right|by left]. apply anchorFor_Some in Ea as [Ha <-].
  eapply Forall_forall in Hp as (x' & Hx' & Hc & Hset); [|exact Ha]. eapply Forall_forall in Hcap; [|exact Ha]. simplify_eq.
  exists (content a), (anchorAttrib a). split; [by rewrite Hset|]. split; [|done]. by rewrite <- Hc.
Qed.

Lemma units_render n sys st units alloc :
  stands m n sys st units alloc ->
  let kept := flat_map kept_of units in
  kept `sublist_of` st_Messages st /\ Forall2 renders kept (flat_map unit_messages units) /\
  List.filter (is_segment Pinned) kept = List.filter (is_segment Pinned) (st_Messages st).
Proof using.
  intros (src & (Hb & <- & _) & HB & Hd & _). revert units HB Hd. induction Hb as [|u src Hu _ IH]; intros [|u' units] HB Hd; try done.
  apply Forall_cons_1 in Hd as [Hd1 Hd2]. change (bare u' :: map bare units = bare u :: map bare src) in HB.
  assert (bare u' = bare u /\ map bare units = map bare src) as [E1 E2] by (split; congruence).
  destruct (IH units E2 Hd2) as (H1 & H2 & H3). pose proof (unit_renders u u' Hu E1 Hd1) as H4. destruct (bare_fields u u' E1) as (E3 & E4 & _).
  cbn [flat_map]. split; [|split].
  - apply sublist_app; [|done]. unfold kept_of. rewrite E4. destruct (materializeSkip u'); [apply sublist_nil_l|done].
  - by apply Forall2_app.
  - rewrite !List.filter_app, H3. f_equal. unfold kept_of. rewrite E4. destruct (materializeSkip u') eqn:Es; [|done].
    destruct Hu as (_ & _ & [Hk|Hk] & _); [unfold materializeSkip in Es; by rewrite E3, Hk in Es|].
    symmetry. clear -Hk. induction Hk as [|x l Hx _ IH]; [done|]. simpl. by rewrite Hx.
Qed.
End Transcript.

(** ** Properties *)

(** C24: Mixed assembly always answers. Unless tool results outside completed chains are framed, an answer that fails is the transcript untouched with no trace: once an allocation stands, the recount of the materialized copy is the ledger, within the input budget, and the trace's used and free tokens add up to the budget net of tool schemas. *)
Theorem mixed_assembly_exact TrimSpace Quote m over st ts b :
  assembly_input m ts b ->
  frameToolResults m = false \/
    (forall g, g ∈ groups (mkCompactor (cm_Estimate (guarded m)) 0) st -> g_kind g <> groupCompletedTool -> Forall (fun x => is_role "tool" x = false) (g_msgs g)) ->
  exists out p tr err, assembleMixed TrimSpace Quote m over st ts b = Some (out, p, tr, err) /\
    match err with
    | Some _ => out = materializeDurableSummary TrimSpace Quote st /\ tr = noTrace
    | None => accounted (guarded m) ts (tb_Input b) out p tr
    end.
Proof.
  intros H Hframe. destruct (assembleMixed_cases TrimSpace Quote m over st ts b H) as (out & p & tr & err & E & Hc).
  exists out, p, tr, err. split; [done|]. destruct Hc as [(e & -> & H1 & H2)|(n & sys & units & alloc & Hst & Hn & Hin & Hsys & Hr)]; [done|].
  assert (toolResultOverhead (costCompactor (guarded m)) * Zsum (map stray units) = 0) as Hz.
  { destruct Hframe as [Hf|Hg]; [unfold costCompactor; simpl; by rewrite Hf|]. rewrite (stray_none (guarded m) n sys st units alloc Hst Hg). lia. }
  pose proof (assembled_accounted (guarded m) (normalize (Thresholds b)) (tb_Input b) ts n sys st _ _ units alloc (guarded_est m ts b H) eq_refl (in_advisory _ _ _ H) (in_schema _ _ _ H) (in_budget _ _ _ H) Hn Hin Hst Hsys Hz) as Ha.
  rewrite <- Hr in Ha. by destruct Ha as (_ & -> & Ha).
Qed.

(** A mixed assembly that succeeds is a faithful cut of the transcript: after the durable summary come messages of the transcript in order, every pinned one among them, each unchanged but for its runtime context set, or, for a structured result of a completed chain, with a text no longer than its output cap and the attribution of what was chosen; no context set comes out. *)
Theorem mixed_assembly_transcript TrimSpace Quote m over st ts b out p tr :
  assembly_input m ts b -> assembleMixed TrimSpace Quote m over st ts b = Some (out, p, tr, None) ->
  exists kept ys, kept `sublist_of` st_Messages st /\ List.filter (is_segment Pinned) kept = List.filter (is_segment Pinned) (st_Messages st) /\
    Forall2 renders kept ys /\
    st_Messages out = match summary_of TrimSpace Quote st with Some x => [detachContext x] | None => [] end ++ ys /\
    Forall (fun y => msg_Context y = None) (st_Messages out).
Proof.
  intros H E. destruct (assembleMixed_cases TrimSpace Quote m over st ts b H) as (out' & p' & tr' & err & E' & Hc).
  rewrite E in E'. injection E' as <- <- <- <-. destruct Hc as [(e & ? & _)|(n & sys & units & alloc & Hst & _ & _ & _ & Hr)]; [done|].
  assert (out = materializeMixed (st_System (materializeDurableSummary TrimSpace Quote st)) (summary_of TrimSpace Quote st) units) as ->.
  { unfold assembled in Hr. destruct (checkedTotalTokens _ _ _) as [u1 o1]. destruct (checkedTokenAdd u1 ts) as [a1 o2]. destruct (Classify _ _ _ _) as [l1 m1].
    by destruct (_ || _) in Hr; injection Hr as ->. }
  destruct (units_render (guarded m) n sys st units alloc Hst) as (H1 & H2 & H3). exists (flat_map kept_of units), (flat_map unit_messages units).
  split; [done|]. split; [done|]. split; [done|]. split; [done|]. unfold materializeMixed. cbn [st_Messages]. apply Forall_app_2.
  - destruct (summary_of _ _ _); repeat constructor.
  - clear -H2. induction H2 as [|x y l k Hxy _ IH]; constructor; [|done]. by destruct Hxy as [->|(c & at_ & _ & _ & ->)].
Qed.

Definition demo_text (role content : string) (seg : Segment) : Message := mkMessage (mkChatMessage role content [] "" "") seg None None 0 0.
Definition demo_ask (ids : list string) : Message :=
  mkMessage (mkChatMessage "assistant" "" (map (fun i => mkToolCall i "function" "read" "{}") ids) "" "") Elastic None None 0 0.
Definition demo_answer (id content : string) (set : option ContextSet) : Message :=
  mkMessage (mkChatMessage "tool" content [] "read" id) Elastic None set 80 0.
Definition demo_set : ContextSet :=
  mkSet [mkContextGroup (mkRef DomainRAG "a") 1 [mkAlternative [mkRep DepthL1 RepresentationCompact] "short" None; mkAlternative [mkRep DepthL2 RepresentationVerbatim] "the whole of a longer text" None]] 0.
Definition demo_state : State :=
  mkState "" "" [demo_text "user" "an old question" Elastic; demo_text "assistant" "an old answer" Elastic; demo_text "user" "the goal" Pinned;
    demo_ask ["c1"]; demo_answer "c1" "the text for other modes" (Some demo_set)] [].
Definition demo_mixed (frame : bool) : ContextManager := mkManager None None frame 0 true fzero.
Definition demo_tokens (input : Z) : TokenBudget := mkTokenBudget input (mkThresholds fzero fzero fzero) 0 fzero.

Lemma demo_input frame input : in_int input -> assembly_input (demo_mixed frame) 0 (demo_tokens input).
Proof.
  intros Hi. split; [done|unfold count_like; simpl; int_lia|unfold count_like; int_lia|done|].
  simpl. rewrite Z.sub_0_r. intros _. change (lowWaterMark input fzero) with (input, false). simpl. split; [lia|done].
Qed.

Lemma mixed_assembly_exact_witness :
  exists out p tr err, assembleMixed (fun s => s) (fun s => s) (demo_mixed false) (fun _ _ => false) demo_state 0 (demo_tokens 100) = Some (out, p, tr, err) /\
    match err with
    | Some _ => out = materializeDurableSummary (fun s => s) (fun s => s) demo_state /\ tr = noTrace
    | None => accounted (guarded (demo_mixed false)) 0 100 out p tr
    end.
Proof.
  apply (mixed_assembly_exact (fun s => s) (fun s => s) (demo_mixed false) (fun _ _ => false) demo_state 0 (demo_tokens 100)); [apply demo_input; int_lia|by left].
Defined.

Definition answer_of (r : option (State * Pressure * ContextAssemblyTrace * option assembleError)) :=
  (fun r => (map (fun x => Content (msg x)) (st_Messages r.1.1.1), InputTokens r.1.1.2, r.2)) <$> r.

Example demo_assembled : answer_of (assembleMixed (fun s => s) (fun s => s) (demo_mixed false) (fun _ _ => false) demo_state 0 (demo_tokens 100))
  = Some (["an old question"; "an old answer"; "the goal"; ""; "the whole of a longer text"], 24, None).
Proof. by vm_compute. Qed.

Lemma mixed_assembly_transcript_witness :
  match assembleMixed (fun s => s) (fun s => s) (demo_mixed false) (fun _ _ => false) demo_state 0 (demo_tokens 100) with
  | Some (out, p, tr, None) =>
      exists kept ys, kept `sublist_of` st_Messages demo_state /\ List.filter (is_segment Pinned) kept = List.filter (is_segment Pinned) (st_Messages demo_state) /\
        Forall2 renders kept ys /\
        st_Messages out = match summary_of (fun s => s) (fun s => s) demo_state with Some x => [detachContext x] | None => [] end ++ ys /\
        Forall (fun y => msg_Context y = None) (st_Messages out)
  | _ => False
  end.
Proof.
  destruct (assembleMixed (fun s => s) (fun s => s) (demo_mixed false) (fun _ _ => false) demo_state 0 (demo_tokens 100)) as [[[[out p] tr] err]|] eqn:E;
    [|vm_compute in E; discriminate].
  assert (err = None) as -> by (vm_compute in E; congruence).
  apply (mixed_assembly_transcript (fun s => s) (fun s => s) (demo_mixed false) (fun _ _ => false) demo_state 0 (demo_tokens 100) out p tr);
    [apply demo_input; int_lia|exact E].
Defined.

(** The frame of a tool result of an unfinished chain is not priced by the units:
    an old exchange is kept that does not fit, and the step is given up, though
    without framing the same step fits, and without the exchange it would. *)
Definition demo_pending : State :=
  mkState "" "" [demo_text "user" "an old question" Elastic; demo_text "assistant" "an old answer" Elastic; demo_text "user" "the goal" Pinned;
    demo_ask ["c1"]; demo_answer "c1" "the text for other modes" (Some demo_set); demo_ask ["c2"; "c3"]; demo_answer "c2" "half of it" None] [].

Example frame_not_priced :
  let step frame st := answer_of (assembleMixed (fun s => s) (fun s => s) (demo_mixed frame) (fun _ _ => false) st 0 (demo_tokens 80)) in
  let dropped := mkState "" "" (drop 2 (st_Messages demo_pending)) [] in
  let whole := ["an old question"; "an old answer"; "the goal"; ""; "the whole of a longer text"; ""; "half of it"] in
  step false demo_pending = Some (whole, 39, None) /\ step true demo_pending = Some (whole, 87, Some Exhausted) /\ step true dropped = Some (drop 2 whole, 79, None).
Proof. by vm_compute. Qed.
