(* ===== verification/FenceKeys.v ===== *)
(** * FenceKeys: the keys of prompt fences and their rotation (agent/fencekeys.go, internal/promptfence)

    Every tool result is framed on the wire under a random key of its own; so
    are the advisory and parts of the system prompt.  At each step the text
    that joined the run is searched for the live keys, through every layer of
    escapes, and an exposed key is replaced by a fresh one before it frames
    anything again. *)

From Stdlib Require Import Strings.Byte.
From stdpp Require Import gmap list.
From S2P Require Import Prelude Utf8 KeyReader.

#[local] Open Scope Z_scope.

(** ** Data *)

Record toolCall := mkCall { c_ID : bytes; c_Type : bytes; c_Name : bytes; c_Arguments : bytes }.

(** A group of a context set: its subject's domain and id, and the contents of
    its alternatives. *)
Record group := mkGroup { g_Domain : bytes; g_ID : bytes; g_Alternatives : list bytes }.

(** A message; [fence] is the id of its fence, empty for the zero Fence. *)
Record Message := mkMessage {
  m_Role : bytes; m_Content : bytes; m_ToolName : bytes; m_ToolCallID : bytes; m_ToolCalls : list toolCall;
  m_Context : option (list group); fence : bytes
}.

Record State := mkState { System : bytes; Messages : list Message; systemKeys : list bytes }.

Definition set_fence (m : Message) (id : bytes) : Message :=
  mkMessage (m_Role m) (m_Content m) (m_ToolName m) (m_ToolCallID m) (m_ToolCalls m) (m_Context m) id.

Definition replayedTexts (m : Message) : list bytes :=
  [m_Content m; m_ToolName m; m_ToolCallID m] ++
  concat (map (fun c => [c_ID c; c_Type c; c_Name c; c_Arguments c]) (m_ToolCalls m)) ++
  match m_Context m with
  | Some groups => concat (map (fun g => [g_Domain g; g_ID g] ++ g_Alternatives g) groups)
  | None => []
  end.

Definition advisoryOwner : Z := -1.
Definition systemOwner : Z := -2.
Definition maxFenceScanBytes : Z := 8 * 2 ^ 20.
Definition idLen : nat := 12.

(** ** Reading text as a key reader would *)

(** Fullwidth forms are their ASCII characters; 0 for other runes. *)
Definition compatibleASCII (r : Z) : Z :=
  if r <? RuneSelf then r else if (65281 <=? r) && (r <=? 65374) then r - 65248 else 0.

Definition hexNibble (c : Z) : Z :=
  if (48 <=? c) && (c <=? 57) then c - 48
  else if (97 <=? c) && (c <=? 102) then c - 97 + 10
  else if (65 <=? c) && (c <=? 70) then c - 65 + 10
  else -1.

(** [unicode.ToUpper (unicode.ToLower r)] where it is an ASCII character:
    besides ASCII itself, dotted and dotless I, long s and the Kelvin sign. *)
Definition fold_case (r : Z) : Z :=
  if (97 <=? r) && (r <=? 122) then r - 32
  else if (r =? 304) || (r =? 305) then 73
  else if r =? 383 then 83
  else if r =? 8490 then 75
  else r.

(** The letter a rune stands for, in the alphabet A-Z, 2-7. *)
Definition key_letter (r : Z) : option byte :=
  let c := compatibleASCII r in
  let r := fold_case (if c =? 0 then r else c) in
  if ((65 <=? r) && (r <=? 90)) || ((50 <=? r) && (r <=? 55)) then Some (byte_of r) else None.

Definition keyLetters (text : bytes) : bytes := omap key_letter (runes text).

(** After the backslashes. *)
Fixpoint slashes (fuel : nat) (s : bytes) : nat :=
  match fuel with
  | O => O
  | S fuel =>
      match s with
      | [] => O
      | _ => let '(r, n) := DecodeRune s in if compatibleASCII r =? 92 then (n + slashes fuel (drop n s))%nat else O
      end
  end.

(** [k] hexadecimal digits: their value and where they end. *)
Fixpoint hex_digits (k : nat) (value : Z) (s : bytes) : option (Z * bytes) :=
  match k with
  | O => Some (value, s)
  | S k =>
      match s with
      | [] => None
      | _ =>
          let '(r, n) := DecodeRune s in
          let nibble := hexNibble (compatibleASCII r) in
          if nibble <? 0 then None else hex_digits k (Z.lor (Z.shiftl value 4) nibble) (drop n s)
      end
  end.

(** [compatibleEscapeAt], on the rest of the text. *)
Definition compatibleEscapeAt (s : bytes) : option (Z * bytes) :=
  match s with
  | [] => None
  | _ => let '(r, n) := DecodeRune s in if compatibleASCII r =? 117 then hex_digits 4 0 (drop n s) else None
  end.

Fixpoint decode_from (fuel : nat) (s : bytes) : bytes :=
  match fuel with
  | O => s
  | S fuel =>
      match s with
      | [] => []
      | _ =>
          let '(r, n) := DecodeRune s in
          if compatibleASCII r =? 92 then
            let j := slashes (length s) s in
            match compatibleEscapeAt (drop j s) with
            | Some (value, rest) => EncodeRune value ++ decode_from fuel rest
            | None => take j s ++ decode_from fuel (drop j s)
            end
          else take n s ++ decode_from fuel (drop n s)
      end
  end.
Definition decodeCompatibleEscapes (text : bytes) : bytes := decode_from (length text) text.

(** ** Keys *)

Section Keys.
(** The texts [rand.Text] gives in turn, and the order in which a map is
    ranged over. *)
Context (rand_Text : nat -> bytes) (order : gmap bytes Z -> list (bytes * Z)).

(** [promptfence.New], its [n]-th use. *)
Definition New (n : nat) : bytes := take idLen (rand_Text n).

(** What one refresh changes: the state, the copy mixed assembly made, if any,
    the advisory's fence ([None] for a nil pointer, [[]] for a zero Fence) and
    how many keys were drawn. *)
Record keyring := mkKeyring { st : State; assembled : option State; advisory : option bytes; draws : nat }.

Definition tool : bytes := lit "tool".

Fixpoint mint_list (ms : list Message) (draws : nat) : list Message * nat :=
  match ms with
  | [] => ([], draws)
  | m :: ms =>
      if bool_decide (m_Role m = tool) && bool_decide (fence m = [])
      then let '(ms, n) := mint_list ms (S draws) in (set_fence m (New draws) :: ms, n)
      else let '(ms, n) := mint_list ms draws in (m :: ms, n)
  end.

Definition set_messages (s : State) (ms : list Message) : State := mkState (System s) ms (systemKeys s).

Definition mintFenceKeys (kr : keyring) (from : nat) : keyring * nat :=
  let ms := Messages (st kr) in
  let '(minted, n) := mint_list (drop from ms) (draws kr) in
  (mkKeyring (set_messages (st kr) (take from ms ++ minted)) (assembled kr) (advisory kr) n, length ms).

Definition liveFenceKeys (s : State) (advisory : option bytes) : gmap bytes Z :=
  let live := foldl (fun live p => if bool_decide (fence p.2 = []) then live else <[fence p.2 := p.1]> live) ∅
                (imap (fun i m => (Z.of_nat i, m)) (Messages s)) in
  let live := match advisory with
              | Some id => if bool_decide (id = []) then live else <[id := advisoryOwner]> live
              | None => live
              end in
  foldl (fun live id => <[id := systemOwner]> live) live (systemKeys s).

Record fenceScan := mkScan { live : gmap bytes Z; exposed : gmap bytes Z; remaining : Z; keyLengths : list nat }.

Definition newFenceScan (s : State) (advisory : option bytes) : fenceScan :=
  let live := liveFenceKeys s advisory in
  mkScan live ∅ maxFenceScanBytes (remove_dups (map (fun p => length p.1) (map_to_list live))).

(** The keys of one length in the projected text. *)
Fixpoint scan_letters (live : gmap bytes Z) (length' : nat) (letters : bytes) (exposed : gmap bytes Z) : gmap bytes Z :=
  let exposed := if (length' <=? length letters)%nat
                 then match live !! take length' letters with
                      | Some owner => <[take length' letters := owner]> exposed
                      | None => exposed
                      end
                 else exposed in
  match letters with
  | [] => exposed
  | _ :: letters => scan_letters live length' letters exposed
  end.

Definition scanLayer (s : fenceScan) (text : bytes) : fenceScan :=
  let letters := keyLetters text in
  mkScan (live s) (foldl (fun ex l => scan_letters (live s) l letters ex) (exposed s) (keyLengths s)) (remaining s) (keyLengths s).

(** [None] when the fuel, which stands for the layers of escapes, runs out. *)
Fixpoint inspect_from (fuel : nat) (s : fenceScan) (text : bytes) : option (fenceScan * bool) :=
  match fuel with
  | O => None
  | S fuel =>
      if remaining s <? len text then Some (s, false)
      else
        let s := scanLayer (mkScan (live s) (exposed s) (remaining s - len text) (keyLengths s)) text in
        let decoded := decodeCompatibleEscapes text in
        if bool_decide (decoded = text) then Some (s, true) else inspect_from fuel s decoded
  end.

Definition inspect (s : fenceScan) (text : bytes) : option (fenceScan * bool) :=
  match keyLengths s with [] => Some (s, true) | _ => inspect_from (S (length text)) s text end.

(** [strings.ReplaceAll]; the keys are never empty, and the scan then goes on
    after what it replaced. *)
Fixpoint replace_from (fuel : nat) (old new s : bytes) : bytes :=
  match fuel with
  | O => s
  | S fuel =>
      if bool_decide (take (length old) s = old) then new ++ replace_from fuel old new (drop (length old) s)
      else match s with [] => [] | b :: s => b :: replace_from fuel old new s end
  end.
Definition ReplaceAll (s old new : bytes) : bytes := if bool_decide (old = []) then s else replace_from (S (length s)) old new s.

Definition rename (id fresh : bytes) (m : Message) : Message := if bool_decide (fence m = id) then set_fence m fresh else m.

(** [rotateFenceKey], but for the bookkeeping of [live], which no caller reads
    afterwards. *)
Definition rotateFenceKey (kr : keyring) (id : bytes) (owner : Z) : keyring :=
  let fresh := New (draws kr) in
  let s := st kr in
  if owner =? advisoryOwner then mkKeyring s (assembled kr) (Some fresh) (S (draws kr))
  else if owner =? systemOwner then
    let system s := mkState (ReplaceAll (System s) id fresh) (Messages s) (systemKeys s) in
    mkKeyring (mkState (ReplaceAll (System s) id fresh) (Messages s) (map (fun key => if bool_decide (key = id) then fresh else key) (systemKeys s)))
      (system <$> assembled kr) (advisory kr) (S (draws kr))
  else
    mkKeyring (set_messages s (alter (fun m => set_fence m fresh) (Z.to_nat owner) (Messages s)))
      ((fun a => set_messages a (map (rename id fresh) (Messages a))) <$> assembled kr) (advisory kr) (S (draws kr)).

Definition rotate (s : fenceScan) (kr : keyring) : keyring * Z :=
  (foldl (fun kr p => rotateFenceKey kr p.1 p.2) kr (order (exposed s)), len (order (exposed s))).

(** Every live key is exposed, but those of owners rotated already. *)
Definition expose_all (s : fenceScan) (already : list Z) : fenceScan :=
  mkScan (live s)
    (foldl (fun ex p => if bool_decide (p.2 ∈ already) then delete p.1 ex else <[p.1 := p.2]> ex) (exposed s) (order (live s)))
    (remaining s) (keyLengths s).

Definition rotatedOwners (s : fenceScan) : list Z := remove_dups (map snd (order (exposed s))).

(** Up to the first text the budget does not cover. *)
Fixpoint inspect_all (s : fenceScan) (texts : list bytes) : option (fenceScan * bool) :=
  match texts with
  | [] => Some (s, true)
  | text :: texts =>
      match inspect s text with
      | None => None
      | Some (s, false) => Some (s, false)
      | Some (s, true) => inspect_all s texts
      end
  end.

Record refreshed := mkRefreshed { r_keys : keyring; next : nat; rotated : Z; limited : bool; owners : list Z }.

Definition refreshFenceKeys (kr : keyring) (from : nat) (pinned : list bytes) : option refreshed :=
  let texts := pinned ++ concat (map replayedTexts (drop from (Messages (st kr)))) in
  match inspect_all (newFenceScan (st kr) (advisory kr)) texts with
  | None => None
  | Some (scan, ok) =>
      let scan := if ok then scan else expose_all scan [] in
      let '(kr, n) := rotate scan kr in
      let '(kr, next) := mintFenceKeys kr from in
      Some (mkRefreshed kr next n (negb ok) (rotatedOwners scan))
  end.

(** The joined contents of multi-group tool results, after mixed assembly. *)
Definition structured (s : State) (skipBefore : nat) : list bytes :=
  omap (fun m => match m_Context m with
                 | Some groups => if (1 <? len groups) && negb (bool_decide (fence m = [])) then Some (fence m) else None
                 | None => None
                 end) (drop skipBefore (Messages s)).

Definition refreshMaterializedFenceKeys (kr : keyring) (skipBefore : nat) (alreadyRotated : list Z) : option (keyring * Z * bool) :=
  match structured (st kr) skipBefore with
  | [] => Some (kr, 0, false)
  | ids =>
      let texts := match assembled kr with
                   | Some a => map m_Content (List.filter (fun m => bool_decide (fence m ∈ ids)) (Messages a))
                   | None => []
                   end in
      match inspect_all (newFenceScan (st kr) (advisory kr)) texts with
      | None => None
      | Some (scan, ok) =>
          let scan := if ok then scan else expose_all scan alreadyRotated in
          let '(kr, n) := rotate scan kr in Some (kr, n, negb ok)
      end
  end.
End Keys.

(** ** What a caller may register *)

Fixpoint containsb (s sub : bytes) : bool :=
  bool_decide (take (length sub) s = sub) || match s with [] => false | _ :: s => containsb s sub end.

Inductive keyError := ErrNotAKey (i : nat) | ErrOverlap (i j : nat).

Definition overlapping (key : bytes) (prior : list bytes) : option nat :=
  fst <$> list_find (fun p => negb (bool_decide (key = p)) && (containsb key p || containsb p key) = true) prior.

Fixpoint validate_from (i : nat) (prior keys : list bytes) : option keyError :=
  match keys with
  | [] => None
  | key :: keys =>
      if (len key <? 12) || negb (bool_decide (keyLetters key = key)) then Some (ErrNotAKey i)
      else match overlapping key prior with
           | Some j => Some (ErrOverlap i j)
           | None => validate_from (S i) (prior ++ [key]) keys
           end
  end.
Definition validateSystemKeys (keys : list bytes) : option keyError := validate_from 0 [] keys.

(** ** Decoding shortens the text *)

Lemma land_shiftl_nibble v b : 0 <= b < 16 -> Z.land (Z.shiftl v 4) b = 0.
Proof.
  intros Hb. apply Z.bits_inj'. intros n Hn. rewrite Z.land_spec, Z.bits_0.
  destruct (Z.ltb_spec n 4); [by rewrite Z.shiftl_spec_low|].
  destruct (Z.eq_dec b 0) as [->|Hb0]; [by rewrite Z.bits_0, andb_false_r|].
  rewrite (Z.bits_above_log2 b n), andb_false_r; [done|lia|]. apply Z.log2_lt_pow2; [lia|].
  assert (2 ^ 4 <= 2 ^ n) by (apply Z.pow_le_mono_r; lia). lia.
Qed.

Lemma shift_nibble v b : 0 <= b < 16 -> Z.lor (Z.shiftl v 4) b = v * 16 + b.
Proof.
  intros Hb. rewrite <- Z.lxor_lor, <- Z.add_nocarry_lxor by (by apply land_shiftl_nibble). rewrite Z.shiftl_mul_pow2 by lia. lia.
Qed.

Lemma hexNibble_range c : hexNibble c < 16.
Proof. unfold hexNibble. repeat case_match; to_prop; lia. Qed.

Lemma hex_digits_spec k : forall value s v rest, 0 <= value -> hex_digits k value s = Some (v, rest) ->
  (length rest + k <= length s)%nat /\ v < (value + 1) * 16 ^ Z.of_nat k.
Proof.
  induction k as [|k IH]; intros value s v rest Hv E; [injection E as <- <-; split; [lia|simpl; lia]|].
  cbn [hex_digits] in E. destruct s as [|b s]; [done|]. pose proof (DecodeRune_size (b :: s) ltac:(done)) as Hn.
  destruct (DecodeRune (b :: s)) as [r n]. cbn [snd] in Hn.
  pose proof (hexNibble_range (compatibleASCII r)) as Hr. destruct (Z.ltb_spec (hexNibble (compatibleASCII r)) 0); [done|].
  rewrite shift_nibble in E by lia. apply IH in E as [E1 E2]; [|lia]. rewrite length_drop in E1. split; [lia|].
  rewrite Nat2Z.inj_succ, Z.pow_succ_r by lia. nia.
Qed.

Lemma slashes_le fuel s : (slashes fuel s <= length s)%nat.
Proof.
  revert s. induction fuel as [|fuel IH]; intros s; simpl; [lia|]. destruct s as [|b s]; [done|].
  pose proof (DecodeRune_size (b :: s) ltac:(done)) as Hn. destruct (DecodeRune (b :: s)) as [r n]. cbn [snd] in Hn.
  destruct (_ =? _); [|lia]. specialize (IH (drop n (b :: s))). rewrite length_drop in IH. lia.
Qed.

Lemma escape_spec s v rest : compatibleEscapeAt s = Some (v, rest) -> (length rest + 5 <= length s)%nat /\ v <= 65535.
Proof.
  unfold compatibleEscapeAt. destruct s as [|b s]; [done|]. pose proof (DecodeRune_size (b :: s) ltac:(done)) as Hn.
  destruct (DecodeRune (b :: s)) as [r n]. cbn [snd] in Hn. destruct (_ =? _); [|done]. intros E.
  apply hex_digits_spec in E as [E1 E2]; [|lia]. rewrite length_drop in E1. split; [lia|]. simpl in E2. lia.
Qed.

Lemma decode_shrinks fuel s : decode_from fuel s = s \/ (length (decode_from fuel s) < length s)%nat.
Proof.
  revert s. induction fuel as [|fuel IH]; intros s; [by left|]. cbn [decode_from]. destruct s as [|b s]; [by left|].
  pose proof (DecodeRune_size (b :: s) ltac:(done)) as Hn. destruct (DecodeRune (b :: s)) as [r n] eqn:Ed. cbn [snd] in Hn.
  assert (forall k, take k (b :: s) ++ decode_from fuel (drop k (b :: s)) = b :: s \/
    (length (take k (b :: s) ++ decode_from fuel (drop k (b :: s))) < length (b :: s))%nat) as Hk.
  { intros k. destruct (IH (drop k (b :: s))) as [->|H]; [left; by rewrite take_drop|right].
    rewrite length_app, length_take. rewrite length_drop in H. lia. }
  destruct (Z.eqb_spec (compatibleASCII r) 92) as [Er|_]; [|apply Hk].
  set (j := slashes (length (b :: s)) (b :: s)). destruct (compatibleEscapeAt (drop j (b :: s))) as [[v rest]|] eqn:Ee; [|apply Hk].
  right. apply escape_spec in Ee as [He Hv]. rewrite length_drop in He. rewrite length_app.
  assert (1 <= j)%nat as Hj by (subst j; cbn [length slashes]; rewrite Ed, Er; simpl; lia).
  pose proof (EncodeRune_length_bmp v Hv). destruct (IH rest) as [->|]; lia.
Qed.

Lemma decoded_shorter s : decodeCompatibleEscapes s <> s -> (length (decodeCompatibleEscapes s) < length s)%nat.
Proof. unfold decodeCompatibleEscapes. intros H. by destruct (decode_shrinks (length s) s). Qed.

(** ** What a text exposes *)

(** A text, the text it decodes to, and so on to the fixed point. *)
Fixpoint layers_from (fuel : nat) (text : bytes) : list bytes :=
  match fuel with
  | O => []
  | S fuel =>
      let decoded := decodeCompatibleEscapes text in
      text :: (if bool_decide (decoded = text) then [] else layers_from fuel decoded)
  end.
Definition layers (text : bytes) : list bytes := layers_from (S (length text)) text.

(** Some layer holds the key, past any characters that are no key letters. *)
Definition exposes (text key : bytes) : Prop := exists layer, layer ∈ layers text /\ contains key (keyLetters layer).

(** ** The scan reads as the reader does *)

Lemma compatible_form r a : 0 <= r -> 0 < a < 128 -> compatibleASCII r = a <-> form_of r a.
Proof. unfold compatibleASCII, form_of, RuneSelf. intros Hr Ha. repeat case_match; to_prop; lia. Qed.

Lemma key_letter_reads r b : key_letter r = Some b <-> exists c, reads_as r c /\ b = byte_of c.
Proof.
  unfold key_letter, compatibleASCII, fold_case, RuneSelf. split.
  - intros H. repeat (case_match; simplify_eq; to_prop); eexists; (split; [|reflexivity]); unfold reads_as, form_of; lia.
  - intros (c & Hc & ->). assert (forall x y, x = y -> Some (byte_of x) = Some (byte_of y)) as He by (by intros x y ->).
    unfold reads_as, form_of in Hc. repeat (case_match; to_prop); first [apply He; lia|exfalso; lia].
Qed.

Lemma keyLetters_spells text letters : spells (runes text) letters <-> letters = keyLetters text.
Proof.
  unfold keyLetters. assert (forall r, key_letter r = None <-> forall c, ~ reads_as r c) as Hnone.
  { intros r. rewrite eq_None_not_Some. split.
    - intros H c Hc. apply H. exists (byte_of c). apply key_letter_reads. by exists c.
    - intros H [b (c & Hc & _)%key_letter_reads]. by apply (H c). }
  split.
  - induction 1 as [|r c rs bs Hr _ ->|r rs bs Hr _ ->]; [done|..]; csimpl.
    + assert (key_letter r = Some (byte_of c)) as -> by (apply key_letter_reads; by exists c). done.
    + apply Hnone in Hr as ->. done.
  - intros ->. induction (runes text) as [|r rs IH]; [constructor|]. csimpl.
    destruct (key_letter r) as [b|] eqn:E; [|constructor; [by apply Hnone|done]].
    apply key_letter_reads in E as (c & Hc & ->). by constructor.
Qed.

Lemma nibble_digit r d : 0 <= r -> (hexNibble (compatibleASCII r) = d /\ 0 <= d) <-> digit_of r d.
Proof.
  intros Hr. split.
  - intros [E Hd]. exists (compatibleASCII r). unfold hexNibble in E.
    assert (0 < compatibleASCII r < 128) as Ha
      by (unfold compatibleASCII, RuneSelf in *; repeat case_match; to_prop; lia).
    split; [by apply compatible_form|]. repeat case_match; to_prop; lia.
  - intros (a & Hf & Ha). apply compatible_form in Hf as ->; [|lia..]. unfold hexNibble. repeat case_match; to_prop; lia.
Qed.

Lemma hex_digits_reader k value s v rest : 0 <= value -> hex_digits k value s = Some (v, rest) <-> digits k value s v rest.
Proof.
  revert value s. induction k as [|k IH]; intros value s Hv; cbn [hex_digits].
  { split; [by intros [= <- <-]; constructor|]. by inversion 1. }
  destruct s as [|b s]; [split; [done|]; inversion 1 as [|? ? ? ? ? ? ? ? (n & ? & _) _ _]; done|].
  pose proof (DecodeRune_nonneg (b :: s)) as Hr. destruct (DecodeRune (b :: s)) as [r n] eqn:Ed. cbn [fst] in Hr.
  pose proof (hexNibble_range (compatibleASCII r)) as Hlt. split.
  - destruct (Z.ltb_spec (hexNibble (compatibleASCII r)) 0) as [|Hn]; [done|]. rewrite shift_nibble by lia.
    intros H%IH; [|lia]. econstructor; [by apply begins_decode| |exact H]. by apply nibble_digit.
  - inversion 1 as [|? ? ? r' d s1 ? ? Hb Hd Hrest]; subst.
    destruct (begins_unique _ _ _ _ _ Hb (begins_decode (b :: s) r n ltac:(done) Ed)) as [-> ->].
    apply nibble_digit in Hd as [Ed' Hd]; [|done]. rewrite Ed' in *. destruct (Z.ltb_spec d 0); [lia|].
    rewrite shift_nibble by lia. apply IH; [lia|done].
Qed.

Lemma escapeAt_reader s v rest :
  compatibleEscapeAt s = Some (v, rest) <-> exists r s2, begins s r s2 /\ form_of r 117 /\ digits 4 0 s2 v rest.
Proof.
  unfold compatibleEscapeAt. destruct s as [|b s]; [split; [done|]; by intros (r & s2 & (n & ? & _) & _)|].
  pose proof (DecodeRune_nonneg (b :: s)) as Hr. destruct (DecodeRune (b :: s)) as [r n] eqn:Ed. cbn [fst] in Hr.
  pose proof (begins_decode (b :: s) r n ltac:(done) Ed) as Hb. split.
  - destruct (Z.eqb_spec (compatibleASCII r) 117) as [E|]; [|done]. intros H%hex_digits_reader; [|done].
    exists r, (drop n (b :: s)). split_and!; [done|by apply compatible_form|done].
  - intros (r' & s2 & Hb' & Hf & Hd). destruct (begins_unique _ _ _ _ _ Hb' Hb) as [-> ->].
    apply compatible_form in Hf as ->; [|lia..]. cbn [Z.eqb Pos.eqb]. by apply hex_digits_reader.
Qed.

(** The backslashes a text begins with, one by one. *)
Lemma slashes_step fuel s r s1 : begins s r s1 -> (length s <= fuel)%nat ->
  (backslash r -> drop (slashes fuel s) s = drop (slashes (pred fuel) s1) s1 /\
     take (slashes fuel s) s = take (length s - length s1) s ++ take (slashes (pred fuel) s1) s1) /\
  (~ backslash r -> slashes fuel s = 0%nat).
Proof.
  intros (n & Hs & Ed & ->) Hf. pose proof (DecodeRune_nonneg s) as Hr. pose proof (DecodeRune_size s Hs) as Hn.
  rewrite Ed in Hr, Hn. cbn [fst snd] in Hr, Hn. destruct fuel as [|fuel]; [destruct s; simpl in Hf; [done|lia]|].
  cbn [slashes pred]. destruct s as [|b s]; [done|]. rewrite Ed.
  destruct (Z.eqb_spec (compatibleASCII r) 92) as [E|E].
  - split; [|intros H; exfalso; by apply H, compatible_form]. intros _. split; [by rewrite drop_drop|].
    rewrite length_drop. replace (length (b :: s) - (length (b :: s) - n))%nat with n by lia.
    by rewrite take_take_drop.
  - split; [intros H; exfalso; by apply E, compatible_form|done].
Qed.

Lemma slashes_fuel fuel fuel' s :
  (length s <= fuel)%nat -> (length s <= fuel')%nat -> slashes fuel s = slashes fuel' s.
Proof.
  revert fuel' s. induction fuel as [|fuel IH]; intros [|fuel'] s H H'; try (by destruct s; simpl in *; [|lia]).
  cbn [slashes]. destruct s as [|b s]; [done|]. pose proof (DecodeRune_size (b :: s) ltac:(done)) as Hn.
  destruct (DecodeRune (b :: s)) as [r n]. cbn [snd] in Hn. destruct (_ =? _); [|done]. f_equal.
  simpl in H, H', Hn. apply IH; rewrite length_drop; simpl; lia.
Qed.

Lemma backslash_dec r : Decision (backslash r).
Proof. unfold backslash, form_of. solve_decision. Defined.

Lemma begins_cases s : s = [] \/ exists r s0, begins s r s0.
Proof. destruct s as [|b s]; [by left|right]. destruct (DecodeRune (b :: s)) as [r n] eqn:E. exists r, (drop n (b :: s)). by exists n. Qed.

(** No backslash comes first. *)
Definition unslashed (s : bytes) : Prop := forall r s0, begins s r s0 -> ~ backslash r.

Lemma unslashed_none fuel s : unslashed s -> (length s <= fuel)%nat -> slashes fuel s = 0%nat.
Proof.
  intros Hs Hf. destruct (begins_cases s) as [->|(r & s0 & Hb)]; [by destruct fuel|].
  apply (slashes_step fuel s r s0 Hb Hf). by eapply Hs.
Qed.

Lemma slashed_slashes fuel s r s0 :
  begins s r s0 -> backslash r -> (length s <= fuel)%nat -> slashed s (drop (slashes fuel s) s).
Proof.
  revert s r s0. induction fuel as [|fuel IH]; intros s r s0 Hb Hr Hf; [apply begins_shorter in Hb; lia|].
  destruct (slashes_step (S fuel) s r s0 Hb Hf) as [H _]. destruct (H Hr) as [-> _]. cbn [pred].
  apply begins_shorter in Hb as Hlt. destruct (begins_cases s0) as [->|(r1 & s1 & Hb1)].
  { rewrite drop_nil. by eapply slashed_one. }
  destruct (backslash_dec r1) as [Hr1|Hr1]; [eapply slashed_more; [done|done|]; eapply IH; [done|done|lia]|].
  destruct (slashes_step fuel s0 r1 s1 Hb1 ltac:(lia)) as [_ H0]. rewrite (H0 Hr1). by eapply slashed_one.
Qed.

Lemma slashed_all s rest : slashed s rest -> unslashed rest -> forall fuel, (length s <= fuel)%nat -> drop (slashes fuel s) s = rest.
Proof.
  induction 1 as [s r rest Hb Hr|s r s1 rest Hb Hr _ IH]; intros Hu fuel Hf; apply begins_shorter in Hb as Hlt;
    destruct (slashes_step fuel s r _ Hb Hf) as [H _]; destruct (H Hr) as [-> _].
  - rewrite unslashed_none; [done|done|lia].
  - apply IH; [done|lia].
Qed.

Lemma escape_reader s r s0 v rest :
  begins s r s0 -> backslash r ->
  compatibleEscapeAt (drop (slashes (length s) s) s) = Some (v, rest) <-> escape s v rest.
Proof.
  intros Hb Hr. rewrite escapeAt_reader. split.
  - intros (q & s2 & H). exists (drop (slashes (length s) s) s), q, s2. split; [by eapply slashed_slashes|done].
  - intros (s1 & q & s2 & Hs & Hq & Hu & Hd). exists q, s2. rewrite (slashed_all s s1 Hs); [done| |lia].
    intros q' s' Hq'. destruct (begins_unique _ _ _ _ _ Hq Hq') as [<- _]. unfold backslash, form_of in *. lia.
Qed.

Lemma decode_step fuel s r n :
  s <> [] -> DecodeRune s = (r, n) -> decode_from (S fuel) s =
    if compatibleASCII r =? 92 then
      match compatibleEscapeAt (drop (slashes (length s) s) s) with
      | Some (value, rest) => EncodeRune value ++ decode_from fuel rest
      | None => take (slashes (length s) s) s ++ decode_from fuel (drop (slashes (length s) s) s)
      end
    else take n s ++ decode_from fuel (drop n s).
Proof. intros Hs E. cbn [decode_from]. destruct s; [done|]. by rewrite E. Qed.

Lemma is_backslash s r n : DecodeRune s = (r, n) -> (compatibleASCII r =? 92) = true <-> backslash r.
Proof.
  intros E. pose proof (DecodeRune_nonneg s) as Hr. rewrite E in Hr. rewrite Z.eqb_eq. by apply compatible_form.
Qed.

Lemma no_escape_at s r s0 : begins s r s0 -> backslash r -> (forall v rest, ~ escape s v rest) ->
  compatibleEscapeAt (drop (slashes (length s) s) s) = None.
Proof.
  intros Hb Hr Hn. destruct (compatibleEscapeAt _) as [[v rest]|] eqn:E; [|done].
  apply (escape_reader s r s0) in E; [|done..]. by apply Hn in E.
Qed.

Lemma decode_fuel fuel fuel' s :
  (length s <= fuel)%nat -> (length s <= fuel')%nat -> decode_from fuel s = decode_from fuel' s.
Proof.
  revert fuel' s. induction fuel as [|fuel IH]; intros fuel' s H H'; [by destruct s; [destruct fuel'|simpl in H; lia]|].
  destruct (decide (s = [])) as [->|Hs]; [by destruct fuel'|]. destruct fuel' as [|fuel']; [by destruct s; simpl in H'; [|lia]|].
  destruct (DecodeRune s) as [r n] eqn:E. rewrite !(decode_step _ s r n Hs E).
  pose proof (DecodeRune_size s Hs) as Hn. rewrite E in Hn. cbn [snd] in Hn.
  destruct (compatibleASCII r =? 92) eqn:Ea; [|f_equal; apply IH; rewrite length_drop; lia].
  apply (is_backslash s r n E) in Ea. pose proof (begins_decode s r n Hs E) as Hb.
  destruct (slashes_step (length s) s r _ Hb ltac:(done)) as [Hst _]. destruct (Hst Ea) as [Hd _].
  assert (length (drop (slashes (length s) s) s) < length s)%nat as Hlt by (rewrite Hd, !length_drop; lia).
  destruct (compatibleEscapeAt _) as [[v rest]|] eqn:Ee; f_equal; [|apply IH; lia].
  apply escape_spec in Ee as [Ee _]. apply IH; lia.
Qed.

(** Backslashes that begin no escape are copied. *)
Lemma decode_slash fuel s r n :
  s <> [] -> DecodeRune s = (r, n) -> (forall v rest, ~ escape s v rest) -> (length s <= fuel)%nat ->
  decode_from (S fuel) s = take n s ++ decode_from fuel (drop n s).
Proof.
  intros Hs E Hn Hf. rewrite (decode_step fuel s r n Hs E). destruct (compatibleASCII r =? 92) eqn:Ea; [|done].
  apply (is_backslash s r n E) in Ea. pose proof (begins_decode s r n Hs E) as Hb.
  rewrite (no_escape_at s r _ Hb Ea Hn). apply begins_shorter in Hb as Hlt.
  pose proof (DecodeRune_size s Hs) as Hn'. rewrite E in Hn'. cbn [snd] in Hn'.
  destruct (slashes_step (length s) s r _ Hb ltac:(done)) as [H _]. destruct (H Ea) as [-> ->]. rewrite <-app_assoc.
  set (s0 := drop n s) in *. assert (length s - length s0 = n)%nat as -> by (subst s0; rewrite length_drop; lia). f_equal.
  rewrite (slashes_fuel (pred (length s)) (length s0) s0) by lia.
  destruct (begins_cases s0) as [E0|(r0 & s1 & Hb0)]; [by rewrite E0|]. pose proof Hb0 as (n0 & Hs0 & E0 & _).
  destruct fuel as [|fuel]; [lia|]. destruct (backslash_dec r0) as [Hr0|Hr0].
  - rewrite (decode_step fuel s0 r0 n0 Hs0 E0), (proj2 (is_backslash s0 r0 n0 E0) Hr0), (no_escape_at s0 r0 s1 Hb0 Hr0).
    + f_equal. apply decode_fuel; rewrite length_drop; lia.
    + intros v rest He. apply (Hn v rest). by eapply escape_slash.
  - destruct (slashes_step (length s0) s0 r0 s1 Hb0 ltac:(done)) as [_ H0]. by rewrite (H0 Hr0).
Qed.

(** One layer, read either way. *)
Lemma unescaped_decodes s t : unescaped s t -> forall fuel, (length s <= fuel)%nat -> decode_from fuel s = t.
Proof.
  induction 1 as [|s v rest t He _ IH|s r n t Hs E Hn _ IH]; intros fuel Hf; [by destruct fuel| |].
  - pose proof He as (s1 & _ & _ & (r & s0 & Hb & Hr)%slashed_begins & _). pose proof Hb as (n & Hs & E & _).
    destruct fuel as [|fuel]; [apply begins_shorter in Hb; lia|].
    rewrite (decode_step fuel s r n Hs E), (proj2 (is_backslash s r n E) Hr).
    apply (escape_reader s r s0 v rest Hb Hr) in He. rewrite He. f_equal. apply IH.
    apply escape_spec in He as [He _]. rewrite length_drop in He. lia.
  - pose proof (DecodeRune_size s Hs) as Hsz. rewrite E in Hsz. cbn [snd] in Hsz.
    destruct fuel as [|fuel]; [lia|]. rewrite (decode_fuel (S fuel) (S (length s)) s) by lia.
    rewrite (decode_slash (length s) s r n Hs E Hn) by done. f_equal. apply IH. rewrite length_drop. lia.
Qed.

Lemma unescaped_exists s : exists t, unescaped s t.
Proof.
  remember (length s) as k eqn:Hk. revert s Hk. induction (lt_wf k) as [k _ IH]. intros s ->.
  destruct (begins_cases s) as [->|(r & s0 & Hb)]; [exists []; constructor|]. pose proof Hb as (n & Hs & E & ->).
  apply begins_shorter in Hb as Hlt. destruct (backslash_dec r) as [Hr|Hr].
  - destruct (compatibleEscapeAt (drop (slashes (length s) s) s)) as [[v rest]|] eqn:Ee.
    + apply (escape_reader s r _ v rest Hb Hr) in Ee as He. apply escape_spec in Ee as [Ee _]. rewrite length_drop in Ee.
      destruct (IH (length rest) ltac:(lia) rest eq_refl) as [t Ht]. eexists. by eapply unescaped_escape.
    + destruct (IH _ Hlt _ eq_refl) as [t Ht]. eexists. eapply unescaped_plain; [done|done| |done].
      intros v rest He. apply (escape_reader s r _ v rest Hb Hr) in He. congruence.
  - destruct (IH _ Hlt _ eq_refl) as [t Ht]. eexists. eapply unescaped_plain; [done|done| |done].
    intros v rest (s1 & _ & _ & (r' & s2 & Hb' & Hr')%slashed_begins & _).
    destruct (begins_unique _ _ _ _ _ Hb Hb') as [<- _]. done.
Qed.

Lemma unescaped_decode s t : unescaped s t <-> t = decodeCompatibleEscapes s.
Proof.
  unfold decodeCompatibleEscapes. split; [intros H; symmetry; by apply unescaped_decodes|]. intros ->.
  destruct (unescaped_exists s) as [t H]. by rewrite (unescaped_decodes s t H _ ltac:(done)).
Qed.

Lemma layers_reader text layer : layer ∈ layers text <-> rtc unescaped text layer.
Proof.
  unfold layers. assert (forall fuel text, (length text < fuel)%nat -> layer ∈ layers_from fuel text <-> rtc unescaped text layer)
    as H; [|apply H; lia]. clear text. induction fuel as [|fuel IH]; intros text Hf; [lia|]. cbn [layers_from].
  rewrite elem_of_cons. case_bool_decide as Ed.
  - split; [by intros [->|?%elem_of_nil]|]. intros H. left. induction H as [|x y z Hxy _ IHr]; [done|].
    apply unescaped_decode in Hxy. rewrite Ed in Hxy. subst y. by apply IHr.
  - apply decoded_shorter in Ed as Hlt. rewrite IH by lia. split.
    + intros [->|H]; [done|]. econstructor; [|exact H]. by apply unescaped_decode.
    + inversion 1 as [|x y z Hxy Hr]; subst; [by left|]. apply unescaped_decode in Hxy as ->. by right.
Qed.

(** What the scan takes for exposed is what a reader can read. *)
Lemma exposes_readable text key : exposes text key <-> readable text key.
Proof.
  split.
  - intros (layer & Hl & Hc). exists layer, (keyLetters layer). split_and!; [by apply layers_reader| |done].
    by apply keyLetters_spells.
  - intros (layer & letters & Hl & Hs & Hc). exists layer. split; [by apply layers_reader|].
    apply keyLetters_spells in Hs as <-. done.
Qed.

Lemma contains_cons sub b s : contains sub (b :: s) <-> (exists r, b :: s = sub ++ r) \/ contains sub s.
Proof.
  split.
  - intros ([|c a] & r & E); [left; by exists r|right]. injection E as -> E. by exists a, r.
  - intros [[r E]|(a & r & E)]; [by exists [], r|]. exists (b :: a), r. by rewrite E.
Qed.

Lemma scan_letters_spec live l letters : forall ex, ex ⊆ live ->
  let ex' := scan_letters live l letters ex in
  ex' ⊆ live /\ ex ⊆ ex' /\
  (forall k o, length k = l -> contains k letters -> live !! k = Some o -> ex' !! k = Some o) /\
  (forall k, is_Some (ex' !! k) -> is_Some (ex !! k) \/ contains k letters).
Proof.
  assert (forall letters ex, ex ⊆ live ->
    let ex1 := if (l <=? length letters)%nat then match live !! take l letters with Some o => <[take l letters := o]> ex | None => ex end else ex in
    ex1 ⊆ live /\ ex ⊆ ex1 /\
    (forall k o, length k = l -> (exists r, letters = k ++ r) -> live !! k = Some o -> ex1 !! k = Some o) /\
    (forall k, is_Some (ex1 !! k) -> is_Some (ex !! k) \/ exists r, letters = k ++ r)) as Hstep.
  { clear letters. intros letters ex Hex. destruct (Nat.leb_spec l (length letters)) as [Hle|Hlt]; cbn zeta.
    - destruct (live !! take l letters) as [o|] eqn:El; split_and!; try done.
      + by apply insert_subseteq_l.
      + apply map_subseteq_spec. intros k o' Hk. destruct (decide (k = take l letters)) as [->|Hne].
        * rewrite lookup_insert_eq. pose proof (lookup_weaken _ _ _ _ Hk Hex). congruence.
        * by rewrite lookup_insert_ne.
      + intros k o' Hk [r ->] Ho. rewrite take_app_length' in * by done. rewrite lookup_insert_eq. congruence.
      + intros k [o' Hk]. destruct (decide (k = take l letters)) as [->|Hne].
        * right. exists (drop l letters). by rewrite take_drop.
        * left. rewrite lookup_insert_ne in Hk by done. by eexists.
      + intros k o' Hk [r ->] Ho. rewrite take_app_length' in El by done. congruence.
      + intros k Hk. by left.
    - split_and!; try done.
      + intros k o Hk [r ->] _. rewrite length_app in Hlt. lia.
      + intros k Hk. by left. }
  induction letters as [|b letters IH]; intros ex Hex; cbn [scan_letters].
  - destruct (Hstep [] ex Hex) as (H1 & H2 & H3 & H4). split_and!; [done|done| |].
    + intros k o Hk (a & r & E) Ho. apply H3; [done| |done]. symmetry in E. apply app_eq_nil in E as [_ E]. apply app_eq_nil in E as [-> ->]. by exists [].
    + intros k [?|[r E]]%H4; [by left|right]. exists [], r. exact E.
  - destruct (Hstep (b :: letters) ex Hex) as (H1 & H2 & H3 & H4). cbn zeta in *.
    match type of H1 with ?e ⊆ _ => set (ex1 := e) in * end. destruct (IH ex1 H1) as (I1 & I2 & I3 & I4). split_and!; [done|by etrans| |].
    + intros k o Hk Hc Ho. apply contains_cons in Hc as [Hc|Hc]; [|by apply I3]. eapply lookup_weaken; [|exact I2]. by apply H3.
    + intros k [Hk|Hk]%I4; [|right; by apply contains_cons; right]. apply H4 in Hk as [?|Hk]; [by left|right]. by apply contains_cons; left.
Qed.

(** A scan in progress: what is exposed is live, and every length of a live
    key is looked for. *)
Record scanning (s : fenceScan) : Prop := {
  sc_sub : exposed s ⊆ live s;
  sc_len k o : live s !! k = Some o -> length k ∈ keyLengths s
}.

(** How a scan goes on from [s] to [s'] with a further layer or text. *)
Definition scanned (s s' : fenceScan) (finds : bytes -> Prop) : Prop :=
  live s' = live s /\ keyLengths s' = keyLengths s /\ scanning s' /\ exposed s ⊆ exposed s' /\
  (forall k, is_Some (exposed s' !! k) -> is_Some (exposed s !! k) \/ finds k).

Lemma scan_lengths lv letters ls : forall ex, ex ⊆ lv ->
  let ex' := foldl (fun ex l => scan_letters lv l letters ex) ex ls in
  ex' ⊆ lv /\ ex ⊆ ex' /\ (forall k o, length k ∈ ls -> contains k letters -> lv !! k = Some o -> ex' !! k = Some o) /\
  (forall k, is_Some (ex' !! k) -> is_Some (ex !! k) \/ contains k letters).
Proof.
  induction ls as [|l ls IH]; intros ex Hex; cbn zeta; simpl.
  { split_and!; [done|done|by intros k o ?%elem_of_nil|by left]. }
  destruct (scan_letters_spec lv l letters ex Hex) as (H1 & H2 & H3 & H4). destruct (IH _ H1) as (I1 & I2 & I3 & I4).
  split_and!; [done|by etrans| |].
  - intros k o [Hk|Hk]%elem_of_cons Hc Ho; [|by apply (I3 _ o)]. eapply lookup_weaken; [|exact I2]. by apply H3.
  - intros k [Hk|Hk]%I4; [by apply H4|by right].
Qed.

Lemma scanLayer_spec s text : scanning s -> scanned s (scanLayer s text) (fun k => contains k (keyLetters text)) /\
  (forall k o, live s !! k = Some o -> contains k (keyLetters text) -> exposed (scanLayer s text) !! k = Some o).
Proof.
  intros [Hs Hl]. unfold scanLayer. cbn. destruct (scan_lengths (live s) (keyLetters text) (keyLengths s) _ Hs) as (H1 & H2 & H3 & H4).
  split.
  - unfold scanned. cbn. split_and!; try done.
  - intros k o Ho Hc. apply (H3 k o); [by eapply Hl|done|done].
Qed.

Lemma scanned_trans s1 s2 s3 P Q : scanned s1 s2 P -> scanned s2 s3 Q -> scanned s1 s3 (fun k => P k \/ Q k).
Proof.
  intros (A1 & A2 & _ & A4 & A5) (B1 & B2 & B3 & B4 & B5). split_and!; [congruence|congruence|done|by etrans|].
  intros k [Hk|?]%B5; [|by right; right]. apply A5 in Hk as [?|?]; [by left|by right; left].
Qed.

Lemma scanned_weaken s s' P Q : (forall k, P k -> Q k) -> scanned s s' P -> scanned s s' Q.
Proof. intros H (A1 & A2 & A3 & A4 & A5). split_and!; try done. intros k [?|?]%A5; [by left|right; by apply H]. Qed.

Definition charge (s : fenceScan) (n : Z) : fenceScan := mkScan (live s) (exposed s) (remaining s - n) (keyLengths s).

Definition in_layers (ls : list bytes) (k : bytes) : Prop := exists layer, layer ∈ ls /\ contains k (keyLetters layer).

(** With fuel for the text's length [inspect] always answers; what it then
    marks as exposed is what the layers it saw expose, and they are all of
    them unless it gives up for want of budget. *)
Lemma inspect_from_spec fuel : forall s text, scanning s -> (length text < fuel)%nat ->
  exists s' ok, inspect_from fuel s text = Some (s', ok) /\ scanned s s' (in_layers (layers_from fuel text)) /\
    (0 <= remaining s -> 0 <= remaining s' <= remaining s) /\
    (ok = true -> forall k o, live s !! k = Some o -> in_layers (layers_from fuel text) k -> exposed s' !! k = Some o).
Proof.
  induction fuel as [|fuel IH]; intros s text Hs Hf; [lia|]. cbn [inspect_from layers_from].
  destruct (Z.ltb_spec (remaining s) (len text)) as [Hr|Hr].
  { exists s, false. split_and!; [done| |lia|done]. split_and!; [done|done|done|done|by left]. }
  assert (scanning (charge s (len text))) as Hs1 by (split; apply Hs).
  destruct (scanLayer_spec (charge s (len text)) text Hs1) as [Hsc Hfind]. change (mkScan _ _ _ _) with (charge s (len text)).
  set (s1 := scanLayer (charge s (len text)) text) in *.
  assert (0 <= remaining s -> 0 <= remaining s1 <= remaining s) as Hrem by (pose proof (len_nonneg text); subst s1; simpl; lia).
  case_bool_decide as Ed.
  - exists s1, true. split_and!; [done| |done|].
    + eapply scanned_weaken; [|exact Hsc]. intros k Hk. exists text. split; [by left|done].
    + intros _ k o Ho (layer & [->|?%elem_of_nil]%elem_of_cons & Hc); [|done]. by apply Hfind.
  - pose proof (decoded_shorter _ Ed) as Hlt. assert (scanned s s1 (fun k => contains k (keyLetters text))) as Hsc1 by exact Hsc.
    destruct Hsc as (L1 & L2 & L3 & L4 & L5).
    destruct (IH s1 (decodeCompatibleEscapes text) L3 ltac:(lia)) as (s' & ok & E & Hsc' & Hrem' & Hfind').
    exists s', ok. split_and!; [done| |intros H; specialize (Hrem H); destruct Hrem as [H0 H1]; specialize (Hrem' H0); lia|].
    + eapply scanned_weaken; [|exact (scanned_trans _ _ _ _ _ Hsc1 Hsc')].
      intros k [Hk|(layer & Hin & Hc)]; [exists text|exists layer]; (split; [|done]); [by left|by right].
    + intros Hok k o Ho (layer & [->|Hin]%elem_of_cons & Hc).
      * destruct Hsc' as (_ & _ & _ & Hmon & _). eapply lookup_weaken; [|exact Hmon]. by apply Hfind.
      * apply (Hfind' Hok); [by rewrite L1|by exists layer].
Qed.

Lemma inspect_spec s text : scanning s ->
  exists s' ok, inspect s text = Some (s', ok) /\ scanned s s' (exposes text) /\
    (0 <= remaining s -> 0 <= remaining s' <= remaining s) /\
    (ok = true -> forall k o, live s !! k = Some o -> exposes text k -> exposed s' !! k = Some o).
Proof.
  intros Hs. unfold inspect. destruct (keyLengths s) as [|l ls] eqn:El.
  - exists s, true. split_and!; [done|split_and!; [done|done|done|done|by left]|lia|].
    intros _ k o Ho _. pose proof (sc_len _ Hs _ _ Ho) as H. rewrite El in H. by apply elem_of_nil in H.
  - apply inspect_from_spec; [done|lia].
Qed.

Lemma inspect_all_spec texts : forall s, scanning s ->
  exists s' ok, inspect_all s texts = Some (s', ok) /\ scanned s s' (fun k => exists text, text ∈ texts /\ exposes text k) /\
    (0 <= remaining s -> 0 <= remaining s' <= remaining s) /\
    (ok = true -> forall text k o, text ∈ texts -> live s !! k = Some o -> exposes text k -> exposed s' !! k = Some o).
Proof.
  induction texts as [|text texts IH]; intros s Hs; cbn [inspect_all].
  { exists s, true. split_and!; [done|split_and!; [done|done|done|done|by left]|lia|by intros _ text k o ?%elem_of_nil]. }
  destruct (inspect_spec s text Hs) as (s1 & ok & -> & Hsc & Hrem & Hfind). destruct ok.
  - pose proof Hsc as (L1 & L2 & L3 & L4 & L5). destruct (IH s1 L3) as (s' & ok & E & Hsc' & Hrem' & Hfind').
    exists s', ok. split_and!; [done| |intros H; specialize (Hrem H); destruct Hrem as [H0 H1]; specialize (Hrem' H0); lia|].
    + eapply scanned_weaken; [|eapply scanned_trans; [exact Hsc|exact Hsc']].
      intros k [Hk|(t & Hin & Hk)]; [exists text|exists t]; (split; [|done]); [by left|by right].
    + intros Hok t k o [->|Hin]%elem_of_cons Ho Hk.
      * destruct Hsc' as (_ & _ & _ & Hmon & _). eapply lookup_weaken; [|exact Hmon]. by apply Hfind.
      * apply (Hfind' Hok t); [done|by rewrite L1|done].
  - exists s1, false. split_and!; [done| |done|done]. eapply scanned_weaken; [|exact Hsc]. intros k Hk. exists text. split; [by left|done].
Qed.

(** ** Where the live keys are *)

Definition message_place (i : nat) (m : Message) : list (Z * bytes) :=
  if bool_decide (fence m = []) then [] else [(Z.of_nat i, fence m)].
Definition advisory_place (a : option bytes) : list (Z * bytes) :=
  match a with Some id => if bool_decide (id = []) then [] else [(advisoryOwner, id)] | None => [] end.
Definition places (s : State) (a : option bytes) : list (Z * bytes) :=
  concat (imap message_place (Messages s)) ++ advisory_place a ++ map (pair systemOwner) (systemKeys s).

(** Every key has one owner. *)
Definition uniq (l : list (Z * bytes)) : Prop := forall o o' id, (o, id) ∈ l -> (o', id) ∈ l -> o = o'.

Definition live_of (m : gmap bytes Z) (l : list (Z * bytes)) : gmap bytes Z := foldl (fun m p => <[p.2 := p.1]> m) m l.

Lemma liveFenceKeys_places s a : liveFenceKeys s a = live_of ∅ (places s a).
Proof.
  unfold liveFenceKeys, places, live_of at 1. rewrite !foldl_app.
  assert (forall f (g : nat -> nat) (m : gmap bytes Z), (forall i, f i = message_place (g i)) ->
    foldl (fun live (p : Z * Message) => if bool_decide (fence p.2 = []) then live else <[fence p.2 := p.1]> live) m (imap (fun i x => (Z.of_nat (g i), x)) (Messages s)) =
    live_of m (concat (imap f (Messages s)))) as E.
  { induction (Messages s) as [|x ms IH]; intros f g m Hf; [done|]. simpl. rewrite Hf. unfold live_of. rewrite foldl_app. fold (live_of (foldl (fun m p => <[p.2 := p.1]> m) m (message_place (g 0%nat) x)) (concat (imap (f ∘ S) ms))).
    rewrite <- (IH (f ∘ S) (g ∘ S)) by (intros i; apply Hf). f_equal. unfold message_place. by case_bool_decide. }
  rewrite (E message_place id ∅) by done. clear E. fold (live_of ∅ (concat (imap message_place (Messages s)))).
  generalize (live_of ∅ (concat (imap message_place (Messages s)))). intros m.
  assert (forall m' : gmap bytes Z, foldl (fun live id => <[id := systemOwner]> live) m' (systemKeys s) =
    live_of m' (map (pair systemOwner) (systemKeys s))) as ->.
  { induction (systemKeys s) as [|k ks IH]; intros m'; [done|]. simpl. apply IH. }
  destruct a as [id|]; [|done]. simpl. by case_bool_decide.
Qed.

Lemma live_of_in l : forall m id o, live_of m l !! id = Some o -> (o, id) ∈ l \/ m !! id = Some o.
Proof.
  induction l as [|[o' k] l IH]; intros m id o; [by right|]. simpl. intros [?|H]%IH; [left; by right|].
  destruct (decide (k = id)) as [->|Hne]; [rewrite lookup_insert_eq in H; injection H as ->; left; by left|].
  rewrite lookup_insert_ne in H by done. by right.
Qed.

Lemma live_of_lookup l : forall m id o, uniq l -> (o, id) ∈ l -> live_of m l !! id = Some o.
Proof.
  induction l as [|[o' k] l IH] using rev_ind; intros m id o Hu Hin; [by apply elem_of_nil in Hin|].
  unfold live_of. rewrite foldl_app. simpl. destruct (decide (k = id)) as [->|Hne].
  - rewrite lookup_insert_eq. f_equal. apply (Hu _ _ id); [|done]. apply elem_of_app. right. by left.
  - rewrite lookup_insert_ne by done. apply IH.
    + intros o1 o2 x H1 H2. apply (Hu _ _ x); apply elem_of_app; by left.
    + apply elem_of_app in Hin as [?|[[= -> ->]|?%elem_of_nil]%elem_of_cons]; done.
Qed.

Lemma live_places s a id o : uniq (places s a) -> liveFenceKeys s a !! id = Some o <-> (o, id) ∈ places s a.
Proof.
  intros Hu. rewrite liveFenceKeys_places. split; [|by apply live_of_lookup].
  intros [?|H]%live_of_in; [done|]. by rewrite lookup_empty in H.
Qed.

Lemma newFenceScan_scanning s a : scanning (newFenceScan s a).
Proof.
  split; [apply map_empty_subseteq|]. intros k o Hk. cbn in *. apply elem_of_remove_dups, list_elem_of_fmap.
  exists (k, o). split; [done|]. by apply elem_of_map_to_list.
Qed.

(** *** Rotating one key *)

Lemma in_message_places o id ms : (o, id) ∈ concat (imap message_place ms) <->
  exists i m, ms !! i = Some m /\ o = Z.of_nat i /\ fence m = id /\ id <> [].
Proof.
  rewrite list_elem_of_In, in_concat. split.
  - intros (l & Hl & Hin). apply list_elem_of_In, elem_of_lookup_imap in Hl as (i & m & -> & Hm).
    unfold message_place in Hin. case_bool_decide as E; [done|]. destruct Hin as [[= <- <-]|[]]. by exists i, m.
  - intros (i & m & Hm & -> & <- & Hne). exists (message_place i m). split.
    + apply list_elem_of_In, elem_of_lookup_imap. by exists i, m.
    + unfold message_place. rewrite bool_decide_false by done. by left.
Qed.

Lemma in_places o x s a : (o, x) ∈ places s a <->
  (exists i m, Messages s !! i = Some m /\ o = Z.of_nat i /\ fence m = x /\ x <> []) \/
  (o = advisoryOwner /\ a = Some x /\ x <> []) \/ (o = systemOwner /\ x ∈ systemKeys s).
Proof.
  unfold places. rewrite !elem_of_app, in_message_places. f_equiv. f_equiv.
  - destruct a as [id|]; simpl; [|split; [by intros ?%elem_of_nil|naive_solver]]. case_bool_decide as E.
    + split; [by intros ?%elem_of_nil|]. intros (_ & [= ->] & ?). done.
    + rewrite list_elem_of_singleton. split; [by intros [= -> ->]|]. by intros (-> & [= ->] & _).
  - rewrite list_elem_of_fmap. split; [by intros (y & [= -> ->] & ?)|]. intros [-> ?]. by exists x.
Qed.

Section Rotation.
Context (rand_Text : nat -> bytes) (order : gmap bytes Z -> list (bytes * Z)) (Horder : forall m, order m ≡ₚ map_to_list m).
#[local] Notation New := (New rand_Text).

Definition places_of (kr : keyring) : list (Z * bytes) := places (st kr) (advisory kr).

Lemma rotate_in kr id owner : uniq (places_of kr) -> (owner, id) ∈ places_of kr -> New (draws kr) <> [] ->
  forall o x, (o, x) ∈ places_of (rotateFenceKey rand_Text kr id owner) <->
    ((o, x) ∈ places_of kr /\ x <> id) \/ (o = owner /\ x = New (draws kr)).
Proof.
  intros Hu Hin Hne o x. unfold places_of in *. set (fresh := New (draws kr)) in *. unfold rotateFenceKey. fold fresh.
  assert (forall o', (o', id) ∈ places (st kr) (advisory kr) -> o' = owner) as Hown by (intros o' H; by apply (Hu _ _ id)).
  pose proof Hin as Hin'. apply in_places in Hin' as [(i & m & Hm & Ho & Hf & Hx)|[(Ho & Ha & Hx)|[Ho Hk]]].
  - assert ((owner =? advisoryOwner) = false /\ (owner =? systemOwner) = false) as [-> ->] by (unfold advisoryOwner, systemOwner; split; apply Z.eqb_neq; lia).
    cbn [st advisory]. rewrite !in_places. cbn [set_messages Messages systemKeys]. subst owner. rewrite Nat2Z.id. split.
    + intros [(j & m' & Hm' & -> & <- & Hx')|H].
      * destruct (decide (j = i)) as [->|Hj].
        -- rewrite list_lookup_alter_eq, Hm in Hm'. injection Hm' as <-. by right.
        -- rewrite list_lookup_alter_ne in Hm' by done. left. split; [by left; exists j, m'|]. intros E.
           apply Hj. assert (Z.of_nat j = Z.of_nat i) by (apply Hown, in_places; left; by exists j, m'). lia.
      * left. split; [by right|]. intros ->. apply in_places in Hin as _. assert (o = Z.of_nat i) as -> by (apply Hown, in_places; by right).
        unfold advisoryOwner, systemOwner in H. destruct H as [(H & _)|(H & _)]; lia.
    + intros [[[(j & m' & Hm' & -> & <- & Hx')|H] Hne']|[-> ->]].
      * left. exists j, m'. rewrite list_lookup_alter_ne; [done|]. intros <-. rewrite Hm in Hm'. by injection Hm' as <-.
      * by right.
      * left. exists i, (set_fence m fresh). by rewrite list_lookup_alter_eq, Hm.
  - subst owner. rewrite Z.eqb_refl. cbn [st advisory]. rewrite !in_places. split.
    + intros [H|[(-> & [= <-] & _)|H]]; [left|by right|left]; (split; [by tauto|]); intros ->;
        assert (o = advisoryOwner) as -> by (apply Hown, in_places; tauto); unfold advisoryOwner, systemOwner in H; [destruct H as (j & _ & _ & H & _)|destruct H as [H _]]; lia.
    + intros [[[H|[(-> & Ea & Hx')|H]] Hne']|[-> ->]]; [by left|congruence|by right; right|right; left; by split_and!].
  - subst owner. change (systemOwner =? advisoryOwner) with false. rewrite Z.eqb_refl. cbn [st advisory]. rewrite !in_places. cbn [Messages systemKeys]. split.
    + intros [H|[H|[-> H]]]; [left|left|].
      * split; [by left|]. intros ->. assert (o = systemOwner) as -> by (apply Hown, in_places; tauto). unfold systemOwner in H. destruct H as (j & _ & _ & H & _). lia.
      * split; [by right; left|]. intros ->. assert (o = systemOwner) as -> by (apply Hown, in_places; tauto). by destruct H as [H _].
      * apply list_elem_of_fmap in H as (y & -> & Hy). case_bool_decide; [by right|left]. split; [by right; right|done].
    + intros [[[H|[H|[-> H]]] Hne']|[-> ->]]; [by left|by right; left|..]; right; right; (split; [done|]); apply list_elem_of_fmap.
      * exists x. by rewrite bool_decide_false.
      * exists id. by rewrite bool_decide_true.
Qed.

(** The keys still to be drawn, up to [hi], differ from each other and from the
    live ones. *)
Record fresh (hi : nat) (kr : keyring) : Prop := {
  fr_ne n : (draws kr <= n < hi)%nat -> New n <> [];
  fr_inj n k : (draws kr <= n < hi)%nat -> (draws kr <= k < hi)%nat -> New n = New k -> n = k;
  fr_out n o : (draws kr <= n < hi)%nat -> (o, New n) ∉ places_of kr
}.

(** The same message under a key again. *)
Definition refenced (m m' : Message) : Prop := m' = set_fence m (fence m') /\ (fence m <> [] -> fence m' <> []).

Lemma refenced_refl ms : Forall2 refenced ms ms.
Proof. apply Forall_Forall2_diag, Forall_forall. intros m _. split; [by destruct m|done]. Qed.

Lemma refenced_trans ms1 ms2 ms3 : Forall2 refenced ms1 ms2 -> Forall2 refenced ms2 ms3 -> Forall2 refenced ms1 ms3.
Proof.
  intros H. revert ms3. induction H as [|m1 m2 ms1 ms2 [E1 N1] _ IH]; intros ms3 H; inversion H as [|? m3 ? ms3' [E2 N2]]; subst; constructor; [|by apply IH].
  split; [|by auto]. rewrite E2 at 1. by rewrite E1 at 1.
Qed.

Lemma rotate_refenced kr id owner : New (draws kr) <> [] ->
  Forall2 refenced (Messages (st kr)) (Messages (st (rotateFenceKey rand_Text kr id owner))) /\
  draws (rotateFenceKey rand_Text kr id owner) = S (draws kr).
Proof.
  intros Hne. unfold rotateFenceKey. destruct (_ =? _); [split; [apply refenced_refl|done]|].
  destruct (_ =? _); [split; [apply refenced_refl|done]|]. split; [|done]. cbn [st set_messages Messages].
  generalize (Z.to_nat owner). induction (Messages (st kr)) as [|m ms IH]; intros [|i]; simpl; [done|done|..]; constructor; try done.
  - apply refenced_refl.
  - split; [by destruct m|done].
  - apply IH.
Qed.

Lemma rotate_fresh hi kr id owner : uniq (places_of kr) -> (owner, id) ∈ places_of kr -> (draws kr < hi)%nat -> fresh hi kr ->
  uniq (places_of (rotateFenceKey rand_Text kr id owner)) /\ fresh hi (rotateFenceKey rand_Text kr id owner).
Proof.
  intros Hu Hin Hhi [Hne Hinj Hout]. pose proof (rotate_in kr id owner Hu Hin (Hne (draws kr) ltac:(lia))) as Hr.
  destruct (rotate_refenced kr id owner (Hne (draws kr) ltac:(lia))) as [_ Hd]. split.
  - intros o o' x [[H1 _]|[-> ->]]%Hr [[H2 _]|[-> E]]%Hr; [by apply (Hu _ _ x)|..|done].
    + subst x. exfalso. refine (Hout _ _ _ H1). lia.
    + exfalso. refine (Hout _ _ _ H2). lia.
  - split; rewrite Hd.
    + intros n Hn. apply Hne. lia.
    + intros n k Hn Hk. apply Hinj; lia.
    + intros n o Hn [[H _]|[-> E]]%Hr; [revert H; by apply Hout; lia|]. apply Hinj in E; lia.
Qed.

Lemma rotate_list hi ps : forall kr, NoDup (map fst ps) -> (forall id o, (id, o) ∈ ps -> (o, id) ∈ places_of kr) ->
  uniq (places_of kr) -> (draws kr + length ps <= hi)%nat -> fresh hi kr ->
  let kr' := foldl (fun kr p => rotateFenceKey rand_Text kr p.1 p.2) kr ps in
  draws kr' = (draws kr + length ps)%nat /\ uniq (places_of kr') /\ fresh hi kr' /\
  Forall2 refenced (Messages (st kr)) (Messages (st kr')) /\
  (forall o x, (o, x) ∈ places_of kr' -> ((o, x) ∈ places_of kr /\ x ∉ map fst ps) \/
     exists n, (draws kr <= n < draws kr')%nat /\ x = New n) /\
  (forall o x, (o, x) ∈ places_of kr -> x ∉ map fst ps -> (o, x) ∈ places_of kr').
Proof.
  induction ps as [|[id owner] ps IH]; intros kr Hnd Hps Hu Hhi Hf; cbn zeta; simpl; simpl in Hhi.
  { split_and!; [lia|done|done|apply refenced_refl| |done]. intros o x H. left. split; [done|by intros ?%elem_of_nil]. }
  apply NoDup_cons in Hnd as [Hid Hnd]. assert ((owner, id) ∈ places_of kr) as Hin by (apply Hps; by left).
  destruct (rotate_fresh hi kr id owner Hu Hin ltac:(lia) Hf) as [Hu1 Hf1]. pose proof (fr_ne _ _ Hf (draws kr) ltac:(lia)) as Hne.
  pose proof (rotate_in kr id owner Hu Hin Hne) as Hr. destruct (rotate_refenced kr id owner Hne) as [Href Hd].
  set (kr1 := rotateFenceKey rand_Text kr id owner) in *.
  destruct (IH kr1 Hnd) as (I1 & I2 & I3 & I4 & I5 & I6); [|done|lia|done|].
  { intros id' o' Hin'. apply Hr. left. split; [apply Hps; by right|]. intros ->. apply Hid. apply list_elem_of_fmap. by exists (id, o'). }
  set (kr' := foldl _ kr1 ps) in *. split_and!; [lia|done|done|by eapply refenced_trans| |].
  - intros o x [[H Hx]|(n & Hn & ->)]%I5; [|right; exists n; split; [lia|done]].
    apply Hr in H as [[H Hxid]|[-> ->]].
    + left. split; [done|]. by intros [?|?]%elem_of_cons.
    + right. exists (draws kr). split; [lia|done].
  - intros o x H Hx. rewrite not_elem_of_cons in Hx. destruct Hx as [Hx1 Hx2]. apply I6; [|done]. apply Hr. by left.
Qed.

(** *** Minting *)

Definition unkeyed (m : Message) : bool := bool_decide (m_Role m = tool) && bool_decide (fence m = []).
Definition minted_before (i : nat) (ms : list Message) : nat := length (List.filter unkeyed (take i ms)).

Lemma mint_list_spec ms : forall n, mint_list rand_Text ms n =
  (imap (fun i m => if unkeyed m then set_fence m (New (n + minted_before i ms)) else m) ms, (n + minted_before (length ms) ms)%nat).
Proof.
  induction ms as [|m ms IH]; intros n; [cbn; by rewrite Nat.add_0_r|]. cbn [mint_list]. fold (unkeyed m).
  unfold minted_before. cbn [length take imap List.filter]. destruct (unkeyed m) eqn:E; rewrite IH; f_equal.
  - cbn [length]. rewrite Nat.add_0_r. f_equal. apply imap_ext. intros i x _. cbn [compose take List.filter]. rewrite E. cbn [length].
    unfold minted_before. by rewrite Nat.add_succ_comm.
  - cbn [length]. unfold minted_before. by rewrite Nat.add_succ_comm.
  - f_equal. apply imap_ext. intros i x _. cbn [compose take List.filter]. by rewrite E.
Qed.

Lemma minted_before_lt i j ms m : (i < j)%nat -> ms !! i = Some m -> unkeyed m = true -> (minted_before i ms < minted_before j ms)%nat.
Proof.
  intros Hij Hm Hk. unfold minted_before. rewrite <- (take_drop (S i) (take j ms)), take_take, Nat.min_l by lia.
  rewrite (take_S_r _ _ _ Hm), !List.filter_app, !length_app. simpl. rewrite Hk. simpl. lia.
Qed.

(** The message at [i] after minting from index [from] on. *)
Definition minted_at (kr : keyring) (from i : nat) (m : Message) : Message :=
  if (from <=? i)%nat && unkeyed m then set_fence m (New (draws kr + minted_before (i - from) (drop from (Messages (st kr))))) else m.

Lemma mint_lookup kr from i :
  Messages (st (mintFenceKeys rand_Text kr from).1) !! i = minted_at kr from i <$> Messages (st kr) !! i.
Proof.
  unfold mintFenceKeys. rewrite mint_list_spec. cbn [fst st set_messages Messages]. unfold minted_at.
  destruct (Nat.leb_spec from i) as [Hi|Hi]; cbn [andb].
  - destruct (decide (from <= length (Messages (st kr)))%nat) as [Hl|Hl].
    + rewrite lookup_app_r; rewrite length_take, Nat.min_l by lia; [|lia]. rewrite list_lookup_imap, lookup_drop.
      replace (from + (i - from))%nat with i by lia. done.
    + rewrite drop_ge, take_ge by lia. simpl. rewrite app_nil_r, (lookup_ge_None_2 (Messages (st kr)) i) by lia. done.
  - destruct (decide (i < length (Messages (st kr)))%nat) as [Hl|Hl].
    + rewrite lookup_app_l by (rewrite length_take; lia). rewrite lookup_take_lt by done. by destruct (Messages (st kr) !! i).
    + rewrite (lookup_ge_None_2 (Messages (st kr)) i) by lia. apply lookup_ge_None. rewrite length_app, length_take, length_imap, length_drop. lia.
Qed.

Definition mint_count (kr : keyring) (from i : nat) : nat := minted_before (i - from) (drop from (Messages (st kr))).
Definition mint_key (kr : keyring) (from i : nat) : bytes := New (draws kr + mint_count kr from i).

Lemma mint_count_le kr from i : (mint_count kr from i <= length (Messages (st kr)))%nat.
Proof.
  unfold mint_count, minted_before. pose proof (List.filter_length_le unkeyed (take (i - from) (drop from (Messages (st kr))))) as H.
  rewrite length_take, length_drop in H. lia.
Qed.

Lemma mint_count_lt kr from i j m : (from <= i < j)%nat -> Messages (st kr) !! i = Some m -> unkeyed m = true ->
  (mint_count kr from i < mint_count kr from j)%nat.
Proof.
  intros Hij Hm Hk. apply (minted_before_lt _ _ _ m); [lia| |done]. rewrite lookup_drop.
  by replace (from + (i - from))%nat with i by lia.
Qed.

Lemma mint_frame kr from : let kr' := (mintFenceKeys rand_Text kr from).1 in
  advisory kr' = advisory kr /\ systemKeys (st kr') = systemKeys (st kr) /\
  (mintFenceKeys rand_Text kr from).2 = length (Messages (st kr)) /\
  draws kr' = (draws kr + minted_before (length (drop from (Messages (st kr)))) (drop from (Messages (st kr))))%nat.
Proof. unfold mintFenceKeys. by rewrite mint_list_spec. Qed.

Lemma mint_draws kr from : draws (mintFenceKeys rand_Text kr from).1 = (draws kr + mint_count kr from (from + length (drop from (Messages (st kr)))))%nat.
Proof. destruct (mint_frame kr from) as (_ & _ & _ & ->). unfold mint_count. do 2 f_equal. lia. Qed.

Lemma minted_at_fence kr from i m : fence (minted_at kr from i m) = fence m \/
  ((from <= i)%nat /\ unkeyed m = true /\ fence (minted_at kr from i m) = mint_key kr from i).
Proof.
  unfold minted_at. destruct (_ && _) eqn:E; [right|by left]. apply andb_true_iff in E as [E1 E]. apply Nat.leb_le in E1. by split_and!.
Qed.

(** Old keys stay, and what is new is the key of a message that had none. *)
Lemma mint_places kr from o x : (o, x) ∈ places_of (mintFenceKeys rand_Text kr from).1 ->
  (o, x) ∈ places_of kr \/ exists i m, Messages (st kr) !! i = Some m /\ (from <= i)%nat /\ unkeyed m = true /\
    o = Z.of_nat i /\ x = mint_key kr from i.
Proof.
  destruct (mint_frame kr from) as (Ea & Es & _).
  intros [(i & m' & Hm' & -> & <- & Hx)|H]%in_places; [|left; apply in_places; right; by rewrite <- Ea, <- Es].
  rewrite mint_lookup in Hm'. destruct (Messages (st kr) !! i) as [m|] eqn:Hm; [|done]. injection Hm' as <-.
  destruct (minted_at_fence kr from i m) as [E|(E1 & E2 & E3)]; [left|right; by exists i, m].
  apply in_places. left. exists i, m. rewrite E in *. by split_and!.
Qed.

Lemma mint_keeps kr from o x : (o, x) ∈ places_of kr -> (o, x) ∈ places_of (mintFenceKeys rand_Text kr from).1.
Proof.
  destruct (mint_frame kr from) as (Ea & Es & _).
  intros [(i & m & Hm & -> & <- & Hx)|H]%in_places; apply in_places; [left|right; by rewrite Ea, Es].
  exists i, (minted_at kr from i m). rewrite mint_lookup, Hm. destruct (minted_at_fence kr from i m) as [E|(_ & E & _)]; [by rewrite E|].
  unfold unkeyed in E. to_prop. tauto.
Qed.

Lemma mint_refenced kr from : Forall2 refenced (Messages (st kr)) (Messages (st (mintFenceKeys rand_Text kr from).1)).
Proof.
  apply Forall2_lookup. intros i. rewrite mint_lookup. destruct (Messages (st kr) !! i) as [m|]; constructor.
  split; [unfold minted_at; by destruct (_ && _), m|]. intros Hf. destruct (minted_at_fence kr from i m) as [->|(_ & E & _)]; [done|].
  unfold unkeyed in E. to_prop. tauto.
Qed.

Lemma mint_fresh hi kr from : uniq (places_of kr) -> fresh hi kr -> (draws kr + length (Messages (st kr)) <= hi)%nat ->
  uniq (places_of (mintFenceKeys rand_Text kr from).1) /\ fresh hi (mintFenceKeys rand_Text kr from).1.
Proof.
  intros Hu [Hne Hinj Hout] Hhi.
  assert (forall i j m, (from <= i < j)%nat -> Messages (st kr) !! i = Some m -> unkeyed m = true -> (draws kr + mint_count kr from i < hi)%nat /\
    forall n, (draws kr + mint_count kr from j <= n < hi)%nat -> mint_key kr from i <> New n) as Hkey.
  { intros i j m Hij Hm Hk. pose proof (mint_count_lt kr from i j m Hij Hm Hk). pose proof (mint_count_le kr from j).
    split; [lia|]. intros n Hn E. apply Hinj in E; lia. }
  assert (forall i m, (from <= i)%nat -> Messages (st kr) !! i = Some m -> unkeyed m = true -> forall o, (o, mint_key kr from i) ∉ places_of kr) as Hno.
  { intros i m Hi Hm Hk o. apply Hout. destruct (Hkey i (S i) m ltac:(lia) Hm Hk). lia. }
  split.
  - intros o o' x [H1|(i & m & Hm & Hi & Hk & -> & ->)]%mint_places [H2|(j & m' & Hm' & Hj & Hk' & -> & E)]%mint_places.
    + by apply (Hu _ _ x).
    + subst x. by apply (Hno _ _ Hj Hm' Hk') in H1.
    + by apply (Hno _ _ Hi Hm Hk) in H2.
    + destruct (Nat.lt_trichotomy i j) as [H|[->|H]]; [|done|]; exfalso.
      * destruct (Hkey i j m ltac:(lia) Hm Hk) as [_ Hd]. apply (Hd (draws kr + mint_count kr from j)%nat ltac:(pose proof (Hkey j (S j) m' ltac:(lia) Hm' Hk') as [? _]; lia) E).
      * destruct (Hkey j i m' ltac:(lia) Hm' Hk') as [_ Hd]. symmetry in E. apply (Hd (draws kr + mint_count kr from i)%nat ltac:(pose proof (Hkey i (S i) m ltac:(lia) Hm Hk) as [? _]; lia) E).
  - pose proof (mint_draws kr from) as Ed. split; [intros n Hn; apply Hne; lia|intros n k Hn Hk; apply Hinj; lia|].
    intros n o Hn [H|(i & m & Hm & Hi & Hk & -> & E)]%mint_places; [revert H; apply Hout; lia|].
    pose proof (lookup_lt_Some _ _ _ Hm) as Hlt. symmetry in E. revert E.
    apply (Hkey i (from + length (drop from (Messages (st kr))))%nat m); [rewrite length_drop; lia|done..|lia].
Qed.

Lemma mint_keyed hi kr from i m : fresh hi kr -> (draws kr + length (Messages (st kr)) <= hi)%nat -> (from <= i)%nat ->
  Messages (st (mintFenceKeys rand_Text kr from).1) !! i = Some m -> m_Role m = tool -> fence m <> [].
Proof.
  intros Hf Hhi Hi Hm' Hr E. rewrite mint_lookup in Hm'. destruct (Messages (st kr) !! i) as [m0|] eqn:Hm; [|done]. injection Hm' as <-.
  pose proof (mint_count_le kr from (S i)) as Hle. pose proof (mint_count_lt kr from i (S i) m0 ltac:(lia) Hm) as Hlt.
  unfold minted_at in *. apply Nat.leb_le in Hi. rewrite Hi in *. cbn [andb] in *. destruct (unkeyed m0) eqn:Ek.
  - specialize (Hlt eq_refl). cbn in E. revert E. apply (fr_ne _ _ Hf). unfold mint_count in *. lia.
  - unfold unkeyed in Ek. rewrite Hr, E, !bool_decide_true in Ek by done. done.
Qed.

(** *** A whole refresh *)

Lemma insert_all ps : forall ex : gmap bytes Z, NoDup (map fst ps) ->
  let ex' := foldl (fun ex p => if bool_decide (p.2 ∈ @nil Z) then delete p.1 ex else <[p.1 := p.2]> ex) ex ps in
  (forall k o, (k, o) ∈ ps -> ex' !! k = Some o) /\ (forall k, k ∉ map fst ps -> ex' !! k = ex !! k).
Proof.
  induction ps as [|[k0 o0] ps IH]; intros ex Hnd; cbn zeta; simpl; [by split; [intros k o ?%elem_of_nil|]|].
  apply NoDup_cons in Hnd as [Hk0 Hnd]. destruct (IH (<[k0 := o0]> ex) Hnd) as [H1 H2]. split.
  - intros k o [[= -> ->]|Hin]%elem_of_cons; [|by apply H1]. rewrite H2 by done. by rewrite lookup_insert_eq.
  - intros k Hk. rewrite not_elem_of_cons in Hk. rewrite H2 by tauto. rewrite lookup_insert_ne; [done|]. intros ->. tauto.
Qed.

Lemma order_elem m k o : (k, o) ∈ order m <-> m !! k = Some o.
Proof. rewrite (Horder m). apply elem_of_map_to_list. Qed.

Lemma order_nodup m : NoDup (map fst (order m)).
Proof. rewrite (Horder m). apply NoDup_fst_map_to_list. Qed.

Lemma order_fst m k : k ∈ map fst (order m) <-> is_Some (m !! k).
Proof.
  rewrite list_elem_of_fmap. split; [intros ([k' o] & -> & H%order_elem); by exists o|].
  intros [o H]. exists (k, o). split; [done|]. by apply order_elem.
Qed.

Lemma expose_all_spec s : exposed s ⊆ live s -> exposed (expose_all order s []) = live s.
Proof.
  intros Hs. unfold expose_all. cbn [exposed]. destruct (insert_all (order (live s)) (exposed s) (order_nodup _)) as [H1 H2].
  apply map_eq. intros k. destruct (live s !! k) as [o|] eqn:E; [by apply H1, order_elem|].
  rewrite H2 by (rewrite order_fst, E; by intros []). destruct (exposed s !! k) as [o|] eqn:E'; [|done].
  rewrite (lookup_weaken _ _ _ _ E' Hs) in E. done.
Qed.

(** The keys a refresh replaces, and why. *)
Lemma scan_result kr texts : uniq (places_of kr) ->
  exists scan ok, inspect_all (newFenceScan (st kr) (advisory kr)) texts = Some (scan, ok) /\
    let gone := exposed (if ok then scan else expose_all order scan []) in
    (forall k o, gone !! k = Some o -> (o, k) ∈ places_of kr) /\
    (forall text k o, text ∈ texts -> (o, k) ∈ places_of kr -> exposes text k -> is_Some (gone !! k)) /\
    (ok = true -> forall k, is_Some (gone !! k) -> exists text, text ∈ texts /\ exposes text k) /\
    (ok = false -> forall o k, (o, k) ∈ places_of kr -> is_Some (gone !! k)).
Proof.
  intros Hu. destruct (inspect_all_spec texts _ (newFenceScan_scanning (st kr) (advisory kr))) as (scan & ok & E & Hsc & _ & Hfind).
  exists scan, ok. split; [done|]. destruct Hsc as (L1 & _ & [L3 _] & _ & L5). cbn zeta.
  assert (forall k o, live scan !! k = Some o <-> (o, k) ∈ places_of kr) as Hlive by (intros k o; rewrite L1; by apply live_places).
  destruct ok; [|rewrite (expose_all_spec _ L3)]; split_and!; try done.
  - intros k o Hk. apply Hlive. by eapply lookup_weaken.
  - intros text k o Ht Hk He. exists o. apply (Hfind eq_refl text); [done| |done]. rewrite <- L1. by apply Hlive.
  - intros _ k [Hk|Hk]%L5; [|done]. cbn in Hk. rewrite lookup_empty in Hk. by destruct Hk.
  - intros k o Hk. by apply Hlive.
  - intros text k o _ Hk _. exists o. by apply Hlive.
  - intros _ o k Hk. exists o. by apply Hlive.
Qed.
End Rotation.

Lemma order_count ps (l : list (Z * bytes)) : NoDup (map fst ps) -> (forall (id : bytes) (o : Z), (id, o) ∈ ps -> (o, id) ∈ l) -> (length ps <= length l)%nat.
Proof.
  intros Hnd Hps. rewrite <- (length_map fst ps), <- (length_map snd l). apply List.NoDup_incl_length; [by apply NoDup_ListNoDup|].
  intros id Hin. apply list_elem_of_In, list_elem_of_fmap in Hin as ([id' o] & -> & H). apply list_elem_of_In, list_elem_of_fmap.
  exists (o, id'). split; [done|]. by apply Hps.
Qed.

(** ** Properties *)

(** The texts a refresh looks at. *)
Definition joined_texts (kr : keyring) (from : nat) (pinned : list bytes) : list bytes :=
  pinned ++ concat (map replayedTexts (drop from (Messages (st kr)))).

(** C29: if no live key could be read in the texts looked at before ([old]) and
    the keys to be drawn next, as many as can be needed, are fresh and occur
    nowhere yet, a refresh always answers, and after it no live key can be
    read ([readable], a reader of its own: any letter case, fullwidth or other
    compatible letters, other characters in between, behind any layers of
    escapes) in any text of the run, old or new; every tool message that joined
    has a key, keys keep one owner each and messages keep their text.  Unless the
    work limit is reached, when every key is replaced, a key that cannot be read
    in any new text is kept. *)
Theorem fence_keys_hidden (rand_Text : nat -> bytes) (order : gmap bytes Z -> list (bytes * Z)) hi kr from pinned old
    (Horder : forall m, order m ≡ₚ map_to_list m) :
  uniq (places_of kr) -> fresh rand_Text hi kr ->
  (draws kr + length (places_of kr) + length (Messages (st kr)) <= hi)%nat ->
  (forall text o k, text ∈ old -> (o, k) ∈ places_of kr -> ~ readable text k) ->
  (forall text n, text ∈ old ++ joined_texts kr from pinned -> (draws kr <= n < hi)%nat -> ~ readable text (New rand_Text n)) ->
  exists r, refreshFenceKeys rand_Text order kr from pinned = Some r /\
    next r = length (Messages (st kr)) /\
    (forall text o k, text ∈ old ++ joined_texts kr from pinned -> (o, k) ∈ places_of (r_keys r) -> ~ readable text k) /\
    (forall i m, (from <= i)%nat -> Messages (st (r_keys r)) !! i = Some m -> m_Role m = tool -> fence m <> []) /\
    uniq (places_of (r_keys r)) /\ fresh rand_Text hi (r_keys r) /\ Forall2 refenced (Messages (st kr)) (Messages (st (r_keys r))) /\
    (limited r = false -> forall o k, (o, k) ∈ places_of kr ->
       (forall text, text ∈ joined_texts kr from pinned -> ~ readable text k) -> (o, k) ∈ places_of (r_keys r)) /\
    (limited r = true -> forall o k, (o, k) ∈ places_of kr -> (o, k) ∉ places_of (r_keys r)).
Proof.
  setoid_rewrite <-exposes_readable. intros Hu Hf Hhi Hold Hung. unfold refreshFenceKeys. fold (joined_texts kr from pinned).
  destruct (scan_result order Horder kr (joined_texts kr from pinned) Hu) as (scan & ok & -> & Hgone & Hexp & Hwhy & Hlim).
  set (scan' := if ok then scan else expose_all order scan []) in *. unfold rotate.
  assert (forall id o, (id, o) ∈ order (exposed scan') -> (o, id) ∈ places_of kr) as Hps.
  { intros id o H. apply (order_elem order Horder) in H. by apply Hgone. }
  pose proof (order_count _ _ (order_nodup order Horder (exposed scan')) Hps) as Hcount.
  destruct (rotate_list rand_Text hi (order (exposed scan')) kr (order_nodup order Horder _) Hps Hu ltac:(lia) Hf) as (R1 & R2 & R3 & R4 & R5 & R6).
  set (kr1 := foldl _ kr (order (exposed scan'))) in *. pose proof (Forall2_length _ _ _ R4) as Hlen.
  destruct (mint_fresh rand_Text hi kr1 from R2 R3 ltac:(lia)) as [M2 M3]. destruct (mint_frame rand_Text kr1 from) as (_ & _ & M1 & _).
  pose proof (mint_refenced rand_Text kr1 from) as M4. pose proof (fun o x => mint_places rand_Text kr1 from o x) as M5.
  pose proof (fun o x => mint_keeps rand_Text kr1 from o x) as M6. pose proof (fun i m => mint_keyed rand_Text hi kr1 from i m R3 ltac:(lia)) as M7.
  pose proof (fun i => mint_count_le kr1 from i) as M8.
  destruct (mintFenceKeys rand_Text kr1 from) as [kr2 nx]. cbn [fst snd] in *.
  exists (mkRefreshed kr2 nx (len (order (exposed scan'))) (negb ok) (rotatedOwners order scan')). cbn [next r_keys limited].
  split_and!; [done|by rewrite M1, Hlen| |done|done|done|by eapply refenced_trans| |].
  - intros text o k Ht [H|(i & m & Hm & Hi & Hk & _ & ->)]%M5.
    + apply R5 in H as [[H Hno]|(n & Hn & ->)]; [|apply Hung; [done|lia]].
      apply elem_of_app in Ht as [Ht|Ht]; [by apply (Hold text o)|]. intros He. apply Hno, (order_fst order Horder). by eapply Hexp.
    + apply Hung; [done|]. pose proof (mint_count_lt kr1 from i (S i) m ltac:(lia) Hm Hk). specialize (M8 (S i)). lia.
  - intros Hl o k Hk Hnot. apply M6, R6; [done|]. intros Hin%(order_fst order Horder). apply negb_false_iff in Hl.
    destruct (Hwhy Hl k Hin) as (text & Ht & He). by apply (Hnot text).
  - intros Hl o k Hk. apply negb_true_iff in Hl. intros [[[_ Hno]|(n & Hn & ->)]%R5|(i & m & Hm & Hi & Hkm & _ & ->)]%M5.
    + apply Hno, (order_fst order Horder). by eapply Hlim.
    + revert Hk. apply (fr_out _ _ _ Hf). lia.
    + pose proof (mint_count_lt kr1 from i (S i) m ltac:(lia) Hm Hkm). specialize (M8 (S i)).
      revert Hk. apply (fr_out _ _ _ Hf). lia.
Qed.

(** the search of a text for live keys always ends: each layer of escapes
    is shorter than the one around it, so that as many layers as the text has
    bytes are enough; the bytes it looks at stay within the budget, and when
    it does not give up it finds exactly the keys some layer exposes. *)
Theorem key_scan_terminates s text : scanning s -> 0 <= remaining s ->
  exists s' ok, inspect s text = Some (s', ok) /\ 0 <= remaining s' <= remaining s /\ scanning s' /\
    (ok = true -> forall k o, live s !! k = Some o -> (exposed s' !! k = Some o <-> exposed s !! k = Some o \/ exposes text k)).
Proof.
  intros Hs Hr. destruct (inspect_spec s text Hs) as (s' & ok & E & (L1 & _ & L3 & L4 & L5) & Hrem & Hfind).
  exists s', ok. split_and!; [done|lia|lia|done|]. intros Hok k o Ho. split.
  - intros H. destruct (L5 k) as [[o' H']|H']; [by exists o| |by right]. left. rewrite H'. f_equal.
    pose proof (lookup_weaken _ _ _ _ H' (sc_sub _ Hs)). congruence.
  - intros [H|H]; [by eapply lookup_weaken|by apply Hfind].
Qed.

(** ** Witnesses *)

Lemma containsb_spec sub s : containsb s sub = true <-> contains sub s.
Proof.
  assert (forall s, bool_decide (take (length sub) s = sub) = true <-> exists r, s = sub ++ r) as Ht.
  { intros t. rewrite bool_decide_eq_true. split; [intros E; exists (drop (length sub) t); by rewrite <- E at 1; rewrite take_drop|].
    intros [r ->]. by rewrite take_app_length. }
  induction s as [|b s IH]; cbn [containsb]; rewrite orb_true_iff, Ht.
  - split; [|intros (a & r & E); left; exists r; by destruct a]. intros [[r E]|]; [|done]. by exists [], r.
  - rewrite contains_cons, IH. done.
Qed.

Definition exposesb (text key : bytes) : bool := existsb (fun layer => containsb (keyLetters layer) key) (layers text).

Lemma exposesb_spec text key : exposes text key -> exposesb text key = true.
Proof.
  intros (layer & Hl & Hc). apply existsb_exists. exists layer. split; [by apply list_elem_of_In|by apply containsb_spec].
Qed.

Definition demo_rand (n : nat) : bytes := lit "KEYKEYKEYKE" ++ [byte_of (65 + Z.of_nat n)] ++ lit "PADDING".
Definition demo_result : Message := mkMessage tool (lit "file contents") (lit "read_file") (lit "c1") [] None (New demo_rand 0).
(** The first result's key, in lower case, with an escape and a hyphen. *)
Definition demo_quote : Message := mkMessage (lit "assistant") (lit "k\u0045y-keykeykea") [] [] [] None [].
Definition demo_next : Message := mkMessage tool (lit "listing") (lit "glob") (lit "c2") [] None [].
Definition demo_keys : keyring := mkKeyring (mkState (lit "be brief") [demo_result; demo_quote; demo_next] []) None (Some []) 1.

Lemma demo_fresh : fresh demo_rand 9 demo_keys.
Proof.
  split.
  - done.
  - change (draws demo_keys) with 1%nat. intros n k Hn Hk E. assert (forallb (fun p => implb (bool_decide (New demo_rand p.1 = New demo_rand p.2)) (p.1 =? p.2)%nat) (list_prod (seq 1 8) (seq 1 8)) = true) as H
      by (by vm_compute). rewrite forallb_forall in H. specialize (H (n, k)). rewrite bool_decide_true in H by done.
    apply Nat.eqb_eq, H, in_prod; apply in_seq; lia.
  - change (draws demo_keys) with 1%nat. intros n o Hn Hin. assert (forallb (fun n => negb (bool_decide (New demo_rand n ∈ map snd (places_of demo_keys)))) (seq 1 8) = true) as H by (by vm_compute).
    rewrite forallb_forall in H. specialize (H n ltac:(apply in_seq; lia)). rewrite bool_decide_true in H; [done|]. apply list_elem_of_fmap. by exists (o, New demo_rand n).
Qed.

Lemma fence_keys_hidden_witness :
  exposesb (m_Content demo_quote) (fence demo_result) = true /\
  exists r, refreshFenceKeys demo_rand map_to_list demo_keys 1 [] = Some r /\
    next r = length (Messages (st demo_keys)) /\
    (forall text o k, text ∈ [] ++ joined_texts demo_keys 1 [] -> (o, k) ∈ places_of (r_keys r) -> ~ readable text k) /\
    (forall i m, (1 <= i)%nat -> Messages (st (r_keys r)) !! i = Some m -> m_Role m = tool -> fence m <> []) /\
    uniq (places_of (r_keys r)) /\ fresh demo_rand 9 (r_keys r) /\ Forall2 refenced (Messages (st demo_keys)) (Messages (st (r_keys r))) /\
    (limited r = false -> forall o k, (o, k) ∈ places_of demo_keys ->
       (forall text, text ∈ joined_texts demo_keys 1 [] -> ~ readable text k) -> (o, k) ∈ places_of (r_keys r)) /\
    (limited r = true -> forall o k, (o, k) ∈ places_of demo_keys -> (o, k) ∉ places_of (r_keys r)).
Proof.
  split; [by vm_compute|]. apply (fence_keys_hidden demo_rand map_to_list 9 demo_keys 1 [] []); [done| |exact demo_fresh|apply Nat.leb_le; by vm_compute| |].
  - assert (places_of demo_keys = [(0, New demo_rand 0)]) as -> by (by vm_compute).
    intros o o' id H1%list_elem_of_singleton H2%list_elem_of_singleton. congruence.
  - intros text o k Ht. by apply elem_of_nil in Ht.
  - change (draws demo_keys) with 1%nat. intros text n Ht Hn He. apply exposes_readable, exposesb_spec in He.
    assert (forallb (fun p => negb (exposesb p.1 (New demo_rand p.2))) (list_prod (joined_texts demo_keys 1 []) (seq 1 8)) = true) as H by (by vm_compute).
    rewrite forallb_forall in H. specialize (H (text, n) ltac:(apply in_prod; [by apply list_elem_of_In|apply in_seq; lia])).
    cbn [fst snd] in H. by rewrite He in H.
Defined.

Lemma key_scan_terminates_witness :
  let s := newFenceScan (st demo_keys) (advisory demo_keys) in
  exists s' ok, inspect s (m_Content demo_quote) = Some (s', ok) /\ 0 <= remaining s' <= remaining s /\ scanning s' /\
    (ok = true -> forall k o, live s !! k = Some o -> (exposed s' !! k = Some o <-> exposed s !! k = Some o \/ exposes (m_Content demo_quote) k)).
Proof. apply key_scan_terminates; [apply newFenceScan_scanning|vm_compute; discriminate]. Defined.
