(* ===== verification/Interception.v ===== *)
(** * Interception: the interceptor pipeline of a run (agent/interceptor.go, internal/promptfence/flatten.go)

    Interceptors look at what enters the state, at what the model answers and
    at each tool call, and report findings.  The pipeline stamps and bounds
    every finding, adds its risk to the run's score, publishes it, and turns
    the strongest verdict into a block.  An interceptor may keep state of its
    own: its answers depend on how many hook invocations the run has made. *)

From Stdlib Require Import Strings.Ascii.
From stdpp Require Import strings pretty.
From S2P Require Import Prelude GoString GoFloat Tokens Request RunBudget ContextSets Compactor Dispatch.

#[local] Open Scope Z_scope.

(** ** Data *)

Inductive Hook := HookInput | HookOutput | HookToolCall.

#[export] Instance Hook_eq_dec : EqDecision Hook.
Proof. solve_decision. Defined.

(** [Verdict] is a [uint8], with values outside the enumeration. *)
Definition VerdictAllow : Z := 0.
Definition VerdictTag : Z := 1.
Definition VerdictBlock : Z := 2.
Definition VerdictAbort : Z := 3.

Inductive TargetKind :=
| TargetNone | TargetSystem | TargetSummary | TargetMessage | TargetOutputContent | TargetOutputToolCall
| TargetToolCall | TargetAlternative | TargetInvalid (value : Z).

#[export] Instance TargetKind_eq_dec : EqDecision TargetKind.
Proof. solve_decision. Defined.

Record InspectedAlternative := mkInspectedAlternative { a_Group : Z; a_Alternative : Z; a_Content : string }.

Record InspectedMessage := mkInspectedMessage {
  im_StateIndex : Z; im_Role : string; im_Origin : Z; im_ToolName : string; im_ToolCallID : string; im_Content : string;
  Alternatives : list InspectedAlternative
}.

Record InputInspection := mkInputInspection {
  in_Step : Z; in_System : string; in_Summary : string; in_Messages : list InspectedMessage
}.

Record OutputInspection := mkOutputInspection {
  out_Step : Z; out_Content : string; out_Thinking : string; out_ToolCalls : list ToolCall
}.

Record ToolCallInspection := mkToolCallInspection { tci_Step : Z; tci_Call : ToolCall; tci_Effect : Effect }.

Record Finding := mkFinding {
  Interceptor : string; Rule : string; f_Verdict : Z; Risk : Z; Detail : string; f_Origin : Z; f_Hook : option Hook;
  f_Step : Z; Target : TargetKind; StateIndex : Z; f_ToolCallID : string; Group : Z; Alternative : Z
}.

(** The zero Finding. *)
Definition noFinding : Finding := mkFinding "" "" VerdictAllow 0 "" OriginUnknown None 0 TargetNone 0 "" 0 0.

Record RiskReport := mkRiskReport { Score : Z; Findings : list Finding; CurrentToolCallFindings : list Finding }.

Record BlockedError := mkBlockedError { be_Hook : Hook; be_Step : Z; be_Findings : list Finding; Sensitive : bool }.

(** An error of an interceptor or of the observer, as far as [errors.Is] and
    printing look into it. *)
Record foreignError := mkForeignError { err_text : string; is_canceled : bool; is_deadline : bool }.

(** What [errors.Join] collects; [[]] is nil. *)
Inductive failure :=
| HookFailed (name : string) (hook : Hook) (e : foreignError)
| ObserverFailed (e : foreignError)
| ErrDiagnosticsSuppressed
| Canceled
| DeadlineExceeded
| Blocked (b : BlockedError).

Record InterceptionEvent := mkInterceptionEvent {
  e_Step : Z; e_Hook : Hook; e_Verdict : Z; e_Findings : list Finding; e_Risk : RiskReport; e_ToolCallID : string
}.

Abbreviation answer := (list Finding * option foreignError)%type.

(** An interceptor resolved for a run ([namedInterceptor]); the number is that
    of hook invocations before. *)
Record namedInterceptor := mkNamedInterceptor {
  name : string;
  sensitive : option (string -> bool);
  InspectInput : nat -> InputInspection -> answer;
  InspectOutput : nat -> OutputInspection -> answer;
  InspectToolCall : nat -> ToolCallInspection -> answer
}.

(** [interceptorRun]; the observer's [OnInterception], if it takes any, and
    what was published to it so far are kept aside. *)
Record interceptorRun := mkRun {
  chain : list namedInterceptor;
  risk : RiskReport;
  current : list Finding;
  invocations : nat;
  published : list InterceptionEvent
}.

Definition newRun (chain : list namedInterceptor) : interceptorRun := mkRun chain (mkRiskReport 0 [] []) [] 0 [].

(** ** Bounded text *)

Definition maxFindingDetailBytes : nat := 256.
Definition maxRuleBytes : nat := 64.
Definition maxNameBytes : nat := 64.

Definition capBytes (s : string) (n : nat) : string :=
  if (String.length s <=? n)%nat then s else String.substring 0 (rune_end s n) s.

Definition code (c : ascii) : Z := Z.of_N (N_of_ascii c).

(** Carriage return, newline, vertical tab, form feed. *)
Definition ascii_break (c : ascii) : bool := (10 <=? code c) && (code c <=? 13).
Definition is_code (n : Z) (c : ascii) : bool := code c =? n.

(** [lineReplacer]: those four, U+0085, U+2028 and U+2029, each by one space. *)
Fixpoint FlattenLine (s : string) : string :=
  match s with
  | EmptyString => EmptyString
  | String c s1 =>
      if ascii_break c then String " " (FlattenLine s1)
      else
        match s1 with
        | String d s2 =>
            if is_code 194 c && is_code 133 d then String " " (FlattenLine s2)
            else match s2 with
                 | String e s3 =>
                     if is_code 226 c && is_code 128 d && (is_code 168 e || is_code 169 e) then String " " (FlattenLine s3)
                     else String c (FlattenLine s1)
                 | EmptyString => String c (FlattenLine s1)
                 end
        | EmptyString => String c (FlattenLine s1)
        end
  end.

Definition between (lo hi : Z) (c : ascii) : bool := (lo <=? code c) && (code c <=? hi).

(** a-z, A-Z, 0-9, underscore, dot, colon, dash *)
Definition name_char (c : ascii) : bool :=
  between 97 122 c || between 65 90 c || between 48 57 c || is_code 95 c || is_code 46 c || is_code 58 c || is_code 45 c.

Definition validName (s : string) : bool :=
  if bool_decide (s = EmptyString) || (maxNameBytes <? String.length s)%nat then false
  else forallb name_char (String.list_ascii_of_string s).

(** ** The chain *)

(** An installed interceptor: nil, or its name and, for a run-scoped one, what
    [ForRun] answers. *)
Record installed := mkInstalled {
  i_Name : string;
  i_self : namedInterceptor;
  (** an error, or the run's instance ([None] for nil), its name and its addendum *)
  ForRun : option (string -> result foreignError (option (string * namedInterceptor) * string))
}.

Inductive chainError :=
| ErrNilInterceptor (i : nat) | ErrEmptyName (i : nat) | ErrInvalidName (i : nat) | ErrDuplicateName (n : string)
| ErrForRun (n : string) (e : foreignError) | ErrNilInstance (n : string) | ErrRenamed (n n' : string).

Fixpoint validatedInterceptorNames_from (i : nat) (seen : list string) (ic : list (option installed)) :
    result chainError (list string) :=
  match ic with
  | [] => Ok []
  | it :: ic =>
      match it with
      | None => Err (ErrNilInterceptor i)
      | Some it =>
          let name := i_Name it in
          if bool_decide (name = EmptyString) then Err (ErrEmptyName i)
          else if negb (validName name) then Err (ErrInvalidName i)
          else if bool_decide (name ∈ seen) then Err (ErrDuplicateName name)
          else match validatedInterceptorNames_from (S i) (name :: seen) ic with
               | Err e => Err e
               | Ok names => Ok (name :: names)
               end
      end
  end.
Definition validatedInterceptorNames (ic : list (option installed)) : result chainError (list string) :=
  validatedInterceptorNames_from 0 [] ic.

Definition two_newlines : string := (newline ++ newline)%string.

(** The instance that runs, under the validated name. *)
Definition named (n : string) (ic : namedInterceptor) : namedInterceptor :=
  mkNamedInterceptor n (sensitive ic) (InspectInput ic) (InspectOutput ic) (InspectToolCall ic).

Fixpoint resolve_from (system : string) (ic : list (option installed)) (names : list string) (addenda : string) :
    result chainError (list namedInterceptor * string) :=
  match ic, names with
  | Some it :: ic, n :: names =>
      let go resolved addenda :=
        match resolve_from system ic names addenda with
        | Err e => Err e
        | Ok (out, addenda) => Ok (named n resolved :: out, addenda)
        end in
      match ForRun it with
      | None => go (i_self it) addenda
      | Some forRun =>
          match forRun system with
          | Err e => Err (ErrForRun n e)
          | Ok (None, _) => Err (ErrNilInstance n)
          | Ok (Some (n', scoped), addendum) =>
              if bool_decide (n' <> n) then Err (ErrRenamed n n')
              else go scoped (if bool_decide (addendum = EmptyString) then addenda
                              else (addenda ++ two_newlines ++ addendum)%string)
          end
      end
  | _, _ => Ok ([], addenda)
  end.

Definition resolveInterceptors (system : string) (ic : list (option installed)) : result chainError (list namedInterceptor * string) :=
  match validatedInterceptorNames ic with
  | Err e => Err e
  | Ok names => resolve_from system ic names EmptyString
  end.

(** ** Findings *)

Record hookScope := mkScope {
  hook : Hook; messages : list InspectedMessage; hasSystem : bool; hasSummary : bool; callIDs : list string; toolCallID : string
}.

Definition findTarget (targets : list InspectedMessage) (stateIndex : Z) : option InspectedMessage :=
  let scan := List.find (fun m => im_StateIndex m =? stateIndex) targets in
  if (0 <=? stateIndex) && (stateIndex <? len targets) then
    match targets !! Z.to_nat stateIndex with
    | Some m => if im_StateIndex m =? stateIndex then Some m else scan
    | None => scan
    end
  else scan.

Definition validAlternative (m : InspectedMessage) (group alternative : Z) : bool :=
  existsb (fun a => (a_Group a =? group) && (a_Alternative a =? alternative)) (Alternatives m).

Definition noTarget (f : Finding) : Finding :=
  mkFinding (Interceptor f) (Rule f) (f_Verdict f) (Risk f) (Detail f) (f_Origin f) (f_Hook f) (f_Step f) TargetNone (-1) "" (-1) (-1).

Definition set_target (f : Finding) (t : TargetKind) (origin : Z) : Finding :=
  mkFinding (Interceptor f) (Rule f) (f_Verdict f) (Risk f) (Detail f) origin (f_Hook f) (f_Step f) t (StateIndex f)
    (f_ToolCallID f) (Group f) (Alternative f).

Definition set_call (f : Finding) (id : string) : Finding :=
  mkFinding (Interceptor f) (Rule f) (f_Verdict f) (Risk f) (Detail f) (f_Origin f) (f_Hook f) (f_Step f) (Target f) (StateIndex f)
    id (Group f) (Alternative f).

Definition set_alternative (f : Finding) (group alternative : Z) : Finding :=
  mkFinding (Interceptor f) (Rule f) (f_Verdict f) (Risk f) (Detail f) (f_Origin f) (f_Hook f) (f_Step f) (Target f) (StateIndex f)
    (f_ToolCallID f) group alternative.

(** Stamped and bounded, before the target is looked at. *)
Definition stamp (f : Finding) (name : string) (step : Z) (scope : hookScope) : Finding :=
  let rule := capBytes (FlattenLine (Rule f)) maxRuleBytes in
  let rule := if bool_decide (rule = EmptyString) then "unspecified"%string else rule in
  let verdict := if VerdictAbort <? f_Verdict f then VerdictAbort else f_Verdict f in
  let risk := if Risk f <? 0 then 0 else if 100 <? Risk f then 100 else Risk f in
  mkFinding name rule verdict risk (capBytes (FlattenLine (Detail f)) maxFindingDetailBytes) (f_Origin f) (Some (hook scope)) step
    (Target f) (StateIndex f) (f_ToolCallID f) (Group f) (Alternative f).

(** No target the hook accepts. *)
Definition untargeted (f : Finding) : Finding :=
  let f := noTarget f in set_target f TargetNone (normalizeOrigin (f_Origin f)).

Definition normalizeFinding (f : Finding) (name : string) (step : Z) (scope : hookScope) : Finding :=
  let f := stamp f name step scope in
  match hook scope with
  | HookInput =>
      match Target f with
      | TargetSystem => if hasSystem scope then set_target (noTarget f) TargetSystem OriginSystem else untargeted f
      | TargetSummary => if hasSummary scope then set_target (noTarget f) TargetSummary OriginModel else untargeted f
      | TargetMessage | TargetAlternative =>
          match findTarget (messages scope) (StateIndex f) with
          | Some m =>
              let f := set_call (set_target f (Target f) (im_Origin m)) (im_ToolCallID m) in
              if bool_decide (Target f = TargetAlternative) && validAlternative m (Group f) (Alternative f) then f
              else set_alternative (set_target f TargetMessage (f_Origin f)) (-1) (-1)
          | None => untargeted f
          end
      | _ => untargeted f
      end
  | HookOutput =>
      let f := set_target f (Target f) OriginModel in
      match Target f with
      | TargetOutputContent => set_target (noTarget f) TargetOutputContent OriginModel
      | TargetOutputToolCall =>
          if bool_decide (f_ToolCallID f ∈ callIDs scope)
          then let id := f_ToolCallID f in set_call (set_target (noTarget f) TargetOutputToolCall OriginModel) id
          else noTarget f
      | _ => noTarget f
      end
  | HookToolCall => set_call (set_target (noTarget f) TargetToolCall OriginModel) (toolCallID scope)
  end.

(** The first of the findings with the strongest verdict. *)
Definition top_verdict (findings : list Finding) : Z :=
  fold_left (fun top f => if top <? f_Verdict f then f_Verdict f else top) findings VerdictAllow.

Definition cause (findings : list Finding) : Finding :=
  default noFinding (List.find (fun f => f_Verdict f =? top_verdict findings) findings).

(** ** Running a hook *)

Definition cumulative (r : interceptorRun) : RiskReport := mkRiskReport (Score (risk r)) (Findings (risk r)) [].
Definition snapshot (r : interceptorRun) : RiskReport := mkRiskReport (Score (risk r)) (Findings (risk r)) (current r).
Definition run_result (r : interceptorRun) : option RiskReport :=
  match Findings (risk r) with [] => None | _ => Some (cumulative r) end.

Definition sensitiveText (r : interceptorRun) (s : string) : bool :=
  existsb (fun ic => match sensitive ic with Some p => p s | None => false end) (chain r).
Definition guardsText (r : interceptorRun) : bool := existsb (fun ic => opt_b (sensitive ic)) (chain r).

(** The loop over the chain. *)
Record hookState := mkHookState { all : list Finding; errs : list failure; verdict : Z; scrub : bool }.

Definition add_finding (guard : bool) (st : hookState) (f : Finding) : hookState :=
  mkHookState (all st ++ [f]) (errs st) (if verdict st <? f_Verdict f then f_Verdict f else verdict st)
    (scrub st || ((VerdictBlock <=? f_Verdict f) && guard)).

Definition run_one (step : Z) (scope : hookScope) (invoke : namedInterceptor -> answer) (st : hookState) (ic : namedInterceptor) : hookState :=
  let '(found, err) := invoke ic in
  let st := match err with
            | Some e => mkHookState (all st) (errs st ++ [HookFailed (name ic) (hook scope) e]) (verdict st) (scrub st)
            | None => st
            end in
  fold_left (add_finding (opt_b (sensitive ic))) (map (fun f => normalizeFinding f (name ic) step scope) found) st.

(** A finding of a scrubbed invocation. *)
Definition scrubbed (f : Finding) : Finding :=
  mkFinding (Interceptor f) (Rule f) (f_Verdict f) (Risk f) "" (f_Origin f) (f_Hook f) (f_Step f) (Target f) (StateIndex f)
    "" (Group f) (Alternative f).

Definition canceled_by (f : failure) : bool :=
  match f with
  | HookFailed _ _ e | ObserverFailed e => is_canceled e
  | Canceled => true
  | _ => false
  end.
Definition deadline_by (f : failure) : bool :=
  match f with
  | HookFailed _ _ e | ObserverFailed e => is_deadline e
  | DeadlineExceeded => true
  | _ => false
  end.

Definition suppress (errs : list failure) : list failure :=
  ErrDiagnosticsSuppressed :: (if existsb canceled_by errs then [Canceled] else []) ++
    (if existsb deadline_by errs then [DeadlineExceeded] else []).

Section Hooks.
Context (observer : option (nat -> InterceptionEvent -> option foreignError)).

Definition runHook (r : interceptorRun) (step : Z) (scope : hookScope) (invoke : namedInterceptor -> answer) :
    interceptorRun * (list Finding * Z * bool * list failure) :=
  let st := fold_left (run_one step scope invoke) (chain r) (mkHookState [] [] VerdictAllow false) in
  let all := if scrub st then map scrubbed (all st) else all st in
  let id := if scrub st then EmptyString else toolCallID scope in
  let r := mkRun (chain r) (risk r) (current r) (S (invocations r)) (published r) in
  let '(r, errs) :=
    match all with
    | [] => (r, errs st)
    | _ :: _ =>
        let risk := mkRiskReport (fold_left (fun s f => addSaturating s (Risk f)) all (Score (risk r))) (Findings (risk r) ++ all) [] in
        let r := mkRun (chain r) risk (current r) (invocations r) (published r) in
        match observer with
        | None => (r, errs st)
        | Some told =>
            let e := mkInterceptionEvent step (hook scope) (verdict st) all (cumulative r) id in
            let r' := mkRun (chain r) risk (current r) (invocations r) (published r ++ [e]) in
            match told (length (published r)) e with
            | None => (r', errs st)
            | Some err => (r', errs st ++ [ObserverFailed err])
            end
        end
    end in
  let errs := match errs with [] => [] | _ :: _ => if scrub st then suppress errs else errs end in
  (r, (all, verdict st, scrub st, errs)).

(** [[]] is nil. *)
Definition terminalAt (min : Z) (hook : Hook) (step : Z) (findings : list Finding) (verdict : Z) (sensitive : bool)
    (errs : list failure) : list failure :=
  if (verdict <? VerdictBlock) || ((verdict <? min) && (len errs =? 0)) then errs
  else Blocked (mkBlockedError hook step findings sensitive) :: errs.

Definition originOfRole (role : string) : Z :=
  if bool_decide (role = "user"%string) then OriginUser
  else if bool_decide (role = "assistant"%string) then OriginModel
  else OriginUnknown.

Definition inspectInitial (r : interceptorRun) (system summary : string) (msgs : list Message) : interceptorRun * list failure :=
  match chain r with
  | [] => (r, [])
  | _ :: _ =>
      let inspected := imap (fun i m => mkInspectedMessage (Z.of_nat i) (Role (msg m)) (originOfRole (Role (msg m))) "" "" (Content (msg m)) []) msgs in
      let input := mkInputInspection 0 system summary inspected in
      let scope := mkScope HookInput inspected (negb (bool_decide (system = EmptyString))) (negb (bool_decide (summary = EmptyString))) [] "" in
      let '(r, (findings, verdict, sensitive, errs)) := runHook r 0 scope (fun ic => InspectInput ic (invocations r) input) in
      (r, terminalAt VerdictBlock HookInput 0 findings verdict sensitive errs)
  end.

Definition inspectOutput (r : interceptorRun) (step : Z) (content thinking : string) (calls : list ToolCall) : interceptorRun * list failure :=
  match chain r with
  | [] => (r, [])
  | _ :: _ =>
      let scope := mkScope HookOutput [] false false (map tc_ID calls) "" in
      let '(r, (findings, verdict, sensitive, errs)) :=
        runHook r step scope (fun ic => InspectOutput ic (invocations r) (mkOutputInspection step content thinking calls)) in
      (r, terminalAt VerdictBlock HookOutput step findings verdict sensitive errs)
  end.

(** The synthetic outcome of a block, or the errors. *)
Definition inspectToolCall (r : interceptorRun) (step : Z) (call : ToolCall) (effect : Effect) :
    interceptorRun * result (list failure) (option Finding) :=
  match chain r with
  | [] => (r, Ok None)
  | _ :: _ =>
      let scope := mkScope HookToolCall [] false false [] (tc_ID call) in
      let '(r, (findings, verdict, sensitive, errs)) :=
        runHook r step scope (fun ic => InspectToolCall ic (invocations r) (mkToolCallInspection step call effect)) in
      let r := mkRun (chain r) (risk r) findings (invocations r) (published r) in
      if negb (len errs =? 0) || (verdict =? VerdictAbort)
      then (r, Err (terminalAt VerdictAbort HookToolCall step findings verdict sensitive errs))
      else if verdict =? VerdictBlock then (r, Ok (Some (cause findings)))
      else (r, Ok None)
  end.

(** The tags, or the blocking finding and whether it is sensitive, or the errors. *)
Definition inspectObservation (r : interceptorRun) (step : Z) (m : InspectedMessage) :
    interceptorRun * result (list failure) (list Finding * option (Finding * bool)) :=
  match chain r with
  | [] => (r, Ok ([], None))
  | _ :: _ =>
      let scope := mkScope HookInput [m] false false [] (im_ToolCallID m) in
      let '(r, (findings, verdict, sensitive, errs)) :=
        runHook r step scope (fun ic => InspectInput ic (invocations r) (mkInputInspection step "" "" [m])) in
      if negb (len errs =? 0) || (verdict =? VerdictAbort)
      then (r, Err (terminalAt VerdictAbort HookInput step findings verdict sensitive errs))
      else if verdict =? VerdictBlock then (r, Ok ([], Some (cause findings, sensitive)))
      else (r, Ok (List.filter (fun f => f_Verdict f =? VerdictTag) findings, None))
  end.
End Hooks.

(** ** Text stays on one line *)

(** A line break somewhere. *)
Fixpoint has_break (s : string) : bool :=
  match s with
  | EmptyString => false
  | String c s1 =>
      ascii_break c ||
      match s1 with
      | String d s2 =>
          (is_code 194 c && is_code 133 d) ||
          match s2 with
          | String e _ => is_code 226 c && is_code 128 d && (is_code 168 e || is_code 169 e)
          | EmptyString => false
          end
      | EmptyString => false
      end || has_break s1
  end.

Lemma flatten_head c s : FlattenLine (String c s) = String c (FlattenLine s) \/ exists t, FlattenLine (String c s) = String " " t.
Proof.
  simpl. destruct (ascii_break c); [right; by eexists|]. destruct s as [|d s]; [by left|].
  destruct (_ && _); [right; by eexists|]. destruct s as [|e s]; [by left|]. destruct (_ && _); [right; by eexists|by left].
Qed.

Lemma flatten_id s : has_break s = false -> FlattenLine s = s.
Proof.
  induction s as [|c s IH]; [done|]. simpl. intros [[H1 H2]%orb_false_iff H3]%orb_false_iff.
  rewrite H1, (IH H3). destruct s as [|d s]; [done|]. apply orb_false_iff in H2 as [H2 H4]. rewrite H2.
  destruct s as [|e s]; [done|]. by rewrite H4.
Qed.

(** No break where the text was none and is continued by its flattening. *)
Lemma flatten_no_break_cons c s :
  has_break (FlattenLine s) = false -> ascii_break c = false ->
  match s with
  | String d s2 =>
      is_code 194 c && is_code 133 d = false /\
      match s2 with String e _ => is_code 226 c && is_code 128 d && (is_code 168 e || is_code 169 e) = false | EmptyString => True end
  | EmptyString => True
  end -> has_break (String c (FlattenLine s)) = false.
Proof.
  intros Hs Hc Hd. cbn [has_break]. rewrite Hc, Hs, orb_false_r. cbn [orb].
  destruct s as [|d s]; [done|]. destruct Hd as [Hd He]. destruct (flatten_head d s) as [->|[t ->]].
  - rewrite Hd. cbn [orb]. destruct s as [|e s]; [done|]. destruct (flatten_head e s) as [->|[t ->]]; [done|].
    by rewrite andb_false_r.
  - change (is_code 133 " ") with false. change (is_code 128 " ") with false. rewrite !andb_false_r. by destruct t.
Qed.

Lemma flatten_no_break s : has_break (FlattenLine s) = false.
Proof.
  remember (String.length s) as n eqn:Hn. revert s Hn. induction n as [n IH] using lt_wf_ind. intros s ->.
  destruct s as [|c s]; [done|].
  assert (forall t, (String.length t < String.length (String c s))%nat -> has_break (String " " (FlattenLine t)) = false) as Hsp.
  { intros t Ht. cbn [has_break]. rewrite (IH _ Ht t eq_refl), orb_false_r.
    change (ascii_break " ") with false. destruct (FlattenLine t) as [|d [|e u]]; done. }
  assert (has_break (FlattenLine s) = false) as Hs by (eapply IH; [|done]; simpl; lia).
  cbn [FlattenLine]. destruct (ascii_break c) eqn:Hc; [apply Hsp; simpl; lia|].
  destruct s as [|d s]; [simpl; by rewrite Hc|].
  destruct (is_code 194 c && is_code 133 d) eqn:Hd; [apply Hsp; simpl; lia|].
  destruct s as [|e s]; [by apply flatten_no_break_cons|].
  destruct (is_code 226 c && _ && _) eqn:He; [apply Hsp; simpl; lia|]. by apply flatten_no_break_cons.
Qed.

Lemma has_break_prefix n s : has_break s = false -> has_break (String.substring 0 n s) = false.
Proof.
  revert n. induction s as [|c s IH]; intros n; [by destruct n|]. destruct n as [|n]; [done|].
  cbn [has_break]. intros [[H1 H2]%orb_false_iff H3]%orb_false_iff. cbn [String.substring has_break].
  rewrite H1, (IH n H3), orb_false_r. cbn [orb]. destruct s as [|d s]; [by destruct n|]. destruct n as [|n]; [done|].
  apply orb_false_iff in H2 as [H2 H4]. cbn [String.substring]. rewrite H2. cbn [orb].
  destruct s as [|e s]; [by destruct n|]. by destruct n as [|n].
Qed.

Lemma rune_end_le s n : (rune_end s n <= n)%nat.
Proof. induction n as [|n IH]; [done|]. simpl. destruct (String.get (S n) s) as [c|]; [|done]. destruct (RuneStart c); lia. Qed.

Lemma length_prefix n s : (String.length (String.substring 0 n s) <= n)%nat.
Proof. revert n. induction s as [|c s IH]; intros [|n]; simpl; [lia..|]. specialize (IH n). lia. Qed.

Lemma capBytes_length s n : (String.length (capBytes s n) <= n)%nat.
Proof.
  unfold capBytes. destruct (Nat.leb_spec (String.length s) n); [done|].
  etrans; [apply length_prefix|apply rune_end_le].
Qed.

Lemma capBytes_id s n : (String.length s <= n)%nat -> capBytes s n = s.
Proof. unfold capBytes. intros H. apply Nat.leb_le in H. by rewrite H. Qed.

Lemma capBytes_no_break s n : has_break s = false -> has_break (capBytes s n) = false.
Proof. intros H. unfold capBytes. destruct (_ <=? _)%nat; [done|]. by apply has_break_prefix. Qed.

(** One line of at most [n] bytes. *)
Definition line_of (n : nat) (s : string) : Prop := has_break s = false /\ (String.length s <= n)%nat.

Lemma line_of_capped n s : line_of n (capBytes (FlattenLine s) n).
Proof. split; [apply capBytes_no_break, flatten_no_break|apply capBytes_length]. Qed.

Lemma capped_line n s : line_of n s -> capBytes (FlattenLine s) n = s.
Proof. intros [H1 H2]. by rewrite (flatten_id _ H1), capBytes_id. Qed.

(** ** The contract of a finding *)

Definition blank (f : Finding) : Prop := StateIndex f = -1 /\ f_ToolCallID f = EmptyString /\ Group f = -1 /\ Alternative f = -1.

(** The finding names a message that was inspected, and carries its origin and
    the call it answers. *)
Definition about (scope : hookScope) (f : Finding) (m : InspectedMessage) : Prop :=
  m ∈ messages scope /\ im_StateIndex m = StateIndex f /\ f_Origin f = im_Origin m /\ f_ToolCallID f = im_ToolCallID m.

(** The target is one the hook accepts, and names what was inspected. *)
Definition target_ok (scope : hookScope) (f : Finding) : Prop :=
  match hook scope, Target f with
  | HookInput, TargetSystem => hasSystem scope = true /\ blank f /\ f_Origin f = OriginSystem
  | HookInput, TargetSummary => hasSummary scope = true /\ blank f /\ f_Origin f = OriginModel
  | HookInput, TargetMessage =>
      exists m, about scope f m /\ Group f = -1 /\ Alternative f = -1
  | HookInput, TargetAlternative =>
      exists m a, about scope f m /\ a ∈ Alternatives m /\ a_Group a = Group f /\ a_Alternative a = Alternative f
  | HookInput, TargetNone => blank f /\ f_Origin f <= OriginForeign
  | HookOutput, (TargetNone | TargetOutputContent) => blank f /\ f_Origin f = OriginModel
  | HookOutput, TargetOutputToolCall =>
      f_ToolCallID f ∈ callIDs scope /\ StateIndex f = -1 /\ Group f = -1 /\ Alternative f = -1 /\ f_Origin f = OriginModel
  | HookToolCall, TargetToolCall =>
      f_ToolCallID f = toolCallID scope /\ StateIndex f = -1 /\ Group f = -1 /\ Alternative f = -1 /\ f_Origin f = OriginModel
  | _, _ => False
  end.

Record contract (name : string) (step : Z) (scope : hookScope) (f : Finding) : Prop := {
  k_name : Interceptor f = name;
  k_hook : f_Hook f = Some (hook scope);
  k_step : f_Step f = step;
  k_rule : line_of maxRuleBytes (Rule f) /\ Rule f <> EmptyString;
  k_detail : line_of maxFindingDetailBytes (Detail f);
  k_verdict : f_Verdict f <= VerdictAbort;
  k_risk : 0 <= Risk f <= 100;
  k_target : target_ok scope f
}.

Definition origin_of (f : Finding) (o : Z) : Finding := set_target f (Target f) o.

Lemma stamp_contract f name step scope :
  let g := stamp f name step scope in
  Interceptor g = name /\ f_Hook g = Some (hook scope) /\ f_Step g = step /\ (line_of maxRuleBytes (Rule g) /\ Rule g <> EmptyString) /\
  line_of maxFindingDetailBytes (Detail g) /\ f_Verdict g <= VerdictAbort /\ 0 <= Risk g <= 100.
Proof.
  unfold stamp. cbn. split_and!; [done|done|done| | | | | |]; try apply line_of_capped.
  - case_bool_decide as E; [split; [by vm_compute|apply Nat.leb_le; by vm_compute]|apply line_of_capped].
  - by case_bool_decide.
  - unfold VerdictAbort. destruct (Z.ltb_spec 3 (f_Verdict f)); lia.
  - destruct (Z.ltb_spec (Risk f) 0); [lia|]. destruct (Z.ltb_spec 100 (Risk f)); lia.
  - destruct (Z.ltb_spec (Risk f) 0); [lia|]. destruct (Z.ltb_spec 100 (Risk f)); lia.
Qed.

Lemma stamp_id f name step scope : contract name step scope f -> stamp f name step scope = f.
Proof.
  intros [H1 H2 H3 [H4 H5] H6 H7 H8 _]. unfold stamp. rewrite (capped_line _ _ H4), (capped_line _ _ H6), bool_decide_false by done.
  destruct (Z.ltb_spec VerdictAbort (f_Verdict f)); [lia|]. destruct (Z.ltb_spec (Risk f) 0); [lia|].
  destruct (Z.ltb_spec 100 (Risk f)); [lia|]. destruct f; simpl in *; congruence.
Qed.

Lemma normalizeOrigin_le o : normalizeOrigin o <= OriginForeign.
Proof. unfold normalizeOrigin, OriginForeign, OriginUnknown. destruct (Z.ltb_spec 5 o); lia. Qed.

Lemma findTarget_about targets i m : findTarget targets i = Some m -> m ∈ targets /\ im_StateIndex m = i.
Proof.
  assert (List.find (fun m => im_StateIndex m =? i) targets = Some m -> m ∈ targets /\ im_StateIndex m = i) as Hscan.
  { intros [H1 H2]%List.find_some. split; [by apply list_elem_of_In|by apply Z.eqb_eq]. }
  unfold findTarget. destruct (_ && _); [|done]. destruct (targets !! Z.to_nat i) as [m'|] eqn:El; [|done].
  destruct (Z.eqb_spec (im_StateIndex m') i); [|done]. intros [= <-]. split; [by eapply list_elem_of_lookup_2|done].
Qed.

Lemma about_findTarget targets m :
  NoDup (map im_StateIndex targets) -> m ∈ targets -> findTarget targets (im_StateIndex m) = Some m.
Proof.
  intros Hnd Hin. assert (forall m', m' ∈ targets -> im_StateIndex m' = im_StateIndex m -> m' = m) as Hone.
  { intros m' [k Hk]%list_elem_of_lookup E. apply list_elem_of_lookup in Hin as [j Hj].
    assert (k = j) as ->; [|congruence]. eapply (NoDup_lookup _ _ _ (im_StateIndex m) Hnd); rewrite list_lookup_fmap;
      [rewrite Hk; simpl; by f_equal|by rewrite Hj]. }
  destruct (findTarget targets (im_StateIndex m)) as [m'|] eqn:E.
  - apply findTarget_about in E as [H1 H2]. by rewrite (Hone m' H1 H2).
  - exfalso. assert (List.find (fun x => im_StateIndex x =? im_StateIndex m) targets = None) as Hf.
    { unfold findTarget in E. destruct (_ && _); [|done]. destruct (targets !! _) as [x|]; [|done]. by destruct (_ =? _). }
    pose proof (List.find_none _ _ Hf m ltac:(by apply list_elem_of_In)) as H.
    cbn beta in H. by rewrite Z.eqb_refl in H.
Qed.

Lemma validAlternative_in m group alternative :
  validAlternative m group alternative = true <-> exists a, a ∈ Alternatives m /\ a_Group a = group /\ a_Alternative a = alternative.
Proof.
  unfold validAlternative. rewrite List.existsb_exists. f_equiv. intros a. rewrite <-list_elem_of_In, andb_true_iff, !Z.eqb_eq. done.
Qed.

Lemma normalize_meets_contract f name step scope : contract name step scope (normalizeFinding f name step scope).
Proof.
  pose proof (stamp_contract f name step scope) as Hs. cbn zeta in Hs. unfold normalizeFinding.
  set (g := stamp f name step scope) in *. clearbody g. destruct Hs as (H1 & H2 & H3 & H4 & H5 & H6 & H7).
  assert (forall h, Interceptor h = Interceptor g -> f_Hook h = f_Hook g -> f_Step h = f_Step g -> Rule h = Rule g -> Detail h = Detail g ->
    f_Verdict h = f_Verdict g -> Risk h = Risk g -> target_ok scope h -> contract name step scope h) as Hk.
  { intros h E1 E2 E3 E4 E5 E6 E7 Ht. split; rewrite ?E1, ?E2, ?E3, ?E4, ?E5, ?E6, ?E7; done. }
  assert (hook scope = HookInput -> contract name step scope (untargeted g)) as Hun.
  { intros E. apply Hk; try done. unfold target_ok. rewrite E. split; [done|apply normalizeOrigin_le]. }
  destruct (hook scope) eqn:E.
  - destruct (Target g) eqn:Et; try by apply Hun.
    + destruct (hasSystem scope) eqn:Eh; [|by apply Hun]. apply Hk; try done. unfold target_ok. rewrite E. by split_and!.
    + destruct (hasSummary scope) eqn:Eh; [|by apply Hun]. apply Hk; try done. unfold target_ok. rewrite E. by split_and!.
    + destruct (findTarget _ _) as [m|] eqn:Ef; [|by apply Hun]. apply findTarget_about in Ef as [Hin Hi].
      cbn. apply Hk; try done. unfold target_ok. rewrite E. cbn. exists m. by repeat split.
    + destruct (findTarget _ _) as [m|] eqn:Ef; [|by apply Hun]. apply findTarget_about in Ef as [Hin Hi].
      cbn. destruct (validAlternative _ _ _) eqn:Ev; apply Hk; try done; unfold target_ok; rewrite E; cbn.
      * apply validAlternative_in in Ev as (a & Ha & Hg & Hal). exists m, a. by repeat split.
      * exists m. by repeat split.
  - cbn. destruct (Target g) eqn:Et; try (apply Hk; try done; unfold target_ok; rewrite E; by split_and!).
    case_bool_decide as Ei; apply Hk; try done; unfold target_ok; rewrite E; cbn; by split_and!.
  - apply Hk; try done. unfold target_ok. rewrite E. by split_and!.
Qed.

Lemma normalize_contract_id f name step scope :
  NoDup (map im_StateIndex (messages scope)) -> contract name step scope f -> normalizeFinding f name step scope = f.
Proof.
  intros Hnd Hk. unfold normalizeFinding. rewrite (stamp_id _ _ _ _ Hk). pose proof (k_target _ _ _ _ Hk) as Ht.
  unfold target_ok, about in Ht. destruct f as [i r v ri d o h s t si id gr al]. cbn in *. unfold blank in Ht. cbn in Ht.
  destruct (hook scope), t; cbn in *; try done;
    repeat match goal with H : _ /\ _ |- _ => destruct H | H : exists _, _ |- _ => destruct H end; subst;
    rewrite ?about_findTarget by done;
    repeat match goal with H : _ = true |- _ => rewrite H end; try done.
  - unfold untargeted, noTarget, set_target, normalizeOrigin. cbn. destruct (Z.ltb_spec OriginForeign o); [lia|done].
  - rewrite (proj2 (validAlternative_in _ _ _)); [done|by eauto].
  - by rewrite bool_decide_true.
Qed.

(** ** What an invocation of the chain comes to *)

Section Chain.
Context (step : Z) (scope : hookScope) (invoke : namedInterceptor -> answer).

(** The normalised findings of one interceptor, and of a chain in its order. *)
Definition findings_of (ic : namedInterceptor) : list Finding := map (fun f => normalizeFinding f (name ic) step scope) (invoke ic).1.
Definition found (chain : list namedInterceptor) : list Finding := concat (map findings_of chain).

Definition failures (chain : list namedInterceptor) : list failure :=
  omap (fun ic => HookFailed (name ic) (hook scope) <$> (invoke ic).2) chain.

Definition blocking (f : Finding) : bool := VerdictBlock <=? f_Verdict f.
(** A guard of protected text blocked. *)
Definition guard_blocks (chain : list namedInterceptor) : bool :=
  existsb (fun ic => opt_b (sensitive ic) && existsb blocking (findings_of ic)) chain.

Lemma add_findings guard fs : forall st, let st' := fold_left (add_finding guard) fs st in
  all st' = all st ++ fs /\ errs st' = errs st /\
  verdict st' = fold_left (fun top f => if top <? f_Verdict f then f_Verdict f else top) fs (verdict st) /\
  scrub st' = scrub st || (guard && existsb blocking fs).
Proof.
  induction fs as [|f fs IH]; intros st; cbn zeta.
  { simpl. rewrite app_nil_r. split_and!; [done..|]. by rewrite andb_false_r, orb_false_r. }
  simpl. destruct (IH (add_finding guard st f)) as (-> & -> & -> & ->). simpl. rewrite <- app_assoc. split_and!; [done..|].
  fold (blocking f). destruct (scrub st), guard, (blocking f), (existsb blocking fs); done.
Qed.

Lemma run_chain c : forall st, let st' := fold_left (run_one step scope invoke) c st in
  all st' = all st ++ found c /\ errs st' = errs st ++ failures c /\
  verdict st' = fold_left (fun top f => if top <? f_Verdict f then f_Verdict f else top) (found c) (verdict st) /\
  scrub st' = scrub st || guard_blocks c.
Proof.
  induction c as [|ic c IH]; intros st; cbn zeta.
  { simpl. rewrite !app_nil_r, orb_false_r. done. }
  cbn [fold_left]. destruct (IH (run_one step scope invoke st ic)) as (-> & -> & -> & ->).
  unfold run_one, found, failures, guard_blocks. cbn [map concat omap list_omap existsb].
  assert (findings_of ic = map (fun f => normalizeFinding f (name ic) step scope) (invoke ic).1) as Eg by done.
  destruct (invoke ic) as [fs err]. cbn [fst snd] in *. rewrite <- Eg. set (gs := findings_of ic) in *.
  set (st1 := match err with Some e => _ | None => st end).
  assert (all st1 = all st /\ verdict st1 = verdict st /\ scrub st1 = scrub st /\
    errs st1 = errs st ++ match err with Some e => [HookFailed (name ic) (hook scope) e] | None => [] end) as (E1 & E2 & E3 & E4).
  { subst st1. destruct err; [done|]. by rewrite app_nil_r. }
  destruct (add_findings (opt_b (sensitive ic)) gs st1) as (-> & -> & -> & ->). rewrite E1, E2, E3, E4, fold_left_app, <- !app_assoc.
  split_and!; [done| |done|by rewrite !orb_assoc]. by destruct err.
Qed.
End Chain.

(** [runHook] with the loop replaced by what it comes to. *)
Definition hook_findings (r : interceptorRun) (step : Z) (scope : hookScope) (invoke : namedInterceptor -> answer) : list Finding :=
  let fs := found step scope invoke (chain r) in
  if guard_blocks step scope invoke (chain r) then map scrubbed fs else fs.

Lemma runHook_spec observer r step scope invoke :
  let '(r', (fs, v, s, es)) := runHook observer r step scope invoke in
  fs = hook_findings r step scope invoke /\ v = top_verdict (found step scope invoke (chain r)) /\
  s = guard_blocks step scope invoke (chain r) /\ chain r' = chain r /\ current r' = current r /\
  Findings (risk r') = Findings (risk r) ++ fs /\ Score (risk r') = fold_left (fun s f => addSaturating s (Risk f)) fs (Score (risk r)) /\
  (failures scope invoke (chain r) <> [] -> es <> []).
Proof.
  unfold runHook, hook_findings.
  destruct (run_chain step scope invoke (chain r) (mkHookState [] [] VerdictAllow false)) as (-> & -> & -> & ->).
  cbn [all errs verdict scrub app orb]. set (g := guard_blocks _ _ _ _). set (fs := if g then _ else _).
  set (fl := failures _ _ _). set (v := fold_left _ _ _).
  assert (forall es : list failure, (fl <> [] -> es <> []) -> fl <> [] ->
    match es with [] => [] | _ :: _ => if g then suppress es else es end <> []) as Hes.
  { intros es H Hf. specialize (H Hf). destruct es; [done|]. by destruct g. }
  destruct fs as [|f fs'] eqn:Efs.
  { split_and!; try done; [by rewrite app_nil_r|by apply Hes]. }
  destruct observer as [told|]; cbn [chain risk current published]; [destruct (told _ _)|]; cbn [chain risk current published Findings Score];
    (split_and!; [done..|]); apply Hes; [by intros ? []%app_nil|done|done].
Qed.

(** *** Findings that differ in their detail only *)

Definition set_detail (f : Finding) (d : string) : Finding :=
  mkFinding (Interceptor f) (Rule f) (f_Verdict f) (Risk f) d (f_Origin f) (f_Hook f) (f_Step f) (Target f) (StateIndex f)
    (f_ToolCallID f) (Group f) (Alternative f).

Definition same_finding (f f' : Finding) : Prop := exists d, f' = set_detail f d.

(** Answers that differ in free text only. *)
Definition same_answer (a a' : answer) : Prop :=
  Forall2 same_finding a.1 a'.1 /\
  match a.2, a'.2 with
  | None, None => True
  | Some e, Some e' => is_canceled e = is_canceled e' /\ is_deadline e = is_deadline e'
  | _, _ => False
  end.

Lemma normalize_detail f d name step scope : same_finding (normalizeFinding f name step scope) (normalizeFinding (set_detail f d) name step scope).
Proof.
  exists (capBytes (FlattenLine d) maxFindingDetailBytes). unfold normalizeFinding.
  assert (stamp (set_detail f d) name step scope = set_detail (stamp f name step scope) (capBytes (FlattenLine d) maxFindingDetailBytes)) as -> by done.
  set (g := stamp f name step scope). generalize (capBytes (FlattenLine d) maxFindingDetailBytes). clearbody g. intros t.
  destruct (hook scope); [|cbn; destruct (Target g); try done; by case_bool_decide|done].
  cbn [set_detail Target StateIndex]. destruct (Target g) eqn:Et; try done.
  - by destruct (hasSystem scope).
  - by destruct (hasSummary scope).
  - destruct (findTarget _ _); cbn; rewrite ?Et; done.
  - destruct (findTarget _ _) as [m|]; cbn; rewrite ?Et; [|done]. cbn. by destruct (validAlternative _ _ _).
Qed.

Lemma found_same step scope invoke invoke' c : (forall ic, ic ∈ c -> same_answer (invoke ic) (invoke' ic)) ->
  Forall2 same_finding (found step scope invoke c) (found step scope invoke' c) /\
  guard_blocks step scope invoke c = guard_blocks step scope invoke' c.
Proof.
  induction c as [|ic c IH]; intros H; [done|]. destruct IH as [IH1 IH2]; [intros i Hi; apply H; by right|].
  assert (Forall2 same_finding (findings_of step scope invoke ic) (findings_of step scope invoke' ic)) as Hf.
  { destruct (H ic ltac:(by left)) as [Hf _]. unfold findings_of. induction Hf as [|f f' l l' [d ->] _ IHl]; simpl; constructor; [apply normalize_detail|done]. }
  unfold guard_blocks in *. cbn [existsb]. rewrite IH2. split; [by apply Forall2_app|]. f_equal. f_equal.
  clear -Hf. induction Hf as [|f f' l l' [d ->] _ IHl]; [done|]. cbn [existsb]. by rewrite IHl.
Qed.

Lemma scrubbed_same fs fs' : Forall2 same_finding fs fs' -> map scrubbed fs' = map scrubbed fs.
Proof. induction 1 as [|f f' fs fs' [d ->] _ IH]; [done|]. simpl. by rewrite IH. Qed.

Lemma top_verdict_same fs fs' : Forall2 same_finding fs fs' -> top_verdict fs' = top_verdict fs.
Proof. unfold top_verdict. generalize VerdictAllow. intros v H. revert v. induction H as [|f f' fs fs' [d ->] _ IH]; intros v; [done|]. apply IH. Qed.

Lemma failures_same scope invoke invoke' c : (forall ic, ic ∈ c -> same_answer (invoke ic) (invoke' ic)) ->
  length (failures scope invoke c) = length (failures scope invoke' c) /\
  existsb canceled_by (failures scope invoke c) = existsb canceled_by (failures scope invoke' c) /\
  existsb deadline_by (failures scope invoke c) = existsb deadline_by (failures scope invoke' c).
Proof.
  induction c as [|ic c IH]; intros H; [done|]. destruct IH as (IH1 & IH2 & IH3); [intros i Hi; apply H; by right|].
  destruct (H ic ltac:(by left)) as [_ He]. unfold failures in *. cbn [omap list_omap].
  destruct (invoke ic).2 as [e|], (invoke' ic).2 as [e'|]; try done. destruct He as [E1 E2]. simpl. rewrite E1, E2.
  by split_and!; f_equal.
Qed.

Lemma suppress_same es es' : existsb canceled_by es = existsb canceled_by es' -> existsb deadline_by es = existsb deadline_by es' ->
  suppress es = suppress es'.
Proof. unfold suppress. by intros -> ->. Qed.

(** What the errors of a scrubbed invocation become does not depend on their text. *)
Definition final_errors (s : bool) (es : list failure) : list failure :=
  match es with [] => [] | _ :: _ => if s then suppress es else es end.

Lemma final_errors_same es es' more :
  length es = length es' -> existsb canceled_by es = existsb canceled_by es' -> existsb deadline_by es = existsb deadline_by es' ->
  final_errors true (es ++ more) = final_errors true (es' ++ more).
Proof.
  intros Hl Hc Hd. unfold final_errors. rewrite (suppress_same (es ++ more) (es' ++ more)) by (rewrite !existsb_app; congruence).
  destruct es, es'; done.
Qed.

Lemma runHook_same observer r step scope invoke invoke' :
  guard_blocks step scope invoke (chain r) = true -> (forall ic, ic ∈ chain r -> same_answer (invoke ic) (invoke' ic)) ->
  runHook observer r step scope invoke' = runHook observer r step scope invoke.
Proof.
  intros Hg H. destruct (found_same step scope _ _ _ H) as [Hf Hg']. destruct (failures_same scope _ _ _ H) as (Hl & Hc & Hd).
  unfold runHook.
  destruct (run_chain step scope invoke (chain r) (mkHookState [] [] VerdictAllow false)) as (-> & -> & -> & ->).
  destruct (run_chain step scope invoke' (chain r) (mkHookState [] [] VerdictAllow false)) as (-> & -> & -> & ->).
  cbn [all errs verdict scrub app orb]. rewrite <- Hg', Hg, (scrubbed_same _ _ Hf).
  fold (top_verdict (found step scope invoke (chain r))) (top_verdict (found step scope invoke' (chain r))).
  rewrite (top_verdict_same _ _ Hf). pose proof (final_errors_same _ _ [] Hl Hc Hd) as E0. rewrite !app_nil_r in E0.
  pose proof (fun x => final_errors_same _ _ [ObserverFailed x] Hl Hc Hd) as E1. unfold final_errors in E0, E1.
  cbn [chain risk current published]. destruct (map scrubbed _) as [|f fs]; [by rewrite E0|].
  destruct observer as [told|]; [|by rewrite E0]. destruct (told _ _) as [e|]; [by rewrite E1|by rewrite E0].
Qed.

(** ** The risk score *)

(** An inspection by one of the four entry points. *)
Inductive inspection :=
| Initial (system summary : string) (msgs : list Message)
| Output (step : Z) (content thinking : string) (calls : list ToolCall)
| Call (step : Z) (call : ToolCall) (effect : Effect)
| Observation (step : Z) (m : InspectedMessage).

Section Runs.
Context (observer : option (nat -> InterceptionEvent -> option foreignError)).

Definition inspect_step (r : interceptorRun) (op : inspection) : interceptorRun :=
  match op with
  | Initial system summary msgs => (inspectInitial observer r system summary msgs).1
  | Output step content thinking calls => (inspectOutput observer r step content thinking calls).1
  | Call step call effect => (inspectToolCall observer r step call effect).1
  | Observation step m => (inspectObservation observer r step m).1
  end.

Definition scored (r : interceptorRun) : Prop :=
  Score (risk r) = Z.min MaxInt (Zsum (map Risk (Findings (risk r)))) /\ Forall (fun f => 0 <= Risk f <= 100) (Findings (risk r)).

Lemma addSaturating_min a b : addSaturating a b = Z.min MaxInt (a + b).
Proof. unfold addSaturating. destruct (Z.ltb_spec (MaxInt - a) b); lia. Qed.

Lemma saturating_sum fs : Forall (fun f => 0 <= Risk f <= 100) fs -> forall s t, s = Z.min MaxInt t ->
  fold_left (fun s f => addSaturating s (Risk f)) fs s = Z.min MaxInt (t + Zsum (map Risk fs)).
Proof.
  induction 1 as [|f fs Hf _ IH]; intros s t ->; simpl; [f_equal; lia|].
  rewrite (IH _ (t + Risk f)) by (rewrite addSaturating_min; lia). f_equal. lia.
Qed.

Lemma found_risk step scope invoke c : Forall (fun f => 0 <= Risk f <= 100) (found step scope invoke c).
Proof.
  apply Forall_forall. intros f Hf. unfold found in Hf. apply list_elem_of_In, in_concat in Hf as (l & Hl & Hf).
  apply in_map_iff in Hl as (ic & <- & _). apply in_map_iff in Hf as (g & <- & _).
  apply (k_risk _ _ _ _ (normalize_meets_contract g (name ic) step scope)).
Qed.

Lemma scored_hook r step scope invoke :
  scored r -> scored (runHook observer r step scope invoke).1.
Proof.
  intros [Hs Hf]. pose proof (runHook_spec observer r step scope invoke) as H.
  destruct (runHook _ _ _ _ _) as [r' [[[fs v] s] es]]. destruct H as (Efs & _ & _ & _ & _ & EF & ES & _). unfold scored. cbn [fst].
  assert (Forall (fun f => 0 <= Risk f <= 100) fs) as Hfs.
  { subst fs. unfold hook_findings. pose proof (found_risk step scope invoke (chain r)) as H. destruct (guard_blocks _ _ _ _); [|done].
    by apply Forall_map. }
  rewrite ES, EF, map_app, Zsum_app. split; [by apply saturating_sum|by apply Forall_app].
Qed.

Lemma scored_step r op : scored r -> scored (inspect_step r op).
Proof.
  intros Hr. destruct op; cbn [inspect_step]; unfold inspectInitial, inspectOutput, inspectToolCall, inspectObservation;
    (destruct (chain r); [done|]);
    match goal with |- context [runHook ?o ?r ?st ?sc ?i] => pose proof (scored_hook r st sc i Hr) as H; destruct (runHook o r st sc i) as [r' [[[fs v] s] es]] end;
    repeat case_match; exact H.
Qed.
End Runs.

(** ** Verdicts *)

Definition is_blocked (e : failure) : bool := match e with Blocked _ => true | _ => false end.

Lemma failures_not_blocked scope invoke c : existsb is_blocked (failures scope invoke c) = false.
Proof.
  unfold failures. induction c as [|ic c IH]; [done|]. cbn [omap list_omap]. destruct (invoke ic).2; exact IH.
Qed.

Lemma runHook_not_blocked observer r step scope invoke :
  existsb is_blocked (runHook observer r step scope invoke).2.2 = false.
Proof.
  unfold runHook. destruct (run_chain step scope invoke (chain r) (mkHookState [] [] VerdictAllow false)) as (_ & -> & _ & ->).
  cbn [errs scrub app orb]. pose proof (failures_not_blocked scope invoke (chain r)) as Hb.
  assert (forall s es, existsb is_blocked es = false -> existsb is_blocked (final_errors s es) = false) as H.
  { intros s es He. unfold final_errors. destruct es; [done|]. destruct s; [|done]. unfold suppress. by destruct (existsb canceled_by _), (existsb deadline_by _). }
  set (fs := if guard_blocks step scope invoke (chain r) then _ else _). destruct fs as [|f0 fs0]; [by apply (H (guard_blocks step scope invoke (chain r)))|].
  destruct observer as [told|]; [|by apply (H (guard_blocks step scope invoke (chain r)))].
  destruct (told _ _); apply (H (guard_blocks step scope invoke (chain r))); [|done]. by rewrite existsb_app, Hb.
Qed.

Lemma top_verdict_spec fs : VerdictAllow <= top_verdict fs /\ Forall (fun f => f_Verdict f <= top_verdict fs) fs /\
  (VerdictAllow < top_verdict fs -> exists f, f ∈ fs /\ f_Verdict f = top_verdict fs).
Proof.
  unfold top_verdict. generalize VerdictAllow. induction fs as [|f fs IH]; intros v; simpl; [split_and!; [lia|done|lia]|].
  set (w := if v <? f_Verdict f then f_Verdict f else v). destruct (IH w) as (H1 & H2 & H3).
  assert (v <= w /\ f_Verdict f <= w) as [Hv Hf] by (subst w; destruct (Z.ltb_spec v (f_Verdict f)); lia).
  split_and!; [lia|constructor; [lia|done]|]. intros Hlt.
  destruct (Z.eq_dec w (fold_left (fun top f => if top <? f_Verdict f then f_Verdict f else top) fs w)) as [E|E].
  - exists f. split; [by left|]. rewrite <- E. subst w. destruct (Z.ltb_spec v (f_Verdict f)); [done|]. lia.
  - destruct H3 as (g & Hg & Eg); [lia|]. exists g. split; [by right|done].
Qed.

Lemma cause_spec fs : VerdictAllow < top_verdict fs -> exists pre post, fs = pre ++ cause fs :: post /\
  f_Verdict (cause fs) = top_verdict fs /\ Forall (fun f => f_Verdict f < top_verdict fs) pre.
Proof.
  intros H. destruct (top_verdict_spec fs) as (_ & Hall & Hex). specialize (Hex H) as (g & Hg & Eg).
  unfold cause. revert Hall Eg. generalize (top_verdict fs) as v. intros v Hall Eg. clear H.
  induction fs as [|f fs IH]; [by apply elem_of_nil in Hg|]. simpl. apply Forall_cons in Hall as [Hf Hall].
  destruct (Z.eqb_spec (f_Verdict f) v) as [E|E]; [by exists [], fs|].
  apply elem_of_cons in Hg as [->|Hg]; [done|]. destruct (IH Hg Hall) as (pre & post & Efs & Ev & Hp).
  exists (f :: pre), post. rewrite Efs at 1. split_and!; [done|done|]. constructor; [lia|done].
Qed.

Lemma found_verdict step scope invoke c : Forall (fun f => f_Verdict f <= VerdictAbort) (found step scope invoke c).
Proof.
  apply Forall_forall. intros f Hf. unfold found in Hf. apply list_elem_of_In, in_concat in Hf as (l & Hl & Hf).
  apply in_map_iff in Hl as (ic & <- & _). apply in_map_iff in Hf as (g & <- & _).
  apply (k_verdict _ _ _ _ (normalize_meets_contract g (name ic) step scope)).
Qed.

Lemma top_verdict_scrubbed fs : top_verdict (map scrubbed fs) = top_verdict fs.
Proof. unfold top_verdict. generalize VerdictAllow. induction fs as [|f fs IH]; intros v; [done|]. apply IH. Qed.

Lemma hook_findings_verdict r step scope invoke :
  top_verdict (found step scope invoke (chain r)) = top_verdict (hook_findings r step scope invoke) /\
  top_verdict (hook_findings r step scope invoke) <= VerdictAbort.
Proof.
  assert (top_verdict (found step scope invoke (chain r)) = top_verdict (hook_findings r step scope invoke)) as E.
  { unfold hook_findings. destruct (guard_blocks _ _ _ _); [by rewrite top_verdict_scrubbed|done]. }
  split; [done|]. rewrite <- E. destruct (top_verdict_spec (found step scope invoke (chain r))) as (H0 & _ & H).
  destruct (Z.ltb_spec VerdictAllow (top_verdict (found step scope invoke (chain r)))) as [Hlt|Hle]; [|unfold VerdictAllow, VerdictAbort in *; lia].
  destruct (H Hlt) as (f & Hf & <-). pose proof (found_verdict step scope invoke (chain r)) as Ha. rewrite Forall_forall in Ha. by apply Ha.
Qed.

(** ** The resolved chain *)

Lemma validated_names_from ic : forall i seen names, validatedInterceptorNames_from i seen ic = Ok names ->
  NoDup names /\ Forall (fun n => validName n = true) names /\ Forall (fun n => n ∉ seen) names /\
  map (fun it => i_Name <$> it) ic = map Some names.
Proof.
  induction ic as [|[it|] ic IH]; intros i seen names; cbn [validatedInterceptorNames_from]; [intros [= <-]|..|done].
  { split_and!; by constructor. }
  case_bool_decide as E; [done|]. destruct (validName (i_Name it)) eqn:Ev; [cbn [negb]|done]. case_bool_decide as Hs; [done|].
  destruct (validatedInterceptorNames_from _ _ ic) as [names'|] eqn:En; [|done]. intros [= <-].
  apply IH in En as (H1 & H2 & H3 & H4). split_and!.
  - constructor; [|done]. rewrite Forall_forall in H3. intros Hin. apply H3 in Hin. apply Hin. by left.
  - by constructor.
  - constructor; [done|]. eapply Forall_impl; [exact H3|]. intros n Hn Hin. apply Hn. by right.
  - simpl. by rewrite H4.
Qed.

Lemma resolve_names system ic : forall names addenda out addenda', map (fun it => i_Name <$> it) ic = map Some names ->
  resolve_from system ic names addenda = Ok (out, addenda') -> map name out = names.
Proof.
  induction ic as [|[it|] ic IH]; intros [|n names] addenda out addenda' H; try done; [by intros [= <- _]|].
  injection H as _ H. cbn [resolve_from].
  assert (forall resolved a, match resolve_from system ic names a with Err e => Err e | Ok (out, addenda) => Ok (named n resolved :: out, addenda) end =
    Ok (out, addenda') -> map name out = n :: names) as Hgo.
  { intros resolved a. destruct (resolve_from system ic names a) as [[out1 a1]|] eqn:E; [|done]. intros [= <- _]. simpl. f_equal. by eapply IH. }
  destruct (ForRun it) as [forRun|]; [|apply Hgo]. destruct (forRun system) as [[[[n' scoped]|] addendum]|]; [|done|done].
  case_bool_decide; [done|]. apply Hgo.
Qed.

(** The names of a run's chain are the installed ones, valid and distinct. *)
Lemma resolved_chain system ic out addenda : resolveInterceptors system ic = Ok (out, addenda) ->
  map (fun it => i_Name <$> it) ic = map Some (map name out) /\ NoDup (map name out) /\ Forall (fun n => validName n = true) (map name out).
Proof.
  unfold resolveInterceptors, validatedInterceptorNames. destruct (validatedInterceptorNames_from 0 [] ic) as [names|] eqn:En; [|done].
  intros E. apply validated_names_from in En as (H1 & H2 & _ & H4). pose proof (resolve_names _ _ _ _ _ _ H4 E) as ->. done.
Qed.

(** ** Properties *)

(** C31: a finding the pipeline has normalised for a hook carries the name of
    its interceptor, the hook and the step, a rule of one nonempty line of at
    most 64 bytes, a detail of one line of at most 256 bytes, a known verdict,
    a risk within [0, 100], and a target the hook accepts that names something
    inspected: the system prompt or the summary where there is one, a message of
    the hook's scope by its index, one of that message's alternatives by its group
    and number, one of the calls of the output, or the call at hand, each with
    its origin.  When the messages inspected have distinct indices, a finding that
    is so already is left as it is. *)
Theorem finding_contract name step scope f :
  contract name step scope (normalizeFinding f name step scope) /\
  (NoDup (map im_StateIndex (messages scope)) -> contract name step scope f -> normalizeFinding f name step scope = f).
Proof. split; [apply normalize_meets_contract|apply normalize_contract_id]. Qed.

Definition textless (f : Finding) : Prop := Detail f = EmptyString /\ f_ToolCallID f = EmptyString.

(** C30: when an interceptor that guards protected text blocks, and only then,
    the invocation is marked sensitive: no finding keeps detail or call id,
    the published event has no call id, only the marker of suppression and
    cancellation are left of the errors, and everything that comes of the
    invocation (state, risk, telemetry, findings and errors) is the same
    whatever the details and error texts of any interceptor were. *)
Theorem sensitive_block_scrubs observer r step scope invoke :
  let '(r', (fs, v, s, es)) := runHook observer r step scope invoke in
  s = guard_blocks step scope invoke (chain r) /\
  (s = true ->
   Forall textless fs /\
   Forall (fun e => e = ErrDiagnosticsSuppressed \/ e = Canceled \/ e = DeadlineExceeded) es /\
   (exists evs, published r' = published r ++ evs /\ Forall (fun e => e_ToolCallID e = EmptyString /\ e_Findings e = fs) evs) /\
   forall invoke', (forall ic, ic ∈ chain r -> same_answer (invoke ic) (invoke' ic)) ->
     runHook observer r step scope invoke' = (r', (fs, v, s, es))).
Proof.
  pose proof (runHook_spec observer r step scope invoke) as H.
  destruct (runHook observer r step scope invoke) as [r' [[[fs v] s] es]] eqn:E.
  destruct H as (Hfs & _ & Hs & _). split; [done|]. intros ->. symmetry in Hs. unfold hook_findings in Hfs. rewrite Hs in Hfs.
  split_and!.
  - subst fs. apply Forall_map, Forall_forall. by intros f _.
  - unfold runHook in E. revert E. generalize (fold_left (run_one step scope invoke) (chain r) (mkHookState [] [] VerdictAllow false)).
    intros st E. destruct (match _ with [] => _ | _ :: _ => _ end) as [r1 es1]. injection E as _ _ _ Hsc <-. rewrite Hsc.
    destruct es1; [done|]. unfold suppress. constructor; [by left|]. apply Forall_app. split; destruct (existsb _ _); rewrite ?Forall_singleton; auto.
  - unfold runHook in E. revert E. generalize (fold_left (run_one step scope invoke) (chain r) (mkHookState [] [] VerdictAllow false)).
    intros st E. cbn [chain risk current published] in E. set (gs := if scrub st then _ else _) in E.
    destruct gs as [|g gs']; [|destruct observer as [told|]; [destruct (told _ _)|]];
      injection E as <- <- _ Hsc _; cbn [published].
    + exists []. by rewrite app_nil_r.
    + eexists. split; [done|]. rewrite Hsc. by repeat constructor.
    + eexists. split; [done|]. rewrite Hsc. by repeat constructor.
    + exists []. by rewrite app_nil_r.
  - intros invoke' Hsame. rewrite (runHook_same _ _ _ _ _ _ Hs Hsame), E. done.
Qed.

(** after any inspections of a run, by whatever chain, the score is the
    sum of the risks of all findings kept so far, capped at the largest int,
    each risk being within [0, 100]. *)
Theorem risk_saturates observer chain ops :
  let r := fold_left (inspect_step observer) ops (newRun chain) in
  Score (risk r) = Z.min MaxInt (Zsum (map Risk (Findings (risk r)))) /\
  Forall (fun f => 0 <= Risk f <= 100) (Findings (risk r)).
Proof.
  cbn zeta. change (scored (fold_left (inspect_step observer) ops (newRun chain))).
  assert (scored (newRun chain)) as H by (by split). revert H. generalize (newRun chain).
  induction ops as [|op ops IH]; intros r H; [done|]. simpl. by apply IH, scored_step.
Qed.

(** What the chain is asked about a tool call. *)
Definition call_scope (call : ToolCall) : hookScope := mkScope HookToolCall [] false false [] (tc_ID call).
Definition ask_call (r : interceptorRun) (step : Z) (call : ToolCall) (effect : Effect) (ic : namedInterceptor) : answer :=
  InspectToolCall ic (invocations r) (mkToolCallInspection step call effect).

(** a tool call goes on exactly when no interceptor (nor the observer)
    failed and no finding asks for more than a tag; it is blocked, in the name
    of the first finding that blocks, when none failed, some finding blocks and
    none aborts; otherwise the run ends, with a block among its errors exactly
    when some finding asks for one.  What the approver then sees as the
    findings of this call are the findings of this inspection. *)
Theorem tool_call_verdict observer r step call effect :
  let '(r', out) := inspectToolCall observer r step call effect in
  let fs := hook_findings r step (call_scope call) (ask_call r step call effect) in
  let failed := failures (call_scope call) (ask_call r step call effect) (chain r) in
  (chain r <> [] -> CurrentToolCallFindings (snapshot r') = fs) /\
  match out with
  | Ok None => failed = [] /\ Forall (fun f => f_Verdict f < VerdictBlock) fs
  | Ok (Some f) =>
      failed = [] /\ Forall (fun f => f_Verdict f <= VerdictBlock) fs /\
      exists pre post, fs = pre ++ f :: post /\ f_Verdict f = VerdictBlock /\ Forall (fun f => f_Verdict f < VerdictBlock) pre
  | Err es => es <> [] /\ (existsb is_blocked es = true <-> Exists (fun f => VerdictBlock <= f_Verdict f) fs)
  end.
Proof.
  unfold inspectToolCall. destruct (chain r) as [|ic c] eqn:Ec.
  { split; [done|]. unfold hook_findings, found, failures. rewrite Ec. by split. }
  rewrite <- Ec. clear Ec ic c. fold (call_scope call) (ask_call r step call effect).
  pose proof (runHook_spec observer r step (call_scope call) (ask_call r step call effect)) as H.
  pose proof (runHook_not_blocked observer r step (call_scope call) (ask_call r step call effect)) as Hb.
  destruct (runHook observer r step _ _) as [r' [[[fs v] s] es]]. destruct H as (-> & -> & _ & _ & _ & _ & _ & Hes). cbn [snd] in Hb.
  destruct (hook_findings_verdict r step (call_scope call) (ask_call r step call effect)) as [-> Hle].
  set (fs := hook_findings _ _ _ _) in *. destruct (top_verdict_spec fs) as (H0 & Hall & Hex). cbv [VerdictAbort VerdictAllow VerdictBlock] in *.
  set (v := top_verdict fs) in *.
  assert (forall n, v <= n -> Forall (fun f => f_Verdict f <= n) fs) as Hle_all.
  { intros n Hn. eapply Forall_impl; [exact Hall|]. simpl. lia. }
  assert (forall errs, existsb is_blocked errs = false -> (existsb is_blocked (terminalAt VerdictAbort HookToolCall step fs v s errs) = true <->
    2 <= v /\ ~ (v < 3 /\ errs = []))) as Hterm.
  { intros errs Hn. unfold terminalAt, VerdictBlock, VerdictAbort. destruct (Z.ltb_spec v 2); cbn [orb]; [rewrite Hn; split; [done|lia]|].
    destruct (Z.ltb_spec v 3), errs; cbn; split; try done; first [intros _; split; [lia|intros [? ?]; first [done|lia]]|intros [_ []]; done]. }
  destruct (negb (len es =? 0) || (v =? 3)) eqn:Ex.
  - split; [done|]. split.
    + unfold terminalAt. destruct es as [|e es]; [|by case_match]. cbn in Ex. apply Z.eqb_eq in Ex. by rewrite Ex.
    + etrans; [by apply Hterm|]. rewrite Exists_exists. split.
      * intros [H2 _]. destruct Hex as (f & Hf & Ev); [lia|]. exists f. split; [done|lia].
      * intros (f & Hf & Hv). rewrite Forall_forall in Hall. specialize (Hall _ Hf). split; [lia|]. intros [Hlt ->].
        cbn in Ex. apply Z.eqb_eq in Ex. lia.
  - apply orb_false_iff in Ex as [Ees Ev]. apply Z.eqb_neq in Ev. destruct es; [|done].
    assert (failures (call_scope call) (ask_call r step call effect) (chain r) = []) as ->.
    { destruct (failures _ _ _); [done|]. by destruct Hes. }
    destruct (Z.eqb_spec v 2) as [E2|E2]; (split; [done|split; [done|]]).
    + split; [apply Hle_all; lia|]. destruct (cause_spec fs) as (pre & post & Efs & Ec & Hp); [fold v; cbv [VerdictAllow]; lia|].
      exists pre, post. fold v in Ec, Hp. rewrite E2 in Ec, Hp. by split_and!.
    + eapply Forall_impl; [apply (Hle_all 1); lia|]. simpl. lia.
Qed.

(** ** A guard at work *)

Definition demo_guard : namedInterceptor :=
  mkNamedInterceptor "configured-secrets" (Some (fun s => bool_decide (s = "hunter2"%string)))
    (fun _ _ => ([], None)) (fun _ _ => ([], None))
    (fun _ _ => ([mkFinding "x" "configured-secret" 2 70 "hunter2 in the arguments" OriginUnknown None 0 TargetNone 0 "" 0 0], None)).
Definition demo_noisy : namedInterceptor :=
  mkNamedInterceptor "policy" None (fun _ _ => ([], None)) (fun _ _ => ([], None))
    (fun _ c => ([mkFinding "x" "" 1 400 (tc_Arguments (tci_Call c)) 77 None 0 TargetSystem 0 "id" 0 0], None)).

Example guard_scrubs :
  let r := inspectToolCall None (newRun [demo_noisy; demo_guard]) 3 (mkToolCall "c1" "function" "run" "hunter2") noEffect in
  (exists f, r.2 = Ok (Some f) /\ Interceptor f = "configured-secrets"%string) /\
  map Detail (Findings (risk r.1)) = [""; ""]%string /\ map Rule (Findings (risk r.1)) = ["unspecified"; "configured-secret"]%string /\
  Score (risk r.1) = 170.
Proof. vm_compute. split; [by eexists|done]. Qed.
