(* ===== verification/RouterScore.v ===== *)
(** * RouterScore: candidate scoring (provider/router_score.go, provider/router.go)

    The signals of a candidate, the weighted score over them and the order the
    router ranks candidates in.  Scores are binary64. *)

From S2P Require Import GoString GoFloat Prelude ModelKey RouteErrors Breaker Request.

Record WeightProfile := mkWeights {
  w_Warmth : Z; w_Headroom : Z; w_Feedback : Z; w_Quality : Z; w_Speed : Z; w_KVCache : Z; w_Cost : Z;
}.

(** The literal table, with "tool-use" an alias of "agent". *)
Definition defaultWeightProfile (useCase : string) : WeightProfile :=
  if string_eqb useCase "fim" then mkWeights 2 1 1 1 2 3 1
  else if string_eqb useCase "chat" then mkWeights 1 2 3 4 1 0 1
  else if string_eqb useCase "embedding" then mkWeights 0 0 1 3 2 0 2
  else if string_eqb useCase "reasoning" then mkWeights 1 3 3 5 0 0 1
  else if string_eqb useCase "analysis" then mkWeights 1 3 3 5 1 0 1
  else if string_eqb useCase "code-review" then mkWeights 1 3 4 3 1 0 1
  else if string_eqb useCase "agent" then mkWeights 2 2 4 4 3 1 1
  else if string_eqb useCase "tool-use" then mkWeights 2 2 4 4 3 1 1
  else mkWeights 1 2 3 4 1 0 1.

(** [0.3]. *)
Definition warmthBonusMax : float64 := flit 3 10.

Record Aggregate := mkAggregate {
  ag_Score : float64; SampleCount : Z; ScoredCount : Z; UpdatedAt : Z;
}.

Record candidateFeedback := mkFeedback { raw : Aggregate; adjusted : float64 }.

Definition feedbackMinScoredCount : Z := 3.
Definition feedbackPriorSamples : Z := 10.

Definition adjustFeedbackScore (agg : Aggregate) : float64 :=
  if ScoredCount agg <? feedbackMinScoredCount then flit 1 2
  else if is_nan (ag_Score agg) || is_inf (ag_Score agg) || flt (ag_Score agg) fzero ||
          flt fone (ag_Score agg) then flit 1 2
  else
    let confidence := fdiv (of_int (ScoredCount agg))
                        (of_int (wrap_int (ScoredCount agg + feedbackPriorSamples))) in
    fadd (flit 1 2) (fmul (fsub (ag_Score agg) (flit 1 2)) confidence).

Record scoreBreakdown := mkBreakdown {
  warmthBonus : float64;
  headroomScore : float64;
  feedbackScore : float64;
  qualityTier : float64;
  speedTier : float64;
  kvCacheBonus : float64;
  costPenalty : float64;
  breakerPenalty : float64;
  capabilityGate : bool;
  feedbackActive : bool;
  feedbackRaw : option Aggregate;
  feedbackAdjusted : float64;
  scoreWithoutFeedback : float64;
  scoreWithFeedback : float64;
}.

Definition tierToFloat (t : Tier) : float64 :=
  match t with
  | TierBasic => flit 1 4
  | TierGood => flit 1 2
  | TierGreat => flit 3 4
  | TierBest => fone
  end.

Section Scoring.
(** Whether a warmth source is set, and what it answers. *)
Context (warmth : option (ModelKey -> bool)).

Definition is_warm (key : ModelKey) : bool :=
  match warmth with Some w => w key | None => false end.

(** The breakdown of one candidate, and the breaker after [Allow] was asked at
    time [now]: it is asked only behind the capability gate. *)
Definition scoreCandidate (profile : ModelProfile) (req : RoutingRequest) (budget : BudgetResult)
    (feedback : option candidateFeedback) (now : Z) (breaker : CircuitBreaker goerr) :
    scoreBreakdown * CircuitBreaker goerr :=
  let fb := match feedback with Some f => adjusted f | None => flit 1 2 end in
  let bd warm pen gate :=
    mkBreakdown warm (HeadroomScore budget) fb (tierToFloat (Quality profile))
      (tierToFloat (Speed profile)) fzero fzero pen gate (opt_b feedback)
      (option_map raw feedback) (match feedback with Some f => adjusted f | None => fzero end)
      fzero fzero in
  if negb (profileSatisfiesRequiredCaps profile (RequiredCaps req))
  then (bd fzero fzero false, breaker)
  else
    let '(allowed, breaker) := Allow now breaker in
    if negb allowed then (bd fzero neg_inf true, breaker)
    else (bd (if is_warm (Key profile) then warmthBonusMax else fzero) fzero true, breaker).

Definition scoreBreakdownWithNeutralFeedback (bd : scoreBreakdown) : scoreBreakdown :=
  mkBreakdown (warmthBonus bd) (headroomScore bd) (flit 1 2) (qualityTier bd) (speedTier bd)
    (kvCacheBonus bd) (costPenalty bd) (breakerPenalty bd) (capabilityGate bd)
    (feedbackActive bd) (feedbackRaw bd) (feedbackAdjusted bd) (scoreWithoutFeedback bd)
    (scoreWithFeedback bd).

(** [enforced]: the snapshot is active and the mode is Enforce. *)
Definition scoreBreakdownForSelection (bd : scoreBreakdown) (enforced : bool) : scoreBreakdown :=
  if enforced then bd else scoreBreakdownWithNeutralFeedback bd.

(** [baseActiveSignals]; the selection and delta sets are the same. *)
Definition baseActiveSignals (name : string) : bool :=
  existsb (string_eqb name) ["feedback"; "headroom"; "quality"; "speed"; "kvcache"; "cost"] ||
  string_eqb name "warmth" && opt_b warmth.

Definition computeWeightedScore (bd : scoreBreakdown) (useCase : string)
    (activeSignals : string -> bool) (customWeights : option WeightProfile) : float64 :=
  let wp := match customWeights with Some w => w | None => defaultWeightProfile useCase end in
  let signals :=
    [("warmth", fdiv (warmthBonus bd) warmthBonusMax, w_Warmth wp);
     ("headroom", headroomScore bd, w_Headroom wp);
     ("feedback", feedbackScore bd, w_Feedback wp);
     ("quality", qualityTier bd, w_Quality wp);
     ("speed", speedTier bd, w_Speed wp);
     ("kvcache", kvCacheBonus bd, w_KVCache wp);
     ("cost", fsub fone (costPenalty bd), w_Cost wp)] in
  let '(weightedSum, totalWeight) :=
    fold_left (fun acc s =>
      let '(name, value, weight) := s in
      if negb (activeSignals name) || (weight <=? 0) then acc
      else let w := of_int weight in
           (fadd acc.1 (fmul value w), fadd acc.2 w))
      signals (fzero, fzero) in
  if feq totalWeight fzero then fzero else fdiv weightedSum totalWeight.

(** ** Ranking *)

Record scoredCandidate := mkScored {
  profile : ModelProfile;
  budget : BudgetResult;
  score : float64;
  bd : scoreBreakdown;
}.

Definition key_string (k : ModelKey) : string := Provider k +:+ "/" +:+ ModelKey.Model k.

Definition less (a b : scoredCandidate) : bool :=
  if negb (feq (score a) (score b)) then flt (score b) (score a)
  else if negb (Bool.eqb (is_warm (Key (profile a))) (is_warm (Key (profile b))))
  then is_warm (Key (profile a))
  else if negb (ContextWindow (profile a) =? ContextWindow (profile b))
  then ContextWindow (profile b) <? ContextWindow (profile a)
  else String.ltb (key_string (Key (profile a))) (key_string (Key (profile b))).

(** [sort.SliceStable]: for an order, the one stable arrangement. *)
Fixpoint insertStable (x : scoredCandidate) (l : list scoredCandidate) : list scoredCandidate :=
  match l with
  | [] => [x]
  | y :: l => if less y x then y :: insertStable x l else x :: y :: l
  end.

Definition sortScoredCandidates (l : list scoredCandidate) : list scoredCandidate :=
  fold_right insertStable [] l.

(** ** Facts *)

Lemma insertStable_Permutation x l : insertStable x l ≡ₚ x :: l.
Proof.
  induction l as [|y l IH]; simpl; [done|]. destruct (less y x); [|done].
  rewrite IH. apply Permutation_swap.
Qed.

Lemma sort_Permutation l : sortScoredCandidates l ≡ₚ l.
Proof. induction l as [|x l IH]; simpl; [done|]. by rewrite insertStable_Permutation, IH. Qed.

(** [b] does not come before [a]. *)
Definition not_after (a b : scoredCandidate) : Prop := less b a = false.

Definition rankable (a : scoredCandidate) : Prop := is_nan (score a) = false.

Definition warm_rank (a : scoredCandidate) : Z := Z.b2z (is_warm (Key (profile a))).

Lemma string_le_ltb a b : String.le a b <-> String.ltb b a = false.
Proof.
  unfold String.le, String.ltb, String.leb. rewrite (String.compare_antisym a).
  by destruct (String.compare b a).
Qed.

Lemma if_b2z (x y z : bool) :
  (if negb (Bool.eqb x y) then x else z) = false <->
  Z.b2z x < Z.b2z y \/ Z.b2z y = Z.b2z x /\ z = false.
Proof. destruct x, y; simpl; intuition lia. Qed.

(** The order as a lexicographic comparison. *)
Lemma not_after_lex a b :
  rankable a -> rankable b ->
  not_after a b <->
  lexlt (frank (score b)) (frank (score a)) \/
  frank (score a) = frank (score b) /\
  (warm_rank b < warm_rank a \/ warm_rank a = warm_rank b /\
   (ContextWindow (profile b) < ContextWindow (profile a) \/
    ContextWindow (profile a) = ContextWindow (profile b) /\
    String.le (key_string (Key (profile a))) (key_string (Key (profile b))))).
Proof.
  intros Ha Hb. unfold not_after, less, warm_rank.
  pose proof (feq_frank (score b) (score a) Hb Ha) as Heq.
  pose proof (flt_frank (score a) (score b) Ha Hb) as Hlt.
  pose proof (flt_frank (score b) (score a) Hb Ha) as Hlt'.
  destruct (feq (score b) (score a)) eqn:Hf; simpl.
  - assert (frank (score a) = frank (score b)) as Hr by (symmetry; by apply Heq).
    rewrite Hr. unfold lexlt.
    assert (Hctx : (if negb (ContextWindow (profile b) =? ContextWindow (profile a))
        then ContextWindow (profile a) <? ContextWindow (profile b)
        else String.ltb (key_string (Key (profile b))) (key_string (Key (profile a)))) = false <->
      ContextWindow (profile b) < ContextWindow (profile a) \/
      ContextWindow (profile a) = ContextWindow (profile b) /\
      String.le (key_string (Key (profile a))) (key_string (Key (profile b)))).
    { destruct (Z.eqb_spec (ContextWindow (profile b)) (ContextWindow (profile a))) as [Hc|Hc]; simpl.
      - rewrite <-string_le_ltb. intuition lia.
      - rewrite Z.ltb_ge. intuition lia. }
    rewrite (if_b2z (is_warm (Key (profile b))) (is_warm (Key (profile a)))), Hctx.
    intuition lia.
  - assert (frank (score b) <> frank (score a)) as Hne by (rewrite <-Heq; congruence).
    destruct (flt (score a) (score b)) eqn:Hl.
    + split; [done|]. destruct Hlt as [Hlt _]. specialize (Hlt eq_refl).
      unfold lexlt in *. intros [?|(? & _)]; [lia|congruence].
    + split; [intros _; left|done]. unfold lexlt in *.
      assert (~ lexlt (frank (score a)) (frank (score b))) as Hn
        by (intros Hn; apply Hlt in Hn; congruence).
      unfold lexlt in Hn.
      destruct (frank (score a)) as [a1 [a2 a3]], (frank (score b)) as [b1 [b2 b3]]. simpl in *.
      assert (a1 <> b1 \/ a2 <> b2 \/ a3 <> b3) by
        (destruct (Z.eq_dec a1 b1), (Z.eq_dec a2 b2), (Z.eq_dec a3 b3); subst; auto; done).
      lia.
Qed.

Lemma not_after_total a b : rankable a -> rankable b -> not_after a b \/ not_after b a.
Proof.
  intros Ha Hb. rewrite !not_after_lex by done.
  pose proof (total String.le (key_string (Key (profile a))) (key_string (Key (profile b)))).
  unfold lexlt. destruct (frank (score a)) as [a1 [a2 a3]], (frank (score b)) as [b1 [b2 b3]].
  simpl. destruct (Z.lt_total a1 b1) as [|[->|]]; [right; left; lia| |left; left; lia].
  destruct (Z.lt_total a2 b2) as [|[->|]]; [right; left; lia| |left; left; lia].
  destruct (Z.lt_total a3 b3) as [|[->|]]; [right; left; lia| |left; left; lia].
  destruct (Z.lt_total (warm_rank a) (warm_rank b)) as [?|[Hw|?]]; [by auto 6| |by auto 6].
  destruct (Z.lt_total (ContextWindow (profile a)) (ContextWindow (profile b))) as [?|[Hc|?]];
    [by auto 10| |by auto 10].
  destruct H; [left|right]; right; auto 10.
Qed.

Lemma not_after_trans a b c :
  rankable a -> rankable b -> rankable c -> not_after a b -> not_after b c -> not_after a c.
Proof.
  intros Ha Hb Hc. rewrite !not_after_lex by done.
  pose proof (transitivity (R := String.le) (x := key_string (Key (profile a)))
    (y := key_string (Key (profile b))) (z := key_string (Key (profile c)))).
  unfold lexlt. destruct (frank (score a)) as [a1 [a2 a3]], (frank (score b)) as [b1 [b2 b3]],
    (frank (score c)) as [c1 [c2 c3]]. simpl.
  intros [H1|(E1 & H1)] [H2|(E2 & H2)]; simplify_eq; try (left; lia).
  right. split; [done|]. intuition lia.
Qed.

Lemma not_after_antisym a b :
  rankable a -> rankable b -> not_after a b -> not_after b a ->
  key_string (Key (profile a)) = key_string (Key (profile b)).
Proof.
  intros Ha Hb. rewrite !not_after_lex by done. unfold lexlt.
  destruct (frank (score a)) as [a1 [a2 a3]], (frank (score b)) as [b1 [b2 b3]]. simpl.
  intros [H1|(E1 & [H1|(W1 & [H1|(C1 & L1)])])] [H2|(E2 & [H2|(W2 & [H2|(C2 & L2)])])];
    simplify_eq; try (exfalso; lia).
  by apply (anti_symm String.le).
Qed.

Lemma insert_sorted x l :
  rankable x -> Forall rankable l -> StronglySorted not_after l ->
  StronglySorted not_after (insertStable x l).
Proof.
  intros Hx Hl Hs. induction Hs as [|y l Hs IH Hy]; simpl.
  { by repeat constructor. }
  apply Forall_cons in Hl as [Hyr Hl]. destruct (less y x) eqn:Hless.
  - constructor; [by apply IH|]. rewrite insertStable_Permutation. constructor; [|done].
    destruct (not_after_total y x) as [|Hn]; [done..|]. unfold not_after in Hn. congruence.
  - constructor; [by constructor|]. constructor; [done|].
    rewrite Forall_forall in Hy, Hl |- *. intros z Hz.
    apply (not_after_trans x y z); auto.
Qed.

Lemma sort_sorted l :
  Forall rankable l -> StronglySorted not_after (sortScoredCandidates l).
Proof.
  induction 1 as [|x l Hx Hl IH]; simpl; [constructor|].
  apply insert_sorted; [done| |done]. by rewrite sort_Permutation.
Qed.

(** candidates whose scores are numbers are ranked by descending score, then
    warm models first, then the larger context window, then the key: the result
    is a sorted rearrangement of the candidates, and when their key texts differ
    it does not depend on the order in which they were scored. *)
Theorem ranking_deterministic l l' :
  Forall rankable l ->
  sortScoredCandidates l ≡ₚ l /\ StronglySorted not_after (sortScoredCandidates l) /\
  (l ≡ₚ l' -> NoDup (map (fun a => key_string (Key (profile a))) l) ->
   sortScoredCandidates l = sortScoredCandidates l').
Proof.
  intros Hl. split_and!; [apply sort_Permutation|by apply sort_sorted|].
  intros Hp Hnd. assert (Forall rankable l') as Hl' by by rewrite <-Hp.
  apply (StronglySorted_unique_strong not_after).
  - intros a b Ha Hb Hab Hba. rewrite sort_Permutation in Ha, Hb. rewrite <-Hp in Hb.
    assert (rankable a) as Hra by (rewrite Forall_forall in Hl; auto).
    assert (rankable b) as Hrb by (rewrite Forall_forall in Hl; auto).
    pose proof (not_after_antisym a b Hra Hrb Hab Hba) as Hk.
    apply list_elem_of_lookup in Ha as [i Hi], Hb as [j Hj].
    assert (i = j); [|congruence].
    eapply (NoDup_lookup _ _ _ _ Hnd); rewrite list_lookup_fmap;
      [by rewrite Hi|rewrite Hj; simpl; by rewrite Hk].
  - by apply sort_sorted.
  - by apply sort_sorted.
  - by rewrite !sort_Permutation.
Qed.
End Scoring.

(** ** The theorem at a concrete input *)

Definition scored0 (provider : string) (s : float64) : scoredCandidate :=
  mkScored (mkModelProfile (mkModelKey provider "qwen3") fzero CapChat ThinkAuto None TierGood TierGood
      4096 0 "")
    (mkBudgetResult BudgetOK 1 4096 fzero fone) s
    (mkBreakdown fzero fone fone fone fone fzero fzero fzero true false None fzero s s).

(** Ranked alike whichever was scored first; equal scores go by the key. *)
Lemma ranking_deterministic_witness :
  let a := scored0 "a" (flit 1 2) in let b := scored0 "b" (flit 1 2) in
  let c := scored0 "c" fone in
  sortScoredCandidates None [b; a; c] = [c; a; b] /\
  sortScoredCandidates None [b; a; c] = sortScoredCandidates None [c; b; a].
Proof.
  intros a b c. split; [vm_compute; reflexivity|].
  assert (Forall rankable [b; a; c]) as Hr by (repeat constructor).
  refine (proj2 (proj2 (ranking_deterministic None [b; a; c] [c; b; a] Hr)) _ _).
  - change ([b; a] ++ [c] ≡ₚ [c] ++ [b; a]). apply Permutation_app_comm.
  - simpl. repeat (constructor; [set_solver|]). constructor.
Defined.
