(* ===== verification/Router.v ===== *)
(** * Router: choosing a model for a request (provider/router.go, provider/router_chain.go)

    [Route] scores the candidates of a request behind the capability, RAM,
    breaker and budget gates, keeps a session on its model through the sticky
    cache, and builds a plan with fallbacks; [routeChain] does the same for an
    ordered list of preferred models.  The registry, the provider table, the
    feedback store, the context and the clock are arguments. *)

From S2P Require Import GoString GoFloat Prelude ModelKey RouteErrors Breaker Sticky Request.
From S2P Require Import RoutePlan RouterScore.

Abbreviation CB := (CircuitBreaker goerr).

Record FeedbackKey := mkFeedbackKey { fk_Provider : string; fk_Model : string; fk_UseCase : string }.

#[export] Instance FeedbackKey_eq_dec : EqDecision FeedbackKey.
Proof. solve_decision. Defined.
#[export] Program Instance FeedbackKey_countable : Countable FeedbackKey :=
  inj_countable' (fun k => (fk_Provider k, fk_Model k, fk_UseCase k))
    (fun '(p, m, u) => mkFeedbackKey p m u) _.
Next Obligation. by intros []. Qed.

Inductive FeedbackScoringMode := FeedbackScoringOff | FeedbackScoringShadow | FeedbackScoringEnforce.

Inductive feedbackSnapshotStatus :=
| StatusOff | StatusNoStore | StatusEmptyUseCase | StatusReadError | StatusActive.

Record feedbackSnapshot := mkSnapshot {
  snap_active : bool;
  snap_failed : bool;
  snap_mode : FeedbackScoringMode;
  snap_status : feedbackSnapshotStatus;
  byKey : gmap FeedbackKey candidateFeedback;
}.

Record Router := mkRouter {
  closed : bool;
  breakers : gmap string CB;
  sticky : stickyCache float64 unit;
  stickyTTL : Z;
  hysteresisMargin : float64;
  maxFallbacks : Z;
  weightOverrides : gmap string WeightProfile;
  tokenBudget : TokenBudgetValidator;
  availableRAM : float64;
  hasAdmission : bool;
  hasDestGate : bool;
  hasFeedback : bool;
  feedbackScoringMode : FeedbackScoringMode;
  modelDefaults : gmap ModelKey SamplingDefaults;
}.

Definition with_breakers (r : Router) (b : gmap string CB) : Router :=
  mkRouter (closed r) b (sticky r) (stickyTTL r) (hysteresisMargin r) (maxFallbacks r)
    (weightOverrides r) (tokenBudget r) (availableRAM r) (hasAdmission r) (hasDestGate r)
    (hasFeedback r) (feedbackScoringMode r) (modelDefaults r).

Definition with_sticky (r : Router) (s : stickyCache float64 unit) : Router :=
  mkRouter (closed r) (breakers r) s (stickyTTL r) (hysteresisMargin r) (maxFallbacks r)
    (weightOverrides r) (tokenBudget r) (availableRAM r) (hasAdmission r) (hasDestGate r)
    (hasFeedback r) (feedbackScoringMode r) (modelDefaults r).

(** The breaker of a provider, created on first use. *)
Definition getOrCreateBreaker (provider : string) (r : Router) : CB * Router :=
  match breakers r !! provider with
  | Some cb => (cb, r)
  | None => let cb := NewCircuitBreaker [] in
            (cb, with_breakers r (<[provider := cb]> (breakers r)))
  end.

(** Breakers are shared pointers: what a method does to one is seen in the map. *)
Definition set_breaker (provider : string) (cb : CB) (r : Router) : Router :=
  with_breakers r (<[provider := cb]> (breakers r)).

Definition RecordSuccess (key : ModelKey) (r : Router) : Router :=
  let '(cb, r) := getOrCreateBreaker (Provider key) r in
  set_breaker (Provider key) (Breaker.RecordSuccess cb) r.

Definition RecordFailure (now : Z) (key : ModelKey) (err : goerr) (r : Router) : Router :=
  if IsInfrastructureError (Some err) then
    let '(cb, r) := getOrCreateBreaker (Provider key) r in
    let r := set_breaker (Provider key) (Breaker.RecordFailure now err cb) r in
    with_sticky r (invalidateProvider (Provider key) (sticky r))
  else r.

Definition SLASH : Ascii.ascii := Ascii.Ascii true true true true false true false false.

(** [strings.Cut(selector, "/")]. *)
Fixpoint cut_slash (s : string) : option (string * string) :=
  match s with
  | EmptyString => None
  | String a s =>
      if Ascii.eqb a SLASH then Some ("", s)
      else match cut_slash s with
           | Some (p, m) => Some (String a p, m)
           | None => None
           end
  end.

Definition parseModelSelector (selector : string) : option ModelKey :=
  match cut_slash selector with
  | Some (p, m) => Some (mkModelKey p m)
  | None => None
  end.

Section Route.
Context (warmth : option (ModelKey -> bool)).
(** [RoutingFeedback.Score]. *)
Context (fbScore : FeedbackKey -> result goerr Aggregate).
(** [providers.Resolve]: why the provider of a key cannot be had, if so. *)
Context (resolveProvider : ModelKey -> option goerr).
(** The clock reading of the [j]-th breaker question of a call. *)
Context (now : nat -> Z).

(** ** The feedback snapshot *)

Definition lookup (s : feedbackSnapshot) (key : FeedbackKey) : option candidateFeedback :=
  if negb (snap_active s) then None else byKey s !! key.

(** The loop of [readCandidates]: [seen] are the keys of this call. *)
Fixpoint readLoop (profiles : list ModelProfile) (useCase : string) (seen : list FeedbackKey)
    (s : feedbackSnapshot) : feedbackSnapshot :=
  match profiles with
  | [] => s
  | p :: profiles =>
      let key := mkFeedbackKey (Provider (Key p)) (ModelKey.Model (Key p)) useCase in
      if bool_decide (key ∈ seen) then readLoop profiles useCase seen s
      else
        let seen := key :: seen in
        match byKey s !! key with
        | Some _ => readLoop profiles useCase seen s
        | None =>
            match fbScore key with
            | Err _ => mkSnapshot false true (snap_mode s) StatusReadError ∅
            | Ok agg =>
                readLoop profiles useCase seen
                  (mkSnapshot (snap_active s) (snap_failed s) (snap_mode s) (snap_status s)
                     (<[key := mkFeedback agg (adjustFeedbackScore agg)]> (byKey s)))
            end
        end
  end.

Definition readCandidates (r : Router) (profiles : list ModelProfile) (useCase : string)
    (s : feedbackSnapshot) : feedbackSnapshot :=
  if snap_failed s || negb (snap_active s) || negb (hasFeedback r) || string_eqb useCase "" then s
  else readLoop profiles useCase [] s.

Definition buildFeedbackSnapshot (r : Router) (candidates : list ModelProfile) (useCase : string) :
    feedbackSnapshot :=
  let mode := feedbackScoringMode r in
  match mode with
  | FeedbackScoringOff => mkSnapshot false false mode StatusOff ∅
  | _ =>
      if negb (hasFeedback r) then mkSnapshot false false mode StatusNoStore ∅
      else if string_eqb useCase "" then mkSnapshot false false mode StatusEmptyUseCase ∅
      else
        let snap := mkSnapshot true false mode StatusActive ∅ in
        if 0 <? len candidates then readCandidates r candidates useCase snap else snap
  end.

Definition enforced (s : feedbackSnapshot) : bool :=
  snap_active s && match snap_mode s with FeedbackScoringEnforce => true | _ => false end.

(** ** Scoring *)

Definition with_scores (b : scoreBreakdown) (without with_ : float64) : scoreBreakdown :=
  mkBreakdown (warmthBonus b) (headroomScore b) (feedbackScore b) (qualityTier b) (speedTier b)
    (kvCacheBonus b) (costPenalty b) (breakerPenalty b) (capabilityGate b) (feedbackActive b)
    (feedbackRaw b) (feedbackAdjusted b) without with_.

Definition exceedsRAM (r : Router) (p : ModelProfile) : bool :=
  flt fzero (availableRAM r) && flt (availableRAM r) (RAMRequired p).

Definition breakered (sc : scoredCandidate) : bool := is_neg_inf (breakerPenalty (bd sc)).

(** One candidate of the scoring loop, once past the RAM gate. *)
Definition scoreProfile (j : nat) (req : RoutingRequest) (snap : feedbackSnapshot)
    (p : ModelProfile) (r : Router) : scoredCandidate * Router :=
  let b := Validate (tokenBudget r) req p in
  let provider := Provider (Key p) in
  let '(breaker, r) := getOrCreateBreaker provider r in
  let cf := lookup snap (mkFeedbackKey provider (ModelKey.Model (Key p)) (UseCase req)) in
  let '(d, breaker) := scoreCandidate warmth p req b cf (now j) breaker in
  let r := set_breaker provider breaker r in
  let active := baseActiveSignals warmth in
  let custom := weightOverrides r !! UseCase req in
  let without := computeWeightedScore (scoreBreakdownWithNeutralFeedback d) (UseCase req) active custom in
  let with_ := computeWeightedScore d (UseCase req) active custom in
  let d := with_scores d without with_ in
  let s := computeWeightedScore (scoreBreakdownForSelection d (enforced snap)) (UseCase req) active custom in
  let s := if is_neg_inf (breakerPenalty d) then neg_inf else s in
  (mkScored p b s d, r).

Fixpoint scoreAll (j : nat) (candidates : list ModelProfile) (req : RoutingRequest)
    (snap : feedbackSnapshot) (r : Router) : list scoredCandidate * Router :=
  match candidates with
  | [] => ([], r)
  | p :: candidates =>
      if exceedsRAM r p then scoreAll (S j) candidates req snap r
      else
        let '(sc, r) := scoreProfile j req snap p r in
        let '(scs, r) := scoreAll (S j) candidates req snap r in
        (sc :: scs, r)
  end.

(** ** Plans *)

(** The plan of one candidate. *)
Definition candidatePlan (r : Router) (req : RoutingRequest) (sc : scoredCandidate)
    (fbs : list RoutePlan) (wasSticky : bool) (rec : option bool) (fb gov gat : bool) : RoutePlan :=
  let key := Key (profile sc) in
  let req' := mkRoutingRequest (rq_Model req) (UseCase req) (RequiredCaps req) (Messages req)
    (Prompt req) (System req) (Suffix req) (Input req) (Tools req)
    (match modelDefaults r !! key with
     | Some d => mergeModelDefaults (Options req) d
     | None => mergeModelDefaults (Options req) (mkSamplingDefaults None None None)
     end)
    (ExpectedOutput req) (PreferWarm req) (rq_Priority req) (AffinityKey req) (SessionID req)
    (PreferredChain req) (StrictChain req) (rq_Provider req) (DryRun req) in
  mkPlan (inferRouteKind req) (ModelKey.Model key) (profile sc) req' (score sc) (budget sc) fbs
    false wasSticky rec fb gov gat.

(** Fallbacks whose provider cannot be resolved are skipped. *)
Definition buildPlan (r : Router) (winner : scoredCandidate) (fallbacks : list scoredCandidate)
    (req : RoutingRequest) (wasSticky : bool) : result goerr RoutePlan :=
  match resolveProvider (Key (profile winner)) with
  | Some e => Err (Wrap 0 e)
  | None =>
      let fbs := omap (fun fb => match resolveProvider (Key (profile fb)) with
                                 | Some _ => None
                                 | None => Some (candidatePlan r req fb [] false None false false false)
                                 end) fallbacks in
      Ok (candidatePlan r req winner fbs wasSticky (Some true) (hasFeedback r) (hasAdmission r)
            (hasDestGate r))
  end.

Definition degrade (p : RoutePlan) : RoutePlan :=
  mkPlan (Kind p) (RoutePlan.Model p) (Profile p) (rp_Request p) (Score p) (Budget p) (Fallbacks p) true
    (wasSticky p) (recorder p) (feedback p) (governed p) (gated p).

Definition joinNoViableCandidate (diags : list goerr) : goerr :=
  match diags with [] => ErrNoViableCandidate | _ => Wrap 1 ErrNoViableCandidate end.

Definition capabilityResolutionTerminalError (diags : list goerr) : option goerr :=
  List.find (fun d => errors_Is d ErrRouterClosed) diags.

(** ** Route *)

(** What a route returns: a plan, an error, or both. *)
Record routed := mkRouted { rt_plan : option RoutePlan; rt_err : option goerr }.

Definition failed (e : goerr) : routed := mkRouted None (Some e).

(** The candidates of the four classes; those that miss a capability are in none. *)
Definition gated_in (sc : scoredCandidate) : bool := capabilityGate (bd sc).
Definition decided (d : BudgetDecision) (sc : scoredCandidate) : bool :=
  gated_in sc && negb (breakered sc) && bool_decide (Decision (budget sc) = d).

Definition executables (scored : list scoredCandidate) : list scoredCandidate :=
  filter (fun sc => decided BudgetOK sc = true) scored.
Definition truncatables (scored : list scoredCandidate) : list scoredCandidate :=
  filter (fun sc => decided BudgetTruncate sc = true) scored.
Definition breakerCount (scored : list scoredCandidate) : Z :=
  len (filter (fun sc => gated_in sc && breakered sc = true) scored).
Definition budgetCount (scored : list scoredCandidate) : Z :=
  len (filter (fun sc => decided BudgetReject sc = true) scored).

Definition findIncumbentScore (key : ModelKey) (scored : list scoredCandidate) : option nat :=
  fst <$> list_find (fun sc => Key (profile sc) = key) scored.

(** Moves the [i]-th candidate to the front. *)
Definition keepIncumbent (i : nat) (l : list scoredCandidate) : list scoredCandidate :=
  match l !! i with
  | Some kept => kept :: take i l ++ drop (S i) l
  | None => l
  end.

(** Step 6: the order to execute, whether the route is sticky, and the cache. *)
Definition stickyStep (req : RoutingRequest) (stickyKey : string) (tGet tTouch : Z)
    (executable : list scoredCandidate) (r : Router) : list scoredCandidate * bool * Router :=
  if negb (string_eqb (AffinityKey req) "") && negb (DryRun req) then
    let '(incumbent, s) := Sticky.get tGet stickyKey (sticky r) in
    let r := with_sticky r s in
    match incumbent with
    | None => (executable, false, r)
    | Some inc =>
        match findIncumbentScore (providerKey inc) executable with
        | None => (executable, false, r)
        | Some i =>
            match executable, executable !! i with
            | challenger :: _, Some incumbentSc =>
                if fle (score challenger) (fadd (score incumbentSc) (hysteresisMargin r))
                then (keepIncumbent i executable, true,
                      with_sticky r (touch tTouch stickyKey (sticky r)))
                else (executable, false, r)
            | _, _ => (executable, false, r)
            end
        end
    end
  else (executable, false, r).

(** Steps 7 and 8: the fallbacks, the plan, and the new sticky entry. *)
Definition finishRoute (req : RoutingRequest) (stickyKey : string) (tPut : Z) (order : list string)
    (executable : list scoredCandidate) (wasSticky : bool) (r : Router) : routed * Router :=
  match executable with
  | [] => (failed ErrNoViableCandidate, r)
  | winner :: rest =>
      let maxFb := Z.min (maxFallbacks r) (len executable - 1) in
      let fallbacks := if 0 <? maxFb then take (Z.to_nat maxFb) rest else [] in
      match buildPlan r winner fallbacks req wasSticky with
      | Err e => (failed (Wrap 2 e), r)
      | Ok plan =>
          let r :=
            if negb (string_eqb (AffinityKey req) "") && negb (DryRun req) &&
               negb (string_eqb stickyKey "")
            then with_sticky r (put tPut order
                   (mkSticky stickyKey (Key (profile winner)) (score winner) tt tPut tPut
                      (tPut + stickyTTL r)) (sticky r))
            else r in
          (mkRouted (Some plan) None, r)
      end
  end.

(** Step 4 when nothing can be executed. *)
Definition nothingExecutable (req : RoutingRequest) (diags : list goerr)
    (scored : list scoredCandidate) (r : Router) : routed :=
  match sortScoredCandidates warmth (truncatables scored) with
  | winner :: _ =>
      match buildPlan r winner [] req false with
      | Err _ => failed (joinNoViableCandidate diags)
      | Ok plan => mkRouted (Some (degrade plan)) (Some ErrBudgetAdaptationRequired)
      end
  | [] =>
      if (0 <? breakerCount scored) && (budgetCount scored =? 0) then failed ErrAllBreakersOpen
      else if 0 <? budgetCount scored then failed ErrBudgetExceeded
      else failed (joinNoViableCandidate diags)
  end.

(** Steps 2 to 8, for a request without a preferred chain: [candidates] is what
    [resolveCandidates] answered, [ctxErr] the context's error after it. *)
Definition routeGlobal (sha256_hex16 : string -> string) (candidates : result goerr (list ModelProfile))
    (diags : list goerr) (ctxErr : option goerr) (tGet tTouch tPut : Z) (order : list string)
    (req : RoutingRequest) (r : Router) : routed * Router :=
  match ctxErr with
  | Some e => (failed e, r)
  | None =>
      match candidates with
      | Err e => (failed e, r)
      | Ok candidates =>
          match capabilityResolutionTerminalError diags with
          | Some e => (failed e, r)
          | None =>
              match candidates with
              | [] => (failed (joinNoViableCandidate diags), r)
              | _ =>
                  let snap := buildFeedbackSnapshot r candidates (UseCase req) in
                  let '(scored, r) := scoreAll 0 candidates req snap r in
                  match executables scored with
                  | [] => (nothingExecutable req diags scored r, r)
                  | _ =>
                      let executable := sortScoredCandidates warmth (executables scored) in
                      let stickyKey := StickyKey sha256_hex16 req in
                      let '(executable, wasSticky, r) :=
                        stickyStep req stickyKey tGet tTouch executable r in
                      finishRoute req stickyKey tPut order executable wasSticky r
                  end
              end
          end
      end
  end.

(** ** Chain routing *)

(** Looks a selector up; a failure of the named provider counts against its
    breaker. *)
Definition recordChainLookupFailure (t : Z) (selector : string) (err : goerr) (r : Router) : Router :=
  if negb (IsInfrastructureError (Some err)) then r
  else match parseModelSelector selector with
       | None => r
       | Some key =>
           if string_eqb (Provider key) "" then r
           else let '(cb, r) := getOrCreateBreaker (Provider key) r in
                set_breaker (Provider key) (Breaker.RecordFailure t err cb) r
       end.

(** An entry of the chain: the error of its lookup, or its profiles. *)
Definition chainEntry : Type := result goerr (list ModelProfile).

(** [resolveEntry i selector]: what the registry answers for the [i]-th selector;
    [tLookup] the clock of its failure. *)
Fixpoint resolveChain (resolveEntry : nat -> string -> chainEntry) (tLookup : nat -> Z) (i : nat)
    (selectors : list string) (r : Router) : list chainEntry * Router :=
  match selectors with
  | [] => ([], r)
  | selector :: selectors =>
      let e := resolveEntry i selector in
      let r := match e with
               | Err err => recordChainLookupFailure (tLookup i) selector err r
               | Ok _ => r
               end in
      let '(es, r) := resolveChain resolveEntry tLookup (S i) selectors r in
      (e :: es, r)
  end.

Definition flat_profiles (entries : list chainEntry) : list ModelProfile :=
  concat (map (fun e => match e with Ok ps => ps | Err _ => [] end) entries).

(** The replay of the entries over the profiles the tool-call resolution
    returned, [resolved], with a diagnostic each: the steps and the errors. *)
Fixpoint replay (entries : list chainEntry) (resolved : list (ModelProfile * option goerr)) (i : nat) :
    list (list ModelProfile) * list goerr :=
  match entries with
  | [] => ([], [])
  | Err e :: entries =>
      let '(steps, errs) := replay entries resolved (S i) in (steps, Wrap i e :: errs)
  | Ok ps :: entries =>
      let n := length ps in
      let '(steps, errs) := replay entries (drop n resolved) (S i) in
      (map fst (take n resolved) :: steps, omap snd (take n resolved) ++ errs)
  end.

Definition markChainSeenForTail (r : Router) (req : RoutingRequest) (seen : list ModelKey)
    (profiles : list ModelProfile) : list ModelKey :=
  fold_left (fun seen p =>
    if bool_decide (Key p ∈ seen) then seen
    else if exceedsRAM r p then seen
    else if negb (profileSatisfiesRequiredCaps p (RequiredCaps req)) then seen
    else Key p :: seen) profiles seen.

(** [ctxDone]: the context is done when the step starts. *)
Definition scoreChainStep (ctxDone : bool) (j : nat) (profiles : list ModelProfile)
    (req : RoutingRequest) (snap : feedbackSnapshot) (r : Router) : list scoredCandidate * Router :=
  if ctxDone then ([], r)
  else let '(scored, r) := scoreAll j profiles req snap r in
       (sortScoredCandidates warmth scored, r).

Record walkState := mkWalk {
  seen : list ModelKey;
  working : list scoredCandidate;
  truncatable : list scoredCandidate;
  wBreakerCount : Z;
  wBudgetCount : Z;
  resolvedAny : bool;
}.

(** One survivor of a step. *)
Definition collect (w : walkState) (sc : scoredCandidate) : walkState :=
  let key := Key (profile sc) in
  if bool_decide (key ∈ seen w) then w
  else if negb (gated_in sc) then w
  else
    let seen := key :: seen w in
    if breakered sc
    then mkWalk seen (working w) (truncatable w) (wBreakerCount w + 1) (wBudgetCount w) true
    else match Decision (budget sc) with
         | BudgetOK => mkWalk seen (working w ++ [sc]) (truncatable w) (wBreakerCount w)
                         (wBudgetCount w) true
         | BudgetTruncate => mkWalk seen (working w) (truncatable w ++ [sc]) (wBreakerCount w)
                               (wBudgetCount w) true
         | BudgetReject => mkWalk seen (working w) (truncatable w) (wBreakerCount w)
                             (wBudgetCount w + 1) true
         end.

Fixpoint chainWalk (ctxDone : nat -> bool) (i j : nat) (steps : list (list ModelProfile))
    (req : RoutingRequest) (snap : feedbackSnapshot) (w : walkState) (r : Router) :
    walkState * Router :=
  match steps with
  | [] => (w, r)
  | profiles :: steps =>
      let '(survivors, r) := scoreChainStep (ctxDone i) j profiles req snap r in
      chainWalk ctxDone (S i) (j + length profiles) steps req snap (fold_left collect survivors w) r
  end.

(** [scoreRecommendTail]: only candidates that can run now extend the chain. *)
Definition tailStep (acc : list ModelKey * list scoredCandidate) (sc : scoredCandidate) :
    list ModelKey * list scoredCandidate :=
  if bool_decide (Key (profile sc) ∈ acc.1) then acc
  else if negb (gated_in sc) then acc
  else if breakered sc then acc
  else if negb (bool_decide (Decision (budget sc) = BudgetOK)) then acc
  else (Key (profile sc) :: acc.1, acc.2 ++ [sc]).

Definition scoreRecommendTail (ctxDone : bool) (j : nat) (profiles : list ModelProfile)
    (req : RoutingRequest) (seen : list ModelKey) (snap : feedbackSnapshot) (r : Router) :
    list scoredCandidate * Router :=
  let '(scored, r) := scoreChainStep ctxDone j profiles req snap r in
  ((fold_left tailStep scored (seen, [])).2, r).

Definition classifyChainExhaustion (w : walkState) (lookupErrs : list goerr) : goerr :=
  if negb (resolvedAny w) then
    match lookupErrs with [] => ErrNoViableCandidate | _ => Wrap 3 ErrNoViableCandidate end
  else if (0 <? wBreakerCount w) && (wBudgetCount w =? 0) then ErrAllBreakersOpen
  else if (0 <? wBudgetCount w) && (wBreakerCount w =? 0) then ErrBudgetExceeded
  else ErrNoViableCandidate.

(** A runtime panic, which ends a call instead of an answer; it is told apart
    from the errors the code returns by its value alone. *)
Definition slicePanic : goerr := Opaque 0.

(** [working[1 : 1+maxFb]], [rest] being [working] without its first: the sum is
    an int, and a bound below 1 panics. *)
Definition sliceFallbacks (maxFb : Z) (rest : list scoredCandidate) : option (list scoredCandidate) :=
  if 0 <? maxFb then
    let high := wrap_int (1 + maxFb) in
    if high <? 1 then None else Some (take (Z.to_nat (high - 1)) rest)
  else Some [].

(** The end of [routeChain], once the candidates are known. *)
Definition finishChain (req : RoutingRequest) (w : walkState) (tail : list scoredCandidate)
    (lookupErrs : list goerr) (r : Router) : routed :=
  match working w ++ tail with
  | [] =>
      match sortScoredCandidates warmth (truncatable w) with
      | winner :: _ =>
          match buildPlan r winner [] req false with
          | Err _ => failed ErrNoViableCandidate
          | Ok plan => mkRouted (Some (degrade plan)) (Some ErrBudgetAdaptationRequired)
          end
      | [] => failed (classifyChainExhaustion w lookupErrs)
      end
  | winner :: rest =>
      let maxFb := if maxFallbacks r <? 0 then 0 else maxFallbacks r in
      let maxFb := if len (winner :: rest) <? wrap_int (1 + maxFb) then len rest else maxFb in
      match sliceFallbacks maxFb rest with
      | None => failed slicePanic
      | Some fallbacks =>
          match buildPlan r winner fallbacks req false with
          | Err e => failed (Wrap 2 e)
          | Ok plan => mkRouted (Some plan) None
          end
      end
  end.

(** [resolveTools]: what the batched tool-call resolution makes of the profiles,
    with a diagnostic each; [recommend]: the profiles and diagnostics of the
    recommendation, or its error. *)
Definition routeChain (resolveEntry : nat -> string -> chainEntry) (tLookup : nat -> Z)
    (resolveTools : list ModelProfile -> list (ModelProfile * option goerr))
    (recommend : result goerr (list ModelProfile * list goerr)) (ctxErr : option goerr)
    (ctxDone : nat -> bool) (req : RoutingRequest) (r : Router) : routed * Router :=
  if closed r then (failed ErrRouterClosed, r) else
  let snap := buildFeedbackSnapshot r [] (UseCase req) in
  let '(entries, r) := resolveChain resolveEntry tLookup 0 (PreferredChain req) r in
  let '(chainSteps, lookupErrs) := replay entries (resolveTools (flat_profiles entries)) 0 in
  let seenForTail := fold_left (markChainSeenForTail r req) chainSteps [] in
  let snap := fold_left (fun s ps => readCandidates r ps (UseCase req) s) chainSteps snap in
  let '(tailProfiles, lookupErrs, snap) :=
    if StrictChain req then ([], lookupErrs, snap)
    else match recommend with
         | Err _ => ([], lookupErrs, snap)
         | Ok (all, diags) =>
             let fresh := filter (fun p => Key p ∉ seenForTail) all in
             (fresh, lookupErrs ++ diags, readCandidates r fresh (UseCase req) snap)
         end in
  match ctxErr with
  | Some e => (failed e, r)
  | None =>
      match capabilityResolutionTerminalError lookupErrs with
      | Some e => (failed e, r)
      | None =>
          let '(w, r) := chainWalk ctxDone 0 0 chainSteps req snap (mkWalk [] [] [] 0 0 false) r in
          let j := length (concat chainSteps) in
          let '(tail, r) :=
            if negb (StrictChain req) && (0 <? len tailProfiles)
            then scoreRecommendTail (ctxDone (length chainSteps)) j tailProfiles req (seen w) snap r
            else ([], r) in
          (finishChain req w tail lookupErrs r, r)
      end
  end.

(** ** The entry point *)

(** Everything the outside world answers during one [Route]. *)
Record world := mkWorld {
  w_hash : string -> string;
  w_candidates : result goerr (list ModelProfile);
  w_diags : list goerr;
  w_ctxErr : option goerr;
  w_tGet : Z; w_tTouch : Z; w_tPut : Z;
  w_order : list string;
  w_entry : nat -> string -> chainEntry;
  w_tLookup : nat -> Z;
  w_tools : list ModelProfile -> list (ModelProfile * option goerr);
  w_recommend : result goerr (list ModelProfile * list goerr);
  w_ctxDone : nat -> bool;
}.

Definition Route (w : world) (req : RoutingRequest) (r : Router) : routed * Router :=
  if closed r then (failed ErrRouterClosed, r)
  else if (len (PreferredChain req) =? 0) && negb (string_eqb (rq_Provider req) "") &&
          match parseModelSelector (rq_Model req) with
          | Some key => negb (string_eqb (Provider key) (rq_Provider req))
          | None => false
          end
  then (failed (Wrap 4 ErrProviderMismatch), r)
  else if 0 <? len (PreferredChain req)
  then routeChain (w_entry w) (w_tLookup w) (w_tools w) (w_recommend w) (w_ctxErr w) (w_ctxDone w) req r
  else routeGlobal (w_hash w) (w_candidates w) (w_diags w) (w_ctxErr w) (w_tGet w) (w_tTouch w)
         (w_tPut w) (w_order w) req r.

(** ** What scoring does to the breakers *)

Definition state_of (r : Router) (q : string) : BreakerState :=
  match breakers r !! q with Some cb => state cb | None => BreakerClosed end.

Definition prov (sc : scoredCandidate) : string := Provider (Key (profile sc)).

(** Scoring moves a breaker at most from open to half-open. *)
Definition probes (r r' : Router) : Prop :=
  forall q, state_of r' q = state_of r q \/
    state_of r q = BreakerOpen /\ state_of r' q = BreakerHalfOpen.

Lemma probes_refl r : probes r r.
Proof. by left. Qed.

Lemma probes_trans r1 r2 r3 : probes r1 r2 -> probes r2 r3 -> probes r1 r3.
Proof.
  intros H1 H2 q. specialize (H1 q). specialize (H2 q).
  destruct H1 as [H1|[]], H2 as [H2|[]]; [left| | |]; [|right; split..|]; congruence.
Qed.

Lemma probes_halfopen r r' q :
  probes r r' -> state_of r q = BreakerHalfOpen -> state_of r' q = BreakerHalfOpen.
Proof. intros H Hq. destruct (H q) as [|[]]; congruence. Qed.

Lemma probes_not_open r r' q : probes r r' -> state_of r q <> BreakerOpen -> state_of r' q <> BreakerOpen.
Proof. intros H Hq. destruct (H q) as [|[]]; congruence. Qed.

(** A scored candidate past the RAM gate, with the budget's verdict. *)
Record scored_ok (r : Router) (req : RoutingRequest) (sc : scoredCandidate) : Prop := mkScoredOk {
  so_ram : exceedsRAM r (profile sc) = false;
  so_budget : budget sc = Validate (tokenBudget r) req (profile sc);
  so_gate : gated_in sc = profileSatisfiesRequiredCaps (profile sc) (RequiredCaps req);
}.

Lemma state_of_getOrCreate q p r :
  state_of (getOrCreateBreaker p r).2 q = state_of r q /\
  state (getOrCreateBreaker p r).1 = state_of r p.
Proof.
  unfold getOrCreateBreaker, state_of. destruct (breakers r !! p) as [cb|] eqn:Hp; simpl; [done|].
  split; [|done]. destruct (decide (p = q)) as [->|];
    [by rewrite lookup_insert_eq, Hp|by rewrite lookup_insert_ne].
Qed.

Lemma state_of_set q p cb r :
  state_of (set_breaker p cb r) q = if decide (p = q) then state cb else state_of r q.
Proof.
  unfold state_of, set_breaker. simpl. destruct (decide (p = q)) as [->|];
    [by rewrite lookup_insert_eq|by rewrite lookup_insert_ne].
Qed.

(** [Allow] in terms of the state. *)
Lemma Allow_state now0 (cb : CB) :
  (Allow now0 cb).1 = true /\ state cb = BreakerClosed /\ state (Allow now0 cb).2 = BreakerClosed \/
  (Allow now0 cb).1 = true /\ state cb = BreakerOpen /\ state (Allow now0 cb).2 = BreakerHalfOpen \/
  (Allow now0 cb).1 = false /\ state cb <> BreakerClosed /\ state (Allow now0 cb).2 = state cb.
Proof. unfold Allow. destruct (state cb) eqn:Hs; cases_if; simpl; rewrite ?Hs; auto 10. Qed.

Lemma scoreProfile_spec j req snap p r :
  let '(sc, r') := scoreProfile j req snap p r in
  profile sc = p /\ r' = with_breakers r (breakers r') /\ probes r r' /\
  (exceedsRAM r p = false -> scored_ok r req sc) /\
  (gated_in sc = true -> breakered sc = false ->
   state_of r (prov sc) <> BreakerHalfOpen /\ state_of r' (prov sc) <> BreakerOpen) /\
  (gated_in sc = true -> breakered sc = true -> state_of r' (prov sc) = state_of r (prov sc) /\
   state_of r (prov sc) <> BreakerClosed).
Proof.
  unfold scoreProfile. set (q := Provider (Key p)).
  pose proof (fun x => state_of_getOrCreate x q r) as Hg.
  assert (exists b, (getOrCreateBreaker q r).2 = with_breakers r b) as [b Hb].
  { unfold getOrCreateBreaker. destruct (breakers r !! q); [|by eexists].
    exists (breakers r). by destruct r. }
  destruct (getOrCreateBreaker q r) as [cb r1]. simpl in Hg, Hb. subst r1.
  destruct (Hg q) as [_ Hcb]. assert (forall x, state_of (with_breakers r b) x = state_of r x) as Hst
    by (intros x; apply Hg). clear Hg.
  set (cf := lookup _ _). unfold scoreCandidate.
  destruct (profileSatisfiesRequiredCaps p (RequiredCaps req)) eqn:Hcap; simpl.
  - pose proof (Allow_state (now j) cb) as Ha. destruct (Allow (now j) cb) as [ok cb']. simpl in Ha.
    assert (probes r (set_breaker q cb' (with_breakers r b))) as Hpr.
    { intros x. rewrite state_of_set, Hst. case_decide; [subst x|by left]. rewrite <-Hcb.
      destruct Ha as [(_&->&->)|[(_&->&->)|(_&_&->)]]; auto. }
    destruct ok; simpl; unfold gated_in, breakered, prov; simpl; split_and!; try done;
      try (intros _ [=]); try (intros _ _); rewrite ?state_of_set, ?decide_True by done; fold q;
      rewrite <-?Hcb.
    all: try (destruct Ha as [(?&Hs&Hs')|[(?&Hs&Hs')|(?&?&?)]]; try done; rewrite ?Hs, ?Hs'; done).
  - unfold gated_in, breakered, prov. simpl. split_and!; try done.
    intros x. left. rewrite state_of_set, Hst. by case_decide; subst.
Qed.

Lemma exceedsRAM_same r b s p : exceedsRAM (with_sticky (with_breakers r b) s) p = exceedsRAM r p.
Proof. done. Qed.

Lemma with_breakers_id r : r = with_breakers r (breakers r).
Proof. by destruct r. Qed.

(** What a scored candidate says, between the router before and after. *)
Record verdict (r r' : Router) (req : RoutingRequest) (sc : scoredCandidate) : Prop := mkVerdict {
  v_ok : scored_ok r req sc;
  v_pass : gated_in sc = true -> breakered sc = false ->
    state_of r (prov sc) <> BreakerHalfOpen /\ state_of r' (prov sc) <> BreakerOpen;
  v_closed : gated_in sc = true -> breakered sc = true -> state_of r (prov sc) <> BreakerClosed;
}.

Lemma verdict_before r0 b r' req sc :
  verdict (with_breakers r0 b) r' req sc -> probes r0 (with_breakers r0 b) -> verdict r0 r' req sc.
Proof.
  intros [[] Hp Hcl] Hpr. split; [by split| |].
  - intros Hg Hb. destruct (Hp Hg Hb) as [Hh Ho].
    split; [|done]. intros Hq. by apply Hh, (probes_halfopen r0).
  - intros Hg Hb. specialize (Hcl Hg Hb). destruct (Hpr (prov sc)) as [<-|[]]; congruence.
Qed.

Lemma verdict_after r r1 r' req sc : verdict r r1 req sc -> probes r1 r' -> verdict r r' req sc.
Proof.
  intros [? Hp Hcl] Hpr. split; [done| |done]. intros Hg Hb. destruct (Hp Hg Hb) as [Hh Ho].
  split; [done|]. by apply (probes_not_open r1).
Qed.

Lemma scoreAll_spec j candidates req snap r :
  let '(scs, r') := scoreAll j candidates req snap r in
  r' = with_breakers r (breakers r') /\ probes r r' /\
  map profile scs = filter (fun p => exceedsRAM r p = false) candidates /\
  Forall (verdict r r' req) scs.
Proof.
  revert j r. induction candidates as [|p candidates IH]; intros j r; simpl.
  { split_and!; [apply with_breakers_id|apply probes_refl|done|constructor]. }
  destruct (exceedsRAM r p) eqn:Hram.
  { specialize (IH (S j) r). destruct (scoreAll _ _ _ _ _) as [scs r'].
    rewrite filter_cons_False by congruence. done. }
  rewrite filter_cons_True by done.
  pose proof (scoreProfile_spec j req snap p r) as Hp.
  destruct (scoreProfile j req snap p r) as [sc r1].
  destruct Hp as (Hpf & Hr1 & Hpr & Hok & Hpass & Hden).
  specialize (IH (S j) r1). destruct (scoreAll _ _ _ _ _) as [scs r2].
  destruct IH as (Hr2 & Hpr2 & Hmap & Hv). rewrite Hr1 in Hr2, Hmap, Hv. simpl in Hr2.
  split_and!; [done|by eapply probes_trans| |].
  { simpl. rewrite Hpf. f_equal. done. }
  constructor.
  - apply (verdict_after _ r1); [split; [auto|auto|]|done].
    intros Hg Hb. by apply Hden.
  - eapply Forall_impl; [exact Hv|]. intros x Hx. apply (verdict_before _ _ _ _ _ Hx).
    by rewrite <-Hr1.
Qed.

(** ** The candidates a plan is made of *)

(** A candidate the gates let through with this budget decision. *)
Definition passed (d : BudgetDecision) (r r' : Router) (req : RoutingRequest) (sc : scoredCandidate) :
    Prop :=
  verdict r r' req sc /\ decided d sc = true.

Lemma decided_iff d sc :
  decided d sc = true <-> gated_in sc = true /\ breakered sc = false /\ Decision (budget sc) = d.
Proof.
  unfold decided. rewrite !andb_true_iff, negb_true_iff, bool_decide_eq_true. tauto.
Qed.

Lemma passed_decided d r r' req scs :
  Forall (verdict r r' req) scs ->
  Forall (passed d r r' req) (filter (fun sc => decided d sc = true) scs).
Proof.
  rewrite !Forall_forall. intros Hv sc [Hd Hin]%list_elem_of_filter. split; auto.
Qed.

Lemma keepIncumbent_Permutation i l : keepIncumbent i l ≡ₚ l.
Proof.
  unfold keepIncumbent. destruct (l !! i) as [x|] eqn:Hi; [|done].
  rewrite <-(take_drop_middle l i x Hi) at 3. by rewrite Permutation_middle.
Qed.

Lemma stickyStep_spec req k tGet tTouch l r :
  let '(l', _, r') := stickyStep req k tGet tTouch l r in
  l' ≡ₚ l /\ r' = with_sticky r (sticky r').
Proof.
  unfold stickyStep. assert (r = with_sticky r (sticky r)) as Hr by by destruct r.
  destruct (_ && _); [|done]. destruct (get _ _ _) as [[inc|] s]; [|done].
  destruct (findIncumbentScore _ _) as [i|]; [|done].
  destruct l as [|c l]; [done|]. destruct ((c :: l) !! i); [|done].
  destruct (fle _ _); [|done]. split; [apply keepIncumbent_Permutation|done].
Qed.

(** What a plan must be: built from a candidate that passed every gate. *)
Record admissible (r r' : Router) (req : RoutingRequest) (q : RoutePlan) : Prop := mkAdmissible {
  ad_caps : profileSatisfiesRequiredCaps (Profile q) (RequiredCaps req) = true;
  ad_ram : exceedsRAM r (Profile q) = false;
  ad_budget : Budget q = Validate (tokenBudget r) req (Profile q);
  ad_probe : state_of r (Provider (Key (Profile q))) <> BreakerHalfOpen;
  ad_breaker : state_of r' (Provider (Key (Profile q))) <> BreakerOpen;
  ad_provider : resolveProvider (Key (Profile q)) = None;
  ad_kind : Kind q = inferRouteKind req /\ RoutePlan.Model q = ModelKey.Model (Key (Profile q));
}.

Definition plans_of (p : RoutePlan) : list RoutePlan := p :: Fallbacks p.

(** The shape of every answer: an error and no plan, a plan of candidates whose
    prompt fits, or the plan of one whose prompt does not fit, with the error
    that says so. *)
Definition sound (r r' : Router) (req : RoutingRequest) (out : routed) : Prop :=
  match rt_plan out with
  | None => rt_err out <> None
  | Some plan =>
      Forall (admissible r r' req) (plans_of plan) /\
      len (Fallbacks plan) <= Z.max 0 (maxFallbacks r) /\
      if Degraded plan
      then rt_err out = Some ErrBudgetAdaptationRequired /\ Fallbacks plan = [] /\
           Decision (Budget plan) = BudgetTruncate
      else rt_err out = None /\
           Forall (fun q => Decision (Budget q) = BudgetOK /\ Degraded q = false) (plans_of plan)
  end.

Lemma passed_plan d r r' req sc r1 fbs w rec fb gov gat :
  passed d r r' req sc -> resolveProvider (Key (profile sc)) = None ->
  let q := candidatePlan r1 req sc fbs w rec fb gov gat in
  admissible r r' req q /\ Decision (Budget q) = d /\ Degraded q = false.
Proof.
  intros [[[Hram Hbud Hgate] Hpass _] (Hg & Hb & Hd)%decided_iff] Hres.
  destruct (Hpass Hg Hb) as [Hh Ho]. split_and!; [|done..]. split; simpl; try done. congruence.
Qed.

Lemma buildPlan_sound d r r' r1 req w fbs sticky err :
  Forall (passed d r r' req) (w :: fbs) -> len fbs <= Z.max 0 (maxFallbacks r) ->
  match buildPlan r1 w fbs req sticky with
  | Err _ => True
  | Ok plan =>
      (d = BudgetOK -> err = None -> sound r r' req (mkRouted (Some plan) err)) /\
      (d = BudgetTruncate -> fbs = [] -> err = Some ErrBudgetAdaptationRequired ->
       sound r r' req (mkRouted (Some (degrade plan)) err))
  end.
Proof.
  intros [Hw Hfbs]%Forall_cons Hlen. unfold buildPlan.
  destruct (resolveProvider (Key (profile w))) eqn:Hres; [done|].
  set (f := fun fb => match resolveProvider (Key (profile fb)) with Some _ => None | None => _ end).
  assert (Forall (fun q => admissible r r' req q /\ Decision (Budget q) = d /\ Degraded q = false)
    (omap f fbs)) as Hall.
  { rewrite Forall_forall in Hfbs. rewrite Forall_forall. intros q (sc & Hin & Hq)%list_elem_of_omap.
    unfold f in Hq. destruct (resolveProvider (Key (profile sc))) eqn:Hr; [done|]. simplify_eq.
    apply passed_plan; auto. }
  pose proof (len_omap f fbs) as Hle.
  destruct (passed_plan d r r' req w r1 (omap f fbs) sticky (Some true) (hasFeedback r1)
    (hasAdmission r1) (hasDestGate r1) Hw Hres) as ([] & Hd & Hdeg).
  unfold sound, plans_of. simpl. split.
  - intros -> ->. split_and!; [|lia|done|].
    + constructor; [by split|]. eapply Forall_impl; [exact Hall|]. tauto.
    + constructor; [done|]. eapply Forall_impl; [exact Hall|]. tauto.
  - intros -> -> ->. simpl in *. split_and!; try done. by repeat constructor.
Qed.

Lemma joinNoViable_sound diags : Some (joinNoViableCandidate diags) <> None.
Proof. done. Qed.

Lemma nothingExecutable_sound req diags scored r0 r :
  Forall (verdict r0 r req) scored -> sound r0 r req (nothingExecutable req diags scored r).
Proof.
  intros Hv. unfold nothingExecutable.
  pose proof (passed_decided BudgetTruncate _ _ _ _ Hv) as Hp. fold (truncatables scored) in Hp.
  rewrite <-(sort_Permutation warmth) in Hp.
  destruct (sortScoredCandidates warmth (truncatables scored)) as [|w l].
  { by repeat case_match. }
  apply Forall_cons in Hp as [Hw _].
  pose proof (buildPlan_sound BudgetTruncate r0 r r req w [] false (Some ErrBudgetAdaptationRequired)
    ltac:(by constructor) ltac:(len_lia)) as Hs.
  destruct (buildPlan r w [] req false); [|done]. by apply Hs.
Qed.

Lemma capped_take (n : Z) (l : list scoredCandidate) :
  len (if 0 <? n then take (Z.to_nat n) l else []) <= Z.max 0 n.
Proof.
  destruct (Z.ltb_spec 0 n); [|len_lia]. unfold len. rewrite length_take. lia.
Qed.

Lemma finishRoute_sound r0 req k t order l stk r :
  Forall (passed BudgetOK r0 r req) l -> maxFallbacks r = maxFallbacks r0 ->
  let '(out, r') := finishRoute req k t order l stk r in
  sound r0 r req out /\ r' = with_sticky r (sticky r').
Proof.
  intros Hl Hmax. assert (r = with_sticky r (sticky r)) as Hr by by destruct r.
  unfold finishRoute. destruct l as [|w rest]; [done|]. apply Forall_cons in Hl as [Hw Hrest].
  set (m := Z.min _ _). set (fbs := if 0 <? m then _ else _).
  assert (Forall (passed BudgetOK r0 r req) fbs) as Hfbs
    by (unfold fbs; destruct (0 <? m); [by apply Forall_take|constructor]).
  assert (len fbs <= Z.max 0 (maxFallbacks r0)) as Hlen
    by (pose proof (capped_take m rest); unfold fbs, m in *; lia).
  pose proof (buildPlan_sound BudgetOK r0 r r req w fbs stk None
    ltac:(by constructor) Hlen) as Hs.
  destruct (buildPlan r w fbs req stk); [|done].
  split; [by apply Hs|]. by destruct (_ && _).
Qed.

Lemma sound_sticky r0 r s req out : sound r0 r req out -> sound r0 (with_sticky r s) req out.
Proof.
  unfold sound. destruct (rt_plan out); [|done]. intros (Ha & H). split; [|done].
  eapply Forall_impl; [exact Ha|]. by intros q [].
Qed.

(** Routing without a chain: the answer is sound, the configuration is kept. *)
Lemma routeGlobal_sound h cands diags ctxErr tGet tTouch tPut order req r :
  let '(out, r') := routeGlobal h cands diags ctxErr tGet tTouch tPut order req r in
  sound r r' req out /\ probes r r' /\ r' = with_sticky (with_breakers r (breakers r')) (sticky r').
Proof.
  assert (r = with_sticky (with_breakers r (breakers r)) (sticky r)) as Hid by by destruct r.
  pose proof (probes_refl r) as Hpr0.
  unfold routeGlobal. destruct ctxErr; [done|]. destruct cands as [cands|]; [|done].
  destruct (capabilityResolutionTerminalError diags); [done|].
  destruct cands as [|p cands]; [done|]. set (ps := p :: cands).
  pose proof (scoreAll_spec 0 ps req (buildFeedbackSnapshot r ps (UseCase req)) r) as Hs.
  destruct (scoreAll _ _ _ _ _) as [scored r1]. destruct Hs as (Hr1 & Hpr & _ & Hv).
  assert (Hex : Forall (passed BudgetOK r r1 req) (sortScoredCandidates warmth (executables scored)))
    by (rewrite sort_Permutation; by apply passed_decided).
  pose proof (sort_Permutation warmth (executables scored)) as Hperm.
  destruct (executables scored) as [|e es].
  { split_and!; [by apply nothingExecutable_sound|done|rewrite Hr1; by destruct r]. }
  clear Hperm. set (l := sortScoredCandidates warmth (e :: es)) in *.
  pose proof (stickyStep_spec req (StickyKey h req) tGet tTouch l r1) as Hst.
  destruct (stickyStep _ _ _ _ _ _) as [[l' st] r2]. destruct Hst as [Hperm Hr2].
  assert (Forall (passed BudgetOK r r2 req) l') as Hl'.
  { rewrite Hperm. eapply Forall_impl; [exact Hex|]. intros sc [[? Hpass ?] ?].
    split; [|done]. split; [done| |done]. rewrite Hr2. exact Hpass. }
  pose proof (finishRoute_sound r req (StickyKey h req) tPut order l' st r2 Hl') as Hf.
  destruct (finishRoute _ _ _ _ _ _ _) as [out r3]. destruct Hf as [Hout Hr3].
  { rewrite Hr2, Hr1. done. }
  rewrite Hr3. split_and!; [by apply sound_sticky| |].
  - intros q. rewrite Hr2. exact (Hpr q).
  - rewrite Hr2, Hr1. done.
Qed.

(** ** Chain routing *)

Lemma resolveChain_config e t i l r :
  (resolveChain e t i l r).2 = with_breakers r (breakers (resolveChain e t i l r).2).
Proof.
  revert i r. induction l as [|x l IH]; intros i r; simpl; [apply with_breakers_id|].
  set (r1 := match e i x with Ok _ => r | Err _ => _ end).
  assert (r1 = with_breakers r (breakers r1)) as Hr1.
  { unfold r1. destruct (e i x); [apply with_breakers_id|]. unfold recordChainLookupFailure.
    destruct (negb _); [apply with_breakers_id|]. destruct (parseModelSelector _) as [k|];
      [|apply with_breakers_id].
    destruct (string_eqb _ _); [apply with_breakers_id|].
    unfold getOrCreateBreaker. by destruct (breakers r !! _). }
  specialize (IH (S i) r1). destruct (resolveChain _ _ _ _ r1) as [es r2]. simpl in *.
  rewrite IH, Hr1. done.
Qed.

Lemma scoreChainStep_spec c j ps req snap r :
  let '(scs, r') := scoreChainStep c j ps req snap r in
  r' = with_breakers r (breakers r') /\ probes r r' /\ Forall (verdict r r' req) scs.
Proof.
  unfold scoreChainStep. destruct c.
  { split_and!; [apply with_breakers_id|apply probes_refl|constructor]. }
  pose proof (scoreAll_spec j ps req snap r) as Hs.
  destruct (scoreAll _ _ _ _ _) as [scs r']. destruct Hs as (? & ? & _ & Hv).
  by rewrite sort_Permutation.
Qed.

(** The walk's lists hold candidates the gates let through. *)
Definition walk_ok (r r' : Router) (req : RoutingRequest) (w : walkState) : Prop :=
  Forall (passed BudgetOK r r' req) (working w) /\
  Forall (passed BudgetTruncate r r' req) (truncatable w).

Lemma passed_later d r r1 r' req l :
  probes r1 r' -> Forall (passed d r r1 req) l -> Forall (passed d r r' req) l.
Proof.
  intros Hpr Hl. eapply Forall_impl; [exact Hl|].
  intros sc [Hv ?]. split; [by eapply verdict_after|done].
Qed.

Lemma verdicts_before r0 r r' req l :
  r = with_breakers r0 (breakers r) -> probes r0 r ->
  Forall (verdict r r' req) l -> Forall (verdict r0 r' req) l.
Proof.
  intros Hr Hpr Hl. eapply Forall_impl; [exact Hl|]. intros sc Hv.
  rewrite Hr in Hv, Hpr. by apply (verdict_before _ (breakers r)).
Qed.

Lemma collect_ok r r' req w sc :
  walk_ok r r' req w -> verdict r r' req sc -> walk_ok r r' req (collect w sc).
Proof.
  intros [Hw Ht] Hv. unfold collect. destruct (bool_decide _); [done|].
  destruct (gated_in sc) eqn:Hg; [|done]. simpl. destruct (breakered sc) eqn:Hb; [done|].
  assert (forall d, Decision (budget sc) = d -> passed d r r' req sc) as Hp
    by (intros d Hd; split; [done|by apply decided_iff]).
  destruct (Decision (budget sc)) eqn:Hd; split; simpl; try done;
    apply Forall_app; split; auto.
Qed.

Lemma collects_ok r r' req l w :
  walk_ok r r' req w -> Forall (verdict r r' req) l -> walk_ok r r' req (fold_left collect l w).
Proof.
  revert w. induction l as [|sc l IH]; intros w Hw Hl; [done|].
  apply Forall_cons in Hl as [Hsc Hl]. simpl. apply IH; [|done]. by apply collect_ok.
Qed.

Lemma chainWalk_spec c i j steps req snap r0 w r :
  r = with_breakers r0 (breakers r) -> probes r0 r -> walk_ok r0 r req w ->
  let '(w', r') := chainWalk c i j steps req snap w r in
  r' = with_breakers r0 (breakers r') /\ probes r0 r' /\ walk_ok r0 r' req w'.
Proof.
  revert i j w r. induction steps as [|ps steps IH]; intros i j w r Hr Hpr Hw; simpl; [done|].
  pose proof (scoreChainStep_spec (c i) j ps req snap r) as Hs.
  destruct (scoreChainStep _ _ _ _ _ _) as [scs r1]. destruct Hs as (Hr1 & Hpr1 & Hv).
  apply IH.
  - rewrite Hr1, Hr. done.
  - by eapply probes_trans.
  - apply collects_ok; [|by apply (verdicts_before _ r)].
    destruct Hw. split; by eapply passed_later.
Qed.

Lemma tail_ok d r r' req l acc :
  d = BudgetOK -> Forall (passed d r r' req) acc.2 -> Forall (verdict r r' req) l ->
  Forall (passed d r r' req) (fold_left tailStep l acc).2.
Proof.
  intros ->. revert acc. induction l as [|sc l IH]; intros acc Ha Hl; [done|].
  apply Forall_cons in Hl as [Hsc Hl]. simpl. apply IH; [|done]. unfold tailStep.
  destruct (bool_decide (_ ∈ _)); [done|]. destruct (gated_in sc) eqn:Hg; [|done]. simpl.
  destruct (breakered sc) eqn:Hb; [done|]. destruct (bool_decide (Decision _ = _)) eqn:Hd; [|done].
  simpl. apply Forall_app; split; [done|]. to_prop. constructor; [|constructor].
  split; [done|by apply decided_iff].
Qed.

Lemma scoreRecommendTail_spec c j ps req sn snap r0 r :
  r = with_breakers r0 (breakers r) -> probes r0 r ->
  let '(tl, r') := scoreRecommendTail c j ps req sn snap r in
  r' = with_breakers r0 (breakers r') /\ probes r0 r' /\ probes r r' /\
  Forall (passed BudgetOK r0 r' req) tl.
Proof.
  intros Hr Hpr. unfold scoreRecommendTail.
  pose proof (scoreChainStep_spec c j ps req snap r) as Hs.
  destruct (scoreChainStep _ _ _ _ _ _) as [scs r1]. destruct Hs as (Hr1 & Hpr1 & Hv).
  split_and!; [rewrite Hr1, Hr; done|by eapply probes_trans|done|].
  apply tail_ok; [done|constructor|by apply (verdicts_before _ r)].
Qed.

Lemma wrap_int_le z : 0 <= z -> wrap_int z <= z.
Proof.
  intros Hz. unfold wrap_int. destruct (Z.lt_ge_cases z (2 ^ 63)).
  - rewrite Z.mod_small; lia.
  - pose proof (Z.mod_le (z + 2 ^ 63) (2 ^ 64)). lia.
Qed.

Lemma sliceFallbacks_take m rest l :
  sliceFallbacks m rest = Some l -> exists n, l = take n rest /\ Z.of_nat n <= Z.max 0 m.
Proof.
  unfold sliceFallbacks. destruct (Z.ltb_spec 0 m) as [Hm|Hm].
  - pose proof (wrap_int_le (1 + m) ltac:(lia)).
    destruct (Z.ltb_spec (wrap_int (1 + m)) 1); [done|]. intros [= <-]. eexists. split; [done|]. lia.
  - intros [= <-]. exists 0%nat. split; [done|]. lia.
Qed.

Lemma finishChain_sound req w tl errs r0 r :
  walk_ok r0 r req w -> Forall (passed BudgetOK r0 r req) tl -> maxFallbacks r = maxFallbacks r0 ->
  sound r0 r req (finishChain req w tl errs r).
Proof.
  intros [Hw Ht] Htl Hmax. unfold finishChain.
  assert (Hl : Forall (passed BudgetOK r0 r req) (working w ++ tl)) by by apply Forall_app.
  destruct (working w ++ tl) as [|win rest].
  - rewrite <-(sort_Permutation warmth) in Ht.
    destruct (sortScoredCandidates warmth (truncatable w)) as [|win l]; [done|].
    apply Forall_cons in Ht as [Hwin _].
    pose proof (buildPlan_sound BudgetTruncate r0 r r req win [] false
      (Some ErrBudgetAdaptationRequired) ltac:(by constructor) ltac:(len_lia)) as Hs.
    destruct (buildPlan r win [] req false); [|done]. by apply Hs.
  - apply Forall_cons in Hl as [Hwin Hrest].
    set (m0 := if maxFallbacks r <? 0 then _ else _).
    set (m := if len (win :: rest) <? wrap_int (1 + m0) then _ else m0).
    destruct (sliceFallbacks m rest) as [fbs|] eqn:Hsl; [|done].
    apply sliceFallbacks_take in Hsl as (n & -> & Hn).
    set (fbs := take n rest).
    assert (Forall (passed BudgetOK r0 r req) fbs) as Hfbs by by apply Forall_take.
    assert (len fbs <= Z.max 0 (maxFallbacks r0)) as Hlen.
    { rewrite <-Hmax. assert (m <= Z.max 0 (maxFallbacks r));
        [|unfold fbs, len; rewrite length_take; lia].
      assert (0 <= m0) as Hm0 by (unfold m0; destruct (Z.ltb_spec (maxFallbacks r) 0); lia).
      pose proof (wrap_int_le (1 + m0) ltac:(lia)).
      unfold m. destruct (Z.ltb_spec (len (win :: rest)) (wrap_int (1 + m0))) as [Hlt|Hge];
        unfold m0 in *; destruct (Z.ltb_spec (maxFallbacks r) 0); rewrite ?len_cons in *; len_lia. }
    pose proof (buildPlan_sound BudgetOK r0 r r req win fbs false None
      ltac:(by constructor) Hlen) as Hs.
    destruct (buildPlan r win fbs req false); [|done]. by apply Hs.
Qed.

Lemma routeChain_sound e t tools rcm ctxErr c req r :
  let '(out, r') := routeChain e t tools rcm ctxErr c req r in
  let r1 := (resolveChain e t 0 (PreferredChain req) r).2 in
  sound r1 r' req out /\ (closed r = false -> probes r1 r') /\ r' = with_breakers r (breakers r').
Proof.
  unfold routeChain. destruct (closed r) eqn:Hc.
  { split_and!; [done|done|apply with_breakers_id]. }
  pose proof (resolveChain_config e t 0 (PreferredChain req) r) as Hr1.
  destruct (resolveChain _ _ _ _ r) as [es r1]. simpl in Hr1 |- *.
  destruct (replay _ _ _) as [steps errs].
  destruct (if StrictChain req then _ else _) as [[tailPs errs'] snap].
  pose proof (probes_refl r1) as Hpr1.
  destruct ctxErr; [done|]. destruct (capabilityResolutionTerminalError errs'); [done|].
  pose proof (chainWalk_spec c 0 0 steps req snap r1 (mkWalk [] [] [] 0 0 false) r1
    (with_breakers_id r1) Hpr1 ltac:(split; constructor)) as Hw.
  destruct (chainWalk _ _ _ _ _ _ _ _) as [w r2]. destruct Hw as (Hr2 & Hpr2 & Hw).
  set (tl := if _ && _ then _ else _).
  assert (let '(tl, r') := tl in r' = with_breakers r1 (breakers r') /\ probes r1 r' /\
    probes r2 r' /\ Forall (passed BudgetOK r1 r' req) tl) as Htl.
  { unfold tl. destruct (_ && _); [by apply scoreRecommendTail_spec|].
    split_and!; [done..|apply probes_refl|constructor]. }
  destruct tl as [tl r3]. destruct Htl as (Hr3 & Hpr3 & Hpr23 & Htl).
  split_and!; [|done|rewrite Hr3, Hr1; done].
  apply finishChain_sound; [|done|rewrite Hr3; done].
  destruct Hw. split; by eapply passed_later.
Qed.

(** The router once the selectors of a chain have been looked up: where scoring
    starts. *)
Definition after_lookups (w : world) (req : RoutingRequest) (r : Router) : Router :=
  if 0 <? len (PreferredChain req)
  then (resolveChain (w_entry w) (w_tLookup w) 0 (PreferredChain req) r).2
  else r.

Lemma Route_spec w req r :
  let '(out, r') := Route w req r in
  sound (after_lookups w req r) r' req out /\
  (r' = r \/ probes (after_lookups w req r) r') /\
  r' = with_sticky (with_breakers r (breakers r')) (sticky r').
Proof.
  assert (r = with_sticky (with_breakers r (breakers r)) (sticky r)) as Hid by by destruct r.
  unfold Route, after_lookups. destruct (closed r) eqn:Hc; [by split_and!; [|left|]|].
  destruct (_ && _ && _); [by split_and!; [|left|]|].
  destruct (0 <? len (PreferredChain req)).
  - pose proof (routeChain_sound (w_entry w) (w_tLookup w) (w_tools w) (w_recommend w)
      (w_ctxErr w) (w_ctxDone w) req r) as H.
    destruct (routeChain _ _ _ _ _ _ _ _) as [out r']. destruct H as (? & ? & Hr).
    split_and!; [done|auto|]. rewrite Hr. by destruct r.
  - pose proof (routeGlobal_sound (w_hash w) (w_candidates w) (w_diags w) (w_ctxErr w) (w_tGet w)
      (w_tTouch w) (w_tPut w) (w_order w) req r) as H.
    destruct (routeGlobal _ _ _ _ _ _ _ _ _ _). split_and!; tauto.
Qed.

(** C3: every answer of the router is either an error without a plan, or a
    plan whose winner and fallbacks each hold every required capability, fit in
    memory, belong to a provider that resolves, whose breaker was not already
    probing when scoring began and is not open when the plan is returned, and
    were budgeted for this request; at most [maxFallbacks] fallbacks (the panic of
    [finishChain] counts as an error).  A plan
    without an error holds only candidates whose prompt fits; the one plan
    returned beside an error is marked degraded, has no fallback, and its prompt
    does not fit as it is. *)
Theorem route_plan_admissible w req r :
  let '(out, r') := Route w req r in sound (after_lookups w req r) r' req out.
Proof. pose proof (Route_spec w req r) as H. destruct (Route w req r). tauto. Qed.
(** ** Taking the probe *)

(** Asked of an open breaker past its cooldown, whatever the clock. *)
Definition probe_due (r : Router) (q : string) : Prop :=
  exists cb, breakers r !! q = Some cb /\ state cb = BreakerOpen /\
    forall j, (cooldown cb <=? Sub (now j) (lastFailure cb)) = true.

Lemma scoreProfile_due j req snap p r q :
  probe_due r q ->
  let r' := (scoreProfile j req snap p r).2 in
  if bool_decide (Provider (Key p) = q) && profileSatisfiesRequiredCaps p (RequiredCaps req)
  then state_of r' q = BreakerHalfOpen else probe_due r' q.
Proof.
  intros (cb & Hcb & Hs & Hdue). unfold scoreProfile, scoreCandidate, getOrCreateBreaker.
  destruct (bool_decide_reflect (Provider (Key p) = q)) as [->|Hne]; simpl.
  - rewrite Hcb. destruct (profileSatisfiesRequiredCaps p (RequiredCaps req)); simpl.
    + unfold Allow. rewrite Hs, Hdue. simpl. by rewrite state_of_set, decide_True.
    + exists cb. split_and!; [|done..]. simpl. apply lookup_insert_eq.
  - set (g := match breakers r !! Provider (Key p) with Some _ => _ | None => _ end).
    assert (breakers g.2 !! q = Some cb) as Hg.
    { unfold g. destruct (breakers r !! Provider (Key p)); simpl; [done|]. by rewrite lookup_insert_ne. }
    destruct g as [cb0 r0]. destruct (if negb _ then _ else _) as [d cb1]. simpl in *.
    exists cb. split_and!; [|done..]. unfold set_breaker. simpl. by rewrite lookup_insert_ne.
Qed.

Lemma scoreAll_due j cands req snap r p :
  probe_due r (Provider (Key p)) -> p ∈ cands -> exceedsRAM r p = false ->
  profileSatisfiesRequiredCaps p (RequiredCaps req) = true ->
  state_of (scoreAll j cands req snap r).2 (Provider (Key p)) = BreakerHalfOpen.
Proof.
  intros Hdue Hin Hram Hcap. revert j r Hdue Hram.
  induction cands as [|p0 cands IH]; intros j r Hdue Hram; [by apply elem_of_nil in Hin|]. simpl.
  apply elem_of_cons in Hin. destruct (exceedsRAM r p0) eqn:Hram0.
  { destruct Hin as [->|Hin]; [congruence|by apply IH]. }
  pose proof (scoreProfile_due j req snap p0 r _ Hdue) as Hstep.
  pose proof (scoreProfile_spec j req snap p0 r) as Hspec.
  destruct (scoreProfile _ _ _ _ _) as [sc r1]. simpl in Hstep. destruct Hspec as (_ & Hr1 & _).
  pose proof (scoreAll_spec (S j) cands req snap r1) as Hall.
  destruct (_ && _) eqn:Htake.
  - destruct (scoreAll _ _ _ _ _) as [scs r2]. destruct Hall as (_ & Hpr & _).
    by apply (probes_halfopen r1).
  - destruct Hin as [->|Hin].
    { rewrite bool_decide_true, Hcap in Htake by done. done. }
    specialize (IH Hin (S j) r1 Hstep). rewrite Hr1 in IH. specialize (IH Hram).
    rewrite <-Hr1 in IH. by destruct (scoreAll _ _ _ _ _).
Qed.

(** a route takes the probe of every provider that has a candidate past the
    capability and memory gates and an open breaker past its cooldown: whichever
    candidate the plan then uses, and even when the request is a dry run that
    nobody executes. *)
Theorem route_takes_probes w req r cands p :
  closed r = false -> PreferredChain req = [] -> rq_Provider req = "" ->
  w_ctxErr w = None -> w_candidates w = Ok cands ->
  capabilityResolutionTerminalError (w_diags w) = None ->
  p ∈ cands -> exceedsRAM r p = false ->
  profileSatisfiesRequiredCaps p (RequiredCaps req) = true ->
  probe_due r (Provider (Key p)) ->
  state_of (Route w req r).2 (Provider (Key p)) = BreakerHalfOpen.
Proof.
  intros Hc Hch Hprov Hctx Hcands Hdiag Hin Hram Hcap Hdue.
  unfold Route. rewrite Hc, Hch, Hprov. simpl. unfold routeGlobal.
  rewrite Hctx, Hcands, Hdiag. destruct cands as [|c cs]; [by apply elem_of_nil in Hin|].
  pose proof (scoreAll_due 0 (c :: cs) req (buildFeedbackSnapshot r (c :: cs) (UseCase req)) r p
    Hdue Hin Hram Hcap) as H.
  destruct (scoreAll _ _ _ _ _) as [scored r1]. destruct (executables scored); [done|].
  pose proof (stickyStep_spec req (StickyKey (w_hash w) req) (w_tGet w) (w_tTouch w)
    (sortScoredCandidates warmth (s :: l)) r1) as Hst.
  destruct (stickyStep _ _ _ _ _ _) as [[l' st] r2]. destruct Hst as [_ Hr2].
  assert (state_of r2 (Provider (Key p)) = BreakerHalfOpen) as H2 by by rewrite Hr2.
  unfold finishRoute. destruct l'; [done|]. destruct (buildPlan _ _ _ _ _); [|done].
  by destruct (_ && _).
Qed.
(** ** Affinity *)

(** The executable candidates of a request, best first. *)
Definition ranked (candidates : list ModelProfile) (req : RoutingRequest) (r : Router) :
    list scoredCandidate :=
  sortScoredCandidates warmth
    (executables (scoreAll 0 candidates req (buildFeedbackSnapshot r candidates (UseCase req)) r).1).

(** Who wins: the incumbent when it can run and the best candidate does not beat
    it by more than the margin, and the best candidate otherwise. *)
Definition winner_of (best : list scoredCandidate) (margin : float64) (incumbent : option ModelKey) :
    option (scoredCandidate * bool) :=
  match best with
  | [] => None
  | top :: _ =>
      match incumbent with
      | None => Some (top, false)
      | Some key =>
          match snd <$> list_find (fun sc => Key (profile sc) = key) best with
          | Some inc =>
              if fle (score top) (fadd (score inc) margin) then Some (inc, true) else Some (top, false)
          | None => Some (top, false)
          end
      end
  end.

Definition affine (req : RoutingRequest) : bool :=
  negb (string_eqb (AffinityKey req) "") && negb (DryRun req).

Lemma stickyStep_winner req k tGet tTouch best r :
  let '(l, st, r') := stickyStep req k tGet tTouch best r in
  (fun sc => (sc, st)) <$> head l =
    winner_of best (hysteresisMargin r)
      (if affine req then providerKey <$> (get tGet k (sticky r)).1 else None) /\
  (affine req = false -> r' = r).
Proof.
  unfold stickyStep, winner_of. fold (affine req). destruct (affine req); simpl.
  2: { split; [|done]. by destruct best. }
  destruct (get tGet k (sticky r)) as [[inc|] s]; simpl; [|by destruct best].
  unfold findIncumbentScore.
  destruct (list_find _ best) as [[i sc]|] eqn:Hf; simpl; [|by destruct best].
  apply list_find_Some in Hf as (Hi & _ & _). destruct best as [|top best]; [done|].
  rewrite Hi. destruct (fle _ _) eqn:Hfle; simpl.
  - unfold keepIncumbent. rewrite Hi. done.
  - done.
Qed.

Lemma put_entry t order e (s : stickyCache float64 unit) :
  entries (put t order e s) !! s_key e = Some e.
Proof.
  unfold put. destruct (entries s !! s_key e); simpl; [apply lookup_insert_eq|].
  destruct (_ <=? _); simpl; apply lookup_insert_eq.
Qed.

Lemma finishRoute_winner req k t order l st r plan r' :
  finishRoute req k t order l st r = (mkRouted (Some plan) None, r') ->
  ((fun sc => (profile sc, st)) <$> head l = Some (Profile plan, wasSticky plan)) /\
  (affine req = false -> r' = r) /\
  (affine req = true -> k <> "" ->
   exists e, entries (sticky r') !! k = Some e /\ providerKey e = Key (Profile plan) /\
     expiresAt e = t + stickyTTL r).
Proof.
  unfold finishRoute. destruct l as [|w rest]; [done|].
  destruct (buildPlan _ _ _ _ _) as [pl|] eqn:Hb; [|done]. intros [= <- Hr]. simpl.
  unfold buildPlan in Hb. destruct (resolveProvider _); [done|]. simplify_eq/=. split; [done|].
  fold (affine req). destruct (affine req); simpl; [|done]. split; [done|]. intros _ Hk.
  unfold string_eqb. rewrite bool_decide_false by done. simpl.
  set (e := mkSticky k _ _ _ _ _ _). exists e. split; [exact (put_entry t order e (sticky r))|done].
Qed.

(** without a preferred chain, a route that succeeds keeps the session on
    the model of its sticky entry when that model can run and the best candidate
    does not score above it by more than the hysteresis margin, and takes the
    best candidate otherwise; the sticky entry then names the model of the plan
    for a full time to live.  A dry run and a request without an affinity key
    take the best candidate and leave the sticky cache as it was. *)
Theorem route_affinity h cands diags tGet tTouch tPut order req r plan r' :
  (forall s, h s <> "") ->
  routeGlobal h (Ok cands) diags None tGet tTouch tPut order req r = (mkRouted (Some plan) None, r') ->
  let k := StickyKey h req in
  (fun p => (profile p.1, p.2)) <$>
    winner_of (ranked cands req r) (hysteresisMargin r)
      (if affine req then providerKey <$> (get tGet k (sticky r)).1 else None)
    = Some (Profile plan, wasSticky plan) /\
  if affine req
  then exists e, entries (sticky r') !! k = Some e /\ providerKey e = Key (Profile plan) /\
         expiresAt e = tPut + stickyTTL r
  else sticky r' = sticky r.
Proof.
  intros Hh Hroute k. unfold routeGlobal in Hroute. unfold ranked.
  destruct (capabilityResolutionTerminalError diags); [done|].
  destruct cands as [|c cs]; [done|]. set (ps := c :: cs) in *.
  pose proof (scoreAll_spec 0 ps req (buildFeedbackSnapshot r ps (UseCase req)) r) as Hs.
  destruct (scoreAll _ _ _ _ _) as [scored r1]. destruct Hs as (Hr1 & _). simpl.
  destruct (executables scored) as [|e es].
  { exfalso. revert Hroute. unfold nothingExecutable. by repeat case_match. }
  pose proof (stickyStep_winner req k tGet tTouch (sortScoredCandidates warmth (e :: es)) r1) as Hst.
  unfold k in *.
  pose proof (stickyStep_spec req (StickyKey h req) tGet tTouch (sortScoredCandidates warmth (e :: es)) r1)
    as Hsp.
  destruct (stickyStep _ _ _ _ _ _) as [[l st] r2]. destruct Hst as [Hwin Hna], Hsp as [_ Hr2].
  apply finishRoute_winner in Hroute as (Hhead & Hna' & Ha).
  assert (sticky r1 = sticky r /\ hysteresisMargin r1 = hysteresisMargin r) as [Es Em]
    by by rewrite Hr1.
  rewrite <-Es, <-Em, <-Hwin. split.
  - rewrite <-Hhead. by destruct l.
  - destruct (affine req).
    + assert (stickyTTL r2 = stickyTTL r) as Et by by rewrite Hr2, Hr1.
      rewrite <-Et. apply Ha; [done|]. apply Hh.
    + rewrite Hna', Hna by done. done.
Qed.
(** ** Feedback that is not enforced *)

Definition with_mode (m : FeedbackScoringMode) (r : Router) : Router :=
  mkRouter (closed r) (breakers r) (sticky r) (stickyTTL r) (hysteresisMargin r) (maxFallbacks r)
    (weightOverrides r) (tokenBudget r) (availableRAM r) (hasAdmission r) (hasDestGate r)
    (hasFeedback r) m (modelDefaults r).

(** Candidates that differ at most in what they record about feedback. *)
Definition sim (a b : scoredCandidate) : Prop :=
  profile a = profile b /\ budget a = budget b /\ score a = score b /\
  gated_in a = gated_in b /\ breakered a = breakered b.

Lemma sim_less a a' b b' : sim a a' -> sim b b' -> less warmth a b = less warmth a' b'.
Proof. intros (Hp & _ & Hs & _) (Hp' & _ & Hs' & _). unfold less. by rewrite Hp, Hs, Hp', Hs'. Qed.

Lemma sim_sort l l' :
  Forall2 sim l l' -> Forall2 sim (sortScoredCandidates warmth l) (sortScoredCandidates warmth l').
Proof.
  assert (forall x x' k k', sim x x' -> Forall2 sim k k' ->
    Forall2 sim (insertStable warmth x k) (insertStable warmth x' k')) as Hins.
  { intros x x' k k' Hx. induction 1 as [|y y' k k' Hy Hk IH]; simpl; [by auto|].
    rewrite (sim_less y y' x x') by done. destruct (less _ y' x'); auto. }
  induction 1; simpl; [constructor|]. by apply Hins.
Qed.

Lemma sim_decided d a b : sim a b -> decided d a = decided d b.
Proof. intros (_ & Hb & _ & Hg & Hr). unfold decided. by rewrite Hb, Hg, Hr. Qed.

Lemma sim_filter (P : scoredCandidate -> bool) l l' :
  (forall a b, sim a b -> P a = P b) -> Forall2 sim l l' ->
  Forall2 sim (filter (fun sc => P sc = true) l) (filter (fun sc => P sc = true) l').
Proof.
  intros HP. induction 1 as [|a b l l' Hab Hl IH]; [constructor|].
  rewrite !filter_cons, (HP a b Hab). case_decide; [by constructor|done].
Qed.

Lemma sim_len {A} (R : A -> A -> Prop) l l' : Forall2 R l l' -> len l = len l'.
Proof. intros H. unfold len. by rewrite (Forall2_length _ _ _ H). Qed.

Lemma sim_lookup l l' (i : nat) :
  Forall2 sim l l' ->
  match l !! i, l' !! i with Some a, Some b => sim a b | None, None => True | _, _ => False end.
Proof.
  intros H. revert i. induction H as [|a b l l' Hab Hl IH]; intros [|i]; simpl; auto. apply IH.
Qed.

Lemma sim_find k l l' : Forall2 sim l l' -> findIncumbentScore k l = findIncumbentScore k l'.
Proof.
  unfold findIncumbentScore. induction 1 as [|a b l l' Hab Hl IH]; [done|]. simpl.
  destruct Hab as (-> & _). case_decide; [done|].
  destruct (list_find _ l) as [[]|], (list_find _ l') as [[]|]; simpl in *; congruence.
Qed.

Lemma sim_keep i l l' : Forall2 sim l l' -> Forall2 sim (keepIncumbent i l) (keepIncumbent i l').
Proof.
  intros H. unfold keepIncumbent. pose proof (sim_lookup _ _ i H).
  destruct (l !! i), (l' !! i); try done. constructor; [done|].
  apply Forall2_app; [by apply Forall2_take|by apply Forall2_drop].
Qed.

(** A snapshot the selection score does not depend on. *)
Definition neutral (s : feedbackSnapshot) : Prop := enforced s = false \/ byKey s = ∅.
Lemma computeWeightedScore_ext d d' u act cw :
  warmthBonus d = warmthBonus d' -> headroomScore d = headroomScore d' ->
  feedbackScore d = feedbackScore d' -> qualityTier d = qualityTier d' ->
  speedTier d = speedTier d' -> kvCacheBonus d = kvCacheBonus d' -> costPenalty d = costPenalty d' ->
  computeWeightedScore d u act cw = computeWeightedScore d' u act cw.
Proof. intros E1 E2 E3 E4 E5 E6 E7. unfold computeWeightedScore. by rewrite E1, E2, E3, E4, E5, E6, E7. Qed.

(** The selection score under a neutral snapshot is the one without feedback. *)
Lemma selection_neutral s k p req b t cb x y u act cw :
  neutral s ->
  let d := (scoreCandidate warmth p req b (lookup s k) t cb).1 in
  let d0 := (scoreCandidate warmth p req b None t cb).1 in
  computeWeightedScore (scoreBreakdownForSelection (with_scores d x y) (enforced s)) u act cw =
  computeWeightedScore d0 u act cw /\
  capabilityGate d = capabilityGate d0 /\ breakerPenalty d = breakerPenalty d0 /\
  (scoreCandidate warmth p req b (lookup s k) t cb).2 = (scoreCandidate warmth p req b None t cb).2.
Proof.
  intros Hn. assert (enforced s = false \/ lookup s k = None) as Hn'.
  { destruct Hn as [|Hk]; [by left|right]. unfold lookup. rewrite Hk. by case_match. }
  unfold scoreCandidate. set (sat := profileSatisfiesRequiredCaps p (RequiredCaps req)).
  destruct (negb sat); [|destruct (Allow t cb) as [[] cb']]; cbn [fst snd];
    (split; [|done]); apply computeWeightedScore_ext; unfold scoreBreakdownForSelection;
    destruct Hn' as [->| ->]; try done; by destruct (enforced s).
Qed.

Lemma scoreProfile_sim j req s s' p r m :
  neutral s -> neutral s' ->
  let '(a, r1) := scoreProfile j req s p r in
  let '(b, r2) := scoreProfile j req s' p (with_mode m r) in
  sim a b /\ r2 = with_mode m r1.
Proof.
  intros Hs Hs'. unfold scoreProfile. set (q := Provider (Key p)).
  assert (getOrCreateBreaker q (with_mode m r) =
    ((getOrCreateBreaker q r).1, with_mode m (getOrCreateBreaker q r).2)) as ->
    by (unfold getOrCreateBreaker; simpl; by destruct (breakers r !! q)).
  destruct (getOrCreateBreaker q r) as [cb r0]. cbn [fst snd].
  set (k := mkFeedbackKey _ _ _). set (bud := Validate (tokenBudget r) req p).
  change (Validate (tokenBudget (with_mode m r)) req p) with bud.
  pose proof (fun x y u act cw => selection_neutral s k p req bud (now j) cb x y u act cw Hs) as H1.
  pose proof (fun x y u act cw => selection_neutral s' k p req bud (now j) cb x y u act cw Hs') as H2.
  destruct (scoreCandidate warmth p req bud (lookup s k) (now j) cb) as [d cb1].
  destruct (scoreCandidate warmth p req bud (lookup s' k) (now j) cb) as [d' cb2].
  cbn [fst snd] in H1, H2.
  destruct (H1 fzero fzero "" (fun _ => true) None) as (_ & Hg1 & Hb1 & ->).
  destruct (H2 fzero fzero "" (fun _ => true) None) as (_ & Hg2 & Hb2 & ->).
  split; [|done]. unfold sim, gated_in, breakered. simpl.
  rewrite (proj1 (H1 _ _ _ _ _)), (proj1 (H2 _ _ _ _ _)), Hg1, Hg2, Hb1, Hb2. done.
Qed.

Lemma scoreAll_sim j cands req s s' r m :
  neutral s -> neutral s' ->
  let '(l, r1) := scoreAll j cands req s r in
  let '(l', r2) := scoreAll j cands req s' (with_mode m r) in
  Forall2 sim l l' /\ r2 = with_mode m r1.
Proof.
  intros Hs Hs'. revert j r. induction cands as [|p cands IH]; intros j r; simpl; [done|].
  change (exceedsRAM (with_mode m r) p) with (exceedsRAM r p).
  destruct (exceedsRAM r p); [apply IH|].
  pose proof (scoreProfile_sim j req s s' p r m Hs Hs') as Hp.
  destruct (scoreProfile j req s p r) as [a r1].
  destruct (scoreProfile j req s' p (with_mode m r)) as [b r2]. destruct Hp as [Hab ->].
  specialize (IH (S j) r1). destruct (scoreAll (S j) cands req s r1) as [l r3].
  destruct (scoreAll (S j) cands req s' (with_mode m r1)) as [l' r4]. destruct IH as [Hl ->]. auto.
Qed.

(** Plans see neither the mode nor the feedback of a candidate. *)
Lemma buildPlan_sim r m a a' l l' req st :
  sim a a' -> Forall2 sim l l' ->
  buildPlan (with_mode m r) a' l' req st = buildPlan r a l req st.
Proof.
  intros Ha Hl. unfold buildPlan.
  assert (forall r x x' fbs w rec fb gov gat, sim x x' ->
    candidatePlan (with_mode m r) req x' fbs w rec fb gov gat =
    candidatePlan r req x fbs w rec fb gov gat) as Hcp.
  { intros r0 x x' fbs w rec fb gov gat (Hp & Hb & Hs & _). unfold candidatePlan. simpl.
    by rewrite Hp, Hb, Hs. }
  assert (profile a' = profile a) as -> by (symmetry; apply Ha).
  destruct (resolveProvider _); [done|]. f_equal. rewrite (Hcp r a a') by done. f_equal.
  induction Hl as [|x x' l l' Hx Hl IH]; [done|]. simpl.
  assert (profile x' = profile x) as -> by (symmetry; apply Hx).
  destruct (resolveProvider _); [done|]. rewrite (Hcp r x x') by done. f_equal. exact IH.
Qed.
Lemma stickyStep_sim req k tGet tTouch l l' r m :
  Forall2 sim l l' ->
  let '(o, st, r1) := stickyStep req k tGet tTouch l r in
  let '(o', st', r2) := stickyStep req k tGet tTouch l' (with_mode m r) in
  Forall2 sim o o' /\ st' = st /\ r2 = with_mode m r1.
Proof.
  intros Hl. unfold stickyStep. destruct (_ && _); [|done]. simpl.
  destruct (get tGet k (sticky r)) as [[inc|] s]; [|done].
  rewrite <-(sim_find (providerKey inc) l l' Hl). destruct (findIncumbentScore _ l) as [i|]; [|done].
  pose proof (sim_lookup _ _ i Hl) as Hi. pose proof (sim_keep i _ _ Hl) as Hk.
  inversion Hl as [|c c' t t' Hc Ht]; subst; [done|].
  destruct ((c :: t) !! i) as [a|], ((c' :: t') !! i) as [a'|]; try done.
  assert (score c' = score c) as -> by (symmetry; apply Hc).
  assert (score a' = score a) as -> by (symmetry; apply Hi).
  simpl. destruct (fle _ _); done.
Qed.

Lemma finishRoute_sim req k t order l l' st r m :
  Forall2 sim l l' ->
  let '(out, r1) := finishRoute req k t order l st r in
  finishRoute req k t order l' st (with_mode m r) = (out, with_mode m r1).
Proof.
  intros Hl. unfold finishRoute. inversion Hl as [|w w' rest rest' Hw Hr]; subst; [done|].
  rewrite <-(sim_len sim _ _ Hl). cbn [maxFallbacks with_mode].
  set (n := Z.min _ _).
  rewrite (buildPlan_sim r m w w' (if 0 <? n then take (Z.to_nat n) rest else [])) by
    first [done|destruct (0 <? n); [by apply Forall2_take|constructor]].
  destruct (buildPlan r w _ req st); [|done].
  destruct Hw as (-> & _ & -> & _). by destruct (_ && _ && _).
Qed.

Lemma nothingExecutable_sim req diags l l' r m :
  Forall2 sim l l' ->
  nothingExecutable req diags l' (with_mode m r) = nothingExecutable req diags l r.
Proof.
  intros Hl. unfold nothingExecutable.
  pose proof (sim_sort _ _ (sim_filter (decided BudgetTruncate) l l' (sim_decided _) Hl)) as Ht.
  unfold breakerCount, budgetCount, truncatables.
  rewrite <-(sim_len sim _ _ (sim_filter (decided BudgetReject) l l' (sim_decided _) Hl)).
  rewrite <-(sim_len sim _ _ (sim_filter (fun sc => gated_in sc && breakered sc) l l'
    ltac:(intros ? ? (_ & _ & _ & -> & ->); done) Hl)).
  inversion Ht as [|a a' k k' Ha Hk]; [done|]. rewrite (buildPlan_sim r m a a' []) by done.
  done.
Qed.

(** ** Snapshots that stay neutral *)

Definition store_down : Prop := forall k, is_ok (fbScore k) = false.

Definition quiet (s : feedbackSnapshot) : Prop :=
  snap_mode s <> FeedbackScoringEnforce \/ byKey s = ∅ /\ store_down.

Lemma quiet_neutral s : quiet s -> neutral s.
Proof.
  intros [Hm|[Hk _]]; [left|by right]. unfold enforced. destruct (snap_mode s); [| |done];
    by rewrite andb_false_r.
Qed.

Lemma readLoop_quiet ps u sn s : quiet s -> quiet (readLoop ps u sn s).
Proof.
  revert sn s. induction ps as [|p ps IH]; intros sn s Hs; simpl; [done|].
  set (k := mkFeedbackKey _ _ _). destruct (bool_decide _); [by apply IH|].
  destruct (byKey s !! k) eqn:Hk; [by apply IH|].
  destruct (fbScore k) as [agg|] eqn:Hf.
  - apply IH. destruct Hs as [|[_ Hd]]; [by left|]. specialize (Hd k). by rewrite Hf in Hd.
  - destruct Hs as [|[_ Hd]]; [by left|by right].
Qed.

Lemma readCandidates_quiet r ps u s : quiet s -> quiet (readCandidates r ps u s).
Proof. intros Hs. unfold readCandidates. destruct (_ || _); [done|]. by apply readLoop_quiet. Qed.

(** Feedback that cannot weigh in: it is off or only watched, or no score can
    be read. *)
Definition inert (r : Router) : Prop :=
  feedbackScoringMode r <> FeedbackScoringEnforce \/ store_down.

Lemma build_quiet r ps u : inert r -> quiet (buildFeedbackSnapshot r ps u).
Proof.
  intros Hr. assert (forall a b st, quiet (mkSnapshot a b (feedbackScoringMode r) st ∅)) as Hq.
  { intros. destruct Hr; [by left|by right]. }
  unfold buildFeedbackSnapshot.
  destruct (feedbackScoringMode r) eqn:Hm; [apply Hq| |];
    (destruct (negb _); [apply Hq|]; destruct (string_eqb _ _); [apply Hq|];
     destruct (0 <? len ps); [|apply Hq]; apply readCandidates_quiet, Hq).
Qed.

Lemma routeGlobal_inert h cands diags ctxErr tGet tTouch tPut order req r m :
  inert r -> inert (with_mode m r) ->
  let '(out, r1) := routeGlobal h cands diags ctxErr tGet tTouch tPut order req r in
  routeGlobal h cands diags ctxErr tGet tTouch tPut order req (with_mode m r) = (out, with_mode m r1).
Proof.
  intros Hi Hi'. unfold routeGlobal. destruct ctxErr; [done|]. destruct cands as [cands|]; [|done].
  destruct (capabilityResolutionTerminalError diags); [done|].
  destruct cands as [|c cs]; [done|]. set (ps := c :: cs).
  pose proof (scoreAll_sim 0 ps req _ _ r m (quiet_neutral _ (build_quiet r ps (UseCase req) Hi))
    (quiet_neutral _ (build_quiet (with_mode m r) ps (UseCase req) Hi'))) as Hs.
  destruct (scoreAll 0 ps req (buildFeedbackSnapshot r ps (UseCase req)) r) as [l r1].
  destruct (scoreAll 0 ps req (buildFeedbackSnapshot (with_mode m r) ps (UseCase req)) (with_mode m r))
    as [l' r1']. destruct Hs as [Hl ->].
  assert (Hex : Forall2 sim (executables l) (executables l'))
    by (by apply sim_filter; [apply sim_decided|]).
  destruct (executables l) as [|e es], (executables l') as [|e' es']; try (by inversion Hex).
  { by rewrite nothingExecutable_sim with (l := l). }
  pose proof (stickyStep_sim req (StickyKey h req) tGet tTouch _ _ r1 m (sim_sort _ _ Hex)) as Hst.
  destruct (stickyStep _ _ _ _ _ r1) as [[o st] r2].
  destruct (stickyStep _ _ _ _ _ (with_mode m r1)) as [[o' st'] r2'].
  destruct Hst as (Ho & -> & ->). by apply finishRoute_sim.
Qed.
(** ** The same for chains *)

Lemma resolveChain_mode e t i l r m :
  let '(es, r1) := resolveChain e t i l r in
  resolveChain e t i l (with_mode m r) = (es, with_mode m r1).
Proof.
  revert i r. induction l as [|x l IH]; intros i r; simpl; [done|].
  set (r1 := match e i x with Ok _ => r | Err _ => _ end).
  set (r1' := match e i x with Ok _ => with_mode m r | Err _ => _ end).
  assert (r1' = with_mode m r1) as ->.
  { unfold r1', r1. destruct (e i x); [done|]. unfold recordChainLookupFailure.
    destruct (negb _); [done|]. destruct (parseModelSelector _); [|done].
    destruct (string_eqb _ _); [done|]. unfold getOrCreateBreaker. simpl.
    by destruct (breakers r !! _). }
  specialize (IH (S i) r1). destruct (resolveChain _ _ _ _ r1) as [es r2]. by rewrite IH.
Qed.

Lemma scoreChainStep_sim c j ps req s s' r m :
  neutral s -> neutral s' ->
  let '(l, r1) := scoreChainStep c j ps req s r in
  let '(l', r2) := scoreChainStep c j ps req s' (with_mode m r) in
  Forall2 sim l l' /\ r2 = with_mode m r1.
Proof.
  intros Hs Hs'. unfold scoreChainStep. destruct c; [done|].
  pose proof (scoreAll_sim j ps req s s' r m Hs Hs') as H.
  destruct (scoreAll j ps req s r), (scoreAll j ps req s' (with_mode m r)).
  destruct H as [H ->]. split; [by apply sim_sort|done].
Qed.

Record walk_sim (w w' : walkState) : Prop := mkWalkSim {
  ws_seen : seen w = seen w';
  ws_working : Forall2 sim (working w) (working w');
  ws_truncatable : Forall2 sim (truncatable w) (truncatable w');
  ws_rest : wBreakerCount w = wBreakerCount w' /\ wBudgetCount w = wBudgetCount w' /\
    resolvedAny w = resolvedAny w';
}.

Lemma collect_sim w w' a a' : walk_sim w w' -> sim a a' -> walk_sim (collect w a) (collect w' a').
Proof.
  intros [Hse Hw Ht (Hb & Hd & Hr)] Ha. pose proof Ha as (Hp & Hbu & _ & Hg & Hbr).
  unfold collect. rewrite <-Hp, <-Hse, <-Hg, <-Hbr, <-Hbu.
  destruct (bool_decide _); [done|]. destruct (gated_in a); [|done]. simpl.
  destruct (breakered a); [|destruct (Decision (budget a))]; constructor; simpl; try done;
    rewrite ?Hb, ?Hd; try done; apply Forall2_app; auto.
Qed.

Lemma collects_sim l l' w w' :
  Forall2 sim l l' -> walk_sim w w' -> walk_sim (fold_left collect l w) (fold_left collect l' w').
Proof.
  intros Hl. revert w w'. induction Hl as [|a a' l l' Ha Hl IH]; intros w w' Hw; simpl; [done|].
  apply IH. by apply collect_sim.
Qed.

Lemma chainWalk_sim c i j steps req s s' w w' r m :
  neutral s -> neutral s' -> walk_sim w w' ->
  let '(v, r1) := chainWalk c i j steps req s w r in
  let '(v', r2) := chainWalk c i j steps req s' w' (with_mode m r) in
  walk_sim v v' /\ r2 = with_mode m r1.
Proof.
  intros Hs Hs'. revert i j w w' r. induction steps as [|ps steps IH]; intros i j w w' r Hw; simpl;
    [done|].
  pose proof (scoreChainStep_sim (c i) j ps req s s' r m Hs Hs') as H.
  destruct (scoreChainStep (c i) j ps req s r) as [l r1].
  destruct (scoreChainStep (c i) j ps req s' (with_mode m r)) as [l' r2]. destruct H as [Hl ->].
  apply IH. by apply collects_sim.
Qed.

Lemma tailStep_sim l l' acc acc' :
  Forall2 sim l l' -> acc.1 = acc'.1 -> Forall2 sim acc.2 acc'.2 ->
  Forall2 sim (fold_left tailStep l acc).2 (fold_left tailStep l' acc').2.
Proof.
  intros Hl. revert acc acc'. induction Hl as [|a a' l l' Ha Hl IH]; intros acc acc' H1 H2; simpl;
    [done|].
  pose proof Ha as (Hp & Hb & _ & Hg & Hbr).
  assert ((tailStep acc a).1 = (tailStep acc' a').1 /\
    Forall2 sim (tailStep acc a).2 (tailStep acc' a').2) as [E1 E2]; [|by apply IH].
  unfold tailStep. rewrite <-H1, <-Hp, <-Hg, <-Hbr, <-Hb.
  destruct (bool_decide (_ ∈ _)); [done|]. destruct (gated_in a); [|done]. simpl.
  destruct (breakered a); [done|]. destruct (bool_decide _); [|done]. simpl.
  split; [by rewrite H1|]. apply Forall2_app; auto.
Qed.

Lemma scoreRecommendTail_sim c j ps req sn s s' r m :
  neutral s -> neutral s' ->
  let '(l, r1) := scoreRecommendTail c j ps req sn s r in
  let '(l', r2) := scoreRecommendTail c j ps req sn s' (with_mode m r) in
  Forall2 sim l l' /\ r2 = with_mode m r1.
Proof.
  intros Hs Hs'. unfold scoreRecommendTail.
  pose proof (scoreChainStep_sim c j ps req s s' r m Hs Hs') as H.
  destruct (scoreChainStep c j ps req s r), (scoreChainStep c j ps req s' (with_mode m r)).
  destruct H as [Hl ->]. split; [|done]. by apply tailStep_sim.
Qed.

Lemma finishChain_sim req w w' tl tl' errs r m :
  walk_sim w w' -> Forall2 sim tl tl' ->
  finishChain req w' tl' errs (with_mode m r) = finishChain req w tl errs r.
Proof.
  intros [Hse Hw Ht (Hb & Hd & Hr)] Htl. unfold finishChain.
  pose proof (Forall2_app Hw Htl) as Hl.
  inversion Hl as [|a a' k k' Ha Hk].
  - pose proof (sim_sort _ _ Ht) as Hst. inversion Hst as [|x x' y y' Hx Hy].
    + unfold classifyChainExhaustion. by rewrite Hb, Hd, Hr.
    + by rewrite (buildPlan_sim r m x x' []).
  - rewrite <-(sim_len sim (a :: k) (a' :: k')), <-(sim_len sim k k') by auto.
    cbn [maxFallbacks with_mode]. set (n := if len (a :: k) <? _ then _ else _).
    unfold sliceFallbacks. destruct (0 <? n); [destruct (_ <? 1); [done|]|];
      (erewrite buildPlan_sim; [reflexivity|done|]); [by apply Forall2_take|constructor].
Qed.

Lemma readCandidates_steps_quiet r u steps s :
  quiet s -> quiet (fold_left (fun s ps => readCandidates r ps u s) steps s).
Proof.
  revert s. induction steps as [|ps steps IH]; intros s Hs; simpl; [done|].
  by apply IH, readCandidates_quiet.
Qed.

Lemma routeChain_inert e t tools rcm ctxErr c req r m :
  inert r -> inert (with_mode m r) ->
  let '(out, r1) := routeChain e t tools rcm ctxErr c req r in
  routeChain e t tools rcm ctxErr c req (with_mode m r) = (out, with_mode m r1).
Proof.
  intros Hi Hi'. unfold routeChain. simpl. destruct (closed r); [done|].
  pose proof (resolveChain_config e t 0 (PreferredChain req) r) as Hr1.
  pose proof (resolveChain_mode e t 0 (PreferredChain req) r m) as Hrc.
  destruct (resolveChain e t 0 (PreferredChain req) r) as [es r1]. rewrite Hrc. simpl in Hr1.
  destruct (replay es _ 0) as [steps errs].
  set (s0 := fold_left _ steps (buildFeedbackSnapshot r [] _)).
  set (s0' := fold_left _ steps (buildFeedbackSnapshot (with_mode m r) [] _)).
  assert (quiet s0) as Hs0 by by apply readCandidates_steps_quiet, build_quiet.
  assert (quiet s0') as Hs0' by by apply readCandidates_steps_quiet, build_quiet.
  change (markChainSeenForTail (with_mode m r1) req) with (markChainSeenForTail r1 req).
  set (sn := fold_left (markChainSeenForTail r1 req) steps []).
  set (x := if StrictChain req then _ else _). set (x' := if StrictChain req then _ else _).
  assert (x'.1 = x.1 /\ quiet x.2 /\ quiet x'.2) as (Hx & Hq & Hq').
  { unfold x, x'. destruct (StrictChain req); [done|]. destruct rcm as [[all diags]|]; [|done].
    split_and!; [done|by apply readCandidates_quiet..]. }
  destruct x as [[tp errs1] s1], x' as [[tp' errs1'] s1']. simpl in Hx, Hq, Hq'. simplify_eq.
  destruct ctxErr; [done|]. destruct (capabilityResolutionTerminalError errs1); [done|].
  apply quiet_neutral in Hq, Hq'.
  pose proof (chainWalk_sim c 0 0 steps req s1 s1' (mkWalk [] [] [] 0 0 false)
    (mkWalk [] [] [] 0 0 false) r1 m Hq Hq' ltac:(by constructor)) as Hw.
  destruct (chainWalk c 0 0 steps req s1 _ r1) as [w r2].
  destruct (chainWalk c 0 0 steps req s1' _ (with_mode m r1)) as [w' r2']. destruct Hw as [Hw ->].
  rewrite <-(ws_seen w w' Hw).
  destruct (negb (StrictChain req) && (0 <? len tp)).
  - pose proof (scoreRecommendTail_sim (c (length steps)) (length (concat steps)) tp req (seen w) s1 s1'
      r2 m Hq Hq') as Ht.
    destruct (scoreRecommendTail _ _ _ _ _ s1 _) as [tl r3], (scoreRecommendTail _ _ _ _ _ s1' _) as [tl' r3'].
    destruct Ht as [Ht ->]. by rewrite (finishChain_sim req w w' tl tl').
  - by rewrite (finishChain_sim req w w' [] []).
Qed.

(** feedback that is only watched cannot influence routing.  When scoring
    by feedback is not enforced, or no feedback score can be read, a request gets
    the same answer, and leaves the same router, as with feedback scoring off:
    chains, fallbacks, affinity and breakers included. *)
Theorem feedback_inert w req r :
  inert r ->
  let '(out, r1) := Route w req r in
  Route w req (with_mode FeedbackScoringOff r) = (out, with_mode FeedbackScoringOff r1).
Proof.
  intros Hi. assert (inert (with_mode FeedbackScoringOff r)) as Hi' by by left.
  unfold Route. simpl. destruct (closed r); [done|]. destruct (_ && _ && _); [done|].
  destruct (0 <? len (PreferredChain req)); [by apply routeChain_inert|by apply routeGlobal_inert].
Qed.
(** ** The order of a chain *)

Definition key_of (sc : scoredCandidate) : ModelKey := Key (profile sc).

(** A profile every gate lets through, whose provider's breaker is closed. *)
Record viable (r : Router) (req : RoutingRequest) (p : ModelProfile) : Prop := mkViable {
  vi_caps : profileSatisfiesRequiredCaps p (RequiredCaps req) = true;
  vi_ram : exceedsRAM r p = false;
  vi_budget : Decision (Validate (tokenBudget r) req p) = BudgetOK;
  vi_breaker : state_of r (Provider (Key p)) = BreakerClosed;
}.

(** [K]: the keys that must not be lost. *)
Record collected (K : ModelKey -> Prop) (sn : list ModelKey) (l : list scoredCandidate) : Prop :=
  mkCollected {
  co_nodup : NoDup (map key_of l);
  co_seen : forall sc, sc ∈ l -> key_of sc ∈ sn;
  co_kept : forall k, k ∈ sn -> K k -> k ∈ map key_of l;
}.

Lemma collected_skip K sn l k :
  collected K sn l -> ~ K k -> collected K (k :: sn) l.
Proof.
  intros [Hn Hs Hk] HK. split; [done| |].
  - intros sc Hsc. right. auto.
  - intros k' [->|Hk']%elem_of_cons HK'; [done|auto].
Qed.

Lemma collected_add K sn l sc :
  collected K sn l -> key_of sc ∉ sn -> collected K (key_of sc :: sn) (l ++ [sc]).
Proof.
  intros [Hn Hs Hk] Hnew. split.
  - rewrite map_app. apply NoDup_app. split_and!; [done| |apply NoDup_singleton].
    intros k Hk1 Hk2. apply list_elem_of_singleton in Hk2. subst k.
    apply list_elem_of_fmap in Hk1 as (sc' & Heq & Hin). apply Hnew. rewrite Heq. auto.
  - intros x [Hx| ->%list_elem_of_singleton]%elem_of_app; [right; auto|left].
  - intros k [->|Hin]%elem_of_cons HK; rewrite map_app; apply elem_of_app; [right; left|left; auto].
Qed.

Lemma collect_spec K w sc :
  (K (key_of sc) -> decided BudgetOK sc = true) -> collected K (seen w) (working w) ->
  let w' := collect w sc in
  collected K (seen w') (working w') /\ (forall k, k ∈ seen w -> k ∈ seen w') /\
  (gated_in sc = true -> key_of sc ∈ seen w') /\
  exists new, working w' = working w ++ new /\ forall x, x ∈ new -> x = sc.
Proof.
  intros HK Hc. assert (exists new, working w = working w ++ new /\ forall x, x ∈ new -> x = sc) as Hnil
    by (exists []; rewrite app_nil_r; split; [done|by intros x ?%elem_of_nil]).
  unfold collect. fold (key_of sc).
  destruct (bool_decide_reflect (key_of sc ∈ seen w)) as [Hin|Hnew]; [done|].
  destruct (gated_in sc) eqn:Hg; [|done]. simpl.
  assert (forall k, k ∈ seen w -> k ∈ key_of sc :: seen w) as Hmono by (intros; by right).
  assert (decided BudgetOK sc = false -> collected K (key_of sc :: seen w) (working w)) as Hskip
    by (intros Hd; apply collected_skip; [done|]; intros Hk; rewrite HK in Hd by done; done).
  destruct (breakered sc) eqn:Hb; [|destruct (Decision (budget sc)) eqn:Hd]; simpl.
  2: { split_and!; [by apply collected_add|done|by left|].
       exists [sc]. split; [done|]. by intros x ->%list_elem_of_singleton. }
  all: split_and!; [apply Hskip|done|by left|done];
    unfold decided; rewrite Hg, Hb, ?Hd; done.
Qed.

Lemma collects_spec K l w :
  (forall sc, sc ∈ l -> K (key_of sc) -> decided BudgetOK sc = true) ->
  collected K (seen w) (working w) ->
  let w' := fold_left collect l w in
  collected K (seen w') (working w') /\ (forall k, k ∈ seen w -> k ∈ seen w') /\
  (forall sc, sc ∈ l -> gated_in sc = true -> key_of sc ∈ seen w') /\
  exists new, working w' = working w ++ new /\ forall x, x ∈ new -> x ∈ l.
Proof.
  revert w. induction l as [|sc l IH]; intros w HK Hc; simpl.
  { split_and!; [done..|by intros ? ?%elem_of_nil|exists []; rewrite app_nil_r; split; [done|]].
    by intros x ?%elem_of_nil. }
  destruct (collect_spec K w sc (HK sc ltac:(left)) Hc) as (Hc1 & Hm1 & Hg1 & new1 & Hw1 & Hn1).
  destruct (IH (collect w sc) ltac:(intros; apply HK; [by right|done]) Hc1)
    as (Hc2 & Hm2 & Hg2 & new2 & Hw2 & Hn2).
  split_and!; [done|auto| |].
  - intros x [->|Hx]%elem_of_cons Hg; auto.
  - exists (new1 ++ new2). rewrite Hw2, Hw1, app_assoc. split; [done|].
    intros x [Hx|Hx]%elem_of_app; [rewrite (Hn1 x Hx); left|right; auto].
Qed.

(** A viable profile comes out of scoring as executable. *)
Lemma viable_decided r0 r r' req sc :
  r = with_breakers r0 (breakers r) -> probes r0 r ->
  verdict r r' req sc -> viable r0 req (profile sc) -> decided BudgetOK sc = true.
Proof.
  intros Hr Hpr [[Hram Hbud Hgate] _ Hcl] [Hcap _ Hok Hst].
  rewrite decided_iff. rewrite Hr in Hbud. simpl in Hbud. rewrite Hbud, Hgate.
  split_and!; [done| |done]. destruct (breakered sc) eqn:Hb; [|done].
  exfalso. apply Hcl; [by rewrite Hgate|done|]. unfold prov.
  destruct (Hpr (Provider (Key (profile sc)))) as [->|[]]; congruence.
Qed.
Lemma scoreChainStep_profiles c j ps req snap r :
  let '(scs, r') := scoreChainStep c j ps req snap r in
  (forall sc, sc ∈ scs -> profile sc ∈ ps) /\
  (c = false -> forall p, p ∈ ps -> exceedsRAM r p = false -> exists sc, sc ∈ scs /\ profile sc = p).
Proof.
  unfold scoreChainStep. destruct c; [split; [by intros ? ?%elem_of_nil|done]|].
  pose proof (scoreAll_spec j ps req snap r) as Hs.
  destruct (scoreAll _ _ _ _ _) as [scs r']. destruct Hs as (_ & _ & Hmap & _).
  assert (forall x, x ∈ sortScoredCandidates warmth scs <-> x ∈ scs) as Hin
    by (intros x; by rewrite sort_Permutation).
  split.
  - intros sc Hsc. rewrite Hin in Hsc. assert (profile sc ∈ map profile scs) as H
      by (apply list_elem_of_fmap; eauto).
    rewrite Hmap in H. by apply list_elem_of_filter in H as [_ ?].
  - intros _ p Hp Hram. assert (p ∈ map profile scs) as H
      by (rewrite Hmap; by apply list_elem_of_filter).
    apply list_elem_of_fmap in H as (sc & -> & Hsc). exists sc. by rewrite Hin.
Qed.

(** Every step adds candidates of its own, and after it no viable profile of
    the step is missing. *)
Lemma chainWalk_collects c i j steps req snap K r0 w r :
  (forall i, c i = false) ->
  (forall p, p ∈ concat steps -> K (Key p) -> viable r0 req p) ->
  r = with_breakers r0 (breakers r) -> probes r0 r -> collected K (seen w) (working w) ->
  let '(w', r') := chainWalk c i j steps req snap w r in
  collected K (seen w') (working w') /\
  exists picks, working w' = working w ++ concat picks /\
    Forall2 (fun l ps => forall sc, sc ∈ l -> profile sc ∈ ps) picks steps /\
    forall n ps p, steps !! n = Some ps -> p ∈ ps -> viable r0 req p -> K (Key p) ->
      Key p ∈ map key_of (working w ++ concat (take (S n) picks)).
Proof.
  intros Hctx. revert i j w r. induction steps as [|ps steps IH]; intros i j w r HK Hr Hpr Hc; simpl.
  { split; [done|]. exists []. rewrite app_nil_r. split_and!; [done|constructor|done]. }
  pose proof (scoreChainStep_spec (c i) j ps req snap r) as Hs.
  pose proof (scoreChainStep_profiles (c i) j ps req snap r) as Hp.
  destruct (scoreChainStep _ _ _ _ _ _) as [scs r1].
  destruct Hs as (Hr1 & Hpr1 & Hv), Hp as [Hsub Hall].
  assert (forall sc, sc ∈ scs -> K (key_of sc) -> decided BudgetOK sc = true) as Hdec.
  { intros sc Hsc Hk. rewrite Forall_forall in Hv.
    apply (viable_decided r0 r r1 req sc Hr Hpr (Hv sc Hsc)), HK; [|done].
    simpl. apply elem_of_app. left. auto. }
  destruct (collects_spec K scs w Hdec Hc) as (Hc1 & Hm1 & Hg1 & new & Hw1 & Hn1).
  set (w1 := fold_left collect scs w) in *.
  specialize (IH (S i) (j + length ps)%nat w1 r1
    ltac:(intros p Hin; apply HK; simpl; apply elem_of_app; by right)
    ltac:(rewrite Hr1, Hr; done) ltac:(by eapply probes_trans) Hc1).
  destruct (chainWalk _ _ _ _ _ _ w1 r1) as [w2 r2]. destruct IH as (Hc2 & picks & Hw2 & Hf & Hcomp).
  split; [done|]. exists (new :: picks). split_and!.
  - rewrite Hw2, Hw1. simpl. by rewrite app_assoc.
  - constructor; [|done]. intros sc Hsc. auto.
  - intros [|n] qs p Hn Hin Hvi Hk; simpl in Hn.
    + simplify_eq. simpl. rewrite app_nil_r, <-Hw1. apply (co_kept _ _ _ Hc1); [|done].
      assert (exceedsRAM r p = false) as Hram by (rewrite Hr; apply (vi_ram r0 req p Hvi)).
      destruct (Hall (Hctx i) p Hin Hram) as (sc & Hsc & <-). apply Hg1; [done|].
      rewrite Forall_forall in Hv. destruct (Hv sc Hsc) as [[_ _ ->] _ _].
      apply (vi_caps r0 req _ Hvi).
    + specialize (Hcomp n qs p Hn Hin Hvi Hk). rewrite Hw1, <-app_assoc in Hcomp. done.
Qed.
Lemma tailSteps_collects base l acc :
  NoDup (map key_of (base ++ acc.2)) -> (forall sc, sc ∈ base ++ acc.2 -> key_of sc ∈ acc.1) ->
  let acc' := fold_left tailStep l acc in
  NoDup (map key_of (base ++ acc'.2)) /\ forall sc, sc ∈ acc'.2 -> sc ∈ acc.2 \/ sc ∈ l.
Proof.
  revert acc. induction l as [|x l IH]; intros acc Hnd Hseen; simpl; [by auto|].
  assert (tailStep acc x = acc \/
    key_of x ∉ acc.1 /\ tailStep acc x = (key_of x :: acc.1, acc.2 ++ [x])) as [->|[Hnew ->]].
  { unfold tailStep. fold (key_of x). destruct (bool_decide_reflect (key_of x ∈ acc.1)); [by left|].
    destruct (negb (gated_in x)); [by left|]. destruct (breakered x); [by left|].
    destruct (negb (bool_decide _)); [by left|by right]. }
  - destruct (IH acc Hnd Hseen) as [H1 H2]. split; [done|].
    intros sc Hsc. destruct (H2 sc Hsc); [by left|right; by right].
  - destruct (IH (key_of x :: acc.1, acc.2 ++ [x])) as [H1 H2]; simpl.
    + rewrite app_assoc, map_app. apply NoDup_app. split_and!; [done| |apply NoDup_singleton].
      intros k Hk1 ->%list_elem_of_singleton. apply list_elem_of_fmap in Hk1 as (y & Heq & Hy).
      apply Hnew. rewrite Heq. auto.
    + intros sc Hsc. rewrite app_assoc in Hsc.
      apply elem_of_app in Hsc as [Hsc| ->%list_elem_of_singleton]; [right; auto|left].
    + split; [done|]. intros sc Hsc. destruct (H2 sc Hsc) as [[Hl|Hl]%elem_of_app|Hl].
      * by left.
      * apply list_elem_of_singleton in Hl as ->. right. left.
      * right. by right.
Qed.

Lemma tailSteps_complete l acc sc :
  sc ∈ l -> decided BudgetOK sc = true -> key_of sc ∈ (fold_left tailStep l acc).1.
Proof.
  assert (forall l acc k, k ∈ acc.1 -> k ∈ (fold_left tailStep l acc).1) as Hmono.
  { clear. induction l as [|x l IH]; intros acc k Hk; simpl; [done|]. apply IH. unfold tailStep.
    repeat case_match; try done. by right. }
  revert acc. induction l as [|x l IH]; intros acc Hin Hd; [by apply elem_of_nil in Hin|]. simpl.
  apply elem_of_cons in Hin as [<-|Hin]; [|by apply IH]. apply Hmono.
  apply decided_iff in Hd as (Hg & Hb & Hd). unfold tailStep. fold (key_of sc).
  destruct (bool_decide_reflect (key_of sc ∈ acc.1)); [done|]. rewrite Hg, Hb, Hd. simpl. by left.
Qed.

(** What the tail marks as seen is what it takes, and what the chain had seen. *)
Lemma tailSteps_seen l acc k :
  k ∈ (fold_left tailStep l acc).1 -> k ∈ acc.1 \/ k ∈ map key_of (fold_left tailStep l acc).2.
Proof.
  assert (forall l acc, exists new, (fold_left tailStep l acc).2 = acc.2 ++ new) as Hext.
  { clear. induction l as [|x l IH]; intros acc; simpl; [by exists []; rewrite app_nil_r|].
    destruct (IH (tailStep acc x)) as [new ->]. unfold tailStep. repeat case_match; try by exists new.
    simpl. exists (x :: new). by rewrite <-app_assoc. }
  revert acc. induction l as [|x l IH]; intros acc Hk; [by left|]. simpl in *.
  destruct (IH _ Hk) as [H|H]; [|by right]. unfold tailStep in H at 1.
  repeat case_match; try (by left). apply elem_of_cons in H as [->|H]; [|by left]. right.
  destruct (Hext l (tailStep acc x)) as [new ->]. unfold tailStep.
  repeat (case_match; [congruence|]). simpl. rewrite !map_app, !elem_of_app. left. right. by left.
Qed.

(** The walk marks only keys of the chain. *)
Lemma collects_seen l w k :
  k ∈ seen (fold_left collect l w) -> k ∈ seen w \/ exists sc, sc ∈ l /\ key_of sc = k.
Proof.
  revert w. induction l as [|x l IH]; intros w Hk; [by left|]. simpl in *.
  destruct (IH _ Hk) as [H|(sc & ? & ?)]; [|by right; exists sc; split; [right|]].
  assert (k ∈ seen w \/ k = key_of x) as [?| ->].
  { unfold collect in H. fold (key_of x) in H. repeat case_match; simpl in H; try (by left);
      apply elem_of_cons in H as [->|H]; auto. }
  - by left.
  - right. exists x. by split; [left|].
Qed.

Lemma chainWalk_seen c i j steps req snap w r k :
  k ∈ seen (chainWalk c i j steps req snap w r).1 -> k ∈ seen w \/ k ∈ map Key (concat steps).
Proof.
  revert i j w r. induction steps as [|ps steps IH]; intros i j w r Hk; [by left|]. simpl in *.
  pose proof (scoreChainStep_profiles (c i) j ps req snap r) as Hp.
  destruct (scoreChainStep _ _ _ _ _ _) as [scs r1]. destruct Hp as [Hsub _].
  rewrite map_app, elem_of_app. destruct (IH _ _ _ _ Hk) as [H|H]; [|by right; right].
  apply collects_seen in H as [H|(sc & Hsc & <-)]; [by left|]. right. left.
  unfold key_of. apply list_elem_of_fmap_2. auto.
Qed.

Lemma sliceFallbacks_exact m (rest : list scoredCandidate) l n :
  0 <= m <= MaxInt -> n = 1 + len rest ->
  sliceFallbacks (if n <? wrap_int (1 + m) then len rest else m) rest = Some l ->
  l = take (Z.to_nat m) rest.
Proof.
  intros Hm -> Hs. pose proof (len_nonneg rest). unfold sliceFallbacks in Hs.
  pose proof (wrap_int_range (1 + m)) as Hw. pose proof (wrap_int_le (1 + m) ltac:(lia)).
  destruct (Z.ltb_spec (1 + len rest) (wrap_int (1 + m))) as [Hlt|Hge].
  - unfold in_int in Hw. rewrite wrap_int_id in Hs by (unfold in_int, MinInt in *; lia).
    rewrite (take_ge rest (Z.to_nat m)) by (unfold len in *; lia).
    destruct (Z.ltb_spec 0 (len rest)).
    + destruct (Z.ltb_spec (1 + len rest) 1); [lia|]. simplify_eq. apply take_ge. unfold len in *. lia.
    + simplify_eq. destruct rest; [done|]. rewrite len_cons in *. len_lia.
  - destruct (Z.ltb_spec 0 m); [|by replace m with 0 in * by lia; simplify_eq].
    assert (m = MaxInt \/ m < MaxInt) as [->|] by lia.
    { by vm_compute in Hs. }
    rewrite wrap_int_id in Hs by (unfold in_int, MinInt in *; lia).
    destruct (Z.ltb_spec (1 + m) 1); [lia|]. simplify_eq. f_equal. lia.
Qed.

Lemma finishChain_plan req w tl errs r plan :
  in_int (maxFallbacks r) -> finishChain req w tl errs r = mkRouted (Some plan) None ->
  exists win rest, working w ++ tl = win :: rest /\ Profile plan = profile win /\
    wasSticky plan = false /\
    map Profile (Fallbacks plan) = filter (fun p => resolveProvider (Key p) = None) (take (Z.to_nat (maxFallbacks r)) (map profile rest)).
Proof.
  intros Hint. unfold finishChain. destruct (working w ++ tl) as [|win rest].
  { by repeat case_match. }
  destruct (sliceFallbacks _ rest) as [fbs|] eqn:Hsl; [|done].
  apply sliceFallbacks_exact in Hsl;
    [|unfold in_int in Hint; destruct (Z.ltb_spec (maxFallbacks r) 0); unfold MaxInt in *; lia|
      rewrite len_cons; lia].
  destruct (buildPlan r win fbs req false) as [pl|] eqn:Hb; [|done]. intros [= <-].
  exists win, rest. unfold buildPlan in Hb. destruct (resolveProvider (Key (profile win))); [done|].
  simplify_eq/=. split_and!; [done..|].
  assert (Z.to_nat (if maxFallbacks r <? 0 then 0 else maxFallbacks r) = Z.to_nat (maxFallbacks r)) as ->
    by (destruct (Z.ltb_spec (maxFallbacks r) 0); lia).
  rewrite firstn_map. induction (take _ rest) as [|x l IH]; [done|]. simpl.
  destruct (resolveProvider (Key (profile x))) eqn:Hx; simpl.
  - by rewrite filter_cons_False by (by rewrite Hx).
  - rewrite filter_cons_True by done. f_equal. exact IH.
Qed.

Lemma elem_of_concat {A} (x : A) (ls : list (list A)) : x ∈ concat ls <-> exists l, l ∈ ls /\ x ∈ l.
Proof.
  rewrite list_elem_of_In, in_concat. by setoid_rewrite <-list_elem_of_In.
Qed.

(** A pick with the key of a profile of the chain is that profile, when keys
    tell profiles apart. *)
Lemma picked_profile (picks : list (list scoredCandidate)) (steps : list (list ModelProfile)) p n :
  Forall2 (fun l ps => forall sc, sc ∈ l -> profile sc ∈ ps) picks steps ->
  (forall p p', p ∈ concat steps -> p' ∈ concat steps -> Key p = Key p' -> p = p') ->
  p ∈ concat steps -> Key p ∈ map key_of (concat (take n picks)) ->
  p ∈ concat (take n (map (map profile) picks)).
Proof.
  intros Hf Huniq Hp (sc & Heq & Hsc)%list_elem_of_fmap.
  assert (p = profile sc) as ->.
  { apply Huniq; [done| |done]. apply elem_of_concat in Hsc as (l & Hl1 & Hl2).
    apply elem_of_take in Hl1 as (i & Hi & _).
    destruct (Forall2_lookup_l _ _ _ _ _ Hf Hi) as (qs & Hqs & Hin).
    apply elem_of_concat. eauto using list_elem_of_lookup_2. }
  rewrite firstn_map, <-concat_map. by apply list_elem_of_fmap_2.
Qed.

(** The profiles of the selectors of a chain, a list per selector that was found. *)
Definition chain_steps (e : nat -> string -> chainEntry) (t : nat -> Z)
    (tools : list ModelProfile -> list (ModelProfile * option goerr)) (req : RoutingRequest)
    (r : Router) : list (list ModelProfile) :=
  let es := (resolveChain e t 0 (PreferredChain req) r).1 in
  (replay es (tools (flat_profiles es)) 0).1.
(** The picks of the recommendation, after those of the walk. *)
Lemma scoreRecommendTail_picks K j ps req w snap r0 r :
  r = with_breakers r0 (breakers r) -> probes r0 r -> collected K (seen w) (working w) ->
  let tl := (scoreRecommendTail false j ps req (seen w) snap r).1 in
  NoDup (map key_of (working w ++ tl)) /\ (forall sc, sc ∈ tl -> profile sc ∈ ps) /\
  (forall p, p ∈ ps -> viable r0 req p -> Key p ∈ seen w \/ Key p ∈ map key_of tl).
Proof.
  intros Hr Hpr [Hn Hse _]. unfold scoreRecommendTail.
  pose proof (scoreChainStep_spec false j ps req snap r) as Hs.
  pose proof (scoreChainStep_profiles false j ps req snap r) as Hp.
  destruct (scoreChainStep _ _ _ _ _ _) as [scs r1]. destruct Hs as (_ & _ & Hv), Hp as [Hsub Hall]. simpl.
  destruct (tailSteps_collects (working w) scs (seen w, [])) as [H1 H2];
    [simpl; by rewrite app_nil_r..|].
  split_and!; [done| |].
  - intros sc Hsc. destruct (H2 sc Hsc) as [?%elem_of_nil|?]; [done|auto].
  - intros p Hin Hvi. destruct (Hall eq_refl p Hin) as (sc & Hsc & <-); [rewrite Hr; apply Hvi|].
    apply (tailSteps_seen scs (seen w, [])), tailSteps_complete; [done|].
    rewrite Forall_forall in Hv. by eapply viable_decided; [exact Hr|exact Hpr|apply Hv|].
Qed.

Lemma markSeen_keys r req steps l k :
  k ∈ fold_left (markChainSeenForTail r req) steps l -> k ∈ l \/ k ∈ map Key (concat steps).
Proof.
  assert (forall ps l, k ∈ markChainSeenForTail r req l ps -> k ∈ l \/ k ∈ map Key ps) as Hone.
  { clear. unfold markChainSeenForTail. induction ps as [|p ps IH]; intros l Hk; [by left|]. simpl in *.
    apply IH in Hk as [Hk|Hk]; [|by right; right]. repeat case_match; try (by left).
    apply elem_of_cons in Hk as [->|Hk]; [right; by left|by left]. }
  revert l. induction steps as [|ps steps IH]; intros l Hk; [by left|]. simpl in *.
  rewrite map_app, elem_of_app. apply IH in Hk as [Hk|Hk]; [|by right; right].
  apply Hone in Hk as [Hk|Hk]; [by left|by right; left].
Qed.

(** The profiles of the recommendation the tail is offered. *)
Definition offered (rcm : result goerr (list ModelProfile * list goerr)) (req : RoutingRequest)
    (sft : list ModelKey) : list ModelProfile :=
  if StrictChain req then []
  else match rcm with Err _ => [] | Ok (all, _) => filter (fun p => Key p ∉ sft) all end.

(** The tail's picks: of the recommendation only, and no viable one is missing. *)
Definition tail_picks (rcm : result goerr (list ModelProfile * list goerr)) (req : RoutingRequest)
    (r1 : Router) (steps : list (list ModelProfile)) (tl : list ModelProfile) : Prop :=
  (forall p, p ∈ tl -> StrictChain req = false /\ exists all diags, rcm = Ok (all, diags) /\ p ∈ all) /\
  (forall all diags p, StrictChain req = false -> rcm = Ok (all, diags) -> p ∈ all -> viable r1 req p ->
     Key p ∉ map Key (concat steps) -> Key p ∈ map Key tl).

Lemma routeChain_tail rcm req r0 (r : Router) steps snap K w j ps :
  ps = offered rcm req (fold_left (markChainSeenForTail r0 req) steps []) ->
  r = with_breakers r0 (breakers r) -> probes r0 r -> collected K (seen w) (working w) ->
  (forall k, k ∈ seen w -> k ∈ map Key (concat steps)) ->
  let tl := (if negb (StrictChain req) && (0 <? len ps)
             then scoreRecommendTail false j ps req (seen w) snap r else ([], r)).1 in
  NoDup (map key_of (working w ++ tl)) /\ tail_picks rcm req r0 steps (map profile tl).
Proof.
  intros -> Hr Hpr Hc Hseen. set (ps := offered _ _ _).
  destruct (scoreRecommendTail_picks K j ps req w snap r0 r Hr Hpr Hc) as (H1 & H2 & H3).
  unfold tail_picks.
  destruct (negb (StrictChain req) && (0 <? len ps)) eqn:Hg; [|split_and!].
  - apply andb_true_iff in Hg as [Hs%negb_true_iff _]. split_and!; [done| |].
    + intros p (sc & -> & Hsc)%list_elem_of_fmap. split; [done|]. apply H2 in Hsc.
      unfold ps, offered in Hsc. rewrite Hs in Hsc. destruct rcm as [[all diags]|]; [|by apply elem_of_nil in Hsc].
      apply list_elem_of_filter in Hsc as [_ Hsc]. eauto.
    + intros all diags p _ -> Hin Hvi Hk. rewrite map_map.
      destruct (H3 p) as [Hp|Hp]; [|done|by destruct (Hk (Hseen _ Hp))|done].
      unfold ps, offered. rewrite Hs. apply list_elem_of_filter. split; [|done].
      intros Hm. apply markSeen_keys in Hm as [?%elem_of_nil|?]; done.
  - rewrite app_nil_r. apply Hc.
  - by intros p ?%elem_of_nil.
  - intros all diags p Hs -> Hin Hvi Hk. rewrite Hs in Hg. simpl in Hg. exfalso.
    assert (p ∈ ps) as Hps.
    { unfold ps, offered. rewrite Hs. apply list_elem_of_filter. split; [|done].
      intros Hm. apply markSeen_keys in Hm as [?%elem_of_nil|?]; done. }
    destruct ps; [by apply elem_of_nil in Hps|]. rewrite len_cons in Hg. apply Z.ltb_ge in Hg. len_lia.
Qed.

(** C5: a preferred chain is followed in order and nothing viable is passed
    over.  When the profiles of a chain are told apart by their keys, a successful
    plan of a live context comes from a list of picks: those of the first
    selector, then those of the second, and so on, and only then those of the
    recommendation, which a strict chain never consults; no model is picked
    twice; every profile of a selector that passes the gates of a closed breaker
    is among the picks of that selector or an earlier one, and so is the key of
    every such profile of the recommendation that the chain does not name.  The
    winner is the first pick, and the fallbacks are exactly the next
    [maxFallbacks] picks, in order, without those whose provider does not
    resolve; the route is never sticky. *)
Theorem chain_order e t tools rcm ctxErr c req r plan r' :
  (forall i, c i = false) -> in_int (maxFallbacks r) ->
  let steps := chain_steps e t tools req r in
  let r1 := (resolveChain e t 0 (PreferredChain req) r).2 in
  (forall p p', p ∈ concat steps -> p' ∈ concat steps -> Key p = Key p' -> p = p') ->
  routeChain e t tools rcm ctxErr c req r = (mkRouted (Some plan) None, r') ->
  exists (picks : list (list ModelProfile)) (tl rest : list ModelProfile),
    Forall2 (fun l ps => forall p, p ∈ l -> p ∈ ps) picks steps /\
    (forall p, p ∈ tl -> StrictChain req = false /\ exists all diags, rcm = Ok (all, diags) /\ p ∈ all) /\
    NoDup (map Key (concat picks ++ tl)) /\
    (forall n ps p, steps !! n = Some ps -> p ∈ ps -> viable r1 req p -> p ∈ concat (take (S n) picks)) /\
    (forall all diags p, StrictChain req = false -> rcm = Ok (all, diags) -> p ∈ all -> viable r1 req p ->
       Key p ∉ map Key (concat steps) -> Key p ∈ map Key tl) /\
    concat picks ++ tl = Profile plan :: rest /\
    map Profile (Fallbacks plan) = filter (fun p => resolveProvider (Key p) = None) (take (Z.to_nat (maxFallbacks r)) rest) /\
    wasSticky plan = false.
Proof.
  intros Hctx Hint steps r1 Huniq Hroute. unfold routeChain in Hroute. destruct (closed r); [done|].
  unfold steps, r1, chain_steps in *. clear steps r1.
  pose proof (resolveChain_config e t 0 (PreferredChain req) r) as Hcfg.
  destruct (resolveChain e t 0 (PreferredChain req) r) as [es r1]. simpl in *.
  destruct (replay es _ 0) as [steps errs]. simpl in *.
  set (rt := if StrictChain req then _ else _) in Hroute.
  assert (rt.1.1 = offered rcm req (fold_left (markChainSeenForTail r1 req) steps [])) as Hps
    by (unfold rt, offered; destruct (StrictChain req); [done|]; by destruct rcm as [[]|]).
  destruct rt as [[ps errs'] snap]. simpl in Hps.
  destruct ctxErr; [done|]. destruct (capabilityResolutionTerminalError errs'); [done|].
  pose (K := fun k => exists p, p ∈ concat steps /\ viable r1 req p /\ Key p = k).
  assert (forall p, p ∈ concat steps -> K (Key p) -> viable r1 req p) as HK
    by (intros p Hp (p' & Hp' & Hv & Heq); by rewrite (Huniq p p' Hp Hp' (eq_sym Heq))).
  pose proof (chainWalk_collects c 0 0 steps req snap K r1 (mkWalk [] [] [] 0 0 false) r1 Hctx HK
    (with_breakers_id r1) (probes_refl r1)
    ltac:(split; simpl; [constructor|by intros ? ?%elem_of_nil..])) as Hw.
  pose proof (chainWalk_spec c 0 0 steps req snap r1 (mkWalk [] [] [] 0 0 false) r1
    (with_breakers_id r1) (probes_refl r1) ltac:(split; constructor)) as Hw2.
  pose proof (fun k => chainWalk_seen c 0 0 steps req snap (mkWalk [] [] [] 0 0 false) r1 k) as Hws.
  destruct (chainWalk _ _ _ _ _ _ _ _) as [w r2]. destruct Hw as (Hc & picks & Hwk & Hf & Hcomp).
  destruct Hw2 as (Hr2 & Hpr2 & _). simpl in Hwk, Hcomp, Hws. rewrite Hctx in Hroute.
  destruct (routeChain_tail rcm req r1 r2 steps snap K w (length (concat steps)) ps Hps Hr2 Hpr2 Hc)
    as [Hnd [Ht1 Ht2]]; [intros k Hk; by destruct (Hws k Hk) as [?%elem_of_nil|?]|].
  destruct (if negb (StrictChain req) && _ then _ else _) as [tl r3] eqn:Etl. simpl in Hnd, Ht1, Ht2.
  injection Hroute as Hroute <-.
  assert (maxFallbacks r3 = maxFallbacks r) as Hmf.
  { assert (maxFallbacks r3 = maxFallbacks r2) as ->; [|by rewrite Hr2, Hcfg].
    pose proof (scoreRecommendTail_spec false (length (concat steps)) ps req (seen w) snap r2 r2
      (with_breakers_id r2) (probes_refl r2)) as Hs. destruct (_ && _); [|by simplify_eq].
    rewrite Etl in Hs. destruct Hs as [-> _]. done. }
  apply finishChain_plan in Hroute as (win & rest & Hl & Hprof & Hst & Hfb); [|by rewrite Hmf].
  rewrite Hmf in Hfb.
  assert (concat (map (map profile) picks) ++ map profile tl = map profile (win :: rest)) as Hmap
    by (rewrite <-Hl, Hwk, map_app, concat_map; done).
  exists (map (map profile) picks), (map profile tl), (map profile rest). split_and!; try done.
  - apply Forall2_fmap_l. eapply Forall2_impl; [exact Hf|]. simpl. intros l qs Hl' p Hp.
    apply list_elem_of_fmap in Hp as (sc & -> & Hsc). auto.
  - rewrite Hmap, <-Hl, map_map. exact Hnd.
  - intros n qs p Hn Hp Hv.
    assert (p ∈ concat steps) as Hpc by (apply elem_of_concat; eauto using list_elem_of_lookup_2).
    apply (picked_profile picks steps); [done..|]. by apply (Hcomp n qs p Hn Hp Hv), ex_intro with p.
  - rewrite Hmap. simpl. by rewrite Hprof.
Qed.

(** ** When nothing can run *)

Lemma filter_some {A} (f : A -> bool) (l : list A) :
  (0 <? len (filter (fun x => f x = true) l)) = existsb f l.
Proof.
  induction l as [|x l IH]; [done|]. simpl existsb. destruct (f x) eqn:Hx; simpl.
  - rewrite filter_cons_True by done. apply Z.ltb_lt. rewrite len_cons.
    pose proof (len_nonneg (filter (fun x => f x = true) l)). lia.
  - by rewrite filter_cons_False by (by rewrite Hx).
Qed.

(** The error of a route whose scored candidates are [l]: the mildest obstacle. *)
Definition obstacle (l : list scoredCandidate) (diags : list goerr) : option goerr :=
  if existsb (decided BudgetOK) l then None
  else if existsb (decided BudgetTruncate) l then Some ErrBudgetAdaptationRequired
  else if existsb (decided BudgetReject) l then Some ErrBudgetExceeded
  else if existsb (fun sc => gated_in sc && breakered sc) l then Some ErrAllBreakersOpen
  else Some (joinNoViableCandidate diags).

(** when every provider resolves, what a route without a chain answers is
    decided by the best class its candidates reach: a plan if one can run; the
    plan of one that would need a shorter prompt, beside the error that says so;
    [ErrBudgetExceeded] if one was rejected for its prompt; [ErrAllBreakersOpen]
    if breakers alone stopped those with the capabilities; and that no candidate
    is viable, with the probe diagnostics, when none has them. *)
Theorem route_verdict h cands diags tGet tTouch tPut order req r :
  (forall k, resolveProvider k = None) -> cands <> [] ->
  capabilityResolutionTerminalError diags = None ->
  let scored := (scoreAll 0 cands req (buildFeedbackSnapshot r cands (UseCase req)) r).1 in
  rt_err (routeGlobal h (Ok cands) diags None tGet tTouch tPut order req r).1 = obstacle scored diags.
Proof.
  intros Hres Hne Hd. unfold routeGlobal. rewrite Hd. destruct cands as [|c cs]; [done|].
  destruct (scoreAll _ _ _ _ _) as [scored r1]. cbn [fst]. unfold obstacle.
  pose proof (filter_some (decided BudgetOK) scored) as Hok. fold (executables scored) in Hok.
  assert (forall r w l st, exists p, buildPlan r w l req st = Ok p) as Hbuild
    by (intros; unfold buildPlan; rewrite Hres; eauto).
  pose proof (sort_Permutation warmth (executables scored)) as Hperm.
  destruct (executables scored) as [|e es].
  - rewrite <-Hok. cbn [len fst]. unfold nothingExecutable.
    pose proof (filter_some (decided BudgetTruncate) scored) as Ht. fold (truncatables scored) in Ht.
    pose proof (sort_Permutation warmth (truncatables scored)) as Htp.
    destruct (sortScoredCandidates warmth (truncatables scored)) as [|w l].
    + apply Permutation_nil in Htp. rewrite Htp in Ht. rewrite <-Ht. simpl.
      unfold breakerCount, budgetCount.
      rewrite <-(filter_some (decided BudgetReject)), <-(filter_some (fun sc => gated_in sc && breakered sc)).
      pose proof (len_nonneg (filter (fun sc => decided BudgetReject sc = true) scored)).
      destruct (Z.ltb_spec 0 (len (filter (fun sc => decided BudgetReject sc = true) scored))) as [Hl|Hl].
      * rewrite (proj2 (Z.eqb_neq _ _)) by lia. by rewrite andb_false_r.
      * rewrite (proj2 (Z.eqb_eq _ _)) by lia. rewrite andb_true_r.
        match goal with |- rt_err (if ?a then _ else _) = (if ?b then _ else _) =>
          change b with a; by destruct a end.
    + assert (existsb (decided BudgetTruncate) scored = true) as ->.
      { rewrite <-Ht. apply Z.ltb_lt. unfold len. rewrite <-(Permutation_length Htp). simpl. lia. }
      destruct (Hbuild r1 w [] false) as [p ->]. done.
  - rewrite <-Hok. assert ((0 <? len (e :: es)) = true) as -> by (apply Z.ltb_lt; rewrite len_cons; len_lia).
    pose proof (stickyStep_spec req (StickyKey h req) tGet tTouch
      (sortScoredCandidates warmth (e :: es)) r1) as Hst.
    destruct (stickyStep _ _ _ _ _ _) as [[l st] r2]. destruct Hst as [Hl _].
    rewrite Hperm in Hl. destruct l as [|w l]; [by apply Permutation_nil_cons in Hl|].
    unfold finishRoute. set (fbs := if 0 <? _ then _ else _).
    destruct (Hbuild r2 w fbs st) as [p ->]. done.
Qed.
End Route.

(** ** A probe that is never returned *)

(** One call of [Route], with what the world answers it. *)
Record call := mkCall { c_now : nat -> Z; c_world : world; c_req : RoutingRequest }.

Section Calls.
Context (warmth : option (ModelKey -> bool)) (fbScore : FeedbackKey -> result goerr Aggregate).
Context (resolveProvider : ModelKey -> option goerr).

Fixpoint routes (calls : list call) (r : Router) : list routed * Router :=
  match calls with
  | [] => ([], r)
  | c :: calls =>
      let '(out, r) := Route warmth fbScore resolveProvider (c_now c) (c_world c) (c_req c) r in
      let '(outs, r) := routes calls r in
      (out :: outs, r)
  end.

(** No selector of the request's chain that names [q] fails to resolve with an
    infrastructure error, which [recordChainLookupFailure] would record as a
    failure of [q]. *)
Definition lookups_quiet (q : string) (c : call) : Prop :=
  forall i s e k, PreferredChain (c_req c) !! i = Some s -> w_entry (c_world c) i s = Err e ->
    IsInfrastructureError (Some e) = true -> parseModelSelector s = Some k -> Provider k <> q.

Definition avoids (q : string) (out : routed) : Prop :=
  match rt_plan out with
  | None => True
  | Some plan => Forall (fun p => Provider (Key (Profile p)) <> q) (plans_of plan)
  end.

Lemma lookup_failure_other q t s err r :
  (IsInfrastructureError (Some err) = true -> forall k, parseModelSelector s = Some k -> Provider k <> q) ->
  state_of (recordChainLookupFailure t s err r) q = state_of r q.
Proof.
  intros Hq. unfold recordChainLookupFailure. destruct (IsInfrastructureError (Some err)); [|done]. cbn [negb].
  destruct (parseModelSelector s) as [k|]; [|done]. specialize (Hq eq_refl k eq_refl).
  destruct (string_eqb _ _); [done|]. pose proof (state_of_getOrCreate q (Provider k) r) as [H _].
  destruct (getOrCreateBreaker (Provider k) r) as [cb r1]. by rewrite state_of_set, decide_False.
Qed.

Lemma resolveChain_quiet q e t i l r :
  (forall j s err k, l !! j = Some s -> e (i + j)%nat s = Err err -> IsInfrastructureError (Some err) = true ->
     parseModelSelector s = Some k -> Provider k <> q) ->
  state_of (resolveChain e t i l r).2 q = state_of r q.
Proof.
  revert i r. induction l as [|x l IH]; intros i r Hq; simpl; [done|].
  set (r1 := match e i x with Ok _ => r | Err _ => _ end).
  assert (state_of r1 q = state_of r q) as <-.
  { unfold r1. destruct (e i x) as [|err] eqn:He; [done|]. apply lookup_failure_other. intros Hi k.
    apply (Hq 0%nat x err); [done| |done]. by rewrite Nat.add_0_r. }
  specialize (IH (S i) r1). destruct (resolveChain _ _ _ _ r1). apply IH. intros j s err k Hj He.
  apply (Hq (S j) s err k Hj). by replace (i + S j)%nat with (S i + j)%nat by lia.
Qed.

Lemma after_lookups_quiet q c r :
  lookups_quiet q c -> state_of (after_lookups (c_world c) (c_req c) r) q = state_of r q.
Proof.
  intros Hq. unfold after_lookups. destruct (0 <? _); [|done]. apply resolveChain_quiet.
  intros j s err k Hj He. by apply (Hq j s err k).
Qed.

(** C18: once the breaker of a provider is half-open, no sequence of routed
    requests takes it out of that state, and none of their plans, winner or
    fallback, uses the provider, as long as no selector of a preferred chain
    that names the provider fails to resolve with an infrastructure error, which
    counts as a failure of the provider.  Without such a lookup only a result
    recorded for the provider ends the state, so a probe granted to a candidate
    that is then not contacted shuts the provider out. *)
Theorem halfopen_shuts_out q calls r :
  state_of r q = BreakerHalfOpen -> Forall (lookups_quiet q) calls ->
  let '(outs, r') := routes calls r in
  state_of r' q = BreakerHalfOpen /\ Forall (avoids q) outs.
Proof.
  intros Hq Hc. revert r Hq. induction Hc as [|c calls Hc Hcs IH]; intros r Hq; simpl; [by auto|].
  pose proof (Route_spec warmth fbScore resolveProvider (c_now c) (c_world c) (c_req c) r) as Hr.
  destruct (Route _ _ _ _ _ _ _) as [out r1]. pose proof (after_lookups_quiet q c r Hc) as Hl.
  destruct Hr as (Hs & Hpr & _).
  assert (state_of r1 q = BreakerHalfOpen) as Hq1
    by (destruct Hpr as [->|Hpr]; [done|apply (probes_halfopen _ _ _ Hpr); congruence]).
  specialize (IH r1 Hq1). destruct (routes calls r1) as [outs r2]. destruct IH as [? Hav].
  split; [done|]. constructor; [|done]. unfold sound, avoids in *.
  destruct (rt_plan out) as [plan|]; [|done]. destruct Hs as (Ha & _).
  eapply Forall_impl; [exact Ha|]. intros p Hp Heq. destruct Hp. congruence.
Qed.
End Calls.

(** ** The theorems at concrete inputs *)

Definition ok_world (cands : list ModelProfile) : world :=
  mkWorld (fun s => s) (Ok cands) [] None 0 0 0 [] (fun _ _ => Ok cands) (fun _ => 0)
    (fun ps => map (fun p => (p, None)) ps) (Ok ([], [])) (fun _ => false).

Definition chat_req (dry : bool) : RoutingRequest :=
  mkRoutingRequest "" "chat" CapChat [] "hi" "" "" [] [] opts0 100 false PriorityBackground "" "" []
    false "" dry.

(** A router whose breaker for "ollama" tripped at time 30. *)
Definition router0 : Router :=
  mkRouter false
    {[ "ollama" := fold_left (fun cb t => Breaker.RecordFailure t Canceled cb) [10; 20; 30]
                     (NewCircuitBreaker []) ]}
    (newStickyCache 300 1024) 300 (flit 1 10) 2 ∅ ∅ fzero false false false FeedbackScoringOff ∅.

Definition route0 (t : Z) (dry : bool) (r : Router) : routed * Router :=
  Route None (fun _ => Err Canceled) (fun _ => None) (fun _ => t) (ok_world [prof0]) (chat_req dry) r.

Lemma route_takes_probes_witness :
  state_of router0 "ollama" = BreakerOpen /\
  state_of (route0 (defaultCooldown + 30) true router0).2 "ollama" = BreakerHalfOpen.
Proof.
  split; [vm_compute; reflexivity|].
  assert (exceedsRAM router0 prof0 = false) as Hram by (vm_compute; reflexivity).
  assert (profileSatisfiesRequiredCaps prof0 (RequiredCaps (chat_req true)) = true) as Hcap
    by (vm_compute; reflexivity).
  assert (probe_due (fun _ => defaultCooldown + 30) router0 (Provider (Key prof0))) as Hdue.
  { exists (mkCircuitBreaker BreakerOpen 3 30 (Some Canceled) 3 defaultCooldown).
    split; [vm_compute; reflexivity|]. split; [reflexivity|]. intros _. vm_compute. reflexivity. }
  apply (route_takes_probes None (fun _ => Err Canceled) (fun _ => None)
    (fun _ => defaultCooldown + 30) (ok_world [prof0]) (chat_req true) router0 [prof0] prof0);
    try reflexivity; try assumption. left.
Defined.

(** A dry run takes the probe; the chat that follows, however much later, finds
    every breaker open. *)
Lemma halfopen_shuts_out_witness :
  let r := (route0 (defaultCooldown + 30) true router0).2 in
  let c := mkCall (fun _ => 1000 * defaultCooldown) (ok_world [prof0]) (chat_req false) in
  state_of r "ollama" = BreakerHalfOpen /\
  map rt_err (routes None (fun _ => Err Canceled) (fun _ => None) [c] r).1 = [Some ErrAllBreakersOpen] /\
  state_of (routes None (fun _ => Err Canceled) (fun _ => None) [c] r).2 "ollama" = BreakerHalfOpen.
Proof.
  intros r c.
  assert (state_of r "ollama" = BreakerHalfOpen) as Hr by (vm_compute; reflexivity).
  split; [exact Hr|]. split; [vm_compute; reflexivity|].
  assert (Forall (lookups_quiet "ollama") [c]) as Hc by (constructor; [intros i sel e k [=]|constructor]).
  pose proof (halfopen_shuts_out None (fun _ => Err Canceled) (fun _ => None) "ollama" [c] r Hr Hc) as H.
  destruct (routes _ _ _ [c] r). exact (proj1 H).
Defined.

(** A second model, better but not by the margin. *)
Definition prof1 : ModelProfile :=
  mkModelProfile (mkModelKey "vllm" "llama") fzero CapChat ThinkAuto None TierGood TierGreat
    8192 0 "".

Definition router1 (mode : FeedbackScoringMode) (s : stickyCache float64 unit) : Router :=
  mkRouter false ∅ s 300 (flit 1 10) 2 ∅ ∅ fzero false false true mode ∅.

Definition hash1 (s : string) : string := String SLASH s.

Definition sess_req (chain : list string) : RoutingRequest :=
  mkRoutingRequest "" "chat" CapChat [] "hi" "" "" [] [] opts0 100 false PriorityBackground "sess" ""
    chain false "" false.

(** The session is on "ollama". *)
Definition sticky1 : stickyCache float64 unit :=
  put 5 [] (mkSticky (StickyKey hash1 (sess_req [])) (Key prof0) fzero tt 5 5 305) (newStickyCache 300 8).

Definition global1 : routed * Router :=
  routeGlobal None (fun _ => Err Canceled) (fun _ => None) (fun _ => 7) hash1 (Ok [prof0; prof1]) []
    None 7 7 7 [] (sess_req []) (router1 FeedbackScoringOff sticky1).

Lemma route_affinity_witness :
  map (fun sc => Key (profile sc))
    (ranked None (fun _ => Err Canceled) (fun _ => 7) [prof0; prof1] (sess_req [])
       (router1 FeedbackScoringOff sticky1)) = [Key prof1; Key prof0] /\
  exists plan, rt_plan global1.1 = Some plan /\ Profile plan = prof0 /\ wasSticky plan = true /\
    exists e, entries (sticky global1.2) !! StickyKey hash1 (sess_req []) = Some e /\
      providerKey e = Key (Profile plan) /\ expiresAt e = 7 + 300.
Proof.
  split; [vm_compute; reflexivity|].
  assert (exists plan, global1 = (mkRouted (Some plan) None, global1.2) /\ Profile plan = prof0 /\
    wasSticky plan = true) as (plan & Heq & Hp & Hs)
    by (eexists; split; [vm_compute; reflexivity|split; vm_compute; reflexivity]).
  exists plan. split; [rewrite Heq; reflexivity|]. split; [exact Hp|]. split; [exact Hs|].
  assert (forall s, hash1 s <> "") as Hh by (intros s [=]).
  pose proof (route_affinity None (fun _ => Err Canceled) (fun _ => None) (fun _ => 7) hash1
    [prof0; prof1] [] 7 7 7 [] (sess_req []) (router1 FeedbackScoringOff sticky1) plan global1.2 Hh Heq)
    as [_ H].
  exact H.
Defined.

Lemma feedback_inert_witness :
  rt_err (Route None (fun _ => Err Canceled) (fun _ => None) (fun _ => 7) (ok_world [prof0; prof1])
    (sess_req []) (router1 FeedbackScoringEnforce sticky1)).1 = None /\
  (Route None (fun _ => Err Canceled) (fun _ => None) (fun _ => 7) (ok_world [prof0; prof1])
    (sess_req []) (router1 FeedbackScoringEnforce sticky1)).1 =
  (Route None (fun _ => Err Canceled) (fun _ => None) (fun _ => 7) (ok_world [prof0; prof1])
    (sess_req []) (router1 FeedbackScoringOff sticky1)).1.
Proof.
  split; [vm_compute; reflexivity|].
  assert (inert (fun _ => Err Canceled) (router1 FeedbackScoringEnforce sticky1)) as Hi
    by (right; intros k; reflexivity).
  pose proof (feedback_inert None (fun _ => Err Canceled) (fun _ => None) (fun _ => 7)
    (ok_world [prof0; prof1]) (sess_req []) (router1 FeedbackScoringEnforce sticky1) Hi) as H.
  change (with_mode FeedbackScoringOff (router1 FeedbackScoringEnforce sticky1))
    with (router1 FeedbackScoringOff sticky1) in H.
  destruct (Route _ _ _ _ _ _ (router1 FeedbackScoringEnforce sticky1)). rewrite H. reflexivity.
Defined.

Definition chain1 : routed * Router :=
  routeChain None (fun _ => Err Canceled) (fun _ => None) (fun _ => 7)
    (fun i _ => Ok [if Nat.eqb i 0 then prof0 else prof1]) (fun _ => 7)
    (fun ps => map (fun p => (p, None)) ps) (Ok ([prof0; prof1], [])) None (fun _ => false)
    (sess_req ["ollama/qwen3"; "vllm/llama"]) (router1 FeedbackScoringOff sticky1).

(** The first of the chain wins, although the second scores above it. *)
Lemma chain_order_witness :
  exists plan, rt_plan chain1.1 = Some plan /\ map Profile (plans_of plan) = [prof0; prof1] /\
    wasSticky plan = false.
Proof.
  assert (exists plan, chain1 = (mkRouted (Some plan) None, chain1.2) /\
    map Profile (plans_of plan) = [prof0; prof1]) as (plan & Heq & Hp)
    by (eexists; split; [vm_compute; reflexivity|vm_compute; reflexivity]).
  exists plan. split; [rewrite Heq; reflexivity|]. split; [exact Hp|].
  refine (match chain_order None (fun _ => Err Canceled) (fun _ => None) (fun _ => 7)
    (fun i _ => Ok [if Nat.eqb i 0 then prof0 else prof1]) (fun _ => 7)
    (fun ps => map (fun p => (p, None)) ps) (Ok ([prof0; prof1], [])) None (fun _ => false)
    (sess_req ["ollama/qwen3"; "vllm/llama"]) (router1 FeedbackScoringOff sticky1) plan chain1.2
    (fun _ => eq_refl) _ _ Heq with
    | ex_intro _ _ (ex_intro _ _ (ex_intro _ _
        (conj _ (conj _ (conj _ (conj _ (conj _ (conj _ (conj _ H))))))))) => H end);
    [vm_compute; split; discriminate|].
  set (l := concat _). assert (l = [prof0; prof1]) as -> by (vm_compute; reflexivity).
  intros p p' Hp1 Hp2. apply list_elem_of_In in Hp1, Hp2. simpl in Hp1, Hp2.
  destruct Hp1 as [<-|[<-|[]]], Hp2 as [<-|[<-|[]]]; try reflexivity; discriminate.
Defined.

Lemma route_verdict_witness :
  rt_err (routeGlobal None (fun _ => Err Canceled) (fun _ => None) (fun _ => 40) hash1 (Ok [prof0]) []
    None 40 40 40 [] (sess_req []) router0).1 = Some ErrAllBreakersOpen.
Proof.
  assert ([prof0] <> []) as Hne by discriminate.
  rewrite (route_verdict None (fun _ => Err Canceled) (fun _ => None) (fun _ => 40) hash1 [prof0] []
    40 40 40 [] (sess_req []) router0 (fun _ => eq_refl) Hne eq_refl).
  vm_compute. reflexivity.
Defined.
