(* ===== verification/Feedback.v ===== *)
(** * Feedback: routing feedback and its in-memory store (provider/routing_feedback.go, provider/routing_feedback_memory.go)

    Signals about how a model did for a use case are kept per key; a bounded
    number is retained, the oldest going first, and [Get] turns them into the
    score that [Router] reads.  [RecordOutcome] turns the attempts of an executed
    plan ([RoutePlan]) into signals.  The store is an interface,
    [RoutingFeedbackStore], that the in-memory store implements; the mutex makes
    each of its methods one step.  A [FeedbackSignal] is a value, so the deep
    copies the store takes of its strength and metadata are the value itself.
    Error values are the sentinels they wrap. *)

From S2P Require Import GoString GoFloat FloatBounds Prelude ModelKey RouteErrors Request RoutePlan RouterScore Router.
#[local] Open Scope string_scope.
#[local] Open Scope Z_scope.
#[local] Open Scope list_scope.

(** ** Signals *)

Definition RoutingSignalSuccess : string := "success".
Definition RoutingSignalFailure : string := "failure".
Definition RoutingSignalLatency : string := "latency".

(** [DefaultStrength]: 0 for a kind that is not in the table. *)
Definition DefaultStrength (kind : string) : float64 :=
  if string_eqb kind RoutingSignalSuccess then flit 1 2
  else if string_eqb kind RoutingSignalFailure then flit (-7) 10
  else fzero.

(** [Strength] is nil or points to a value; times are nanoseconds, 0 the zero
    time. *)
Record FeedbackSignal := mkSignal {
  sig_Kind : string;
  sig_Strength : option float64;
  sig_At : Z;
  sig_LatencyMs : Z;
  sig_ErrorClass : string;
  sig_RouteID : string;
  sig_CompletionID : string;
  sig_Meta : gmap string string;
}.

Record FeedbackItem := mkItem { it_Key : FeedbackKey; it_Signal : FeedbackSignal }.

Inductive feedbackErr :=
| ErrInvalidFeedbackKey
| ErrNilRoutingFeedbackStore
| ErrUnknownSignalKind
| ErrInvalidSignalStrength
| ErrInvalidSignalPayload
| ErrMetaTooLarge
| ErrUnknownAttemptStatus
| ErrConfig              (** an out-of-range [MemoryStoreConfig] *)
| ErrStore (id : nat).   (** any other error of a store *)

#[export] Instance feedbackErr_eq_dec : EqDecision feedbackErr.
Proof. solve_decision. Defined.

(** ** Validation: [None] is a nil error *)

Definition validateKey (k : FeedbackKey) : option feedbackErr :=
  if string_eqb (fk_Provider k) "" || string_eqb (fk_Model k) "" || string_eqb (fk_UseCase k) ""
  then Some ErrInvalidFeedbackKey else None.

Definition validateNeutralScore (score : float64) : option feedbackErr :=
  if is_nan score || is_inf score || flt score fzero || flt fone score then Some ErrConfig else None.

Definition validateSignal (sig : FeedbackSignal) (maxKeys maxValBytes : Z) : option feedbackErr :=
  let kindIs k := string_eqb (sig_Kind sig) k in
  if negb (kindIs RoutingSignalSuccess || kindIs RoutingSignalFailure || kindIs RoutingSignalLatency)
  then Some ErrUnknownSignalKind
  else if match sig_Strength sig with Some v => is_nan v || is_inf v | None => false end
  then Some ErrInvalidSignalStrength
  else if if kindIs RoutingSignalLatency then sig_LatencyMs sig <=? 0
          else negb (sig_LatencyMs sig =? 0)
  then Some ErrInvalidSignalPayload
  else if if kindIs RoutingSignalFailure then string_eqb (sig_ErrorClass sig) ""
          else negb (string_eqb (sig_ErrorClass sig) "")
  then Some ErrInvalidSignalPayload
  else if (0 <? maxKeys) && (maxKeys <? Z.of_nat (size (sig_Meta sig)))
  then Some ErrMetaTooLarge
  else if (0 <? maxValBytes) &&
          existsb (fun kv => maxValBytes <? Z.of_nat (String.length kv.2)) (map_to_list (sig_Meta sig))
  then Some ErrMetaTooLarge
  else None.

(** ** The in-memory store *)

Definition DefaultMaxRetainedSamples : Z := 1000.
Definition DefaultMaxMetaKeys : Z := 32.
Definition DefaultMaxMetaValueBytes : Z := 256.
Definition DefaultNeutralScore : float64 := flit 1 2.

Record MemoryStoreConfig := mkConfig {
  NeutralScore : float64;
  MaxRetainedSamples : Z;
  MaxMetaKeys : Z;
  MaxMetaValueBytes : Z;
}.

Record resolvedConfig := mkResolved {
  neutralScore : float64;
  maxRetainedSamples : Z;
  maxMetaKeys : Z;
  maxMetaValueBytes : Z;
}.

(** An absent key of [signals] is Go's nil slice. *)
Record MemoryStore := mkStore {
  cfg : resolvedConfig;
  signals : gmap FeedbackKey (list FeedbackSignal);
}.

Definition NewMemoryStore (c : MemoryStoreConfig) : result feedbackErr MemoryStore :=
  let resolved := mkResolved
    (if feq (NeutralScore c) fzero then DefaultNeutralScore else NeutralScore c)
    (if MaxRetainedSamples c =? 0 then DefaultMaxRetainedSamples else MaxRetainedSamples c)
    (if MaxMetaKeys c =? 0 then DefaultMaxMetaKeys else MaxMetaKeys c)
    (if MaxMetaValueBytes c =? 0 then DefaultMaxMetaValueBytes else MaxMetaValueBytes c) in
  match validateNeutralScore (neutralScore resolved) with
  | Some err => Err err
  | None =>
      if maxRetainedSamples resolved <? -1 then Err ErrConfig
      else if maxMetaKeys resolved <? 0 then Err ErrConfig
      else if maxMetaValueBytes resolved <? 0 then Err ErrConfig
      else Ok (mkStore resolved ∅)
  end.

(** [s.signals[key]]: the nil slice when absent. *)
Definition Signals (s : MemoryStore) (key : FeedbackKey) : list FeedbackSignal :=
  default [] (signals s !! key).

Definition effectiveStrength (sig : FeedbackSignal) : float64 :=
  match sig_Strength sig with
  | Some v => v
  | None => DefaultStrength (sig_Kind sig)
  end.

Definition clip (x lo hi : float64) : float64 :=
  if flt x lo then lo else if flt hi x then hi else x.

(** The loop variables of [Get]: [sum], [scored] and [latestAt]. *)
Record tally := mkTally { sum : float64; scored : Z; latestAt : Z }.

Definition tallySignal (t : tally) (sig : FeedbackSignal) : tally :=
  let strength := effectiveStrength sig in
  let latest := if latestAt t <? sig_At sig then sig_At sig else latestAt t in
  if feq strength fzero then mkTally (sum t) (scored t) latest
  else mkTally (fadd (sum t) (clip strength (of_int (-1)) fone)) (wrap_int (scored t + 1)) latest.

Definition Get (s : MemoryStore) (key : FeedbackKey) : Aggregate :=
  let sigs := Signals s key in
  if len sigs =? 0 then mkAggregate (neutralScore (cfg s)) 0 0 0
  else
    let t := fold_left tallySignal sigs (mkTally fzero 0 0) in
    if scored t =? 0 then mkAggregate (neutralScore (cfg s)) (len sigs) 0 (latestAt t)
    else
      let mean := fdiv (sum t) (of_int (scored t)) in
      mkAggregate (fadd (flit 1 2) (fmul (flit 1 2) mean)) (len sigs) (scored t) (latestAt t).

(** [At] defaults to the clock reading [now]. *)
Definition stamp (now : Z) (sig : FeedbackSignal) : FeedbackSignal :=
  if IsZero (sig_At sig)
  then mkSignal (sig_Kind sig) (sig_Strength sig) now (sig_LatencyMs sig) (sig_ErrorClass sig)
         (sig_RouteID sig) (sig_CompletionID sig) (sig_Meta sig)
  else sig.

(** The append and the FIFO retention, under the lock. *)
Definition appendRetained (s : MemoryStore) (k : FeedbackKey) (sig : FeedbackSignal) : MemoryStore :=
  let l := Signals s k ++ [sig] in
  let l := if (0 <? maxRetainedSamples (cfg s)) && (maxRetainedSamples (cfg s) <? len l)
           then drop (Z.to_nat (len l - maxRetainedSamples (cfg s))) l else l in
  mkStore (cfg s) (<[k := l]> (signals s)).

(** [MemoryStore.Record]; [now] is what [time.Now] answers. *)
Definition Record_ (s : MemoryStore) (now : Z) (key : FeedbackKey) (sig : FeedbackSignal) :
    MemoryStore * option feedbackErr :=
  match validateKey key with
  | Some err => (s, Some err)
  | None =>
      match validateSignal sig (maxMetaKeys (cfg s)) (maxMetaValueBytes (cfg s)) with
      | Some err => (s, Some err)
      | None => (appendRetained s key (stamp now sig), None)
      end
  end.

(** The first loop of [RecordBatch]. *)
Fixpoint validateItems (c : resolvedConfig) (items : list FeedbackItem) : option feedbackErr :=
  match items with
  | [] => None
  | item :: items =>
      match validateKey (it_Key item) with
      | Some err => Some err
      | None =>
          match validateSignal (it_Signal item) (maxMetaKeys c) (maxMetaValueBytes c) with
          | Some err => Some err
          | None => validateItems c items
          end
      end
  end.

Definition RecordBatch (s : MemoryStore) (now : Z) (items : list FeedbackItem) :
    MemoryStore * option feedbackErr :=
  if len items =? 0 then (s, None)
  else match validateItems (cfg s) items with
       | Some err => (s, Some err)
       | None =>
           (fold_left (fun s item => appendRetained s (it_Key item) (stamp now (it_Signal item))) items s,
            None)
       end.

(** ** The store as an interface *)

Class RoutingFeedbackStore (S : Type) := {
  store_Get : S -> FeedbackKey -> result feedbackErr Aggregate;
  store_Record : S -> Z -> FeedbackKey -> FeedbackSignal -> S * option feedbackErr;
  store_RecordBatch : S -> Z -> list FeedbackItem -> S * option feedbackErr;
}.

(** What the interface documents: a batch that is refused leaves no trace. *)
Class RoutingFeedbackStoreLaws (S : Type) `{RoutingFeedbackStore S} :=
  store_atomic : forall s now items s' err,
    store_RecordBatch s now items = (s', Some err) -> s' = s.

#[export] Instance MemoryStore_store : RoutingFeedbackStore MemoryStore := {
  store_Get s key := Ok (Get s key);
  store_Record := Record_;
  store_RecordBatch := RecordBatch;
}.

#[export] Instance MemoryStore_laws : RoutingFeedbackStoreLaws MemoryStore.
Proof.
  intros s now items s' err. simpl. unfold RecordBatch.
  destruct (len items =? 0); [done|]. by destruct (validateItems (cfg s) items) as [e|]; intros [= <- <-].
Qed.

(** ** The wrapper *)

(** The strings of the error classes. *)
Definition class_string (c : ErrorClass) : string :=
  match c with
  | ErrorClassNone => ""
  | ErrorClassNetwork => "network"
  | ErrorClassTimeout => "timeout"
  | ErrorClass4xx => "4xx"
  | ErrorClass5xx => "5xx"
  | ErrorClassRateLimit => "rate_limit"
  | ErrorClassUnknown => "unknown"
  end.

Section wrapper.
Context {S : Type} `{RoutingFeedbackStore S}.

(** [store] is [None] when it is nil or holds a nil pointer. *)
Record RoutingFeedback := mkFeedbackWrapper { store : option S }.

(** The receiver may be nil. *)
Definition requireStore (rf : option RoutingFeedback) : result feedbackErr S :=
  match rf with
  | Some (mkFeedbackWrapper (Some s)) => Ok s
  | _ => Err ErrNilRoutingFeedbackStore
  end.

(** [RoutingFeedback.Score] (the field [RoutePlan.Score] has the name). *)
Definition feedbackScoreOf (rf : option RoutingFeedback) (key : FeedbackKey) :
    result feedbackErr Aggregate :=
  match requireStore rf with
  | Err err => Err err
  | Ok s => store_Get s key
  end.

Definition RoutingFeedback_Record (rf : option RoutingFeedback) (now : Z) (key : FeedbackKey)
    (sig : FeedbackSignal) : option RoutingFeedback * option feedbackErr :=
  match requireStore rf with
  | Err err => (rf, Some err)
  | Ok s => let '(s', err) := store_Record s now key sig in (Some (mkFeedbackWrapper (Some s')), err)
  end.

(** The loop of [RecordOutcome]: the items of the attempts, or the first error. *)
Fixpoint outcomeItems (now : Z) (routeID useCase : string) (attempts : list RouteAttempt)
    (items : list FeedbackItem) : result feedbackErr (list FeedbackItem) :=
  match attempts with
  | [] => Ok items
  | attempt :: attempts =>
      let key := mkFeedbackKey (Provider (at_Key attempt)) (ModelKey.Model (at_Key attempt)) useCase in
      let with_latency items :=
        if 0 <? at_LatencyMs attempt
        then items ++ [mkItem key (mkSignal RoutingSignalLatency None now (at_LatencyMs attempt) ""
                                     routeID "" ∅)]
        else items in
      if at_LatencyMs attempt <? 0 then Err ErrInvalidSignalPayload
      else
        match at_Status attempt with
        | AttemptStatusUnknown => outcomeItems now routeID useCase attempts items
        | AttemptStatusSucceeded =>
            outcomeItems now routeID useCase attempts
              (with_latency (items ++ [mkItem key (mkSignal RoutingSignalSuccess None now 0 ""
                                                     routeID "" ∅)]))
        | AttemptStatusFailed =>
            let errClass := class_string (at_ErrorClass attempt) in
            let errClass := if string_eqb errClass "" then "unknown" else errClass in
            outcomeItems now routeID useCase attempts
              (with_latency (items ++ [mkItem key (mkSignal RoutingSignalFailure None now 0 errClass
                                                     routeID "" ∅)]))
        | AttemptStatusOther _ => Err ErrUnknownAttemptStatus
        end
  end.

(** [now] and [now'] are the clock readings of [RecordOutcome] and of the
    store; [routeID] is the [RouteID] of the outcome. *)
Definition RecordOutcome (rf : option RoutingFeedback) (now now' : Z) (routeID useCase : string)
    (out : RouteOutcome) : option RoutingFeedback * option feedbackErr :=
  match requireStore rf with
  | Err err => (rf, Some err)
  | Ok s =>
      if len (Attempts out) =? 0 then (rf, None)
      else if string_eqb useCase "" then (rf, Some ErrInvalidFeedbackKey)
      else match outcomeItems now routeID useCase (Attempts out) [] with
           | Err err => (rf, Some err)
           | Ok items =>
               if len items =? 0 then (rf, None)
               else let '(s', err) := store_RecordBatch s now' items in
                    (Some (mkFeedbackWrapper (Some s')), err)
           end
  end.
End wrapper.
Arguments RoutingFeedback : clear implicits.

#[global] Arguments validateSignal : simpl never.
#[global] Arguments validateKey : simpl never.

(** ** The store refines a log

    The specification keeps every accepted signal in one log; what the store
    holds for a key is the newest part of what the log says of it. *)

Definition logged (key : FeedbackKey) (log : list FeedbackItem) : list FeedbackSignal :=
  omap (fun i => if decide (it_Key i = key) then Some (it_Signal i) else None) log.

(** The newest [n] elements. *)
Definition lastn {A} (n : nat) (l : list A) : list A := drop (length l - n) l.

Definition retained {A} (c : resolvedConfig) (l : list A) : list A :=
  if 0 <? maxRetainedSamples c then lastn (Z.to_nat (maxRetainedSamples c)) l else l.

Lemma length_retained {A} (c : resolvedConfig) (l : list A) : (length (retained c l) <= length l)%nat.
Proof. unfold retained, lastn. destruct (0 <? _); rewrite ?length_drop; lia. Qed.

Lemma lastn_snoc {A} n (l : list A) x : lastn n (lastn n l ++ [x]) = lastn n (l ++ [x]).
Proof.
  unfold lastn. rewrite <-drop_app_le by lia. rewrite drop_drop, length_drop, length_app.
  f_equal. simpl length. lia.
Qed.

Lemma length_lastn {A} n (l : list A) : (length (lastn n l) <= n)%nat.
Proof. unfold lastn. rewrite length_drop. lia. Qed.

Lemma retained_snoc {A} c (l : list A) x : retained c (retained c l ++ [x]) = retained c (l ++ [x]).
Proof. unfold retained. destruct (0 <? maxRetainedSamples c); [apply lastn_snoc|done]. Qed.

Lemma Signals_append s k sig key :
  Signals (appendRetained s k sig) key =
    if decide (k = key) then retained (cfg s) (Signals s key ++ [sig]) else Signals s key.
Proof.
  unfold appendRetained, Signals at 1. cbn [signals]. destruct (decide (k = key)) as [->|Hk].
  - rewrite lookup_insert_eq. unfold default, id, retained, lastn.
    destruct (Z.ltb_spec 0 (maxRetainedSamples (cfg s))); [|done]. cbn [andb].
    destruct (Z.ltb_spec (maxRetainedSamples (cfg s)) (len (Signals s key ++ [sig]))); unfold len in *.
    + f_equal. lia.
    + rewrite (proj2 (Nat.sub_0_le _ _)) by lia. by rewrite drop_0.
  - by rewrite lookup_insert_ne.
Qed.

Definition Refines (s : MemoryStore) (log : list FeedbackItem) : Prop :=
  forall key, Signals s key = retained (cfg s) (logged key log).

Lemma logged_app key l k : logged key (l ++ k) = logged key l ++ logged key k.
Proof. apply omap_app. Qed.

Lemma append_refines s log k sig :
  Refines s log -> Refines (appendRetained s k sig) (log ++ [mkItem k sig]).
Proof.
  intros HR key. rewrite Signals_append, logged_app, HR. cbn [appendRetained cfg].
  unfold logged at 4. csimpl. destruct (decide (k = key)); [apply retained_snoc|].
  by rewrite app_nil_r.
Qed.

Definition stampItem (now : Z) (i : FeedbackItem) : FeedbackItem :=
  mkItem (it_Key i) (stamp now (it_Signal i)).

Definition appendAll (now : Z) (items : list FeedbackItem) (s : MemoryStore) : MemoryStore :=
  fold_left (fun s item => appendRetained s (it_Key item) (stamp now (it_Signal item))) items s.

Lemma appendAll_refines now items s log :
  Refines s log -> Refines (appendAll now items s) (log ++ map (stampItem now) items) /\
  cfg (appendAll now items s) = cfg s.
Proof.
  revert s log. induction items as [|i items IH]; intros s log HR; simpl; [by rewrite app_nil_r|].
  destruct (IH _ _ (append_refines s log (it_Key i) (stamp now (it_Signal i)) HR)) as [H1 H2].
  split; [|done]. by rewrite <-app_assoc in H1.
Qed.

Inductive op :=
| OpRecord (now : Z) (key : FeedbackKey) (sig : FeedbackSignal)
| OpRecordBatch (now : Z) (items : list FeedbackItem).

Definition step (s : MemoryStore) (o : op) : MemoryStore * option feedbackErr :=
  match o with
  | OpRecord now key sig => Record_ s now key sig
  | OpRecordBatch now items => RecordBatch s now items
  end.

Fixpoint run (s : MemoryStore) (ops : list op) : MemoryStore * list (option feedbackErr) :=
  match ops with
  | [] => (s, [])
  | o :: ops => let '(s1, e) := step s o in let '(s2, es) := run s1 ops in (s2, e :: es)
  end.

(** The specification: all the items of an operation enter the log or none
    does, and the first invalid one names the error. *)
Definition op_items (o : op) : Z * list FeedbackItem :=
  match o with
  | OpRecord now key sig => (now, [mkItem key sig])
  | OpRecordBatch now items => (now, items)
  end.

Definition spec_step (c : resolvedConfig) (log : list FeedbackItem) (o : op) :
    list FeedbackItem * option feedbackErr :=
  let '(now, items) := op_items o in
  match validateItems c items with
  | Some err => (log, Some err)
  | None => (log ++ map (stampItem now) items, None)
  end.

Fixpoint spec_run (c : resolvedConfig) (log : list FeedbackItem) (ops : list op) :
    list FeedbackItem * list (option feedbackErr) :=
  match ops with
  | [] => (log, [])
  | o :: ops => let '(l1, e) := spec_step c log o in let '(l2, es) := spec_run c l1 ops in (l2, e :: es)
  end.

Lemma step_refines s log o :
  Refines s log ->
  Refines (step s o).1 (spec_step (cfg s) log o).1 /\ (step s o).2 = (spec_step (cfg s) log o).2 /\
  cfg (step s o).1 = cfg s.
Proof.
  intros HR. destruct o as [now key sig|now items]; simpl; unfold spec_step; simpl.
  - unfold Record_. destruct (validateKey key); [done|].
    destruct (validateSignal sig _ _); [done|]. split_and!; try done. by apply append_refines.
  - unfold RecordBatch. destruct items as [|i items]; [by rewrite app_nil_r|].
    replace (len (i :: items) =? 0) with false by (symmetry; apply Z.eqb_neq; len_lia).
    destruct (validateItems (cfg s) (i :: items)); [done|].
    destruct (appendAll_refines now (i :: items) s log HR). done.
Qed.

Lemma store_run_refines s log ops :
  Refines s log ->
  Refines (run s ops).1 (spec_run (cfg s) log ops).1 /\ (run s ops).2 = (spec_run (cfg s) log ops).2 /\
  cfg (run s ops).1 = cfg s.
Proof.
  revert s log. induction ops as [|o ops IH]; intros s log HR; simpl; [done|].
  destruct (step_refines s log o HR) as (H1 & H2 & H3).
  destruct (step s o) as [s1 e1], (spec_step (cfg s) log o) as [l1 e1']. simpl in *. subst e1'.
  destruct (IH s1 l1 H1) as (J1 & J2 & J3). rewrite H3 in *.
  destruct (run s1 ops) as [s2 es], (spec_run (cfg s) l1 ops) as [l2 es']. simpl in *.
  split_and!; [done|congruence|congruence].
Qed.

Lemma new_store c s :
  NewMemoryStore c = Ok s -> signals s = ∅ /\ validateNeutralScore (neutralScore (cfg s)) = None.
Proof.
  unfold NewMemoryStore. set (r := mkResolved _ _ _ _). destruct (validateNeutralScore _) eqn:E; [done|].
  destruct (_ <? -1); [done|]. destruct (maxMetaKeys r <? 0); [done|].
  destruct (maxMetaValueBytes r <? 0); [done|]. by intros [= <-].
Qed.

Lemma new_refines c s : NewMemoryStore c = Ok s -> Refines s [].
Proof.
  intros [Hs _]%new_store key. unfold Signals. rewrite Hs, lookup_empty.
  unfold retained, lastn. by destruct (0 <? _).
Qed.

(** C21: A [MemoryStore] refines an append-only log.  Run any operations from a
    new store: the errors returned are those of the specification, in which the
    items of an operation are all accepted or all refused, and for every key
    the signals held are the newest of the accepted ones, at most
    [MaxRetainedSamples] of them unless retention is unbounded, each with its
    own timestamp or the clock reading of its operation. *)
Theorem store_refines_log c s0 ops :
  NewMemoryStore c = Ok s0 ->
  let s := (run s0 ops).1 in
  let log := (spec_run (cfg s0) [] ops).1 in
  (run s0 ops).2 = (spec_run (cfg s0) [] ops).2 /\
  (forall key, Signals s key = retained (cfg s0) (logged key log)) /\
  (forall key, 0 < maxRetainedSamples (cfg s0) -> len (Signals s key) <= maxRetainedSamples (cfg s0)).
Proof.
  intros Hnew s log. destruct (store_run_refines s0 [] ops (new_refines c s0 Hnew)) as (HR & He & Hc).
  assert (forall key, Signals s key = retained (cfg s0) (logged key log)) as Hs
    by (intros key; rewrite <-Hc; apply HR).
  split_and!; [done|done|]. intros key Hpos. rewrite Hs. unfold retained, len.
  rewrite (proj2 (Z.ltb_lt 0 _) Hpos). pose proof (length_lastn (Z.to_nat (maxRetainedSamples (cfg s0)))
    (logged key log)). lia.
Qed.

(** ** What the attempts of a plan become *)

Definition attemptKey (useCase : string) (a : RouteAttempt) : FeedbackKey :=
  mkFeedbackKey (Provider (at_Key a)) (ModelKey.Model (at_Key a)) useCase.

(** Why an attempt spoils its outcome, if it does. *)
Definition bad (a : RouteAttempt) : option feedbackErr :=
  if at_LatencyMs a <? 0 then Some ErrInvalidSignalPayload
  else match at_Status a with AttemptStatusOther _ => Some ErrUnknownAttemptStatus | _ => None end.

(** The signals of one attempt: the verdict, then the latency if there is one. *)
Definition emitted (now : Z) (routeID useCase : string) (a : RouteAttempt) : list FeedbackItem :=
  let item kind ms cls := mkItem (attemptKey useCase a) (mkSignal kind None now ms cls routeID "" ∅) in
  let lat := if 0 <? at_LatencyMs a then [item RoutingSignalLatency (at_LatencyMs a) ""] else [] in
  match at_Status a with
  | AttemptStatusSucceeded => item RoutingSignalSuccess 0 "" :: lat
  | AttemptStatusFailed =>
      item RoutingSignalFailure 0
        (if decide (at_ErrorClass a = ErrorClassNone) then "unknown" else class_string (at_ErrorClass a))
      :: lat
  | _ => []
  end.

Lemma outcomeItems_spec now rid uc l items :
  outcomeItems now rid uc l items =
    match head (omap bad l) with
    | Some e => Err e
    | None => Ok (items ++ concat (map (emitted now rid uc) l))
    end.
Proof.
  revert items. induction l as [|a l IH]; intros items; [by rewrite app_nil_r|].
  csimpl. unfold bad at 1, emitted at 1. destruct (at_LatencyMs a <? 0); [done|].
  destruct (at_Status a); try done; rewrite IH; destruct (head (omap bad l)); try done; f_equal.
  all: destruct (0 <? at_LatencyMs a); simpl; rewrite <-?app_assoc; try done.
  all: by destruct (at_ErrorClass a).
Qed.

Lemma bare_signal_valid kind now ms cls rid mk mv :
  kind = RoutingSignalSuccess /\ ms = 0 /\ cls = "" \/
  kind = RoutingSignalFailure /\ ms = 0 /\ cls <> "" \/
  kind = RoutingSignalLatency /\ 0 < ms /\ cls = "" ->
  validateSignal (mkSignal kind None now ms cls rid "" ∅) mk mv = None.
Proof.
  intros Hk. unfold validateSignal. cbn [sig_Kind sig_Strength sig_LatencyMs sig_ErrorClass sig_Meta].
  rewrite map_size_empty, map_to_list_empty.
  assert ((0 <? mk) && (mk <? Z.of_nat 0) = false) as ->.
  { destruct (Z.ltb_spec 0 mk); [|done]. apply Z.ltb_ge. simpl. lia. }
  cbn [existsb]. rewrite andb_false_r.
  destruct Hk as [(-> & -> & ->)|[(-> & -> & Hcls)|(-> & Hms & ->)]]; [done| |].
  - simpl. unfold string_eqb. by rewrite bool_decide_eq_false_2.
  - simpl. by rewrite (proj2 (Z.leb_gt ms 0)).
Qed.

Lemma attemptKey_valid uc a :
  uc <> "" -> Provider (at_Key a) <> "" -> ModelKey.Model (at_Key a) <> "" ->
  validateKey (attemptKey uc a) = None.
Proof.
  intros. unfold validateKey, attemptKey, string_eqb. cbn [fk_Provider fk_Model fk_UseCase].
  by rewrite !bool_decide_eq_false_2.
Qed.

Lemma validateItems_Forall c items :
  Forall (fun i => validateKey (it_Key i) = None /\
    validateSignal (it_Signal i) (maxMetaKeys c) (maxMetaValueBytes c) = None) items ->
  validateItems c items = None.
Proof. induction 1 as [|i l [Hk Hs] _ IH]; simpl; [done|]. by rewrite Hk, Hs. Qed.

Lemma emitted_valid now rid uc a mk mv :
  uc <> "" -> Provider (at_Key a) <> "" -> ModelKey.Model (at_Key a) <> "" ->
  Forall (fun i => validateKey (it_Key i) = None /\ validateSignal (it_Signal i) mk mv = None)
    (emitted now rid uc a).
Proof.
  intros Huc Hp Hm. unfold emitted. pose proof (attemptKey_valid uc a Huc Hp Hm) as Hk.
  destruct (at_Status a); try done; constructor; cbn [it_Key it_Signal].
  - split; [done|]. apply bare_signal_valid. by left.
  - destruct (Z.ltb_spec 0 (at_LatencyMs a)); repeat constructor; [done|].
    apply bare_signal_valid. auto.
  - split; [done|]. apply bare_signal_valid. right; left. split_and!; [done|done|].
    case_decide; [done|by destruct (at_ErrorClass a)].
  - destruct (Z.ltb_spec 0 (at_LatencyMs a)); repeat constructor; [done|].
    apply bare_signal_valid. auto.
Qed.

(** The attempts an executed plan records. *)
Definition recorded (a : RouteAttempt) : Prop :=
  (exists k err d, a = makeAttempt k err d) \/ (exists k d, a = makeUnknownAttempt k d).

Lemma clampMs_nonneg d : 0 <= clampMs d.
Proof. unfold clampMs. destruct (Z.ltb_spec (Z.quot d 1000000) 0); lia. Qed.

Lemma recorded_good a : recorded a -> bad a = None.
Proof.
  assert (forall k d, bad (makeUnknownAttempt k d) = None) as Hunk.
  { intros k d. unfold bad. simpl. pose proof (clampMs_nonneg d).
    by rewrite (proj2 (Z.ltb_ge _ _)). }
  intros [(k & err & d & ->)|(k & d & ->)]; [|done]. unfold makeAttempt.
  destruct (match err with Some _ => _ | None => _ end); [done|].
  assert (forall n, (classifyError err).2 <> AttemptStatusOther n) as Hc.
  { intros n. unfold classifyError. by repeat case_match. }
  destruct (classifyError err) as [cls st]. unfold bad. cbn [at_LatencyMs at_Status].
  pose proof (clampMs_nonneg d). rewrite (proj2 (Z.ltb_ge _ _)) by done.
  destruct st; try done. by destruct (Hc n).
Qed.

Lemma len_zero {A} (l : list A) : len l = 0 -> l = [].
Proof. destruct l; [done|]. rewrite len_cons. pose proof (len_nonneg l). lia. Qed.

Lemma recorded_no_bad l : Forall recorded l -> head (omap bad l) = None.
Proof.
  induction 1 as [|a l Ha _ IH]; [done|]. csimpl. by rewrite (recorded_good a Ha).
Qed.

Lemma emitted_stamped now now' rid uc a :
  now <> 0 -> map (stampItem now') (emitted now rid uc a) = emitted now rid uc a.
Proof.
  intros Hn. assert (IsZero now = false) as Hz by (by apply Z.eqb_neq).
  unfold emitted, stampItem, stamp. destruct (at_Status a); try done; simpl; rewrite Hz;
    destruct (0 <? at_LatencyMs a); simpl; rewrite ?Hz; done.
Qed.

Definition named (a : RouteAttempt) : Prop :=
  Provider (at_Key a) <> "" /\ ModelKey.Model (at_Key a) <> "".

Lemma emitted_all_valid now rid uc l mk mv :
  uc <> "" -> Forall named l ->
  Forall (fun i => validateKey (it_Key i) = None /\ validateSignal (it_Signal i) mk mv = None)
    (concat (map (emitted now rid uc) l)).
Proof.
  intros Huc. induction 1 as [|a l [Hp Hm] _ IH]; simpl; [done|].
  apply Forall_app. split; [by apply emitted_valid|done].
Qed.

Lemma emitted_all_stamped now now' rid uc l :
  now <> 0 -> map (stampItem now') (concat (map (emitted now rid uc) l)) = concat (map (emitted now rid uc) l).
Proof.
  intros Hn. induction l as [|a l IH]; simpl; [done|]. by rewrite map_app, emitted_stamped, IH.
Qed.

(** The outcome of an executed plan is never lost for its shape: if its
    attempts are those the plan records, with non-empty provider and model
    names, and the use case is not empty, [RecordOutcome] on an in-memory store
    in any state it can reach returns no error, and what the store's log gains
    is exactly, in order, one success or failure per attempt with a verdict,
    followed by one latency signal when the attempt took at least a
    millisecond; an attempt whose status is unknown leaves nothing.  A failure
    always carries a class. *)
Theorem outcome_recorded s log now now' routeID useCase out :
  Refines s log -> now <> 0 -> useCase <> "" ->
  Forall recorded (Attempts out) -> Forall named (Attempts out) ->
  let gained := concat (map (emitted now routeID useCase) (Attempts out)) in
  exists s', RecordOutcome (Some (mkFeedbackWrapper (Some s))) now now' routeID useCase out =
      (Some (mkFeedbackWrapper (Some s')), None) /\
    cfg s' = cfg s /\ Refines s' (log ++ gained).
Proof.
  intros HR Hn Huc Hrec Hnamed gained. unfold RecordOutcome. cbn [requireStore].
  destruct (Z.eqb_spec (len (Attempts out)) 0) as [Hl|Hl].
  { exists s. apply len_zero in Hl as Hnil. subst gained. rewrite Hnil.
    split_and!; [done|done|]. by rewrite app_nil_r. }
  unfold string_eqb. rewrite bool_decide_eq_false_2 by done.
  rewrite outcomeItems_spec, recorded_no_bad by done. cbn [app]. fold gained.
  destruct (Z.eqb_spec (len gained) 0) as [Hg|Hg].
  { exists s. apply len_zero in Hg as ->. by rewrite app_nil_r. }
  simpl. unfold RecordBatch. rewrite (proj2 (Z.eqb_neq _ _) Hg).
  rewrite validateItems_Forall by by apply emitted_all_valid.
  exists (appendAll now' gained s). split; [done|].
  destruct (appendAll_refines now' gained s log HR) as [H1 H2].
  unfold gained in H1 at 2. rewrite emitted_all_stamped in H1 by done. done.
Qed.

(** ** The interface: a refused outcome leaves no trace in a lawful store *)

Lemma outcome_atomic {S} `{RoutingFeedbackStoreLaws S} (rf rf' : option (RoutingFeedback S))
    now now' routeID useCase out err :
  RecordOutcome rf now now' routeID useCase out = (rf', Some err) -> rf' = rf.
Proof.
  unfold RecordOutcome. destruct rf as [[[s|]]|]; simpl; try by intros [= <-].
  destruct (len (Attempts out) =? 0); [done|]. destruct (string_eqb useCase ""); [by intros [= <-]|].
  destruct (outcomeItems _ _ _ _ _) as [items|]; [|by intros [= <-]].
  destruct (len items =? 0); [done|]. destruct (store_RecordBatch s now' items) as [s' e] eqn:E.
  intros [= <- ->]. by rewrite (store_atomic s now' items s' err E).
Qed.

(** ** The score *)

(** A strength of the log: a float64 that validation let through. *)
Definition strength_ok (sig : FeedbackSignal) : Prop :=
  match sig_Strength sig with
  | Some v => valid_binary 53 1024 v = true /\ is_nan v = false
  | None => True
  end.

(** The strengths callers pass are float64 values. *)
Definition op_floats (o : op) : Prop :=
  Forall (fun i => match sig_Strength (it_Signal i) with
                   | Some v => valid_binary 53 1024 v = true
                   | None => True
                   end) (op_items o).2.

Lemma validated_strength c items i :
  validateItems c items = None -> i ∈ items ->
  match sig_Strength (it_Signal i) with Some v => is_nan v = false | None => True end.
Proof.
  induction items as [|j items IH]; simpl; [by intros _ ?%elem_of_nil|].
  destruct (validateKey _); [done|]. destruct (validateSignal _ _ _) eqn:Ev; [done|].
  intros Hv [->|Hi]%elem_of_cons; [|by apply IH]. clear IH Hv. revert Ev. unfold validateSignal.
  destruct (negb _); [done|]. destruct (sig_Strength (it_Signal j)) as [v|]; [|done].
  destruct (is_nan v); done.
Qed.

Lemma stamp_strength now sig : sig_Strength (stamp now sig) = sig_Strength sig.
Proof. unfold stamp. by destruct (IsZero _). Qed.

Lemma spec_step_strengths c log o :
  Forall (fun i => strength_ok (it_Signal i)) log -> op_floats o ->
  Forall (fun i => strength_ok (it_Signal i)) (spec_step c log o).1.
Proof.
  unfold spec_step, op_floats. destruct (op_items o) as [now items]. cbn [snd]. intros Hlog Hf.
  destruct (validateItems c items) eqn:Ev; [done|]. apply Forall_app; split; [done|].
  apply Forall_fmap, Forall_forall. intros i Hi. unfold compose, stampItem, strength_ok.
  cbn [it_Signal]. rewrite stamp_strength. pose proof (validated_strength c items i Ev Hi).
  rewrite Forall_forall in Hf. specialize (Hf i Hi). by destruct (sig_Strength (it_Signal i)).
Qed.

Lemma spec_run_strengths c log ops :
  Forall (fun i => strength_ok (it_Signal i)) log -> Forall op_floats ops ->
  Forall (fun i => strength_ok (it_Signal i)) (spec_run c log ops).1.
Proof.
  intros Hlog Hops. revert log Hlog. induction Hops as [|o ops Ho _ IH]; intros log Hlog; simpl; [done|].
  pose proof (spec_step_strengths c log o Hlog Ho). destruct (spec_step c log o) as [l1 e].
  specialize (IH l1 H). by destruct (spec_run c l1 ops).
Qed.

Lemma retained_strengths c key log :
  Forall (fun i => strength_ok (it_Signal i)) log -> Forall strength_ok (retained c (logged key log)).
Proof.
  intros Hlog. assert (Forall strength_ok (logged key log)) as Hl.
  { induction Hlog as [|i log Hi _ IH]; [done|]. unfold logged. csimpl.
    destruct (decide _); [by constructor|done]. }
  unfold retained, lastn. destruct (0 <? _); [by apply Forall_drop|done].
Qed.

Lemma effectiveStrength_ok sig :
  strength_ok sig -> valid_binary 53 1024 (effectiveStrength sig) = true /\
  is_nan (effectiveStrength sig) = false.
Proof.
  unfold strength_ok, effectiveStrength, DefaultStrength. destruct (sig_Strength sig); [done|].
  intros _. destruct (string_eqb _ _); [done|]. by destruct (string_eqb _ _).
Qed.

Lemma clip_bound v :
  valid_binary 53 1024 v = true -> is_nan v = false -> Bnd 1 0 (clip v (of_int (-1)) fone).
Proof.
  intros Hv Hn. unfold clip. destruct (flt v _) eqn:E1; [by split_and!|].
  destruct (flt fone v) eqn:E2; [by split_and!|]. by apply unit_bound.
Qed.

Lemma tally_bound l t :
  Forall strength_ok l -> 0 <= scored t -> Bnd (scored t) 0 (sum t) -> scored t + len l < 2 ^ 53 ->
  let t' := fold_left tallySignal l t in
  scored t <= scored t' <= scored t + len l /\ Bnd (scored t') 0 (sum t').
Proof.
  intros Hl. revert t. induction Hl as [|sig l Hs _ IH]; intros t H0 Hb Hlen; simpl.
  { rewrite len_nil. split; [lia|done]. }
  rewrite len_cons in Hlen |- *. pose proof (len_nonneg l).
  destruct (effectiveStrength_ok sig Hs) as [Hv Hn].
  set (t1 := tallySignal t sig).
  assert ((scored t1 = scored t \/ scored t1 = scored t + 1) /\ Bnd (scored t1) 0 (sum t1)) as [Hs1 Hb1].
  { unfold t1, tallySignal. destruct (feq _ _); cbn [scored sum]; [by split; [left|]|].
    rewrite wrap_int_id by (unfold in_int, MinInt, MaxInt; lia). split; [by right|].
    apply fadd_bound; [done|lia|lia|lia|done|by apply clip_bound]. }
  destruct (IH t1) as [? ?]; [lia|done|lia|]. split; [lia|done].
Qed.

Lemma neutral_range x : validateNeutralScore x = None -> fle fzero x = true /\ fle x fone = true.
Proof.
  unfold validateNeutralScore. destruct (is_nan x) eqn:En; [done|]. destruct (is_inf x); [done|].
  cbn [orb]. destruct (flt x fzero) eqn:E0; [done|]. destruct (flt fone x) eqn:E1; [done|]. intros _.
  assert (forall a b, is_nan a = false -> is_nan b = false -> flt b a = false -> fle a b = true) as Hle;
    [|by split; apply Hle].
  intros a b Ha Hb. rewrite flt_fcmp, fle_fcmp.
  destruct (fcmp_not_nan a b Ha Hb) as [c Hc], (fcmp_not_nan b a Hb Ha) as [c' Hc'].
  rewrite Hc, Hc'. apply fcmp_frank in Hc, Hc'. destruct c, c'; try done; unfold lexlt in *; intros; exfalso.
  - rewrite Hc' in *. lia.
  - lia.
Qed.

(** The score of a key is a number in [0, 1], rounding included.  Whatever
    was recorded in a store made by [NewMemoryStore] (any finite or infinite
    float64 or NaN as a strength, valid or not), the [Get] of a key that holds
    fewer than 2 ^ 53 signals answers a score that is not NaN, not below 0 and
    not above 1 in float64 arithmetic; the scored samples are some of the
    samples, and without any the score is the configured neutral one. *)
Theorem score_bounded c s0 ops key :
  NewMemoryStore c = Ok s0 -> Forall op_floats ops ->
  let s := (run s0 ops).1 in
  len (Signals s key) < 2 ^ 53 ->
  let agg := Get s key in
  fle fzero (ag_Score agg) = true /\ fle (ag_Score agg) fone = true /\
  SampleCount agg = len (Signals s key) /\ 0 <= ScoredCount agg <= SampleCount agg /\
  (ScoredCount agg = 0 -> ag_Score agg = neutralScore (cfg s0)).
Proof.
  intros Hnew Hops s Hlen agg.
  destruct (store_run_refines s0 [] ops (new_refines c s0 Hnew)) as (HR & _ & Hcfg). fold s in HR, Hcfg.
  pose proof (neutral_range _ (proj2 (new_store c s0 Hnew))) as [Hn0 Hn1].
  assert (Forall strength_ok (Signals s key)) as Hok.
  { rewrite HR. apply retained_strengths, spec_run_strengths; done. }
  destruct (tally_bound (Signals s key) (mkTally fzero 0 0) Hok) as [Hsc Hsum]; [done|done|done|].
  subst agg. unfold Get. rewrite Hcfg. set (t := fold_left _ _ _) in *. cbn [scored sum] in Hsc.
  destruct (Z.eqb_spec (len (Signals s key)) 0) as [->|Hne]; [done|].
  destruct (Z.eqb_spec (scored t) 0) as [_|Ht]; [split_and!; cbn; try done; lia|].
  cbn [ag_Score SampleCount ScoredCount].
  destruct (fadd_half_bound (fmul fhalf (fdiv (sum t) (of_int (scored t))))) as [Hb Hs].
  { apply fmul_half_bound, fdiv_count_bound; [lia|done]. }
  destruct (unit_range _ Hb Hs) as [U0 U1].
  split; [exact U0|split; [exact U1|split; [reflexivity|split; [lia|]]]].
  intros Hz. by destruct Ht.
Qed.

(** ** Concrete runs *)

Definition ex_key : FeedbackKey := mkFeedbackKey "ollama" "qwen" "chat".
Definition ex_signal (kind : string) (s : option float64) (cls : string) : FeedbackSignal :=
  mkSignal kind s 0 0 cls "" "" ∅.
Definition ex_config : MemoryStoreConfig := mkConfig fzero 2 0 0.
Definition ex_store : MemoryStore := mkStore (mkResolved (flit 1 2) 2 32 256) ∅.
Definition ex_ops : list op := [
  OpRecord 7 ex_key (ex_signal RoutingSignalSuccess None "");
  OpRecordBatch 8 [mkItem ex_key (ex_signal RoutingSignalFailure None "timeout");
                   mkItem ex_key (ex_signal "odd" None "")];
  OpRecordBatch 9 [mkItem ex_key (ex_signal RoutingSignalFailure None "timeout");
                   mkItem ex_key (ex_signal RoutingSignalSuccess (Some (of_int 40)) "")]].

(** The batch with an unknown kind leaves nothing; the first signal is dropped
    by the third operation; [0.5 + 0.5 * ((-0.7 + 1) / 2)]. *)
Example ex_run :
  (run ex_store ex_ops).2 = [None; Some ErrUnknownSignalKind; None] /\
  map sig_At (Signals (run ex_store ex_ops).1 ex_key) = [9; 9] /\
  ag_Score (Get (run ex_store ex_ops).1 ex_key) =
    fadd (flit 1 2) (fmul (flit 1 2) (fdiv (fadd (flit (-7) 10) fone) (of_int 2))).
Proof. vm_compute. done. Qed.

Definition ex_outcome : RouteOutcome :=
  mkOutcome (mkModelKey "ollama" "qwen") (mkModelKey "vllm" "llama") "chat" 1 false fone
    [makeAttempt (mkModelKey "ollama" "qwen") (Some DeadlineExceeded) 2500000;
     makeAttempt (mkModelKey "vllm" "llama") None 900000].

Lemma store_refines_log_witness :
  let s := (run ex_store ex_ops).1 in
  NewMemoryStore ex_config = Ok ex_store /\
  (forall key, 0 < 2 -> len (Signals s key) <= 2).
Proof.
  split; [by vm_compute|].
  destruct (store_refines_log ex_config ex_store ex_ops) as (_ & _ & H); [by vm_compute|exact H].
Defined.

Lemma outcome_recorded_witness :
  exists s', RecordOutcome (Some (mkFeedbackWrapper (Some ex_store))) 5 6 "r" "chat" ex_outcome =
      (Some (mkFeedbackWrapper (Some s')), None) /\
    cfg s' = cfg ex_store /\
    Refines s' ([] ++ concat (map (emitted 5 "r" "chat") (Attempts ex_outcome))).
Proof.
  apply (outcome_recorded ex_store [] 5 6 "r" "chat" ex_outcome).
  - apply (new_refines ex_config). by vm_compute.
  - done.
  - done.
  - do 2 (apply Forall_cons_2; [left; by do 3 eexists|]). apply Forall_nil_2.
  - by repeat constructor.
Defined.

Lemma score_bounded_witness :
  let agg := Get (run ex_store ex_ops).1 ex_key in
  fle fzero (ag_Score agg) = true /\ fle (ag_Score agg) fone = true /\ 0 <= ScoredCount agg <= SampleCount agg.
Proof.
  destruct (score_bounded ex_config ex_store ex_ops ex_key) as (H0 & H1 & _ & H2 & _).
  - by vm_compute.
  - by repeat constructor.
  - by vm_compute.
  - exact (conj H0 (conj H1 H2)).
Defined.
