(* ===== verification/Think.v ===== *)
(** * Think: separating thinking from content (provider/think.go, provider/think_extract.go)

    [ThinkParser] is a streaming state machine fed with chunks; what it tells its
    two callbacks is a trace of events.  [ExtractThinking] is its counterpart for
    a whole response. *)

From S2P Require Import Prelude GoString GoFloat RouteErrors Request.

#[local] Arguments String.append : simpl nomatch.

(** ** Strings *)

Definition LT : Ascii.ascii := Ascii.Ascii false false true true true true false false.
Definition is_lt (a : Ascii.ascii) : bool := Ascii.eqb a LT.

(** The text up to the next '<', and the rest from it on. *)
Fixpoint span_lt (s : string) : string * string :=
  match s with
  | EmptyString => ("", "")
  | String a s' => if is_lt a then ("", s) else let '(b, r) := span_lt s' in (String a b, r)
  end.

(** The first occurrence of [sub]: what comes before it and what comes after it. *)
Fixpoint find (sub s : string) : option (string * string) :=
  if String.prefix sub s then Some ("", String.substring (String.length sub) (String.length s) s)
  else match s with
       | EmptyString => None
       | String a s' => match find sub s' with
                        | Some (b, r) => Some (String a b, r)
                        | None => None
                        end
       end.

(** [tag[:len(tag)-1]]. *)
Definition but_last (s : string) : string := String.substring 0 (String.length s - 1) s.

(** ** The parser *)

Inductive parseState := stateContent | stateTagOpen | stateThinking | stateTagClose.

Definition sniffLimit : Z := 64.

Inductive ThinkBudgetAction := ThinkBudgetSkip | ThinkBudgetCancel.

Record ThinkBudget := mkThinkBudget {
  MaxTokens : Z;
  MaxTime : Z;
  OnExceeded : ThinkBudgetAction;
}.

(** What a callback was called with. *)
Inductive event := EvThinking (s : string) | EvContent (s : string).

(** The parser's fields, the number of clock readings so far ([ticks]) and what
    the callbacks were told ([out]). *)
Record ThinkParser := mkThinkParser {
  origMode : ThinkMode;
  mode : ThinkMode;
  tags : ThinkTags;
  budget : option ThinkBudget;
  pstate : parseState;
  tagBuf : string;
  autoResolved : bool;
  sniffBuf : string;
  thinkingTokens : Z;
  contentTokens : Z;
  thinkStart : Z;
  thinkDuration : Z;
  budgetExceeded : bool;
  ticks : nat;
  out : list event;
}.

Definition NewThinkParser (m : ThinkMode) (t : ThinkTags) (b : option ThinkBudget) : ThinkParser :=
  mkThinkParser m m t b stateContent "" false "" 0 0 0 0 false 0 [].

Definition set_state (st : parseState) (buf : string) (p : ThinkParser) : ThinkParser :=
  mkThinkParser (origMode p) (mode p) (tags p) (budget p) st buf (autoResolved p) (sniffBuf p)
    (thinkingTokens p) (contentTokens p) (thinkStart p) (thinkDuration p) (budgetExceeded p)
    (ticks p) (out p).

Definition set_mode (m : ThinkMode) (p : ThinkParser) : ThinkParser :=
  mkThinkParser (origMode p) m (tags p) (budget p) (pstate p) (tagBuf p) (autoResolved p) (sniffBuf p)
    (thinkingTokens p) (contentTokens p) (thinkStart p) (thinkDuration p) (budgetExceeded p)
    (ticks p) (out p).

Definition set_sniff (resolved : bool) (buf : string) (p : ThinkParser) : ThinkParser :=
  mkThinkParser (origMode p) (mode p) (tags p) (budget p) (pstate p) (tagBuf p) resolved buf
    (thinkingTokens p) (contentTokens p) (thinkStart p) (thinkDuration p) (budgetExceeded p)
    (ticks p) (out p).

Definition add_tokens (thinking content : Z) (p : ThinkParser) : ThinkParser :=
  mkThinkParser (origMode p) (mode p) (tags p) (budget p) (pstate p) (tagBuf p) (autoResolved p)
    (sniffBuf p) (wrap_int (thinkingTokens p + thinking)) (wrap_int (contentTokens p + content))
    (thinkStart p) (thinkDuration p) (budgetExceeded p) (ticks p) (out p).

Definition set_clock (start duration : Z) (n : nat) (p : ThinkParser) : ThinkParser :=
  mkThinkParser (origMode p) (mode p) (tags p) (budget p) (pstate p) (tagBuf p) (autoResolved p)
    (sniffBuf p) (thinkingTokens p) (contentTokens p) start duration (budgetExceeded p) n (out p).

Definition set_exceeded (p : ThinkParser) : ThinkParser :=
  mkThinkParser (origMode p) (mode p) (tags p) (budget p) (pstate p) (tagBuf p) (autoResolved p)
    (sniffBuf p) (thinkingTokens p) (contentTokens p) (thinkStart p) (thinkDuration p) true
    (ticks p) (out p).

Definition told (e : event) (p : ThinkParser) : ThinkParser :=
  mkThinkParser (origMode p) (mode p) (tags p) (budget p) (pstate p) (tagBuf p) (autoResolved p)
    (sniffBuf p) (thinkingTokens p) (contentTokens p) (thinkStart p) (thinkDuration p)
    (budgetExceeded p) (ticks p) (out p ++ [e]).

(** Methods that return an error change the parser all the same. *)
Definition M : Type := ThinkParser -> option goerr * ThinkParser.

Definition ret : M := fun p => (None, p).
Definition fail (e : goerr) : M := fun p => (Some e, p).
Definition modify (f : ThinkParser -> ThinkParser) : M := fun p => (None, f p).
Definition gets (f : ThinkParser -> M) : M := fun p => f p p.
Definition andThen (m k : M) : M := fun p =>
  match m p with
  | (None, p) => k p
  | r => r
  end.

Declare Scope think_scope.
Delimit Scope think_scope with think.
Notation "m ;;; k" := (andThen m k) (at level 62, right associativity) : think_scope.
#[local] Open Scope think_scope.

Section Think.
(** The callbacks: the answer to an event after the events before it. *)
Context (answer : list event -> event -> option goerr).
(** The [n]-th reading of the clock. *)
Context (clock : nat -> Z).

Definition errBudget : goerr := Opaque 0.

Definition emit (e : event) : M := fun p => (answer (out p) e, told e p).

(** [p.contentTokens += estimateTokens(s)] and the callback. *)
Definition onContent (s : string) : M :=
  modify (add_tokens 0 (estimateTokens s)) ;;; emit (EvContent s).

Definition checkBudget : M := fun p =>
  match budget p with
  | None => (None, p)
  | Some b =>
      if budgetExceeded p then (None, p)
      else
        let exceeded := (0 <? MaxTokens b) && (MaxTokens b <? thinkingTokens p) in
        let '(exceeded, p) :=
          if (0 <? MaxTime b) && negb (IsZero (thinkStart p))
          then (exceeded || (MaxTime b <? Sub (clock (ticks p)) (thinkStart p)),
                set_clock (thinkStart p) (thinkDuration p) (S (ticks p)) p)
          else (exceeded, p) in
        if exceeded then
          match OnExceeded b with
          | ThinkBudgetCancel => (Some errBudget, set_exceeded p)
          | ThinkBudgetSkip => (None, set_exceeded p)
          end
        else (None, p)
  end.

Definition emitThinking (s : string) : M :=
  modify (add_tokens (estimateTokens s) 0) ;;; checkBudget ;;;
  gets (fun p => if budgetExceeded p then ret else emit (EvThinking s)).

Definition splitRestartTag (tag : string) (ch : Ascii.ascii) : string * bool :=
  if is_lt ch && (0 <? slen tag) then (but_last tag, true) else (tag, false).

(** [time.Now()] at the start of a thinking block, and the block's end. *)
Definition startThinking : M := modify (fun p => set_clock (clock (ticks p)) (thinkDuration p) (S (ticks p)) p).
Definition stopThinking : M := modify (fun p =>
  if IsZero (thinkStart p) then p
  else set_clock 0 (wrap_int (thinkDuration p + Sub (clock (ticks p)) (thinkStart p))) (S (ticks p)) p).

(** The loop over a chunk; an iteration that emits a segment goes on at the '<'
    after it. [n] is at least the length of the chunk. *)
Fixpoint loop (n : nat) (chunk : string) : M :=
  match n, chunk with
  | O, _ | _, EmptyString => ret
  | S n, String ch rest => gets (fun p =>
      match pstate p with
      | stateContent =>
          if is_lt ch then modify (set_state stateTagOpen (String ch "")) ;;; loop n rest
          else match span_lt chunk with
               | (seg, EmptyString) => onContent seg
               | (seg, rest) => onContent seg ;;; loop n rest
               end
      | stateTagOpen =>
          let tag := tagBuf p +:+ String ch "" in
          if string_eqb tag (Open (tags p)) then
            modify (set_state stateThinking "") ;;; startThinking ;;; loop n rest
          else if String.prefix tag (Open (tags p)) then modify (set_state stateTagOpen tag) ;;; loop n rest
          else
            let '(buf, restart) := splitRestartTag tag ch in
            modify (set_state stateContent "") ;;;
            (if string_eqb buf "" then ret else onContent buf) ;;;
            (if restart then modify (set_state stateTagOpen (String ch "")) else ret) ;;;
            loop n rest
      | stateThinking =>
          if is_lt ch then modify (set_state stateTagClose (String ch "")) ;;; loop n rest
          else match span_lt chunk with
               | (seg, EmptyString) => emitThinking seg
               | (seg, rest) => emitThinking seg ;;; loop n rest
               end
      | stateTagClose =>
          let tag := tagBuf p +:+ String ch "" in
          if string_eqb tag (Close (tags p)) then
            stopThinking ;;; modify (set_state stateContent "") ;;; loop n rest
          else if String.prefix tag (Close (tags p)) then modify (set_state stateTagClose tag) ;;; loop n rest
          else
            let '(buf, restart) := splitRestartTag tag ch in
            modify (set_state stateThinking "") ;;;
            (if string_eqb buf "" then ret else emitThinking buf) ;;;
            (if restart then modify (set_state stateTagClose (String ch "")) else ret) ;;;
            loop n rest
      end)
  end.

Definition processChunk (chunk : string) : M := gets (fun p =>
  if negb (has_char LT chunk) then
    match pstate p with
    | stateContent => onContent chunk
    | stateThinking => emitThinking chunk
    | _ => loop (String.length chunk) chunk
    end
  else loop (String.length chunk) chunk).

(** [strings.Contains(s, sub)]. *)
Definition resolveAuto : M := gets (fun p =>
  let buf := sniffBuf p in
  if contains buf (Open (tags p)) then
    modify (set_sniff true "") ;;; modify (set_mode ThinkAlways) ;;; processChunk buf
  else modify (set_sniff true "") ;;; modify (set_mode ThinkNone) ;;; onContent buf).

(** Whether [s] ends with a non-empty proper prefix of [tag]. *)
Definition hasPartialTagPrefix (s tag : string) : bool :=
  existsb (fun i => string_eqb (String.substring (String.length s - i) i s) (String.substring 0 i tag))
    (seq 1 (Nat.min (String.length tag - 1) (String.length s))).

(** Both ends of the last test go on sniffing. *)
Definition processAutoSniff (chunk : string) : M :=
  modify (fun p => set_sniff (autoResolved p) (sniffBuf p +:+ chunk) p) ;;;
  gets (fun p =>
    if sniffLimit <=? slen (sniffBuf p) then resolveAuto
    else if contains (sniffBuf p) (Open (tags p)) then resolveAuto
    else if hasPartialTagPrefix (sniffBuf p) (Open (tags p)) then ret
    else ret).

Definition Process (chunk : string) : M := gets (fun p =>
  if slen chunk =? 0 then ret
  else if bool_decide (mode p = ThinkNone) then onContent chunk
  else if bool_decide (mode p = ThinkAuto) && negb (autoResolved p) then processAutoSniff chunk
  else processChunk chunk).

Definition flushTagBuf : M :=
  stopThinking ;;;
  gets (fun p =>
    if slen (tagBuf p) =? 0 then ret
    else
      let buf := tagBuf p in
      match pstate p with
      | stateTagOpen => modify (set_state stateContent "") ;;; onContent buf
      | stateTagClose =>
          modify (set_state stateThinking "") ;;; modify (add_tokens (estimateTokens buf) 0) ;;;
          gets (fun p => if budgetExceeded p then ret else emit (EvThinking buf))
      | st => modify (set_state st "") ;;; onContent buf
      end).

Definition Flush : M := gets (fun p =>
  if bool_decide (mode p = ThinkAuto) && negb (autoResolved p) then
    let buf := sniffBuf p in
    if negb (string_eqb buf "") then
      if contains buf (Open (tags p)) then
        modify (set_mode ThinkAlways) ;;; modify (set_sniff true "") ;;; processChunk buf ;;; flushTagBuf
      else modify (set_sniff true "") ;;; onContent buf
    else modify (set_sniff true buf)
  else flushTagBuf).

Definition Reset (p : ThinkParser) : ThinkParser :=
  mkThinkParser (origMode p) (origMode p) (tags p) (budget p) stateContent "" false "" 0 0 0 0 false
    (ticks p) (out p).

Definition SetActive (active : bool) (p : ThinkParser) : ThinkParser :=
  if negb (bool_decide (origMode p = ThinkToggle)) then p
  else set_mode (if active then ThinkAlways else ThinkNone) p.

Record ThinkMetrics := mkThinkMetrics {
  m_ThinkingTokens : Z;
  m_ContentTokens : Z;
  ThinkRatio : float64;
  m_ThinkDuration : Z;
}.

Definition Metrics (p : ThinkParser) : ThinkMetrics :=
  let total := wrap_int (thinkingTokens p + contentTokens p) in
  mkThinkMetrics (thinkingTokens p) (contentTokens p)
    (if 0 <? total then fdiv (of_int (thinkingTokens p)) (of_int total) else fzero)
    (thinkDuration p).

(** The chunks of a stream, then [Flush]; an error ends it. *)
Fixpoint stream (chunks : list string) : M :=
  match chunks with
  | [] => Flush
  | c :: chunks => Process c ;;; stream chunks
  end.
End Think.

(** ** Extraction from a whole response *)

(** The matches of the tag pair's regular expression, with what precedes each,
    and the text after the last: the leftmost open tag, then as little as
    possible up to a close tag.  [n] bounds the number of matches. *)
Fixpoint matches (n : nat) (t : ThinkTags) (s : string) : list (string * string) * string :=
  match n with
  | O => ([], s)
  | S n =>
      match find (Open t) s with
      | None => ([], s)
      | Some (before, r) =>
          match find (Close t) r with
          | None => ([], s)
          | Some (inner, r') => let '(ms, rest) := matches n t r' in ((before, inner) :: ms, rest)
          end
      end
  end.

Definition NL : string := String (Ascii.Ascii false true false true false false false false) "".

(** Tags are not empty. *)
Definition ExtractThinking (content : string) (t : ThinkTags) : string * string :=
  if string_eqb content "" then ("", "")
  else
    let '(ms, rest) := matches (String.length content) t content in
    match ms with
    | [] => (content, "")
    | _ => (String.concat "" (map fst ms) +:+ rest, String.concat NL (map snd ms))
    end.

(** ** Text as characters *)

(** What the callbacks were told, character by character: [true] is thinking. *)
Fixpoint marked (k : bool) (s : string) : list (bool * Ascii.ascii) :=
  match s with
  | EmptyString => []
  | String a s => (k, a) :: marked k s
  end.

Definition event_chars (e : event) : list (bool * Ascii.ascii) :=
  match e with EvThinking s => marked true s | EvContent s => marked false s end.

Definition chars (evs : list event) : list (bool * Ascii.ascii) := concat (map event_chars evs).

Lemma marked_app k s s' : marked k (s +:+ s') = marked k s ++ marked k s'.
Proof. induction s as [|a s IH]; simpl; [done|]. by rewrite IH. Qed.

Lemma chars_snoc evs e : chars (evs ++ [e]) = chars evs ++ event_chars e.
Proof. unfold chars. rewrite map_app, concat_app. simpl. by rewrite app_nil_r. Qed.

Lemma string_app_assoc (a b c : string) : (a +:+ b) +:+ c = a +:+ (b +:+ c).
Proof. induction a as [|x a IH]; simpl; [done|]. by rewrite IH. Qed.

Lemma string_app_nil (a : string) : a +:+ "" = a.
Proof. induction a as [|x a IH]; simpl; [done|]. by rewrite IH. Qed.

Lemma string_length_app (a b : string) : String.length (a +:+ b) = (String.length a + String.length b)%nat.
Proof. induction a as [|x a IH]; simpl; [done|]. by rewrite IH. Qed.

Lemma prefix_spec (s t : string) : String.prefix s t = true <-> exists r, t = s +:+ r.
Proof.
  revert t. induction s as [|a s IH]; intros t; simpl.
  { split; [by exists t|by destruct t]. }
  destruct t as [|b t]; simpl; [split; [done|by intros [r [=]]]|].
  destruct (Ascii.ascii_dec a b) as [->|Hne].
  - rewrite IH. split; [intros [r ->]; by exists r|intros [r [= ->]]; by exists r].
  - split; [done|]. by intros [r [=]].
Qed.

Lemma substring_all (s : string) n : (String.length s <= n)%nat -> String.substring 0 n s = s.
Proof.
  revert n. induction s as [|a s IH]; intros [|n] Hn; simpl in *; [done..|lia|].
  by rewrite IH by lia.
Qed.

Lemma substring_drop (s r : string) n :
  (String.length r <= n)%nat -> String.substring (String.length s) n (s +:+ r) = r.
Proof.
  intros Hn. induction s as [|a s IH]; simpl; [by apply substring_all|]. done.
Qed.

Lemma substring_take (s r : string) : String.substring 0 (String.length s) (s +:+ r) = s.
Proof. induction s as [|a s IH]; simpl; [by destruct r|]. by rewrite IH. Qed.

Lemma but_last_snoc s a : but_last (s +:+ String a "") = s.
Proof.
  unfold but_last. rewrite string_length_app. simpl.
  replace (String.length s + 1 - 1)%nat with (String.length s) by lia. apply substring_take.
Qed.

(** ** Searching *)

Definition before (x : string) (o : option (string * string)) : option (string * string) :=
  match o with Some (b, r) => Some (x +:+ b, r) | None => None end.

Lemma find_prefix sub r : find sub (sub +:+ r) = Some ("", r).
Proof.
  assert (String.prefix sub (sub +:+ r) = true) as Hp by (apply prefix_spec; eauto).
  destruct (sub +:+ r) eqn:Heq; cbn [find]; rewrite Hp; f_equal; f_equal; rewrite <-Heq;
    apply substring_drop; rewrite string_length_app; lia.
Qed.

Lemma find_step sub a s :
  String.prefix sub (String a s) = false -> find sub (String a s) = before (String a "") (find sub s).
Proof. intros Hp. cbn [find]. rewrite Hp. by destruct (find sub s) as [[]|]. Qed.

Lemma prefix_drop sub s :
  String.prefix sub s = true -> s = sub +:+ String.substring (String.length sub) (String.length s) s.
Proof.
  intros [r ->]%prefix_spec. rewrite substring_drop by (rewrite string_length_app; lia). done.
Qed.

Lemma find_Some sub s b r : find sub s = Some (b, r) -> s = b +:+ (sub +:+ r).
Proof.
  revert b. induction s as [|a s IH]; intros b; cbn [find].
  - destruct (String.prefix sub "") eqn:Hp; [|done]. apply prefix_drop in Hp.
    intros H. injection H as <- <-. exact Hp.
  - destruct (String.prefix sub (String a s)) eqn:Hp.
    + apply prefix_drop in Hp. intros H. injection H as <- <-. exact Hp.
    + destruct (find sub s) as [[b' r']|]; [|done]. intros H. injection H as <- <-.
      simpl. by rewrite (IH b').
Qed.

(** A tag that starts with '<', holds no other '<' and is not a lone '<'. *)
Definition good_tag (t : string) : Prop :=
  exists t', t = String LT t' /\ t' <> "" /\ has_char LT t' = false.

Lemma good_tag_prefix t a s : good_tag t -> is_lt a = false -> String.prefix t (String a s) = false.
Proof.
  intros (t' & -> & _) Ha. apply not_true_is_false. intros [r Hr]%prefix_spec.
  simpl in Hr. injection Hr as -> _. done.
Qed.

Lemma before_before x y o : before x (before y o) = before (x +:+ y) o.
Proof. destruct o as [[]|]; simpl; [|done]. by rewrite string_app_assoc. Qed.

Lemma find_skip t x y :
  good_tag t -> has_char LT x = false -> find t (x +:+ y) = before x (find t y).
Proof.
  intros Ht. induction x as [|a x IH]; intros Hx.
  { simpl. by destruct (find t y) as [[]|]. }
  simpl in Hx. to_prop. change (String a x +:+ y) with (String a (x +:+ y)). rewrite find_step by (by apply good_tag_prefix). rewrite IH by done.
  by rewrite before_before.
Qed.

Lemma find_skip_lt t x y :
  good_tag t -> has_char LT x = false -> String.prefix t (String LT x +:+ y) = false ->
  find t (String LT x +:+ y) = before (String LT x) (find t y).
Proof.
  intros Ht Hx Hp. change (String LT x +:+ y) with (String LT (x +:+ y)) in *. rewrite find_step by done. rewrite find_skip by done.
  by rewrite before_before.
Qed.

(** ** The parser, a character at a time *)

(** Inside a block or not, and the partial tag being matched. *)
Definition cstate : Type := bool * option string.

Definition tag_of (t : ThinkTags) (k : bool) : string := if k then Close t else Open t.

Definition cstep (t : ThinkTags) (c : cstate) (ch : Ascii.ascii) : cstate * list (bool * Ascii.ascii) :=
  let '(k, partial) := c in
  match partial with
  | None => if is_lt ch then ((k, Some (String ch "")), []) else ((k, None), [(k, ch)])
  | Some buf =>
      let tag := buf +:+ String ch "" in
      if string_eqb tag (tag_of t k) then ((negb k, None), [])
      else if String.prefix tag (tag_of t k) then ((k, Some tag), [])
      else if is_lt ch then ((k, Some (String ch "")), marked k buf)
      else ((k, None), marked k tag)
  end.

Fixpoint crun (t : ThinkTags) (c : cstate) (s : string) : cstate * list (bool * Ascii.ascii) :=
  match s with
  | EmptyString => (c, [])
  | String ch s => let '(c, o) := cstep t c ch in let '(c, o') := crun t c s in (c, o ++ o')
  end.

Definition cflush (c : cstate) : list (bool * Ascii.ascii) :=
  match c.2 with Some buf => marked c.1 buf | None => [] end.

(** The text told apart by the tags: content, then a block, and so on; a block
    that is never closed ends with the text. *)
Fixpoint segments (n : nat) (t : ThinkTags) (s : string) : list (bool * string) :=
  match n with
  | O => [(false, s)]
  | S n =>
      match find (Open t) s with
      | None => [(false, s)]
      | Some (b, r) =>
          (false, b) :: match find (Close t) r with
                        | None => [(true, r)]
                        | Some (i, r) => (true, i) :: segments n t r
                        end
      end
  end.

Definition seg_chars (l : list (bool * string)) : list (bool * Ascii.ascii) :=
  concat (map (fun p => marked p.1 p.2) l).

Definition good_tags (t : ThinkTags) : Prop := good_tag (Open t) /\ good_tag (Close t).

(** ** The machine finds the first tag *)

(** All that a state makes of a text up to its end. *)
Fixpoint cfull (t : ThinkTags) (c : cstate) (s : string) : list (bool * Ascii.ascii) :=
  match s with
  | EmptyString => cflush c
  | String ch s => let '(c, o) := cstep t c ch in o ++ cfull t c s
  end.

Lemma cfull_crun t c s : cfull t c s = (crun t c s).2 ++ cflush (crun t c s).1.
Proof.
  revert c. induction s as [|ch s IH]; intros c; simpl; [done|].
  destruct (cstep t c ch) as [c' o]. rewrite IH. destruct (crun t c' s) as [c2 o2]. simpl.
  by rewrite app_assoc.
Qed.

Lemma crun_app t c s s' :
  crun t c (s +:+ s') = let '(c1, o1) := crun t c s in let '(c2, o2) := crun t c1 s' in (c2, o1 ++ o2).
Proof.
  revert c. induction s as [|ch s IH]; intros c; simpl; [by destruct (crun t c s')|].
  destruct (cstep t c ch) as [c1 o1]. rewrite IH.
  destruct (crun t c1 s) as [c2 o2]. destruct (crun t c2 s') as [c3 o3]. by rewrite app_assoc.
Qed.

(** A proper prefix of the tag that is not empty. *)
Definition partial_tag (t buf : string) : Prop := buf <> "" /\ exists r, r <> "" /\ t = buf +:+ r.

Lemma partial_tag_lt t buf :
  good_tag t -> partial_tag t buf -> exists x, buf = String LT x /\ has_char LT x = false.
Proof.
  intros (t' & -> & _ & Hlt) (Hne & r & _ & Heq). destruct buf as [|a x]; [done|].
  simpl in Heq. injection Heq as <- ->. exists x. split; [done|].
  rewrite has_char_app in Hlt. by to_prop.
Qed.

Lemma lt_partial t : good_tag t -> partial_tag t (String LT "").
Proof. intros (t' & -> & Hne & _). split; [done|]. by exists t'. Qed.

Lemma find_none_partial t buf : partial_tag t buf -> find t buf = None.
Proof.
  intros (_ & r & Hr & ->). destruct (find _ buf) as [[b r']|] eqn:Hf; [|done].
  apply find_Some in Hf. apply (f_equal String.length) in Hf. rewrite !string_length_app in Hf.
  destruct r; [done|]. simpl in Hf. lia.
Qed.

Lemma partial_extend t buf ch :
  partial_tag t buf -> buf +:+ String ch "" <> t -> String.prefix (buf +:+ String ch "") t = true ->
  partial_tag t (buf +:+ String ch "").
Proof.
  intros _ Hne [r Hr]%prefix_spec. split; [by destruct buf|]. exists r. split; [|done].
  intros ->. by rewrite string_app_nil in Hr.
Qed.

(** A tag that is not a prefix of [t] rules [t] out at its start. *)
Lemma not_prefix_app t buf ch s :
  partial_tag t buf -> buf +:+ String ch "" <> t -> String.prefix (buf +:+ String ch "") t = false ->
  String.prefix t (buf +:+ String ch s) = false.
Proof.
  intros (_ & r & Hr & Ht) Hne Hp. apply not_true_is_false. intros [q Hq]%prefix_spec.
  apply not_true_iff_false in Hp. apply Hp, prefix_spec. subst t.
  rewrite string_app_assoc in Hq. clear Hp. 
  assert (String ch s = r +:+ q) as Heq.
  { clear Hne Hr. revert Hq. induction buf as [|a buf IH]; simpl; [done|]. intros [= H]. auto. }
  destruct r as [|c r]; [done|]. simpl in Heq. injection Heq as <- _. exists r.
  by rewrite string_app_assoc.
Qed.

Lemma cfull_search t k s :
  good_tag (tag_of t k) ->
  (forall buf, partial_tag (tag_of t k) buf ->
   cfull t (k, Some buf) s =
   match find (tag_of t k) (buf +:+ s) with
   | Some (b, r) => marked k b ++ cfull t (negb k, None) r
   | None => marked k (buf +:+ s)
   end) /\
  cfull t (k, None) s =
   match find (tag_of t k) s with
   | Some (b, r) => marked k b ++ cfull t (negb k, None) r
   | None => marked k s
   end.
Proof.
  intros Hg. induction s as [|ch s [IHp IHn]].
  { split.
    - intros buf Hb. rewrite string_app_nil, find_none_partial by done. done.
    - destruct (find (tag_of t k) "") as [[b r]|] eqn:Hf; [|done]. apply find_Some in Hf.
      destruct Hg as (t' & Ht & _). rewrite Ht in Hf. by destruct b. }
  split.
  - intros buf Hb. simpl cfull.
    assert (buf +:+ String ch s = (buf +:+ String ch "") +:+ s) as Hsplit
      by (by rewrite string_app_assoc).
    unfold string_eqb. destruct (bool_decide_reflect (buf +:+ String ch "" = tag_of t k)) as [Heq|Hne].
    { rewrite Hsplit, Heq, find_prefix. done. }
    destruct (String.prefix (buf +:+ String ch "") (tag_of t k)) eqn:Hp.
    { rewrite IHp by (by apply partial_extend). by rewrite Hsplit. }
    pose proof (not_prefix_app _ buf ch s Hb Hne Hp) as Hnp.
    destruct (partial_tag_lt _ buf Hg Hb) as (x & -> & Hx).
    unfold is_lt. destruct (Ascii.eqb_spec ch LT) as [->|Hch].
    + rewrite find_skip_lt by done. simpl app. rewrite IHp by (by apply lt_partial).
      change (String LT "" +:+ s) with (String LT s).
      destruct (find (tag_of t k) (String LT s)) as [[b r]|]; simpl;
        rewrite ?marked_app, <-?app_assoc; done.
    + rewrite Hsplit in Hnp |- *. change (String LT x +:+ String ch "") with (String LT (x +:+ String ch "")) in *.
      rewrite find_skip_lt; [|done| |done].
      2: { rewrite has_char_app, Hx. simpl. rewrite orb_false_r. by apply Ascii.eqb_neq. }
      rewrite IHn. destruct (find (tag_of t k) s) as [[b r]|]; simpl;
        rewrite ?marked_app, <-?app_assoc; done.
  - simpl cfull. unfold is_lt at 1.
    destruct (Ascii.eqb_spec ch LT) as [->|Hch].
    + simpl app. rewrite IHp by (by apply lt_partial). done.
    + rewrite IHn, find_step by (apply good_tag_prefix; [done|]; unfold is_lt; by apply Ascii.eqb_neq).
      by destruct (find (tag_of t k) s) as [[b r]|].
Qed.

Lemma find_length t s b r : good_tag t -> find t s = Some (b, r) -> (String.length r < String.length s)%nat.
Proof.
  intros (t' & -> & _) Hf%find_Some. rewrite Hf, !string_length_app. simpl. lia.
Qed.

Lemma seg_chars_cons k s l : seg_chars ((k, s) :: l) = marked k s ++ seg_chars l.
Proof. done. Qed.

(** The machine tells the text apart as [segments] does. *)
Lemma cfull_segments n t s :
  good_tags t -> (String.length s <= n)%nat -> cfull t (false, None) s = seg_chars (segments n t s).
Proof.
  intros [Ho Hc]. revert s. induction n as [|n IH]; intros s Hn.
  { destruct s; [done|simpl in Hn; lia]. }
  rewrite (proj2 (cfull_search t false s Ho)). simpl tag_of. simpl segments.
  destruct (find (Open t) s) as [[b r]|] eqn:Hf; [|by rewrite seg_chars_cons, app_nil_r].
  rewrite seg_chars_cons. f_equal. simpl negb. rewrite (proj2 (cfull_search t true r Hc)). simpl tag_of.
  destruct (find (Close t) r) as [[i r']|] eqn:Hf'; [|by rewrite seg_chars_cons, app_nil_r].
  rewrite seg_chars_cons. f_equal. apply IH. apply find_length in Hf, Hf'; [lia|done..].
Qed.

(** ** The parser runs the machine *)

Definition cview (p : ThinkParser) : cstate :=
  match pstate p with
  | stateContent => (false, None)
  | stateTagOpen => (false, Some (tagBuf p))
  | stateThinking => (true, None)
  | stateTagClose => (true, Some (tagBuf p))
  end.

(** Nothing but the text decides: no budget. *)
Record steady (t : ThinkTags) (p : ThinkParser) : Prop := mkSteady {
  sd_tags : tags p = t;
  sd_budget : budget p = None;
  sd_exceeded : budgetExceeded p = false;
  sd_partial : match (cview p).2 with Some buf => buf <> "" | None => tagBuf p = "" end;
}.

(** The same mode and sniffing. *)
Definition same_mode (p p' : ThinkParser) : Prop :=
  mode p' = mode p /\ autoResolved p' = autoResolved p /\ sniffBuf p' = sniffBuf p.

(** [m] ends without an error in the state [c], having told the characters [o]. *)
Definition does (t : ThinkTags) (m : M) (p : ThinkParser) (c : cstate) (o : list (bool * Ascii.ascii)) :
    Prop :=
  let '(e, p') := m p in
  e = None /\ steady t p' /\ cview p' = c /\ chars (out p') = chars (out p) ++ o /\ same_mode p p'.

Section Runs.
Context (clock : nat -> Z).
(** Callbacks that never fail. *)
Abbreviation calm := (fun (_ : list event) (_ : event) => @None goerr).

Lemma does_then t m k p c o c' o' :
  does t m p c o ->
  (forall p', steady t p' -> cview p' = c -> tags p' = t -> does t k p' c' o') ->
  does t (m ;;; k) p c' (o ++ o').
Proof.
  unfold does, andThen. intros Hm Hk. destruct (m p) as [e p'].
  destruct Hm as (-> & Hs & Hc & Ho & Hm). specialize (Hk p' Hs Hc (sd_tags _ _ Hs)).
  destruct (k p') as [e' p'']. destruct Hk as (-> & Hs' & Hc' & Ho' & Hm').
  split_and!; [done..| |].
  - by rewrite Ho', Ho, app_assoc.
  - unfold same_mode in *. intuition congruence.
Qed.

Lemma does_onContent t s p : steady t p -> does t (onContent calm s) p (cview p) (marked false s).
Proof.
  intros []. unfold does, onContent, andThen, modify, emit. split_and!; try done.
  simpl. by rewrite chars_snoc.
Qed.

Lemma does_emitThinking t s p :
  steady t p -> does t (emitThinking calm clock s) p (cview p) (marked true s).
Proof.
  intros [Ht Hb He Hp]. unfold does, emitThinking, andThen, modify, checkBudget, gets, emit. simpl.
  rewrite Hb. simpl. rewrite He. simpl. split_and!; try done. by rewrite chars_snoc.
Qed.

Lemma does_set_state t st buf p :
  steady t p ->
  match (cview (set_state st buf p)).2 with Some b => b <> "" | None => buf = "" end ->
  does t (modify (set_state st buf)) p (cview (set_state st buf p)) [].
Proof.
  intros [] Hb. unfold does, modify. split_and!; try done. by rewrite app_nil_r.
Qed.

Lemma does_start t p : steady t p -> does t (startThinking clock) p (cview p) [].
Proof. intros []. unfold does, startThinking, modify. split_and!; try done. by rewrite app_nil_r. Qed.

Lemma does_stop t p : steady t p -> does t (stopThinking clock) p (cview p) [].
Proof.
  intros [Ht Hb He Hp]. unfold does, stopThinking, modify. destruct (IsZero (thinkStart p));
    (split_and!; try done; by rewrite app_nil_r).
Qed.

Lemma does_ret t p : steady t p -> does t ret p (cview p) [].
Proof. intros Hs. unfold does, ret. split_and!; try done. by rewrite app_nil_r. Qed.

(** A run of text without '<' outside a partial tag. *)
Lemma crun_plain t k s r :
  has_char LT s = false ->
  crun t (k, None) (s +:+ r) = let '(c, o) := crun t (k, None) r in (c, marked k s ++ o).
Proof.
  induction s as [|a s IH]; simpl; intros Hs; [by destruct (crun t (k, None) r)|].
  apply orb_false_iff in Hs as [Ha Hs]. unfold is_lt. rewrite Ha. rewrite IH by done.
  by destruct (crun t (k, None) r).
Qed.

Lemma span_lt_spec s :
  let '(b, r) := span_lt s in
  s = b +:+ r /\ has_char LT b = false /\ (String.length r <= String.length s)%nat /\
  (r = "" \/ exists r', r = String LT r').
Proof.
  induction s as [|a s IH]; simpl; [by auto|]. unfold is_lt.
  destruct (Ascii.eqb_spec a LT) as [->|Ha].
  - split_and!; [done..|simpl; lia|by right; exists s].
  - destruct (span_lt s) as [b r]. destruct IH as (-> & Hb & Hr & Hlt). split_and!; try done.
    + simpl. rewrite Hb, orb_false_r. by apply Ascii.eqb_neq.
    + lia.
Qed.

Lemma does_eq t m p c o c' o' : does t m p c o -> (c, o) = (c', o') -> does t m p c' o'.
Proof. by intros ? [= <- <-]. Qed.

(** The final state and the characters of a run. *)
Definition runs (t : ThinkTags) (m : M) (p : ThinkParser) (co : cstate * list (bool * Ascii.ascii)) : Prop :=
  does t m p co.1 co.2.

Lemma runs_then t m k p c o c' o' :
  runs t m p (c, o) ->
  (forall p', steady t p' -> cview p' = c -> runs t k p' (c', o')) ->
  runs t (m ;;; k) p (c', o ++ o').
Proof. intros Hm Hk. eapply does_then; [exact Hm|]. intros p' Hs Hc _. by apply Hk. Qed.

Lemma runs_gets t f p co : runs t (f p) p co -> runs t (gets f) p co.
Proof. done. Qed.

Lemma mismatch_runs t k st stp (em : string -> M) m p ch rest :
  (forall s p, steady t p -> does t (em s) p (cview p) (marked k s)) ->
  (forall p, cview (set_state st "" p) = (k, None)) ->
  (forall b p, cview (set_state stp b p) = (k, Some b)) ->
  (forall p, steady t p -> runs t m p (crun t (cview p) rest)) ->
  steady t p -> tagBuf p <> "" ->
  let tag := tagBuf p +:+ String ch "" in
  let '(buf, restart) := splitRestartTag tag ch in
  runs t (modify (set_state st "") ;;;
          (if string_eqb buf "" then ret else em buf) ;;;
          (if restart then modify (set_state stp (String ch "")) else ret) ;;; m) p
    (let '(c1, o1) := if is_lt ch then ((k, Some (String ch "")), marked k (tagBuf p))
                      else ((k, None), marked k tag) in
     let '(c2, o2) := crun t c1 rest in (c2, o1 ++ o2)).
Proof.
  intros Hem Hst Hstp Hm Hp Hbuf tag. unfold splitRestartTag.
  assert ((0 <? slen tag) = true) as ->.
  { apply Z.ltb_lt. unfold slen, tag. rewrite string_length_app. simpl. lia. }
  rewrite andb_true_r. subst tag. rewrite but_last_snoc.
  assert (forall b p', steady t p' -> cview p' = (k, None) -> b <> "" ->
    runs t (if string_eqb b "" then ret else em b) p' ((k, None), marked k b)) as Hemit.
  { intros b p' Hs Hc Hb. unfold string_eqb. rewrite bool_decide_false by done.
    unfold runs. simpl. rewrite <-Hc. by apply Hem. }
  assert (runs t (modify (set_state st "")) p ((k, None), [])) as Hset.
  { unfold runs. simpl. rewrite <-(Hst p). apply does_set_state; [done|]. by rewrite Hst. }
  destruct (is_lt ch).
  - destruct (crun t (k, Some (String ch "")) rest) as [c2 o2] eqn:Hrun.
    change (marked k (tagBuf p) ++ o2) with ([] ++ (marked k (tagBuf p) ++ o2)).
    eapply runs_then; [exact Hset|]. intros p1 Hs1 Hc1.
    eapply runs_then; [by apply Hemit|]. intros p2 Hs2 Hc2.
    change o2 with ([] ++ o2). eapply runs_then.
    + unfold runs. simpl. apply does_set_state; [done|].
      by rewrite Hstp.
    + intros p3 Hs3 Hc3. rewrite Hstp in Hc3. rewrite <-Hrun, <-Hc3. by apply Hm.
  - destruct (crun t (k, None) rest) as [c2 o2] eqn:Hrun.
    match goal with |- runs _ _ _ (_, ?a ++ ?b) => change (a ++ b) with ([] ++ (a ++ b)) end.
    eapply runs_then; [exact Hset|]. intros p1 Hs1 Hc1.
    eapply runs_then; [by apply Hemit; [..|destruct (tagBuf p)]|]. intros p2 Hs2 Hc2.
    change o2 with ([] ++ o2). eapply runs_then; [by apply does_ret|].
    intros p3 Hs3 Hc3. rewrite <-Hrun, <-Hc2, <-Hc3. by apply Hm.
Qed.

Lemma plain_runs t k (em : string -> M) n ch rest p :
  (forall s p, steady t p -> does t (em s) p (cview p) (marked k s)) ->
  (forall s p, steady t p -> (String.length s <= n)%nat ->
    runs t (loop calm clock n s) p (crun t (cview p) s)) ->
  steady t p -> cview p = (k, None) -> is_lt ch = false -> (String.length rest <= n)%nat ->
  runs t (match span_lt (String ch rest) with
          | (seg, EmptyString) => em seg
          | (seg, rest) => em seg ;;; loop calm clock n rest
          end) p (crun t (k, None) (String ch rest)).
Proof.
  intros Hem IH Hp Hc Hch Hn. simpl span_lt. rewrite Hch.
  pose proof (span_lt_spec rest) as Hs. destruct (span_lt rest) as [b r].
  destruct Hs as (-> & Hb & Hr & Hlt).
  assert (has_char LT (String ch b) = false) as Hplain by (simpl; rewrite Hb, orb_false_r; done).
  change (String ch (b +:+ r)) with (String ch b +:+ r). rewrite crun_plain by done.
  destruct r as [|a r].
  - simpl crun. cbv iota. rewrite app_nil_r. unfold runs. cbn [fst snd]. rewrite <-Hc. by apply Hem.
  - pose proof (IH (String a r)) as IHr. destruct (crun t (k, None) (String a r)) as [c o] eqn:Hrun.
    eapply runs_then; [unfold runs; cbn [fst snd]; by apply Hem|].
    intros p' Hs' Hc'. rewrite <-Hrun, <-Hc, <-Hc'. apply IHr; [done|lia].
Qed.

Lemma loop_runs t n s p :
  steady t p -> (String.length s <= n)%nat -> runs t (loop calm clock n s) p (crun t (cview p) s).
Proof.
  revert s p. induction n as [|n IH]; intros s p Hp Hn.
  { destruct s; [by apply does_ret|simpl in Hn; lia]. }
  destruct s as [|ch rest]; [by apply does_ret|]. simpl in Hn.
  assert (String.length rest <= n)%nat as Hr by lia.
  assert (forall q, steady t q -> runs t (loop calm clock n rest) q (crun t (cview q) rest)) as IHr
    by (intros; by apply IH).
  pose proof (sd_tags t p Hp) as Ht.
  assert (forall st st' b, (forall q, cview (set_state st b q) = st') -> match st'.2 with Some x => x <> "" | None => b = "" end ->
    runs t (modify (set_state st b) ;;; loop calm clock n rest) p
      (let '(c, o) := crun t st' rest in (c, [] ++ o))) as Hgo.
  { intros st st' b Hst Hne. destruct (crun t st' rest) as [c o] eqn:Hrun.
    eapply runs_then; [unfold runs; cbn [fst snd]; rewrite <-(Hst p); apply does_set_state; [done|]|].
    - rewrite Hst. exact Hne.
    - intros q Hq Hcq. rewrite <-Hrun, <-(Hst p), <-Hcq. by apply IHr. }
  assert (forall (k : bool) st stp (em : string -> M),
    (forall s p, steady t p -> does t (em s) p (cview p) (marked k s)) ->
    (forall p, cview (set_state st "" p) = (k, None)) ->
    (forall b p, cview (set_state stp b p) = (k, Some b)) -> forall buf, cview p = (k, Some buf) ->
    tagBuf p = buf -> forall m1 m2 : M,
    runs t (m1 ;;; m2 ;;; loop calm clock n rest) p
      (let '(c, o) := crun t (negb k, None) rest in (c, [] ++ o)) ->
    runs t
      (if string_eqb (tagBuf p +:+ String ch "") (tag_of t k) then m1 ;;; m2 ;;; loop calm clock n rest
       else if String.prefix (tagBuf p +:+ String ch "") (tag_of t k)
       then modify (set_state stp (tagBuf p +:+ String ch "")) ;;; loop calm clock n rest
       else let '(buf, restart) := splitRestartTag (tagBuf p +:+ String ch "") ch in
            modify (set_state st "") ;;; (if string_eqb buf "" then ret else em buf) ;;;
            (if restart then modify (set_state stp (String ch "")) else ret) ;;; loop calm clock n rest)
      p (crun t (k, Some buf) (String ch rest))) as Htag.
  { intros k st stp em Hem Hst Hstp buf Hc Hbuf m1 m2 Hmatch. subst buf. cbn [crun cstep].
    destruct (string_eqb (tagBuf p +:+ String ch "") (tag_of t k)); [exact Hmatch|].
    destruct (String.prefix (tagBuf p +:+ String ch "") (tag_of t k)).
    - apply Hgo; [by intros|]. simpl. by destruct (tagBuf p).
    - pose proof (mismatch_runs t k st stp em _ p ch rest Hem Hst Hstp IHr Hp) as Hm.
      pose proof (sd_partial t p Hp) as Hne. rewrite Hc in Hne. specialize (Hm Hne). cbv zeta in Hm. destruct (splitRestartTag _ ch). exact Hm. }
  assert (forall (k : bool) (m1 m2 : M) c1, runs t m1 p (c1, []) ->
    (forall q, steady t q -> cview q = c1 -> runs t m2 q ((k, None), [])) ->
    runs t (m1 ;;; m2 ;;; loop calm clock n rest) p
      (let '(c, o) := crun t (k, None) rest in (c, [] ++ o))) as Hset.
  { intros k m1 m2 c1 Hm1 Hm2. destruct (crun t (k, None) rest) as [c o] eqn:Hrun.
    eapply runs_then; [exact Hm1|]. intros q Hq Hcq. change o with ([] ++ o).
    eapply runs_then; [by apply Hm2|]. intros q' Hq' Hcq'. rewrite <-Hrun, <-Hcq'. by apply IHr. }
  cbn [loop]. apply runs_gets. cbv beta. rewrite Ht. unfold cview at 1.
  destruct (pstate p) eqn:Hst.
  - destruct (is_lt ch) eqn:Hch; [cbn [crun cstep]; rewrite Hch; by apply Hgo|].
    apply plain_runs; [apply does_onContent|exact IH|done|by unfold cview; rewrite Hst|done..].
  - apply (Htag false stateContent stateTagOpen (onContent calm)); try done;
      [apply does_onContent|by unfold cview; rewrite Hst|].
    apply (Hset true _ _ (true, None)); [by apply (does_set_state t stateThinking "")|].
    intros q Hq <-. by apply does_start.
  - destruct (is_lt ch) eqn:Hch; [cbn [crun cstep]; rewrite Hch; by apply Hgo|].
    apply plain_runs; [apply does_emitThinking|exact IH|done|by unfold cview; rewrite Hst|done..].
  - apply (Htag true stateThinking stateTagClose (emitThinking calm clock)); try done;
      [apply does_emitThinking|by unfold cview; rewrite Hst|].
    apply (Hset false _ _ (cview p)); [by apply does_stop|].
    intros q Hq _. by apply (does_set_state t stateContent "").
Qed.

Lemma processChunk_runs t s p : steady t p -> runs t (processChunk calm clock s) p (crun t (cview p) s).
Proof.
  intros Hp. unfold processChunk. apply runs_gets. cbv beta.
  assert (runs t (loop calm clock (String.length s) s) p (crun t (cview p) s)) as Hloop
    by by apply loop_runs.
  destruct (has_char LT s) eqn:Hlt; [done|]. cbn [negb].
  assert (forall k, cview p = (k, None) -> crun t (cview p) s = ((k, None), marked k s)) as Hplain.
  { intros k ->. rewrite <-(string_app_nil s) at 1. rewrite crun_plain by done. simpl.
    by rewrite app_nil_r. }
  destruct (pstate p) eqn:Hst; try done.
  - assert (cview p = (false, None)) as Hc by (unfold cview; by rewrite Hst).
    rewrite (Hplain false Hc). unfold runs. cbn [fst snd]. rewrite <-Hc. by apply does_onContent.
  - assert (cview p = (true, None)) as Hc by (unfold cview; by rewrite Hst).
    rewrite (Hplain true Hc). unfold runs. cbn [fst snd]. rewrite <-Hc. by apply does_emitThinking.
Qed.

(** [m] ends without an error and tells the characters [o]. *)
Definition tells (m : M) (p : ThinkParser) (o : list (bool * Ascii.ascii)) : Prop :=
  let '(e, p') := m p in e = None /\ chars (out p') = chars (out p) ++ o.

Lemma tells_then t m k p co o :
  runs t m p co -> (forall p', steady t p' -> cview p' = co.1 -> same_mode p p' -> tells k p' o) ->
  tells (m ;;; k) p (co.2 ++ o).
Proof.
  unfold runs, does, tells, andThen. intros Hm Hk. destruct (m p) as [e p'].
  destruct Hm as (-> & Hs & Hc & Ho & Hsm). specialize (Hk p' Hs Hc Hsm).
  destruct (k p') as [e' p'']. destruct Hk as [-> ->]. by rewrite Ho, app_assoc.
Qed.

Lemma tells_gets f p o : tells (f p) p o -> tells (gets f) p o.
Proof. done. Qed.

Lemma runs_tells t m p co : runs t m p co -> tells m p co.2.
Proof. unfold runs, does, tells. destruct (m p). tauto. Qed.

Lemma flushTagBuf_tells t p : steady t p -> tells (flushTagBuf calm clock) p (cflush (cview p)).
Proof.
  intros Hp. unfold flushTagBuf. change (cflush (cview p)) with ([] ++ cflush (cview p)).
  apply (tells_then t _ _ p (cview p, [])); [by apply does_stop|]. intros q Hq Hc _.
  cbn [fst] in Hc. rewrite <-Hc. clear p Hp Hc. pose proof (sd_partial t q Hq) as Hb.
  apply tells_gets. cbv beta.
  assert (slen (tagBuf q) =? 0 = bool_decide (tagBuf q = "")) as ->.
  { unfold slen. destruct (tagBuf q); [done|]. by rewrite bool_decide_false by done. }
  revert Hb. unfold cview, cflush. destruct (pstate q) eqn:Hst; cbn [fst snd]; intros Hb.
  - rewrite Hb. simpl. unfold tells, ret. by rewrite app_nil_r.
  - rewrite bool_decide_false by done.
    apply (runs_tells t _ _ ((false, None), [] ++ marked false (tagBuf q))).
    apply (runs_then t _ _ _ (false, None)); [by apply (does_set_state t stateContent "")|].
    intros q' Hq' <-. by apply does_onContent.
  - rewrite Hb. simpl. unfold tells, ret. by rewrite app_nil_r.
  - rewrite bool_decide_false by done. destruct Hq as [_ _ He _].
    unfold tells, andThen, modify, gets, emit. simpl. rewrite He. simpl. by rewrite chars_snoc.
Qed.

(** A parser that looks for tags in every chunk. *)
Definition parsing (p : ThinkParser) : Prop :=
  mode p = ThinkAlways \/ mode p = ThinkToggle \/ mode p = ThinkAuto /\ autoResolved p = true.

Lemma parsing_same p p' : same_mode p p' -> parsing p -> parsing p'.
Proof. intros (Hm & Ha & _). unfold parsing. by rewrite Hm, Ha. Qed.

Lemma parsing_flags p :
  parsing p -> bool_decide (mode p = ThinkNone) = false /\
  bool_decide (mode p = ThinkAuto) && negb (autoResolved p) = false.
Proof. intros [->|[->|[-> ->]]]; done. Qed.

Lemma stream_parsing t chunks p :
  steady t p -> parsing p ->
  tells (stream calm clock chunks) p (cfull t (cview p) (String.concat "" chunks)).
Proof.
  revert p. induction chunks as [|c chunks IH]; intros p Hp Hm; cbn [stream].
  - unfold Flush. apply tells_gets. cbv beta. rewrite (proj2 (parsing_flags p Hm)).
    by apply (flushTagBuf_tells t).
  - assert (String.concat "" (c :: chunks) = c +:+ String.concat "" chunks) as ->
      by (destruct chunks; simpl; [by rewrite string_app_nil|done]).
    assert (cfull t (cview p) (c +:+ String.concat "" chunks) =
      (crun t (cview p) c).2 ++ cfull t (crun t (cview p) c).1 (String.concat "" chunks)) as ->.
    { rewrite !cfull_crun, crun_app. destruct (crun t (cview p) c) as [c1 o1]. simpl.
      destruct (crun t c1 _) as [c2 o2]. simpl. by rewrite app_assoc. }
    apply (tells_then t).
    + unfold Process. apply runs_gets. cbv beta.
      destruct (parsing_flags p Hm) as [-> ->].
      destruct c as [|a c]; [by apply does_ret|]. simpl Z.eqb. by apply processChunk_runs.
    + intros q Hq <- Hsm. apply IH; [done|]. by eapply parsing_same.
Qed.
End Runs.

(** The contents and the thinking of a text, as the segments say. *)
Definition told_text (t : ThinkTags) (s : string) : list (bool * Ascii.ascii) :=
  seg_chars (segments (String.length s) t s).

Abbreviation calm := (fun (_ : list event) (_ : event) => @None goerr).

Lemma think_stream_text clock m t chunks :
  good_tags t -> m = ThinkAlways \/ m = ThinkToggle ->
  let '(e, p) := stream calm clock chunks (NewThinkParser m t None) in
  e = None /\ chars (out p) = told_text t (String.concat "" chunks).
Proof.
  intros Ht Hm.
  assert (steady t (NewThinkParser m t None)) as Hs by by split.
  assert (parsing (NewThinkParser m t None)) as Hp by (destruct Hm as [->| ->]; unfold parsing; auto).
  pose proof (stream_parsing clock t chunks _ Hs Hp) as H. unfold tells in H.
  destruct (stream calm clock chunks _) as [e p]. destruct H as [-> ->].
  split; [done|]. simpl. unfold told_text. apply cfull_segments; [done|lia].
Qed.

(** ** Sniffing *)

(** What has been buffered when [ThinkAuto] decides: whole chunks, up to the one
    that completes an open tag or [sniffLimit] bytes. *)
Fixpoint sniffed (t : ThinkTags) (buf : string) (chunks : list string) : string :=
  match chunks with
  | [] => buf
  | c :: chunks =>
      if slen c =? 0 then sniffed t buf chunks
      else
        let buf := buf +:+ c in
        if (sniffLimit <=? slen buf) || contains buf (Open t) then buf else sniffed t buf chunks
  end.

Section Auto.
Context (clock : nat -> Z).

Lemma string_concat_cons (c : string) l : String.concat "" (c :: l) = c +:+ String.concat "" l.
Proof. destruct l; simpl; [by rewrite string_app_nil|done]. Qed.

Lemma marked_concat k c l :
  marked k (String.concat "" (c :: l)) = marked k c ++ marked k (String.concat "" l).
Proof. by rewrite string_concat_cons, marked_app. Qed.

Lemma passthrough t chunks p :
  steady t p -> mode p = ThinkNone -> cview p = (false, None) ->
  tells (stream calm clock chunks) p (marked false (String.concat "" chunks)).
Proof.
  revert p. induction chunks as [|c chunks IH]; intros p Hp Hm Hc; cbn [stream].
  - unfold Flush. apply tells_gets. cbv beta. rewrite Hm. simpl.
    change (@nil (bool * Ascii.ascii)) with (cflush (false, None)). rewrite <-Hc.
    by apply (flushTagBuf_tells clock t).
  - rewrite marked_concat.
    change (marked false c) with ((false, @None string, marked false c).2).
    apply (tells_then t).
    + unfold Process. apply runs_gets. cbv beta. rewrite Hm.
      destruct c as [|a c]; [unfold runs; cbn [fst snd]; rewrite <-Hc; by apply does_ret|].
      simpl Z.eqb. unfold runs. cbn [fst snd]. rewrite <-Hc. by apply does_onContent.
    + intros q Hq Hcq (Hmq & _). apply IH; [done|congruence|done].
Qed.

(** The state while sniffing. *)
Record sniffing (t : ThinkTags) (buf : string) (p : ThinkParser) : Prop := mkSniffing {
  sn_steady : steady t p;
  sn_mode : mode p = ThinkAuto /\ autoResolved p = false;
  sn_buf : sniffBuf p = buf;
  sn_view : cview p = (false, None);
}.

Definition auto_text (t : ThinkTags) (decided s : string) : list (bool * Ascii.ascii) :=
  if contains decided (Open t) then cfull t (false, None) s else marked false s.

(** Deciding on [buf], with [k] to follow. *)
Lemma decide_tells t buf p (m : M) s :
  sniffing t buf p ->
  (forall q, steady t q -> parsing q -> tells m q (cfull t (cview q) s)) ->
  (forall q, steady t q -> mode q = ThinkNone -> cview q = (false, None) -> tells m q (marked false s)) ->
  tells (resolveAuto calm clock ;;; m) p (auto_text t buf (buf +:+ s)).
Proof.
  intros [Hs [Hm Ha] Hb Hv] Hparse Hpass.
  pose proof (sd_tags t p Hs) as Ht. unfold auto_text.
  assert (steady t (set_mode ThinkAlways (set_sniff true "" p))) as Hs1 by (by destruct Hs).
  assert (steady t (set_mode ThinkNone (set_sniff true "" p))) as Hs2 by (by destruct Hs).
  unfold tells, andThen at 1, resolveAuto, gets. rewrite Hb, Ht.
  destruct (contains buf (Open t)).
  - change (tells (processChunk calm clock buf ;;; m) (set_mode ThinkAlways (set_sniff true "" p))
      (cfull t (false, None) (buf +:+ s))).
    pose proof (processChunk_runs clock t buf _ Hs1) as Hrun.
    assert (cview (set_mode ThinkAlways (set_sniff true "" p)) = (false, None)) as Hv1 by exact Hv.
    rewrite Hv1 in Hrun.
    assert (cfull t (false, None) (buf +:+ s) =
      (crun t (false, None) buf).2 ++ cfull t (crun t (false, None) buf).1 s) as ->.
    { rewrite !cfull_crun, crun_app. destruct (crun t (false, None) buf) as [c1 o1]. simpl.
      destruct (crun t c1 s). simpl. by rewrite app_assoc. }
    apply (tells_then t); [exact Hrun|]. intros q Hq <- Hsm. apply Hparse; [done|].
    eapply parsing_same; [exact Hsm|]. by left.
  - change (tells (onContent calm buf ;;; m) (set_mode ThinkNone (set_sniff true "" p))
      (marked false (buf +:+ s))).
    rewrite marked_app. change (marked false buf) with ((false, @None string, marked false buf).2).
    apply (tells_then t).
    + unfold runs. cbn [fst snd].
      replace (false, None) with (cview (set_mode ThinkNone (set_sniff true "" p))) by exact Hv.
      by apply does_onContent.
    + intros q Hq Hcq (Hmq & _). by apply Hpass.
Qed.

Lemma flush_sniffing t buf p :
  good_tags t -> sniffing t buf p -> tells (Flush calm clock) p (auto_text t buf buf).
Proof.
  intros [Ho _] [Hs [Hm Ha] Hb Hv]. pose proof (sd_tags t p Hs) as Ht. unfold auto_text, Flush.
  apply tells_gets. cbv beta. rewrite Hm, Ha, Hb, Ht. simpl.
  destruct (string_eqb buf "") eqn:He; cbn [negb].
  { apply bool_decide_eq_true in He. subst buf.
    destruct Ho as (t' & -> & _). rewrite He. unfold tells, modify. simpl. by rewrite app_nil_r. }
  destruct (contains buf (Open t)).
  - assert (steady t (set_sniff true "" (set_mode ThinkAlways p))) as Hs1 by (by destruct Hs).
    change (tells (processChunk calm clock buf ;;; flushTagBuf calm clock)
      (set_sniff true "" (set_mode ThinkAlways p)) (cfull t (false, None) buf)).
    rewrite cfull_crun. apply (tells_then t).
    + rewrite <-Hv. change (cview p) with (cview (set_sniff true "" (set_mode ThinkAlways p))).
      by apply processChunk_runs.
    + intros q Hq <- _. by apply (flushTagBuf_tells clock t).
  - assert (steady t (set_sniff true "" p)) as Hs2 by (by destruct Hs).
    change (tells (onContent calm buf) (set_sniff true "" p) (marked false buf)).
    apply (runs_tells t _ _ (cview (set_sniff true "" p), marked false buf)). by apply does_onContent.
Qed.

Lemma stream_sniffing t chunks buf p :
  good_tags t -> sniffing t buf p ->
  tells (stream calm clock chunks) p
    (auto_text t (sniffed t buf chunks) (buf +:+ String.concat "" chunks)).
Proof.
  intros Hg. revert buf p. induction chunks as [|c chunks IH]; intros buf p Hp; cbn [stream sniffed].
  { rewrite string_app_nil. by apply flush_sniffing. }
  rewrite string_concat_cons. destruct Hp as [Hs [Hm Ha] Hb Hv].
  destruct (slen c =? 0) eqn:Hc.
  { assert (c = "") as -> by (destruct c; [done|unfold slen in Hc; simpl in Hc; lia]).
    unfold tells, andThen, Process, gets. simpl. by apply IH. }
  unfold tells, andThen, Process, gets. rewrite Hc, Hm, Ha. simpl.
  set (p1 := set_sniff (autoResolved p) (sniffBuf p +:+ c) p).
  assert (sniffing t (buf +:+ c) p1) as Hp1.
  { split; [by destruct Hs|done|simpl; by rewrite Hb|done]. }
  assert (sniffBuf p1 = buf +:+ c) as Hb1 by apply Hp1.
  unfold processAutoSniff, andThen, modify, gets. fold p1. cbv beta. rewrite Hb1, (sd_tags t p1 (sn_steady _ _ _ Hp1)).
  rewrite <-string_app_assoc.
  assert (tells (resolveAuto calm clock ;;; stream calm clock chunks) p1
    (auto_text t (buf +:+ c) ((buf +:+ c) +:+ String.concat "" chunks))) as Hdec.
  { apply decide_tells; [done| |].
    - intros q Hq Hpq. by apply stream_parsing.
    - intros q Hq Hmq Hcq. by apply (passthrough t). }
  destruct (sniffLimit <=? slen (buf +:+ c)); simpl; [exact Hdec|].
  destruct (contains (buf +:+ c) (Open t)); simpl; [exact Hdec|].
  replace (if hasPartialTagPrefix (buf +:+ c) (Open t) then ret else ret) with ret
    by (by destruct (hasPartialTagPrefix _ _)).
  exact (IH (buf +:+ c) p1 Hp1).
Qed.
End Auto.

(** sniffing decides on whole chunks.  A parser in [ThinkAuto] mode tells its
    callbacks what a parser that looks for tags does when an open tag lies within
    the chunks it has buffered when it decides, and passes the whole text through
    as content otherwise: a tag that begins before [sniffLimit] bytes but ends in
    a later chunk is not seen. *)
Theorem think_auto clock t chunks :
  good_tags t ->
  let s := String.concat "" chunks in
  let '(e, p) := stream calm clock chunks (NewThinkParser ThinkAuto t None) in
  e = None /\
  chars (out p) = if contains (sniffed t "" chunks) (Open t) then told_text t s else marked false s.
Proof.
  intros Hg s. assert (sniffing t "" (NewThinkParser ThinkAuto t None)) as Hs by by repeat split.
  pose proof (stream_sniffing clock t chunks "" _ Hg Hs) as H. unfold tells in H.
  destruct (stream calm clock chunks _) as [e p]. destruct H as [-> ->]. split; [done|].
  simpl. unfold auto_text, told_text. by rewrite (cfull_segments (String.length s)) by (done || lia).
Qed.

(** What the callbacks should be told of the chunks of a response: without
    thinking the whole text is content; when tags are looked for, the text is
    split at its tags; an undecided parser does the one or the other. *)
Definition expected (m : ThinkMode) (t : ThinkTags) (chunks : list string) : list (bool * Ascii.ascii) :=
  let s := String.concat "" chunks in
  match m with
  | ThinkNone => marked false s
  | ThinkAlways | ThinkToggle => told_text t s
  | ThinkAuto => if contains (sniffed t "" chunks) (Open t) then told_text t s else marked false s
  end.

(** C20: how a response is cut into chunks does not matter to a parser whose mode
    is decided.  For tags that begin with '<' and hold no other, without a budget
    and with callbacks that do not fail, the parser fails nowhere and tells its
    callbacks, character by character and in order: in mode [ThinkNone] the whole
    text as content; in the modes [ThinkAlways] and [ThinkToggle] what splitting
    the whole text at the first open tag, the first close tag after it, and so on,
    gives, the tags themselves told to no one and a block that is never closed
    thinking to its end.  In mode [ThinkAuto] the cut matters once: the second
    holds when an open tag lies within the chunks buffered when it decides, the
    first otherwise. *)
Theorem think_chunking clock m t chunks :
  good_tags t ->
  let '(e, p) := stream calm clock chunks (NewThinkParser m t None) in
  e = None /\ chars (out p) = expected m t chunks.
Proof.
  intros Ht. destruct m.
  - pose proof (passthrough clock t chunks (NewThinkParser ThinkNone t None)) as H. unfold tells in H.
    destruct (stream calm clock chunks _) as [e p]. by apply H.
  - apply think_stream_text; auto.
  - apply think_stream_text; auto.
  - by apply think_auto.
Qed.

(** ** Streaming and extraction *)

(** The characters of one kind. *)
Definition of_kind (k : bool) (l : list (bool * Ascii.ascii)) : list Ascii.ascii :=
  map snd (filter (fun p => p.1 = k) l).

Lemma of_kind_app k l l' : of_kind k (l ++ l') = of_kind k l ++ of_kind k l'.
Proof. unfold of_kind. by rewrite filter_app, map_app. Qed.

Lemma of_kind_same k s : of_kind k (marked k s) = String.list_ascii_of_string s.
Proof.
  unfold of_kind. induction s as [|a s IH]; [done|]. simpl marked.
  rewrite filter_cons_True by done. simpl. by rewrite IH.
Qed.

Lemma of_kind_other k s : of_kind k (marked (negb k) s) = [].
Proof.
  unfold of_kind. induction s as [|a s IH]; [done|]. simpl marked.
  rewrite filter_cons_False by (by destruct k). exact IH.
Qed.

(** What precedes the block that is still open at the end, and the block. *)
Definition tail_parts (t : ThinkTags) (rest : string) : string * string :=
  match find (Open t) rest with
  | None => (rest, "")
  | Some (b, r) => (b, r)
  end.

Lemma list_ascii_app a b :
  String.list_ascii_of_string (a +:+ b) =
  String.list_ascii_of_string a ++ String.list_ascii_of_string b.
Proof. induction a as [|x a IH]; simpl; [done|]. by rewrite IH. Qed.

Lemma segments_matches t n s :
  good_tags t -> (String.length s <= n)%nat ->
  let '(ms, rest) := matches n t s in
  of_kind false (seg_chars (segments n t s)) =
    String.list_ascii_of_string (String.concat "" (map fst ms) +:+ (tail_parts t rest).1) /\
  of_kind true (seg_chars (segments n t s)) =
    String.list_ascii_of_string (String.concat "" (map snd ms) +:+ (tail_parts t rest).2).
Proof.
  intros Hg. destruct (Hg) as [Ho Hc].
  assert (find (Open t) "" = None) as Hnil.
  { destruct (find (Open t) "") as [[b r]|] eqn:Hf; [|done]. apply find_Some in Hf.
    destruct Ho as (t' & Ht & _). rewrite Ht in Hf. by destruct b. }
  revert s. induction n as [|n IH]; intros s Hn; cbn [matches segments].
  { destruct s; [|simpl in Hn; lia]. unfold tail_parts. by rewrite Hnil. }
  unfold tail_parts. destruct (find (Open t) s) as [[b r]|] eqn:Hf.
  2: { simpl. rewrite Hf, seg_chars_cons, app_nil_r, of_kind_same, (of_kind_other true). done. }
  destruct (find (Close t) r) as [[i r']|] eqn:Hf'.
  - assert (String.length r' <= n)%nat as Hlen by (apply find_length in Hf, Hf'; [lia|done..]).
    specialize (IH r' Hlen). destruct (matches n t r') as [ms rest]. unfold tail_parts in IH.
    destruct IH as [IHc IHt]. rewrite !seg_chars_cons, !of_kind_app, IHc, IHt, !of_kind_same.
    rewrite (of_kind_other false), (of_kind_other true). simpl map. rewrite !string_concat_cons.
    rewrite !string_app_assoc, !list_ascii_app. done.
  - rewrite Hf, !seg_chars_cons, !of_kind_app, !of_kind_same.
    rewrite (of_kind_other false), (of_kind_other true). simpl. unfold of_kind. simpl. by rewrite !app_nil_r.
Qed.

(** a response whose thinking blocks are all closed is told apart alike
    whether it is streamed, however it is cut, or extracted whole: the content
    told to the callback is the cleaned text, and the thinking told is the text
    of the extracted blocks, which extraction joins with line breaks and
    streaming does not. *)
Theorem stream_matches_extract clock t chunks :
  good_tags t ->
  let s := String.concat "" chunks in
  find (Open t) (matches (String.length s) t s).2 = None ->
  let evs := out (stream calm clock chunks (NewThinkParser ThinkAlways t None)).2 in
  let '(cleaned, thinking) := ExtractThinking s t in
  of_kind false (chars evs) = String.list_ascii_of_string cleaned /\
  exists blocks, thinking = String.concat NL blocks /\
    of_kind true (chars evs) = String.list_ascii_of_string (String.concat "" blocks).
Proof.
  intros Hg s Hclosed. pose proof (think_stream_text clock ThinkAlways t chunks Hg (or_introl eq_refl)) as H.
  destruct (stream calm clock chunks _) as [e p]. destruct H as [_ H]. simpl. rewrite H.
  unfold told_text. fold s. unfold ExtractThinking.
  pose proof (segments_matches t (String.length s) s Hg (le_n _)) as Hseg.
  destruct (matches (String.length s) t s) as [ms rest] eqn:Hm. unfold tail_parts in Hseg.
  cbn [snd] in Hclosed. rewrite Hclosed in Hseg. destruct Hseg as [-> ->]. simpl.
  rewrite string_app_nil.
  destruct (string_eqb s "") eqn:He.
  { apply bool_decide_eq_true in He. rewrite He in Hm. simpl in Hm. simplify_eq.
    split; [done|]. by exists []. }
  destruct ms as [|m ms].
  - assert (rest = s) as ->.
    { revert Hm. destruct (String.length s); simpl; [by intros [= ->]|].
      destruct (find (Open t) s) as [[b r]|]; [|by intros [= ->]].
      destruct (find (Close t) r) as [[i r']|]; [|by intros [= ->]].
      by destruct (matches n t r'). }
    split; [done|]. by exists [].
  - split; [done|]. by exists (map snd (m :: ms)).
Qed.

(** ** The theorems at concrete inputs *)

Definition DefaultThinkTags : ThinkTags := mkThinkTags "<think>" "</think>".

Lemma good_default : good_tags DefaultThinkTags.
Proof. split; eexists; (split; [reflexivity|]; split; [discriminate|reflexivity]). Defined.

Lemma think_chunking_witness :
  good_tags DefaultThinkTags /\
  told_text DefaultThinkTags "a<think>b</think>c" =
    marked false "a" ++ marked true "b" ++ marked false "c" /\
  chars (out (stream calm (fun _ => 5) ["a<th"; "ink"; ">b<"; "/think>"; "c"]
    (NewThinkParser ThinkAlways DefaultThinkTags None)).2) =
  told_text DefaultThinkTags "a<think>b</think>c".
Proof.
  split; [exact good_default|]. split; [vm_compute; reflexivity|].
  pose proof (think_chunking (fun _ => 5) ThinkAlways DefaultThinkTags
    ["a<th"; "ink"; ">b<"; "/think>"; "c"] good_default) as H.
  destruct (stream _ _ _ _) as [e p]. exact (proj2 H).
Defined.

(** The same text, cut so that the tag ends after the limit, or not. *)
Definition long_prefix : string := "0123456789012345678901234567890123456789012345678901234567890".

Lemma think_auto_witness :
  chars (out (stream calm (fun _ => 5) [long_prefix +:+ "<thi"; "nk>b</think>c"]
    (NewThinkParser ThinkAuto DefaultThinkTags None)).2) =
  marked false (long_prefix +:+ "<think>b</think>c") /\
  chars (out (stream calm (fun _ => 5) [long_prefix +:+ "<think>"; "b</think>c"]
    (NewThinkParser ThinkAuto DefaultThinkTags None)).2) =
  told_text DefaultThinkTags (long_prefix +:+ "<think>b</think>c").
Proof.
  split.
  - pose proof (think_auto (fun _ => 5) DefaultThinkTags [long_prefix +:+ "<thi"; "nk>b</think>c"]
      good_default) as H.
    destruct (stream _ _ _ _) as [e p]. exact (proj2 H).
  - pose proof (think_auto (fun _ => 5) DefaultThinkTags [long_prefix +:+ "<think>"; "b</think>c"]
      good_default) as H.
    destruct (stream _ _ _ _) as [e p]. exact (proj2 H).
Defined.

Lemma stream_matches_extract_witness :
  ExtractThinking "a<think>b</think>c<think>d</think>" DefaultThinkTags = ("ac", "b" +:+ NL +:+ "d") /\
  of_kind false (chars (out (stream calm (fun _ => 5) ["a<think>b</thi"; "nk>c<think>d</think>"]
    (NewThinkParser ThinkAlways DefaultThinkTags None)).2)) =
    String.list_ascii_of_string "ac".
Proof.
  split; [vm_compute; reflexivity|].
  assert (find (Open DefaultThinkTags)
    (matches 34 DefaultThinkTags "a<think>b</think>c<think>d</think>").2 = None) as Hc
    by (vm_compute; reflexivity).
  exact (proj1 (stream_matches_extract (fun _ => 5) DefaultThinkTags
    ["a<think>b</thi"; "nk>c<think>d</think>"] good_default Hc)).
Defined.
