(* ===== verification/Progressive.v ===== *)
(** * Progressive: allocating a render budget over sources (rag/progressive.go, rag/progressive_alloc.go)

    The allocator admits blocks of the sources against a token and a byte
    ceiling: pinned evidence, the floor, a base orientation for every source,
    then upgrades in retrieval order.  The sources the code shares by pointer
    are one list here, and an entry of a flattened list names its source by
    position.  The estimator is the request's. *)

From stdpp Require Import strings list gmap.
From S2P Require Import Prelude GoString GoFloat GoText Request ContextSets ProgressiveText.

#[local] Open Scope string_scope.
#[local] Open Scope Z_scope.
#[local] Open Scope go_scope.
#[local] Open Scope list_scope.

(** ** The request (progressive.go) *)

Record PinRef := mkPin { pin_Source : string; pin_ChunkID : string }.

#[export] Instance PinRef_eq_dec : EqDecision PinRef.
Proof. solve_decision. Defined.

Record RenderedEvidence := mkRendered {
  re_Source : string; re_ChunkID : string; re_StableKey : string; re_StartLine : Z; re_EndLine : Z; re_Score : float64
}.

(** A nil [Estimate] is [None]. *)
Record ProgressiveRenderRequest := mkRequest {
  Results : list SearchResult;
  MaxTokens : Z;
  MaxBytes : Z;
  MinFullResults : Z;
  MaxDepth : Z;
  Pinned : list PinRef;
  Estimate : option (string -> Z);
}.

(** Lengths are exact: no Go string has more bytes than an int counts. *)
Definition defaultEstimate (s : string) : Z := Z.quot (slen s +i 3) 4.

Definition DecisionCallerPinned : string := "caller_pinned".
Definition DecisionFloorReserved : string := "floor_reserved".
Definition DecisionRankUpgraded : string := "rank_upgraded".
Definition DecisionBudgetDemoted : string := "budget_demoted".
Definition DecisionSummaryMissing : string := "summary_missing".
Definition DecisionSummaryStale : string := "summary_stale".
Definition DecisionNoFit : string := "no_fit".

Inductive renderErr :=
| ErrMaxTokens | ErrMaxBytes | ErrMinFullResults | ErrMaxDepth | ErrBlankPin (i : nat)
| ErrPinnedOverflow (tokens bytes : Z)
| ErrTrimPinned (source chunk : string)
| ErrReader (id : nat).  (** an error of the store's batch reads *)

Fixpoint blankPin (i : nat) (pins : list PinRef) : option nat :=
  match pins with
  | [] => None
  | p :: pins => if string_eqb (pin_Source p) "" || string_eqb (pin_ChunkID p) "" then Some i
                 else blankPin (S i) pins
  end.

Definition validateProgressiveRequest (req : ProgressiveRenderRequest) : option renderErr :=
  if MaxTokens req <=? 0 then Some ErrMaxTokens
  else if MaxBytes req <=? 0 then Some ErrMaxBytes
  else if MinFullResults req <? 0 then Some ErrMinFullResults
  else if DepthL2 <? MaxDepth req then Some ErrMaxDepth
  else match blankPin 0 (Pinned req) with
       | Some i => Some (ErrBlankPin i)
       | None => None
       end.

(** ** Accounting (progressive_alloc.go) *)

Record allocState := mkAlloc {
  tokensUsed : Z;
  bytesUsed : Z;
  nonFitting : Z;
  omitted : Z;
  floorRequested : Z;
  floorRendered : Z;
  renderedSources : Z;
  unmatchedPins : list PinRef;
}.

Definition safeEstimate (estimate : option (string -> Z)) (s : string) : Z :=
  if string_eqb s "" then 0
  else match estimate with
       | Some f => if 0 <? f s then f s else defaultEstimate s
       | None => defaultEstimate s
       end.

Definition cheapestOrientation (src : progressiveSource) : orientationLevel :=
  if fresh (prep src) then orientationL0 else orientationMeta.

(** Field updates. *)
Definition set_orientation (o : orientationLevel) (s : progressiveSource) : progressiveSource :=
  mkSource (prep s) o (evidence s) (rejectedEvidence s) (pinnedEvidence s) (floorEvidence s) (costRejected s)
    (decisions s) (summaryBudgetOmitted s).
Definition set_evidence (e : list nat) (s : progressiveSource) : progressiveSource :=
  mkSource (prep s) (orientation s) e (rejectedEvidence s) (pinnedEvidence s) (floorEvidence s) (costRejected s)
    (decisions s) (summaryBudgetOmitted s).
Definition add_pinned (i : nat) (s : progressiveSource) : progressiveSource :=
  mkSource (prep s) (orientation s) (evidence s ++ [i]) (rejectedEvidence s) (pinnedEvidence s ++ [i])
    (floorEvidence s) (costRejected s) ({[DecisionCallerPinned]} ∪ decisions s) (summaryBudgetOmitted s).
Definition add_floor (i : nat) (s : progressiveSource) : progressiveSource :=
  mkSource (prep s) (orientation s) (evidence s ++ [i]) (rejectedEvidence s) (pinnedEvidence s)
    (floorEvidence s ++ [i]) (costRejected s) ({[DecisionFloorReserved]} ∪ decisions s) (summaryBudgetOmitted s).
Definition add_upgrade (i : nat) (s : progressiveSource) : progressiveSource :=
  mkSource (prep s) (orientation s) (evidence s ++ [i]) (rejectedEvidence s) (pinnedEvidence s)
    (floorEvidence s) (costRejected s) ({[DecisionRankUpgraded]} ∪ decisions s) (summaryBudgetOmitted s).
Definition reject (i : nat) (s : progressiveSource) : progressiveSource :=
  mkSource (prep s) (orientation s) (evidence s) (rejectedEvidence s ++ [i]) (pinnedEvidence s)
    (floorEvidence s) true (decisions s) (summaryBudgetOmitted s).
Definition set_costRejected (s : progressiveSource) : progressiveSource :=
  mkSource (prep s) (orientation s) (evidence s) (rejectedEvidence s) (pinnedEvidence s)
    (floorEvidence s) true (decisions s) (summaryBudgetOmitted s).
Definition decide_on (d : string) (s : progressiveSource) : progressiveSource :=
  mkSource (prep s) (orientation s) (evidence s) (rejectedEvidence s) (pinnedEvidence s)
    (floorEvidence s) (costRejected s) ({[d]} ∪ decisions s) (summaryBudgetOmitted s).
Definition set_budgetOmitted (b : bool) (s : progressiveSource) : progressiveSource :=
  mkSource (prep s) (orientation s) (evidence s) (rejectedEvidence s) (pinnedEvidence s)
    (floorEvidence s) (costRejected s) (decisions s) b.

Definition nonFit (st : allocState) : allocState :=
  mkAlloc (tokensUsed st) (bytesUsed st) (nonFitting st + 1) (omitted st) (floorRequested st)
    (floorRendered st) (renderedSources st) (unmatchedPins st).
Definition charge (tokens bytes : Z) (st : allocState) : allocState :=
  mkAlloc (tokensUsed st +i tokens) (bytesUsed st +i bytes) (nonFitting st) (omitted st) (floorRequested st)
    (floorRendered st) (renderedSources st) (unmatchedPins st).
Definition one_rendered (st : allocState) : allocState :=
  mkAlloc (tokensUsed st) (bytesUsed st) (nonFitting st) (omitted st) (floorRequested st)
    (floorRendered st) (renderedSources st + 1) (unmatchedPins st).
Definition one_omitted (st : allocState) : allocState :=
  mkAlloc (tokensUsed st) (bytesUsed st) (nonFitting st) (omitted st + 1) (floorRequested st)
    (floorRendered st) (renderedSources st) (unmatchedPins st).
Definition one_floor (st : allocState) : allocState :=
  mkAlloc (tokensUsed st) (bytesUsed st) (nonFitting st) (omitted st) (floorRequested st)
    (floorRendered st + 1) (renderedSources st) (unmatchedPins st).
Definition set_floorRequested (n : Z) (st : allocState) : allocState :=
  mkAlloc (tokensUsed st) (bytesUsed st) (nonFitting st) (omitted st) n
    (floorRendered st) (renderedSources st) (unmatchedPins st).

(** Stable sorting by a key: an element goes behind those with the same key. *)
Fixpoint insert_by {A} (key : A -> Z) (x : A) (l : list A) : list A :=
  match l with
  | [] => [x]
  | y :: l' => if key x <? key y then x :: l else y :: insert_by key x l'
  end.
Definition sort_by {A} (key : A -> Z) (l : list A) : list A := fold_left (fun acc x => insert_by key x acc) l [].

(** ** The allocator *)

Record flatResult := mkFlat { fr_src : nat; fr_idx : nat; fr_pos : Z }.

(** The allocator's accounting and the sources. *)
Record world := mkWorld { wst : allocState; srcs : list progressiveSource }.

(** An update of the source at [k]. *)
Definition upd (k : nat) (f : progressiveSource -> progressiveSource) (w : world) : world :=
  mkWorld (wst w) (alter f k (srcs w)).
Definition acct (f : allocState -> allocState) (w : world) : world := mkWorld (f (wst w)) (srcs w).

Section alloc.
Context (IsPrintWide : Z -> bool) (req : ProgressiveRenderRequest).

Definition cost (s : string) : Z := safeEstimate (Estimate req) s.

Definition separatorBytes (st : allocState) : Z := if renderedSources st =? 0 then 0 else 1.
Definition separatorTokens (st : allocState) : Z := if renderedSources st =? 0 then 0 else cost nl.

(** [admit]: whether the block is charged. *)
Definition admitBlock (tokens bytes : Z) (st : allocState) : bool * allocState :=
  if (MaxTokens req <? tokensUsed st +i tokens) || (MaxBytes req <? bytesUsed st +i bytes)
  then (false, nonFit st)
  else (true, charge tokens bytes st).

Definition orient (src : progressiveSource) (level : orientationLevel) : string :=
  orientationText IsPrintWide src level.

(** [evidenceText(src.results[i])]. *)
Definition evidenceAt (src : progressiveSource) (i : nat) : string :=
  match results (prep src) !! i with
  | Some res => evidenceText IsPrintWide res
  | None => ""
  end.

Definition maxDepth : Z := if MaxDepth req =? DepthInvalid then DepthL2 else MaxDepth req.

(** *** Step 2: pins *)

(** [bySource]: the last source of that name. *)
Fixpoint find_source (k : nat) (name : string) (l : list progressiveSource) : option nat :=
  match l with
  | [] => None
  | s :: l =>
      match find_source (S k) name l with
      | Some j => Some j
      | None => if string_eqb (source (prep s)) name then Some k else None
      end
  end.

Fixpoint find_chunk (i : nat) (id : string) (l : list SearchResult) : option nat :=
  match l with
  | [] => None
  | r :: l => if string_eqb (ID (res_Chunk r)) id then Some i else find_chunk (S i) id l
  end.

Definition pinTarget (l : list progressiveSource) (pin : PinRef) : option (nat * nat) :=
  if maxDepth =? DepthL2 then
    match find_source 0 (pin_Source pin) l with
    | Some k =>
        match l !! k with
        | Some s => match find_chunk 0 (pin_ChunkID pin) (results (prep s)) with
                    | Some i => Some (k, i)
                    | None => None
                    end
        | None => None
        end
    | None => None
    end
  else None.

(** The targets, and the pins without one. *)
Fixpoint resolvePins (l : list progressiveSource) (seenPins : list PinRef) (pins : list PinRef) :
    list (nat * nat) * list PinRef :=
  match pins with
  | [] => ([], [])
  | pin :: pins =>
      if bool_decide (pin ∈ seenPins) then resolvePins l seenPins pins
      else
        let '(targets, unmatched) := resolvePins l (pin :: seenPins) pins in
        match pinTarget l pin with
        | Some t => (t :: targets, unmatched)
        | None => (targets, pin :: unmatched)
        end
  end.

(** *** Step 3: the pinned blocks *)

Record reservation := mkReservation { r_tokens : Z; r_bytes : Z; r_sources : Z; r_seen : list string }.

Definition reserveOrientation (src : progressiveSource) (r : reservation) : reservation :=
  if bool_decide (source (prep src) ∈ r_seen r) then r
  else
    let o := orient src (cheapestOrientation src) in
    let t := r_tokens r +i cost o in
    let b := r_bytes r +i slen o in
    let '(t, b) := if 0 <? r_sources r then (t +i cost nl, b +i 1) else (t, b) in
    mkReservation t b (r_sources r + 1) (source (prep src) :: r_seen r).

Definition reservePin (l : list progressiveSource) (r : reservation) (pt : nat * nat) : reservation :=
  match l !! pt.1 with
  | None => r
  | Some src =>
      let r := reserveOrientation src r in
      let e := evidenceAt src pt.2 in
      mkReservation (r_tokens r +i cost e) (r_bytes r +i slen e) (r_sources r) (r_seen r)
  end.

Definition placeOrientation (k : nat) (src : progressiveSource) (w : world) : world :=
  if decide (orientation src = orientationNone) then
    let level := cheapestOrientation src in
    let o := orient src level in
    let st := wst w in
    acct one_rendered
      (upd k (set_orientation level)
        (acct (charge (cost o +i separatorTokens st) (slen o +i separatorBytes st)) w))
  else w.

Definition placePin (w : world) (pt : nat * nat) : world :=
  match srcs w !! pt.1 with
  | None => w
  | Some src =>
      let w := placeOrientation pt.1 src w in
      let e := evidenceAt src pt.2 in
      upd pt.1 (add_pinned pt.2) (acct (charge (cost e) (slen e)) w)
  end.

(** *** Step 4: the floor *)

Definition flat_of (keep : progressiveSource -> nat -> bool) (k : nat) (src : progressiveSource) : list flatResult :=
  map (fun i => mkFlat k i (default 0 (resultIdx (prep src) !! i)))
    (List.filter (keep src) (seq 0 (length (results (prep src))))).

Definition flatten (keep : progressiveSource -> nat -> bool) (l : list progressiveSource) : list flatResult :=
  sort_by fr_pos (concat (imap (flat_of keep) l)).

Definition containsInt (haystack : list nat) (needle : nat) : bool := bool_decide (needle ∈ haystack).

Definition floorStep (fr : flatResult) (src : progressiveSource) (w : world) : world :=
  let st := wst w in
  let unplaced := bool_decide (orientation src = orientationNone) in
  let o := orient src (cheapestOrientation src) in
  let c := if unplaced then 0 +i (cost o +i separatorTokens st) else 0 in
  let b := if unplaced then 0 +i (slen o +i separatorBytes st) else 0 in
  let e := evidenceAt src (fr_idx fr) in
  let '(ok, st) := admitBlock (c +i cost e) (b +i slen e) st in
  let w := mkWorld st (srcs w) in
  if negb ok then upd (fr_src fr) (reject (fr_idx fr)) w
  else
    let w := if unplaced
             then acct one_rendered (upd (fr_src fr) (set_orientation (cheapestOrientation src)) w)
             else w in
    acct one_floor (upd (fr_src fr) (add_floor (fr_idx fr)) w).

Fixpoint floorLoop (floor : Z) (flat : list flatResult) (w : world) : world :=
  match flat with
  | [] => w
  | fr :: flat =>
      if floor <=? floorRendered (wst w) then w
      else
        match srcs w !! fr_src fr with
        | None => floorLoop floor flat w
        | Some src =>
            if containsInt (evidence src) (fr_idx fr) then floorLoop floor flat w
            else floorLoop floor flat (floorStep fr src w)
        end
  end.

Definition floorPass (w : world) : world :=
  if maxDepth =? DepthL2 then
    let floor := if MinFullResults req =? 0 then 1 else MinFullResults req in
    floorLoop floor (flatten (fun _ _ => true) (srcs w)) (acct (set_floorRequested floor) w)
  else w.

(** *** Step 5: a base orientation for every remaining source *)

Definition baseSource (st : allocState) (src : progressiveSource) : allocState * progressiveSource :=
  if negb (bool_decide (orientation src = orientationNone)) then (st, src)
  else
    let level := cheapestOrientation src in
    let level := if (maxDepth =? DepthL0) && bool_decide (level = orientationL0L1) then orientationL0 else level in
    let o := orient src level in
    let '(ok, st) := admitBlock (cost o +i separatorTokens st) (slen o +i separatorBytes st) st in
    if ok then (one_rendered st, set_orientation level src)
    else
      let no_fit src := (one_omitted st, decide_on DecisionNoFit src) in
      if decide (level = orientationL0) then
        let marked := set_budgetOmitted true src in
        let fallback := orient marked orientationMeta in
        let '(ok, st) := admitBlock (cost fallback +i separatorTokens st) (slen fallback +i separatorBytes st) st in
        if ok then (one_rendered st, set_costRejected (set_orientation orientationMeta marked))
        else (one_omitted st, decide_on DecisionNoFit (set_budgetOmitted false marked))
      else no_fit src.

(** A loop over the sources in order. *)
Fixpoint walk (f : allocState -> progressiveSource -> allocState * progressiveSource) (st : allocState)
    (l : list progressiveSource) : allocState * list progressiveSource :=
  match l with
  | [] => (st, [])
  | src :: l =>
      let '(st, src) := f st src in
      let '(st, l) := walk f st l in
      (st, src :: l)
  end.

Definition over (f : allocState -> progressiveSource -> allocState * progressiveSource) (w : world) : world :=
  let '(st, l) := walk f (wst w) (srcs w) in mkWorld st l.

(** *** Step 6a: evidence upgrades *)

Definition upgradable (src : progressiveSource) (i : nat) : bool :=
  negb (bool_decide (orientation src = orientationNone)) &&
  negb (containsInt (evidence src) i || containsInt (rejectedEvidence src) i).

Definition upgradeStep (w : world) (fr : flatResult) : world :=
  match srcs w !! fr_src fr with
  | None => w
  | Some src =>
      let e := evidenceAt src (fr_idx fr) in
      let '(ok, st) := admitBlock (cost e) (slen e) (wst w) in
      upd (fr_src fr) (if ok then add_upgrade (fr_idx fr) else reject (fr_idx fr)) (mkWorld st (srcs w))
  end.

Definition upgradePass (w : world) : world :=
  if maxDepth =? DepthL2 then fold_left upgradeStep (flatten upgradable (srcs w)) w else w.

(** *** Step 6b: orientation upgrades *)

Definition deepenSource (st : allocState) (src : progressiveSource) : allocState * progressiveSource :=
  if negb (fresh (prep src)) || negb (bool_decide (orientation src = orientationL0)) then (st, src)
  else
    let oldText := orient src orientationL0 in
    let newText := orient src orientationL0L1 in
    let '(ok, st) := admitBlock (cost newText -i cost oldText) (slen newText -i slen oldText) st in
    if ok then (st, decide_on DecisionRankUpgraded (set_orientation orientationL0L1 src))
    else (st, set_costRejected src).

Definition deepenPass (w : world) : world := if DepthL1 <=? maxDepth then over deepenSource w else w.

(** *** The end *)

Definition sort_nats (l : list nat) : list nat := sort_by Z.of_nat l.

Definition finishSource (src : progressiveSource) : progressiveSource :=
  let src := set_evidence (sort_nats (evidence src)) src in
  if costRejected src && negb (bool_decide (orientation src = orientationNone))
  then decide_on DecisionBudgetDemoted src else src.

Definition allocate (sources : list progressiveSource) :
    result renderErr (allocState * list progressiveSource) :=
  let sources := sort_by (fun s => firstIndex (prep s)) sources in
  let '(pinTargets, unmatched) := resolvePins sources [] (Pinned req) in
  let pinned := fold_left (reservePin sources) pinTargets (mkReservation 0 0 0 []) in
  if (MaxTokens req <? r_tokens pinned) || (MaxBytes req <? r_bytes pinned)
  then Err (ErrPinnedOverflow (r_tokens pinned) (r_bytes pinned))
  else
    let w := mkWorld (mkAlloc 0 0 0 0 0 0 0 unmatched) sources in
    let w := fold_left placePin pinTargets w in
    let w := deepenPass (upgradePass (over baseSource (floorPass w))) in
    Ok (wst w, map finishSource (srcs w)).
End alloc.
