(* ===== verification/ProgressiveLedger.v ===== *)
(** * ProgressiveLedger: what the render allocator accounts for

    The totals of [Progressive.allocate] are what the admitted blocks cost with
    the separators between the sources, they stay within the ceilings, and
    nothing that was admitted is dropped; the pinned blocks cost what was
    reserved for them.  [B] bounds a block, so that no sum leaves an int. *)

From stdpp Require Import strings list gmap.
From S2P Require Import Prelude GoString GoFloat GoText Request ContextSets ProgressiveText Progressive.

#[local] Open Scope string_scope.
#[local] Open Scope Z_scope.
#[local] Open Scope go_scope.
#[local] Open Scope list_scope.

(** An update that leaves what is read by the texts. *)
Ltac keeps := split; [reflexivity|split; reflexivity].

(** ** What the accounting means

    The blocks a source emits, and what they cost with the separators between
    the sources that emit something. *)

Section usage.
Context (IsPrintWide : Z -> bool).
Notation orient := (orient IsPrintWide).
Notation evidenceAt := (evidenceAt IsPrintWide).

Definition placed (src : progressiveSource) : bool := negb (bool_decide (orientation src = orientationNone)).

Definition blocks (src : progressiveSource) : list string :=
  if placed src then orient src (orientation src) :: map (evidenceAt src) (evidence src) else [].

Definition source_use (c : string -> Z) (src : progressiveSource) : Z := Zsum (map c (blocks src)).
Definition rendered (l : list progressiveSource) : Z := Zsum (map (fun s => Z.b2z (placed s)) l).
Definition separators (n : Z) : Z := Z.max 0 (n - 1).
Definition usage (c : string -> Z) (sep : Z) (l : list progressiveSource) : Z :=
  Zsum (map (source_use c) l) + sep * separators (rendered l).

Lemma rendered_nonneg l : 0 <= rendered l.
Proof. apply Zsum_map_nonneg. intros s _. by destruct (placed s). Qed.

Lemma rendered_alter f l k src :
  l !! k = Some src -> rendered (alter f k l) = rendered l - Z.b2z (placed src) + Z.b2z (placed (f src)).
Proof. exact (Zsum_map_alter (fun s => Z.b2z (placed s)) f l k src). Qed.

Lemma rendered_pos l k src : l !! k = Some src -> placed src = true -> 0 < rendered l.
Proof.
  intros Hk Hp. revert k Hk. induction l as [|s l IH]; intros [|k] Hk; simplify_eq/=.
  - pose proof (rendered_nonneg l). unfold rendered in *. simpl. rewrite Hp. simpl. lia.
  - specialize (IH k Hk). unfold rendered in *. simpl. destruct (placed s); simpl; lia.
Qed.

(** A source that was placed already changes its blocks: no separator. *)
Lemma usage_same f l k src c sep :
  l !! k = Some src -> placed (f src) = placed src ->
  usage c sep (alter f k l) = usage c sep l - source_use c src + source_use c (f src).
Proof.
  intros Hk Hp. unfold usage. rewrite (rendered_alter f l k src Hk), Hp.
  rewrite (Zsum_map_alter (source_use c) f l k src Hk).
  replace (rendered l - _ + _) with (rendered l) by lia. lia.
Qed.

(** A source is placed: it pays for its separator unless it is the first. *)
Lemma usage_place f l k src c sep :
  l !! k = Some src -> placed src = false -> placed (f src) = true ->
  usage c sep (alter f k l) =
    usage c sep l + source_use c (f src) + (if rendered l =? 0 then 0 else sep).
Proof.
  intros Hk Hp Hf. unfold usage. rewrite (rendered_alter f l k src Hk), Hp, Hf.
  rewrite (Zsum_map_alter (source_use c) f l k src Hk).
  assert (source_use c src = 0) as -> by (unfold source_use, blocks; by rewrite Hp).
  pose proof (rendered_nonneg l). unfold separators. simpl.
  destruct (Z.eqb_spec (rendered l) 0) as [->|]; [simpl; lia|].
  replace (Z.max 0 _) with (Z.max 0 (rendered l - 1) + 1) by lia. lia.
Qed.
(** *** What an update does to the blocks *)

Definition keeps_text (src' src : progressiveSource) : Prop :=
  prep src' = prep src /\ orientation src' = orientation src /\
  summaryBudgetOmitted src' = summaryBudgetOmitted src.

Lemma evidenceAt_prep src src' i : prep src' = prep src -> evidenceAt src' i = evidenceAt src i.
Proof. intros H. unfold Progressive.evidenceAt. by rewrite H. Qed.

Lemma keeps_placed src src' : keeps_text src' src -> placed src' = placed src.
Proof. intros (_ & H & _). unfold placed. by rewrite H. Qed.

Lemma keeps_orient src src' : keeps_text src' src ->
  orient src' (orientation src') = orient src (orientation src).
Proof. intros (H1 & H2 & H3). unfold Progressive.orient, orientationText. by rewrite H1, H2, H3. Qed.

Lemma source_use_append c src src' i :
  placed src = true -> keeps_text src' src -> evidence src' = evidence src ++ [i] ->
  source_use c src' = source_use c src + c (evidenceAt src i).
Proof.
  intros Hp Hk He. unfold source_use, blocks. rewrite (keeps_placed _ _ Hk), Hp, (keeps_orient _ _ Hk), He.
  rewrite !map_cons, !map_app, !map_map. cbn [Zsum]. rewrite Zsum_app. cbn [map Zsum].
  rewrite (evidenceAt_prep src src' i (proj1 Hk)).
  rewrite (Zsum_map_ext (fun x => c (evidenceAt src' x)) (fun x => c (evidenceAt src x)));
    [lia|]. intros x _. by rewrite (evidenceAt_prep src src' x (proj1 Hk)).
Qed.

Lemma source_use_same c src src' :
  keeps_text src' src -> evidence src' = evidence src -> source_use c src' = source_use c src.
Proof.
  intros Hk He. unfold source_use, blocks. rewrite (keeps_placed _ _ Hk), He.
  destruct (placed src); [|done]. rewrite (keeps_orient _ _ Hk), !map_cons, !map_map. cbn [Zsum]. f_equal.
  apply Zsum_map_ext. intros x _. by rewrite (evidenceAt_prep src src' x (proj1 Hk)).
Qed.

(** What holds of every source between two steps. *)
Record Good (src : progressiveSource) : Prop := mkGood {
  no_orphan : placed src = false -> evidence src = [];
  honest : summaryBudgetOmitted src = true -> orientation src = orientationMeta;
  in_range : Forall (fun i => i < length (results (prep src)))%nat (evidence src);
}.

Lemma source_use_place c src level :
  Good src -> placed src = false -> level <> orientationNone ->
  source_use c (set_orientation level src) = c (orient src level) /\
  placed (set_orientation level src) = true.
Proof.
  intros [Hno _ _] Hp Hl. assert (placed (set_orientation level src) = true) as Hp'.
  { unfold placed. simpl. by rewrite bool_decide_eq_false_2. }
  split; [|done]. unfold source_use, blocks. rewrite Hp'. simpl. rewrite (Hno Hp). simpl.
  rewrite Z.add_0_r. done.
Qed.

Lemma Good_same src src' :
  keeps_text src' src -> evidence src' = evidence src -> Good src -> Good src'.
Proof.
  intros Hk He [H1 H2 H3]. pose proof (keeps_placed _ _ Hk) as Hp. destruct Hk as (Hk1 & Hk2 & Hk3).
  split; rewrite ?Hp, ?He, ?Hk1, ?Hk2, ?Hk3; done.
Qed.

Lemma Good_append src src' i :
  keeps_text src' src -> placed src = true -> evidence src' = evidence src ++ [i] ->
  (i < length (results (prep src)))%nat -> Good src -> Good src'.
Proof.
  intros Hk Hpl He Hi [H1 H2 H3]. pose proof (keeps_placed _ _ Hk) as Hp. destruct Hk as (Hk1 & Hk2 & Hk3).
  split; rewrite ?Hp, ?He, ?Hk1, ?Hk2, ?Hk3; [congruence|done|].
  apply Forall_app; split; [done|by constructor].
Qed.
End usage.

(** ** The ledger invariant *)

Section ledger.
Context (IsPrintWide : Z -> bool) (req : ProgressiveRenderRequest).
Notation orient := (orient IsPrintWide).
Notation evidenceAt := (evidenceAt IsPrintWide).
Notation cost := (cost req).
Notation source_use := (source_use IsPrintWide).
Notation usage := (usage IsPrintWide).

(** [B] bounds the length and the estimate of every block, so that no sum
    leaves the range of an int. *)
Context (B : Z).

Definition small (s : string) : Prop := slen s <= B /\ 0 <= cost s <= B.

Definition Fits (p : preparedSource) : Prop :=
  (forall level flag, small (orientationTextWithNote IsPrintWide p level flag)) /\
  (forall res, res ∈ results p -> small (evidenceText IsPrintWide res)).

Record BoundOK : Prop := mkBound {
  bound_pos : 1 <= B;
  bound_nl : small nl;
  bound_pins : 3 * B * len (Pinned req) <= MaxInt;
  bound_tokens : 0 <= MaxTokens req <= MaxInt - 4 * B;
  bound_bytes : 0 <= MaxBytes req <= MaxInt - 4 * B;
}.
Context (HB : BoundOK).

Lemma slen_nonneg s : 0 <= slen s.
Proof. unfold slen. lia. Qed.

Lemma orient_small src level : Fits (prep src) -> small (orient src level).
Proof. intros [H _]. apply H. Qed.

Lemma empty_small : small "".
Proof.
  pose proof (bound_pos HB). unfold small. change (slen "") with 0. change (cost "") with 0. lia.
Qed.

Lemma evidenceAt_small src i : Fits (prep src) -> small (evidenceAt src i).
Proof.
  intros [_ H]. unfold Progressive.evidenceAt. destruct (results (prep src) !! i) as [r|] eqn:E.
  - apply H. by eapply list_elem_of_lookup_2.
  - apply empty_small.
Qed.

(** The state of an allocation: the totals are what the blocks cost. *)
Record Ledger (st : allocState) (l : list progressiveSource) : Prop := mkLedger {
  led_tokens : tokensUsed st = usage cost (cost nl) l;
  led_bytes : bytesUsed st = usage slen 1 l;
  led_sources : renderedSources st = rendered l;
  led_good : Forall Good l;
  led_fits : Forall (fun s => Fits (prep s)) l;
}.

Record Within (st : allocState) : Prop := mkWithin {
  in_tokens : 0 <= tokensUsed st <= MaxTokens req;
  in_bytes : 0 <= bytesUsed st <= MaxBytes req;
}.

Lemma separator_costs st l : Ledger st l ->
  separatorTokens req st = (if rendered l =? 0 then 0 else cost nl) /\
  separatorBytes st = (if rendered l =? 0 then 0 else 1).
Proof. intros H. unfold separatorTokens, separatorBytes. by rewrite (led_sources _ _ H). Qed.

Lemma separator_small st : 0 <= separatorTokens req st <= B /\ 0 <= separatorBytes st <= 1.
Proof.
  unfold separatorTokens, separatorBytes. destruct (bound_nl HB). pose proof (bound_pos HB).
  destruct (_ =? 0); lia.
Qed.

Lemma admit_spec tokens bytes st :
  Within st -> Z.abs tokens <= 3 * B -> Z.abs bytes <= 3 * B ->
  admitBlock req tokens bytes st = (true, charge tokens bytes st) /\
    tokensUsed (charge tokens bytes st) = tokensUsed st + tokens /\
    bytesUsed (charge tokens bytes st) = bytesUsed st + bytes /\
    tokensUsed st + tokens <= MaxTokens req /\ bytesUsed st + bytes <= MaxBytes req \/
  admitBlock req tokens bytes st = (false, nonFit st).
Proof.
  intros [Ht Hb] HT HY. destruct (bound_tokens HB), (bound_bytes HB). pose proof (bound_pos HB).
  unfold admitBlock, charge. cbn [tokensUsed bytesUsed].
  rewrite !wrap_int_id by (unfold in_int, MinInt, MaxInt in *; lia).
  destruct (Z.ltb_spec (MaxTokens req) (tokensUsed st + tokens)); [by right|].
  destruct (Z.ltb_spec (MaxBytes req) (bytesUsed st + bytes)); [by right|]. left. split_and!; done || lia.
Qed.

(** The three ways a step changes the ledger. *)

Lemma Ledger_st st st' l :
  tokensUsed st' = tokensUsed st -> bytesUsed st' = bytesUsed st ->
  renderedSources st' = renderedSources st -> Ledger st l -> Ledger st' l.
Proof. intros H1 H2 H3 [? ? ? ? ?]. split; congruence. Qed.

Lemma Forall_alter_at {A} (P : A -> Prop) f (l : list A) k x :
  l !! k = Some x -> P (f x) -> Forall P l -> Forall P (alter f k l).
Proof.
  intros Hk Hf Hl. apply Forall_alter; [done|]. intros y Hy _. by rewrite Hk in Hy; simplify_eq.
Qed.

Lemma ledger_same st l k src f :
  Ledger st l -> l !! k = Some src -> keeps_text (f src) src -> evidence (f src) = evidence src ->
  Ledger st (alter f k l).
Proof.
  intros [H1 H2 H3 H4 H5] Hk Hf He.
  pose proof (keeps_placed _ _ Hf) as Hp. pose proof (Forall_lookup_1 _ _ _ _ H4 Hk) as Hg.
  split.
  - rewrite (usage_same IsPrintWide f l k src) by done.
    rewrite (source_use_same IsPrintWide _ src (f src)) by done. lia.
  - rewrite (usage_same IsPrintWide f l k src) by done.
    rewrite (source_use_same IsPrintWide _ src (f src)) by done. lia.
  - rewrite (rendered_alter f l k src) by done. rewrite Hp. lia.
  - apply (Forall_alter_at _ f l k src); [done|by eapply Good_same|done].
  - apply (Forall_alter_at _ f l k src); [done| |done]. rewrite (proj1 Hf).
    by apply (Forall_lookup_1 _ _ _ _ H5 Hk).
Qed.

Lemma ledger_change st st' l k src f :
  Ledger st l -> l !! k = Some src -> placed (f src) = placed src -> prep (f src) = prep src -> Good (f src) ->
  tokensUsed st' = tokensUsed st - source_use cost src + source_use cost (f src) ->
  bytesUsed st' = bytesUsed st - source_use slen src + source_use slen (f src) ->
  renderedSources st' = renderedSources st ->
  Ledger st' (alter f k l).
Proof.
  intros [H1 H2 H3 H4 H5] Hk Hp Hprep Hg Ht Hb Hr. split.
  - rewrite (usage_same IsPrintWide f l k src) by done. lia.
  - rewrite (usage_same IsPrintWide f l k src) by done. lia.
  - rewrite (rendered_alter f l k src) by done. rewrite Hp. lia.
  - by apply (Forall_alter_at _ f l k src).
  - apply (Forall_alter_at _ f l k src); [done| |done]. rewrite Hprep.
    by apply (Forall_lookup_1 _ _ _ _ H5 Hk).
Qed.

Lemma ledger_place st st' l k src f :
  Ledger st l -> l !! k = Some src -> placed src = false -> placed (f src) = true ->
  prep (f src) = prep src -> Good (f src) ->
  tokensUsed st' = tokensUsed st + (source_use cost (f src) + separatorTokens req st) ->
  bytesUsed st' = bytesUsed st + (source_use slen (f src) + separatorBytes st) ->
  renderedSources st' = renderedSources st + 1 ->
  Ledger st' (alter f k l).
Proof.
  intros HL Hk Hp Hp' Hprep Hg Ht Hb Hr. destruct (separator_costs st l HL) as [Es Eb].
  destruct HL as [H1 H2 H3 H4 H5]. rewrite Es in Ht. rewrite Eb in Hb. split.
  - rewrite (usage_place IsPrintWide f l k src) by done. lia.
  - rewrite (usage_place IsPrintWide f l k src) by done. lia.
  - rewrite (rendered_alter f l k src) by done. rewrite Hp, Hp'. simpl. lia.
  - by apply (Forall_alter_at _ f l k src).
  - apply (Forall_alter_at _ f l k src); [done| |done]. rewrite Hprep.
    by apply (Forall_lookup_1 _ _ _ _ H5 Hk).
Qed.
(** ** The steps keep the ledger *)

Lemma blocks_small src : Fits (prep src) -> Forall small (blocks IsPrintWide src).
Proof.
  intros HF. unfold blocks. destruct (placed src); [|done]. constructor; [by apply orient_small|].
  apply Forall_fmap, Forall_forall. intros i _. by apply evidenceAt_small.
Qed.

Lemma usage_nonneg l c sep :
  (forall s, small s -> 0 <= c s) -> 0 <= sep -> Forall (fun s => Fits (prep s)) l -> 0 <= usage c sep l.
Proof.
  intros Hc Hsep HF. unfold ProgressiveLedger.usage. assert (0 <= separators (rendered l)) by (unfold separators; lia).
  enough (0 <= Zsum (map (source_use c) l)) by nia. apply Zsum_map_nonneg. intros s Hs.
  rewrite Forall_forall in HF. unfold ProgressiveLedger.source_use. apply Zsum_map_nonneg. intros x Hx.
  apply Hc. pose proof (blocks_small s (HF s Hs)) as Hb. rewrite Forall_forall in Hb. by apply Hb.
Qed.

Definition OK (st : allocState) (l : list progressiveSource) : Prop := Ledger st l /\ Within st.

Lemma OK_intro st l :
  Ledger st l -> tokensUsed st <= MaxTokens req -> bytesUsed st <= MaxBytes req -> OK st l.
Proof.
  intros HL Ht Hb. split; [done|]. destruct HL as [H1 H2 _ _ H5]. destruct (bound_nl HB) as [_ ?].
  assert (0 <= usage cost (cost nl) l) by (apply usage_nonneg; [intros s Hs; apply Hs|lia|done]).
  assert (0 <= usage slen 1 l) by (apply usage_nonneg; [intros; apply slen_nonneg|lia|done]).
  split; lia.
Qed.

Lemma OK_acct st st' l :
  tokensUsed st' = tokensUsed st -> bytesUsed st' = bytesUsed st ->
  renderedSources st' = renderedSources st -> OK st l -> OK st' l.
Proof.
  intros Ht Hb Hr [HL HW]. split; [by eapply Ledger_st|]. destruct HW. split; congruence.
Qed.

Lemma OK_same st l k src f :
  OK st l -> l !! k = Some src -> keeps_text (f src) src -> evidence (f src) = evidence src ->
  OK st (alter f k l).
Proof. intros [HL HW] ? ? ?. split; [by eapply ledger_same|done]. Qed.

Lemma OK_lookup st l k src : OK st l -> l !! k = Some src -> Good src /\ Fits (prep src).
Proof.
  intros [HL _] Hk. split; [apply (Forall_lookup_1 _ _ _ _ (led_good _ _ HL) Hk)|
    apply (Forall_lookup_1 _ _ _ _ (led_fits _ _ HL) Hk)].
Qed.

(** An evidence block of a placed source is admitted. *)
Lemma OK_append st l k src f i c y :
  OK st l -> l !! k = Some src -> placed src = true -> keeps_text (f src) src ->
  evidence (f src) = evidence src ++ [i] -> (i < length (results (prep src)))%nat ->
  c = cost (evidenceAt src i) -> y = slen (evidenceAt src i) ->
  tokensUsed (charge c y st) = tokensUsed st + c -> bytesUsed (charge c y st) = bytesUsed st + y ->
  tokensUsed st + c <= MaxTokens req -> bytesUsed st + y <= MaxBytes req ->
  OK (charge c y st) (alter f k l).
Proof.
  intros HO Hk Hp Hf He Hi Hc Hy Et Eb Ht Hb. destruct (OK_lookup _ _ _ _ HO Hk) as [Hg _].
  apply OK_intro; [|lia|lia].
  apply (ledger_change st (charge c y st) l k src f (proj1 HO) Hk).
  - by apply keeps_placed.
  - apply Hf.
  - by eapply Good_append.
  - rewrite (source_use_append IsPrintWide _ src (f src) i) by done. lia.
  - rewrite (source_use_append IsPrintWide _ src (f src) i) by done. lia.
  - done.
Qed.

Lemma upgradeStep_OK w fr :
  OK (wst w) (srcs w) ->
  (forall src, srcs w !! fr_src fr = Some src -> placed src = true /\ (fr_idx fr < length (results (prep src)))%nat) ->
  OK (wst (upgradeStep IsPrintWide req w fr)) (srcs (upgradeStep IsPrintWide req w fr)).
Proof.
  intros HO Hfr. unfold upgradeStep. destruct (srcs w !! fr_src fr) as [src|] eqn:Hk; [|done].
  destruct (Hfr src eq_refl) as [Hp Hi]. destruct (OK_lookup _ _ _ _ HO Hk) as [_ HF].
  destruct (evidenceAt_small src (fr_idx fr) HF) as [Hs Hc]. pose proof (bound_pos HB).
  pose proof (slen_nonneg (evidenceAt src (fr_idx fr))).
  destruct (admit_spec (cost (evidenceAt src (fr_idx fr))) (slen (evidenceAt src (fr_idx fr))) (wst w))
    as [(-> & Et & Eb & Ht & Hb)| ->]; [apply HO|lia|lia| |]; cbn [upd wst srcs].
  - apply (OK_append _ _ _ src _ (fr_idx fr)); done || keeps.
  - apply (OK_same _ _ _ src); [|done|keeps|done]. by apply (OK_acct (wst w)).
Qed.
Lemma alter_twice {A} (f g : A -> A) k (l : list A) : alter f k (alter g k l) = alter (fun x => f (g x)) k l.
Proof. revert k. induction l as [|x l IH]; intros [|k]; try done. simpl. f_equal. apply IH. Qed.

Lemma small_wrap x : Z.abs x <= 4 * B -> wrap_int x = x.
Proof.
  intros Hx. destruct (bound_tokens HB). pose proof (bound_pos HB). apply wrap_int_id.
  unfold in_int, MinInt, MaxInt in *. lia.
Qed.

Lemma cheapest_not_none src : cheapestOrientation src <> orientationNone.
Proof. unfold cheapestOrientation. by destruct (fresh (prep src)). Qed.

Lemma not_placed src : placed src = false -> orientation src = orientationNone.
Proof. unfold placed. intros H%negb_false_iff%bool_decide_eq_true. done. Qed.

Lemma placed_decide src : bool_decide (orientation src = orientationNone) = negb (placed src).
Proof. unfold placed. by rewrite negb_involutive. Qed.

(** A source is placed at a level; its flag is not the fallback's. *)
Lemma Good_place src level :
  Good src -> placed src = false -> level <> orientationNone -> Good (set_orientation level src).
Proof.
  intros [H1 H2 H3] Hp Hl. split; simpl.
  - intros Hc. unfold placed in Hc. simpl in Hc. by rewrite bool_decide_eq_false_2 in Hc.
  - intros Hf. specialize (H2 Hf). rewrite (not_placed src Hp) in H2. done.
  - done.
Qed.

Lemma admit_place src level st :
  Within st -> Fits (prep src) ->
  let t := cost (orient src level) +i separatorTokens req st in
  let b := slen (orient src level) +i separatorBytes st in
  t = cost (orient src level) + separatorTokens req st /\ b = slen (orient src level) + separatorBytes st /\
  0 <= t <= 2 * B /\ 0 <= b <= 2 * B.
Proof.
  intros HW HF. destruct (orient_small src level HF) as [Hs Hc]. pose proof (slen_nonneg (orient src level)).
  destruct (separator_small st). pose proof (bound_pos HB). simpl. rewrite !small_wrap by lia. lia.
Qed.

Lemma floorStep_OK w fr src :
  OK (wst w) (srcs w) -> srcs w !! fr_src fr = Some src -> (fr_idx fr < length (results (prep src)))%nat ->
  OK (wst (floorStep IsPrintWide req fr src w)) (srcs (floorStep IsPrintWide req fr src w)).
Proof.
  intros HO Hk Hi. destruct (OK_lookup _ _ _ _ HO Hk) as [HG HF]. pose proof (bound_pos HB).
  destruct (evidenceAt_small src (fr_idx fr) HF) as [Hs Hc].
  pose proof (slen_nonneg (evidenceAt src (fr_idx fr))).
  unfold floorStep. rewrite placed_decide. set (st := wst w) in *. set (level := cheapestOrientation src).
  destruct (admit_place src level st (proj2 HO) HF) as (Et & Eb & Ht & Hb).
  set (c := if negb (placed src) then _ else 0). set (b := if negb (placed src) then _ else 0).
  set (i := fr_idx fr) in *. set (e := evidenceAt src i) in *.
  assert (c = (if placed src then 0 else cost (orient src level) + separatorTokens req st) /\
          b = (if placed src then 0 else slen (orient src level) + separatorBytes st) /\
          0 <= c <= 2 * B /\ 0 <= b <= 2 * B) as (Ec & Eb' & Hc' & Hb').
  { subst c b. destruct (placed src); simpl; [lia|]. rewrite Et, Eb in *. rewrite !small_wrap by lia. lia. }
  rewrite !small_wrap by lia.
  destruct (admit_spec (c + cost e) (b + slen e) st) as [(-> & Ect & Ebt & Hmt & Hmb)| ->];
    [apply HO|lia|lia| |]; cbn [negb upd acct wst srcs].
  - destruct (placed src) eqn:Hp; cbn [negb upd acct wst srcs].
    + apply (OK_acct (charge (c + cost e) (b + slen e) st)); [done|done|done|]. rewrite Ec, Eb' in *.
      apply (OK_append _ _ _ src _ i); done || keeps.
    + rewrite alter_twice.
      destruct (source_use_place IsPrintWide cost src level HG Hp (cheapest_not_none src)) as [Eu Hp'].
      destruct (source_use_place IsPrintWide slen src level HG Hp (cheapest_not_none src)) as [Eu' _].
      set (st' := charge _ _ st) in *.
      apply OK_intro; [|change (tokensUsed st' <= MaxTokens req); lia|change (bytesUsed st' <= MaxBytes req); lia].
      apply (ledger_place st _ _ _ src); try done; [apply HO| | |].
      * eapply (Good_append (set_orientation level src)); [keeps|done|done|done|].
        by apply Good_place; [|done|apply cheapest_not_none].
      * rewrite (source_use_append IsPrintWide cost (set_orientation level src) _ i);
          [|done|keeps|done]. rewrite Eu.
        change (tokensUsed st' = tokensUsed st + (cost (orient src level) + cost (evidenceAt (set_orientation level src) i) +
          separatorTokens req st)).
        change (evidenceAt (set_orientation level src) i) with e. lia.
      * rewrite (source_use_append IsPrintWide slen (set_orientation level src) _ i);
          [|done|keeps|done]. rewrite Eu'.
        change (bytesUsed st' = bytesUsed st + (slen (orient src level) + slen (evidenceAt (set_orientation level src) i) +
          separatorBytes st)).
        change (evidenceAt (set_orientation level src) i) with e. lia.
  - apply (OK_same _ _ _ src); [|done|keeps|done]. by apply (OK_acct st).
Qed.
(** A placed source: what the caller charged is what the ledger wants. *)
Lemma OK_place st l k src src' level t y :
  OK st l -> l !! k = Some src -> placed src = false -> placed src' = true -> prep src' = prep src ->
  Good src' -> evidence src' = evidence src -> orientation src' = level ->
  t = cost (orient src' level) + separatorTokens req st ->
  y = slen (orient src' level) + separatorBytes st ->
  tokensUsed (charge t y st) = tokensUsed st + t -> bytesUsed (charge t y st) = bytesUsed st + y ->
  tokensUsed st + t <= MaxTokens req -> bytesUsed st + y <= MaxBytes req ->
  OK (one_rendered (charge t y st)) (alter (fun _ => src') k l).
Proof.
  intros HO Hk Hp Hp' Hprep Hg He Hl Ht Hy Et Ey Hmt Hmy. destruct (OK_lookup _ _ _ _ HO Hk) as [HG _].
  assert (forall c, source_use c src' = c (orient src' level)) as Hu.
  { intros c. unfold ProgressiveLedger.source_use, blocks. rewrite Hp', He, (no_orphan _ HG Hp), Hl. simpl. lia. }
  set (st' := charge t y st) in *.
  apply OK_intro; [|change (tokensUsed st' <= MaxTokens req); lia|change (bytesUsed st' <= MaxBytes req); lia].
  apply (ledger_place st _ l k src (fun _ => src') (proj1 HO)); try done; rewrite Hu.
  - change (tokensUsed st' = tokensUsed st + (cost (orient src' level) + separatorTokens req st)). lia.
  - change (bytesUsed st' = bytesUsed st + (slen (orient src' level) + separatorBytes st)). lia.
Qed.

Lemma base_level src :
  (if (maxDepth req =? DepthL0) && bool_decide (cheapestOrientation src = orientationL0L1) then orientationL0
   else cheapestOrientation src) = cheapestOrientation src.
Proof.
  unfold cheapestOrientation. by destruct (fresh (prep src)); rewrite bool_decide_eq_false_2, andb_false_r.
Qed.

Lemma honest_unplaced src : Good src -> placed src = false -> summaryBudgetOmitted src = false.
Proof.
  intros HG Hp. destruct (summaryBudgetOmitted src) eqn:E; [|done].
  apply (honest _ HG) in E. by rewrite (not_placed src Hp) in E.
Qed.

Lemma OK_same_to st l k src src' :
  OK st l -> l !! k = Some src -> keeps_text src' src -> evidence src' = evidence src ->
  OK st (alter (fun _ => src') k l).
Proof. intros. by apply (OK_same _ _ _ src). Qed.

Lemma alter_id_at {A} k (l : list A) x : l !! k = Some x -> alter (fun _ => x) k l = l.
Proof. revert k. induction l as [|y l IH]; intros [|k] Hk; simplify_eq/=; [done|]. by rewrite IH. Qed.

Lemma baseSource_OK st l k src :
  OK st l -> l !! k = Some src ->
  OK (baseSource IsPrintWide req st src).1 (alter (fun _ => (baseSource IsPrintWide req st src).2) k l).
Proof.
  intros HO Hk. destruct (OK_lookup _ _ _ _ HO Hk) as [HG HF]. pose proof (bound_pos HB).
  unfold baseSource. rewrite placed_decide, negb_involutive.
  destruct (placed src) eqn:Hp; [simpl; by rewrite alter_id_at|]. rewrite base_level.
  set (level := cheapestOrientation src).
  destruct (admit_place src level st (proj2 HO) HF) as (Et & Eb & Ht & Hb).
  set (t := cost (orient src level) +i separatorTokens req st) in *.
  set (b := slen (orient src level) +i separatorBytes st) in *.
  destruct (admit_spec t b st (proj2 HO) ltac:(lia) ltac:(lia)) as [(-> & Ect & Ebt & Hmt & Hmb)| ->].
  - apply (OK_place _ _ _ src _ level); try done; [|by apply Good_place; [|done|apply cheapest_not_none]].
    by apply (source_use_place IsPrintWide slen src level HG Hp (cheapest_not_none src)).
  - assert (OK (nonFit st) l) as HO' by (by apply (OK_acct st)).
    destruct (decide (level = orientationL0)); [|apply (OK_same_to _ _ _ src); [by apply (OK_acct st)|done|keeps|done]].
    set (marked := set_budgetOmitted true src).
    destruct (admit_place marked orientationMeta (nonFit st) (proj2 HO') HF) as (Et' & Eb' & Ht' & Hb').
    set (t' := cost (orient marked orientationMeta) +i separatorTokens req (nonFit st)) in *.
    set (b' := slen (orient marked orientationMeta) +i separatorBytes (nonFit st)) in *.
    destruct (admit_spec t' b' (nonFit st) (proj2 HO') ltac:(lia) ltac:(lia)) as [(-> & Ect & Ebt & Hmt & Hmb)| ->].
    + apply (OK_place _ _ _ src _ orientationMeta); try done.
      split; simpl; [done|done|apply (in_range _ HG)].
    + apply (OK_same_to _ _ _ src); [by apply (OK_acct st)|done| |done].
      split; [done|split; [done|]]. simpl. by rewrite honest_unplaced.
Qed.

Lemma deepenSource_OK st l k src :
  OK st l -> l !! k = Some src ->
  OK (deepenSource IsPrintWide req st src).1 (alter (fun _ => (deepenSource IsPrintWide req st src).2) k l).
Proof.
  intros HO Hk. destruct (OK_lookup _ _ _ _ HO Hk) as [HG HF]. pose proof (bound_pos HB).
  unfold deepenSource. destruct (negb (fresh (prep src)) || _) eqn:E; [simpl; by rewrite alter_id_at|].
  to_prop. destruct (orient_small src orientationL0 HF), (orient_small src orientationL0L1 HF).
  pose proof (slen_nonneg (orient src orientationL0)). pose proof (slen_nonneg (orient src orientationL0L1)).
  set (old := orient src orientationL0) in *. set (new := orient src orientationL0L1) in *.
  assert (cost new -i cost old = cost new - cost old /\ slen new -i slen old = slen new - slen old) as [-> ->]
    by (rewrite !small_wrap by lia; done).
  destruct (admit_spec (cost new - cost old) (slen new - slen old) st (proj2 HO) ltac:(lia) ltac:(lia))
    as [(-> & Ect & Ebt & Hmt & Hmb)| ->].
  - set (src' := decide_on _ _). assert (placed src = true /\ placed src' = true) as [Hp Hp'].
    { unfold placed. simpl. rewrite H1. done. }
    assert (forall c, source_use c src' = source_use c src - c old + c new) as Hu.
    { intros c. unfold ProgressiveLedger.source_use, blocks. rewrite Hp, Hp', H1. simpl map. cbn [Zsum].
      change (orient src' orientationL0L1) with new. fold old.
      change (map (evidenceAt src') (evidence src)) with (map (evidenceAt src) (evidence src)). lia. }
    apply OK_intro; [|simpl fst; lia|simpl fst; lia].
    apply (ledger_change st _ l k src (fun _ => src') (proj1 HO)); try done.
    + split; simpl; [done| |apply (in_range _ HG)]. intros Hf%(honest _ HG). congruence.
    + rewrite Hu. simpl fst. lia.
    + rewrite Hu. simpl fst. lia.
  - apply (OK_same_to _ _ _ src); [by apply (OK_acct st)|done|keeps|done].
Qed.
(** ** The passes keep the ledger *)

Lemma alter_middle {A} (f : A -> A) pre x post :
  alter f (length pre) (pre ++ x :: post) = pre ++ f x :: post.
Proof. induction pre as [|y pre IH]; [done|]. simpl. f_equal. apply IH. Qed.

Lemma walk_OK f pre l st :
  (forall st l k src, OK st l -> l !! k = Some src -> OK (f st src).1 (alter (fun _ => (f st src).2) k l)) ->
  OK st (pre ++ l) -> OK (walk f st l).1 (pre ++ (walk f st l).2).
Proof.
  intros Hf. revert pre st. induction l as [|src l IH]; intros pre st HO; [done|].
  simpl. specialize (Hf st (pre ++ src :: l) (length pre) src HO (list_lookup_middle pre l src _ eq_refl)).
  rewrite alter_middle in Hf. destruct (f st src) as [st1 src1]. cbn [fst snd] in Hf.
  specialize (IH (pre ++ [src1]) st1). rewrite <-!app_assoc in IH. specialize (IH Hf).
  destruct (walk f st1 l) as [st2 l2]. exact IH.
Qed.

Lemma over_OK f w :
  (forall st l k src, OK st l -> l !! k = Some src -> OK (f st src).1 (alter (fun _ => (f st src).2) k l)) ->
  OK (wst w) (srcs w) -> OK (wst (over f w)) (srcs (over f w)).
Proof.
  intros Hf HO. pose proof (walk_OK f [] (srcs w) (wst w) Hf HO) as H.
  unfold over. by destruct (walk f (wst w) (srcs w)).
Qed.

Lemma insert_by_perm {A} (key : A -> Z) x l : insert_by key x l ≡ₚ x :: l.
Proof.
  induction l as [|y l IH]; [done|]. simpl. destruct (key x <? key y); [done|].
  rewrite IH. apply Permutation_swap.
Qed.

Lemma sort_by_perm {A} (key : A -> Z) (l : list A) : sort_by key l ≡ₚ l.
Proof.
  unfold sort_by. assert (forall acc, fold_left (fun acc x => insert_by key x acc) l acc ≡ₚ acc ++ l) as H.
  { induction l as [|x l IH]; intros acc; simpl; [by rewrite app_nil_r|].
    rewrite IH, insert_by_perm. cbn [app]. by rewrite Permutation_middle. }
  apply (H []).
Qed.

Lemma elem_flatten keep l fr :
  fr ∈ flatten keep l -> exists src, l !! fr_src fr = Some src /\
    (fr_idx fr < length (results (prep src)))%nat /\ keep src (fr_idx fr) = true.
Proof.
  unfold flatten. rewrite sort_by_perm. intros H.
  apply list_elem_of_In, in_concat in H as (x & Hx%list_elem_of_In & Hfr).
  apply elem_of_lookup_imap in Hx as (k & src & -> & Hk). unfold flat_of in Hfr.
  apply in_map_iff in Hfr as (i & <- & Hi). apply filter_In in Hi as [Hi Hkeep].
  apply in_seq in Hi. exists src. simpl. split_and!; [done|lia|done].
Qed.

Definition preps (l : list progressiveSource) : list preparedSource := map prep l.

Lemma preps_alter f k l : (forall s, prep (f s) = prep s) -> preps (alter f k l) = preps l.
Proof.
  intros Hf. revert k. induction l as [|s l IH]; intros [|k]; simpl; [done|done|by rewrite Hf|].
  f_equal. apply IH.
Qed.

(** The entry names a result. *)
Definition flat_ok (ps : list preparedSource) (fr : flatResult) : Prop :=
  exists p, ps !! fr_src fr = Some p /\ (fr_idx fr < length (results p))%nat.

Lemma flatten_ok keep l : Forall (flat_ok (preps l)) (flatten keep l).
Proof.
  apply Forall_forall. intros fr (src & Hk & Hi & _)%elem_flatten. exists (prep src).
  unfold preps. by rewrite list_lookup_fmap, Hk.
Qed.

Lemma flat_ok_lookup l fr src :
  flat_ok (preps l) fr -> l !! fr_src fr = Some src -> (fr_idx fr < length (results (prep src)))%nat.
Proof. intros (p & Hp & Hi) Hk. unfold preps in Hp. rewrite list_lookup_fmap, Hk in Hp. by simplify_eq/=. Qed.

Lemma floorStep_preps fr src w : preps (srcs (floorStep IsPrintWide req fr src w)) = preps (srcs w).
Proof.
  unfold floorStep. destruct (admitBlock _ _ _ _) as [ok st]. destruct ok; cbn [negb upd acct srcs].
  - destruct (bool_decide _); cbn [upd acct srcs]; rewrite ?preps_alter; done.
  - by rewrite preps_alter.
Qed.

Lemma floorLoop_OK floor flat w :
  Forall (flat_ok (preps (srcs w))) flat -> OK (wst w) (srcs w) ->
  OK (wst (floorLoop IsPrintWide req floor flat w)) (srcs (floorLoop IsPrintWide req floor flat w)) /\
  preps (srcs (floorLoop IsPrintWide req floor flat w)) = preps (srcs w).
Proof.
  revert w. induction flat as [|fr flat IH]; intros w Hf HO; [done|]. simpl.
  apply Forall_cons in Hf as [Hfr Hf].
  destruct (floor <=? floorRendered (wst w)); [done|].
  destruct (srcs w !! fr_src fr) as [src|] eqn:Hk; [|by apply IH].
  destruct (containsInt (evidence src) (fr_idx fr)); [by apply IH|].
  rewrite <-(floorStep_preps fr src w) in Hf |- *. apply IH; [done|].
  apply floorStep_OK; [done|done|by eapply flat_ok_lookup].
Qed.

Lemma floorPass_OK w :
  OK (wst w) (srcs w) -> OK (wst (floorPass IsPrintWide req w)) (srcs (floorPass IsPrintWide req w)).
Proof.
  intros HO. unfold floorPass. destruct (maxDepth req =? DepthL2); [|done].
  apply floorLoop_OK; [apply flatten_ok|by apply (OK_acct (wst w))].
Qed.

Definition view (s : progressiveSource) : preparedSource * orientationLevel := (prep s, orientation s).

Lemma view_alter f k l : (forall s, view (f s) = view s) -> map view (alter f k l) = map view l.
Proof.
  intros Hf. revert k. induction l as [|s l IH]; intros [|k]; simpl; [done|done|by rewrite Hf|].
  f_equal. apply IH.
Qed.

(** An entry of step 6a: a result of a placed source. *)
Definition entry_ok (vs : list (preparedSource * orientationLevel)) (fr : flatResult) : Prop :=
  exists p o, vs !! fr_src fr = Some (p, o) /\ o <> orientationNone /\ (fr_idx fr < length (results p))%nat.

Lemma upgradeStep_view w fr : map view (srcs (upgradeStep IsPrintWide req w fr)) = map view (srcs w).
Proof.
  unfold upgradeStep. destruct (srcs w !! fr_src fr) as [src|]; [|done].
  destruct (admitBlock _ _ _ _) as [ok st]. cbn [upd srcs]. apply view_alter. by destruct ok.
Qed.

Lemma upgradePass_OK w :
  OK (wst w) (srcs w) -> OK (wst (upgradePass IsPrintWide req w)) (srcs (upgradePass IsPrintWide req w)).
Proof.
  intros HO. unfold upgradePass. destruct (maxDepth req =? DepthL2); [|done].
  assert (Forall (entry_ok (map view (srcs w))) (flatten upgradable (srcs w))) as Hf.
  { apply Forall_forall. intros fr (src & Hk & Hi & Hkeep)%elem_flatten.
    apply andb_true_iff in Hkeep as [Ho _]. apply negb_true_iff, bool_decide_eq_false in Ho.
    exists (prep src), (orientation src). by rewrite list_lookup_fmap, Hk. }
  remember (flatten upgradable (srcs w)) as flat eqn:E. clear E. revert w HO Hf.
  induction flat as [|fr flat IH]; intros w HO Hf; [done|]. simpl. apply Forall_cons in Hf as [Hfr Hf].
  rewrite <-(upgradeStep_view w fr) in Hf. apply IH; [|done].
  apply upgradeStep_OK; [done|]. intros src Hk. destruct Hfr as (p & o & Hp & Ho & Hi).
  rewrite list_lookup_fmap, Hk in Hp. unfold view in Hp. simplify_eq/=. split; [|done].
  unfold placed. by rewrite bool_decide_eq_false_2.
Qed.

Lemma deepenPass_OK w :
  OK (wst w) (srcs w) -> OK (wst (deepenPass IsPrintWide req w)) (srcs (deepenPass IsPrintWide req w)).
Proof.
  intros HO. unfold deepenPass. destruct (DepthL1 <=? maxDepth req); [|done].
  apply over_OK; [|done]. intros. by apply deepenSource_OK.
Qed.

Lemma passes_OK w :
  OK (wst w) (srcs w) ->
  let w' := deepenPass IsPrintWide req (upgradePass IsPrintWide req
              (over (baseSource IsPrintWide req) (floorPass IsPrintWide req w))) in
  OK (wst w') (srcs w').
Proof.
  intros HO. apply deepenPass_OK, upgradePass_OK, over_OK; [|by apply floorPass_OK].
  intros. by apply baseSource_OK.
Qed.
(** ** The pinned blocks cost what was reserved for them *)

Section pins.
Context (l0 : list progressiveSource) (Hnodup : NoDup (map (fun s => source (prep s)) l0)).

(** The reservation and the charges run in step; [T] bounds both sums. *)
Record Paired (T : Z) (r : reservation) (w : world) : Prop := mkPaired {
  pa_ledger : Ledger (wst w) (srcs w);
  pa_preps : preps (srcs w) = preps l0;
  pa_flags : Forall (fun s => summaryBudgetOmitted s = false) (srcs w);
  pa_tokens : r_tokens r = tokensUsed (wst w);
  pa_bytes : r_bytes r = bytesUsed (wst w);
  pa_sources : r_sources r = renderedSources (wst w);
  pa_seen : forall k s, srcs w !! k = Some s -> (source (prep s) ∈ r_seen r <-> placed s = true);
  pa_bound : 0 <= tokensUsed (wst w) <= T /\ 0 <= bytesUsed (wst w) <= T;
}.

Lemma same_text src src0 level :
  prep src = prep src0 -> summaryBudgetOmitted src = false -> summaryBudgetOmitted src0 = false ->
  orient src level = orient src0 level.
Proof. intros H1 H2 H3. unfold Progressive.orient, orientationText. by rewrite H1, H2, H3. Qed.

Lemma charge_exact T t b st :
  0 <= tokensUsed st <= T /\ 0 <= bytesUsed st <= T -> T + 3 * B <= MaxInt -> 0 <= t <= 3 * B -> 0 <= b <= 3 * B ->
  tokensUsed (charge t b st) = tokensUsed st + t /\ bytesUsed (charge t b st) = bytesUsed st + b.
Proof.
  intros [? ?] ? ? ?. unfold charge. cbn [tokensUsed bytesUsed].
  rewrite !wrap_int_id by (unfold in_int, MinInt, MaxInt in *; lia). done.
Qed.

(** Distinct positions have distinct source names. *)
Lemma names_inj w T r k k' s s' :
  Paired T r w -> srcs w !! k = Some s -> srcs w !! k' = Some s' ->
  source (prep s) = source (prep s') -> k = k'.
Proof.
  intros HP Hk Hk' He. apply (NoDup_lookup _ _ _ (source (prep s)) Hnodup).
  - rewrite <-(map_map prep source). change (map prep l0) with (preps l0). rewrite <-(pa_preps _ _ _ HP).
    unfold preps. by rewrite !list_lookup_fmap, Hk.
  - rewrite <-(map_map prep source). change (map prep l0) with (preps l0). rewrite <-(pa_preps _ _ _ HP).
    unfold preps. rewrite !list_lookup_fmap, Hk'. simpl. congruence.
Qed.

Lemma place_paired T r w k src src0 :
  Paired T r w -> T + 3 * B <= MaxInt -> srcs w !! k = Some src -> prep src = prep src0 ->
  summaryBudgetOmitted src0 = false ->
  Paired (T + 2 * B) (reserveOrientation IsPrintWide req src0 r) (placeOrientation IsPrintWide req k src w) /\
  exists src', srcs (placeOrientation IsPrintWide req k src w) !! k = Some src' /\ placed src' = true /\
    prep src' = prep src /\ evidence src' = evidence src.
Proof.
  intros HP HT Hk Hprep Hf0. pose proof (bound_pos HB) as HB1. pose proof (pa_bound _ _ _ HP) as Hbd.
  unfold reserveOrientation, placeOrientation.
  pose proof (pa_seen _ _ _ HP k src Hk) as Hseen. rewrite Hprep in Hseen.
  destruct (placed src) eqn:Hp.
  { rewrite bool_decide_eq_true_2 by (by apply Hseen).
    rewrite decide_False by (intros Ho; unfold placed in Hp; by rewrite Ho in Hp).
    split; [|by exists src]. destruct HP; split; try done. lia. }
  rewrite bool_decide_eq_false_2 by (rewrite Hseen; done).
  rewrite decide_True by (by apply not_placed).
  pose proof (Forall_lookup_1 _ _ _ _ (pa_flags _ _ _ HP) Hk) as Hf. cbn beta in Hf.
  pose proof (Forall_lookup_1 _ _ _ _ (led_good _ _ (pa_ledger _ _ _ HP)) Hk) as HG.
  pose proof (Forall_lookup_1 _ _ _ _ (led_fits _ _ (pa_ledger _ _ _ HP)) Hk) as HF. cbn beta in HF.
  assert (cheapestOrientation src0 = cheapestOrientation src) as Hlv
    by (unfold cheapestOrientation; by rewrite Hprep).
  rewrite Hlv. set (level := cheapestOrientation src). rewrite <-(same_text src src0 level Hprep Hf Hf0).
  destruct (orient_small src level HF) as [Hs Hc]. pose proof (slen_nonneg (orient src level)).
  destruct (separator_small (wst w)) as [Hst Hsb]. destruct (bound_nl HB) as [_ Hnl].
  set (o := orient src level) in *. set (st := wst w) in *.
  rewrite !(small_wrap (cost o + _)), !(small_wrap (slen o + _)) by lia.
  destruct (charge_exact T (cost o + separatorTokens req st) (slen o + separatorBytes st) st Hbd HT
    ltac:(lia) ltac:(lia)) as [Et Eb].
  set (st' := charge _ _ st) in *.
  destruct (source_use_place IsPrintWide cost src level HG Hp (cheapest_not_none src)) as [Eu Hp'].
  destruct (source_use_place IsPrintWide slen src level HG Hp (cheapest_not_none src)) as [Eu' _].
  split.
  2:{ exists (set_orientation level src). cbn [acct upd srcs]. by rewrite list_lookup_alter_eq, Hk. }
  assert (renderedSources st = rendered (srcs w)) as Hren by apply (led_sources _ _ (pa_ledger _ _ _ HP)).
  pose proof (rendered_nonneg (srcs w)) as Hnn.
  assert (forall x y n, n = renderedSources st -> 0 <= x <= T -> 0 <= y <= T ->
    (let '(t, b) := if 0 <? n then (x +i cost o +i cost nl, y +i slen o +i 1) else (x +i cost o, y +i slen o) in
     mkReservation t b (n + 1) (source (prep src0) :: r_seen r)) =
    mkReservation (x + (cost o + separatorTokens req st)) (y + (slen o + separatorBytes st)) (n + 1)
      (source (prep src0) :: r_seen r)) as ->.
  { intros x y n -> Hx Hy. unfold separatorTokens, separatorBytes.
    rewrite !(wrap_int_id (x + _)), !(wrap_int_id (y + _)) by (unfold in_int, MinInt, MaxInt in *; lia).
    destruct (Z.eqb_spec (renderedSources st) 0) as [->|].
    - change (0 <? 0) with false. by rewrite !Z.add_0_r.
    - rewrite (proj2 (Z.ltb_lt 0 _)) by lia.
      rewrite !wrap_int_id by (unfold in_int, MinInt, MaxInt in *; lia). f_equal; lia. }
  2: by apply (pa_sources _ _ _ HP).
  2: by rewrite (pa_tokens _ _ _ HP); apply Hbd.
  2: by rewrite (pa_bytes _ _ _ HP); apply Hbd.
  split; cbn [r_tokens r_bytes r_sources r_seen acct upd wst srcs].
  - apply (ledger_place st _ _ _ src); try done; [apply (pa_ledger _ _ _ HP)| | |].
    + by apply Good_place; [|done|apply cheapest_not_none].
    + rewrite Eu. exact Et.
    + rewrite Eu'. exact Eb.
  - rewrite preps_alter by done. apply (pa_preps _ _ _ HP).
  - apply (Forall_alter_at _ _ _ _ src); [done|done|apply (pa_flags _ _ _ HP)].
  - change (r_tokens r + (cost o + separatorTokens req st) = tokensUsed st').
    rewrite Et, (pa_tokens _ _ _ HP). done.
  - change (r_bytes r + (slen o + separatorBytes st) = bytesUsed st').
    rewrite Eb, (pa_bytes _ _ _ HP). done.
  - change (r_sources r + 1 = renderedSources st + 1). by rewrite (pa_sources _ _ _ HP).
  - intros k' s Hk'. rewrite list_lookup_alter in Hk'. case_decide as Hkk.
    + subst k'. rewrite Hk in Hk'. simplify_eq/=. rewrite Hprep. split; [done|by left].
    + rewrite elem_of_cons, (pa_seen _ _ _ HP k' s Hk'). split; [|by right]. intros [He|]; [|done].
      destruct Hkk. eapply (names_inj w T r); [done|exact Hk|exact Hk'|]. by rewrite He, Hprep.
  - change (0 <= tokensUsed st' <= T + 2 * B /\ 0 <= bytesUsed st' <= T + 2 * B). lia.
Qed.

Lemma pin_paired T r w k i :
  Paired T r w -> T + 3 * B <= MaxInt ->
  (exists src0, l0 !! k = Some src0 /\ summaryBudgetOmitted src0 = false /\ (i < length (results (prep src0)))%nat) ->
  Paired (T + 3 * B) (reservePin IsPrintWide req l0 r (k, i)) (placePin IsPrintWide req w (k, i)) /\
  exists src', srcs (placePin IsPrintWide req w (k, i)) !! k = Some src' /\ placed src' = true /\
    i ∈ evidence src'.
Proof.
  intros HP HT (src0 & Hk0 & Hf0 & Hi). unfold reservePin, placePin. cbn [fst snd]. rewrite Hk0.
  assert (exists src, srcs w !! k = Some src /\ prep src = prep src0) as (src & Hk & Hprep).
  { assert (preps (srcs w) !! k = Some (prep src0)) as H
      by (rewrite (pa_preps _ _ _ HP); unfold preps; by rewrite list_lookup_fmap, Hk0).
    unfold preps in H. rewrite list_lookup_fmap in H. destruct (srcs w !! k) as [s|]; [|done].
    exists s. simpl in H. by simplify_eq. }
  rewrite Hk. destruct (place_paired T r w k src src0 HP HT Hk Hprep Hf0) as (HP1 & src1 & Hk1 & Hp1 & Hprep1 & He1).
  set (r1 := reserveOrientation _ _ _ _) in *. set (w1 := placeOrientation _ _ _ _ _) in *.
  pose proof (Forall_lookup_1 _ _ _ _ (led_good _ _ (pa_ledger _ _ _ HP1)) Hk1) as HG.
  pose proof (Forall_lookup_1 _ _ _ _ (led_fits _ _ (pa_ledger _ _ _ HP)) Hk) as HF. cbn beta in HF.
  rewrite (evidenceAt_prep IsPrintWide src src0 i) by done. set (e := evidenceAt src i).
  destruct (evidenceAt_small src i HF) as [Hs Hc]. pose proof (slen_nonneg e) as He0. fold e in Hs, Hc.
  pose proof (bound_pos HB). pose proof (pa_bound _ _ _ HP1) as Hbd.
  assert (tokensUsed (charge (cost e) (slen e) (wst w1)) = tokensUsed (wst w1) + cost e /\
          bytesUsed (charge (cost e) (slen e) (wst w1)) = bytesUsed (wst w1) + slen e) as [Et Eb].
  { unfold charge. cbn [tokensUsed bytesUsed].
    rewrite !wrap_int_id by (unfold in_int, MinInt, MaxInt in *; lia). done. }
  set (st' := charge _ _ _) in *.
  split.
  2:{ exists (add_pinned i src1). cbn [upd acct srcs]. rewrite list_lookup_alter_eq, Hk1.
      split_and!; [done|exact Hp1|]. apply elem_of_app. right. by left. }
  assert (evidenceAt src1 i = e) as Ee by (by apply evidenceAt_prep).
  split; cbn [r_tokens r_bytes r_sources r_seen acct upd wst srcs].
  - apply (ledger_change (wst w1) _ _ _ src1); try done; [apply (pa_ledger _ _ _ HP1)| | |].
    + apply (Good_append src1 _ i); [keeps|done|done| |done]. by rewrite Hprep1, Hprep.
    + rewrite (source_use_append IsPrintWide cost src1 (add_pinned i src1) i); [|done|keeps|done]. rewrite Ee.
      fold st'. lia.
    + rewrite (source_use_append IsPrintWide slen src1 (add_pinned i src1) i); [|done|keeps|done]. rewrite Ee.
      fold st'. lia.
  - rewrite preps_alter by done. apply (pa_preps _ _ _ HP1).
  - apply (Forall_alter_at _ _ _ _ src1); [done| |apply (pa_flags _ _ _ HP1)].
    apply (Forall_lookup_1 _ _ _ _ (pa_flags _ _ _ HP1) Hk1).
  - by rewrite (pa_tokens _ _ _ HP1).
  - by rewrite (pa_bytes _ _ _ HP1).
  - apply (pa_sources _ _ _ HP1).
  - intros k' s Hk'. rewrite list_lookup_alter in Hk'. case_decide as Hkk.
    + subst k'. rewrite Hk1 in Hk'. simplify_eq/=. apply (pa_seen _ _ _ HP1 k src1 Hk1).
    + by apply (pa_seen _ _ _ HP1 k').
  - fold st'. lia.
Qed.
(** Before the allocation: nothing is placed. *)
Definition Fresh (s : progressiveSource) : Prop :=
  placed s = false /\ evidence s = [] /\ summaryBudgetOmitted s = false.

Context (Hfresh : Forall Fresh l0) (Hfits : Forall (fun s => Fits (prep s)) l0).

Definition pin_ok (t : nat * nat) : Prop :=
  exists s, l0 !! t.1 = Some s /\ (t.2 < length (results (prep s)))%nat.

Lemma fresh_rendered : rendered l0 = 0.
Proof.
  unfold rendered. rewrite (Zsum_map_ext _ (fun _ => 0)); [apply Zsum_map_zero|].
  intros s Hs. rewrite Forall_forall in Hfresh. by destruct (Hfresh s Hs) as [-> _].
Qed.

Lemma fresh_usage c sep : usage c sep l0 = 0.
Proof.
  unfold ProgressiveLedger.usage. rewrite fresh_rendered. change (separators 0) with 0. rewrite Z.mul_0_r, Z.add_0_r.
  rewrite (Zsum_map_ext _ (fun _ => 0)); [apply Zsum_map_zero|].
  intros s Hs. rewrite Forall_forall in Hfresh. destruct (Hfresh s Hs) as [Hp _].
  unfold ProgressiveLedger.source_use, blocks. by rewrite Hp.
Qed.

Definition start (unmatched : list PinRef) : world := mkWorld (mkAlloc 0 0 0 0 0 0 0 unmatched) l0.

Lemma start_paired unmatched : Paired 0 (mkReservation 0 0 0 []) (start unmatched).
Proof.
  split; simpl; try done.
  - split; simpl; rewrite ?fresh_usage, ?fresh_rendered; try done.
    eapply Forall_impl; [exact Hfresh|]. intros s (Hp & He & Hf). split; [done|congruence|by rewrite He].
  - eapply Forall_impl; [exact Hfresh|]. by intros s (_ & _ & ?).
  - intros k s Hk. destruct (Forall_lookup_1 _ _ _ _ Hfresh Hk) as [-> _]. split; [|done].
    by intros ?%elem_of_nil.
Qed.

Lemma pins_paired targets T r w :
  Forall pin_ok targets -> Paired T r w -> T + 3 * B * len targets <= MaxInt ->
  Paired (T + 3 * B * len targets) (fold_left (reservePin IsPrintWide req l0) targets r)
    (fold_left (placePin IsPrintWide req) targets w).
Proof.
  intros Ht. revert T r w. pose proof (bound_pos HB).
  induction Ht as [|[k i] targets (s & Hk & Hi) _ IH]; intros T r w HP HT; simpl.
  { rewrite len_nil, Z.mul_0_r, Z.add_0_r. done. }
  rewrite len_cons in HT |- *. pose proof (len_nonneg targets). cbn [fst snd] in *.
  replace (T + 3 * B * (1 + len targets)) with (T + 3 * B + 3 * B * len targets) by lia.
  apply IH; [|lia]. apply pin_paired; [done|nia|]. exists s. split_and!; [done| |done].
  by destruct (Forall_lookup_1 _ _ _ _ Hfresh Hk) as (_ & _ & ?).
Qed.
End pins.

(** ** Pins *)

Lemma find_source_spec k name l j :
  find_source k name l = Some j ->
  exists s, (k <= j)%nat /\ l !! (j - k)%nat = Some s /\ source (prep s) = name.
Proof.
  revert k. induction l as [|s l IH]; intros k; simpl; [done|].
  destruct (find_source (S k) name l) as [j'|] eqn:E.
  - intros [= <-]. destruct (IH _ E) as (s' & Hle & Hl & Hn). exists s'. split_and!; [lia| |done].
    by replace (j' - k)%nat with (S (j' - S k)) by lia.
  - destruct (string_eqb (source (prep s)) name) eqn:En; [|done]. intros [= <-].
    unfold string_eqb in En. apply bool_decide_eq_true in En. exists s. rewrite Nat.sub_diag. done.
Qed.

Lemma find_chunk_spec i id l j :
  find_chunk i id l = Some j ->
  exists r, (i <= j)%nat /\ l !! (j - i)%nat = Some r /\ ID (res_Chunk r) = id.
Proof.
  revert i. induction l as [|r l IH]; intros i; simpl; [done|].
  destruct (string_eqb (ID (res_Chunk r)) id) eqn:En.
  - intros [= <-]. unfold string_eqb in En. apply bool_decide_eq_true in En. exists r. by rewrite Nat.sub_diag.
  - intros E. destruct (IH _ E) as (r' & Hle & Hl & Hn). exists r'. split_and!; [lia| |done].
    by replace (j - i)%nat with (S (j - S i)) by lia.
Qed.

Lemma pinTarget_spec l pin t :
  pinTarget req l pin = Some t -> exists s r, l !! t.1 = Some s /\ source (prep s) = pin_Source pin /\
    results (prep s) !! t.2 = Some r /\ ID (res_Chunk r) = pin_ChunkID pin.
Proof.
  unfold pinTarget. destruct (maxDepth req =? DepthL2); [|done].
  destruct (find_source 0 (pin_Source pin) l) as [k|] eqn:Ek; [|done].
  apply find_source_spec in Ek as (s & _ & Hs & Hn). rewrite Nat.sub_0_r in Hs. rewrite Hs.
  destruct (find_chunk 0 (pin_ChunkID pin) (results (prep s))) as [i|] eqn:Ei; [|done].
  apply find_chunk_spec in Ei as (r & _ & Hr & Hid). rewrite Nat.sub_0_r in Hr.
  intros [= <-]. by exists s, r.
Qed.

Lemma resolvePins_spec l seen pins :
  let ts := (resolvePins req l seen pins).1 in
  len ts <= len pins /\ Forall (pin_ok l) ts /\
  (forall pin, pin ∈ pins -> pin ∉ seen -> match pinTarget req l pin with
     | Some t => t ∈ ts
     | None => pin ∈ (resolvePins req l seen pins).2
     end) /\
  (forall pin, pin ∈ (resolvePins req l seen pins).2 -> pin ∈ pins /\ pinTarget req l pin = None).
Proof.
  revert seen. induction pins as [|pin pins IH]; intros seen; simpl.
  { split_and!; [done|done|by intros ? ?%elem_of_nil|by intros ? ?%elem_of_nil]. }
  rewrite len_cons. case_bool_decide as Hs.
  - destruct (IH seen) as (H1 & H2 & H3 & H4). split_and!; [lia|done| |].
    + intros p [->|Hp]%elem_of_cons Hn; [done|by apply H3].
    + intros p Hp. destruct (H4 p Hp). split; [by right|done].
  - destruct (IH (pin :: seen)) as (H1 & H2 & H3 & H4).
    destruct (resolvePins req l (pin :: seen) pins) as [ts un]. cbn [fst snd] in *.
    assert (forall p, p ∈ pins -> p ∉ seen -> p <> pin -> match pinTarget req l p with
       | Some t => t ∈ ts | None => p ∈ un end) as H3'.
    { intros p Hp Hn Hne. apply H3; [done|]. by intros [->|?]%elem_of_cons. }
    destruct (pinTarget req l pin) as [t|] eqn:Et; cbn [fst snd]; rewrite ?len_cons; split_and!;
      [lia| | | |lia|done| |].
    + constructor; [|done]. apply pinTarget_spec in Et as (s & r & Hs' & _ & Hr & _). exists s.
      split; [done|]. by eapply lookup_lt_Some.
    + intros p Hp Hn. destruct (decide (p = pin)) as [->|Hne]; [rewrite Et; by left|].
      apply elem_of_cons in Hp as [|Hp]; [done|]. specialize (H3' p Hp Hn Hne).
      destruct (pinTarget req l p); [by right|done].
    + intros p Hp. destruct (H4 p Hp). split; [by right|done].
    + intros p Hp Hn. destruct (decide (p = pin)) as [->|Hne]; [rewrite Et; by left|].
      apply elem_of_cons in Hp as [|Hp]; [done|]. specialize (H3' p Hp Hn Hne).
      destruct (pinTarget req l p); [done|by right].
    + intros p [->|Hp]%elem_of_cons; [split; [by left|done]|]. destruct (H4 p Hp). split; [by right|done].
Qed.
(** ** Nothing admitted is dropped *)

Record Grows (s s' : progressiveSource) : Prop := mkGrows {
  gr_prep : prep s' = prep s;
  gr_placed : placed s = true -> placed s' = true;
  gr_evidence : forall i, i ∈ evidence s -> i ∈ evidence s';
}.

#[local] Instance Grows_pre : PreOrder Grows.
Proof.
  split; [by intros s; split|]. intros s1 s2 s3 [H1 H2 H3] [J1 J2 J3]. split; [congruence|auto|auto].
Qed.

Lemma grow_refl l : Forall2 Grows l l.
Proof. induction l; by constructor. Qed.

Lemma grow_all f l k s : l !! k = Some s -> Grows s (f s) -> Forall2 Grows l (alter f k l).
Proof.
  revert k. induction l as [|x l IH]; intros [|k] Hk Hg; simplify_eq/=; constructor; try done. by apply IH.
Qed.

Lemma grow_upd f k w : (forall s, Grows s (f s)) -> Forall2 Grows (srcs w) (srcs (upd k f w)).
Proof.
  intros Hf. cbn [upd srcs]. destruct (srcs w !! k) as [s|] eqn:Hk; [by eapply grow_all|].
  assert (alter f k (srcs w) = srcs w) as ->; [|apply grow_refl].
  revert k Hk. induction (srcs w) as [|x l IH]; intros [|k] Hk; simplify_eq/=; [done|done|]. by rewrite IH.
Qed.

Lemma grow_set_orientation level s : level <> orientationNone -> Grows s (set_orientation level s).
Proof. intros Hl. split; [done| |done]. intros _. unfold placed. simpl. by rewrite bool_decide_eq_false_2. Qed.

Lemma grow_append s s' i :
  prep s' = prep s -> orientation s' = orientation s -> evidence s' = evidence s ++ [i] -> Grows s s'.
Proof.
  intros Hp Ho He. split; [done| |].
  - unfold placed. by rewrite Ho.
  - intros j Hj. rewrite He. apply elem_of_app. by left.
Qed.

Lemma grow_same s s' :
  prep s' = prep s -> orientation s' = orientation s -> evidence s' = evidence s -> Grows s s'.
Proof. intros Hp Ho He. split; [done| |by rewrite He]. unfold placed. by rewrite Ho. Qed.

Lemma placePin_grows w t : Forall2 Grows (srcs w) (srcs (placePin IsPrintWide req w t)).
Proof.
  unfold placePin. destruct (srcs w !! t.1) as [src|] eqn:Hk; [|apply grow_refl].
  etrans; [|apply (grow_upd _ _ (acct _ _)); intros s; by apply (grow_append s _ t.2)].
  cbn [acct srcs]. unfold placeOrientation. destruct (decide _); [|apply grow_refl].
  cbn [acct srcs]. apply (grow_upd _ _ (acct _ w)). intros s. apply grow_set_orientation, cheapest_not_none.
Qed.

Lemma floorStep_grows fr src w : Forall2 Grows (srcs w) (srcs (floorStep IsPrintWide req fr src w)).
Proof.
  unfold floorStep. destruct (admitBlock _ _ _ _) as [ok st]. destruct ok; cbn [negb acct srcs].
  - etrans; [|apply (grow_upd _ _ _); intros s; by apply (grow_append s _ (fr_idx fr))].
    destruct (bool_decide _); [|apply grow_refl]. cbn [acct srcs].
    apply (grow_upd _ _ (mkWorld _ _)). intros s. apply grow_set_orientation, cheapest_not_none.
  - apply (grow_upd _ _ (mkWorld _ _)). intros s. by apply grow_same.
Qed.

Lemma floorPass_grows w : Forall2 Grows (srcs w) (srcs (floorPass IsPrintWide req w)).
Proof.
  unfold floorPass. destruct (_ =? _); [|apply grow_refl]. set (floor := if _ =? 0 then 1 else _).
  generalize (flatten (fun _ _ => true) (srcs w)). intros flat.
  change (srcs w) with (srcs (acct (set_floorRequested floor) w)) at 1.
  generalize (acct (set_floorRequested floor) w). clear w.
  induction flat as [|fr flat IH]; intros w; simpl; [apply grow_refl|].
  destruct (floor <=? _); [apply grow_refl|]. destruct (srcs w !! fr_src fr); [|apply IH].
  destruct (containsInt _ _); [apply IH|]. etrans; [apply floorStep_grows|apply IH].
Qed.

Lemma over_grows f w : (forall st s, Grows s (f st s).2) -> Forall2 Grows (srcs w) (srcs (over f w)).
Proof.
  intros Hf. unfold over. assert (forall l st, Forall2 Grows l (walk f st l).2) as H.
  { induction l as [|s l IH]; intros st; simpl; [constructor|]. specialize (Hf st s).
    destruct (f st s) as [st1 s1]. specialize (IH st1). destruct (walk f st1 l). by constructor. }
  specialize (H (srcs w) (wst w)). by destruct (walk f (wst w) (srcs w)).
Qed.

Lemma baseSource_grows st s : Grows s (baseSource IsPrintWide req st s).2.
Proof.
  unfold baseSource. destruct (negb _); [done|]. rewrite base_level.
  destruct (admitBlock _ _ _ st) as [ok st1]. destruct ok; [apply grow_set_orientation, cheapest_not_none|].
  destruct (decide _); [|by apply grow_same]. destruct (admitBlock _ _ _ st1) as [ok st2].
  destruct ok; [|by apply grow_same].
  by split.
Qed.

Lemma deepenSource_grows st s : Grows s (deepenSource IsPrintWide req st s).2.
Proof.
  unfold deepenSource. destruct (_ || _); [done|]. destruct (admitBlock _ _ _ st) as [[] st1]; [|by apply grow_same].
  by split.
Qed.

Lemma upgradePass_grows w : Forall2 Grows (srcs w) (srcs (upgradePass IsPrintWide req w)).
Proof.
  unfold upgradePass. destruct (_ =? _); [|apply grow_refl].
  generalize (flatten upgradable (srcs w)). intros flat. revert w.
  induction flat as [|fr flat IH]; intros w; simpl; [apply grow_refl|]. etrans; [|apply IH].
  unfold upgradeStep. destruct (srcs w !! fr_src fr); [|apply grow_refl].
  destruct (admitBlock _ _ _ _) as [[] st]; apply (grow_upd _ _ (mkWorld _ _)); intros s';
    [by apply (grow_append s' _ (fr_idx fr))|by apply grow_same].
Qed.

Lemma passes_grow w :
  Forall2 Grows (srcs w) (srcs (deepenPass IsPrintWide req (upgradePass IsPrintWide req
    (over (baseSource IsPrintWide req) (floorPass IsPrintWide req w))))).
Proof.
  etrans; [apply floorPass_grows|]. etrans; [apply over_grows, baseSource_grows|].
  etrans; [apply upgradePass_grows|]. unfold deepenPass.
  destruct (_ <=? _); [apply over_grows, deepenSource_grows|apply grow_refl].
Qed.
(** A pinned block is in from the moment it is placed. *)
Lemma placePins_grow targets w :
  Forall2 Grows (srcs w) (srcs (fold_left (placePin IsPrintWide req) targets w)).
Proof.
  revert w. induction targets as [|t targets IH]; intros w; simpl; [apply grow_refl|].
  etrans; [apply placePin_grows|apply IH].
Qed.

Lemma pins_in l0 targets T r w :
  NoDup (map (fun s => source (prep s)) l0) -> Forall Fresh l0 ->
  Forall (pin_ok l0) targets -> Paired l0 T r w -> T + 3 * B * len targets <= MaxInt ->
  Forall (fun t => exists s, srcs (fold_left (placePin IsPrintWide req) targets w) !! t.1 = Some s /\
    placed s = true /\ t.2 ∈ evidence s) targets.
Proof.
  intros Hnd Hfresh Ht. revert T r w. pose proof (bound_pos HB).
  induction Ht as [|[k i] targets (s & Hk & Hi) _ IH]; intros T r w HP HT; [constructor|].
  rewrite len_cons in HT. pose proof (len_nonneg targets). cbn [fst snd fold_left] in *.
  destruct (pin_paired l0 Hnd T r w k i HP) as (HP' & s' & Hk' & Hp' & He'); [nia| |].
  { exists s. split_and!; [done| |done]. by destruct (Forall_lookup_1 _ _ _ _ Hfresh Hk) as (_ & _ & ?). }
  constructor; [|apply (IH (T + 3 * B) (reservePin IsPrintWide req l0 r (k, i))); [done|lia]].
  destruct (Forall2_lookup_l _ _ _ _ _ (placePins_grow targets (placePin IsPrintWide req w (k, i))) Hk')
    as (s2 & Hk2 & [_ Hp2 He2]).
  exists s2. cbn [fst snd]. auto.
Qed.

(** The pins reported are those of step 2. *)
Lemma admit_pins t b st : unmatchedPins (admitBlock req t b st).2 = unmatchedPins st.
Proof. unfold admitBlock. by destruct (_ || _). Qed.

Ltac split_admit ok st' H :=
  match goal with |- context [admitBlock req ?t ?b ?st] =>
    pose proof (admit_pins t b st) as H; destruct (admitBlock req t b st) as [ok st']
  end.

Lemma walk_pins f st l :
  (forall st s, unmatchedPins (f st s).1 = unmatchedPins st) -> unmatchedPins (walk f st l).1 = unmatchedPins st.
Proof.
  intros Hf. revert st. induction l as [|s l IH]; intros st; simpl; [done|]. specialize (Hf st s).
  destruct (f st s) as [st1 s1]. specialize (IH st1). destruct (walk f st1 l). simpl in *. congruence.
Qed.

Lemma over_pins f w :
  (forall st s, unmatchedPins (f st s).1 = unmatchedPins st) ->
  unmatchedPins (wst (over f w)) = unmatchedPins (wst w).
Proof.
  intros Hf. unfold over. pose proof (walk_pins f (wst w) (srcs w) Hf) as H.
  by destruct (walk f (wst w) (srcs w)).
Qed.

Lemma baseSource_pins st s : unmatchedPins (baseSource IsPrintWide req st s).1 = unmatchedPins st.
Proof.
  unfold baseSource. destruct (negb _); [done|]. rewrite base_level.
  split_admit ok st1 H1.
  cbn [snd] in H1. destruct ok; [done|]. destruct (decide _); [|done].
  split_admit ok st2 H2.
  cbn [snd] in H2. destruct ok; simpl; congruence.
Qed.

Lemma deepenSource_pins st s : unmatchedPins (deepenSource IsPrintWide req st s).1 = unmatchedPins st.
Proof.
  unfold deepenSource. destruct (_ || _); [done|].
  split_admit ok st1 H1.
  by destruct ok.
Qed.

Lemma upgradePass_pins w : unmatchedPins (wst (upgradePass IsPrintWide req w)) = unmatchedPins (wst w).
Proof.
  unfold upgradePass. destruct (_ =? _); [|done]. generalize (flatten upgradable (srcs w)). intros flat. revert w.
  induction flat as [|fr flat IH]; intros w; simpl; [done|]. rewrite IH. unfold upgradeStep.
  destruct (srcs w !! fr_src fr) as [src|]; [|done].
  split_admit ok st1 H1.
  done.
Qed.

Lemma floorPass_pins w : unmatchedPins (wst (floorPass IsPrintWide req w)) = unmatchedPins (wst w).
Proof.
  unfold floorPass. destruct (_ =? _); [|done]. set (floor := if _ =? 0 then 1 else _).
  generalize (flatten (fun _ _ => true) (srcs w)). intros flat.
  change (unmatchedPins (wst w)) with (unmatchedPins (wst (acct (set_floorRequested floor) w))).
  generalize (acct (set_floorRequested floor) w). clear w.
  induction flat as [|fr flat IH]; intros w; simpl; [done|].
  destruct (floor <=? _); [done|]. destruct (srcs w !! fr_src fr) as [src|]; [|apply IH].
  destruct (containsInt _ _); [apply IH|]. rewrite IH. unfold floorStep.
  split_admit ok st1 H1.
  destruct ok; simpl; [|done]. by destruct (bool_decide _).
Qed.

Lemma placePins_pins targets w :
  unmatchedPins (wst (fold_left (placePin IsPrintWide req) targets w)) = unmatchedPins (wst w).
Proof.
  revert w. induction targets as [|t targets IH]; intros w; simpl; [done|]. rewrite IH.
  unfold placePin. destruct (srcs w !! t.1); [|done]. simpl. unfold placeOrientation. by destruct (decide _).
Qed.

(** ** The end of the allocation *)

Lemma finish_evidence s : evidence (finishSource s) ≡ₚ evidence s.
Proof.
  unfold finishSource. destruct (_ && _); simpl; apply sort_by_perm.
Qed.

Lemma finish_keeps s : keeps_text (finishSource s) s.
Proof. unfold finishSource. destruct (_ && _); keeps. Qed.

Lemma finish_use c s : source_use c (finishSource s) = source_use c s.
Proof.
  unfold ProgressiveLedger.source_use, blocks. rewrite (keeps_placed _ _ (finish_keeps s)).
  destruct (placed s); [|done]. rewrite (keeps_orient IsPrintWide _ _ (finish_keeps s)), !map_cons, !map_map.
  cbn [Zsum]. f_equal. rewrite (finish_evidence s). apply Zsum_map_ext. intros i _.
  by rewrite (evidenceAt_prep IsPrintWide s (finishSource s) i (proj1 (finish_keeps s))).
Qed.

Lemma finish_good s : Good s -> Good (finishSource s).
Proof.
  intros [H1 H2 H3]. destruct (finish_keeps s) as (K1 & K2 & K3). split.
  - rewrite (keeps_placed _ _ (finish_keeps s)). intros Hp. pose proof (finish_evidence s) as He.
    rewrite (H1 Hp) in He. by apply Permutation_nil_r in He.
  - by rewrite K2, K3.
  - rewrite K1. by rewrite (finish_evidence s).
Qed.

Lemma finish_ledger st l : Ledger st l -> Ledger st (map finishSource l).
Proof.
  intros [H1 H2 H3 H4 H5].
  assert (rendered (map finishSource l) = rendered l) as Hr.
  { unfold rendered. rewrite map_map. apply Zsum_map_ext. intros s _.
    by rewrite (keeps_placed _ _ (finish_keeps s)). }
  assert (forall c sep, usage c sep (map finishSource l) = usage c sep l) as Hu.
  { intros c sep. unfold ProgressiveLedger.usage. rewrite Hr, map_map.
    rewrite (Zsum_map_ext (fun x => source_use c (finishSource x)) (source_use c)); [done|].
    intros s _. apply finish_use. }
  split; rewrite ?Hu, ?Hr; try done.
  - apply Forall_fmap. eapply Forall_impl; [exact H4|]. intros s. apply finish_good.
  - apply Forall_fmap. eapply Forall_impl; [exact H5|]. intros s HF.
    unfold compose. by rewrite (proj1 (finish_keeps s)).
Qed.

(** What the allocator answers: the pinned blocks do not fit, or the totals are
    those of the blocks, within the ceilings, with every resolved pin in. *)
Lemma allocated_ledger sources :
  NoDup (map (fun s => source (prep s)) sources) -> Forall Fresh sources ->
  Forall (fun s => Fits (prep s)) sources ->
  let sorted := sort_by (fun s => firstIndex (prep s)) sources in
  let pins := resolvePins req sorted [] (Pinned req) in
  match allocate IsPrintWide req sources with
  | Err e => exists t b, e = ErrPinnedOverflow t b /\ (MaxTokens req < t \/ MaxBytes req < b) /\ pins.1 <> []
  | Ok (st, l) =>
      Ledger st l /\ Within st /\ preps l = preps sorted /\ unmatchedPins st = pins.2 /\
      Forall (fun t => exists s, l !! t.1 = Some s /\ placed s = true /\ t.2 ∈ evidence s) pins.1
  end.
Proof.
  intros Hnd Hfresh Hfits sorted pins. unfold allocate. fold sorted. fold pins.
  assert (Forall Fresh sorted /\ Forall (fun s => Fits (prep s)) sorted /\
          NoDup (map (fun s => source (prep s)) sorted)) as (Hfresh' & Hfits' & Hnd').
  { unfold sorted. split_and!; [by rewrite sort_by_perm|by rewrite sort_by_perm|].
    eapply NoDup_Permutation_proper; [|exact Hnd]. apply Permutation_map, sort_by_perm. }
  destruct (resolvePins_spec sorted [] (Pinned req)) as (Hlen & Hok & _ & _). fold pins in Hlen, Hok.
  destruct pins as [targets unmatched] eqn:Epins. cbn [fst snd] in *. pose proof (bound_pos HB).
  destruct (pins_paired sorted Hnd' Hfresh' targets 0 (mkReservation 0 0 0 []) (start sorted unmatched)) as
    [HL Hpp Hfl Ht Hb _ _ Hbd]; [done|by apply start_paired|pose proof (bound_pins HB); nia|].
  fold (start sorted unmatched).
  set (r := fold_left (reservePin IsPrintWide req sorted) targets _) in *.
  set (w := fold_left (placePin IsPrintWide req) targets _) in *.
  destruct ((MaxTokens req <? r_tokens r) || (MaxBytes req <? r_bytes r)) eqn:Eo.
  { exists (r_tokens r), (r_bytes r). split_and!; [done|to_prop; destruct Eo; to_prop; auto|].
    intros ->. subst r. simpl in Eo. destruct (bound_tokens HB), (bound_bytes HB). to_prop. destruct Eo; to_prop; lia. }
  to_prop. rewrite Ht, Hb in *.
  assert (OK (wst w) (srcs w)) as HO by (apply OK_intro; done).
  pose proof (passes_OK w HO) as [HL' HW']. pose proof (passes_grow w) as Hgrow. cbn zeta in HL', HW'.
  set (w' := deepenPass _ _ _) in *. split_and!.
  - by apply finish_ledger.
  - done.
  - rewrite <-Hpp. unfold preps. rewrite map_map.
    transitivity (map prep (srcs w')); [apply map_ext; intros s; apply (finish_keeps s)|].
    clear -Hgrow. induction Hgrow as [|s s' l l' [Hp _ _] _ IH]; [done|]. simpl. by rewrite Hp, IH.
  - unfold w', deepenPass. assert (unmatchedPins (wst w) = unmatched) as Hu by apply placePins_pins.
    destruct (_ <=? _); rewrite ?over_pins by apply deepenSource_pins;
      rewrite upgradePass_pins, over_pins by apply baseSource_pins; by rewrite floorPass_pins.
  - assert (Forall (fun t => exists s, srcs w !! t.1 = Some s /\ placed s = true /\ t.2 ∈ evidence s) targets)
      as Hin by (apply (pins_in sorted targets 0 (mkReservation 0 0 0 [])); [done|done|done|by apply start_paired|
        pose proof (bound_pins HB); nia]).
    eapply Forall_impl; [exact Hin|]. intros t (s & Hk & Hp & He).
    destruct (Forall2_lookup_l _ _ _ _ _ Hgrow Hk) as (s' & Hk' & [_ Hp' He']).
    exists (finishSource s'). rewrite list_lookup_fmap, Hk'. split_and!; [done| |].
    + rewrite (keeps_placed _ _ (finish_keeps s')). auto.
    + rewrite (finish_evidence s'). auto.
Qed.
End ledger.
