(* ===== verification/ProgressiveRun.v ===== *)
(** * ProgressiveRun: a progressive render from results to output (rag/progressive_execute.go, rag/progressive_groups.go)

    The results are grouped by source and judged against the store, the
    capability projection is taken, the budget is allocated, the output is
    assembled and the trace is filled from what was emitted.  The store's batch
    reads (SQL) and SHA-256 are arguments. *)

From Stdlib Require Import Strings.Ascii.
From stdpp Require Import strings list gmap.
From S2P Require Import Prelude GoString GoFloat GoText GoFormat Request ContextSets ProgressiveText Progressive ProgressiveLedger.

#[local] Open Scope string_scope.
#[local] Open Scope Z_scope.
#[local] Open Scope go_scope.
#[local] Open Scope list_scope.

(** ** Preparation *)

(** The optional capability of the store; an error of a read is its number. *)
Record progressiveStoreReader := mkReader {
  SourceProvenanceBatch : list string -> result nat (gmap string SourceProvenance);
  SourceSummaryBatch : list string -> result nat (gmap string SourceSummary);
  ChunkContentDigestBatch : list string -> result nat (gmap string string);
}.

Definition new_source (i : Z) (res : SearchResult) : preparedSource :=
  mkPrepared (Source (res_Chunk res)) i [res] [i] no_provenance false None [] false false.

Definition add_result (i : Z) (res : SearchResult) (p : preparedSource) : preparedSource :=
  mkPrepared (source p) (firstIndex p) (results p ++ [res]) (resultIdx p ++ [i]) (prov p) (provFound p)
    (summary p) (reasons p) (fresh p) (snapshotMeta p).

(** One result joins the source of its name, or makes one. *)
Fixpoint addResult (i : Z) (res : SearchResult) (l : list preparedSource) : list preparedSource :=
  match l with
  | [] => [new_source i res]
  | p :: l => if string_eqb (source p) (Source (res_Chunk res)) then add_result i res p :: l
              else p :: addResult i res l
  end.

Fixpoint groupResults (i : Z) (rs : list SearchResult) (l : list preparedSource) : list preparedSource :=
  match rs with
  | [] => l
  | res :: rs => groupResults (i + 1) rs (addResult i res l)
  end.

Definition chunkIDs (rs : list SearchResult) : list string := nonempty (map (fun r => ID (res_Chunk r)) rs).

Section run.
Context (IsPrintWide : Z -> bool) (sha256Hex : string -> string) (reader : option progressiveStoreReader).

(** What the reads say of one source. *)
Definition judge (provenance : gmap string SourceProvenance) (summaries : gmap string SourceSummary)
    (digests : gmap string string) (p : preparedSource) : progressiveSource :=
  let readerOK := opt_b reader in
  let found := provenance !! source p in
  let prov := default no_provenance found in
  let provFound := opt_b found && readerOK in
  let evidenceOK :=
    if readerOK then
      forallb (fun res => match digests !! ID (res_Chunk res) with
                          | Some stored => string_eqb stored (sha256Hex (Content (res_Chunk res)))
                          | None => false
                          end) (results p)
    else true in
  let row := summaries !! source p in
  let reasons := deriveSummaryValidity row prov provFound evidenceOK in
  let fresh := opt_b row && (len reasons =? 0) in
  let decisions := list_to_set (map (fun r => if decide (r = ReasonMissing) then DecisionSummaryMissing
                                              else DecisionSummaryStale) reasons) in
  mkSource (mkPrepared (source p) (firstIndex p) (results p) (resultIdx p) prov provFound row reasons fresh
              (negb evidenceOK))
    orientationNone [] [] [] [] false decisions false.

Definition prepareProgressiveSources (req : ProgressiveRenderRequest) :
    result renderErr (list progressiveSource) :=
  let grouped := groupResults 0 (Results req) [] in
  match reader with
  | None => Ok (map (judge ∅ ∅ ∅) grouped)
  | Some r =>
      match SourceProvenanceBatch r (map source grouped) with
      | Err e => Err (ErrReader e)
      | Ok provenance =>
          match SourceSummaryBatch r (map source grouped) with
          | Err e => Err (ErrReader e)
          | Ok summaries =>
              match ChunkContentDigestBatch r (chunkIDs (Results req)) with
              | Err e => Err (ErrReader e)
              | Ok digests => Ok (map (judge provenance summaries digests) grouped)
              end
          end
      end
  end.

(** ** Assembly *)

Definition sourceText (src : progressiveSource) : string :=
  String.concat "" (blocks IsPrintWide src).

Definition assembled (l : list progressiveSource) : string :=
  Join (map sourceText (List.filter placed l)) nl.

(** [dropLastBlock], on the sources in reverse order. *)
Fixpoint drop_rev (l : list progressiveSource) : result renderErr (bool * list progressiveSource) :=
  match l with
  | [] => Ok (false, [])
  | src :: l =>
      if negb (placed src) then
        match drop_rev l with
        | Ok (dropped, l) => Ok (dropped, src :: l)
        | Err e => Err e
        end
      else match last (evidence src) with
           | Some idx =>
               if containsInt (pinnedEvidence src) idx
               then Err (ErrTrimPinned (source (prep src))
                           (match results (prep src) !! idx with Some r => ID (res_Chunk r) | None => "" end))
               else Ok (true, set_evidence (removelast (evidence src)) src :: l)
           | None => Ok (true, decide_on DecisionNoFit (set_orientation orientationNone src) :: l)
           end
  end.

Definition dropLastBlock (l : list progressiveSource) : result renderErr (bool * list progressiveSource) :=
  match drop_rev (rev l) with
  | Ok (dropped, l) => Ok (dropped, rev l)
  | Err e => Err e
  end.

(** [None] when the fuel is spent: see [assemble_total]. *)
Fixpoint assembleLoop (fuel : nat) (maxBytes trimmed : Z) (l : list progressiveSource) :
    option (result renderErr (string * Z * list progressiveSource)) :=
  match fuel with
  | O => None
  | S fuel =>
      let out := assembled l in
      if slen out <=? maxBytes then Some (Ok (out, trimmed, l))
      else match dropLastBlock l with
           | Err e => Some (Err e)
           | Ok (false, l) => Some (Ok ("", trimmed, l))
           | Ok (true, l) => assembleLoop fuel maxBytes (trimmed + 1) l
           end
  end.

Definition blockCount (l : list progressiveSource) : nat :=
  list_sum (map (fun s => length (blocks IsPrintWide s)) l).

(** A round drops a block. *)
Definition assembleProgressive (l : list progressiveSource) (maxBytes : Z) :
    result renderErr (string * Z * list progressiveSource) :=
  default (Ok ("", 0, l)) (assembleLoop (S (blockCount l)) maxBytes 0 l).

(** ** The trace *)

Record ProgressiveSourceTrace := mkSourceTrace {
  t_Source : string;
  t_Managed : bool;
  BestRank : Z;
  BestScore : option float64;
  t_Omitted : bool;
  EffectiveDepth : Z;
  OrientationGenerated : bool;
  MetadataFromSnapshot : bool;
  ValidityReasons : list ValidityReason;
  t_Decisions : list string;
  EstimatedTokens : Z;
  t_RenderedEvidence : list RenderedEvidence;
}.

Record ProgressiveTrace := mkTrace {
  tr_MaxTokens : Z; tr_MaxBytes : Z; tr_MaxDepth : Z;
  EstimatedTokensUsed : Z;
  EstimatedTokensFree : Z;
  BytesUsed : Z;
  SelectedResults : Z;
  DistinctSources : Z;
  SourcesAtL0 : Z; SourcesAtL1 : Z; SourcesWithEvidence : Z;
  EvidenceBlocks : Z;
  OmittedSources : Z;
  NonFittingBlocks : Z;
  OutputTruncated : bool;
  TrimmedBlocks : Z;
  FloorRequested : Z; FloorRendered : Z;
  UnmatchedPins : list PinRef;
  Sources : list ProgressiveSourceTrace;
}.

Definition effectiveDepth (src : progressiveSource) : Z :=
  if negb (placed src) then DepthInvalid
  else if 0 <? len (evidence src) then DepthL2
  else if decide (orientation src = orientationL0L1) then DepthL1
  else DepthL0.

Definition renderedOf (res : SearchResult) : RenderedEvidence :=
  mkRendered (Source (res_Chunk res)) (ID (res_Chunk res)) (StableKey (res_Chunk res))
    (StartLine (res_Chunk res)) (EndLine (res_Chunk res)) (res_Score res).

Definition evidenceOf (src : progressiveSource) : list RenderedEvidence :=
  omap (fun i => option_map renderedOf (results (prep src) !! i)) (evidence src).

Definition traceTokens (req : ProgressiveRenderRequest) (src : progressiveSource) : Z :=
  if placed src then
    fold_left (fun n i => n +i cost req (evidenceAt IsPrintWide src i)) (evidence src)
      (cost req (orient IsPrintWide src (orientation src)))
  else 0.

Definition sourceTrace (req : ProgressiveRenderRequest) (src : progressiveSource) : ProgressiveSourceTrace :=
  let p := prep src in
  mkSourceTrace (source p) (Managed (prov p)) (firstIndex p + 1) (option_map res_Score (head (results p)))
    (effectiveDepth src =? DepthInvalid) (effectiveDepth src) (level_ge (orientation src) orientationL0)
    (snapshotMeta p) (reasons p) (SortStrings (elements (decisions src))) (traceTokens req src) (evidenceOf src).

Definition count_sources (P : progressiveSource -> bool) (l : list progressiveSource) : Z := len (List.filter P l).

Definition fillProgressiveTrace (req : ProgressiveRenderRequest) (distinct : Z) (l : list progressiveSource)
    (st : allocState) (out : string) (trimmed : Z) : ProgressiveTrace :=
  let depth_is d src := effectiveDepth src =? d in
  let perSource := fold_left (fun n src => n +i traceTokens req src) l 0 in
  let shown := count_sources (fun src => negb (depth_is DepthInvalid src)) l in
  let tokens := if 1 <? shown then perSource +i wrap_int ((shown - 1) * cost req nl) else perSource in
  let free := MaxTokens req -i tokens in
  mkTrace (MaxTokens req) (MaxBytes req) (MaxDepth req)
    tokens (if free <? 0 then 0 else free) (slen out) (len (Results req)) distinct
    (count_sources (depth_is DepthL0) l) (count_sources (depth_is DepthL1) l) (count_sources (depth_is DepthL2) l)
    (Zsum (map (fun src => if depth_is DepthL2 src then len (evidence src) else 0) l))
    (count_sources (depth_is DepthInvalid) l) (nonFitting st) (0 <? trimmed) trimmed (floorRequested st)
    (Zsum (map (fun src => len (List.filter (containsInt (floorEvidence src)) (evidence src))) l))
    (unmatchedPins st) (map (sourceTrace req) l).

(** ** The capability projection (progressive_groups.go) *)

Record ProgressiveAlternative := mkPAlternative {
  pa_Desc : AlternativeDesc; pa_Content : string; pa_RenderedEvidence : list RenderedEvidence
}.
Record ProgressiveGroup := mkPGroup { pg_Subject : SubjectRef; pg_Rank : Z; pg_Alternatives : list ProgressiveAlternative }.

Definition repMeta : RepresentationDesc := mkRep DepthL0 RepresentationMetadata.
Definition repAbstract : RepresentationDesc := mkRep DepthL0 RepresentationGenerated.
Definition repOverview : RepresentationDesc := mkRep DepthL1 RepresentationGenerated.
Definition repEvidence : RepresentationDesc := mkRep DepthL2 RepresentationVerbatim.

Record ladderRung := mkRung { level : orientationLevel; lr_budgetOmitted : bool; reps : list RepresentationDesc }.

Definition rungs_of (maxDepth : Z) (src : progressiveSource) : list ladderRung :=
  if fresh (prep src) then
    [mkRung orientationMeta true [repMeta]; mkRung orientationL0 false [repAbstract]] ++
    (if DepthL1 <=? maxDepth then [mkRung orientationL0L1 false [repAbstract; repOverview]] else [])
  else [mkRung orientationMeta false [repMeta]].

(** The alternatives that extend every rung by the first [k] results. *)
Definition alternatives_at (src : progressiveSource) (rungs : list ladderRung) (k : nat) :
    list ProgressiveAlternative :=
  let shown := take k (results (prep src)) in
  map (fun rung => mkPAlternative (reps rung ++ repeat repEvidence (length shown))
         (String.append (orientationTextWithNote IsPrintWide (prep src) (level rung) (lr_budgetOmitted rung))
            (String.concat "" (map (evidenceText IsPrintWide) shown)))
         (map renderedOf shown)) rungs.

Definition projectSource (maxDepth : Z) (src : progressiveSource) : ProgressiveGroup :=
  let rungs := rungs_of maxDepth src in
  mkPGroup (mkRef DomainRAG (source (prep src))) (firstIndex (prep src) + 1)
    (alternatives_at src rungs 0 ++
     (if DepthL2 <=? maxDepth
      then concat (map (alternatives_at src rungs) (seq 1 (length (results (prep src))))) else [])).

Definition buildProgressiveGroups (sources : list progressiveSource) (maxDepth : Z) : list ProgressiveGroup :=
  map (projectSource maxDepth) sources.

(** ** The render *)

Definition emptyTrace (req : ProgressiveRenderRequest) : ProgressiveTrace :=
  mkTrace (MaxTokens req) (MaxBytes req) (MaxDepth req) 0 (MaxTokens req) 0 (len (Results req)) 0
    0 0 0 0 0 0 false 0 0 0 [] [].

(** An error stands for the zero trace and no groups. *)
Definition renderProgressive (req : ProgressiveRenderRequest) (wantGroups : bool) :
    result renderErr (string * ProgressiveTrace * list ProgressiveGroup) :=
  match validateProgressiveRequest req with
  | Some err => Err err
  | None =>
      let wantGroups := wantGroups && forallb (fun res => negb (string_eqb (Source (res_Chunk res)) "")) (Results req) in
      if len (Results req) =? 0 then Ok ("", emptyTrace req, [])
      else
        match prepareProgressiveSources req with
        | Err e => Err e
        | Ok sources =>
            let groups := if wantGroups then buildProgressiveGroups sources (maxDepth req) else [] in
            match allocate IsPrintWide req sources with
            | Err e => Err e
            | Ok (st, l) =>
                match assembleProgressive l (MaxBytes req) with
                | Err e => Err e
                | Ok (out, trimmed, l) =>
                    Ok (out, fillProgressiveTrace req (len sources) l st out trimmed, groups)
                end
            end
        end
  end.

Definition RenderProgressive (req : ProgressiveRenderRequest) : result renderErr (string * ProgressiveTrace) :=
  match renderProgressive req false with
  | Ok (out, trace, _) => Ok (out, trace)
  | Err e => Err e
  end.

Definition RenderProgressiveWithGroups (req : ProgressiveRenderRequest) :
    result renderErr (string * ProgressiveTrace * list ProgressiveGroup) := renderProgressive req true.
End run.
