(* ===== verification/ProgressiveOutput.v ===== *)
(** * ProgressiveOutput: what a progressive render promises

    The output of [ProgressiveRun] is the blocks the allocator admitted: its
    length and its token estimate are the allocator's totals, so the defensive
    trim is idle and the trace balances; a pin is in the output or reported;
    only a store error or an overflow of the pins fails a valid request. *)

From stdpp Require Import strings list gmap pretty.
From S2P Require Import Prelude GoString GoFloat GoText GoFormat Request ContextSets ProgressiveText Progressive ProgressiveLedger ProgressiveRun.

#[local] Open Scope string_scope.
#[local] Open Scope Z_scope.
#[local] Open Scope go_scope.
#[local] Open Scope list_scope.

(** ** Lengths and sums *)

Lemma slen_app a b : slen (a +:+ b) = slen a + slen b.
Proof.
  unfold slen. induction a as [|c a IH]; [done|].
  change (String c a +:+ b) with (String c (a +:+ b)). cbn [String.length]. lia.
Qed.

Lemma slen_Join sep l : slen (Join l sep) = Zsum (map slen l) + slen sep * separators (len l).
Proof.
  unfold Join, separators. induction l as [|c [|d l] IH]; [by rewrite Z.mul_0_r|simpl; len_lia|].
  rewrite concat_cons, !slen_app, IH. rewrite !len_cons. cbn [map Zsum]. pose proof (len_nonneg l).
  rewrite !Z.max_r by lia. lia.
Qed.

Lemma slen_concat l : slen (String.concat "" l) = Zsum (map slen l).
Proof. pose proof (slen_Join "" l) as H. unfold Join in H. rewrite H. change (slen "") with 0. lia. Qed.

(** A sum in an int of terms that fit together is their sum. *)
Lemma fold_wrap {A} (f : A -> Z) l a :
  (forall x, x ∈ l -> 0 <= f x) -> 0 <= a -> a + Zsum (map f l) <= MaxInt ->
  fold_left (fun n x => n +i f x) l a = a + Zsum (map f l).
Proof.
  revert a. induction l as [|x l IH]; intros a Hf Ha Hs; cbn [map Zsum fold_left] in *; [lia|].
  assert (0 <= f x) by (apply Hf; by left).
  assert (0 <= Zsum (map f l)) by (apply Zsum_map_nonneg; intros y Hy; apply Hf; by right).
  rewrite wrap_int_id by (unfold in_int, MinInt, MaxInt in *; lia).
  rewrite IH; [lia| |lia|lia]. intros y Hy. apply Hf. by right.
Qed.

(** A sum over those that pass a test. *)
Lemma Zsum_filter {A} (P : A -> bool) (f : A -> Z) l :
  (forall x, x ∈ l -> P x = false -> f x = 0) -> Zsum (map f (List.filter P l)) = Zsum (map f l).
Proof.
  induction l as [|x l IH]; intros H; [done|]. simpl.
  assert (Zsum (map f (List.filter P l)) = Zsum (map f l)) as E
    by (apply IH; intros y Hy; apply H; by right).
  destruct (P x) eqn:Ep; simpl; [lia|]. rewrite (H x); [lia|by left|done].
Qed.

Lemma rendered_filter l : rendered l = len (List.filter placed l).
Proof.
  unfold rendered. induction l as [|s l IH]; [done|]. simpl. rewrite IH.
  destruct (placed s); simpl; rewrite ?len_cons; lia.
Qed.

(** ** Grouping by source *)

Definition of_source (name : string) (rs : list SearchResult) : list SearchResult :=
  List.filter (fun r => string_eqb (Source (res_Chunk r)) name) rs.

(** The sources have distinct names, each holds exactly the results of its name,
    in order, and at least one, and no result is left out. *)
Record Grouped (rs : list SearchResult) (l : list preparedSource) : Prop := mkGrouped {
  g_names : NoDup (map source l);
  g_results : Forall (fun p => results p = of_source (source p) rs /\ results p <> []) l;
  g_all : Forall (fun r => Source (res_Chunk r) ∈ map source l) rs;
}.

Lemma addResult_cases i res l :
  Source (res_Chunk res) ∈ map source l /\
    (exists l1 p l2, l = l1 ++ p :: l2 /\ source p = Source (res_Chunk res) /\
       addResult i res l = l1 ++ add_result i res p :: l2) \/
  Source (res_Chunk res) ∉ map source l /\ addResult i res l = l ++ [new_source i res].
Proof.
  induction l as [|p l IH]; [right; split; [apply not_elem_of_nil|done]|]. simpl.
  unfold string_eqb. case_bool_decide as E.
  - left. split; [rewrite E; by left|]. by exists [], p, l.
  - destruct IH as [[Hin (l1 & q & l2 & -> & Hq & ->)]|[Hin ->]].
    + left. split; [by right|]. by exists (p :: l1), q, l2.
    + right. split; [|done]. rewrite not_elem_of_cons. split; [congruence|done].
Qed.

Lemma of_source_snoc name rs r :
  of_source name (rs ++ [r]) = of_source name rs ++ (if string_eqb (Source (res_Chunk r)) name then [r] else []).
Proof. unfold of_source. rewrite List.filter_app. simpl. by destruct (string_eqb _ _). Qed.

Lemma of_source_other rs name : name ∉ map (fun r => Source (res_Chunk r)) rs -> of_source name rs = [].
Proof.
  induction rs as [|r rs IH]; [done|]. cbn [map]. rewrite not_elem_of_cons. intros [Hr H].
  unfold of_source, string_eqb. simpl. rewrite bool_decide_eq_false_2 by congruence. by apply IH.
Qed.

Lemma grouped_step rs l i r : Grouped rs l -> Grouped (rs ++ [r]) (addResult i r l).
Proof.
  intros [Hn Hr Ha]. destruct (addResult_cases i r l) as [[Hin (l1 & p & l2 & -> & Hp & ->)]|[Hin ->]].
  - assert (map source (l1 ++ add_result i r p :: l2) = map source (l1 ++ p :: l2)) as E by (by rewrite !map_app).
    split; rewrite ?E; [done| |].
    + rewrite map_app in Hn. cbn [map] in Hn. apply NoDup_app in Hn as (_ & Hn1 & Hn2).
      apply NoDup_cons in Hn2 as [Hn2 _].
      assert (forall q, source q <> source p -> of_source (source q) (rs ++ [r]) = of_source (source q) rs) as Hq.
      { intros q Hq. rewrite of_source_snoc. unfold string_eqb. rewrite bool_decide_eq_false_2 by congruence.
        by rewrite app_nil_r. }
      rewrite Forall_app, Forall_cons in Hr |- *. destruct Hr as (H1 & [Hp1 Hp2] & H2). split_and!.
      * rewrite Forall_forall in H1 |- *. intros q Hqin. rewrite Hq; [by apply H1|]. intros E2.
        apply (Hn1 (source q)); [by apply list_elem_of_fmap_2|rewrite E2; by left].
      * cbn [results source add_result]. rewrite Hp1, of_source_snoc. unfold string_eqb.
        by rewrite bool_decide_eq_true_2 by done.
      * cbn [results add_result]. by destruct (results p).
      * rewrite Forall_forall in H2 |- *. intros q Hqin. rewrite Hq; [by apply H2|]. intros E2.
        apply Hn2. rewrite <-E2. by apply list_elem_of_fmap_2.
    + apply Forall_app. by repeat constructor.
  - split.
    + rewrite map_app. apply NoDup_app. split_and!; [done| |apply NoDup_singleton].
      intros x Hx Hy%list_elem_of_singleton. cbn [source new_source] in Hy. by subst x.
    + apply Forall_app. split; [|constructor; [|constructor]].
      * rewrite Forall_forall in Hr |- *. intros q Hq. destruct (Hr q Hq) as [H1 H2]. split; [|done].
        rewrite H1, of_source_snoc. unfold string_eqb. rewrite bool_decide_eq_false_2; [by rewrite app_nil_r|].
        intros E. apply Hin. rewrite E. by apply list_elem_of_fmap_2.
      * cbn [results source new_source]. rewrite of_source_snoc, of_source_other.
        { unfold string_eqb. by rewrite bool_decide_eq_true_2 by done. }
        intros (r' & E & Hr')%list_elem_of_fmap. apply Hin. rewrite E. rewrite Forall_forall in Ha. by apply Ha.
    + rewrite map_app. apply Forall_app. split.
      * eapply Forall_impl; [exact Ha|]. intros x Hx. apply elem_of_app. by left.
      * constructor; [|constructor]. apply elem_of_app. right. by left.
Qed.

Lemma grouped_results rs : Grouped rs (groupResults 0 rs []).
Proof.
  enough (forall l i seen, Grouped seen l -> Grouped (seen ++ rs) (groupResults i rs l)) as H.
  { apply (H [] 0 []). split; [constructor|constructor|constructor]. }
  induction rs as [|r rs IH]; intros l i seen Hl; [by rewrite app_nil_r|]. cbn [groupResults].
  replace (seen ++ r :: rs) with ((seen ++ [r]) ++ rs) by (by rewrite <-app_assoc). apply IH.
  by apply grouped_step.
Qed.

(** ** The assembled output *)

Section output.
Context (IsPrintWide : Z -> bool).
Notation blocks := (blocks IsPrintWide).
Notation assembled := (assembled IsPrintWide).
Notation source_use := (source_use IsPrintWide).
Notation usage := (usage IsPrintWide).

Lemma unplaced_use c s : placed s = false -> source_use c s = 0.
Proof. unfold ProgressiveLedger.source_use, ProgressiveLedger.blocks. by intros ->. Qed.

(** The bytes the allocator counts are those of the output. *)
Lemma assembled_bytes l : slen (assembled l) = usage slen 1 l.
Proof.
  unfold ProgressiveRun.assembled, ProgressiveLedger.usage. rewrite slen_Join, map_map, rendered_filter.
  rewrite (Zsum_map_ext _ (source_use slen)).
  - rewrite Zsum_filter by (intros s _; apply unplaced_use). unfold len. by rewrite length_map.
  - intros s _. apply slen_concat.
Qed.

Lemma assembled_fits l maxBytes :
  slen (assembled l) <= maxBytes -> assembleProgressive IsPrintWide l maxBytes = Ok (assembled l, 0, l).
Proof. intros H%Z.leb_le. unfold assembleProgressive. cbn [assembleLoop]. by rewrite H. Qed.

(** *** The trim always ends *)

Notation block_count := (blockCount IsPrintWide).

Lemma blockCount_app l k : block_count (l ++ k) = (block_count l + block_count k)%nat.
Proof. unfold blockCount. by rewrite map_app, list_sum_app. Qed.

Lemma blockCount_rev l : block_count (rev l) = block_count l.
Proof.
  induction l as [|s l IH]; [done|]. simpl. rewrite blockCount_app, IH.
  change (s :: l) with ([s] ++ l). rewrite blockCount_app. lia.
Qed.

Lemma drop_rev_fewer l l' :
  drop_rev l = Ok (true, l') -> (block_count l' < block_count l)%nat.
Proof.
  revert l'. induction l as [|s l IH]; intros l'; cbn [drop_rev]; [done|].
  assert (forall x k, block_count (x :: k) = (length (blocks x) + block_count k)%nat) as Hc by done.
  destruct (placed s) eqn:Hp; cbn [negb].
  - destruct (last (evidence s)) as [idx|] eqn:El.
    + destruct (containsInt _ _); [done|]. intros [= <-]. rewrite !Hc.
      apply last_Some in El as [ev Hev].
      unfold ProgressiveLedger.blocks. rewrite Hp. change (placed (set_evidence _ s)) with (placed s). rewrite Hp.
      cbn [evidence set_evidence length]. rewrite !length_map, Hev, removelast_last, length_app. simpl. lia.
    + intros [= <-]. rewrite !Hc. unfold ProgressiveLedger.blocks. rewrite Hp. simpl. lia.
  - destruct (drop_rev l) as [[d l1]|e] eqn:E; [|done]. intros [= -> <-]. rewrite !Hc.
    specialize (IH l1 eq_refl). lia.
Qed.

(** The fuel of [assembleProgressive] is enough: a round drops a block. *)
Lemma assemble_total l maxBytes fuel trimmed :
  (block_count l < fuel)%nat -> assembleLoop IsPrintWide fuel maxBytes trimmed l <> None.
Proof.
  revert l trimmed. induction fuel as [|fuel IH]; intros l trimmed Hf; [lia|]. cbn [assembleLoop].
  destruct (_ <=? _); [done|]. unfold dropLastBlock.
  destruct (drop_rev (rev l)) as [[[] l1]|e] eqn:E; [|done|done]. apply IH.
  apply drop_rev_fewer in E. rewrite blockCount_rev in *. lia.
Qed.

(** *** What the trace counts *)

Lemma depth_placed s : (effectiveDepth s =? DepthInvalid) = negb (placed s).
Proof.
  unfold effectiveDepth. destruct (placed s); [|done]. cbn [negb].
  destruct (0 <? _); [done|]. by destruct (decide _).
Qed.

Lemma shown_rendered l : count_sources (fun s => negb (effectiveDepth s =? DepthInvalid)) l = rendered l.
Proof.
  rewrite rendered_filter. unfold count_sources. f_equal. apply List.filter_ext. intros s.
  by rewrite depth_placed, negb_involutive.
Qed.

(** The shown sources are those of some depth. *)
Lemma trace_shown req distinct st l out trimmed :
  let tr := fillProgressiveTrace IsPrintWide req distinct l st out trimmed in
  SourcesAtL0 tr + SourcesAtL1 tr + SourcesWithEvidence tr = rendered l.
Proof.
  intros tr. cbn [tr fillProgressiveTrace SourcesAtL0 SourcesAtL1 SourcesWithEvidence].
  unfold count_sources, rendered. induction l as [|s l IH]; [done|]. cbn [map Zsum List.filter].
  assert (Z.b2z (effectiveDepth s =? DepthL0) + Z.b2z (effectiveDepth s =? DepthL1) +
          Z.b2z (effectiveDepth s =? DepthL2) = Z.b2z (placed s)) as Hd.
  { unfold effectiveDepth. destruct (placed s); [|done]. cbn [negb]. destruct (0 <? _); [done|].
    by destruct (decide _). }
  destruct (effectiveDepth s =? DepthL0), (effectiveDepth s =? DepthL1), (effectiveDepth s =? DepthL2);
    rewrite ?len_cons; simpl in *; lia.
Qed.
End output.

(** ** The trace balances *)

Section balance.
Context (IsPrintWide : Z -> bool) (req : ProgressiveRenderRequest) (B : Z) (HB : BoundOK req B).
Notation source_use := (source_use IsPrintWide).
Notation usage := (usage IsPrintWide).
Notation Fits := (Fits IsPrintWide req B).
Notation Ledger := (Ledger IsPrintWide req B).

Lemma use_nonneg s : Fits (prep s) -> 0 <= source_use (cost req) s.
Proof.
  intros HF. apply Zsum_map_nonneg. intros x Hx. pose proof (blocks_small IsPrintWide req B HB s HF) as Hs.
  rewrite Forall_forall in Hs. apply (Hs x Hx).
Qed.

Lemma traceTokens_use s :
  Fits (prep s) -> source_use (cost req) s <= MaxInt -> traceTokens IsPrintWide req s = source_use (cost req) s.
Proof.
  intros HF Hmax. pose proof (blocks_small IsPrintWide req B HB s HF) as Hs.
  unfold traceTokens. unfold ProgressiveLedger.source_use, blocks in *. destruct (placed s); [|done].
  cbn [map Zsum] in *. rewrite map_map in *. apply Forall_cons in Hs as [[_ Ho] He]. apply fold_wrap; [|lia|done].
  intros i Hi. rewrite Forall_forall in He. apply He. by apply list_elem_of_fmap_2.
Qed.

Lemma use_le l s :
  Forall (fun s => Fits (prep s)) l -> s ∈ l -> source_use (cost req) s <= Zsum (map (source_use (cost req)) l).
Proof.
  intros HF Hs. rewrite Forall_forall in HF. apply list_elem_of_split in Hs as (l1 & l2 & ->).
  rewrite map_app, Zsum_app. cbn [map Zsum].
  assert (forall k, (forall x, x ∈ k -> x ∈ l1 ++ s :: l2) -> 0 <= Zsum (map (source_use (cost req)) k)) as H.
  { intros k Hk. apply Zsum_map_nonneg. intros x Hx. by apply use_nonneg, HF, Hk. }
  assert (0 <= Zsum (map (source_use (cost req)) l1)) by (apply H; intros x Hx; apply elem_of_app; by left).
  assert (0 <= Zsum (map (source_use (cost req)) l2)) by (apply H; intros x Hx; apply elem_of_app; right; by right).
  lia.
Qed.

(** The estimate of the trace is the allocator's total, whatever else the
    trace says. *)
Lemma trace_balances distinct st l out trimmed :
  Ledger st l -> Within req st ->
  let tr := fillProgressiveTrace IsPrintWide req distinct l st out trimmed in
  EstimatedTokensUsed tr = tokensUsed st /\ EstimatedTokensFree tr = MaxTokens req - tokensUsed st /\
  EstimatedTokensUsed tr = Zsum (map EstimatedTokens (Sources tr)) + cost req nl * separators (rendered l).
Proof.
  intros [Ht _ _ _ HF] [Hin _] tr. destruct (bound_tokens req B HB), (bound_nl req B HB) as [_ Hnl].
  pose proof (bound_pos req B HB). pose proof (rendered_nonneg l) as Hr.
  assert (0 <= separators (rendered l)) as Hsep by (unfold separators; lia).
  unfold ProgressiveLedger.usage in Ht.
  assert (forall s, s ∈ l -> traceTokens IsPrintWide req s = source_use (cost req) s) as Hall.
  { intros s Hs. apply traceTokens_use; [by rewrite Forall_forall in HF; apply HF|].
    pose proof (use_le l s HF Hs). nia. }
  assert (fold_left (fun n s => n +i traceTokens IsPrintWide req s) l 0 = Zsum (map (source_use (cost req)) l)) as Hper.
  { rewrite fold_wrap; rewrite ?(Zsum_map_ext _ _ l Hall); [lia| |lia|nia].
    intros s Hs. rewrite (Hall s Hs). rewrite Forall_forall in HF. apply use_nonneg. by apply HF. }
  assert (Zsum (map EstimatedTokens (Sources tr)) = Zsum (map (source_use (cost req)) l)) as Hsum.
  { cbn [tr fillProgressiveTrace Sources]. rewrite map_map. by apply Zsum_map_ext. }
  rewrite Hsum. clear Hsum.
  assert (0 <= Zsum (map (source_use (cost req)) l)) as Hpos.
  { apply Zsum_map_nonneg. intros s Hs. rewrite Forall_forall in HF. apply use_nonneg. by apply HF. }
  assert (EstimatedTokensUsed tr = tokensUsed st) as Hused.
  { cbn [tr fillProgressiveTrace EstimatedTokensUsed]. rewrite shown_rendered, Hper. unfold separators in *.
    destruct (Z.ltb_spec 1 (rendered l)) as [Hlt|Hle].
    - rewrite Z.max_r in Ht, Hsep by lia. rewrite (Z.mul_comm (rendered l - 1)).
      set (P := cost req nl * (rendered l - 1)) in *. assert (0 <= P) by (subst P; nia).
      rewrite (wrap_int_id P) by (unfold in_int, MinInt, MaxInt in *; lia).
      rewrite wrap_int_id; [lia|]. unfold in_int, MinInt, MaxInt in *. lia.
    - replace (Z.max 0 (rendered l - 1)) with 0 in Ht by lia. lia. }
  split_and!; [done| |lia].
  change (EstimatedTokensFree tr) with
    (let free := MaxTokens req -i EstimatedTokensUsed tr in if free <? 0 then 0 else free).
  rewrite Hused. cbn zeta. rewrite wrap_int_id by (unfold in_int, MinInt, MaxInt in *; lia).
  destruct (Z.ltb_spec (MaxTokens req - tokensUsed st) 0); lia.
Qed.
End balance.

(** ** What a render owes its caller *)

(** The header of a rendered piece of evidence, from what the trace says. *)
Definition headerOf (IsPrintWide : Z -> bool) (e : RenderedEvidence) : string :=
  "--- source: " +:+ Quote IsPrintWide (re_Source e) +:+ " (lines " +:+
  pretty (re_StartLine e) +:+ "-" +:+ pretty (re_EndLine e) +:+
  ", similarity: " +:+ FormatFixed2 (re_Score e) +:+ ") ---".

Lemma HasPrefix_app p s : HasPrefix (p +:+ s) p = true.
Proof.
  induction p as [|c p IH]; [by destruct s|].
  change (String c p +:+ s) with (String c (p +:+ s)). cbn [HasPrefix]. by rewrite Ascii.eqb_refl.
Qed.

Definition shown (tr : ProgressiveTrace) : list ProgressiveSourceTrace :=
  List.filter (fun t => negb (t_Omitted t)) (Sources tr).

Lemma shown_placed IsPrintWide req tr l :
  Sources tr = map (sourceTrace IsPrintWide req) l ->
  shown tr = map (sourceTrace IsPrintWide req) (List.filter placed l).
Proof.
  unfold shown. intros ->. induction l as [|s l IH]; [done|]. cbn [map List.filter sourceTrace t_Omitted].
  rewrite depth_placed, negb_involutive, IH. by destruct (placed s).
Qed.

(** The blocks of a shown source: its orientation and one block for each piece of
    evidence its trace lists, in order, each under its own header; the trace's
    estimate is that of these texts. *)
Definition emitted (IsPrintWide : Z -> bool) (req : ProgressiveRenderRequest) (b : list string)
    (t : ProgressiveSourceTrace) : Prop :=
  exists o ev, b = o :: ev /\
    HasPrefix o ("### source: " +:+ Quote IsPrintWide (t_Source t)) = true /\
    Forall2 (fun e r => HasPrefix e (headerOf IsPrintWide r +:+ nl) = true) ev (t_RenderedEvidence t) /\
    EstimatedTokens t = Zsum (map (cost req) b).

(** The ceilings are kept, the trace gives the length of the output, nothing was
    trimmed, the output is the blocks of the shown sources and a separator
    between two sources, a text costs what the caller's estimator says if that is
    positive and a quarter of its length otherwise, the tokens used are those of
    all blocks and separators, with those left they make up the budget, and an
    omitted source cost nothing. *)
Record Balanced (IsPrintWide : Z -> bool) (req : ProgressiveRenderRequest) (out : string) (tr : ProgressiveTrace) : Prop := mkBalanced {
  bal_bytes : slen out <= MaxBytes req;
  bal_length : BytesUsed tr = slen out;
  bal_untrimmed : TrimmedBlocks tr = 0 /\ OutputTruncated tr = false;
  bal_blocks : exists bs, out = Join (map (String.concat "") bs) nl /\
    Forall2 (emitted IsPrintWide req) bs (shown tr) /\
    EstimatedTokensUsed tr = Zsum (map (cost req) (concat bs)) + cost req nl * separators (len bs);
  bal_estimator : forall x, x <> "" -> cost req x =
    match Estimate req with
    | Some f => if 0 <? f x then f x else defaultEstimate x
    | None => defaultEstimate x
    end;
  bal_tokens : 0 <= EstimatedTokensUsed tr /\ 0 <= EstimatedTokensFree tr;
  bal_whole : EstimatedTokensUsed tr + EstimatedTokensFree tr = MaxTokens req;
  bal_parts : EstimatedTokensUsed tr = Zsum (map EstimatedTokens (Sources tr)) +
    cost req nl * separators (SourcesAtL0 tr + SourcesAtL1 tr + SourcesWithEvidence tr);
  bal_omitted : Forall (fun t => t_Omitted t = true -> EstimatedTokens t = 0 /\ t_RenderedEvidence t = []) (Sources tr);
}.

(** ** The render *)

Section render.
Context (IsPrintWide : Z -> bool) (sha256Hex : string -> string) (reader : option progressiveStoreReader).
Context (req : ProgressiveRenderRequest) (B : Z).
Notation assembled := (assembled IsPrintWide).
Notation Fits := (Fits IsPrintWide req B).
Notation Ledger := (Ledger IsPrintWide req B).
Notation prepare := (prepareProgressiveSources sha256Hex reader).
Notation render := (renderProgressive IsPrintWide sha256Hex reader).

(** [B] bounds every block of the sources a request names, and no sum of
    admitted blocks leaves an int. *)
Record Sized : Prop := mkSized {
  sized_bound : BoundOK req B;
  sized_sources : forall sources, prepare req = Ok sources -> Forall (fun s => Fits (prep s)) sources;
}.

Lemma prepare_judged sources :
  prepare req = Ok sources ->
  exists P S D, sources = map (judge sha256Hex reader P S D) (groupResults 0 (Results req) []).
Proof.
  unfold prepareProgressiveSources. destruct reader as [r|]; [|intros [= <-]; by eexists _, _, _].
  destruct (SourceProvenanceBatch r _) as [P|]; [|done]. destruct (SourceSummaryBatch r _) as [S|]; [|done].
  destruct (ChunkContentDigestBatch r _) as [D|]; [|done]. intros [= <-]. by exists P, S, D.
Qed.

(** What the allocator may assume of the prepared sources. *)
Lemma prepare_spec sources :
  prepare req = Ok sources ->
  NoDup (map (fun s => source (prep s)) sources) /\ Forall Fresh sources /\
  Forall (fun s => results (prep s) = of_source (source (prep s)) (Results req)) sources /\
  Forall (fun r => Source (res_Chunk r) ∈ map (fun s => source (prep s)) sources) (Results req).
Proof.
  intros (P & S & D & ->)%prepare_judged. destruct (grouped_results (Results req)) as [Hn Hr Ha].
  rewrite map_map. change (fun x => source (prep (judge sha256Hex reader P S D x))) with source. split_and!.
  - done.
  - apply Forall_fmap, Forall_true. intros p. unfold compose. done.
  - apply Forall_fmap. eapply Forall_impl; [exact Hr|]. intros p [H _]. exact H.
  - done.
Qed.

(** Only the reads of the store fail. *)
Lemma prepare_err e : prepare req = Err e -> exists id, e = ErrReader id.
Proof.
  unfold prepareProgressiveSources. destruct reader as [r|]; [|done].
  destruct (SourceProvenanceBatch r _); [|intros [= <-]; eauto].
  destruct (SourceSummaryBatch r _); [|intros [= <-]; eauto].
  destruct (ChunkContentDigestBatch r _); [done|intros [= <-]; eauto].
Qed.

Definition selected (pin : PinRef) (res : SearchResult) : Prop :=
  res ∈ Results req /\ Source (res_Chunk res) = pin_Source pin /\ ID (res_Chunk res) = pin_ChunkID pin.

(** The pin can be honoured: evidence is asked for and a result is the chunk. *)
Definition wanted (pin : PinRef) : Prop := maxDepth req = DepthL2 /\ exists res, selected pin res.

Lemma elem_of_source name rs r : r ∈ of_source name rs <-> r ∈ rs /\ Source (res_Chunk r) = name.
Proof.
  unfold of_source. rewrite list_elem_of_In, List.filter_In, <-list_elem_of_In.
  unfold string_eqb. by rewrite bool_decide_eq_true.
Qed.

Lemma find_source_none k name l : find_source k name l = None -> name ∉ map (fun s => source (prep s)) l.
Proof.
  revert k. induction l as [|s l IH]; intros k; simpl; [intros _; apply not_elem_of_nil|].
  destruct (find_source (S k) name l) eqn:E; [done|]. unfold string_eqb. case_bool_decide as En; [done|].
  intros _. apply not_elem_of_cons. split; [congruence|by eapply IH].
Qed.

Lemma find_chunk_none i id l : find_chunk i id l = None -> forall r, r ∈ l -> ID (res_Chunk r) <> id.
Proof.
  revert i. induction l as [|r l IH]; intros i; simpl; [by intros _ r ?%elem_of_nil|].
  unfold string_eqb. case_bool_decide as En; [done|]. intros E r' [->|Hr]%elem_of_cons; [done|by eapply IH].
Qed.

(** A pin without a target names no selected result, or evidence is not asked for. *)
Lemma no_target l pin :
  Forall (fun s => results (prep s) = of_source (source (prep s)) (Results req)) l ->
  Forall (fun r => Source (res_Chunk r) ∈ map (fun s => source (prep s)) l) (Results req) ->
  (pinTarget req l pin = None <-> ~ wanted pin).
Proof.
  intros Hr Ha. split.
  - intros H [Hd (res & Hin & Hs & Hid)]. unfold pinTarget in H.
    destruct (find_source 0 (pin_Source pin) l) as [k|] eqn:Ek.
    + apply find_source_spec in Ek as (s & _ & Hk & Hn). rewrite Nat.sub_0_r in Hk.
      rewrite Hd in H. rewrite Z.eqb_refl, Hk in H.
      destruct (find_chunk 0 (pin_ChunkID pin) (results (prep s))) eqn:Ei; [done|].
      apply (find_chunk_none _ _ _ Ei res); [|done].
      rewrite (Forall_lookup_1 _ _ _ _ Hr Hk). apply elem_of_source. by rewrite Hn.
    + apply find_source_none in Ek. apply Ek. rewrite <-Hs. rewrite Forall_forall in Ha. by apply Ha.
  - intros H. destruct (pinTarget req l pin) as [t|] eqn:Et; [|done]. exfalso. apply H. split.
    + unfold pinTarget in Et. destruct (Z.eqb_spec (maxDepth req) DepthL2); done.
    + apply pinTarget_spec in Et as (s & r & Hs & Hn & Hres & Hid). exists r.
      rewrite (Forall_lookup_1 _ _ _ _ Hr Hs) in Hres. apply list_elem_of_lookup_2 in Hres.
      apply elem_of_source in Hres as [Hin Hsrc]. split_and!; [done|congruence|done].
Qed.

(** A successful render of some results: what the allocator answered is what is
    emitted, and nothing is trimmed. *)
Lemma render_emits wantGroups out tr gs :
  Sized -> Results req <> [] -> render req wantGroups = Ok (out, tr, gs) ->
  exists sources st l,
    prepare req = Ok sources /\ Ledger st l /\ Within req st /\
    let sorted := sort_by (fun s => firstIndex (prep s)) sources in
    preps l = preps sorted /\
    unmatchedPins st = (resolvePins req sorted [] (Pinned req)).2 /\
    Forall (fun t => exists s, l !! t.1 = Some s /\ placed s = true /\ t.2 ∈ evidence s)
      (resolvePins req sorted [] (Pinned req)).1 /\
    out = assembled l /\ tr = fillProgressiveTrace IsPrintWide req (len sources) l st out 0.
Proof.
  intros [HB HF] Hne. unfold renderProgressive. destruct (validateProgressiveRequest req); [done|].
  destruct (Z.eqb_spec (len (Results req)) 0) as [E|_].
  { destruct (Results req); [done|]. rewrite len_cons in E. len_lia. }
  destruct (prepare req) as [sources|e] eqn:Ep; [|done].
  destruct (prepare_spec sources Ep) as (Hnd & Hfr & _).
  pose proof (allocated_ledger IsPrintWide req B HB sources Hnd Hfr (HF sources eq_refl)) as Ha. cbn zeta in Ha.
  destruct (allocate IsPrintWide req sources) as [[st l]|e]; [|done].
  destruct Ha as (HL & HW & Hps & Hun & Hpins). rewrite assembled_fits.
  - intros [= <- <- <-]. by exists sources, st, l.
  - rewrite assembled_bytes. destruct HL, HW. lia.
Qed.

Lemma render_errs wantGroups e :
  Sized -> render req wantGroups = Err e ->
  validateProgressiveRequest req = Some e \/ (exists id, e = ErrReader id) \/
  exists t b, e = ErrPinnedOverflow t b /\ (MaxTokens req < t \/ MaxBytes req < b) /\
    exists pin, pin ∈ Pinned req /\ wanted pin.
Proof.
  intros [HB HF]. unfold renderProgressive. destruct (validateProgressiveRequest req); [intros [= <-]; by left|].
  destruct (len (Results req) =? 0); [done|].
  destruct (prepare req) as [sources|e'] eqn:Ep; [|intros [= <-]; right; left; by apply prepare_err].
  destruct (prepare_spec sources Ep) as (Hnd & Hfr & Hr & Ha).
  pose proof (allocated_ledger IsPrintWide req B HB sources Hnd Hfr (HF sources eq_refl)) as Hal. cbn zeta in Hal.
  destruct (allocate IsPrintWide req sources) as [[st l]|e'].
  - destruct Hal as (HL & HW & _). rewrite assembled_fits; [done|].
    rewrite assembled_bytes. destruct HL, HW. lia.
  - intros [= <-]. right. right. destruct Hal as (t & b & -> & Hover & Hne). exists t, b. split_and!; [done..|].
    set (sorted := sort_by _ sources) in *.
    assert (Forall (fun s => results (prep s) = of_source (source (prep s)) (Results req)) sorted) as Hr'
      by (unfold sorted; by rewrite sort_by_perm).
    assert (exists pin, pin ∈ Pinned req /\ pinTarget req sorted pin <> None) as (pin & Hpin & Ht).
    { clear -Hne. revert Hne. generalize (@nil PinRef). induction (Pinned req) as [|pin pins IH]; intros seen; simpl; [done|].
      case_bool_decide; [intros H1; destruct (IH seen H1) as (q & Hq & Ht); exists q; split; [by right|done]|].
      specialize (IH (pin :: seen)). destruct (resolvePins req sorted (pin :: seen) pins) as [ts un].
      destruct (pinTarget req sorted pin) eqn:E.
      - intros _. exists pin. split; [by left|by rewrite E].
      - intros H1. destruct (IH H1) as (q & Hq & Ht). exists q. split; [by right|done]. }
    destruct (pinTarget req sorted pin) as [tgt|] eqn:E; [|done].
    assert (maxDepth req = DepthL2) as Hd.
    { unfold pinTarget in E. destruct (Z.eqb_spec (maxDepth req) DepthL2); done. }
    apply pinTarget_spec in E as (s & r & Hs & Hn & Hres & Hid). exists pin. split; [done|]. split; [done|]. exists r.
    rewrite (Forall_lookup_1 _ _ _ _ Hr' Hs) in Hres. apply list_elem_of_lookup_2, elem_of_source in Hres as [? ?].
    split_and!; [done|congruence|done].
Qed.

(** *** What is in the output *)

Definition within (x out : string) : Prop := exists a b, out = a +:+ x +:+ b.

Lemma within_concat sep x l : x ∈ l -> within x (String.concat sep l).
Proof.
  induction l as [|y l IH]; [by intros ?%elem_of_nil|]. intros [<-|Hx]%elem_of_cons.
  - destruct l as [|z l]; [exists "", ""; by rewrite append_empty_r|]. exists "", (sep +:+ String.concat sep (z :: l)).
    by rewrite concat_cons.
  - destruct (IH Hx) as (a & b & E). destruct l as [|z l]; [by apply elem_of_nil in Hx|].
    exists (y +:+ sep +:+ a), b. rewrite concat_cons, E. by rewrite !append_assoc.
Qed.

Lemma within_trans x y z : within x y -> within y z -> within x z.
Proof. intros (a & b & ->) (c & d & ->). exists (c +:+ a), (b +:+ d). by rewrite !append_assoc. Qed.

Lemma evidence_within l s i :
  s ∈ l -> placed s = true -> i ∈ evidence s -> within (evidenceAt IsPrintWide s i) (assembled l).
Proof.
  intros Hs Hp Hi. apply (within_trans _ (sourceText IsPrintWide s)).
  - apply within_concat. unfold blocks. rewrite Hp. right. by apply list_elem_of_fmap_2.
  - apply within_concat, list_elem_of_fmap_2, list_elem_of_In, List.filter_In. split; [by apply list_elem_of_In|done].
Qed.

Lemma cost_estimator x :
  x <> "" -> cost req x =
    match Estimate req with
    | Some f => if 0 <? f x then f x else defaultEstimate x
    | None => defaultEstimate x
    end.
Proof. intros Hx. unfold cost, safeEstimate, string_eqb. by rewrite bool_decide_eq_false_2. Qed.

(** The blocks of the shown sources are those their traces describe. *)
Lemma blocks_emitted st l tr :
  Ledger st l -> Within req st -> Sources tr = map (sourceTrace IsPrintWide req) l ->
  BoundOK req B ->
  Forall2 (emitted IsPrintWide req) (map (blocks IsPrintWide) (List.filter placed l)) (shown tr) /\
  Zsum (map (cost req) (concat (map (blocks IsPrintWide) (List.filter placed l)))) =
    Zsum (map EstimatedTokens (Sources tr)).
Proof.
  intros [Ht _ _ Hg HF] [Hin _] Hs HB. rewrite (shown_placed IsPrintWide req tr l Hs), Hs.
  assert (forall s, s ∈ l -> traceTokens IsPrintWide req s = Zsum (map (cost req) (blocks IsPrintWide s))) as Hall.
  { intros s Hl. apply (traceTokens_use IsPrintWide req B HB); [by rewrite Forall_forall in HF; apply HF|].
    pose proof (use_le IsPrintWide req B HB l s HF Hl). destruct (bound_tokens req B HB), (bound_nl req B HB).
    pose proof (rendered_nonneg l). unfold ProgressiveLedger.usage, separators, source_use in *. nia. }
  clear Ht Hin Hs HF. induction Hg as [|s l [_ _ Hr] _ IH]; [by split|]. cbn [map List.filter Zsum].
  destruct IH as [IH1 IH2]; [intros; apply Hall; by right|].
  pose proof (Hall s ltac:(by left)) as Htok. cbn [EstimatedTokens sourceTrace]. rewrite Htok, <-IH2.
  destruct (placed s) eqn:Hp; [|unfold blocks; by rewrite Hp].
  cbn [map concat]. rewrite map_app, Zsum_app. split; [|done]. constructor; [|done].
  unfold emitted. cbn [EstimatedTokens sourceTrace t_Source t_RenderedEvidence]. rewrite Htok.
  unfold blocks. rewrite Hp. eexists _, _. split_and!; [done| | |done].
  - unfold orient, orientationText, orientationTextWithNote, orientationHeader. cbv zeta.
    rewrite !append_assoc. rewrite <-!append_assoc. rewrite append_assoc. apply HasPrefix_app.
  - unfold evidenceOf. induction Hr as [|i k Hi _ IHr]; [constructor|]. csimpl.
    apply lookup_lt_is_Some in Hi as [res Hres]. unfold evidenceAt at 1. rewrite Hres. cbn [option_map].
    constructor; [|exact IHr]. unfold evidenceText. rewrite append_assoc. apply HasPrefix_app.
Qed.

(** Nothing to render: the whole budget is left. *)
Lemma render_empty wantGroups out tr gs :
  Results req = [] -> render req wantGroups = Ok (out, tr, gs) ->
  Balanced IsPrintWide req out tr.
Proof.
  intros Hnil. unfold renderProgressive. destruct (validateProgressiveRequest req) eqn:Ev; [done|].
  rewrite Hnil. cbn [len]. change (len (@nil SearchResult) =? 0) with true. cbn iota.
  intros [= <- <- <-]. unfold validateProgressiveRequest in Ev.
  destruct (Z.leb_spec (MaxTokens req) 0); [done|]. destruct (Z.leb_spec (MaxBytes req) 0); [done|].
  assert (slen "" = 0) as Hs by done. split; cbn; rewrite ?Hs, ?Z.mul_0_r; try done; try lia.
  - exists []. split_and!; [done|by apply Forall2_nil_2|].
    change (separators (len (@nil (list string)))) with 0. by rewrite Z.mul_0_r.
  - apply cost_estimator.
Qed.

Lemma omitted_free st l :
  Ledger st l ->
  Forall (fun t => t_Omitted t = true -> EstimatedTokens t = 0 /\ t_RenderedEvidence t = [])
    (map (sourceTrace IsPrintWide req) l).
Proof.
  intros [_ _ _ Hg _]. apply Forall_fmap. eapply Forall_impl; [exact Hg|]. intros s [Hno _ _] Ho.
  cbn [compose sourceTrace t_Omitted EstimatedTokens t_RenderedEvidence] in *.
  rewrite depth_placed in Ho. apply negb_true_iff in Ho. unfold traceTokens, evidenceOf.
  by rewrite Ho, (Hno Ho).
Qed.
Lemma empty_no_pins wantGroups out tr gs :
  Results req = [] -> render req wantGroups = Ok (out, tr, gs) -> UnmatchedPins tr = [].
Proof.
  intros Hnil. unfold renderProgressive. destruct (validateProgressiveRequest req); [done|].
  rewrite Hnil. change (len (@nil SearchResult) =? 0) with true. cbn iota. by intros [= <- <- <-].
Qed.

Lemma prepare_sorted sources :
  prepare req = Ok sources ->
  let sorted := sort_by (fun s => firstIndex (prep s)) sources in
  Forall (fun s => results (prep s) = of_source (source (prep s)) (Results req)) sorted /\
  Forall (fun r => Source (res_Chunk r) ∈ map (fun s => source (prep s)) sorted) (Results req).
Proof.
  intros (_ & _ & Hr & Ha)%prepare_spec sorted. split; [unfold sorted; by rewrite sort_by_perm|].
  eapply Forall_impl; [exact Ha|]. intros r. cbn beta. unfold sorted. by rewrite sort_by_perm.
Qed.
End render.

(** ** The properties *)

(** C8: A successful render keeps its ceilings and its trace balances
    ([Balanced]): the output is at most MaxBytes long and its length is the one
    reported; the defensive trim dropped nothing; the output is made of the
    blocks of the shown sources, each under the header the trace says and with
    an evidence block for every piece of evidence the trace lists, and of one
    separator between two sources; the tokens reported are the estimates of
    exactly these blocks and separators, by the caller's estimator where it
    answers; tokens used and tokens left make up MaxTokens; and an omitted source
    cost nothing. *)
Theorem render_within_budget IsPrintWide sha256Hex reader req B out tr :
  Sized IsPrintWide sha256Hex reader req B ->
  RenderProgressive IsPrintWide sha256Hex reader req = Ok (out, tr) ->
  Balanced IsPrintWide req out tr.
Proof.
  intros HS. unfold RenderProgressive.
  destruct (renderProgressive _ _ _ req false) as [[[o t] gs]|e] eqn:E; [intros [= -> ->]|done].
  destruct (decide (Results req = [])) as [Hnil|Hne]; [by apply (render_empty IsPrintWide sha256Hex reader req false out tr gs)|].
  destruct (render_emits _ _ _ req B false out tr gs HS Hne E)
    as (sources & st & l & _ & HL & HW & _ & _ & _ & -> & ->).
  destruct (trace_balances IsPrintWide req B (sized_bound _ _ _ _ _ HS) (len sources) st l
    (assembled IsPrintWide l) 0 HL HW) as (Hu & Hf & Hs).
  destruct (blocks_emitted IsPrintWide req B st l (fillProgressiveTrace IsPrintWide req (len sources) l st
    (assembled IsPrintWide l) 0) HL HW eq_refl (sized_bound _ _ _ _ _ HS)) as [He Hb].
  pose proof (led_bytes _ _ _ _ _ HL). pose proof (assembled_bytes IsPrintWide l). destruct HW as [Hti Hby].
  split; rewrite ?trace_shown; try done; try lia; [|apply cost_estimator|by apply (omitted_free IsPrintWide req B st)].
  eexists. split_and!; [|exact He|].
  - unfold assembled. by rewrite map_map.
  - rewrite Hb, Hs. unfold len. by rewrite length_map, rendered_filter.
Qed.

(** C10: No pin is lost: a pin is reported as unmatched exactly when the render
    has results but either evidence is excluded by the depth or none of the
    results is the pinned chunk; otherwise the trace of its source lists the
    chunk, and the chunk's evidence block is in the output. *)
Theorem pins_rendered IsPrintWide sha256Hex reader req B out tr pin :
  Sized IsPrintWide sha256Hex reader req B ->
  RenderProgressive IsPrintWide sha256Hex reader req = Ok (out, tr) ->
  pin ∈ Pinned req ->
  (pin ∈ UnmatchedPins tr <-> Results req <> [] /\ ~ wanted req pin) /\
  (wanted req pin -> exists res t, selected req pin res /\ t ∈ Sources tr /\ t_Source t = pin_Source pin /\
     renderedOf res ∈ t_RenderedEvidence t /\ within (evidenceText IsPrintWide res) out).
Proof.
  intros HS. unfold RenderProgressive.
  destruct (renderProgressive _ _ _ req false) as [[[o t] gs]|e] eqn:E; [intros [= -> ->] Hpin|done].
  destruct (decide (Results req = [])) as [Hnil|Hne].
  { split.
    - rewrite (empty_no_pins _ _ _ _ _ _ _ _ Hnil E). split; [by intros ?%elem_of_nil|by intros [? _]].
    - intros [_ (res & Hres & _)]. rewrite Hnil in Hres. by apply elem_of_nil in Hres. }
  destruct (render_emits _ _ _ req B false out tr gs HS Hne E)
    as (sources & st & l & Hp & _ & _ & Hps & Hun & Hpins & -> & ->).
  destruct (prepare_sorted sha256Hex reader req sources Hp) as [Hr Ha].
  set (sorted := sort_by _ sources) in *.
  pose proof (no_target req sorted pin Hr Ha) as Hno.
  destruct (resolvePins_spec req sorted [] (Pinned req)) as (_ & _ & Hres & Hunm).
  assert (pin ∉ @nil PinRef) as Hnil by apply not_elem_of_nil.
  specialize (Hres pin Hpin Hnil). cbn [fillProgressiveTrace UnmatchedPins Sources]. rewrite Hun.
  split.
  - split; [intros Hu; split; [done|by apply Hno, Hunm]|].
    intros [_ Hw%Hno]. by rewrite Hw in Hres.
  - intros Hw. destruct (pinTarget req sorted pin) as [t|] eqn:Et; [|by apply Hno in Hw].
    apply pinTarget_spec in Et as (s0 & r & Hs0 & Hname & Hi & Hid).
    rewrite Forall_forall in Hpins. destruct (Hpins t Hres) as (s & Hs & Hpl & Hev).
    assert (prep s = prep s0) as Hprep.
    { apply (f_equal (fun ps => ps !! t.1)) in Hps. unfold preps in Hps.
      rewrite !list_lookup_fmap, Hs, Hs0 in Hps. by injection Hps. }
    rewrite <-Hprep in Hname, Hi. exists r, (sourceTrace IsPrintWide req s). split_and!.
    + rewrite Hprep, (Forall_lookup_1 _ _ _ _ Hr Hs0), <-Hprep in Hi.
      apply list_elem_of_lookup_2, elem_of_source in Hi as [? ?]. split_and!; [done|congruence|done].
    + by eapply list_elem_of_fmap_2, list_elem_of_lookup_2.
    + done.
    + apply list_elem_of_omap. exists t.2. by rewrite Hi.
    + pose proof (evidence_within IsPrintWide l s t.2) as Hin. unfold evidenceAt in Hin. rewrite Hi in Hin.
      apply Hin; [by eapply list_elem_of_lookup_2|done|done].
Qed.

(** A request that is accepted fails only when the store cannot be read or
    when the blocks of its matched pins exceed a ceiling; with neither it always
    renders.  In particular the trim never meets a pinned block. *)
Theorem render_fails_only IsPrintWide sha256Hex reader req B e :
  Sized IsPrintWide sha256Hex reader req B ->
  RenderProgressive IsPrintWide sha256Hex reader req = Err e ->
  validateProgressiveRequest req = Some e \/
  (exists id, e = ErrReader id) \/
  exists t b, e = ErrPinnedOverflow t b /\ (MaxTokens req < t \/ MaxBytes req < b) /\
    exists pin, pin ∈ Pinned req /\ wanted req pin.
Proof.
  intros HS. unfold RenderProgressive.
  destruct (renderProgressive _ _ _ req false) as [[[o t] gs]|e'] eqn:E; [done|intros [= ->]].
  by eapply render_errs.
Qed.

(** *** A render of two sources with a pin on the second and one on nothing *)

Definition demo_result (id source content : string) (line : Z) : SearchResult :=
  mkResult (mkChunk id content source line line "go" ∅ id) (flit 5 8) (flit 3 8).
Definition demo_request (maxTokens : Z) : ProgressiveRenderRequest :=
  mkRequest [demo_result "c1" "a.go" "package a" 1; demo_result "c2" "b.go" "--- source: forged" 7]
    maxTokens 2000 0 DepthInvalid [mkPin "b.go" "c2"; mkPin "a.go" "gone"] None.
Notation demo_render maxTokens := (RenderProgressive (fun _ => true) id None (demo_request maxTokens)) (only parsing).

Definition demo_out : string * ProgressiveTrace :=
  match demo_render 100 with
  | Ok r => r
  | Err _ => ("", emptyTrace (demo_request 100))
  end.

Ltac fits := split; [intros [] []|intros res [->|H%elem_of_nil]%elem_of_cons; [|done]]; by vm_compute.

Lemma demo_sized maxTokens :
  0 <= maxTokens <= 1000 -> Sized (fun _ => true) id None (demo_request maxTokens) 1000.
Proof.
  intros Hm. split.
  - split; [lia|by vm_compute|by vm_compute| |by vm_compute].
    cbn [demo_request MaxTokens]. unfold MaxInt. lia.
  - intros sources [= <-]. apply Forall_cons; split; [fits|]. apply Forall_cons; split; [fits|constructor].
Qed.

Lemma demo_ok : demo_render 100 = Ok (demo_out.1, demo_out.2).
Proof. vm_compute. reflexivity. Qed.

Lemma render_within_budget_witness :
  demo_render 100 = Ok (demo_out.1, demo_out.2) /\ Balanced (fun _ => true) (demo_request 100) demo_out.1 demo_out.2 /\
  UnmatchedPins demo_out.2 = [mkPin "a.go" "gone"].
Proof.
  split; [exact demo_ok|]. split; [|vm_compute; reflexivity].
  apply (render_within_budget (fun _ => true) id None (demo_request 100) 1000 demo_out.1 demo_out.2).
  - apply demo_sized. lia.
  - exact demo_ok.
Defined.

Lemma pins_rendered_witness :
  within (evidenceText (fun _ => true) (demo_result "c2" "b.go" "--- source: forged" 7)) demo_out.1.
Proof.
  destruct (pins_rendered (fun _ => true) id None (demo_request 100) 1000 demo_out.1 demo_out.2
    (mkPin "b.go" "c2")) as [_ H].
  - apply demo_sized. lia.
  - exact demo_ok.
  - by left.
  - destruct H as (res & t & (Hin & Hs & _) & _ & _ & _ & Hw).
    + split; [done|]. exists (demo_result "c2" "b.go" "--- source: forged" 7). split; [right; by left|done].
    + apply elem_of_cons in Hin as [->|Hin]; [discriminate Hs|].
      apply elem_of_cons in Hin as [->|Hin]; [exact Hw|by apply elem_of_nil in Hin].
Defined.

Lemma render_fails_only_witness :
  exists t b, demo_render 5 = Err (ErrPinnedOverflow t b) /\ 5 < t.
Proof.
  assert (exists t b, demo_render 5 = Err (ErrPinnedOverflow t b)) as (t & b & E) by (by eexists _, _; vm_compute).
  exists t, b. split; [exact E|].
  destruct (render_fails_only (fun _ => true) id None (demo_request 5) 1000 (ErrPinnedOverflow t b))
    as [H|[[i H]|(t' & b' & [= <- <-] & [H|H] & _)]].
  - apply demo_sized. lia.
  - exact E.
  - discriminate H.
  - discriminate H.
  - exact H.
  - vm_compute in E. by simplify_eq.
Defined.
