(* ===== verification/ProgressiveHeaders.v ===== *)
(** * ProgressiveHeaders: nothing retrieved can forge a header

    The rendered sources, titles, summaries, metadata and chunk contents are
    untrusted.  Every line of the output that looks like a header is one the
    render wrote for a block its trace lists, and nothing but the line feed ends a
    line of the output, neither the other ASCII breaks nor U+0085, U+2028 and
    U+2029 ([WideBreaks]). *)

From Stdlib Require Import Strings.Ascii.
From stdpp Require Import strings list gmap pretty.
From S2P Require Import Prelude GoString GoFloat GoText GoFormat WideBreaks Request ContextSets ProgressiveText Progressive ProgressiveLedger ProgressiveRun ProgressiveOutput.

#[local] Open Scope string_scope.
#[local] Open Scope Z_scope.
#[local] Open Scope list_scope.

(** ** Line breaks *)

Definition LF : ascii := "010".
Definition is_break (c : ascii) : bool := bool_decide (c ∈ [LF; "011"; "012"; "013"]%char).
Definition unbroken (s : string) : bool := all_chars (fun c => negb (is_break c)) s.

Lemma unbroken_app s t : unbroken (s +:+ t) = unbroken s && unbroken t.
Proof. apply all_chars_app. Qed.

Lemma graphic_unbroken s : all_chars graphic s = true -> unbroken s = true.
Proof.
  apply all_chars_impl. intros c Hc. apply negb_true_iff, bool_decide_eq_false. intros Hin.
  repeat (apply elem_of_cons in Hin as [->|Hin]; [done|]). by apply elem_of_nil in Hin.
Qed.

Lemma unbroken_no_LF s : unbroken s = true -> has_char LF s = false.
Proof.
  induction s as [|c s IH]; [done|]. unfold unbroken. cbn [all_chars has_char].
  intros [Hc Hs]%andb_true_iff. rewrite (IH Hs), orb_false_r. apply Ascii.eqb_neq. by intros ->.
Qed.

Lemma no_char_all c s : has_char c s = false <-> all_chars (fun d => negb (Ascii.eqb d c)) s = true.
Proof.
  induction s as [|d s IH]; [done|]. cbn [all_chars has_char].
  rewrite orb_false_iff, andb_true_iff, IH, negb_true_iff, (Ascii.eqb_sym d c). done.
Qed.

Lemma all_chars_and P Q s : all_chars (fun c => P c && Q c) s = all_chars P s && all_chars Q s.
Proof. induction s as [|c s IH]; [done|]. cbn [all_chars]. rewrite IH. by destruct (P c), (Q c), (all_chars P s). Qed.

(** The replacers leave no break behind, or only line feeds. *)
Lemma replaced_no_char pairs c s :
  Forall (fun p => has_char c p.2 = false) pairs -> String c EmptyString ∈ map fst pairs ->
  all_chars (fun d => negb (Ascii.eqb d c)) (Replace pairs s) = true.
Proof. intros H1 H2. by apply no_char_all, Replace_no_char. Qed.

Ltac replaced c :=
  rewrite (replaced_no_char _ c) by first [by repeat constructor | cbn [map fst]; set_solver].

Lemma four_breaks s :
  unbroken s = all_chars (fun d => negb (Ascii.eqb d LF)) s && (all_chars (fun d => negb (Ascii.eqb d "011"%char)) s &&
    (all_chars (fun d => negb (Ascii.eqb d "012"%char)) s && all_chars (fun d => negb (Ascii.eqb d "013"%char)) s)).
Proof.
  rewrite <-!all_chars_and. unfold unbroken. induction s as [|c s IH]; [done|]. cbn [all_chars]. rewrite IH. f_equal.
  by repeat (match goal with b : bool |- _ => destruct b | c : ascii |- _ => destruct c end).
Qed.

Lemma replaced_value v : unbroken (replaceOrientationLineBreaks v) = true.
Proof.
  rewrite four_breaks. unfold replaceOrientationLineBreaks.
  replaced LF. replaced "011"%char. replaced "012"%char. replaced "013"%char. done.
Qed.

Lemma trimmed_unbroken s : unbroken s = true -> unbroken (TrimSpace s) = true.
Proof.
  destruct (TrimSpace_parts s) as (a & b & E & _). rewrite E at 1. rewrite !unbroken_app.
  intros H. apply andb_true_iff in H as [_ H]. by apply andb_true_iff in H as [H _].
Qed.

Lemma normalized v : unbroken (normalizeOrientationValue v) = true.
Proof. apply trimmed_unbroken, replaced_value. Qed.

Lemma Join_unbroken sep l : unbroken sep = true -> Forall (fun v => unbroken v = true) l -> unbroken (Join l sep) = true.
Proof.
  intros Hsep. unfold Join. induction 1 as [|v [|w l] Hv Hl IH]; [done|exact Hv|].
  change (String.concat sep (v :: w :: l)) with (v +:+ sep +:+ String.concat sep (w :: l)).
  by rewrite !unbroken_app, Hv, Hsep, IH.
Qed.

Lemma joined_unbroken values : unbroken (joinSortedUnique values) = true.
Proof.
  apply Join_unbroken; [done|]. unfold SortStrings. rewrite merge_sort_Permutation.
  generalize (∅ : gset string). induction values as [|v values IH]; intros seen; [constructor|].
  cbn [uniqueValues]. destruct (_ || _); [apply IH|]. constructor; [apply normalized|apply IH].
Qed.

(** ** Lines and headers *)

Definition is_orientation_header (line : string) : bool := HasPrefix line "### ".
Definition is_evidence_header (line : string) : bool := HasPrefix line "--- ".
Definition is_header (line : string) : bool := is_orientation_header line || is_evidence_header line.

Definition lines (s : string) : list string := Split LF s.

(** Text of whole lines none of which looks like a header. *)
Definition Body (s : string) : Prop :=
  exists L, s = String.concat "" (map (fun x => x +:+ nl) L) /\
    Forall (fun x => unbroken x = true /\ is_header x = false) L.

Lemma concat_app0 l k : String.concat "" (l ++ k) = String.concat "" l +:+ String.concat "" k.
Proof. induction l as [|x l IH]; [done|]. cbn [app]. by rewrite !concat_cons0, IH, append_assoc. Qed.

Lemma Body_nil : Body "".
Proof. by exists []. Qed.

Lemma Body_app s t : Body s -> Body t -> Body (s +:+ t).
Proof.
  intros (L & -> & HL) (K & -> & HK). exists (L ++ K). rewrite map_app, concat_app0. by rewrite Forall_app.
Qed.

Lemma Body_line x : unbroken x = true -> is_header x = false -> Body (x +:+ nl).
Proof. intros H1 H2. exists [x]. by repeat constructor. Qed.

Lemma Body_concat l : Forall Body l -> Body (String.concat "" l).
Proof. induction 1 as [|x l Hx _ IH]; [apply Body_nil|]. rewrite concat_cons0. by apply Body_app. Qed.

(** What a filter that only keeps headers keeps of a text. *)
Section filter.
Context (P : string -> bool) (HP : forall x, P x = true -> is_header x = true).

Definition kept (s : string) : list string := List.filter P (lines s).

Lemma kept_line x s : unbroken x = true -> kept (x +:+ nl +:+ s) = (if P x then [x] else []) ++ kept s.
Proof.
  intros Hx. unfold kept, lines. change (nl +:+ s) with (String LF s).
  rewrite Split_cons by (by apply unbroken_no_LF). simpl. by destruct (P x).
Qed.

Lemma not_kept x : is_header x = false -> P x = false.
Proof. intros Hx. destruct (P x) eqn:E; [|done]. by rewrite (HP x E) in Hx. Qed.

Lemma kept_body b s : Body b -> kept (b +:+ s) = kept s.
Proof.
  intros (L & -> & HL). induction HL as [|x L [Hx Hh] _ IH]; [done|]. cbn [map].
  rewrite concat_cons0, <-!append_assoc, kept_line, (not_kept x Hh) by done. exact IH.
Qed.

Lemma kept_block h b s :
  unbroken h = true -> Body b -> kept ((h +:+ nl +:+ b) +:+ s) = (if P h then [h] else []) ++ kept s.
Proof. intros Hh Hb. rewrite <-!append_assoc, kept_line by done. by rewrite kept_body. Qed.
End filter.

(** ** The texts of the blocks *)

Lemma header_starts c s : is_header (String c s) = true -> c = "#"%char \/ c = "-"%char.
Proof.
  unfold is_header, is_orientation_header, is_evidence_header. cbn [HasPrefix].
  intros [H|H]%orb_true_iff; apply andb_true_iff in H as [H _]; apply Ascii.eqb_eq in H; auto.
Qed.

Lemma not_header c s : c <> "#"%char -> c <> "-"%char -> is_header (String c s) = false.
Proof. intros H1 H2. destruct (is_header (String c s)) eqn:E; [|done]. by destruct (header_starts c s E). Qed.

(** A name that cannot start a header. *)
Definition plain_name (name : string) : bool :=
  unbroken name && match name with String c _ => negb (Ascii.eqb c "#") && negb (Ascii.eqb c "-") | EmptyString => false end.

Lemma field_body name v : plain_name name = true -> unbroken v = true -> Body (field name v).
Proof.
  intros [Hn Hp]%andb_true_iff Hv. unfold field. destruct (string_eqb v ""); [apply Body_nil|].
  rewrite !append_assoc. apply Body_line; [by rewrite !unbroken_app, Hn, Hv|].
  destruct name as [|c name]; [done|]. apply andb_true_iff in Hp as [H1 H2].
  apply negb_true_iff, Ascii.eqb_neq in H1, H2. by apply not_header.
Qed.

Lemma rfc_unbroken t : unbroken (rfc3339 t) = true.
Proof. apply graphic_unbroken, rfc3339_graphic. Qed.

Lemma metaNote_unbroken p b : unbroken (metaNote p b) = true.
Proof.
  unfold metaNote. destruct b; cbn [negb]; [done|]. rewrite !unbroken_app.
  assert (unbroken (match reasons p with [] => "" | l => ": " +:+ Join (map reason_string l) ", " end) = true) as ->; [|done].
  destruct (reasons p) as [|r l]; [done|]. rewrite unbroken_app, Join_unbroken; [done|done|].
  apply Forall_fmap, Forall_true. by intros [].
Qed.

Ltac body :=
  repeat first
    [ apply Body_nil | apply Body_app
    | apply field_body; [done|]
    | apply normalized | apply joined_unbroken | apply rfc_unbroken | apply metaNote_unbroken
    | match goal with |- Body (if ?b then _ else _) => destruct b end
    | match goal with |- Body (match ?o with Some _ => _ | None => _ end) => destruct o end
    | rewrite !unbroken_app, normalized, rfc_unbroken; done ].

Section blocks.
Context (IsPrintWide : Z -> bool).

Lemma quoted s : unbroken (Quote IsPrintWide s) = true.
Proof. apply graphic_unbroken, Quote_graphic. Qed.

Lemma number_unbroken (z : Z) : unbroken (pretty z) = true.
Proof. apply graphic_unbroken, pretty_Z_graphic. Qed.

(** An orientation is one header and a body. *)
Lemma orientation_parts p level flag : exists b,
  Body b /\ orientationTextWithNote IsPrintWide p level flag = orientationHeader IsPrintWide p +:+ nl +:+ b.
Proof. unfold orientationTextWithNote. eexists. split; [|reflexivity]. cbv zeta. body. Qed.

Lemma orientationHeader_ok p :
  unbroken (orientationHeader IsPrintWide p) = true /\
  is_orientation_header (orientationHeader IsPrintWide p) = true /\
  is_evidence_header (orientationHeader IsPrintWide p) = false.
Proof.
  split; [|split; reflexivity]. unfold orientationHeader. rewrite !unbroken_app, quoted.
  destruct (Managed (prov p) && _); [|reflexivity]. rewrite unbroken_app, quoted. reflexivity.
Qed.

(** The numbered lines: a number comes before what the chunk says. *)
Definition digit (c : ascii) : bool := has_char c "0123456789".

Lemma pretty_N_digit (n : N) : exists c s, pretty n = String c s /\ digit c = true.
Proof.
  unfold pretty, pretty_N. destruct (decide (n = 0%N)) as [_|Hn]; [by exists "0"%char, ""|].
  assert (forall x s, ((0 < x)%N \/ exists c s', s = String c s' /\ digit c = true) ->
    exists c s', pretty_N_go x s = String c s' /\ digit c = true) as H; [|apply H; left; lia].
  intros x. induction (N.lt_wf_0 x) as [x _ IH]. intros s Hs. destruct (decide (0 < x)%N) as [Hx|Hx].
  - rewrite pretty_N_go_step by done. apply IH; [by apply N.div_lt|]. right.
    eexists _, _. split; [reflexivity|unfold pretty_N_char; by repeat case_match].
  - replace x with 0%N by lia. rewrite pretty_N_go_0. destruct Hs as [|Hs]; [lia|done].
Qed.

Lemma number_not_header (z : Z) x : is_header (pretty z +:+ "| " +:+ x) = false.
Proof.
  assert (forall c s, digit c = true -> is_header (String c s) = false) as Hd.
  { intros c s Hc. apply not_header; by intros ->. }
  destruct z as [|q|q]; [by apply Hd|..]; destruct (pretty_N_digit (N.pos q)) as (c & s & E & Hc).
  - change (pretty (Z.pos q)) with (pretty (N.pos q)). rewrite E. by apply Hd.
  - change (pretty (Z.neg q)) with (String "-" (pretty (N.pos q))). rewrite E.
    unfold is_header, is_orientation_header, is_evidence_header.
    change (String "-" (String c s) +:+ _) with (String "-" (String c (s +:+ "| " +:+ x))). cbn [HasPrefix].
    destruct (Ascii.eqb_spec "-" c) as [<-|]; done.
Qed.

Lemma Split_all_chars P sep s :
  all_chars P s = true -> Forall (fun x => all_chars P x = true) (Split sep s).
Proof.
  induction s as [|c s IH]; [by repeat constructor|]. cbn [all_chars Split]. intros [Hc Hs]%andb_true_iff.
  specialize (IH Hs). destruct (Ascii.eqb c sep); [by constructor|].
  destruct (Split sep s) as [|x l]; [by repeat constructor; cbn [all_chars]; rewrite Hc|].
  inversion_clear IH. constructor; [cbn [all_chars]; by apply andb_true_iff|done].
Qed.

Lemma Forall_removelast {A} (P : A -> Prop) l : Forall P l -> Forall P (removelast l).
Proof. induction 1 as [|x [|y l] Hx Hl IH]; [constructor|constructor|]. by constructor. Qed.

Lemma contentLines_unbroken content : Forall (fun x => unbroken x = true) (contentLines content).
Proof.
  unfold contentLines. set (s := Replace _ content).
  assert (Forall (fun x => unbroken x = true) (Split LF s)) as Hall.
  { assert (forall c, String c EmptyString ∈ map fst contentLineBreakReplacer -> Ascii.eqb c LF = false ->
      Forall (fun x => all_chars (fun d => negb (Ascii.eqb d c)) x = true) (Split LF s)) as H.
    { intros c Hc Hlf. apply Split_all_chars, replaced_no_char; [|done].
      assert (has_char c nl = false) as Hnl by (unfold nl; cbn [has_char]; fold LF; by rewrite orb_false_r, Ascii.eqb_sym).
      unfold contentLineBreakReplacer. by repeat (apply Forall_cons; split; [exact Hnl|]). }
    pose proof (Split_no_sep LF s) as H0.
    pose proof (H "011"%char ltac:(cbn [map fst contentLineBreakReplacer]; set_solver) eq_refl) as H1.
    pose proof (H "012"%char ltac:(cbn [map fst contentLineBreakReplacer]; set_solver) eq_refl) as H2.
    pose proof (H "013"%char ltac:(cbn [map fst contentLineBreakReplacer]; set_solver) eq_refl) as H3.
    rewrite Forall_forall in H0, H1, H2, H3 |- *. intros x Hx. rewrite four_breaks.
    by rewrite (proj1 (no_char_all LF x) (H0 x Hx)), (H1 x Hx), (H2 x Hx), (H3 x Hx). }
  change (Split "010" s) with (Split LF s). destruct (last (Split LF s)); [|done].
  destruct (string_eqb _ _); [by apply Forall_removelast|done].
Qed.

Lemma numberLines_body content start : Body (numberLines content start).
Proof.
  apply Body_concat, Forall_forall. intros x (i & line & -> & Hl)%elem_of_lookup_imap.
  pose proof (Forall_lookup_1 _ _ _ _ (contentLines_unbroken content) Hl) as Hb. cbn beta in Hb.
  rewrite (append_assoc "| "), append_assoc. apply Body_line; [|apply number_not_header].
  by rewrite !unbroken_app, number_unbroken, Hb.
Qed.

Lemma evidenceHeader_ok res :
  unbroken (evidenceHeader IsPrintWide res) = true /\
  is_orientation_header (evidenceHeader IsPrintWide res) = false /\
  is_evidence_header (evidenceHeader IsPrintWide res) = true.
Proof.
  split; [|split; reflexivity]. unfold evidenceHeader. rewrite !unbroken_app, quoted, !number_unbroken.
  by rewrite (graphic_unbroken _ (FormatFixed2_graphic _)).
Qed.

Lemma evidence_parts res : exists b,
  Body b /\ evidenceText IsPrintWide res = evidenceHeader IsPrintWide res +:+ nl +:+ b.
Proof. unfold evidenceText. eexists. split; [|reflexivity]. apply numberLines_body. Qed.

(** ** The output *)

(** The headers of a source that is shown. *)
Definition evidence_headers (s : progressiveSource) : list string :=
  omap (fun i => option_map (evidenceHeader IsPrintWide) (results (prep s) !! i)) (evidence s).
Definition source_headers (s : progressiveSource) : list string :=
  orientationHeader IsPrintWide (prep s) :: evidence_headers s.

Definition well_broken (s : string) : bool := all_chars (fun c => negb (is_break c) || Ascii.eqb c LF) s.

Lemma unbroken_well s : unbroken s = true -> well_broken s = true.
Proof. apply all_chars_impl. by intros c ->. Qed.

Lemma well_app s t : well_broken (s +:+ t) = well_broken s && well_broken t.
Proof. apply all_chars_app. Qed.

Lemma well_body b : Body b -> well_broken b = true.
Proof.
  intros (L & -> & HL). induction HL as [|x L [Hx _] _ IH]; [done|]. cbn [map].
  by rewrite concat_cons0, !well_app, (unbroken_well x Hx), IH.
Qed.

Lemma kept_evidence P l s t :
  (forall x, P x = true -> is_header x = true) ->
  kept P (String.concat "" (map (evidenceAt IsPrintWide s) l) +:+ t) =
    List.filter P (omap (fun i => option_map (evidenceHeader IsPrintWide) (results (prep s) !! i)) l) ++ kept P t.
Proof.
  intros HP. induction l as [|i l IH]; [done|]. cbn [map]. rewrite concat_cons0, <-append_assoc.
  unfold evidenceAt at 1. cbn [omap list_omap]. destruct (results (prep s) !! i) as [res|]; [|exact IH].
  destruct (evidence_parts res) as (b & Hb & ->). destruct (evidenceHeader_ok res) as (Hh & _ & _).
  rewrite kept_block by done. cbn [option_map List.filter]. rewrite IH. by destruct (P _).
Qed.

Lemma kept_source P s t :
  (forall x, P x = true -> is_header x = true) -> placed s = true ->
  kept P (sourceText IsPrintWide s +:+ t) = List.filter P (source_headers s) ++ kept P t.
Proof.
  intros HP Hp. unfold sourceText, blocks. rewrite Hp, concat_cons0, <-append_assoc.
  unfold orient, orientationText.
  destruct (orientation_parts (prep s) (orientation s) (summaryBudgetOmitted s)) as (b & Hb & ->).
  destruct (orientationHeader_ok (prep s)) as (Hh & _ & _). rewrite kept_block, kept_evidence by done.
  unfold source_headers, evidence_headers. cbn [List.filter]. by destruct (P (orientationHeader IsPrintWide (prep s))).
Qed.

Lemma kept_assembled P l :
  (forall x, P x = true -> is_header x = true) ->
  kept P (assembled IsPrintWide l) = List.filter P (concat (map source_headers (List.filter placed l))).
Proof.
  intros HP. unfold assembled, Join.
  assert (forall s, s ∈ List.filter placed l -> placed s = true) as Hall.
  { intros s Hs%list_elem_of_In%List.filter_In. apply Hs. }
  assert (kept P "" = []) as Hnil by (unfold kept; simpl; by rewrite (not_kept P HP "")).
  revert Hall. induction (List.filter placed l) as [|s k IH]; intros Hall; [exact Hnil|]. cbn [map concat].
  rewrite List.filter_app. assert (placed s = true) as Hp by (apply Hall; by left).
  destruct k as [|s' k].
  - cbn [map]. rewrite <-(append_empty_r (String.concat nl [sourceText IsPrintWide s])).
    change (String.concat nl [sourceText IsPrintWide s]) with (sourceText IsPrintWide s).
    by rewrite kept_source, Hnil by done.
  - cbn [map]. rewrite concat_cons, kept_source by done. f_equal.
    match goal with |- kept P (nl +:+ ?r) = _ => change (nl +:+ r) with ("" +:+ nl +:+ r) end. rewrite kept_line, (not_kept P HP "") by done. apply IH.
    intros x Hx. apply Hall. by right.
Qed.

Lemma well_assembled l : well_broken (assembled IsPrintWide l) = true.
Proof.
  assert (forall sep k, well_broken sep = true -> Forall (fun x => well_broken x = true) k ->
    well_broken (String.concat sep k) = true) as Hc.
  { intros sep k Hsep. induction 1 as [|x [|y k] Hx Hk IH]; [done|done|].
    by rewrite concat_cons, !well_app, Hx, Hsep, IH. }
  apply Hc; [done|]. apply Forall_fmap, Forall_true. intros s. apply Hc; [done|]. unfold blocks.
  destruct (placed s); [|constructor]. constructor.
  - unfold orient, orientationText.
    destruct (orientation_parts (prep s) (orientation s) (summaryBudgetOmitted s)) as (b & Hb & ->).
    destruct (orientationHeader_ok (prep s)) as (Hh & _ & _). by rewrite !well_app, (unbroken_well _ Hh), (well_body _ Hb).
  - apply Forall_fmap, Forall_true. intros i. unfold compose, evidenceAt.
    destruct (results (prep s) !! i) as [res|]; [|done].
    destruct (evidence_parts res) as (b & Hb & ->). destruct (evidenceHeader_ok res) as (Hh & _ & _).
    by rewrite !well_app, (unbroken_well _ Hh), (well_body _ Hb).
Qed.
End blocks.

(** ** Line breaks of several bytes *)

(** A text without one, which may follow any text without one. *)
Definition safe (s : string) : Prop := shut s = true /\ narrow s = true.

Lemma safe_app s t : safe s -> safe t -> safe (s +:+ t).
Proof.
  intros [H1 H2] [H3 H4]. split; [|by rewrite narrow_app, H2, H4]. by destruct s.
Qed.

Lemma safe_lit p s : all_chars ascii7 p = true -> p <> "" -> narrow s = true -> safe (p +:+ s).
Proof.
  intros Hp Hne Hs. split; [|by rewrite narrow_ascii_app]. destruct p as [|c p]; [done|].
  cbn [all_chars] in Hp. by apply andb_true_iff in Hp as [Hc _].
Qed.

Lemma safe_concat sep l : safe sep -> Forall safe l -> safe (String.concat sep l).
Proof.
  intros Hs. induction 1 as [|x [|y l] Hx Hl IH]; [by split|exact Hx|]. rewrite concat_cons. by repeat apply safe_app.
Qed.

Lemma narrow_join sep l :
  all_chars ascii7 sep = true -> sep <> "" -> Forall (fun v => narrow v = true) l -> narrow (Join l sep) = true.
Proof.
  intros Hs Hne. unfold Join. induction 1 as [|x [|y l] Hx Hl IH]; [done|exact Hx|]. rewrite concat_cons.
  destruct (safe_lit sep (String.concat sep (y :: l)) Hs Hne IH) as [H1 H2]. by rewrite narrow_app, Hx, H2.
Qed.

Ltac replacer := apply Replace_narrow;
  [repeat (apply Forall_cons; split; [by eexists _, _|]); constructor|cbn [map fst]; set_solver].

Lemma narrow_value v : narrow (normalizeOrientationValue v) = true.
Proof. apply narrow_trim. unfold replaceOrientationLineBreaks, orientationValueReplacer. replacer. Qed.

Lemma narrow_values values : narrow (joinSortedUnique values) = true.
Proof.
  apply narrow_join; [done|done|]. unfold SortStrings. rewrite merge_sort_Permutation.
  generalize (∅ : gset string). induction values as [|v values IH]; intros seen; [constructor|].
  cbn [uniqueValues]. destruct (_ || _); [apply IH|]. constructor; [apply narrow_value|apply IH].
Qed.

Lemma narrow_printable s : all_chars printable s = true -> narrow s = true.
Proof. intros H. by apply narrow_ascii, printable_ascii. Qed.

Lemma narrow_note p b : narrow (metaNote p b) = true.
Proof.
  unfold metaNote. destruct b; cbn [negb]; [done|]. apply safe_lit; [done|done|].
  assert (safe (match reasons p with [] => "" | l => ": " +:+ Join (map reason_string l) ", " end)) as H.
  { destruct (reasons p) as [|r l]; [by split|]. apply safe_lit; [done|done|]. apply narrow_join; [done|done|].
    apply Forall_fmap, Forall_true. by intros []. }
  by apply (safe_app _ ")" H).
Qed.

Lemma safe_field name v :
  all_chars ascii7 name = true -> name <> "" -> narrow v = true -> safe (field name v).
Proof.
  intros Hn Hne Hv. unfold field. destruct (string_eqb v ""); [by split|]. apply safe_lit; [done|done|].
  apply (safe_lit ": "); [done|done|]. by rewrite narrow_app, Hv.
Qed.

Lemma narrow_lines content : Forall (fun x => narrow x = true) (contentLines content).
Proof.
  unfold contentLines. assert (narrow (Replace contentLineBreakReplacer content) = true) as H
    by (unfold contentLineBreakReplacer; replacer).
  apply (narrow_split LF) in H. unfold LF in H. destruct (last _); [|done]. case_match; [|done].
  by apply Forall_removelast.
Qed.

Lemma pretty_Z_nonempty (z : Z) : pretty z <> "".
Proof.
  destruct z as [|q|q]; [done|..|done]. destruct (pretty_N_digit (N.pos q)) as (c & s & E & _).
  change (pretty (Z.pos q)) with (pretty (N.pos q)). by rewrite E.
Qed.

Ltac safe_fields :=
  repeat match goal with
  | |- safe (_ +:+ _) => apply safe_app
  | |- safe (field _ _) => apply safe_field; [done|done|]
  | |- narrow (normalizeOrientationValue _) = true => apply narrow_value
  | |- narrow (joinSortedUnique _) = true => apply narrow_values
  | |- narrow (metaNote _ _) = true => apply narrow_note
  | |- narrow (rfc3339 _) = true => apply narrow_printable, rfc3339_printable
  | |- safe (if ?b then _ else _) => destruct b
  | |- safe (match ?o with Some _ => _ | None => _ end) => destruct o
  | |- safe _ => by split
  end.

Section safe.
Context (IsPrintWide : Z -> bool).
Hypothesis not_line_separator : IsPrintWide 8232 = false.
Hypothesis not_paragraph_separator : IsPrintWide 8233 = false.

Lemma safe_quoted p v s : all_chars ascii7 p = true -> p <> "" -> narrow s = true -> safe (p +:+ Quote IsPrintWide v +:+ s).
Proof. intros Hp Hne Hs. apply safe_lit; [done|done|]. by rewrite narrow_quote. Qed.

Lemma safe_orientation p level flag : safe (orientationTextWithNote IsPrintWide p level flag).
Proof.
  unfold orientationTextWithNote. cbv zeta. apply safe_app.
  - unfold orientationHeader. apply safe_quoted; [done|done|].
    destruct (Managed (prov p) && _); [|done].
    rewrite <-(append_empty_r (" managed-title: " +:+ _)), <-append_assoc. apply safe_quoted; done.
  - safe_fields. rewrite narrow_app, narrow_value by done. cbn [andb].
    rewrite narrow_ascii_app by done. apply narrow_printable, rfc3339_printable.
Qed.

Lemma safe_evidence res : safe (evidenceText IsPrintWide res).
Proof.
  unfold evidenceText. apply safe_app; [|apply safe_app; [by split|]].
  - unfold evidenceHeader. apply safe_quoted; [done|done|].
    repeat first [apply safe_lit; [done|done|] | rewrite narrow_ascii_app
      by first [done | apply printable_ascii; first [apply pretty_Z_printable | apply FormatFixed2_printable]]].
    done.
  - unfold numberLines. apply safe_concat; [by split|]. apply Forall_lookup. intros i x.
    rewrite list_lookup_imap, fmap_Some. intros (line & Hl & ->).
    assert (narrow line = true) as Hn by (pose proof (narrow_lines (Replace [(String "013" "", nl)]
      (Replace [(String "013" nl, nl)] (Content (res_Chunk res))))) as H; rewrite Forall_forall in H;
      by eapply H, list_elem_of_lookup_2).
    apply safe_lit; [apply printable_ascii, pretty_Z_printable|apply pretty_Z_nonempty|].
    apply (safe_lit "| "); [done|done|]. by rewrite narrow_app, Hn.
Qed.

Lemma narrow_assembled l : narrow (assembled IsPrintWide l) = true.
Proof.
  assert (safe (assembled IsPrintWide l)) as [_ H]; [|done]. unfold assembled, Join.
  apply safe_concat; [by split|]. apply Forall_fmap, Forall_true. intros s. unfold compose, sourceText.
  apply safe_concat; [by split|]. unfold blocks. destruct (placed s); [|constructor].
  constructor; [apply safe_orientation|]. apply Forall_fmap, Forall_true. intros i. unfold compose, evidenceAt.
  destruct (results (prep s) !! i); [apply safe_evidence|by split].
Qed.
End safe.

(** ** Every render emits the blocks its trace lists *)

Section render.
Context (IsPrintWide : Z -> bool) (sha256Hex : string -> string) (reader : option progressiveStoreReader).

Lemma drop_rev_none l l' : drop_rev l = Ok (false, l') -> l' = l /\ Forall (fun s => placed s = false) l.
Proof.
  revert l'. induction l as [|s l IH]; intros l'; cbn [drop_rev]; [by intros [= <-]|].
  destruct (placed s) eqn:Hp; cbn [negb].
  - destruct (last (evidence s)); [by destruct (containsInt _ _)|done].
  - destruct (drop_rev l) as [[d l1]|e]; [|done]. intros [= -> <-]. destruct (IH l1 eq_refl) as [-> Hl]. by auto.
Qed.

Lemma unplaced_empty l : Forall (fun s => placed s = false) l -> assembled IsPrintWide l = "".
Proof.
  intros H. unfold assembled. assert (List.filter placed l = []) as ->; [|done].
  induction H as [|s l Hs _ IH]; [done|]. simpl. by rewrite Hs.
Qed.

Lemma assembleLoop_emits fuel maxBytes trimmed l out trimmed' l' :
  assembleLoop IsPrintWide fuel maxBytes trimmed l = Some (Ok (out, trimmed', l')) -> out = assembled IsPrintWide l'.
Proof.
  revert trimmed l. induction fuel as [|fuel IH]; intros trimmed l; [done|]. cbn [assembleLoop].
  destruct (_ <=? _); [by intros [= <- <- <-]|]. unfold dropLastBlock.
  destruct (drop_rev (rev l)) as [[[] l1]|e] eqn:E; [apply IH| |done].
  intros [= <- <- <-]. apply drop_rev_none in E as [-> H]. rewrite rev_involutive. symmetry.
  apply unplaced_empty. rewrite <-(rev_involutive l). by apply Forall_rev.
Qed.

(** What is read of the store about the sources of the results: nothing without a
    store, and the provenance it answers for the names of these sources. *)
Definition provenanceRead (req : ProgressiveRenderRequest) (P : gmap string SourceProvenance) : Prop :=
  match reader with
  | None => P = ∅
  | Some r => exists names, SourceProvenanceBatch r names = Ok P /\
      forall n, n ∈ names <-> exists res, res ∈ Results req /\ Source (res_Chunk res) = n
  end.

(** The record of a source is the provenance read. *)
Definition recorded (P : gmap string SourceProvenance) (p : preparedSource) : Prop :=
  prov p = default no_provenance (P !! source p).

Lemma prepare_recorded req sources :
  prepareProgressiveSources sha256Hex reader req = Ok sources ->
  exists P, provenanceRead req P /\ Forall (recorded P) (preps sources).
Proof.
  set (names := map source (groupResults 0 (Results req) [])).
  assert (forall n, n ∈ names <-> exists res, res ∈ Results req /\ Source (res_Chunk res) = n) as Hnames.
  { destruct (grouped_results (Results req)) as [_ Hr Ha]. rewrite Forall_forall in Hr. rewrite Forall_forall in Ha. intros n. split.
    - intros (p & -> & Hp)%list_elem_of_fmap. destruct (Hr _ Hp) as [H1 H2].
      destruct (results p) as [|res rs] eqn:E; [done|]. exists res. apply elem_of_source. rewrite <-H1. by left.
    - intros (res & Hin & <-). by apply Ha. }
  assert (forall P S D, Forall (recorded P) (preps (map (judge sha256Hex reader P S D) (groupResults 0 (Results req) []))))
    as Hj by (intros P S D; unfold preps; rewrite map_map; by apply Forall_fmap, Forall_true).
  unfold prepareProgressiveSources, provenanceRead. destruct reader as [r|]; [|intros [= <-]; by exists ∅].
  fold names. destruct (SourceProvenanceBatch r names) as [P|] eqn:EP; [|done].
  destruct (SourceSummaryBatch r _) as [S|]; [|done]. destruct (ChunkContentDigestBatch r _) as [D|]; [|done].
  intros [= <-]. exists P. split; [by exists names|apply Hj].
Qed.

Lemma grows_preps l l' : Forall2 Grows l l' -> preps l' = preps l.
Proof. unfold preps. induction 1 as [|s s' l l' Hs _ IH]; [done|]. simpl. by rewrite IH, (gr_prep _ _ Hs). Qed.

(** The allocator decides what is shown of a source, not what it is. *)
Lemma allocate_preps req sources st l :
  allocate IsPrintWide req sources = Ok (st, l) -> preps l ≡ₚ preps sources.
Proof.
  unfold allocate. set (sorted := sort_by _ sources). destruct (resolvePins _ _ _ _) as [targets un].
  destruct (_ || _); [done|]. intros [= _ <-]. unfold preps. rewrite map_map.
  rewrite (map_ext (fun s => prep (finishSource s)) prep) by (intros s; apply (finish_keeps s)).
  fold (preps sources).
  match goal with |- map prep (srcs ?w) ≡ₚ _ => change (map prep (srcs w)) with (preps (srcs w)) end.
  rewrite (grows_preps _ _ (passes_grow IsPrintWide req _)), (grows_preps _ _ (placePins_grow IsPrintWide req targets _)).
  cbn [srcs]. unfold preps, sorted. by rewrite sort_by_perm.
Qed.

Lemma drop_rev_preps l d l' : drop_rev l = Ok (d, l') -> preps l' = preps l.
Proof.
  revert d l'. induction l as [|s l IH]; intros d l'; cbn [drop_rev]; [by intros [= _ <-]|].
  destruct (placed s); cbn [negb].
  - destruct (last (evidence s)); [destruct (containsInt _ _); [done|]|]; by intros [= _ <-].
  - destruct (drop_rev l) as [[d1 l1]|e]; [|done]. intros [= _ <-]. cbn [preps map]. f_equal. by eapply IH.
Qed.

Lemma assembleLoop_preps fuel maxBytes trimmed l out trimmed' l' :
  assembleLoop IsPrintWide fuel maxBytes trimmed l = Some (Ok (out, trimmed', l')) -> preps l' = preps l.
Proof.
  revert trimmed l. induction fuel as [|fuel IH]; intros trimmed l; [done|]. cbn [assembleLoop].
  destruct (_ <=? _); [by intros [= _ _ <-]|]. unfold dropLastBlock.
  destruct (drop_rev (rev l)) as [[d l1]|e] eqn:E; [|done]. apply drop_rev_preps in E.
  assert (preps (rev l1) = preps l) as Hp
    by (unfold preps in *; by rewrite map_rev, E, map_rev, rev_involutive).
  destruct d; [|by intros [= _ _ <-]]. intros H. apply IH in H. by rewrite H.
Qed.

(** The trace of every successful render describes the sources its output is
    made of. *)
Lemma render_describes req wantGroups out tr gs :
  renderProgressive IsPrintWide sha256Hex reader req wantGroups = Ok (out, tr, gs) ->
  exists l P, out = assembled IsPrintWide l /\ Sources tr = map (sourceTrace IsPrintWide req) l /\
    Forall (recorded P) (preps l) /\ (Results req <> [] -> provenanceRead req P).
Proof.
  unfold renderProgressive. destruct (validateProgressiveRequest req); [done|].
  destruct (Z.eqb_spec (len (Results req)) 0) as [H0|_].
  { intros [= <- <- _]. exists [], ∅. split_and!; [done|done|constructor|]. by destruct (Results req). }
  destruct (prepareProgressiveSources _ _ req) as [sources|e] eqn:Ep; [|done].
  apply prepare_recorded in Ep as (P & HP & Hrec).
  destruct (allocate IsPrintWide req sources) as [[st l]|e] eqn:Ea; [|done]. apply allocate_preps in Ea.
  destruct (assembleProgressive IsPrintWide l (MaxBytes req)) as [[[o trimmed] l1]|e] eqn:E; [|done].
  intros [= <- <- _]. exists l1, P. unfold assembleProgressive in E.
  destruct (assembleLoop _ _ _ _ l) as [r|] eqn:El; [|by destruct (assemble_total IsPrintWide l (MaxBytes req)
    (S (blockCount IsPrintWide l)) 0 ltac:(lia))].
  simpl in E. subst r. split_and!; [by apply assembleLoop_emits in El|done| |done].
  apply assembleLoop_preps in El. by rewrite El, Ea.
Qed.
End render.

Lemma filter_evidence IsPrintWide s :
  List.filter is_evidence_header (source_headers IsPrintWide s) = map (headerOf IsPrintWide) (evidenceOf s) /\
  List.filter is_orientation_header (source_headers IsPrintWide s) = [orientationHeader IsPrintWide (prep s)].
Proof.
  unfold source_headers, evidence_headers, evidenceOf. cbn [List.filter].
  destruct (orientationHeader_ok IsPrintWide (prep s)) as (_ & -> & ->).
  induction (evidence s) as [|i l [IH1 IH2]]; [done|]. csimpl. destruct (results (prep s) !! i) as [res|]; [|done].
  cbn [option_map map List.filter]. destruct (evidenceHeader_ok IsPrintWide res) as (_ & -> & ->).
  cbn [map]. by rewrite IH1.
Qed.

Lemma evidence_lines IsPrintWide l :
  List.filter is_evidence_header (concat (map (source_headers IsPrintWide) l)) =
    map (headerOf IsPrintWide) (concat (map evidenceOf l)).
Proof.
  induction l as [|s k IH]; [done|]. cbn [map concat].
  by rewrite List.filter_app, (proj1 (filter_evidence IsPrintWide s)), map_app, IH.
Qed.

(** The header of a shown source: its name in quotes, and its title in quotes when
    the store calls it managed and knows one. *)
Definition sourceHeader (IsPrintWide : Z -> bool) (P : gmap string SourceProvenance) (t : ProgressiveSourceTrace) : string :=
  "### source: " +:+ Quote IsPrintWide (t_Source t) +:+
  match P !! t_Source t with
  | Some p => if Managed p && negb (string_eqb (Title p) "") then " managed-title: " +:+ Quote IsPrintWide (Title p) else ""
  | None => ""
  end.

Lemma recorded_header IsPrintWide req P s :
  recorded P (prep s) -> orientationHeader IsPrintWide (prep s) = sourceHeader IsPrintWide P (sourceTrace IsPrintWide req s).
Proof.
  unfold recorded, orientationHeader, sourceHeader. intros ->. cbn [sourceTrace t_Source].
  by destruct (P !! source (prep s)).
Qed.

(** C9: Retrieved text cannot forge a block.  Whatever the results, the titles
    and the summaries hold: the lines of the output that start like an
    orientation header are exactly one per shown source, in the order of the
    trace, made of its quoted name and of the quoted title the store has for a
    managed source; the lines that start like an evidence header are exactly
    those of the evidence the trace lists, in order; and the output breaks lines
    with line feeds only: no vertical tab, form feed or carriage return, and,
    as [strconv] takes neither of U+2028 and U+2029 for printable, none of
    U+0085, U+2028 and U+2029. *)
Theorem headers_unforgeable IsPrintWide sha256Hex reader req out tr :
  RenderProgressive IsPrintWide sha256Hex reader req = Ok (out, tr) ->
  (exists P, (Results req <> [] -> provenanceRead reader req P) /\
    List.filter is_orientation_header (lines out) = map (sourceHeader IsPrintWide P) (shown tr)) /\
  List.filter is_evidence_header (lines out) =
    map (headerOf IsPrintWide) (concat (map t_RenderedEvidence (shown tr))) /\
  well_broken out = true /\
  (IsPrintWide 8232 = false -> IsPrintWide 8233 = false -> narrow out = true).
Proof.
  unfold RenderProgressive. destruct (renderProgressive _ _ _ req false) as [[[o t] gs]|e] eqn:E; [|done].
  intros [= -> ->]. destruct (render_describes _ _ _ _ _ _ _ _ E) as (l & P & -> & Hs & HP & Hread).
  rewrite (shown_placed IsPrintWide req tr l Hs).
  fold (kept is_orientation_header (assembled IsPrintWide l)) (kept is_evidence_header (assembled IsPrintWide l)).
  rewrite !kept_assembled by (unfold is_header; intros x ->; by rewrite ?orb_true_r). split_and!.
  - exists P. split; [done|]. clear -HP. unfold preps in HP. rewrite Forall_fmap in HP.
    induction HP as [|s k Hs _ IH]; [done|]. cbn [List.filter]. destruct (placed s); [|exact IH]. cbn [map concat].
    by rewrite List.filter_app, (proj2 (filter_evidence IsPrintWide s)), IH, (recorded_header IsPrintWide req P s).
  - rewrite map_map. apply evidence_lines.
  - apply well_assembled.
  - intros H1 H2. by apply narrow_assembled.
Qed.

(** Neither separator is printable; the store knows the managed title of one
    source, which tries to start a line. *)
Definition hdr_printable (r : Z) : bool := negb ((r =? 8232) || (r =? 8233)).
Definition hdr_reader : progressiveStoreReader :=
  mkReader (fun _ => Ok {["a.go" := mkProvenance "a.go" "" "" 0 false true ("T" +:+ LSEP +:+ "### x") "" [] ""]})
    (fun _ => Ok ∅) (fun _ => Ok ∅).
Definition hdr_out : string * ProgressiveTrace :=
  match RenderProgressive hdr_printable id (Some hdr_reader) (demo_request 200) with
  | Ok r => r
  | Err _ => ("", emptyTrace (demo_request 200))
  end.

(** The second source's content is a forged header. *)
Lemma headers_unforgeable_witness :
  narrow hdr_out.1 = true /\
  List.filter is_orientation_header (lines hdr_out.1) =
    ["### source: " +:+ Quote hdr_printable "a.go" +:+ " managed-title: " +:+ Quote hdr_printable ("T" +:+ LSEP +:+ "### x");
     "### source: " +:+ Quote hdr_printable "b.go"] /\
  List.filter is_evidence_header (lines hdr_out.1) =
    ["--- source: " +:+ Quote hdr_printable "a.go" +:+ " (lines 1-1, similarity: 0.62) ---";
     "--- source: " +:+ Quote hdr_printable "b.go" +:+ " (lines 7-7, similarity: 0.62) ---"].
Proof.
  destruct (headers_unforgeable hdr_printable id (Some hdr_reader) (demo_request 200) hdr_out.1 hdr_out.2)
    as ((P & HP & ->) & -> & _ & Hn).
  - vm_compute. reflexivity.
  - destruct HP as (names & [= <-] & _); [discriminate|].
    split; [by apply Hn|]. split; vm_compute; reflexivity.
Defined.
