(* ===== verification/RetrieveTool.v ===== *)
(** * RetrieveTool: the retrieval tool of an agent (agent/tools/retrieve.go, BuildContext of rag/retriever.go)

    A call clamps what the model asked for, searches, renders the results with
    or without the progressive renderer, credits what was rendered and bridges
    the renderer's projection to the carriers of mixed assembly.  The search
    (embedding and SQL), the parsing of the arguments and the texts of foreign
    errors are arguments. *)

From Stdlib Require Import Strings.Ascii.
From stdpp Require Import strings list gmap pretty.
From S2P Require Import Prelude GoString GoFloat GoText GoFormat Request ContextSets Dispatch ProgressiveText Progressive ProgressiveRun.

#[local] Open Scope string_scope.
#[local] Open Scope Z_scope.
#[local] Open Scope go_scope.
#[local] Open Scope list_scope.

(** ** The flat rendering (rag/retriever.go) *)

Definition contextEntry (res : SearchResult) : string :=
  "--- " +:+ replaceOrientationLineBreaks (Source (res_Chunk res)) +:+ " (lines " +:+
  pretty (ProgressiveText.StartLine (res_Chunk res)) +:+ "-" +:+ pretty (ProgressiveText.EndLine (res_Chunk res)) +:+
  ", similarity: " +:+ FormatFixed2 (res_Score res) +:+ ") ---" +:+ nl +:+
  numberLines (Content (res_Chunk res)) (ProgressiveText.StartLine (res_Chunk res)) +:+ nl.

(** The loop: what was written and how many results it holds. *)
Fixpoint contextLoop (maxChars : Z) (b : string) (count : Z) (results : list SearchResult) : string * Z :=
  match results with
  | [] => (b, count)
  | res :: results =>
      let entry := contextEntry res in
      if (0 <? maxChars) && (maxChars <? slen b + slen entry) then (b, count)
      else contextLoop maxChars (b +:+ entry) (count + 1) results
  end.

Definition BuildContextWithRenderedCount (results : list SearchResult) (maxTokens : Z) : string * Z :=
  if len results =? 0 then ("", 0)
  else contextLoop (wrap_int (maxTokens * 4)) ("Relevant code context:" +:+ nl +:+ nl) 0 results.

Definition BuildContext (results : list SearchResult) (maxTokens : Z) : string :=
  (BuildContextWithRenderedCount results maxTokens).1.

(** ** The tool's dependencies and its configuration *)

(** [retriever], with its two optional capabilities. *)
Record retriever := mkRetriever {
  r_Retrieve : string -> Z -> result string (list SearchResult);
  r_BuildContext : list SearchResult -> Z -> string;
  legacyRendered : option (list SearchResult -> Z -> string * Z);
  progressiveRender : option (ProgressiveRenderRequest ->
    result renderErr (string * ProgressiveTrace * list ProgressiveGroup));
}.

Record Retrieve := mkRetrieve {
  R : retriever; K : Z; rt_MaxTokens : Z; rt_Progressive : bool; rt_MinFullResults : Z; MaxK : Z;
  rt_Estimate : option (string -> Z)
}.

Record retrieveArgs := mkArgs { a_Query : string; a_K : Z }.

Definition defaultRetrieveK : Z := 5.
Definition defaultRetrieveMaxTokens : Z := 2048.
Definition defaultRetrieveMaxK : Z := 20.
Definition maxRetrieveMaxK : Z := 20.
Definition RetrieveOutputCap : Z := 64 * 1024.

Definition retrieve_Effect : Effect := mkEffect ClassRead [] "" 0 RetrieveOutputCap ApprovalNever.
Definition retrieve_Origin : Z := OriginWorkspace.

(** ** Attribution and the carriers *)

Definition creditOf (e : RenderedEvidence) : RetrievedSource :=
  mkRetrievedSource (re_StableKey e) (re_Source e) (re_StartLine e) (re_EndLine e) (re_Score e).

Definition appendEvidence (dst : list RetrievedSource) (ev : list RenderedEvidence) : list RetrievedSource :=
  dst ++ map creditOf ev.

Definition bridgeAlternative (a : ProgressiveAlternative) : ContextAlternative :=
  mkAlternative (pa_Desc a) (pa_Content a)
    (if 0 <? len (pa_RenderedEvidence a) then Some (appendEvidence [] (pa_RenderedEvidence a)) else None).

Definition bridgeGroup (g : ProgressiveGroup) : ContextGroup :=
  mkContextGroup (pg_Subject g) (pg_Rank g) (map bridgeAlternative (pg_Alternatives g)).

Definition bridgeGroups (groups : list ProgressiveGroup) (minFull : Z) : option ContextSet :=
  if len groups =? 0 then None
  else Some (mkSet (map bridgeGroup groups) (if minFull <=? 0 then 1 else minFull)).

(** ** The call *)

Inductive invokeError := ErrNotCapable | ErrMaxK (n : Z).

(** The clamps on the number of results. *)
Definition effectiveK (t : Retrieve) (asked : Z) : Z :=
  let k := if asked <=? 0 then K t else asked in
  let k := if k <=? 0 then defaultRetrieveK else k in
  let maxK := if MaxK t <=? 0 then defaultRetrieveMaxK else MaxK t in
  if maxK <? k then maxK else k.

Definition creditResult (res : SearchResult) : RetrievedSource :=
  mkRetrievedSource (ProgressiveText.StableKey (res_Chunk res)) (Source (res_Chunk res))
    (ProgressiveText.StartLine (res_Chunk res)) (ProgressiveText.EndLine (res_Chunk res)) (res_Score res).

(** A result of the tool and its [Context] field. *)
Definition refuse (content : string) : ToolResult * option ContextSet :=
  (mkToolResult content true false None OriginUnknown, None).
Definition answer (content : string) (attrib : list RetrievedSource) (context : option ContextSet) :
    ToolResult * option ContextSet :=
  (mkToolResult content false false (Some attrib) OriginUnknown, context).

Section invoke.
Context (Unmarshal : string -> result string retrieveArgs) (errText : renderErr -> string).

Definition progressiveRequest (t : Retrieve) (maxTokens : Z) (results : list SearchResult) :
    ProgressiveRenderRequest :=
  mkRequest results maxTokens RetrieveOutputCap (rt_MinFullResults t) DepthInvalid [] (rt_Estimate t).

Definition answerProgressive (t : Retrieve) (maxTokens : Z) (results : list SearchResult)
    (render : ProgressiveRenderRequest -> result renderErr (string * ProgressiveTrace * list ProgressiveGroup)) :
    ToolResult * option ContextSet :=
  match render (progressiveRequest t maxTokens results) with
  | Err e => refuse ("retrieval render failed: " +:+ errText e)
  | Ok (content, trace, groups) =>
      answer content (fold_left (fun a src => appendEvidence a (t_RenderedEvidence src)) (Sources trace) [])
        (bridgeGroups groups (rt_MinFullResults t))
  end.

Definition answerFlat (t : Retrieve) (maxTokens : Z) (results : list SearchResult) : ToolResult * option ContextSet :=
  match legacyRendered (R t) with
  | Some render =>
      let '(content, count) := render results maxTokens in
      if (count <? 0) || (len results <? count)
      then refuse ("retrieval render failed: invalid rendered result count " +:+ pretty count +:+ " for " +:+
                   pretty (len results) +:+ " results")
      else answer content (map creditResult (take (Z.to_nat count) results)) None
  | None => answer (r_BuildContext (R t) results maxTokens) (map creditResult results) None
  end.

Definition Invoke (t : Retrieve) (raw : string) : result invokeError (ToolResult * option ContextSet) :=
  if rt_Progressive t && negb (opt_b (progressiveRender (R t))) then Err ErrNotCapable
  else if rt_Progressive t && (maxRetrieveMaxK <? MaxK t) then Err (ErrMaxK (MaxK t))
  else
    match Unmarshal raw with
    | Err err => Ok (refuse ("invalid arguments: " +:+ err))
    | Ok args =>
        if string_eqb (a_Query args) "" then Ok (refuse "query is required")
        else
          let k := effectiveK t (a_K args) in
          let maxTokens := if rt_MaxTokens t <=? 0 then defaultRetrieveMaxTokens else rt_MaxTokens t in
          match r_Retrieve (R t) (a_Query args) k with
          | Err err => Ok (refuse ("retrieval failed: " +:+ err))
          | Ok results =>
              let results := if k <? len results then take (Z.to_nat k) results else results in
              match progressiveRender (R t) with
              | Some render => if rt_Progressive t then Ok (answerProgressive t maxTokens results render)
                               else Ok (answerFlat t maxTokens results)
              | None => Ok (answerFlat t maxTokens results)
              end
          end
    end.
End invoke.

(** [*rag.Retriever] has both capabilities. *)
Definition ragRetriever (IsPrintWide : Z -> bool) (sha256Hex : string -> string)
    (reader : option progressiveStoreReader) (search : string -> Z -> result string (list SearchResult)) : retriever :=
  mkRetriever search BuildContext (Some BuildContextWithRenderedCount)
    (Some (RenderProgressiveWithGroups IsPrintWide sha256Hex reader)).
