(* ===== verification/RetrieveFacts.v ===== *)
(** * RetrieveFacts: the retrieval tool credits what it shows and its carriers are valid

    A source that is not shown keeps no evidence at any step of the render,
    whatever the sizes are ([render_owned]); so the attribution built from the
    trace is that of the output.  The projection of at most
    [maxRetrieveMaxK] results passes the checks of agent/context_set.go. *)

From Stdlib Require Import Strings.Ascii.
From stdpp Require Import strings list gmap pretty.
From S2P Require Import Prelude GoString GoFloat GoText GoFormat Request ContextSets Dispatch ProgressiveText Progressive ProgressiveLedger ProgressiveRun ProgressiveOutput ProgressiveHeaders RetrieveTool.

#[local] Open Scope string_scope.
#[local] Open Scope Z_scope.
#[local] Open Scope go_scope.
#[local] Open Scope list_scope.

(** ** No evidence without an orientation *)

Definition owned (s : progressiveSource) : Prop := placed s = false -> evidence s = [].

(** A step of the allocator or the trim on one source. *)
Definition step (s s' : progressiveSource) : Prop :=
  (placed s = true -> placed s' = true) /\ (owned s -> owned s').

#[local] Instance step_pre : PreOrder step.
Proof. split; [done|]. intros s1 s2 s3 [H1 H2] [J1 J2]. split; auto. Qed.

Lemma step_keeps s s' : orientation s' = orientation s -> evidence s' = evidence s -> step s s'.
Proof. intros Ho He. unfold step, owned, placed. by rewrite Ho, He. Qed.

Lemma step_places s s' : placed s' = true -> step s s'.
Proof. intros H. split; [done|]. intros _. unfold owned. by rewrite H. Qed.

Lemma placed_level level s : level <> orientationNone -> placed (set_orientation level s) = true.
Proof. intros H. unfold placed. simpl. by rewrite bool_decide_eq_false_2. Qed.

Lemma steps_refl l : Forall2 step l l.
Proof. induction l; by constructor. Qed.

Lemma steps_alter f k l : (forall s, l !! k = Some s -> step s (f s)) -> Forall2 step l (alter f k l).
Proof.
  revert k. induction l as [|s l IH]; intros [|k] H; simpl; [constructor|constructor| |].
  - constructor; [by apply H|apply steps_refl].
  - constructor; [done|]. apply IH. intros s' Hs'. by apply H.
Qed.

Lemma steps_owned l l' : Forall2 step l l' -> Forall owned l -> Forall owned l'.
Proof. induction 1 as [|s s' l l' [_ H] _ IH]; inversion_clear 1; constructor; auto. Qed.

(** Appending evidence to a source that is placed. *)
Lemma steps_append (f : progressiveSource -> progressiveSource) k l s :
  l !! k = Some s -> placed s = true -> (forall s, orientation (f s) = orientation s) ->
  Forall2 step l (alter f k l).
Proof.
  intros Hk Hp Hf. apply steps_alter. intros s' Hs'. simplify_eq. apply step_places.
  unfold placed in *. by rewrite Hf.
Qed.

Section alloc.
Context (IsPrintWide : Z -> bool) (req : ProgressiveRenderRequest).

Lemma placePin_steps w t : Forall2 step (srcs w) (srcs (placePin IsPrintWide req w t)).
Proof.
  unfold placePin. destruct (srcs w !! t.1) as [src|] eqn:Hk; [|apply steps_refl].
  unfold placeOrientation. destruct (decide _) as [Ho|Ho]; cbn [upd acct srcs].
  - etrans; [apply (steps_alter (set_orientation (cheapestOrientation src)) t.1); intros s _;
      apply step_places, placed_level, cheapest_not_none|].
    eapply steps_append; [by rewrite list_lookup_alter_eq, Hk| |done]. apply placed_level, cheapest_not_none.
  - eapply steps_append; [done| |done]. unfold placed. by rewrite bool_decide_eq_false_2.
Qed.

Lemma floorStep_steps fr src w :
  srcs w !! fr_src fr = Some src -> Forall2 step (srcs w) (srcs (floorStep IsPrintWide req fr src w)).
Proof.
  intros Hk. unfold floorStep. destruct (admitBlock _ _ _ _) as [[] st]; cbn [negb acct upd srcs].
  - destruct (bool_decide _) eqn:Ho; cbn [acct upd srcs].
    + etrans; [apply (steps_alter (set_orientation (cheapestOrientation src)) (fr_src fr)); intros s _;
        apply step_places, placed_level, cheapest_not_none|].
      eapply steps_append; [by rewrite list_lookup_alter_eq, Hk| |done]. apply placed_level, cheapest_not_none.
    + eapply steps_append; [done| |done]. unfold placed. by rewrite Ho.
  - apply steps_alter. intros s _. by apply step_keeps.
Qed.

Lemma floorPass_steps w : Forall2 step (srcs w) (srcs (floorPass IsPrintWide req w)).
Proof.
  unfold floorPass. destruct (_ =? _); [|apply steps_refl]. set (floor := if _ =? 0 then 1 else _).
  generalize (flatten (fun _ _ => true) (srcs w)). intros flat.
  change (srcs w) with (srcs (acct (set_floorRequested floor) w)) at 1.
  generalize (acct (set_floorRequested floor) w). clear w.
  induction flat as [|fr flat IH]; intros w; simpl; [apply steps_refl|].
  destruct (floor <=? _); [apply steps_refl|]. destruct (srcs w !! fr_src fr) eqn:Hk; [|apply IH].
  destruct (containsInt _ _); [apply IH|]. etrans; [by apply floorStep_steps|apply IH].
Qed.

Lemma over_steps f w : (forall st s, step s (f st s).2) -> Forall2 step (srcs w) (srcs (over f w)).
Proof.
  intros Hf. unfold over. assert (forall l st, Forall2 step l (walk f st l).2) as H.
  { induction l as [|s l IH]; intros st; simpl; [constructor|]. specialize (Hf st s).
    destruct (f st s) as [st1 s1]. specialize (IH st1). destruct (walk f st1 l). by constructor. }
  specialize (H (srcs w) (wst w)). by destruct (walk f (wst w) (srcs w)).
Qed.

Lemma baseSource_steps st s : step s (baseSource IsPrintWide req st s).2.
Proof.
  unfold baseSource. destruct (negb _); [done|]. rewrite base_level.
  destruct (admitBlock _ _ _ st) as [ok st1]. destruct ok; [apply step_places, placed_level, cheapest_not_none|].
  destruct (decide _); [|by apply step_keeps]. destruct (admitBlock _ _ _ st1) as [[] st2]; [by apply step_places|].
  by apply step_keeps.
Qed.

Lemma deepenSource_steps st s : step s (deepenSource IsPrintWide req st s).2.
Proof.
  unfold deepenSource. destruct (_ || _); [done|].
  destruct (admitBlock _ _ _ st) as [[] st1]; [by apply step_places|by apply step_keeps].
Qed.

(** The entries of the upgrade pass are of placed sources, and stay so. *)
Lemma upgradePass_steps w : Forall2 step (srcs w) (srcs (upgradePass IsPrintWide req w)).
Proof.
  unfold upgradePass. destruct (_ =? _); [|apply steps_refl].
  assert (Forall (fun fr => exists s, srcs w !! fr_src fr = Some s /\ placed s = true) (flatten upgradable (srcs w))) as Hf.
  { apply Forall_forall. intros fr (src & Hk & _ & [Ho _]%andb_true_iff)%elem_flatten. by exists src. }
  revert Hf. generalize (flatten upgradable (srcs w)). intros flat Hf. revert w Hf.
  induction flat as [|fr flat IH]; intros w Hf; simpl; [apply steps_refl|].
  apply Forall_cons in Hf as [(s & Hk & Hp) Hf].
  assert (Forall2 step (srcs w) (srcs (upgradeStep IsPrintWide req w fr))) as Hs.
  { unfold upgradeStep. rewrite Hk. destruct (admitBlock _ _ _ _) as [[] st]; cbn [upd srcs];
      [by eapply steps_append|]. apply steps_alter. intros s' _. by apply step_keeps. }
  etrans; [exact Hs|]. apply IH. eapply Forall_impl; [exact Hf|]. intros fr' (s1 & Hk1 & Hp1).
  destruct (Forall2_lookup_l _ _ _ _ _ Hs Hk1) as (s2 & Hk2 & [H12 _]). exists s2. auto.
Qed.

Lemma allocate_owned sources st l :
  Forall (fun s => evidence s = []) sources -> allocate IsPrintWide req sources = Ok (st, l) -> Forall owned l.
Proof.
  intros H0. unfold allocate. destruct (resolvePins req _ [] (Pinned req)) as [targets un].
  destruct (_ || _); [done|]. intros [= _ <-]. apply Forall_fmap.
  set (w0 := mkWorld _ _). set (w := fold_left _ targets w0).
  assert (Forall2 step (srcs w0) (srcs w)) as Hw.
  { unfold w. clear w. generalize w0. induction targets as [|t targets IH]; intros w; simpl; [apply steps_refl|].
    etrans; [apply placePin_steps|apply IH]. }
  eapply Forall_impl with (P := owned).
  - eapply steps_owned; [|eapply steps_owned; [exact Hw|]].
    + etrans; [apply floorPass_steps|]. etrans; [apply over_steps, baseSource_steps|].
      etrans; [apply upgradePass_steps|]. unfold deepenPass.
      destruct (_ <=? _); [apply over_steps, deepenSource_steps|apply steps_refl].
    + cbn [w0 srcs]. rewrite sort_by_perm. eapply Forall_impl; [exact H0|]. by intros s Hs _.
  - intros s Hs Hp. destruct (finish_keeps s) as (_ & Ho & _). unfold placed in Hp. rewrite Ho in Hp.
    specialize (Hs Hp). pose proof (finish_evidence s) as E. rewrite Hs in E. by apply Permutation_nil_r in E.
Qed.
End alloc.

(** ** Every render, whatever the sizes *)

Section render.
Context (IsPrintWide : Z -> bool) (sha256Hex : string -> string) (reader : option progressiveStoreReader).

Lemma drop_rev_owned l d l' : drop_rev l = Ok (d, l') -> Forall owned l -> Forall owned l'.
Proof.
  revert d l'. induction l as [|s l IH]; intros d l'; cbn [drop_rev]; [by intros [= <- <-]|].
  rewrite Forall_cons. destruct (placed s) eqn:Hp; cbn [negb].
  - destruct (last (evidence s)) eqn:El; [destruct (containsInt _ _); [done|]|]; intros [= <- <-] [_ Hl];
      (constructor; [|done]); unfold owned, placed in *; simpl; intros H.
    + by rewrite Hp in H.
    + by apply last_None.
  - destruct (drop_rev l) as [[d1 l1]|e]; [|done]. intros [= <- <-] [Hs Hl]. constructor; eauto.
Qed.

Lemma assembleLoop_owned fuel maxBytes trimmed l out trimmed' l' :
  0 <= maxBytes -> Forall owned l ->
  assembleLoop IsPrintWide fuel maxBytes trimmed l = Some (Ok (out, trimmed', l')) ->
  Forall owned l' /\ slen out <= maxBytes.
Proof.
  intros H0. revert trimmed l. induction fuel as [|fuel IH]; intros trimmed l Hl; [done|]. cbn [assembleLoop].
  destruct (Z.leb_spec (slen (assembled IsPrintWide l)) maxBytes); [by intros [= <- <- <-]|]. unfold dropLastBlock.
  destruct (drop_rev (rev l)) as [[d l1]|e] eqn:E; [|done].
  assert (Forall owned (rev l1)) as H1 by (apply Forall_rev; eapply drop_rev_owned; [exact E|by apply Forall_rev]).
  destruct d; [by apply IH|]. intros [= <- <- <-]. done.
Qed.

(** What the trace lists is what is emitted, within the bytes; the groups are
    those of the prepared sources. *)
Lemma render_owned req wantGroups out tr gs :
  renderProgressive IsPrintWide sha256Hex reader req wantGroups = Ok (out, tr, gs) ->
  slen out <= MaxBytes req /\
  (exists l, out = assembled IsPrintWide l /\ Sources tr = map (sourceTrace IsPrintWide req) l /\ Forall owned l) /\
  (gs = [] \/ exists sources, prepareProgressiveSources sha256Hex reader req = Ok sources /\
     gs = buildProgressiveGroups IsPrintWide sources (maxDepth req) /\
     Forall (fun r => Source (res_Chunk r) <> "") (Results req)).
Proof.
  unfold renderProgressive. destruct (validateProgressiveRequest req) eqn:Ev; [done|].
  assert (0 < MaxBytes req) as Hb.
  { revert Ev. unfold validateProgressiveRequest. destruct (_ <=? 0); [done|].
    by destruct (Z.leb_spec (MaxBytes req) 0). }
  destruct (len (Results req) =? 0).
  { intros [= <- <- <-]. split; [change (slen "") with 0; lia|]. split; [by exists []|by left]. }
  destruct (prepareProgressiveSources _ _ req) as [sources|e] eqn:Ep; [|done].
  destruct (allocate IsPrintWide req sources) as [[st l]|e] eqn:Ea; [|done].
  destruct (assembleProgressive IsPrintWide l (MaxBytes req)) as [[[o trimmed] l1]|e] eqn:E; [|done].
  intros [= <- <- <-]. unfold assembleProgressive in E.
  destruct (assembleLoop _ _ _ _ l) as [r|] eqn:El; [|by destruct (assemble_total IsPrintWide l (MaxBytes req)
    (S (blockCount IsPrintWide l)) 0 ltac:(lia))].
  simpl in E. subst r. pose proof (assembleLoop_emits _ _ _ _ _ _ _ _ El) as ->.
  apply assembleLoop_owned in El as [Ho Hs]; [|lia|].
  2:{ eapply allocate_owned; [|exact Ea]. destruct (prepare_judged _ _ _ _ Ep) as (P & S & D & ->).
      by apply Forall_fmap, Forall_true. }
  split; [done|]. split; [by exists l1|].
  destruct wantGroups; [cbn [andb]|by left]. destruct (forallb _ _) eqn:Ef; [right|by left].
  exists sources. split_and!; [done..|]. apply Forall_forall. intros r Hr%list_elem_of_In.
  rewrite forallb_forall in Ef. specialize (Ef r Hr). unfold string_eqb in Ef.
  by apply negb_true_iff, bool_decide_eq_false in Ef.
Qed.
End render.

(** ** The flat rendering *)

(** The entries rendered are the longest prefix of the results that fits. *)
Definition context_text (rs : list SearchResult) : string := String.concat "" (map contextEntry rs).

Lemma contextLoop_spec maxChars b count rs : exists n,
  (n <= length rs)%nat /\
  contextLoop maxChars b count rs = (b +:+ context_text (take n rs), count + Z.of_nat n) /\
  (0 < maxChars -> (n = 0%nat \/ slen (b +:+ context_text (take n rs)) <= maxChars) /\
     forall res, rs !! n = Some res -> maxChars < slen (b +:+ context_text (take n rs)) + slen (contextEntry res)).
Proof.
  revert b count. induction rs as [|res rs IH]; intros b count; cbn [contextLoop].
  - exists 0%nat. rewrite append_empty_r, Z.add_0_r. split_and!; [done..|]. by split; [left|].
  - destruct ((0 <? maxChars) && _) eqn:E.
    + exists 0%nat. rewrite append_empty_r, Z.add_0_r. split_and!; [lia|done|]. intros _.
      split; [by left|]. intros res' [= <-]. apply andb_true_iff in E as [_ ?%Z.ltb_lt]. done.
    + destruct (IH (b +:+ contextEntry res) (count + 1)) as (n & Hn & -> & Hfit). exists (S n). simpl.
      unfold context_text in *. cbn [map]. rewrite !concat_cons0, append_assoc. split_and!; [lia| |].
      * f_equal. lia.
      * intros Hm. destruct (Hfit Hm) as [H1 H2]. split; [right|done].
        destruct H1 as [->|H1]; [|done]. cbn [take map]. change (String.concat "" []) with "".
        rewrite append_empty_r, slen_app. apply andb_false_iff in E as [E%Z.ltb_ge|E%Z.ltb_ge]; lia.
Qed.

(** The header of an entry, from what is credited. *)
Definition flatLine (e : RetrievedSource) : string :=
  "--- " +:+ replaceOrientationLineBreaks (rs_Source e) +:+ " (lines " +:+
  pretty (ContextSets.StartLine e) +:+ "-" +:+ pretty (ContextSets.EndLine e) +:+
  ", similarity: " +:+ FormatFixed2 (rs_Score e) +:+ ") ---".

Lemma entry_parts res : exists b,
  Body b /\ unbroken (flatLine (creditResult res)) = true /\
  contextEntry res = flatLine (creditResult res) +:+ nl +:+ b.
Proof.
  exists (numberLines (Content (res_Chunk res)) (ProgressiveText.StartLine (res_Chunk res)) +:+ nl). split_and!.
  - apply Body_app; [apply numberLines_body|]. by apply (Body_line "").
  - unfold flatLine. rewrite !unbroken_app, replaced_value, !number_unbroken.
    by rewrite (graphic_unbroken _ (FormatFixed2_graphic _)).
  - unfold contextEntry, flatLine. cbn [creditResult rs_Source ContextSets.StartLine ContextSets.EndLine rs_Score].
    by rewrite !append_assoc.
Qed.

Lemma evidence_is_header x : is_evidence_header x = true -> is_header x = true.
Proof. unfold is_header. intros ->. by rewrite orb_true_r. Qed.

Lemma context_lines rs :
  List.filter is_evidence_header (lines (context_text rs)) = map flatLine (map creditResult rs).
Proof.
  fold (kept is_evidence_header (context_text rs)). unfold context_text.
  induction rs as [|res rs IH]; [done|]. cbn [map]. rewrite concat_cons0.
  destruct (entry_parts res) as (b & Hb & Hu & ->).
  assert (is_evidence_header (flatLine (creditResult res)) = true) as E by apply HasPrefix_app.
  rewrite (kept_block _ evidence_is_header) by done. by rewrite IH, E.
Qed.

Lemma flat_lines rs maxTokens : exists n,
  (n <= length rs)%nat /\ (BuildContextWithRenderedCount rs maxTokens).2 = Z.of_nat n /\
  List.filter is_evidence_header (lines (BuildContextWithRenderedCount rs maxTokens).1) =
    map flatLine (map creditResult (take n rs)).
Proof.
  unfold BuildContextWithRenderedCount. destruct (Z.eqb_spec (len rs) 0) as [E|_].
  - exists 0%nat. split; [lia|]. done.
  - destruct (contextLoop_spec (wrap_int (maxTokens * 4)) ("Relevant code context:" +:+ nl +:+ nl) 0 rs)
      as (n & Hn & -> & _).
    exists n. split; [done|]. split; [cbn [snd]; lia|]. cbn [fst].
    fold (kept is_evidence_header (("Relevant code context:" +:+ nl +:+ nl) +:+ context_text (take n rs))).
    assert (Body ("Relevant code context:" +:+ nl +:+ nl)) as Hb.
    { rewrite append_assoc. apply Body_app; [by apply Body_line|by apply (Body_line "")]. }
    rewrite (kept_body _ evidence_is_header) by done. apply context_lines.
Qed.

(** ** The projection as carriers *)

Section carriers.
Context (IsPrintWide : Z -> bool).
Notation alternatives_at := (alternatives_at IsPrintWide).

(** The header of a block, from what is credited. *)
Definition sourceLine (e : RetrievedSource) : string :=
  "--- source: " +:+ Quote IsPrintWide (rs_Source e) +:+ " (lines " +:+
  pretty (ContextSets.StartLine e) +:+ "-" +:+ pretty (ContextSets.EndLine e) +:+
  ", similarity: " +:+ FormatFixed2 (rs_Score e) +:+ ") ---".

(** An alternative that credits the blocks it shows. *)
Definition credits (a : ContextAlternative) : Prop :=
  List.filter is_evidence_header (lines (ca_Content a)) = map sourceLine (default [] (ca_Attrib a)).

(** What the boundary asks of an alternative that shows [n] results. *)
Record Carrier (n : nat) (a : ContextAlternative) : Prop := mkCarrier {
  car_desc : desc_Valid (Desc a) = true;
  car_content : ca_Content a <> "";
  car_verbatim : verbatimComponents (Desc a) = Z.of_nat n;
  car_attrib : opt_b (ca_Attrib a) = (0 <? Z.of_nat n);
  car_credits : credits a;
}.

Lemma verbatim_reps l n :
  Forall (fun r => rep_Kind r <> RepresentationVerbatim) l ->
  verbatimComponents (l ++ repeat repEvidence n) = Z.of_nat n.
Proof.
  intros H. unfold verbatimComponents. rewrite List.filter_app.
  assert (List.filter (fun r => rep_Kind r =? RepresentationVerbatim) l = []) as ->.
  { induction H as [|r l Hr _ IH]; [done|]. cbn [List.filter]. by rewrite (proj2 (Z.eqb_neq _ _) Hr). }
  unfold len. f_equal. induction n as [|n IH]; [done|]. cbn in *. by rewrite IH.
Qed.

Lemma desc_reps l n :
  desc_Valid l = true -> desc_Valid (l ++ repeat repEvidence n) = true.
Proof.
  unfold desc_Valid. rewrite forallb_app. intros [Hl ->]%andb_true_iff. cbn [andb].
  assert (forallb (fun r => depth_Valid (rep_Depth r) && kind_Valid (rep_Kind r)) (repeat repEvidence n) = true) as ->.
  { by induction n. }
  rewrite andb_true_r. destruct l; [done|]. cbn [app]. rewrite len_cons.
  apply negb_true_iff, Z.eqb_neq. unfold len. lia.
Qed.

Lemma rungs_ok maxDepth src :
  Forall (fun r => desc_Valid (reps r) = true /\ Forall (fun x => rep_Kind x <> RepresentationVerbatim) (reps r))
    (rungs_of maxDepth src) /\ (1 <= length (rungs_of maxDepth src) <= 3)%nat.
Proof.
  unfold rungs_of. destruct (fresh _); [destruct (_ <=? _)|]; (split; [|simpl; lia]);
    repeat (apply Forall_cons; split; [split; [reflexivity|repeat constructor; discriminate]|]); constructor.
Qed.

Lemma shown_lines shown :
  kept is_evidence_header (String.concat "" (map (evidenceText IsPrintWide) shown)) =
    map sourceLine (map creditOf (map renderedOf shown)).
Proof.
  induction shown as [|res shown IH]; [done|]. cbn [map]. rewrite concat_cons0.
  destruct (evidence_parts IsPrintWide res) as (b & Hb & ->).
  destruct (evidenceHeader_ok IsPrintWide res) as (Hu & _ & He).
  rewrite (kept_block _ evidence_is_header) by done. by rewrite IH, He.
Qed.

(** Every alternative with the first [k] results is fit for the boundary. *)
Lemma alternatives_ok src maxDepth k :
  (k <= length (results (prep src)))%nat ->
  Forall (Carrier k) (map bridgeAlternative (alternatives_at src (rungs_of maxDepth src) k)).
Proof.
  intros Hk. destruct (rungs_ok maxDepth src) as [Hr _]. unfold ProgressiveRun.alternatives_at.
  rewrite map_map. apply Forall_fmap. eapply Forall_impl; [exact Hr|]. intros rung [Hd Hv].
  set (shown := take k (results (prep src))). assert (length shown = k) as Hlen by (by apply length_take_le).
  destruct (orientation_parts IsPrintWide (prep src) (level rung) (lr_budgetOmitted rung)) as (b & Hb & E).
  destruct (orientationHeader_ok IsPrintWide (prep src)) as (Hu & _ & He).
  assert (len (map renderedOf shown) = Z.of_nat k) as Hn by (unfold len; by rewrite length_map, Hlen).
  split; cbn [compose bridgeAlternative Desc ca_Content ca_Attrib pa_Desc pa_Content pa_RenderedEvidence].
  - by apply desc_reps.
  - rewrite E. unfold orientationHeader. by rewrite !append_assoc.
  - by rewrite verbatim_reps, Hlen.
  - rewrite Hn. by destruct (0 <? _).
  - unfold credits. cbn [bridgeAlternative ca_Content ca_Attrib pa_Content pa_RenderedEvidence]. rewrite E.
    match goal with |- List.filter _ (lines ?s) = _ => fold (kept is_evidence_header s) end.
    rewrite (kept_block _ evidence_is_header), He, shown_lines by done. rewrite Hn.
    destruct (Z.ltb_spec 0 (Z.of_nat k)); [done|]. assert (k = 0%nat) as -> by lia. done.
Qed.

Lemma validate_level i j prev l k v :
  Forall (Carrier v) l -> l <> [] -> prev <= Z.of_nat v ->
  (forall j, validate_alternatives i j (Z.of_nat v) k = None) ->
  validate_alternatives i j prev (l ++ k) = None.
Proof.
  intros H Hne. assert (forall j prev, prev <= Z.of_nat v ->
    validate_alternatives i j prev (l ++ k) = validate_alternatives i (j + length l) (if decide (l = []) then prev else Z.of_nat v) k) as Hl.
  { clear Hne. induction H as [|a l [Hd Hc Hv Ha _] _ IH]; intros j' prev' Hp.
    - by rewrite Nat.add_0_r.
    - cbn [app validate_alternatives length]. rewrite Hd, Hv. cbn [negb]. rewrite bool_decide_eq_false_2 by done.
      rewrite Ha. replace ((0 <? Z.of_nat v) && (Z.of_nat v =? 0)) with false by lia.
      rewrite (proj2 (Z.ltb_ge _ _)) by lia. rewrite IH by lia. f_equal; [lia|]. by destruct (decide (l = [])). }
  intros Hp Hk. rewrite Hl by done. rewrite decide_False by done. apply Hk.
Qed.

(** The alternatives of a source in the projection. *)
Definition levels (src : progressiveSource) (maxDepth : Z) (from n : nat) : list ContextAlternative :=
  concat (map (fun k => map bridgeAlternative (alternatives_at src (rungs_of maxDepth src) k)) (seq from n)).

Lemma levels_valid src maxDepth i j prev from n :
  (from + n <= S (length (results (prep src))))%nat -> prev <= Z.of_nat from ->
  validate_alternatives i j prev (levels src maxDepth from n) = None.
Proof.
  revert j prev from. induction n as [|n IH]; intros j prev from Hn Hp; [done|].
  unfold levels. cbn [seq map concat]. destruct (rungs_ok maxDepth src) as [_ Hlen].
  apply (validate_level _ _ _ _ _ from); [apply alternatives_ok; lia| |done|].
  - unfold ProgressiveRun.alternatives_at. destruct (rungs_of maxDepth src); [simpl in Hlen; lia|done].
  - intros j'. apply IH; lia.
Qed.

Lemma levels_length src maxDepth from n :
  (length (levels src maxDepth from n) <= 3 * n)%nat /\ (n <> 0 -> 0 < length (levels src maxDepth from n))%nat.
Proof.
  destruct (rungs_ok maxDepth src) as [_ Hlen]. revert from. induction n as [|n IH]; intros from; [done|].
  unfold levels. cbn [seq map concat]. rewrite length_app, length_map.
  unfold ProgressiveRun.alternatives_at at 1 3. rewrite length_map. destruct (IH (S from)) as [H1 _].
  unfold levels in H1. split; lia.
Qed.

Lemma projected src maxDepth : exists n,
  (1 <= n <= S (length (results (prep src))))%nat /\
  cg_Subject (bridgeGroup (projectSource IsPrintWide maxDepth src)) = mkRef DomainRAG (source (prep src)) /\
  Alternatives (bridgeGroup (projectSource IsPrintWide maxDepth src)) = levels src maxDepth 0 n.
Proof.
  unfold projectSource, bridgeGroup. cbn [cg_Subject Alternatives pg_Subject pg_Alternatives].
  destruct (DepthL2 <=? maxDepth).
  - exists (S (length (results (prep src)))). split; [lia|]. split; [done|].
    unfold levels. cbn [seq map concat]. by rewrite map_app, concat_map, map_map.
  - exists 1%nat. split; [lia|]. split; [done|]. unfold levels. cbn [seq map concat]. by rewrite map_app.
Qed.
End carriers.

(** ** The whole set *)

Section sets.
Context (IsPrintWide : Z -> bool).
Notation group maxDepth := (fun src => bridgeGroup (projectSource IsPrintWide maxDepth src)).

Lemma index_of_none r k l : r ∉ l -> index_of r k l = None.
Proof.
  revert k. induction l as [|x l IH]; intros k; [done|]. rewrite not_elem_of_cons. intros [Hx Hl]. simpl.
  rewrite bool_decide_eq_false_2 by congruence. by apply IH.
Qed.

Lemma groups_valid maxDepth i seen l :
  Forall (fun s => source (prep s) <> "") l ->
  NoDup (map ref_ID seen ++ map (fun s => source (prep s)) l) ->
  validate_groups i seen (map (group maxDepth) l) = None.
Proof.
  revert i seen. induction l as [|s l IH]; intros i seen Hb Hn; [done|]. cbn [map validate_groups].
  apply Forall_cons in Hb as [Hs Hb]. destruct (projected IsPrintWide s maxDepth) as (n & Hlen & -> & ->).
  cbn [Domain ref_ID]. change (bool_decide (DomainRAG = DomainConversation)) with false.
  change (bool_decide (DomainRAG = DomainRAG)) with true. cbn [orb negb]. cbn iota.
  rewrite bool_decide_eq_false_2 by done. rewrite index_of_none.
  2:{ intros Hin%(list_elem_of_fmap_2 ref_ID). apply NoDup_app in Hn as (_ & Hn & _).
      apply (Hn _ Hin). by left. }
  destruct (levels_length IsPrintWide s maxDepth 0 n) as [_ Hpos].
  rewrite (proj2 (Z.eqb_neq _ 0)) by (unfold len; specialize (Hpos ltac:(lia)); lia).
  rewrite levels_valid by lia. apply IH; [done|]. rewrite map_app, <-app_assoc. exact Hn.
Qed.

Lemma cardinality_ok maxDepth i l :
  Forall (fun s => length (results (prep s)) <= 20)%nat l ->
  cardinality_from i (map (group maxDepth) l) = None.
Proof.
  revert i. induction l as [|s l IH]; intros i; [done|]. rewrite Forall_cons. intros [Hs Hl].
  cbn [map cardinality_from]. destruct (projected IsPrintWide s maxDepth) as (n & Hn & _ & ->).
  destruct (levels_length IsPrintWide s maxDepth 0 n) as [H1 _].
  rewrite (proj2 (Z.ltb_ge _ _)); [by apply IH|]. unfold len, maxContextAlternatives. lia.
Qed.

(** As many sources as results at most, each with at most all of them. *)
Lemma sources_bound rs l :
  NoDup (map (fun s => source (prep s)) l) ->
  Forall (fun s => results (prep s) = of_source (source (prep s)) rs /\ results (prep s) <> []) l ->
  (length l <= length rs)%nat /\ Forall (fun s => length (results (prep s)) <= length rs)%nat l.
Proof.
  intros Hn Hr. split.
  - rewrite <-(length_map (fun s => source (prep s)) l), <-(length_map (fun r => Source (res_Chunk r)) rs).
    apply submseteq_length, NoDup_submseteq; [done|]. intros name (s & -> & Hs)%list_elem_of_fmap.
    rewrite Forall_forall in Hr. destruct (Hr s Hs) as [E Hne].
    destruct (results (prep s)) as [|r k]; [done|].
    assert (r ∈ of_source (source (prep s)) rs) as [Hin Hname]%elem_of_source by (rewrite <-E; by left).
    rewrite <-Hname. by apply (list_elem_of_fmap_2 (fun r => Source (res_Chunk r))).
  - eapply Forall_impl; [exact Hr|]. intros s [-> _]. unfold of_source. apply List.filter_length_le.
Qed.

Lemma bridged_valid sha256Hex reader req sources :
  (length (Results req) <= 20)%nat -> Forall (fun r => Source (res_Chunk r) <> "") (Results req) ->
  prepareProgressiveSources sha256Hex reader req = Ok sources ->
  validateContextSet (bridgeGroups (buildProgressiveGroups IsPrintWide sources (maxDepth req)) (MinFullResults req)) = None.
Proof.
  intros Hk Hb Hp. destruct (prepare_judged _ _ _ _ Hp) as (P & S & D & Es).
  destruct (grouped_results (Results req)) as [_ Hg _].
  destruct (prepare_spec _ _ _ _ Hp) as (Hn & _ & Hr & _).
  assert (Forall (fun s => results (prep s) = of_source (source (prep s)) (Results req) /\ results (prep s) <> []) sources) as Hr'.
  { rewrite Es. apply Forall_fmap. eapply Forall_impl; [exact Hg|]. by intros p. }
  destruct (sources_bound _ _ Hn Hr') as [Hl Hls].
  unfold bridgeGroups, buildProgressiveGroups. match goal with |- context [if ?n =? 0 then None else _] => destruct (Z.eqb_spec n 0) as [|Hne] end; [done|].
  unfold validateContextSet. cbn [MinVerbatim Groups]. rewrite map_map.
  rewrite (proj2 (Z.ltb_ge _ 0)) by (destruct (Z.leb_spec (MinFullResults req) 0); lia).
  unfold len in *. rewrite length_map in Hne |- *. rewrite (proj2 (Z.eqb_neq _ 0)) by done.
  unfold validateContextSetCardinality, len. cbn [Groups]. rewrite length_map.
  rewrite (proj2 (Z.ltb_ge _ _)) by (unfold maxContextGroups; lia).
  rewrite cardinality_ok, groups_valid; [done| |exact Hn|].
  - apply Forall_forall. intros s Hs. rewrite Forall_forall in Hr'. rewrite Forall_forall in Hb. destruct (Hr' s Hs) as [E Hne'].
    destruct (results (prep s)) as [|r k]; [done|].
    assert (r ∈ of_source (source (prep s)) (Results req)) as [Hin Hname]%elem_of_source by (rewrite <-E; by left).
    rewrite <-Hname. by apply Hb.
  - eapply Forall_impl; [exact Hls|]. intros s Hs. cbn beta in *. lia.
Qed.
End sets.

(** ** The answers *)

Lemma credited_fold l acc :
  fold_left (fun a src => appendEvidence a (t_RenderedEvidence src)) l acc =
  acc ++ map creditOf (concat (map t_RenderedEvidence l)).
Proof.
  revert acc. induction l as [|t l IH]; intros acc; [by rewrite app_nil_r|]. cbn [fold_left map concat].
  rewrite IH. unfold appendEvidence. by rewrite map_app, app_assoc.
Qed.

Lemma owned_evidence l :
  Forall owned l -> concat (map evidenceOf l) = concat (map evidenceOf (List.filter placed l)).
Proof.
  induction 1 as [|s l Hs _ IH]; [done|]. cbn [map concat List.filter]. destruct (placed s) eqn:Hp; cbn [map concat].
  - by rewrite IH.
  - unfold evidenceOf at 1. by rewrite (Hs Hp), IH.
Qed.

Lemma progressive_lines IsPrintWide req l :
  Forall owned l ->
  List.filter is_evidence_header (lines (assembled IsPrintWide l)) =
    map (sourceLine IsPrintWide)
      (map creditOf (concat (map t_RenderedEvidence (map (sourceTrace IsPrintWide req) l)))).
Proof.
  intros Ho. fold (kept is_evidence_header (assembled IsPrintWide l)).
  rewrite (kept_assembled _ _ _ evidence_is_header), evidence_lines, <-owned_evidence by done.
  rewrite !map_map. reflexivity.
Qed.

Section answers.
Context (IsPrintWide : Z -> bool) (sha256Hex : string -> string) (reader : option progressiveStoreReader)
  (search : string -> Z -> result string (list SearchResult))
  (Unmarshal : string -> result string retrieveArgs) (errText : renderErr -> string).
Notation rag := (ragRetriever IsPrintWide sha256Hex reader search).

(** How a credited source is announced in the output. *)
Definition creditLine (t : Retrieve) : RetrievedSource -> string :=
  if rt_Progressive t then sourceLine IsPrintWide else flatLine.

(** The answer shows what it credits, and its carriers hold. *)
Record Sound (t : Retrieve) (out : ToolResult * option ContextSet) : Prop := mkSound {
  sound_credit : if IsError out.1 then r_Attrib out.1 = None
    else List.filter is_evidence_header (lines (r_Content out.1)) = map (creditLine t) (default [] (r_Attrib out.1)) /\
         r_Attrib out.1 <> None;
  sound_size : rt_Progressive t = true -> IsError out.1 = false -> slen (r_Content out.1) <= RetrieveOutputCap;
  sound_set : validateContextSet out.2 = None;
}.

Lemma refuse_sound t content : Sound t (refuse content).
Proof. by split. Qed.

Lemma flat_sound t maxTokens rs :
  R t = rag -> rt_Progressive t = false -> Sound t (answerFlat t maxTokens rs).
Proof.
  intros HR Hp. unfold answerFlat. rewrite HR. cbn [legacyRendered ragRetriever].
  destruct (flat_lines rs maxTokens) as (n & Hn & Hc & Hl).
  destruct (BuildContextWithRenderedCount rs maxTokens) as [content count]. cbn [fst snd] in *. subst count.
  unfold len. rewrite (proj2 (Z.ltb_ge _ 0)), (proj2 (Z.ltb_ge _ _)) by lia. cbn [orb].
  split; [|by rewrite Hp|done]. cbn [answer fst IsError r_Content r_Attrib default]. split; [|done].
  unfold creditLine. rewrite Hp, Nat2Z.id. exact Hl.
Qed.

Lemma progressive_sound t maxTokens rs :
  rt_Progressive t = true -> (length rs <= 20)%nat ->
  Sound t (answerProgressive errText t maxTokens rs (RenderProgressiveWithGroups IsPrintWide sha256Hex reader)).
Proof.
  intros Hp Hk. unfold answerProgressive, RenderProgressiveWithGroups.
  destruct (renderProgressive _ _ _ _ true) as [[[out tr] gs]|e] eqn:E; [|apply refuse_sound].
  destruct (render_owned _ _ _ _ _ _ _ _ E) as (Hs & (l & -> & Htr & Ho) & Hg).
  split; cbn [answer fst snd IsError r_Content r_Attrib default].
  - split; [|done]. unfold creditLine. rewrite Hp, Htr, credited_fold. by apply progressive_lines.
  - intros _ _. exact Hs.
  - destruct Hg as [->|(sources & Hsrc & -> & Hb)]; [done|].
    by apply (bridged_valid IsPrintWide sha256Hex reader (progressiveRequest t maxTokens rs)).
Qed.

(** The clamp keeps the number of results within what the carriers hold. *)
Lemma clamped_results (t : Retrieve) asked (rs : list SearchResult) :
  MaxK t <= maxRetrieveMaxK ->
  let k := effectiveK t asked in (length (if (k <? len rs)%Z then take (Z.to_nat k) rs else rs) <= 20)%nat.
Proof.
  intros Hm k. unfold k. clear k. assert (effectiveK t asked <= 20) as Hk.
  { unfold effectiveK, defaultRetrieveMaxK, maxRetrieveMaxK in *.
    destruct (Z.leb_spec (MaxK t) 0); match goal with |- context [if ?x <? ?y then _ else _] =>
      destruct (Z.ltb_spec x y) end; lia. }
  destruct (Z.ltb_spec (effectiveK t asked) (len rs)); [rewrite length_take; lia|unfold len in *; lia].
Qed.

Lemma invoke_sound t raw out :
  R t = rag -> Invoke Unmarshal errText t raw = Ok out -> Sound t out.
Proof.
  intros HR. unfold Invoke. rewrite HR. cbn [progressiveRender ragRetriever opt_b negb]. rewrite andb_false_r.
  destruct (rt_Progressive t && _) eqn:Em; [done|].
  destruct (Unmarshal raw) as [args|e]; [|intros [= <-]; apply refuse_sound].
  destruct (string_eqb _ _); [intros [= <-]; apply refuse_sound|].
  cbn [r_Retrieve ragRetriever]. cbv zeta. destruct (search (a_Query args) (effectiveK t (a_K args))) as [rs|e]; [|intros [= <-]; apply refuse_sound].
  destruct (rt_Progressive t) eqn:Hp; intros [= <-]; [|by apply flat_sound].
  apply progressive_sound; [done|]. apply clamped_results. cbn [andb] in Em. by apply Z.ltb_ge.
Qed.
End answers.

(** ** The properties *)

(** C11: The tool credits what it shows.  Whatever the search returns and
    whatever the results hold, an answer of the tool over [rag.Retriever] that
    is not an error announces in its text, after the runtime's cap when the
    renderer is progressive, one block for every credited source, in order and
    with its lines and score, and no other; an error credits nothing.  In flat
    mode the credited results are the first ones. *)
Theorem retrieve_credits_rendered IsPrintWide sha256Hex reader search Unmarshal errText t raw res ctx :
  R t = ragRetriever IsPrintWide sha256Hex reader search ->
  Invoke Unmarshal errText t raw = Ok (res, ctx) ->
  if IsError res then r_Attrib res = None
  else exists attrib, r_Attrib res = Some attrib /\
    let seen := if rt_Progressive t then capOutput res (eff_OutputCap retrieve_Effect) else res in
    List.filter is_evidence_header (lines (r_Content seen)) = map (creditLine IsPrintWide t) attrib.
Proof.
  intros HR E. destruct (invoke_sound _ _ _ _ _ _ _ _ _ HR E) as [Hc Hs _]. cbn [fst] in *.
  destruct (IsError res); [done|]. destruct Hc as [Hl Hne].
  destruct (r_Attrib res) as [attrib|]; [|done]. exists attrib. split; [done|]. cbn zeta.
  destruct (rt_Progressive t); [|exact Hl]. specialize (Hs eq_refl eq_refl).
  unfold capOutput. rewrite (proj2 (Z.ltb_ge _ (Z.of_nat (String.length (r_Content res))))), andb_false_r;
    [exact Hl|exact Hs].
Qed.

(** C12: The carriers the tool hands to mixed assembly always pass its boundary
    checks, also when the retriever returns more than it was asked for: no
    configuration the tool accepts and no result makes a context set that is
    refused. *)
Theorem carriers_accepted IsPrintWide sha256Hex reader search Unmarshal errText t raw res ctx :
  R t = ragRetriever IsPrintWide sha256Hex reader search ->
  Invoke Unmarshal errText t raw = Ok (res, ctx) ->
  validateContextSet ctx = None.
Proof. intros HR E. exact (sound_set _ _ _ (invoke_sound _ _ _ _ _ _ _ _ _ HR E)). Qed.

(** *** A search that returns 30 results of one source when asked for 20 *)

Definition demo_search (q : string) (k : Z) : result string (list SearchResult) :=
  Ok (map (fun i => demo_result ("c" +:+ pretty i) "a.go" "--- source: forged" i) (seqZ 1 30)).
Definition demo_tool (progressive : bool) : Retrieve :=
  mkRetrieve (ragRetriever (fun _ => true) id None demo_search) 0 0 progressive 2 20 None.
Definition demo_call (progressive : bool) : result invokeError (ToolResult * option ContextSet) :=
  Invoke (fun _ => Ok (mkArgs "q" 500)) (fun _ => "") (demo_tool progressive) "{}".
(** What the call answers, in figures: the credited sources and the alternatives
    of each group. *)
Definition demo_figures (r : result invokeError (ToolResult * option ContextSet)) : bool * Z * option (list Z) :=
  match r with
  | Ok (res, ctx) => (IsError res, len (default [] (r_Attrib res)),
                      option_map (fun s => map (fun g => len (Alternatives g)) (Groups s)) ctx)
  | Err _ => (true, 0, None)
  end.

Lemma demo_call_figures : demo_figures (demo_call true) = (false, 20, Some [21]).
Proof. vm_compute. reflexivity. Qed.

Lemma retrieve_credits_rendered_witness : exists res ctx attrib,
  demo_call true = Ok (res, ctx) /\ r_Attrib res = Some attrib /\ len attrib = 20 /\
  List.filter is_evidence_header (lines (r_Content (capOutput res RetrieveOutputCap))) =
    map (creditLine (fun _ => true) (demo_tool true)) attrib.
Proof.
  pose proof demo_call_figures as Hf. destruct (demo_call true) as [[res ctx]|e] eqn:E; [|discriminate Hf].
  pose proof (retrieve_credits_rendered (fun _ => true) id None demo_search (fun _ => Ok (mkArgs "q" 500)) (fun _ => "")
    (demo_tool true) "{}" res ctx eq_refl E) as H.
  cbn [demo_figures] in Hf. injection Hf as He Hn _. rewrite He in H. destruct H as (attrib & Ha & Hl).
  rewrite Ha in Hn. exists res, ctx, attrib. split; [reflexivity|]. split; [exact Ha|]. split; [exact Hn|exact Hl].
Defined.

Lemma carriers_accepted_witness : exists res ctx,
  demo_call true = Ok (res, ctx) /\ validateContextSet ctx = None /\
  option_map (fun s => map (fun g => len (Alternatives g)) (Groups s)) ctx = Some [21].
Proof.
  pose proof demo_call_figures as Hf. destruct (demo_call true) as [[res ctx]|e] eqn:E; [|discriminate Hf].
  exists res, ctx. split; [reflexivity|]. split; [|cbn [demo_figures] in Hf; by injection Hf].
  exact (carriers_accepted (fun _ => true) id None demo_search (fun _ => Ok (mkArgs "q" 500)) (fun _ => "")
    (demo_tool true) "{}" res ctx eq_refl E).
Defined.
