(* ===== verification/Chunking.v ===== *)
(** * Chunking: cutting a file into chunks and comparing two cuts (rag/chunker.go, rag/stable_key.go, rag/chunk_diff.go)

    The sliding-window chunker, the logical identity of a chunk and the
    classification of new chunks against stored ones.  SHA-256 (as lower-case
    hexadecimal) and the operating system's paths are arguments. *)

From Stdlib Require Import Strings.Ascii.
From stdpp Require Import strings list gmap pretty.
From S2P Require Import Prelude GoString GoFloat GoText GoFormat Request ProgressiveText.

#[local] Open Scope string_scope.
#[local] Open Scope Z_scope.
#[local] Open Scope list_scope.

(** ** The sliding window (chunker.go) *)

Record SlidingWindowChunker := mkSliding { maxSize : Z; overlap : Z }.

Inductive slidingErr := ErrMaxSize (n : Z) | ErrOverlapNegative (n : Z) | ErrOverlapLarge (overlap maxSize : Z).

Definition NewSlidingWindowChunker (maxSize overlap : Z) : result slidingErr SlidingWindowChunker :=
  if maxSize <=? 0 then Err (ErrMaxSize maxSize)
  else if overlap <? 0 then Err (ErrOverlapNegative overlap)
  else if maxSize <=? overlap then Err (ErrOverlapLarge overlap maxSize)
  else Ok (mkSliding maxSize overlap).

Definition sliding_sourceSignature (sw : SlidingWindowChunker) : string :=
  "*rag.SlidingWindowChunker:max=" +:+ pretty (maxSize sw) +:+ ":overlap=" +:+ pretty (overlap sw).

(** A line is written to the buffer. *)
Definition put (buf line : string) : string := if 0 <? slen buf then buf +:+ nl +:+ line else buf +:+ line.

(** The loop of [findOverlapStart], from line [i] down. *)
Fixpoint overlapStart (lines : list string) (overlapChars charCount : Z) (i : nat) : nat :=
  let charCount := charCount + (slen (nth i lines "") + 1) in
  if overlapChars <=? charCount then i
  else match i with
       | O => O
       | S i => overlapStart lines overlapChars charCount i
       end.

(** [currentLine] is a line's number, from 1. *)
Definition findOverlapStart (lines : list string) (currentLine : nat) (overlapChars : Z) : nat :=
  overlapStart lines overlapChars 0 (currentLine - 1).

Section sha.
Context (sha256Hex : string -> string).

(** The first twelve bytes of the digest, in hexadecimal. *)
Definition chunkID (source content : string) (startLine : Z) : string :=
  String.substring 0 24 (sha256Hex (source +:+ String NUL (pretty startLine +:+ String NUL content))).

Definition makeChunk (source content : string) (startLine endLine : Z) (lang : string) : Chunk :=
  mkChunk (chunkID source content startLine) content source startLine endLine lang ∅ "".

(** The lines of [anchorHash]: trimmed, runs of blank ones collapsed. *)
Fixpoint normalizedLines (prevBlank : bool) (lines : list string) : list string :=
  match lines with
  | [] => []
  | line :: lines =>
      let trimmed := TrimSpace line in
      if string_eqb trimmed "" then
        if prevBlank then normalizedLines true lines else "" :: normalizedLines true lines
      else trimmed :: normalizedLines false lines
  end.

(** The first eight bytes of the digest, in hexadecimal. *)
Definition anchorHash (content : string) : string :=
  String.substring 0 16 (sha256Hex (Join (normalizedLines false (Split "010" content)) nl)).

Definition set_meta (key value : string) (c : Chunk) : Chunk :=
  mkChunk (ID c) (Content c) (Source c) (StartLine c) (EndLine c) (Language c) (<[key := value]> (Metadata c)) (StableKey c).

Definition populateSlidingWindowMetadata (chunks : list Chunk) : list Chunk :=
  imap (fun i c => set_meta "chunk_ordinal" (pretty (Z.of_nat i)) (set_meta "anchor_hash" (anchorHash (Content c)) c)) chunks.

(** What the loop over the lines carries. *)
Record window := mkWindow { w_chunks : list Chunk; buf : string; startLine : nat }.

Definition windowStep (sw : SlidingWindowChunker) (source : string) (lines : list string) (i : nat) (line : string)
    (w : window) : window :=
  let lineNum := S i in
  let buf := put (buf w) line in
  if maxSize sw <=? slen buf then
    let chunks := w_chunks w ++ [makeChunk source buf (Z.of_nat (startLine w)) (Z.of_nat lineNum) ""] in
    if 0 <? overlap sw then
      let start := findOverlapStart lines lineNum (overlap sw) in
      mkWindow chunks (fold_left put (take (S i - start) (drop start lines)) "") (S start)
    else mkWindow chunks "" (S lineNum)
  else mkWindow (w_chunks w) buf (startLine w).

Fixpoint windowLoop (sw : SlidingWindowChunker) (source : string) (lines : list string) (i : nat) (rest : list string)
    (w : window) : window :=
  match rest with
  | [] => w
  | line :: rest => windowLoop sw source lines (S i) rest (windowStep sw source lines i line w)
  end.

Definition sliding_Chunk (sw : SlidingWindowChunker) (source content : string) : list Chunk :=
  if string_eqb content "" then []
  else
    let lines := Split "010" content in
    let w := windowLoop sw source lines 0 lines (mkWindow [] "" 1) in
    populateSlidingWindowMetadata
      (if 0 <? slen (buf w)
       then w_chunks w ++ [makeChunk source (buf w) (Z.of_nat (startLine w)) (len lines) ""]
       else w_chunks w).

(** ** Stable keys (stable_key.go) *)

Section paths.
Context (Abs : string -> result string string) (Rel : string -> string -> result string string).

Inductive stableKeyErr := ErrNoRoot | ErrPath (err : string) | ErrNoIdentity.

Definition TrimPrefix (s p : string) : string :=
  if HasPrefix s p then String.substring (String.length p) (String.length s - String.length p) s else s.

Definition meta_or (key : string) (c : Chunk) : string := default "" (Metadata c !! key).

Definition ComputeStableKey (c : Chunk) (workspaceRoot : string) : result stableKeyErr string :=
  if string_eqb workspaceRoot "" then Err ErrNoRoot
  else
    match Abs workspaceRoot with
    | Err e => Err (ErrPath e)
    | Ok absRoot =>
        match Abs (Source c) with
        | Err e => Err (ErrPath e)
        | Ok absSource =>
            match Rel (Clean absRoot) (Clean absSource) with
            | Err e => Err (ErrPath e)
            | Ok relPath =>
                let relPath := TrimPrefix relPath "./" in
                let ordinal := if string_eqb (meta_or "chunk_ordinal" c) "" then "0" else meta_or "chunk_ordinal" c in
                let key identity := Ok (relPath +:+ "::" +:+ identity +:+ "#" +:+ ordinal) in
                if negb (string_eqb (meta_or "symbol_path" c) "") then key (meta_or "symbol_path" c)
                else if negb (string_eqb (meta_or "section_path" c) "") then key (meta_or "section_path" c)
                else if negb (string_eqb (meta_or "anchor_hash" c) "") then key (meta_or "anchor_hash" c)
                else Err ErrNoIdentity
            end
        end
    end.
End paths.

(** ** Comparing with what is stored (incremental.go, chunk_diff.go) *)

Record ChunkWithEmbedding := mkStored { st_Chunk : Chunk; Embedding : list float64; VectorSpaceID : string }.

Record unchangedChunk := mkUnchanged { u_chunk : Chunk; u_embedding : list float64; u_vectorSpaceID : string }.
Record modifiedChunk := mkModified { m_chunk : Chunk; oldID : string }.
Record chunkDiff := mkDiff {
  unchanged : list unchangedChunk; modified : list modifiedChunk; added : list Chunk; deletedIDs : list string
}.

Definition contentHash (content : string) : string := sha256Hex content.

(** The first stored chunk of a key wins. *)
Fixpoint indexByKey (m : gmap string ChunkWithEmbedding) (oldChunks : list ChunkWithEmbedding) :
    gmap string ChunkWithEmbedding :=
  match oldChunks with
  | [] => m
  | old :: oldChunks =>
      let key := StableKey (st_Chunk old) in
      indexByKey (if string_eqb key "" then m else match m !! key with Some _ => m | None => <[key := old]> m end) oldChunks
  end.

(** One new chunk: the classification so far and the identifiers matched. *)
Definition classify (oldByKey : gmap string ChunkWithEmbedding) (acc : chunkDiff * gset string) (nc : Chunk) :
    chunkDiff * gset string :=
  let '(d, matched) := acc in
  let add := (mkDiff (unchanged d) (modified d) (added d ++ [nc]) (deletedIDs d), matched) in
  if string_eqb (StableKey nc) "" then add
  else match oldByKey !! StableKey nc with
       | None => add
       | Some old =>
           let matched := {[ID (st_Chunk old)]} ∪ matched in
           if string_eqb (contentHash (Content (st_Chunk old))) (contentHash (Content nc))
           then (mkDiff (unchanged d ++ [mkUnchanged nc (Embedding old) (VectorSpaceID old)]) (modified d) (added d)
                   (deletedIDs d), matched)
           else (mkDiff (unchanged d) (modified d ++ [mkModified nc (ID (st_Chunk old))]) (added d) (deletedIDs d), matched)
       end.

Definition diffChunks (oldChunks : list ChunkWithEmbedding) (newChunks : list Chunk) : chunkDiff :=
  let '(d, matched) := fold_left (classify (indexByKey ∅ oldChunks)) newChunks (mkDiff [] [] [] [], ∅) in
  mkDiff (unchanged d) (modified d) (added d)
    (List.filter (fun id => negb (bool_decide (id ∈ matched))) (map (fun old => ID (st_Chunk old)) oldChunks)).
End sha.
