(* ===== verification/ChunkFacts.v ===== *)
(** * ChunkFacts: the chunks of a file cover it

    A buffer of the sliding window holds a range of lines less the blank ones it
    begins with; the ranges of the chunks follow each other without a gap. *)

From Stdlib Require Import Strings.Ascii.
From stdpp Require Import strings list gmap pretty.
From S2P Require Import Prelude GoString GoFloat GoText GoFormat Request ProgressiveText ProgressiveOutput Chunking.

#[local] Open Scope string_scope.
#[local] Open Scope Z_scope.
#[local] Open Scope list_scope.

(** ** What a buffer holds *)

(** Lines [lo], ..., [hi - 1], counted from 0. *)
Definition part (lines : list string) (lo hi : nat) : list string := take (hi - lo) (drop lo lines).

Definition pack (ls : list string) : string := fold_left put ls "".

Fixpoint drop_blank (ls : list string) : list string :=
  match ls with
  | [] => []
  | line :: ls' => if string_eqb line "" then drop_blank ls' else ls
  end.

Lemma slen_zero s : slen s = 0 -> s = "".
Proof. destruct s; [done|]. unfold slen. simpl. lia. Qed.

Lemma slen_pos s : s <> "" -> 0 < slen s.
Proof. intros H. destruct s; [done|]. unfold slen. simpl. lia. Qed.

Lemma drop_blank_snoc ls x :
  drop_blank (ls ++ [x]) = if decide (drop_blank ls = []) then drop_blank [x] else drop_blank ls ++ [x].
Proof.
  induction ls as [|y ls IH]; [done|]. cbn [app drop_blank].
  destruct (string_eqb y ""); [exact IH|by rewrite decide_False].
Qed.

Lemma drop_blank_first ls y ls' : drop_blank ls = y :: ls' -> y <> "".
Proof.
  induction ls as [|x ls IH]; [done|]. cbn [drop_blank]. unfold string_eqb.
  case_bool_decide as E; [exact IH|]. by intros [= <- _].
Qed.

Lemma Join_snoc ls x sep : ls <> [] -> Join (ls ++ [x]) sep = Join ls sep +:+ sep +:+ x.
Proof.
  unfold Join. induction ls as [|y [|z ls] IH]; [done|done|]. intros _.
  change ((y :: z :: ls) ++ [x]) with (y :: z :: ls ++ [x]). rewrite !concat_cons.
  change (z :: ls ++ [x]) with ((z :: ls) ++ [x]). rewrite IH by done. by rewrite !append_assoc.
Qed.

(** The buffer after some lines is what they join to, less the leading blanks. *)
Lemma pack_join ls : pack ls = Join (drop_blank ls) nl.
Proof.
  induction ls as [|x ls IH] using rev_ind; [done|]. unfold pack in *.
  rewrite fold_left_app. cbn [fold_left]. rewrite IH, drop_blank_snoc. unfold put.
  destruct (decide (drop_blank ls = [])) as [->|Hne].
  - cbn [Join]. change (slen (Join [] nl)) with 0. cbn [Z.ltb Z.compare].
    change (Join [] nl +:+ x) with x. cbn [drop_blank]. unfold string_eqb. case_bool_decide as E; [by subst x|done].
  - rewrite (Join_snoc _ _ _ Hne). rewrite (proj2 (Z.ltb_lt _ _)); [done|]. apply slen_pos.
    destruct (drop_blank ls) as [|y l] eqn:E; [done|]. apply drop_blank_first in E as Hy.
    destruct y as [|c y]; [done|]. unfold Join. by destruct l.
Qed.

Lemma part_snoc lines lo i line :
  (lo <= i)%nat -> lines !! i = Some line -> part lines lo (S i) = part lines lo i ++ [line].
Proof.
  intros Hlo Hi. unfold part. replace (S i - lo)%nat with (S (i - lo)) by lia.
  apply take_S_r. rewrite lookup_drop. by replace (lo + (i - lo))%nat with i by lia.
Qed.

Lemma pack_part lines lo i line :
  (lo <= i)%nat -> lines !! i = Some line -> put (pack (part lines lo i)) line = pack (part lines lo (S i)).
Proof. intros Hlo Hi. rewrite (part_snoc lines lo i line Hlo Hi). unfold pack. by rewrite fold_left_app. Qed.

Lemma blank_part lines lo hi k line :
  pack (part lines lo hi) = "" -> lines !! k = Some line -> (lo <= k < hi)%nat -> line = "".
Proof.
  rewrite pack_join. intros H Hk Hr.
  assert (forall ls, Join (drop_blank ls) nl = "" -> line ∈ ls -> line = "") as Hb.
  { intros ls. induction ls as [|x ls IH]; [by intros _ ?%elem_of_nil|]. cbn [drop_blank].
    unfold string_eqb. case_bool_decide as E.
    - subst x. intros Hj [->|Hl]%elem_of_cons; [done|by apply IH].
    - destruct x as [|c x]; [done|]. intros Hj. exfalso. unfold Join in Hj. by destruct ls. }
  apply (Hb _ H). apply list_elem_of_lookup. exists (k - lo)%nat. unfold part.
  rewrite lookup_take_lt, lookup_drop by lia. by replace (lo + (k - lo))%nat with k by lia.
Qed.

(** ** The overlap *)

(** What [findOverlapStart] counts for some lines. *)
Definition weight (ls : list string) : Z := Zsum (map (fun l => slen l + 1) ls).

Lemma weight_snoc ls x : weight (ls ++ [x]) = weight ls + (slen x + 1).
Proof. unfold weight. rewrite map_app, Zsum_app. simpl. lia. Qed.

Lemma pack_weight ls : slen (pack ls) <= weight ls /\ (ls <> [] -> slen (pack ls) + 1 <= weight ls).
Proof.
  induction ls as [|x ls [IH IH']] using rev_ind; [done|]. unfold pack in *.
  rewrite fold_left_app, weight_snoc. cbn [fold_left]. set (b := fold_left put ls "") in *.
  assert (slen (put b x) + 1 <= weight ls + (slen x + 1)) as H; [|split; [lia|done]].
  unfold put. destruct (Z.ltb_spec 0 (slen b)) as [Hb|Hb]; rewrite !slen_app; [change (slen nl) with 1|lia].
  assert (ls <> []) as Hne by (intros ->; unfold b in Hb; by cbn in Hb). specialize (IH' Hne). lia.
Qed.

Lemma part_nil lines i : part lines i i = [].
Proof. unfold part. by rewrite Nat.sub_diag. Qed.

Lemma overlapStart_range lines ov cc i lo :
  (lo <= i < length lines)%nat -> ov <= cc + weight (part lines lo (S i)) ->
  (lo <= overlapStart lines ov cc i <= i)%nat.
Proof.
  revert cc. induction i as [|i IH]; intros cc [Hlo Hi] Hs; cbn [overlapStart].
  - destruct (_ <=? _); lia.
  - destruct (lookup_lt_is_Some_2 lines (S i) Hi) as [line Hl].
    rewrite (part_snoc lines lo (S i) line Hlo Hl), weight_snoc in Hs.
    rewrite (nth_lookup_Some _ _ _ _ Hl).
    destruct (Z.leb_spec ov (cc + (slen line + 1))); [lia|].
    destruct (decide (lo = S i)) as [->|Hne]; [rewrite part_nil in Hs; change (weight []) with 0 in Hs; lia|].
    enough (lo <= overlapStart lines ov (cc + (slen line + 1)) i <= i)%nat by lia. apply IH; [lia|lia].
Qed.

(** The line it stops at is the last from which the lines up to [i] weigh enough. *)
Lemma overlapStart_last lines ov cc i lo :
  (lo <= i < length lines)%nat -> cc < ov <= cc + weight (part lines lo (S i)) ->
  cc + weight (part lines (S (overlapStart lines ov cc i)) (S i)) < ov <=
    cc + weight (part lines (overlapStart lines ov cc i) (S i)).
Proof.
  revert cc. induction i as [|i IH]; intros cc [Hlo Hi] Hs;
    destruct (lookup_lt_is_Some_2 lines _ Hi) as [line Hl]; cbn [overlapStart]; rewrite (nth_lookup_Some _ _ _ _ Hl).
  - replace lo with 0%nat in Hs by lia. destruct (_ <=? _); rewrite part_nil; change (weight []) with 0; lia.
  - rewrite (part_snoc lines lo (S i) line Hlo Hl), weight_snoc in Hs.
    destruct (Z.leb_spec ov (cc + (slen line + 1))) as [Hov|Hov].
    + rewrite (part_snoc lines (S i) (S i) line), weight_snoc, !part_nil by (lia || done).
      change (weight []) with 0. lia.
    + destruct (decide (lo = S i)) as [->|Hne]; [rewrite part_nil in Hs; change (weight []) with 0 in Hs; lia|].
      destruct (overlapStart_range lines ov (cc + (slen line + 1)) i lo) as [H1 H2]; [lia|lia|].
      specialize (IH (cc + (slen line + 1)) ltac:(lia) ltac:(lia)).
      rewrite !(part_snoc lines _ (S i) line), !weight_snoc by (lia || done). lia.
Qed.

(** ** The chunks *)

(** The text of a range, without the blank lines it begins with. *)
Definition span_text (lines : list string) (lo hi : nat) : string := Join (drop_blank (part lines lo hi)) nl.

(** The chunk is that of a range of lines. *)
Record Cut (lines : list string) (c : Chunk) (s : nat * nat) : Prop := mkCut {
  cut_start : StartLine c = Z.of_nat (S s.1);
  cut_end : EndLine c = Z.of_nat s.2;
  cut_range : (s.1 < s.2 <= length lines)%nat;
  cut_content : Content c = span_text lines s.1 s.2;
}.

(** No line is lost between a range and the next one, and neither end goes
    back. *)
Definition follows (s s' : nat * nat) : Prop := (s.1 <= s'.1 <= s.2)%nat /\ (s.2 <= s'.2)%nat.
Definition advances (s s' : nat * nat) : Prop := follows s s' /\ (s.2 < s'.2)%nat.

(** A range begins where the overlap of the one before does: at the last line from
    which the lines up to the end of that one weigh the overlap, or right after it
    when there is none. *)
Definition overlaps (lines : list string) (sw : SlidingWindowChunker) (s : nat * nat) (lo : nat) : Prop :=
  if decide (overlap sw = 0) then lo = s.2
  else (lo < s.2)%nat /\ weight (part lines (S lo) s.2) < overlap sw <= weight (part lines lo s.2).

(** Of the lines a range adds after [e], none but the last fills the window. *)
Definition unfilled (lines : list string) (sw : SlidingWindowChunker) (e : nat) (s : nat * nat) : Prop :=
  forall hi, (e < hi < s.2)%nat -> slen (span_text lines s.1 hi) < maxSize sw.

Definition cut_after (lines : list string) (sw : SlidingWindowChunker) (s s' : nat * nat) : Prop :=
  overlaps lines sw s s'.1 /\ unfilled lines sw s.2 s'.

Lemma Sorted_snoc {A} (P : A -> A -> Prop) l x :
  Sorted P l -> (forall y, last l = Some y -> P y x) -> Sorted P (l ++ [x]).
Proof.
  induction 1 as [|y l Hl IH Hd]; intros Hx; [by repeat constructor|]. cbn [app]. constructor.
  - apply IH. intros z Hz. apply Hx. rewrite last_cons. by rewrite Hz.
  - inversion Hd; subst; constructor; [by apply Hx|done].
Qed.

Section sliding.
Context (sha256Hex : string -> string) (sw : SlidingWindowChunker) (source : string) (lines : list string).
Context (Hoverlap : 0 <= overlap sw < maxSize sw).

Definition full (c : Chunk) : Prop := maxSize sw <= slen (Content c).

(** What holds when the lines before [i] have been read. *)
Record Cutting (i : nat) (w : window) (spans : list (nat * nat)) : Prop := mkCutting {
  ct_cuts : Forall2 (Cut lines) (w_chunks w) spans;
  ct_full : Forall full (w_chunks w);
  ct_sorted : Sorted advances spans;
  ct_first : forall s, head spans = Some s -> s.1 = 0%nat;
  ct_start : (1 <= startLine w <= S i)%nat;
  ct_last : forall s, last spans = Some s -> (s.1 <= startLine w - 1 <= s.2)%nat /\ (s.2 <= i)%nat;
  ct_none : spans = [] -> startLine w = 1%nat;
  ct_buf : buf w = pack (part lines (startLine w - 1) i);
  ct_after : Sorted (cut_after lines sw) spans;
  ct_whole : forall s, head spans = Some s -> unfilled lines sw 0 s;
  ct_overlap : forall s, last spans = Some s -> overlaps lines sw s (startLine w - 1);
  ct_open : unfilled lines sw (default 0%nat (option_map snd (last spans))) ((startLine w - 1)%nat, S i);
}.

Lemma cut_here lo i text :
  (lo <= i < length lines)%nat -> text = pack (part lines lo (S i)) ->
  Cut lines (makeChunk sha256Hex source text (Z.of_nat (S lo)) (Z.of_nat (S i)) "") (lo, S i).
Proof. intros Hi ->. split; cbn; [done|done|lia|apply pack_join]. Qed.

Lemma windowStep_cuts i line w spans :
  lines !! i = Some line -> Cutting i w spans ->
  exists spans', Cutting (S i) (windowStep sha256Hex sw source lines i line w) spans'.
Proof.
  intros Hl [Hc Hf Hs Hh Hst Hla Hn Hb Ha Hw Ho Hu]. pose proof (lookup_lt_Some _ _ _ Hl) as Hi.
  destruct (startLine w) as [|lo] eqn:Elo; [lia|]. replace (S lo - 1)%nat with lo in * by lia.
  unfold windowStep. rewrite Hb, (pack_part lines lo i line) by (lia || done). rewrite Elo.
  destruct (Z.leb_spec (maxSize sw) (slen (pack (part lines lo (S i))))) as [Hfull|Hlt].
  2:{ exists spans. split; cbn [w_chunks buf startLine]; replace (S lo - 1)%nat with lo by lia; try done; [lia| |].
      - intros s E. specialize (Hla s E). lia.
      - intros hi Hhi. cbn [fst snd] in *. destruct (decide (hi = S i)) as [->|]; [|apply Hu; simpl; lia].
        unfold span_text. rewrite <-pack_join. exact Hlt. }
  exists (spans ++ [(lo, S i)]).
  assert (forall start text, (lo <= start <= S i)%nat -> overlaps lines sw (lo, S i) start -> text = pack (part lines start (S i)) ->
    Cutting (S i) (mkWindow (w_chunks w ++ [makeChunk sha256Hex source (pack (part lines lo (S i))) (Z.of_nat (S lo))
      (Z.of_nat (S i)) ""]) text (S start)) (spans ++ [(lo, S i)])) as Hnext.
  { intros start text Hstart Hov ->. split; cbn [w_chunks buf startLine]; rewrite ?last_snoc;
      try replace (S start - 1)%nat with start by lia.
    - apply Forall2_app; [done|]. constructor; [|constructor]. apply cut_here; [lia|done].
    - apply Forall_app. split; [done|]. by constructor.
    - apply Sorted_snoc; [done|]. intros y Hy. specialize (Hla y Hy). unfold advances, follows. simpl. lia.
    - intros s. destruct spans as [|s0 spans]; [|apply Hh]. intros [= <-]. simpl. specialize (Hn eq_refl). lia.
    - lia.
    - intros s [= <-]. simpl. lia.
    - by destruct spans.
    - done.
    - apply Sorted_snoc; [done|]. intros y Hy. split; [by apply Ho|]. by rewrite Hy in Hu.
    - intros s. destruct spans as [|s0 spans]; [|apply Hw]. intros [= <-].
      specialize (Hn eq_refl). replace lo with 0%nat in * by lia. exact Hu.
    - by intros s [= <-].
    - intros hi. simpl. lia. }
  unfold overlaps in Hnext. cbn [snd] in Hnext.
  destruct (Z.ltb_spec 0 (overlap sw)); [|apply (Hnext (S i)); [lia|rewrite decide_True; lia|by rewrite part_nil]].
  destruct (pack_weight (part lines lo (S i))) as [Hw' _].
  unfold findOverlapStart. replace (S i - 1)%nat with i by lia.
  pose proof (overlapStart_range lines (overlap sw) 0 i lo ltac:(lia)) as Hr.
  pose proof (overlapStart_last lines (overlap sw) 0 i lo ltac:(lia)) as Hr'.
  apply Hnext; [lia| |done]. rewrite decide_False by lia. lia.
Qed.

Lemma windowLoop_cuts pre rest w spans :
  lines = pre ++ rest -> Cutting (length pre) w spans ->
  exists spans', Cutting (length lines) (windowLoop sha256Hex sw source lines (length pre) rest w) spans'.
Proof.
  revert pre w spans. induction rest as [|line rest IH]; intros pre w spans Hd HC; cbn [windowLoop].
  - exists spans. by rewrite Hd, app_nil_r.
  - destruct (windowStep_cuts (length pre) line w spans) as [spans1 H1]; [|done|].
    { rewrite Hd. by apply list_lookup_middle. }
    specialize (IH (pre ++ [line])). rewrite length_app, Nat.add_1_r in IH. eapply IH; [|exact H1].
    by rewrite Hd, <-app_assoc.
Qed.

Lemma start_cutting : Cutting 0 (mkWindow [] "" 1) [].
Proof. split; cbn; try done. intros hi. simpl. lia. Qed.

(** The chunks of the lines, before their metadata. *)
Definition cut_chunks (w : window) : list Chunk :=
  if 0 <? slen (buf w)
  then w_chunks w ++ [makeChunk sha256Hex source (buf w) (Z.of_nat (startLine w)) (len lines) ""]
  else w_chunks w.

(** Every line that is not blank is in some range. *)
Definition covered (spans : list (nat * nat)) : Prop :=
  forall k line, lines !! k = Some line -> line <> "" -> exists s, s ∈ spans /\ (s.1 <= k < s.2)%nat.

Lemma spans_cover spans k :
  Sorted follows spans -> (forall s, head spans = Some s -> (s.1 <= k)%nat) ->
  (exists s, last spans = Some s /\ (k < s.2)%nat) -> exists s, s ∈ spans /\ (s.1 <= k < s.2)%nat.
Proof.
  induction 1 as [|s l Hl IH Hd]; intros Hh (e & He & Hk); [done|].
  destruct (decide (k < s.2)%nat) as [Hlt|Hge].
  - exists s. split; [by left|]. specialize (Hh s eq_refl). lia.
  - destruct l as [|s' l]; [cbn in He; injection He as <-; lia|].
    destruct IH as (s1 & Hs1 & Hr).
    + intros s0 [= <-]. inversion Hd as [|? ? Hfol]; subst. destruct Hfol as [[_ ?] _]. lia.
    + exists e. done.
    + exists s1. split; [by right|done].
Qed.

Lemma cut_spec w spans :
  Cutting (length lines) w spans -> exists spans',
    Forall2 (Cut lines) (cut_chunks w) spans' /\ Sorted follows spans' /\ Sorted advances (removelast spans') /\
    (forall s, head spans' = Some s -> s.1 = 0%nat) /\ covered spans' /\ Forall full (removelast (cut_chunks w)) /\
    Sorted (cut_after lines sw) spans' /\ (forall s, head spans' = Some s -> unfilled lines sw 0 s).
Proof.
  intros [Hc Hf Hs Hh Hst Hla Hn Hb Ha Hw Ho Hu]. set (lo := (startLine w - 1)%nat) in *.
  assert (Sorted follows spans) as Hs1 by (clear -Hs; induction Hs as [|s l Hs IH Hd]; constructor; [done|];
    inversion Hd as [|? ? [Hfol _]]; by constructor).
  assert (forall k line, lines !! k = Some line -> line <> "" -> (k < lo)%nat \/ pack (part lines lo (length lines)) <> "") as Hk.
  { intros k line Hl Hne. destruct (decide (k < lo)%nat) as [|Hge]; [by left|]. right. intros E. apply Hne.
    eapply (blank_part lines lo (length lines) k); [done|done|]. apply lookup_lt_Some in Hl. lia. }
  unfold cut_chunks. destruct (Z.ltb_spec 0 (slen (buf w))) as [Hpos|Hnil].
  - assert (lo < length lines)%nat as Hlo.
    { destruct (decide (lo < length lines)%nat); [done|]. rewrite Hb in Hpos. unfold part in Hpos.
      rewrite drop_ge, take_nil in Hpos by lia. done. }
    exists (spans ++ [(lo, length lines)]). rewrite !removelast_last. split_and!; try done.
    + apply Forall2_app; [done|]. constructor; [|constructor]. split; cbn.
      * f_equal. lia.
      * done.
      * lia.
      * by rewrite Hb, pack_join.
    + apply Sorted_snoc; [done|]. intros y Hy. specialize (Hla y Hy). unfold follows. simpl. lia.
    + intros s. destruct spans as [|s0 l]; [|apply Hh]. intros [= <-]. simpl. specialize (Hn eq_refl). lia.
    + intros k line Hl Hne. apply spans_cover.
      * apply Sorted_snoc; [done|]. intros y Hy. specialize (Hla y Hy). unfold follows. simpl. lia.
      * intros s. destruct spans as [|s0 l]; [|intros E; rewrite (Hh _ E); lia]. intros [= <-]. simpl.
        specialize (Hn eq_refl). lia.
      * eexists. rewrite last_snoc. split; [done|]. simpl. by apply lookup_lt_Some in Hl.
    + apply Sorted_snoc; [done|]. intros y Hy. split; [by apply Ho|]. rewrite Hy in Hu.
      intros hi Hhi. apply Hu. simpl in *. lia.
    + intros s. destruct spans as [|s0 l]; [|apply Hw]. intros [= <-] hi Hhi. apply Hu. simpl in *. lia.
  - exists spans. assert (forall A (P : A -> Prop) l, Forall P l -> Forall P (removelast l)) as Hrl.
    { intros A P l. induction 1 as [|x [|y l'] Hx Hl IH]; [constructor|constructor|]. by constructor. }
    split_and!; try done.
    + clear -Hs. induction Hs as [|s [|s' l] Hs IH Hd]; [constructor|constructor|]. cbn [removelast] in *.
      constructor; [done|]. destruct l; [constructor|]. inversion Hd; subst. by constructor.
    + intros k line Hl Hne. destruct (Hk k line Hl Hne) as [Hlt|Hne'].
      * apply spans_cover; [done|intros s E; rewrite (Hh s E); lia|].
        destruct (last spans) as [s|] eqn:E; [exists s; split; [done|]; specialize (Hla s eq_refl); lia|].
        apply last_None in E. specialize (Hn E). lia.
      * exfalso. apply Hne'. rewrite <-Hb. apply slen_zero. unfold slen in *. lia.
    + by apply Hrl.
Qed.
End sliding.

(** The metadata does not move a chunk. *)
Definition same_text (f : nat -> Chunk -> Chunk) : Prop :=
  forall i c, Content (f i c) = Content c /\ StartLine (f i c) = StartLine c /\ EndLine (f i c) = EndLine c.

Lemma imap_cuts lines f cs spans : same_text f -> Forall2 (Cut lines) cs spans -> Forall2 (Cut lines) (imap f cs) spans.
Proof.
  intros Hf H. revert f Hf. induction H as [|c s cs spans [H1 H2 H3 H4] _ IH]; intros f Hf; [done|]. cbn [imap].
  destruct (Hf 0%nat c) as (E1 & E2 & E3). constructor; [split; congruence|]. apply IH. intros i. apply (Hf (S i)).
Qed.

Lemma imap_full sw f cs : same_text f -> Forall (full sw) (removelast cs) -> Forall (full sw) (removelast (imap f cs)).
Proof.
  revert f. induction cs as [|c [|c' cs] IH]; intros f Hf; [done|done|]. cbn [imap removelast] in *.
  rewrite !Forall_cons. intros [Hc Hcs]. split.
  - unfold full in *. by destruct (Hf 0%nat c) as (-> & _).
  - apply (IH (f ∘ S)); [intros i; apply (Hf (S i))|done].
Qed.

(** ** The property *)

(** C14: The chunks of a file cover it, and are cut where the window fills.  With
    a window the constructor accepts, each chunk is a range of lines, from its
    StartLine to its EndLine, joined without the blank lines the range begins
    with; the first range starts at the first line, each starts within the one
    before or right after it and ends no earlier, later except perhaps for the
    last; every line that is not blank is in a chunk.  Every chunk but the last
    is at least as long as the window, and no chunk could have ended earlier: it
    is shorter than the window at every line it adds to the one before, its last
    one excepted.  Each range begins at the last line from which what it repeats
    weighs the overlap, or right after the one before when there is no overlap. *)
Theorem windows_cover sha256Hex max over sw source content :
  NewSlidingWindowChunker max over = Ok sw ->
  let lines := Split "010" content in
  let chunks := sliding_Chunk sha256Hex sw source content in
  exists spans, Forall2 (Cut lines) chunks spans /\
    Sorted follows spans /\ Sorted advances (removelast spans) /\
    (forall s, head spans = Some s -> s.1 = 0%nat) /\ covered lines spans /\
    Forall (full sw) (removelast chunks) /\
    Sorted (cut_after lines sw) spans /\ (forall s, head spans = Some s -> unfilled lines sw 0 s).
Proof.
  unfold NewSlidingWindowChunker. destruct (Z.leb_spec max 0); [done|]. destruct (Z.ltb_spec over 0); [done|].
  destruct (Z.leb_spec max over); [done|]. intros [= <-]. set (lines := Split "010" content). unfold sliding_Chunk.
  unfold string_eqb. case_bool_decide as E.
  - exists []. split_and!; try done. intros k line. subst lines content. destruct k as [|k]; [|done].
    by intros [= <-].
  - destruct (windowLoop_cuts sha256Hex (mkSliding max over) source lines) with (pre := @nil string)
      (rest := lines) (w := mkWindow [] "" 1) (spans := @nil (nat * nat)) as [spans HC];
      [simpl; lia|done|apply start_cutting|].
    destruct (cut_spec sha256Hex (mkSliding max over) source lines _ _ HC) as (spans' & Hc & Hs1 & Hs2 & Hs3 & Hs4 & Hf & Hs5 & Hs6).
    exists spans'. split_and!; try done.
    + by apply imap_cuts.
    + by apply imap_full.
Qed.

(** Two blank lines come first; the text of the first chunk begins at line 3,
    its StartLine says 1. *)
Definition demo_text : string := nl +:+ nl +:+ "abc" +:+ nl +:+ "def" +:+ nl +:+ "ghij".

Lemma windows_cover_witness : exists spans,
  Forall2 (Cut (Split "010" demo_text)) (sliding_Chunk id (mkSliding 6 2) "a.txt" demo_text) spans /\
  map (fun c => (Content c, StartLine c, EndLine c)) (sliding_Chunk id (mkSliding 6 2) "a.txt" demo_text) =
    [("abc" +:+ nl +:+ "def", 1, 4); ("def" +:+ nl +:+ "ghij", 4, 5); ("ghij", 5, 5)].
Proof.
  destruct (windows_cover id 6 2 (mkSliding 6 2) "a.txt" demo_text eq_refl) as (spans & H & _).
  exists spans. split; [exact H|]. vm_compute. reflexivity.
Defined.
