(* ===== verification/Indexing.v ===== *)
(** * Indexing: full and incremental indexing of a file's text (rag/indexer.go, rag/incremental.go, rag/indexer_incremental.go)

    A text is cut, embedded and stored with a signature of what the result
    depends on; the incremental path embeds only what changed.  The world [W] is
    what the store and the embedder keep: each call of them is a function on it.
    The chunker and the coding of a signature as JSON are arguments.  Reading
    files and the sensitive-content policy come before this code. *)

From stdpp Require Import strings list gmap.
From S2P Require Import Prelude GoString GoFloat GoText Request ProgressiveText Chunking.

#[local] Open Scope string_scope.
#[local] Open Scope Z_scope.
#[local] Open Scope list_scope.

(** ** What the indexer calls *)

Record EmbedResult := mkEmbedResult { Embeddings : list (list float64); res_Model : string; res_Provider : string; res_VSID : string }.

(** [resolveVectorSpaceID]. *)
Definition resolveVectorSpaceID (res : EmbedResult) : string :=
  if negb (string_eqb (res_VSID res) "") then res_VSID res
  else if negb (string_eqb (res_Provider res) "") && negb (string_eqb (res_Model res) "")
  then res_Provider res +:+ "/" +:+ res_Model res
  else "".

(** An error of the store: whether it wraps ErrIncrementalRebuildRequired. *)
Record storeErr := mkStoreErr { se_rebuild : bool; se_text : string }.

Inductive indexErr :=
| ErrManaged | ErrManagedRead (e : string)
| ErrChunk (e : string)
| ErrEmbedderFailed (e : string)
| ErrEmbeddingCountMismatch (got want : Z)
| ErrStoreOperation (e : string)
| ErrNoLoader | ErrNoExisting | ErrNoCAS            (* these wrap ErrIncrementalRebuildRequired *)
| ErrLegacyVSID | ErrNoVSID                         (* and these *)
| ErrCorpusMixedVectorSpaces
| ErrVectorSpaceDrift (reused fresh : string)
| ErrStore (e : storeErr)
| ErrIncremental (e : indexErr) | ErrReplace (e : indexErr) | ErrClear (e : indexErr).  (** %w wrappers *)

(** [incrementalShouldFallback]. *)
Fixpoint incrementalShouldFallback (e : indexErr) : bool :=
  match e with
  | ErrNoLoader | ErrNoExisting | ErrNoCAS | ErrLegacyVSID | ErrNoVSID => true
  | ErrStore e => se_rebuild e
  | ErrIncremental e | ErrReplace e | ErrClear e => incrementalShouldFallback e
  | _ => false
  end.

(** What a replacement of a source writes. *)
Record replacement := mkReplacement {
  rp_Source : string; rp_Chunks : list Chunk; rp_Embeddings : list (list float64); rp_Hash : string; rp_VSID : string
}.

(** The store with its optional capabilities, and the embedder. *)
Record Backend (W : Type) := mkBackend {
  Embed : W -> string -> list string -> W * result string EmbedResult;
  GetBySource : option (W -> string -> result string (list ChunkWithEmbedding));
  GetSourceHash : option (W -> string -> result string string);
  ReplaceIfSourceHash : option (W -> replacement -> string -> W * option storeErr);
  ReplaceWithVectorSpaceID : option (W -> replacement -> W * option storeErr);
  ReplaceWithHash : option (W -> replacement -> W * option storeErr);
  ReplaceSource : option (W -> replacement -> W * option storeErr);
  DeleteBySource : W -> string -> W * option storeErr;
  StoreChunks : W -> list Chunk -> list (list float64) -> W * option storeErr;
  hasManagedDocumentSource : option (W -> string -> result string bool);
  ctx_done : W -> bool;
}.
Arguments Embed {W}. Arguments GetBySource {W}. Arguments GetSourceHash {W}. Arguments ReplaceIfSourceHash {W}.
Arguments ReplaceWithVectorSpaceID {W}. Arguments ReplaceWithHash {W}. Arguments ReplaceSource {W}.
Arguments DeleteBySource {W}. Arguments StoreChunks {W}. Arguments hasManagedDocumentSource {W}. Arguments ctx_done {W}.

(** The indexer's configuration. *)
Record Indexer := mkIndexer {
  idx_model : string; idx_Chunk : string -> string -> result string (list Chunk);
  idx_chunkerSignature : string; workspaceRoot : string
}.

(** ** Signatures (incremental.go) *)

Record sourceSignature := mkSignature {
  Version : Z; ContentHash : string; EmbeddingModel : string; sig_Chunker : string; StableKeyVersion : string
}.

Definition sourceSignatureVersion : Z := 2.
Definition stableKeyVersion : string := "v1".
Definition managedSourcePrefix : string := "managed:".

Definition compatibleWith (s other : sourceSignature) : bool :=
  (Version s =? Version other) && string_eqb (EmbeddingModel s) (EmbeddingModel other) &&
  string_eqb (sig_Chunker s) (sig_Chunker other) && string_eqb (StableKeyVersion s) (StableKeyVersion other).

Definition set_key (key : string) (c : Chunk) : Chunk :=
  mkChunk (ID c) (Content c) (Source c) (StartLine c) (EndLine c) (Language c) (Metadata c) key.

(** *** What is reused (indexer_incremental.go) *)

Inductive cachedVSIDStatus := cachedVSIDNone | cachedVSIDUniform | cachedVSIDLegacyUnknown | cachedVSIDMixed.

Fixpoint reusedLoop (id : string) (l : list unchangedChunk) : string * cachedVSIDStatus :=
  match l with
  | [] => (id, cachedVSIDUniform)
  | uc :: l =>
      if string_eqb (u_vectorSpaceID uc) "" then ("", cachedVSIDLegacyUnknown)
      else if string_eqb id "" then reusedLoop (u_vectorSpaceID uc) l
      else if negb (string_eqb id (u_vectorSpaceID uc)) then ("", cachedVSIDMixed)
      else reusedLoop id l
  end.

Definition reusedCachedVSID (unchanged : list unchangedChunk) : string * cachedVSIDStatus :=
  match unchanged with
  | [] => ("", cachedVSIDNone)
  | _ => reusedLoop "" unchanged
  end.

Definition reusedCachedVSIDError (status : cachedVSIDStatus) : indexErr :=
  match status with
  | cachedVSIDLegacyUnknown => ErrLegacyVSID
  | cachedVSIDMixed => ErrCorpusMixedVectorSpaces
  | _ => ErrNoVSID
  end.

(** The cached embedding of each key; the last one wins. *)
Definition cachedEmbeddings (unchanged : list unchangedChunk) : gmap string (list float64) :=
  fold_left (fun m uc => <[StableKey (u_chunk uc) := u_embedding uc]> m) unchanged ∅.

(** The embedding of the first unchanged chunk of that key; [nil] without one. *)
Fixpoint reusedEmbedding (key : string) (l : list unchangedChunk) : list float64 :=
  match l with
  | [] => []
  | uc :: l => if string_eqb (StableKey (u_chunk uc)) key then u_embedding uc else reusedEmbedding key l
  end.

Definition textsToEmbed (cached : gmap string (list float64)) (chunks : list Chunk) : list string :=
  map Content (List.filter (fun c => negb (opt_b (cached !! StableKey c))) chunks).

(** Cached and fresh embeddings in the order of the chunks; [None] when the
    fresh ones run out. *)
Fixpoint assembleEmbeddings (cached : gmap string (list float64)) (fresh : list (list float64)) (chunks : list Chunk) :
    option (list (list float64)) :=
  match chunks with
  | [] => Some []
  | c :: chunks =>
      match cached !! StableKey c with
      | Some e => option_map (cons e) (assembleEmbeddings cached fresh chunks)
      | None => match fresh with
                | e :: fresh => option_map (cons e) (assembleEmbeddings cached fresh chunks)
                | [] => None
                end
      end
  end.

Definition is_managed (path : string) : bool := HasPrefix path managedSourcePrefix.

Section indexer.
Context {W : Type} (env : Backend W) (idx : Indexer).
Context (sha256Hex : string -> string) (Abs : string -> result string string) (Rel : string -> string -> result string string).
Context (Marshal : sourceSignature -> string) (Unmarshal : string -> option sourceSignature).

Definition currentSourceSignature (content : string) : sourceSignature :=
  mkSignature sourceSignatureVersion (contentHash sha256Hex content) (idx_model idx) (idx_chunkerSignature idx) stableKeyVersion.

Definition parseSourceSignature (raw : string) : option sourceSignature :=
  match Unmarshal raw with
  | Some sig => if (Version sig =? 0) || string_eqb (ContentHash sig) "" then None else Some sig
  | None => None
  end.

Definition requiresFullReembed (stored : string) (current : sourceSignature) : bool :=
  match parseSourceSignature stored with
  | None => true
  | Some storedSig => negb (compatibleWith storedSig current)
  end.

(** ** Writing (indexer.go) *)

Definition rejectManagedDocumentSource (w : W) (source : string) : option indexErr :=
  if negb (is_managed source) then None
  else match hasManagedDocumentSource env with
       | None => None
       | Some has => match has w source with
                     | Err e => Some (ErrManagedRead e)
                     | Ok true => Some ErrManaged
                     | Ok false => None
                     end
       end.

Definition wrapped (a : W * option storeErr) : W * option indexErr := (a.1, option_map ErrStore a.2).

Definition replaceSourceWithProvenanceLocked (w : W) (r : replacement) : W * option indexErr :=
  match ReplaceWithVectorSpaceID env with
  | Some replace => wrapped (replace w r)
  | None =>
      match ReplaceWithHash env with
      | Some replace => wrapped (replace w (mkReplacement (rp_Source r) (rp_Chunks r) (rp_Embeddings r) (rp_Hash r) ""))
      | None =>
          match ReplaceSource env with
          | Some replace => wrapped (replace w (mkReplacement (rp_Source r) (rp_Chunks r) (rp_Embeddings r) "" ""))
          | None =>
              match DeleteBySource env w (rp_Source r) with
              | (w, Some e) => (w, Some (ErrStore e))
              | (w, None) =>
                  if len (rp_Chunks r) =? 0 then (w, None)
                  else wrapped (StoreChunks env w (rp_Chunks r) (rp_Embeddings r))
              end
          end
      end
  end.

Definition replaceSourceWithProvenance (w : W) (r : replacement) : W * option indexErr :=
  match rejectManagedDocumentSource w (rp_Source r) with
  | Some err => (w, Some err)
  | None => replaceSourceWithProvenanceLocked w r
  end.

Definition replaceSource (w : W) (path : string) : W * option indexErr :=
  replaceSourceWithProvenance w (mkReplacement path [] [] "" "").

Definition replaceSourceWithProvenanceIfSourceHash (w : W) (r : replacement) (expectedSourceHash : string) :
    W * option indexErr :=
  match rejectManagedDocumentSource w (rp_Source r) with
  | Some err => (w, Some err)
  | None => match ReplaceIfSourceHash env with
            | Some replace => wrapped (replace w r expectedSourceHash)
            | None => (w, Some ErrNoCAS)
            end
  end.

(** [expected] is the expected hash when there is one. *)
Definition replaceIncrementalSource (w : W) (r : replacement) (expected : option string) : W * option indexErr :=
  match expected with
  | Some hash => replaceSourceWithProvenanceIfSourceHash w r hash
  | None => replaceSourceWithProvenance w r
  end.

(** ** The full path *)

Definition withStableKeys (chunks : list Chunk) : list Chunk :=
  if string_eqb (workspaceRoot idx) "" then chunks
  else map (fun c => match ComputeStableKey Abs Rel c (workspaceRoot idx) with
                     | Ok key => set_key key c
                     | Err _ => c
                     end) chunks.

(** Chunks with their stable keys are embedded. *)
Definition embedAll (w : W) (chunks : list Chunk) : W * result indexErr (list (list float64) * string) :=
  let texts := map Content chunks in
  match Embed env w (idx_model idx) texts with
  | (w, Err e) => (w, Err (ErrEmbedderFailed e))
  | (w, Ok res) =>
      if negb (len (Embeddings res) =? len texts) then (w, Err (ErrEmbeddingCountMismatch (len (Embeddings res)) (len texts)))
      else (w, Ok (Embeddings res, resolveVectorSpaceID res))
  end.

Record preparedSource := mkPreparedSource {
  ps_chunks : list Chunk; ps_embeddings : list (list float64); ps_sourceHash : string; ps_vectorSpaceID : string
}.

(** Without metadata to merge, as [indexText] calls it. *)
Definition prepareSource (w : W) (source content : string) : W * result indexErr preparedSource :=
  let prepared := mkPreparedSource [] [] (Marshal (currentSourceSignature content)) "" in
  if string_eqb content "" then (w, Ok prepared)
  else
    match idx_Chunk idx source content with
    | Err e => (w, Err (ErrChunk e))
    | Ok [] => (w, Ok prepared)
    | Ok chunks =>
        let chunks := withStableKeys chunks in
        match embedAll w chunks with
        | (w, Err e) => (w, Err e)
        | (w, Ok (embeddings, vsid)) => (w, Ok (mkPreparedSource chunks embeddings (ps_sourceHash prepared) vsid))
        end
    end.

Definition clearSource (w : W) (path : string) : W * option indexErr :=
  let '(w, err) := replaceSource w path in (w, option_map ErrClear err).

Definition indexText (w : W) (source content : string) : W * option indexErr :=
  match rejectManagedDocumentSource w source with
  | Some err => (w, Some err)
  | None =>
      match prepareSource w source content with
      | (w, Err e) => (w, Some e)
      | (w, Ok p) =>
          if len (ps_chunks p) =? 0 then clearSource w source
          else
            let '(w, err) := replaceSourceWithProvenance w
              (mkReplacement source (ps_chunks p) (ps_embeddings p) (ps_sourceHash p) (ps_vectorSpaceID p)) in
            (w, option_map ErrReplace err)
      end
  end.

(** ** The incremental path *)

Definition canDoIncremental (chunks : list Chunk) : bool :=
  opt_b (GetBySource env) && negb (string_eqb (workspaceRoot idx) "") && negb (len chunks =? 0) &&
  (len chunks / 2 <? len (List.filter (fun c => negb (string_eqb (StableKey c) "")) chunks)).

(** Nothing changed: every embedding is reused. *)
Definition reuseAll (w : W) (path : string) (newChunks : list Chunk) (diff : chunkDiff) (sourceHash : string)
    (expected : option string) : W * option indexErr :=
  let finalEmbeddings := map (fun nc => reusedEmbedding (StableKey nc) (unchanged diff)) newChunks in
  if opt_b (ReplaceWithVectorSpaceID env) then
    let '(reusedVSID, status) := reusedCachedVSID (unchanged diff) in
    match status with
    | cachedVSIDUniform =>
        replaceIncrementalSource w (mkReplacement path newChunks finalEmbeddings sourceHash reusedVSID) expected
    | _ => (w, Some (reusedCachedVSIDError status))
    end
  else replaceIncrementalSource w (mkReplacement path newChunks finalEmbeddings sourceHash "") expected.

(** The vector space of the reused rows, when it matters. *)
Definition reusedSpace (diff : chunkDiff) : result indexErr (string * cachedVSIDStatus) :=
  if opt_b (ReplaceWithVectorSpaceID env) && (0 <? len (unchanged diff)) then
    let '(reusedVSID, status) := reusedCachedVSID (unchanged diff) in
    match status with
    | cachedVSIDUniform => Ok (reusedVSID, status)
    | _ => Err (reusedCachedVSIDError status)
    end
  else Ok ("", cachedVSIDNone).

(** The vector space the replacement is written in. *)
Definition finalSpace (diff : chunkDiff) (texts : list string) (reusedVSID : string) (status : cachedVSIDStatus)
    (freshVSID : string) : result indexErr string :=
  if opt_b (ReplaceWithVectorSpaceID env) then
    if 0 <? len texts then
      if (0 <? len (unchanged diff)) && negb (string_eqb freshVSID "") && negb (string_eqb reusedVSID freshVSID)
      then Err (ErrVectorSpaceDrift reusedVSID freshVSID)
      else Ok freshVSID
    else match status with
         | cachedVSIDUniform => Ok reusedVSID
         | _ => Err (reusedCachedVSIDError status)
         end
  else Ok freshVSID.

(** The fresh embeddings; no call without a text. *)
Definition embedChanged (w : W) (texts : list string) : W * result indexErr (list (list float64) * string) :=
  if 0 <? len texts then
    match Embed env w (idx_model idx) texts with
    | (w, Err e) => (w, Err (ErrEmbedderFailed e))
    | (w, Ok res) =>
        if negb (len (Embeddings res) =? len texts) then (w, Err (ErrEmbeddingCountMismatch (len (Embeddings res)) (len texts)))
        else (w, Ok (Embeddings res, resolveVectorSpaceID res))
    end
  else (w, Ok ([], "")).

Definition embedAndReplace (w : W) (path : string) (newChunks : list Chunk) (diff : chunkDiff) (sourceHash : string)
    (expected : option string) : W * option indexErr :=
  let cached := cachedEmbeddings (unchanged diff) in
  let texts := textsToEmbed cached newChunks in
  match reusedSpace diff with
  | Err e => (w, Some e)
  | Ok (reusedVSID, status) =>
      match embedChanged w texts with
      | (w, Err e) => (w, Some e)
      | (w, Ok (fresh, freshVSID)) =>
          match finalSpace diff texts reusedVSID status freshVSID with
          | Err e => (w, Some e)
          | Ok finalVSID =>
              match assembleEmbeddings cached fresh newChunks with
              | None => (w, Some (ErrEmbeddingCountMismatch (len fresh) (len texts)))
              | Some final =>
                  let '(w, err) := replaceIncrementalSource w (mkReplacement path newChunks final sourceHash finalVSID) expected in
                  (w, option_map ErrReplace err)
              end
          end
      end
  end.

Definition indexIncremental (w : W) (path : string) (newChunks : list Chunk) (sourceHash : string)
    (expected : option string) : W * option indexErr :=
  match GetBySource env with
  | None => (w, Some ErrNoLoader)
  | Some load =>
      match load w path with
      | Err e => (w, Some (ErrStoreOperation e))
      | Ok [] => (w, Some ErrNoExisting)
      | Ok oldChunks =>
          let diff := diffChunks sha256Hex oldChunks newChunks in
          if (len (modified diff) =? 0) && (len (added diff) =? 0) && (len (deletedIDs diff) =? 0)
          then reuseAll w path newChunks diff sourceHash expected
          else embedAndReplace w path newChunks diff sourceHash expected
      end
  end.

(** What the stored signature says: the text is indexed already, or whether all
    of it has to be embedded and the hash to expect. *)
Inductive hashCheck := UpToDate | Continue (forceFullReembed : bool) (expected : option string).

Definition checkSourceHash (w : W) (path content : string) : hashCheck :=
  let current := currentSourceSignature content in
  match GetSourceHash env with
  | None => Continue false None
  | Some get =>
      match get w path with
      | Err _ => Continue false None
      | Ok storedHash =>
          if string_eqb storedHash "" then Continue true None
          else if string_eqb storedHash (Marshal current) then UpToDate
          else if requiresFullReembed storedHash current then Continue true None
          else Continue false (Some storedHash)
      end
  end.

(** The end of [indexCleanFileIncremental]. *)
Definition embedAndStore (w : W) (path : string) (chunks : list Chunk) (sourceHash : string) : W * option indexErr :=
  match embedAll w chunks with
  | (w, Err e) => (w, Some e)
  | (w, Ok (embeddings, vsid)) =>
      let '(w, err) := replaceSourceWithProvenance w (mkReplacement path chunks embeddings sourceHash vsid) in
      (w, option_map ErrReplace err)
  end.

Definition indexCleanFileIncremental (w : W) (path content : string) : W * option indexErr :=
  if string_eqb content "" then clearSource w path
  else
    match checkSourceHash w path content with
    | UpToDate => (w, None)
    | Continue force expected =>
        match idx_Chunk idx path content with
        | Err e => (w, Some (ErrChunk e))
        | Ok [] => clearSource w path
        | Ok chunks =>
            let force := force || (opt_b expected && negb (opt_b (ReplaceIfSourceHash env))) in
            let chunks := withStableKeys chunks in
            let sourceHash := Marshal (currentSourceSignature content) in
            if negb force && canDoIncremental chunks then
              match indexIncremental w path chunks sourceHash expected with
              | (w, None) => (w, None)
              | (w, Some err) =>
                  if ctx_done env w || negb (incrementalShouldFallback err) then (w, Some (ErrIncremental err))
                  else embedAndStore w path chunks sourceHash
              end
            else embedAndStore w path chunks sourceHash
        end
    end.
End indexer.
