(* ===== verification/IndexFacts.v ===== *)
(** * IndexFacts: incremental indexing leaves what full indexing leaves

    The specification of an indexed text is [Indexed]: the rows of the source
    are its chunks, each with the embedding of its own text, and the stored
    signature is the text's.  [Lawful] says what the store and the embedder
    promise.  [Truthful] is the invariant: rows are honest about their texts and
    a stored signature tells the truth. *)

From Stdlib Require Import Strings.Ascii.
From stdpp Require Import strings list gmap pretty.
From S2P Require Import Prelude GoString GoFloat GoText Request ProgressiveText Chunking Indexing.

#[local] Open Scope string_scope.
#[local] Open Scope Z_scope.
#[local] Open Scope list_scope.

(** ** What the diff reuses *)

Section diff.
Context (sha256Hex : string -> string).

Lemma indexByKey_spec oldChunks m k old :
  indexByKey m oldChunks !! k = Some old ->
  m !! k = Some old \/ (old ∈ oldChunks /\ StableKey (st_Chunk old) = k /\ k <> "").
Proof.
  revert m. induction oldChunks as [|o l IH]; intros m H; [by left|]. cbn [indexByKey] in H.
  apply IH in H as [H|(H1 & H2 & H3)]; [|right; split; [by right|done]].
  unfold string_eqb in H. case_bool_decide as Ek; [by left|].
  destruct (m !! StableKey (st_Chunk o)) eqn:E; [by left|].
  apply lookup_insert_Some in H as [[<- <-]|[_ H]]; [right; split; [by left|done]|by left].
Qed.

(** The unchanged chunk [u] comes from the row and the new chunk of its key. *)
Definition from_row (oldChunks : list ChunkWithEmbedding) (u : unchangedChunk) : Prop :=
  exists row, row ∈ oldChunks /\ StableKey (u_chunk u) = StableKey (st_Chunk row) /\ StableKey (u_chunk u) <> "" /\
    contentHash sha256Hex (Content (st_Chunk row)) = contentHash sha256Hex (Content (u_chunk u)) /\
    u_embedding u = Embedding row /\ u_vectorSpaceID u = VectorSpaceID row.

(** What the classification of some new chunks holds. *)
Record Classified (oldChunks : list ChunkWithEmbedding) (newChunks : list Chunk) (d : chunkDiff) : Prop := mkClassified {
  cl_unchanged : Forall (fun u => u_chunk u ∈ newChunks /\ from_row oldChunks u) (unchanged d);
  cl_all : Forall (fun c => c ∈ map u_chunk (unchanged d) \/ c ∈ map m_chunk (modified d) \/ c ∈ added d) newChunks;
}.

Lemma classify_spec oldChunks seen acc nc :
  Classified oldChunks seen acc.1 ->
  Classified oldChunks (seen ++ [nc]) (classify sha256Hex (indexByKey ∅ oldChunks) acc nc).1.
Proof.
  destruct acc as [d matched]. intros [Hu Ha]. cbn [fst] in *.
  assert (Forall (fun u => u_chunk u ∈ seen ++ [nc] /\ from_row oldChunks u) (unchanged d)) as Hu'.
  { eapply Forall_impl; [exact Hu|]. intros u [H1 H2]. split; [apply elem_of_app; by left|done]. }
  assert (forall us ms ads, map u_chunk (unchanged d) ⊆ us -> map m_chunk (modified d) ⊆ ms -> added d ⊆ ads ->
    (nc ∈ us \/ nc ∈ ms \/ nc ∈ ads) ->
    Forall (fun c => c ∈ us \/ c ∈ ms \/ c ∈ ads) (seen ++ [nc])) as Hall.
  { intros us ms ads H1 H2 H3 Hn. apply Forall_app. split; [|by constructor].
    eapply Forall_impl; [exact Ha|]. intros c [Hc|[Hc|Hc]]; auto. }
  unfold classify. unfold string_eqb at 1. case_bool_decide as Ek.
  { split; cbn; [done|]. apply Hall; set_solver. }
  destruct (indexByKey ∅ oldChunks !! StableKey nc) as [old|] eqn:El; [|split; cbn; [done|]; apply Hall; set_solver].
  apply indexByKey_spec in El as [El|(Hold & Hk & _)]; [by rewrite lookup_empty in El|].
  unfold string_eqb. case_bool_decide as Eh; (split; cbn [fst unchanged modified added]; rewrite ?map_app; [|apply Hall; set_solver]).
  - apply Forall_app. split; [done|]. constructor; [|constructor]. split; [apply elem_of_app; right; by left|].
    by exists old.
  - done.
Qed.

Lemma diff_spec oldChunks newChunks : Classified oldChunks newChunks (diffChunks sha256Hex oldChunks newChunks).
Proof.
  unfold diffChunks.
  assert (forall acc seen, Classified oldChunks seen acc.1 ->
    Classified oldChunks (seen ++ newChunks) (fold_left (classify sha256Hex (indexByKey ∅ oldChunks)) newChunks acc).1) as H.
  { induction newChunks as [|nc l IH]; intros acc seen Hc; [by rewrite app_nil_r|]. cbn [fold_left].
    rewrite (cons_middle nc seen l), app_assoc. by apply IH, classify_spec. }
  specialize (H (mkDiff [] [] [] [], ∅) []). cbn [app] in H.
  destruct (fold_left _ newChunks _) as [d matched]. destruct H as [H1 H2]; [by split|]. by split.
Qed.
End diff.

Lemma reusedLoop_spec id l id' :
  reusedLoop id l = (id', cachedVSIDUniform) -> (id <> "" -> id' = id) /\ Forall (fun u => u_vectorSpaceID u = id') l /\
    (id <> "" \/ l <> [] -> id' <> "").
Proof.
  revert id. induction l as [|u l IH]; intros id; cbn [reusedLoop].
  - intros [= <-]. split_and!; [done|constructor|]. by intros [H|H].
  - unfold string_eqb. case_bool_decide as Eu; [done|]. case_bool_decide as Ei.
    + intros H. destruct (IH _ H) as (H1 & H2 & H3). specialize (H1 Eu). subst id'.
      split_and!; [done|by constructor|by intros _].
    + destruct (negb _) eqn:En; [done|]. intros H. destruct (IH _ H) as (H1 & H2 & H3). specialize (H1 Ei). subst id'.
      apply negb_false_iff, bool_decide_eq_true in En. split_and!; [done|by constructor|by intros _].
Qed.

Lemma cached_spec unchanged k e :
  cachedEmbeddings unchanged !! k = Some e -> exists u, u ∈ unchanged /\ StableKey (u_chunk u) = k /\ e = u_embedding u.
Proof.
  unfold cachedEmbeddings. assert (forall m : gmap string (list float64),
    fold_left (fun m uc => <[StableKey (u_chunk uc) := u_embedding uc]> m) unchanged m !! k = Some e ->
    m !! k = Some e \/ exists u, u ∈ unchanged /\ StableKey (u_chunk u) = k /\ e = u_embedding u) as H.
  { induction unchanged as [|u l IH]; intros m Hm; [by left|]. cbn [fold_left] in Hm.
    apply IH in Hm as [Hm|(u' & Hu & Hk & He)]; [|right; exists u'; split; [by right|done]].
    apply lookup_insert_Some in Hm as [[Hk He]|[_ Hm]]; [right; exists u; split; [by left|done]|by left]. }
  intros Hk. apply H in Hk as [Hk|Hk]; [by rewrite lookup_empty in Hk|done].
Qed.

Lemma reusedEmbedding_spec u l :
  u ∈ l -> exists u', u' ∈ l /\ StableKey (u_chunk u') = StableKey (u_chunk u) /\
    reusedEmbedding (StableKey (u_chunk u)) l = u_embedding u'.
Proof.
  induction l as [|x l IH]; [by intros ?%elem_of_nil|]. intros Hu. cbn [reusedEmbedding]. unfold string_eqb.
  case_bool_decide as E; [exists x; split; [by left|done]|].
  apply elem_of_cons in Hu as [->|Hu]; [done|]. destruct (IH Hu) as (u' & H1 & H2 & H3).
  exists u'. split; [by right|done].
Qed.

(** ** The contract of the store and the embedder *)

(** [E vs text] is the vector of a text in a vector space, [stored] what is left
    of a vector in storage (single precision), [layout] how the rows of a source
    are kept (by identifier, in the order of their lines). *)
Record Promises (W : Type) := mkPromises {
  E : string -> string -> list float64;
  stored : list float64 -> list float64;
  layout : list ChunkWithEmbedding -> list ChunkWithEmbedding;
  rows : W -> string -> list ChunkWithEmbedding;
  hash : W -> string -> string;
}.
Arguments E {W}. Arguments stored {W}. Arguments layout {W}. Arguments rows {W}. Arguments hash {W}.

(** Nothing stored has changed. *)
Definition same {W} (P : Promises W) (w w' : W) : Prop := forall p, rows P w' p = rows P w p /\ hash P w' p = hash P w p.

(** The rows a replacement asks for. *)
Definition rows_of {W} (P : Promises W) (vs : string) (chunks : list Chunk) (embeddings : list (list float64)) :
    list ChunkWithEmbedding :=
  zip_with (fun c e => mkStored c (stored P e) vs) chunks embeddings.

Definition written {W} (P : Promises W) (w w' : W) (p : string) (l : list ChunkWithEmbedding) (h : string) : Prop :=
  rows P w' p = l /\ hash P w' p = h /\ forall q, q <> p -> rows P w' q = rows P w q /\ hash P w' q = hash P w q.

(** A replacement is atomic, and a batch that is not empty needs a vector space. *)
Definition replaces {W} (P : Promises W) (w w' : W) (r : replacement) (err : option storeErr) : Prop :=
  match err with
  | Some _ => same P w w'
  | None => (rp_Chunks r <> [] -> rp_VSID r <> "") /\
            written P w w' (rp_Source r) (layout P (rows_of P (rp_VSID r) (rp_Chunks r) (rp_Embeddings r)))
              (if decide (rp_Chunks r = []) then "" else rp_Hash r)
  end.

Record Lawful {W} (env : Backend W) (P : Promises W) : Prop := mkLawful {
  law_embed : forall w model texts w' ans, Embed env w model texts = (w', ans) -> same P w w' /\
    forall res, ans = Ok res -> length (Embeddings res) = length texts ->
      Embeddings res = map (E P (resolveVectorSpaceID res)) texts;
  law_load : forall load w p l, GetBySource env = Some load -> load w p = Ok l -> l = rows P w p;
  law_hash : forall get w p h, GetSourceHash env = Some get -> get w p = Ok h -> h = hash P w p;
  law_capable : opt_b (ReplaceWithVectorSpaceID env) = true;
  law_replace : forall f w r w' err, ReplaceWithVectorSpaceID env = Some f -> f w r = (w', err) -> replaces P w w' r err;
  law_cas : forall f w r h w' err, ReplaceIfSourceHash env = Some f -> f w r h = (w', err) -> replaces P w w' r err;
  law_layout : forall l row, row ∈ layout P l -> exists row', row' ∈ l /\
    Content (st_Chunk row) = Content (st_Chunk row') /\ StableKey (st_Chunk row) = StableKey (st_Chunk row') /\
    Embedding row = Embedding row' /\ VectorSpaceID row = VectorSpaceID row';
  law_stored : forall e, stored P (stored P e) = stored P e;
}.

(** ** What an indexed text is *)

Section facts.
Context {W : Type} (env : Backend W) (idx : Indexer) (P : Promises W).
Context (sha256Hex : string -> string) (Abs : string -> result string string) (Rel : string -> string -> result string string).
Context (Marshal : sourceSignature -> string) (Unmarshal : string -> option sourceSignature).
Context (HL : Lawful env P).

Notation signature content := (Marshal (currentSourceSignature idx sha256Hex content)).

(** The chunks of a text, with their stable keys. *)
Definition chunks_of (p content : string) : list Chunk :=
  if string_eqb content "" then []
  else match idx_Chunk idx p content with
       | Ok chunks => withStableKeys idx Abs Rel chunks
       | Err _ => []
       end.

Definition expected (vs : string) (chunks : list Chunk) : list ChunkWithEmbedding :=
  map (fun c => mkStored c (stored P (E P vs (Content c))) vs) chunks.

Definition Indexed (w : W) (p content : string) : Prop :=
  exists vs, rows P w p = layout P (expected vs (chunks_of p content)) /\
    hash P w p = if decide (chunks_of p content = []) then "" else signature content.

(** A row is honest when its embedding is that of its own text. *)
Definition honest (row : ChunkWithEmbedding) : Prop :=
  Embedding row = stored P (E P (VectorSpaceID row) (Content (st_Chunk row))).

Record Truthful (w : W) : Prop := mkTruthful {
  tr_rows : forall p, Forall honest (rows P w p);
  tr_hash : forall p content, hash P w p = signature content -> Indexed w p content;
}.

(** No two chunks of the text share a key. *)
Definition distinct_keys (chunks : list Chunk) : Prop :=
  forall c c', c ∈ chunks -> c' ∈ chunks -> StableKey c <> "" -> StableKey c = StableKey c' -> c = c'.

(** *** The embeddings that are written *)

(** Final embeddings that stand for the chunks' own. *)
Definition stands (vs : string) (chunks : list Chunk) (final : list (list float64)) : Prop :=
  map (stored P) final = map (fun c => stored P (E P vs (Content c))) chunks.

Lemma rows_stand vs chunks final : stands vs chunks final -> rows_of P vs chunks final = expected vs chunks.
Proof.
  unfold stands, rows_of, expected. revert final. induction chunks as [|c l IH]; intros [|e final]; cbn; try done.
  intros [= H1 H2]. rewrite H1. f_equal. by apply IH.
Qed.

Lemma embedded_stand vs chunks : stands vs chunks (map (E P vs) (map Content chunks)).
Proof. unfold stands. by rewrite !map_map. Qed.

Lemma assemble_stand cached fresh chunks final vs :
  fresh = map (E P vs) (textsToEmbed cached chunks) ->
  (forall c e, c ∈ chunks -> cached !! StableKey c = Some e -> stored P e = stored P (E P vs (Content c))) ->
  assembleEmbeddings cached fresh chunks = Some final -> stands vs chunks final.
Proof.
  revert fresh final. unfold stands. induction chunks as [|c l IH]; intros fresh final Hf Hc; cbn [assembleEmbeddings].
  { by intros [= <-]. }
  assert (forall c' e, c' ∈ l -> cached !! StableKey c' = Some e -> stored P e = stored P (E P vs (Content c'))) as Hc'.
  { intros c' e Hin. apply Hc. by right. }
  unfold textsToEmbed in *. cbn [List.filter] in Hf. destruct (cached !! StableKey c) as [e|] eqn:Ec.
  - cbn [opt_b negb] in Hf. destruct (assembleEmbeddings cached fresh l) as [final'|] eqn:Ea; [|done].
    intros [= <-]. cbn [map]. rewrite (Hc c e ltac:(by left) Ec). f_equal. by apply (IH fresh).
  - cbn [opt_b negb map] in Hf. subst fresh.
    destruct (assembleEmbeddings cached _ l) as [final'|] eqn:Ea; [|done].
    intros [= <-]. cbn [map]. f_equal. by eapply IH.
Qed.

(** *** The writes *)

Notation replaceIncremental := (replaceIncrementalSource env).

(** An error left the store as it was; otherwise the rows of [chunks] with
    their own embeddings were written. *)
Definition outcome (w w' : W) (p : string) (chunks : list Chunk) (h : string) (err : option indexErr) : Prop :=
  match err with
  | Some _ => same P w w'
  | None => exists vs, written P w w' p (layout P (expected vs chunks)) (if decide (chunks = []) then "" else h)
  end.

Lemma same_trans w1 w2 w3 : same P w1 w2 -> same P w2 w3 -> same P w1 w3.
Proof. intros H1 H2 p. destruct (H1 p), (H2 p). split; congruence. Qed.

Lemma outcome_after w w1 w' p chunks h err : same P w w1 -> outcome w1 w' p chunks h err -> outcome w w' p chunks h err.
Proof.
  intros Hs. destruct err as [e|]; cbn; [by apply same_trans|]. intros (vs & H1 & H2 & H3). exists vs.
  split_and!; [done|done|]. intros q Hq. destruct (H3 q Hq), (Hs q). split; congruence.
Qed.

Lemma outcome_wrap w w' p chunks h err (f : indexErr -> indexErr) :
  outcome w w' p chunks h err -> outcome w w' p chunks h (option_map f err).
Proof. by destruct err. Qed.

Lemma replaced_outcome w w' p chunks final h vs err :
  (vs <> "" -> stands vs chunks final) -> replaces P w w' (mkReplacement p chunks final h vs) err ->
  outcome w w' p chunks h (option_map ErrStore err).
Proof.
  intros Hst. destruct err as [e|]; cbn [outcome replaces option_map rp_Chunks rp_VSID rp_Source rp_Embeddings rp_Hash];
    [done|]. intros [Hvs Hw]. exists vs.
  destruct (decide (chunks = [])) as [->|Hne]; [exact Hw|]. by rewrite rows_stand in Hw by auto.
Qed.

Lemma provenance_outcome w p chunks final h vs :
  (vs <> "" -> stands vs chunks final) ->
  let r := replaceSourceWithProvenance env w (mkReplacement p chunks final h vs) in outcome w r.1 p chunks h r.2.
Proof.
  intros Hst. unfold replaceSourceWithProvenance. cbn [rp_Source].
  destruct (rejectManagedDocumentSource env w p); [by split|].
  unfold replaceSourceWithProvenanceLocked. pose proof (law_capable _ _ HL) as Hc.
  destruct (ReplaceWithVectorSpaceID env) as [f|] eqn:Ef; [|done].
  destruct (f w _) as [w' err] eqn:Ew. cbn. eapply replaced_outcome; [exact Hst|].
  eapply (law_replace _ _ HL); [exact Ef|exact Ew].
Qed.

Lemma incremental_outcome w p chunks final h vs exp :
  (vs <> "" -> stands vs chunks final) ->
  let r := replaceIncremental w (mkReplacement p chunks final h vs) exp in outcome w r.1 p chunks h r.2.
Proof.
  intros Hst. destruct exp as [old|]; [|by apply provenance_outcome]. cbn [replaceIncrementalSource].
  unfold replaceSourceWithProvenanceIfSourceHash. cbn [rp_Source].
  destruct (rejectManagedDocumentSource env w p); [by split|].
  destruct (ReplaceIfSourceHash env) as [f|] eqn:Ef; [|by split].
  destruct (f w _ old) as [w' err] eqn:Ew. cbn. eapply replaced_outcome; [exact Hst|].
  eapply (law_cas _ _ HL); [exact Ef|exact Ew].
Qed.

Lemma clear_outcome w p : let r := clearSource env w p in outcome w r.1 p [] "" r.2.
Proof.
  unfold clearSource, replaceSource.
  pose proof (provenance_outcome w p [] [] "" "" ltac:(done)) as H. cbn zeta in H.
  destruct (replaceSourceWithProvenance env w _) as [w' err]. cbn in *. by apply outcome_wrap.
Qed.

Lemma embed_outcome w p chunks h : let r := embedAndStore env idx w p chunks h in outcome w r.1 p chunks h r.2.
Proof.
  unfold embedAndStore, embedAll.
  destruct (Embed env w (idx_model idx) (map Content chunks)) as [w1 ans] eqn:Ee.
  destruct (law_embed _ _ HL _ _ _ _ _ Ee) as [Hs He]. destruct ans as [res|e]; [|exact Hs].
  destruct (Z.eqb_spec (len (Embeddings res)) (len (map Content chunks))) as [El|_]; [|exact Hs]. cbn [negb].
  pose proof (provenance_outcome w1 p chunks (Embeddings res) h (resolveVectorSpaceID res)) as H. cbn zeta in H.
  destruct (replaceSourceWithProvenance env w1 _) as [w' err]. cbn [fst snd] in *.
  eapply outcome_after; [exact Hs|]. apply outcome_wrap, H. intros _.
  rewrite (He res eq_refl) by (unfold len in El; lia). apply embedded_stand.
Qed.

(** *** The incremental path *)

Context (Hsha : forall a b, sha256Hex a = sha256Hex b -> a = b).

Lemma reused_stands oldChunks chunks u id c :
  Forall honest oldChunks -> distinct_keys chunks ->
  u ∈ unchanged (diffChunks sha256Hex oldChunks chunks) -> u_vectorSpaceID u = id ->
  c ∈ chunks -> StableKey c = StableKey (u_chunk u) ->
  stored P (u_embedding u) = stored P (E P id (Content c)).
Proof.
  intros Hh Hd Hu Hid Hc Hk. destruct (diff_spec sha256Hex oldChunks chunks) as [Hcl _].
  rewrite Forall_forall in Hcl. destruct (Hcl u Hu) as (Hin & row & Hrow & Hkr & Hne & Hcont & -> & Hvs).
  assert (c = u_chunk u) as -> by (apply Hd; [done|done|congruence|done]).
  rewrite Forall_forall in Hh. rewrite (Hh row Hrow). apply Hsha in Hcont. rewrite Hcont, <-Hvs, Hid.
  apply (law_stored _ _ HL).
Qed.

Lemma reuseAll_outcome w p chunks h exp oldChunks :
  Forall honest oldChunks -> distinct_keys chunks ->
  let diff := diffChunks sha256Hex oldChunks chunks in
  modified diff = [] -> added diff = [] ->
  let r := reuseAll env w p chunks diff h exp in outcome w r.1 p chunks h r.2.
Proof.
  intros Hh Hd diff Hm Ha. unfold reuseAll. rewrite (law_capable _ _ HL).
  destruct (reusedCachedVSID (unchanged diff)) as [id status] eqn:Er.
  destruct status; try (cbn; by split). apply incremental_outcome. intros _.
  assert (Forall (fun u => u_vectorSpaceID u = id) (unchanged diff)) as Hids.
  { unfold reusedCachedVSID in Er. destruct (unchanged diff); [done|]. by apply reusedLoop_spec in Er as (_ & ? & _). }
  unfold stands. rewrite map_map. apply list_fmap_ext. intros i c Hi%list_elem_of_lookup_2.
  destruct (diff_spec sha256Hex oldChunks chunks) as [_ Hall]. rewrite Forall_forall in Hall.
  specialize (Hall c Hi). fold diff in Hall. rewrite Hm, Ha in Hall.
  destruct Hall as [Hu|[Hu|Hu]]; [|by apply elem_of_nil in Hu|by apply elem_of_nil in Hu].
  apply list_elem_of_fmap in Hu as (u & -> & Hu).
  destruct (reusedEmbedding_spec u (unchanged diff) Hu) as (u' & Hu' & Hk & ->).
  rewrite Forall_forall in Hids. by apply (reused_stands oldChunks chunks); auto.
Qed.

(** When the batch is written in a space, so are the reused embeddings. *)
Lemma finalSpace_spec diff texts reused status fresh final :
  reusedSpace env diff = Ok (reused, status) -> finalSpace env diff texts reused status fresh = Ok final -> final <> "" ->
  Forall (fun u => u_vectorSpaceID u = final) (unchanged diff) /\ (texts <> [] -> fresh = final).
Proof.
  unfold reusedSpace, finalSpace. rewrite (law_capable _ _ HL). cbn [andb].
  assert (forall id, reusedCachedVSID (unchanged diff) = (id, cachedVSIDUniform) ->
    Forall (fun u => u_vectorSpaceID u = id) (unchanged diff)) as Hu.
  { intros id. unfold reusedCachedVSID. destruct (unchanged diff); [done|]. by intros (_ & ? & _)%reusedLoop_spec. }
  destruct (Z.ltb_spec 0 (len (unchanged diff))) as [Hl|Hl].
  - destruct (reusedCachedVSID (unchanged diff)) as [id []] eqn:Er; intros [= <- <-]. specialize (Hu id eq_refl).
    destruct (Z.ltb_spec 0 (len texts)) as [Ht|Ht].
    + cbn [andb]. unfold string_eqb. repeat case_bool_decide; cbn [negb andb]; intros [= <-] Hne; try done. by subst id.
    + intros [= <-] _. split; [done|]. intros Hne. destruct texts; [done|]. rewrite len_cons in Ht. len_lia.
  - intros [= <- <-]. assert (unchanged diff = []) as -> by (destruct (unchanged diff); [done|rewrite len_cons in Hl; len_lia]).
    destruct (Z.ltb_spec 0 (len texts)) as [Ht|Ht]; [|done]. cbn. by intros [= <-].
Qed.

Lemma embedAndReplace_outcome w p chunks h exp oldChunks :
  Forall honest oldChunks -> distinct_keys chunks ->
  let r := embedAndReplace env idx w p chunks (diffChunks sha256Hex oldChunks chunks) h exp in
  outcome w r.1 p chunks h r.2.
Proof.
  intros Hh Hd. unfold embedAndReplace. set (diff := diffChunks _ _ _). set (cached := cachedEmbeddings (unchanged diff)).
  set (texts := textsToEmbed cached chunks).
  destruct (reusedSpace env diff) as [[reused status]|e] eqn:Er; [|cbn; by split].
  assert (forall w1 ans, embedChanged env idx w texts = (w1, ans) -> same P w w1 /\ forall fresh v, ans = Ok (fresh, v) ->
    (texts = [] /\ fresh = []) \/ fresh = map (E P v) texts) as Hemb.
  { intros w1 ans. unfold embedChanged. destruct (Z.ltb_spec 0 (len texts)) as [Ht|Ht].
    - destruct (Embed env w _ texts) as [w2 a] eqn:Ee. destruct (law_embed _ _ HL _ _ _ _ _ Ee) as [Hs He].
      destruct a as [res|e]; [|by intros [= <- <-]].
      destruct (Z.eqb_spec (len (Embeddings res)) (len texts)) as [El|_]; cbn [negb]; intros [= <- <-]; (split; [done|]); [|done].
      intros fresh v [= <- <-]. right. apply He; [done|]. unfold len in El. lia.
    - intros [= <- <-]. split; [by split|]. intros fresh v [= <- <-]. left. split; [|done].
      destruct texts; [done|]. rewrite len_cons in Ht. len_lia. }
  destruct (embedChanged env idx w texts) as [w1 ans] eqn:Ee. destruct (Hemb w1 ans eq_refl) as [Hs Hfresh].
  destruct ans as [[fresh v]|e]; [|exact Hs]. specialize (Hfresh fresh v eq_refl).
  destruct (finalSpace env diff texts reused status v) as [final|e] eqn:Ef; [|exact Hs].
  destruct (assembleEmbeddings cached fresh chunks) as [es|] eqn:Ea; [|exact Hs].
  pose proof (incremental_outcome w1 p chunks es h final exp) as H. cbn zeta in H.
  destruct (replaceIncremental w1 _ exp) as [w' err]. cbn [fst snd] in *.
  eapply outcome_after; [exact Hs|]. apply outcome_wrap, H. intros Hne.
  destruct (finalSpace_spec _ _ _ _ _ _ Er Ef Hne) as [Hids Hv]. eapply assemble_stand; [|clear H|exact Ea].
  - destruct Hfresh as [[Ht ->]| ->]; [fold texts; by rewrite Ht|]. fold texts.
    destruct texts as [|t l]; [done|]. by rewrite Hv.
  - intros c e Hc (u & Hu & Hk & ->)%cached_spec. rewrite Forall_forall in Hids.
    apply (reused_stands oldChunks chunks); auto.
Qed.

Lemma indexIncremental_outcome w p chunks h exp :
  Truthful w -> distinct_keys chunks ->
  let r := indexIncremental env idx sha256Hex w p chunks h exp in outcome w r.1 p chunks h r.2.
Proof.
  intros [Hh _] Hd. unfold indexIncremental. destruct (GetBySource env) as [load|] eqn:El; [|cbn; by split].
  destruct (load w p) as [old|e] eqn:Eo; [|cbn; by split].
  pose proof (law_load _ _ HL _ _ _ _ El Eo) as Hold. specialize (Hh p). rewrite <-Hold in Hh.
  destruct old as [|row old]; [cbn; by split|].
  destruct (_ && _) eqn:Eb; [|by apply embedAndReplace_outcome].
  apply andb_true_iff in Eb as [[Em%Z.eqb_eq Ea%Z.eqb_eq]%andb_true_iff _].
  assert (forall A (l : list A), len l = 0 -> l = []) as Hnil.
  { intros A [|x l]; [done|]. rewrite len_cons. len_lia. }
  apply reuseAll_outcome; auto.
Qed.

(** *** Both paths *)

Lemma full_outcome w p content :
  let r := indexText env idx sha256Hex Abs Rel Marshal w p content in
  outcome w r.1 p (chunks_of p content) (signature content) r.2.
Proof.
  unfold indexText. destruct (rejectManagedDocumentSource env w p); [by split|]. unfold prepareSource, chunks_of.
  destruct (string_eqb content ""); [apply clear_outcome|].
  destruct (idx_Chunk idx p content) as [[|c l]|e]; [| |by split].
  - assert (withStableKeys idx Abs Rel [] = []) as -> by (unfold withStableKeys; by destruct (string_eqb _ _)).
    apply clear_outcome.
  - set (chunks := withStableKeys idx Abs Rel (c :: l)).
    assert (len chunks <> 0) as Hlen by (unfold chunks, withStableKeys; destruct (string_eqb _ _); cbn [map];
      rewrite len_cons; len_lia).
    pose proof (embed_outcome w p chunks (signature content)) as H. cbn zeta in H. unfold embedAndStore in H.
    destruct (embedAll env idx w chunks) as [w1 [[es v]|e]]; [|exact H].
    cbn [ps_chunks ps_embeddings ps_sourceHash ps_vectorSpaceID].
    rewrite (proj2 (Z.eqb_neq _ 0)) by done. exact H.
Qed.

(** Up to date, or the outcome of a write. *)
Lemma incremental_full_outcome w p content :
  Truthful w -> distinct_keys (chunks_of p content) ->
  let r := indexCleanFileIncremental env idx sha256Hex Abs Rel Marshal Unmarshal w p content in
  (r = (w, None) /\ hash P w p = signature content) \/
  outcome w r.1 p (chunks_of p content) (signature content) r.2.
Proof.
  intros HT. unfold indexCleanFileIncremental, chunks_of.
  destruct (string_eqb content ""); [intros _; right; apply clear_outcome|].
  destruct (checkSourceHash _ _ _ _ _ w p content) as [|force exp] eqn:Ec.
  { intros _. left. split; [done|]. unfold checkSourceHash in Ec. destruct (GetSourceHash env) as [get|] eqn:Eg; [|done].
    destruct (get w p) as [h|e] eqn:Eh; [|done]. rewrite <-(law_hash _ _ HL _ _ _ _ Eg Eh).
    unfold string_eqb in Ec. case_bool_decide; [done|]. case_bool_decide as E1; [exact E1|].
    by destruct (requiresFullReembed _ _ _). }
  destruct (idx_Chunk idx p content) as [[|c l]|e]; [| |intros _; right; by split].
  - assert (withStableKeys idx Abs Rel [] = []) as -> by (unfold withStableKeys; by destruct (string_eqb _ _)).
    intros _. right. apply clear_outcome.
  - intros Hd. right. set (chunks := withStableKeys idx Abs Rel (c :: l)) in *.
    destruct (_ && _); [|apply embed_outcome].
    pose proof (indexIncremental_outcome w p chunks (signature content) exp HT Hd) as H. cbn zeta in H.
    destruct (indexIncremental env idx sha256Hex w p chunks (signature content) exp) as [w1 [e|]]; [|exact H].
    destruct (_ || _); [exact H|]. pose proof (embed_outcome w1 p chunks (signature content)) as H2. cbn zeta in H2.
    eapply outcome_after; [exact H|exact H2].
Qed.

(** *** The invariant *)

Context (Hmarshal : forall s s', Marshal s = Marshal s' -> s = s') (Hsigned : forall s, Marshal s <> "").

Lemma signature_inj a b : signature a = signature b -> a = b.
Proof. by intros [= H%Hsha]%Hmarshal. Qed.

Lemma same_truthful w w' : same P w w' -> Truthful w -> Truthful w'.
Proof.
  intros Hs [H1 H2]. split.
  - intros p. destruct (Hs p) as [-> _]. apply H1.
  - intros p content. destruct (Hs p) as [Hr ->]. intros E. destruct (H2 p content E) as (vs & Hvs & Hh).
    exists vs. by rewrite Hr, (proj2 (Hs p)).
Qed.

Lemma written_truthful w w' p content vs :
  Truthful w ->
  written P w w' p (layout P (expected vs (chunks_of p content)))
    (if decide (chunks_of p content = []) then "" else signature content) ->
  Indexed w' p content /\ Truthful w'.
Proof.
  intros [H1 H2] (Hr & Hh & Hq). assert (Indexed w' p content) as HI by (by exists vs). split; [exact HI|]. split.
  - intros q. destruct (decide (q = p)) as [->|Hne]; [|destruct (Hq q Hne) as [-> _]; apply H1].
    rewrite Hr. apply Forall_forall. intros row Hrow. destruct (law_layout _ _ HL _ _ Hrow) as (row' & Hin & Hc & _ & He & Hv).
    unfold expected in Hin. apply list_elem_of_fmap in Hin as (c & -> & _). unfold honest. by rewrite Hc, He, Hv.
  - intros q c'. destruct (decide (q = p)) as [->|Hne].
    + rewrite Hh. destruct (decide _); [intros E; by destruct (Hsigned (currentSourceSignature idx sha256Hex c'))|].
      by intros <-%signature_inj.
    + destruct (Hq q Hne) as [Hr' Hh']. rewrite Hh'. intros E. destruct (H2 q c' E) as (vs' & Hvs & Hs).
      exists vs'. by rewrite Hr', Hh'.
Qed.

Lemma outcome_truthful w w' p content err :
  Truthful w -> outcome w w' p (chunks_of p content) (signature content) err ->
  Truthful w' /\ (err = None -> Indexed w' p content).
Proof.
  intros HT. destruct err as [e|]; cbn [outcome].
  - intros Hs. split; [by eapply same_truthful|done].
  - intros (vs & Hw). destruct (written_truthful w w' p content vs HT Hw). by split.
Qed.
End facts.

(** ** The property *)

(** C13: Incremental indexing leaves what full indexing leaves.  Whatever mixture
    of full and incremental runs came before, a run of either kind that succeeds
    leaves exactly the rows of the text's chunks, each with the embedding of its
    own text, under the text's signature; a run that fails leaves a store that is
    still truthful.  A chunker that gives two chunks of a file the same key is
    excluded: the incremental run would give the changed one the embedding of the
    unchanged one. *)
Theorem incremental_matches_full {W} (env : Backend W) idx P sha256Hex Abs Rel Marshal Unmarshal
    (incremental : bool) w w' p content err :
  Lawful env P ->
  (forall a b, sha256Hex a = sha256Hex b -> a = b) ->
  (forall s s', Marshal s = Marshal s' -> s = s') -> (forall s, Marshal s <> "") ->
  Truthful idx P sha256Hex Abs Rel Marshal w ->
  distinct_keys (chunks_of idx Abs Rel p content) ->
  (if incremental then indexCleanFileIncremental env idx sha256Hex Abs Rel Marshal Unmarshal w p content
   else indexText env idx sha256Hex Abs Rel Marshal w p content) = (w', err) ->
  Truthful idx P sha256Hex Abs Rel Marshal w' /\
  (err = None -> Indexed idx P sha256Hex Abs Rel Marshal w' p content).
Proof.
  intros HL Hsha Hm Hn HT Hd Hrun. destruct incremental.
  - destruct (incremental_full_outcome env idx P sha256Hex Abs Rel Marshal Unmarshal HL Hsha w p content HT Hd)
      as [[Hr Hh]|Ho]; rewrite Hrun in *.
    + injection Hr as -> ->. split; [done|]. intros _. by apply HT.
    + by eapply outcome_truthful.
  - pose proof (full_outcome env idx P sha256Hex Abs Rel Marshal HL w p content) as Ho. cbn zeta in Ho.
    rewrite Hrun in Ho. by eapply outcome_truthful.
Qed.

(** *** A store in memory that keeps the promises, and logs what is embedded *)

Record memory := mkMemory { mem_rows : gmap string (list ChunkWithEmbedding * string); embedded : list string }.

Definition mem_E (vs text : string) : list float64 := [of_int (slen text)].
Definition mem_replace (w : memory) (r : replacement) : memory * option storeErr :=
  if negb (len (rp_Chunks r) =? 0) && string_eqb (rp_VSID r) "" then (w, Some (mkStoreErr false "missing vector space"))
  else (mkMemory (<[rp_Source r := (zip_with (fun c e => mkStored c e (rp_VSID r)) (rp_Chunks r) (rp_Embeddings r),
                                    if decide (rp_Chunks r = []) then "" else rp_Hash r)]> (mem_rows w)) (embedded w), None).
Definition mem_lookup (w : memory) (p : string) : list ChunkWithEmbedding * string := default ([], "") (mem_rows w !! p).
Definition mem_cas (w : memory) (r : replacement) (h : string) : memory * option storeErr :=
  if string_eqb (mem_lookup w (rp_Source r)).2 h then mem_replace w r else (w, Some (mkStoreErr false "stale source")).

Definition mem_backend : Backend memory :=
  mkBackend memory
    (fun w model texts => (mkMemory (mem_rows w) (embedded w ++ texts),
                           Ok (mkEmbedResult (map (mem_E "") texts) model "ollama" ("ollama/" +:+ model))))
    (Some (fun w p => Ok (mem_lookup w p).1)) (Some (fun w p => Ok (mem_lookup w p).2))
    (Some mem_cas) (Some mem_replace) None None (fun w _ => (w, None)) (fun w _ _ => (w, None)) None (fun _ => false).
Definition mem_promises : Promises memory :=
  mkPromises memory mem_E id id (fun w p => (mem_lookup w p).1) (fun w p => (mem_lookup w p).2).

Lemma mem_replaces w r w' err : mem_replace w r = (w', err) -> replaces mem_promises w w' r err.
Proof.
  unfold mem_replace. destruct (_ && _) eqn:Eb; intros [= <- <-]; [by split|]. split.
  - intros Hne Hv. rewrite Hv in Eb. apply andb_false_iff in Eb as [Eb|Eb]; [|done].
    apply negb_false_iff, Z.eqb_eq in Eb. destruct (rp_Chunks r); [done|]. rewrite len_cons in Eb. len_lia.
  - unfold written. cbn [rows hash mem_promises]. unfold mem_lookup. cbn [mem_rows]. rewrite lookup_insert_eq.
    split_and!; [done|done|]. intros q Hq. by rewrite lookup_insert_ne by done.
Qed.

Lemma mem_lawful : Lawful mem_backend mem_promises.
Proof.
  split; cbn [mem_backend Embed GetBySource GetSourceHash ReplaceWithVectorSpaceID ReplaceIfSourceHash].
  - intros w model texts w' ans [= <- <-]. split; [by split|]. intros res [= <-] _. done.
  - by intros load w p l [= <-] [= <-].
  - by intros get w p h [= <-] [= <-].
  - done.
  - intros f w r w' err [= <-]. apply mem_replaces.
  - intros f w r h w' err [= <-]. unfold mem_cas. destruct (string_eqb _ h); [apply mem_replaces|].
    intros [= <- <-]. by split.
  - intros l row Hrow. by exists row.
  - done.
Qed.

(** A change of one line of four: one text is embedded. *)
Definition demo_signature (s : sourceSignature) : string :=
  String "S" (pretty (Npos (encode (Version s, ContentHash s, EmbeddingModel s, sig_Chunker s, StableKeyVersion s)))).
Definition demo_indexer : Indexer :=
  mkIndexer "m" (fun source content => Ok (sliding_Chunk id (mkSliding 4 0) source content)) "sliding" "/r".
Definition demo_text (line : string) : string := Join ["aaaa"; line; "cccc"; "dddd"] nl.
Definition demo_Unmarshal (raw : string) : option sourceSignature :=
  Some (currentSourceSignature demo_indexer id (demo_text "bbbb")).
Notation demo_run incremental w content :=
  (if incremental then indexCleanFileIncremental mem_backend demo_indexer id Ok (fun _ p => Ok p) demo_signature
                         demo_Unmarshal w "/r/a" content
   else indexText mem_backend demo_indexer id Ok (fun _ p => Ok p) demo_signature w "/r/a" content) (only parsing).

Lemma demo_signature_inj s s' : demo_signature s = demo_signature s' -> s = s'.
Proof.
  unfold demo_signature. intros [= H]. apply (inj pretty) in H. injection H as H. apply (inj encode) in H.
  destruct s, s'. cbn in H. by simplify_eq.
Qed.

Lemma distinct_NoDup chunks : NoDup (map StableKey chunks) -> distinct_keys chunks.
Proof.
  unfold distinct_keys. induction chunks as [|c l IH]; [by intros _ c c' ?%elem_of_nil|]. cbn [map].
  intros [Hn Hd]%NoDup_cons x y [->|Hx]%elem_of_cons [->|Hy]%elem_of_cons Hne Hk; [done| | |by apply (IH Hd)].
  - exfalso. apply Hn. rewrite Hk. by apply list_elem_of_fmap_2.
  - exfalso. apply Hn. rewrite <-Hk. by apply list_elem_of_fmap_2.
Qed.

Definition demo_first : memory := (demo_run false (mkMemory ∅ []) (demo_text "bbbb")).1.
Definition demo_second : memory := (demo_run true demo_first (demo_text "bXXb")).1.

Lemma incremental_matches_full_witness :
  Indexed demo_indexer mem_promises id Ok (fun _ p => Ok p) demo_signature demo_second "/r/a" (demo_text "bXXb") /\
  embedded demo_second = ["aaaa"; "bbbb"; "cccc"; "dddd"; "bXXb"].
Proof.
  assert (forall content, NoDup (map StableKey (chunks_of demo_indexer Ok (fun _ p => Ok p) "/r/a" (demo_text content))) ->
    distinct_keys (chunks_of demo_indexer Ok (fun _ p => Ok p) "/r/a" (demo_text content))) as Hd
    by (intros; by apply distinct_NoDup).
  destruct (incremental_matches_full mem_backend demo_indexer mem_promises id Ok (fun _ p => Ok p) demo_signature
    demo_Unmarshal false (mkMemory ∅ []) demo_first "/r/a" (demo_text "bbbb") None) as [H1 _].
  - exact mem_lawful.
  - done.
  - exact demo_signature_inj.
  - done.
  - split; [intros p; constructor|]. intros p content H. discriminate H.
  - apply Hd. by apply (bool_decide_unpack _); vm_compute.
  - vm_compute. reflexivity.
  - split; [|vm_compute; reflexivity].
    apply (incremental_matches_full mem_backend demo_indexer mem_promises id Ok (fun _ p => Ok p) demo_signature
      demo_Unmarshal true demo_first demo_second "/r/a" (demo_text "bXXb") None).
    + exact mem_lawful.
    + done.
    + exact demo_signature_inj.
    + done.
    + exact H1.
    + apply Hd. by apply (bool_decide_unpack _); vm_compute.
    + vm_compute. reflexivity.
    + reflexivity.
Defined.

(** Two functions of the same name: the second one changes by a byte and keeps
    the embedding of the first. *)
Definition sharing_indexer : Indexer :=
  mkIndexer "m" (fun source content => Ok (imap (fun i line =>
      mkChunk (pretty (Z.of_nat i)) line source (Z.of_nat (S i)) (Z.of_nat (S i)) "go" {["symbol_path" := "f"]} "")
    (Split "010" content))) "custom" "/r".
Definition sharing_embeddings : list (list float64) :=
  let w := (indexText mem_backend sharing_indexer id Ok (fun _ p => Ok p) demo_signature (mkMemory ∅ []) "/r/a"
              ("aaaa" +:+ nl +:+ "bbbb")).1 in
  let w := (indexCleanFileIncremental mem_backend sharing_indexer id Ok (fun _ p => Ok p) demo_signature
              (fun _ => Some (currentSourceSignature sharing_indexer id ("aaaa" +:+ nl +:+ "bbbb"))) w "/r/a"
              ("aaaa" +:+ nl +:+ "bbbbb")).1 in
  map Embedding (mem_lookup w "/r/a").1.

Example shared_key_reuses : sharing_embeddings = [[of_int 4]; [of_int 4]].
Proof. vm_compute. reflexivity. Qed.
