(* ===== verification/Completion.v ===== *)
(** * Completion: where the cursor is and what a completion may cost (completion/cursor.go, budget.go, context.go, config.go)

    A fill-in-the-middle request is classified by string scanning around the
    cursor, and the classification sets its budgets and its stop tokens.  Text
    is a list of bytes; confidences, temperatures and multipliers are binary64.
    Lowering letters outside ASCII, which goes by Unicode tables, is an
    argument. *)

From Stdlib Require Import Strings.Byte.
From stdpp Require Import list.
From S2P Require Import Prelude GoFloat Utf8 GoText Request.

#[local] Open Scope Z_scope.
#[local] Open Scope go_scope.
#[local] Open Scope list_scope.

(** ** strings, on bytes *)

Definition hasPrefix (s p : bytes) : bool := bool_decide (p `prefix_of` s).
Definition hasSuffix (s p : bytes) : bool := bool_decide (p `suffix_of` s).
Definition ends (s : bytes) (p : string) : bool := hasSuffix s (lit p).
Definition is_nil (s : bytes) : bool := bool_decide (s = []).

(** [strings.Contains]. *)
Fixpoint containsB (s sub : bytes) : bool :=
  hasPrefix s sub || match s with [] => false | _ :: s => containsB s sub end.

(** What follows the last occurrence ([strings.LastIndex]). *)
Fixpoint afterLast (s sub : bytes) : option bytes :=
  match match s with [] => None | _ :: s => afterLast s sub end with
  | Some t => Some t
  | None => if hasPrefix s sub then Some (drop (length sub) s) else None
  end.

Fixpoint trimL (cut : bytes) (s : bytes) : bytes :=
  match s with
  | b :: s' => if bool_decide (b ∈ cut) then trimL cut s' else s
  | [] => []
  end.
Definition trimR (cut s : bytes) : bytes := rev (trimL cut (rev s)).

Definition space : byte := x20.
Definition tab : byte := x09.
Definition newline : byte := x0a.
Definition blanks : bytes := [space; tab].

(** [filepath.Ext], where the separator is a slash. *)
Fixpoint ext_rev (acc s : bytes) : bytes :=
  match s with
  | [] => []
  | b :: s => if bool_decide (b = x2f) then []
              else if bool_decide (b = x2e) then b :: acc else ext_rev (b :: acc) s
  end.
Definition Ext (path : bytes) : bytes := ext_rev [] (rev path).

Definition lowerByte (b : byte) : byte :=
  if (65 <=? byte_Z b) && (byte_Z b <=? 90) then byte_of (byte_Z b + 32) else b.
Definition isASCII (s : bytes) : bool := forallb (fun b => byte_Z b <? 128) s.

(** A Go map with string keys that is only read. *)
Definition assoc {A} (l : list (string * A)) (k : bytes) : option A :=
  snd <$> List.find (fun p => bool_decide (lit p.1 = k)) l.

(** ** Cursor contexts (cursor.go) *)

Inductive CursorContext :=
| ContextUnknown | ContextImportBlock | ContextBetweenDeclarations
| ContextFunctionBody | ContextAfterOpenBrace | ContextCommentBlock.

Inductive CompletionShape :=
| ShapeUnknown | ShapeToken | ShapeExpression | ShapeLine | ShapeBlock | ShapeDeclaration.

#[export] Instance CursorContext_eq_dec : EqDecision CursorContext.
Proof. solve_decision. Defined.
#[export] Instance CompletionShape_eq_dec : EqDecision CompletionShape.
Proof. solve_decision. Defined.

Definition context_String (c : CursorContext) : string :=
  match c with
  | ContextImportBlock => "import_block"
  | ContextBetweenDeclarations => "between_declarations"
  | ContextFunctionBody => "function_body"
  | ContextAfterOpenBrace => "after_open_brace"
  | ContextCommentBlock => "comment_block"
  | ContextUnknown => "unknown"
  end.

Definition shape_String (s : CompletionShape) : string :=
  match s with
  | ShapeToken => "token"
  | ShapeExpression => "expression"
  | ShapeLine => "line"
  | ShapeBlock => "block"
  | ShapeDeclaration => "declaration"
  | ShapeUnknown => "unknown"
  end.

Record CursorAnalysis := mkAnalysis {
  Context_ : CursorContext; Shape : CompletionShape; Confidence : float64; Reason : bytes
}.

Record LanguageHints := mkHints {
  ImportKeywords : list bytes;
  DeclarationKeywords : list bytes;
  CommentPrefixes : list bytes;
  StopPatterns : list bytes;
}.

Definition extToLanguage : list (string * string) := [
  (".go", "go"); (".py", "python"); (".ts", "typescript"); (".tsx", "typescript");
  (".js", "javascript"); (".jsx", "javascript"); (".java", "java"); (".rs", "rust");
  (".rb", "ruby"); (".c", "c"); (".cpp", "cpp"); (".cc", "cpp"); (".sql", "sql");
  (".yaml", "yaml"); (".yml", "yaml"); (".json", "json")]%string.

(** The stop patterns of the source start with a line break. *)
Definition hints (imports decls comments stops : list string) : LanguageHints :=
  mkHints (map lit imports) (map lit decls) (map lit comments) (map (fun s => newline :: lit s) stops).

Definition knownLanguageHints : list (string * LanguageHints) := [
  ("go", hints ["import "] ["func "; "type "; "var "; "const "] ["//"; "/*"]
           ["func "; "type "; "var "; "const "]);
  ("python", hints ["import "; "from "] ["def "; "class "; "async def "] ["#"]
           ["def "; "class "; "async def "]);
  ("java", hints ["import "] ["public "; "private "; "protected "; "class "; "interface "] ["//"; "/*"]
           ["public "; "private "; "protected "; "class "]);
  ("typescript", hints ["import "; "require("] ["function "; "class "; "const "; "export "; "interface "]
           ["//"; "/*"] ["function "; "class "; "export "; "interface "]);
  ("javascript", hints ["import "; "require("] ["function "; "class "; "const "; "export "]
           ["//"; "/*"] ["function "; "class "; "export "]);
  ("rust", hints ["use "] ["fn "; "struct "; "enum "; "impl "; "trait "; "pub fn "] ["//"; "/*"]
           ["fn "; "pub fn "; "struct "; "enum "; "impl "; "trait "]);
  ("ruby", hints ["require "; "require_relative "] ["def "; "class "; "module "] ["#"]
           ["def "; "class "; "module "]);
  ("c", hints ["#include "] ["void "; "int "; "char "; "struct "; "typedef "] ["//"; "/*"]
           ["void "; "int "; "char "; "struct "]);
  ("cpp", hints ["#include "] ["void "; "int "; "class "; "struct "; "namespace "; "template "] ["//"; "/*"]
           ["void "; "int "; "class "; "struct "; "namespace "]);
  ("sql", hints [] ["SELECT "; "CREATE "; "INSERT "; "UPDATE "; "DELETE "] ["--"; "/*"] []);
  ("yaml", hints [] [] ["#"] []);
  ("json", hints [] [] [] [])]%string.

Definition genericHints : LanguageHints :=
  hints [] ["func "; "function "; "class "; "def "] ["//"; "#"] [].

Definition languageHintsFor (lang : bytes) : LanguageHints :=
  default genericHints (assoc knownLanguageHints lang).

Definition startsAny (s : bytes) (kws : list bytes) : bool := existsb (hasPrefix s) kws.

Definition lastLine (prefix : bytes) : bytes := default prefix (afterLast prefix [newline]).

Definition isInImportBlock (prefix : bytes) (h : LanguageHints) : bool :=
  if bool_decide (ImportKeywords h = []) || is_nil prefix then false
  else if startsAny (trimL blanks (lastLine prefix)) (ImportKeywords h) then true
  else match afterLast prefix (lit "import (") with
       | None => false
       | Some groupBody => negb (containsB groupBody (lit ")"))
       end.

Definition isBetweenDeclarations (prefix suffix : bytes) (h : LanguageHints) : bool :=
  if bool_decide (DeclarationKeywords h = []) then false
  else
    let trimmedPrefix := trimR (newline :: blanks) prefix in
    let prefixEndsDecl := ends trimmedPrefix "}" || ends trimmedPrefix ")" in
    if negb prefixEndsDecl && negb (is_nil trimmedPrefix) then false
    else
      let trimmedSuffix := trimL (newline :: blanks) suffix in
      if startsAny trimmedSuffix (DeclarationKeywords h) then true
      else is_nil trimmedSuffix && prefixEndsDecl.

Definition endsWithOpenBrace (prefix : bytes) : bool :=
  let trimmed := trimR blanks prefix in
  hasSuffix trimmed (lit "{" ++ [newline]) || hasSuffix trimmed (lit "{" ++ [newline; tab]) ||
  hasSuffix trimmed (lit "{" ++ newline :: lit "    ") || ends trimmed "{".

Definition isInComment (prefix : bytes) (h : LanguageHints) : bool :=
  if bool_decide (CommentPrefixes h = []) then false
  else startsAny (trimL blanks (lastLine prefix)) (CommentPrefixes h).

Definition conf100 : float64 := fone.
Definition conf75 : float64 := flit 3 4.
Definition conf50 : float64 := flit 1 2.
Definition conf25 : float64 := flit 1 4.

Definition detectContext (prefix suffix : bytes) (h : LanguageHints) : CursorContext * float64 * string :=
  if isInImportBlock prefix h then (ContextImportBlock, conf75, "import keyword in prefix"%string)
  else if isBetweenDeclarations prefix suffix h
  then (ContextBetweenDeclarations, conf75, "between top-level declarations"%string)
  else if endsWithOpenBrace prefix then (ContextAfterOpenBrace, conf100, "prefix ends with open brace"%string)
  else if isInComment prefix h then (ContextCommentBlock, conf75, "comment prefix detected"%string)
  else if is_nil prefix && is_nil suffix then (ContextBetweenDeclarations, conf25, "empty file"%string)
  else if is_nil prefix then (ContextBetweenDeclarations, conf25, "cursor at file start"%string)
  else if is_nil suffix then (ContextBetweenDeclarations, conf50, "cursor at file end"%string)
  else (ContextFunctionBody, conf50, "inside code block"%string).

Definition detectShape (prefix : bytes) (ctx : CursorContext) : CompletionShape * float64 * string :=
  match ctx with
  | ContextImportBlock => (ShapeToken, conf75, "import completion"%string)
  | ContextBetweenDeclarations => (ShapeDeclaration, conf75, "declaration boundary"%string)
  | ContextCommentBlock => (ShapeLine, conf75, "comment continuation"%string)
  | ContextAfterOpenBrace => (ShapeBlock, conf100, "block after open brace"%string)
  | ContextFunctionBody | ContextUnknown =>
      let trimmed := trimR blanks prefix in
      if ends trimmed "," || ends trimmed "." then (ShapeToken, conf50, "after comma/dot"%string)
      else if ends trimmed "= " || ends prefix "= " then (ShapeExpression, conf50, "after assignment"%string)
      else if ends trimmed "return " || ends prefix "return " then (ShapeExpression, conf75, "after return"%string)
      else if ends trimmed "(" || ends trimmed "[" then (ShapeExpression, conf50, "after open paren/bracket"%string)
      else if ends trimmed ": " || ends prefix ": " then (ShapeExpression, conf50, "after colon"%string)
      else (ShapeBlock, conf25, "default shape"%string)
  end.

Definition AnalyzeCursor (prefix suffix language : bytes) : CursorAnalysis :=
  let h := languageHintsFor language in
  let prefixWindow := if 200 <? len prefix then drop (length prefix - 200) prefix else prefix in
  let suffixWindow := if 200 <? len suffix then take 200 suffix else suffix in
  let '(ctx, ctxConf, ctxReason) := detectContext prefixWindow suffixWindow h in
  let '(shape, shapeConf, shapeReason) := detectShape prefixWindow ctx in
  let confidence := if flt ctxConf shapeConf then shapeConf else ctxConf in
  mkAnalysis ctx shape confidence (lit ctxReason ++ lit "; " ++ lit shapeReason).

(** ** Estimates and truncation (context.go) *)

Definition EstimateTokens (text : bytes) : Z :=
  if len text =? 0 then 0 else Z.quot (len text +i 3) 4.

(** Bytes that go on with a rune are dropped from the front. *)
Fixpoint to_rune_start (s : bytes) : bytes :=
  match s with
  | b :: s' => if rune_start b then s else to_rune_start s'
  | [] => []
  end.

Definition TruncateToTokens (text : bytes) (maxTokens : Z) : bytes :=
  if maxTokens <=? 0 then []
  else
    let maxChars := wrap_int (maxTokens * 4) in
    if len text <=? maxChars then text
    else to_rune_start (drop (Z.to_nat (len text -i maxChars)) text).

(** The cut moves back to where a rune starts. *)
Fixpoint back_to_rune (text : bytes) (e : nat) : nat :=
  match e with
  | O => O
  | S e' => match text !! e with
            | Some b => if rune_start b then e else back_to_rune text e'
            | None => e
            end
  end.

Definition TruncateSuffixToTokens (text : bytes) (maxTokens : Z) : bytes :=
  if maxTokens <=? 0 then []
  else
    let maxChars := wrap_int (maxTokens * 4) in
    if len text <=? maxChars then text
    else take (back_to_rune text (Z.to_nat maxChars)) text.

(** ** Stop tokens (budget.go) *)

Definition maxStopTokens : Z := 10.

(** The longest stop token the text ends in; the first of several. *)
Fixpoint longestTail (completion longest : bytes) (stopTokens : list bytes) : bytes :=
  match stopTokens with
  | [] => longest
  | tok :: toks =>
      longestTail completion
        (if negb (is_nil tok) && (hasSuffix completion tok && (len longest <? len tok)) then tok else longest) toks
  end.

(** A round removes a byte at least: see [strip_step]. *)
Fixpoint strip_from (fuel : nat) (completion : bytes) (stopTokens : list bytes) : bytes :=
  match fuel with
  | O => completion
  | S fuel =>
      let longest := longestTail completion [] stopTokens in
      if is_nil longest then completion
      else strip_from fuel (take (length completion - length longest) completion) stopTokens
  end.
Definition stripStopTokens (completion : bytes) (stopTokens : list bytes) : bytes :=
  strip_from (length completion) completion stopTokens.

Fixpoint add_new (cap : option Z) (toks result : list bytes) : list bytes :=
  match toks with
  | [] => result
  | tok :: toks =>
      add_new cap toks
        (if bool_decide (tok ∉ result) && match cap with Some n => len result <? n | None => true end
         then result ++ [tok] else result)
  end.

Definition mergeStopTokens (modelStops langStops : list bytes) : list bytes :=
  add_new (Some maxStopTokens) langStops (add_new None modelStops []).

(** ** Adaptive budgets (budget.go) *)

Record ComputedBudget := mkBudget {
  cb_MaxTokens : Z; PrefixBudgetPct : Z; Temperature : float64; StopTokens : list bytes
}.

(** provider.FIMConfig; the deprecated markers are not read. *)
Record FIMConfig := mkFIM { fim_StopTokens : list bytes; fim_PrefixBudgetPct : Z }.

Definition contextBaseTokens (c : CursorContext) : Z :=
  match c with
  | ContextImportBlock => 40
  | ContextBetweenDeclarations => 384
  | ContextFunctionBody => 128
  | ContextAfterOpenBrace => 224
  | ContextCommentBlock => 64
  | ContextUnknown => 128
  end.

Definition languageMultiplier : list (string * float64) := [
  ("go", fone); ("python", flit 11 10); ("java", flit 3 2); ("typescript", flit 11 10);
  ("javascript", flit 11 10); ("rust", flit 6 5); ("yaml", flit 1 2); ("json", flit 1 2);
  ("sql", flit 4 5); ("ruby", fone); ("c", fone); ("cpp", flit 6 5)]%string.

Definition tierMultiplier (t : Tier) : float64 :=
  match t with TierBasic => flit 1 2 | TierGood => fone | TierGreat => flit 5 4 | TierBest => flit 3 2 end.

Definition shapeMultiplier (s : CompletionShape) : float64 :=
  match s with
  | ShapeToken => flit 3 10
  | ShapeExpression => flit 1 2
  | ShapeLine => flit 3 4
  | ShapeBlock => fone
  | ShapeDeclaration => flit 3 2
  | ShapeUnknown => fone
  end.

Definition contextTemperature (c : CursorContext) : float64 :=
  match c with
  | ContextImportBlock => fzero
  | ContextCommentBlock => flit 3 20
  | ContextFunctionBody => flit 1 5
  | ContextAfterOpenBrace => flit 1 5
  | ContextBetweenDeclarations => flit 3 10
  | ContextUnknown => flit 1 5
  end.

(** [int(x)]: toward zero.  The products of the tables are small and finite. *)
Definition trunc (x : float64) : Z :=
  match x with
  | S754_finite s m e =>
      let n := if 0 <=? e then Zpos m * 2 ^ e else Zpos m / 2 ^ (- e) in
      if s then - n else n
  | S754_zero _ => 0
  | _ => MinInt
  end.

Definition clampTokens (n : Z) : Z :=
  let n := if n <? 16 then 16 else n in if 512 <? n then 512 else n.

(** The share of the prefix, by where the cursor is in the text. *)
Definition prefixPct (confidence : float64) (familyPct : Z) (prefix suffix : bytes) : Z :=
  if fle conf75 confidence then
    let totalLen := len prefix +i len suffix in
    if 0 <? totalLen then
      let cursorRatio := fdiv (of_int (len prefix)) (of_int totalLen) in
      if flt cursorRatio (flit 3 20) then
        let pct := familyPct -i 50 in if pct <? 20 then 20 else pct
      else if flt (flit 17 20) cursorRatio then
        let pct := familyPct +i 15 in if 95 <? pct then 95 else pct
      else familyPct
    else familyPct
  else familyPct.

Definition ComputeBudget (analysis : CursorAnalysis) (lang : bytes) (tier : Tier) (fim : FIMConfig)
    (prefix suffix : bytes) : ComputedBudget :=
  let base := contextBaseTokens (Context_ analysis) in
  let langMult := default fone (assoc languageMultiplier lang) in
  let product := fmul (fmul (fmul (of_int base) langMult) (tierMultiplier tier)) (shapeMultiplier (Shape analysis)) in
  let temp := contextTemperature (Context_ analysis) in
  let temp := if flt (Confidence analysis) conf75 && flt (flit 1 5) temp then flit 1 5 else temp in
  let familyPct := if fim_PrefixBudgetPct fim =? 0 then 75 else fim_PrefixBudgetPct fim in
  mkBudget (clampTokens (trunc product)) (prefixPct (Confidence analysis) familyPct prefix suffix) temp
    (mergeStopTokens (fim_StopTokens fim) (StopPatterns (languageHintsFor lang))).

(** ** Configuration (config.go, provider/types.go) *)

Inductive fimErr :=
| ErrGeneratorRequired | ErrModelRequired | ErrCallbackRequired | ErrNoProfile | ErrNoFIM
| ErrFIMRequired | ErrEmptyStop (i : nat) | ErrPrefixPct (pct : Z) | ErrContextWindow (n : Z)
| ErrPromptRequired
| ErrBackend (id : nat)  (** of the generator *)
| ErrCallback (id : nat)  (** of the caller's function *)
| ErrJoined (a b : fimErr).

Fixpoint emptyStop (i : nat) (toks : list bytes) : option nat :=
  match toks with
  | [] => None
  | tok :: toks => if is_nil tok then Some i else emptyStop (S i) toks
  end.

Definition fim_Validate (c : FIMConfig) : option fimErr :=
  match emptyStop 0 (fim_StopTokens c) with
  | Some i => Some (ErrEmptyStop i)
  | None =>
      let pct := fim_PrefixBudgetPct c in
      if negb (pct =? 0) && ((pct <? 1) || (99 <? pct)) then Some (ErrPrefixPct pct) else None
  end.

Definition defaultFIMContextWindow : Z := 8192.

Record ProviderConfig := mkConfig { FIM : option FIMConfig; cfg_ContextWindow : Z; QualityTier : Tier }.

(** The [FIM] field of the profile is passed beside it. *)
Definition ProviderConfigFromProfile (profile : option (ModelProfile * option FIMConfig)) :
    result fimErr ProviderConfig :=
  match profile with
  | None => Err ErrNoProfile
  | Some (p, fim) =>
      if negb (SupportsFIM p) then Err ErrNoFIM
      else
        let fim := default (mkFIM [] 0) fim in
        match fim_Validate fim with
        | Some err => Err err
        | None =>
            let ctxWindow := EffectiveContextWindow p "fim" in
            Ok (mkConfig (Some fim) (if ctxWindow <=? 0 then defaultFIMContextWindow else ctxWindow) (Quality p))
        end
  end.

Section language.
Context (ToLowerWide : bytes -> bytes).

(** [strings.ToLower]. *)
Definition ToLower (s : bytes) : bytes := if isASCII s then map lowerByte s else ToLowerWide s.

Definition resolveLanguage (explicit filePath : bytes) : bytes :=
  if negb (is_nil explicit) then ToLower explicit
  else if is_nil filePath then []
  else match assoc extToLanguage (ToLower (Ext filePath)) with
       | Some lang => lit lang
       | None => []
       end.
End language.
