(* ===== verification/CompletionRun.v ===== *)
(** * CompletionRun: planning and running a completion (completion/inline.go, generator.go)

    A plan fits the text around the cursor and the tokens to generate into the
    context.  A backend that streams is a tree: it emits chunks, sees what the
    callback returned, and ends with a result or an error.  The callback of the
    caller answers from the tokens it was given so far. *)

From Stdlib Require Import Strings.Byte.
From stdpp Require Import list.
From S2P Require Import Prelude GoFloat Utf8 GoText Request Completion.

#[local] Open Scope Z_scope.
#[local] Open Scope go_scope.
#[local] Open Scope list_scope.

(** ** Requests and results *)

Record FIMRequest := mkFIMRequest {
  Prefix : bytes; Suffix : bytes; FilePath : bytes; MaxTokens : Z; Language : bytes; Trace : bool
}.

Record BudgetTrace := mkBudgetTrace {
  DetectedContext : CursorContext; t_Shape : CompletionShape; DetectorConfidence : float64;
  DecisionReason : bytes; t_Language : bytes; t_MaxTokens : Z; t_NumCtx : Z; t_PrefixBudgetPct : Z;
  t_Temperature : float64; ShapeMult : float64; StopTokenCount : Z;
}.

Record FIMResponse := mkFIMResponse {
  resp_Completion : bytes; resp_Tokens : Z; LatencyMs : Z; resp_Context : CursorContext;
  resp_Shape : CompletionShape; resp_Trace : option BudgetTrace
}.

Record GenerateRequest := mkGenerate {
  g_Model : bytes; Prompt : bytes; g_Suffix : bytes; g_Temperature : float64;
  NumPredict : Z; NumCtx : Z; Stop : list bytes
}.

(** The provenance of a router is opaque here. *)
Record GenerateResult := mkGenerated {
  Response : bytes; Tokens : Z; Model : bytes; Provider_ : bytes; Outcome : option nat
}.
Definition no_result : GenerateResult := mkGenerated [] 0 [] [] None.

Record GenerateChunk := mkChunk { c_Response : bytes; Done : bool }.

(** What a streaming call does, given what its callback answers. *)
Inductive GStream (C R : Type) :=
| Ends (r : R) (err : option fimErr)
| Emits (c : C) (k : option fimErr -> GStream C R).
Arguments Ends {C R} r err.
Arguments Emits {C R} c k.

Record Generator := mkGenerator {
  Generate : GenerateRequest -> result fimErr GenerateResult;
  GenerateStream : GenerateRequest -> GStream GenerateChunk GenerateResult;
}.

(** ** The Ollama adapter (generator.go) *)

Record OllamaResponse := mkOllama { o_Response : bytes; EvalCount : Z; o_Done : bool }.

(** The HTTP client; what it streams ends with its error.  Its request repacks
    the fields of this one. *)
Record OllamaClient := mkClient {
  cl_Generate : GenerateRequest -> result fimErr OllamaResponse;
  cl_GenerateStream : GenerateRequest -> GStream OllamaResponse unit;
}.

Definition providerNameOllama : bytes := lit "ollama".

Definition validateOllamaGenerateRequest (req : GenerateRequest) : option fimErr :=
  if is_nil (g_Model req) then Some ErrModelRequired
  else if is_nil (Prompt req) && is_nil (g_Suffix req) then Some ErrPromptRequired
  else None.

Definition ollamaGenerate (c : OllamaClient) (req : GenerateRequest) : result fimErr GenerateResult :=
  match validateOllamaGenerateRequest req with
  | Some err => Err err
  | None =>
      match cl_Generate c req with
      | Err err => Err err
      | Ok resp => Ok (mkGenerated (o_Response resp) (EvalCount resp) (g_Model req) providerNameOllama None)
      end
  end.

Fixpoint adapt (req : GenerateRequest) (full : bytes) (tokens : Z) (s : GStream OllamaResponse unit) :
    GStream GenerateChunk GenerateResult :=
  match s with
  | Ends _ (Some err) => Ends no_result (Some err)
  | Ends _ None => Ends (mkGenerated full tokens (g_Model req) providerNameOllama None) None
  | Emits resp k =>
      Emits (mkChunk (o_Response resp) (o_Done resp))
        (fun answer => adapt req (full ++ o_Response resp)
                         (if 0 <? EvalCount resp then EvalCount resp else tokens) (k answer))
  end.

Definition ollamaGenerateStream (c : OllamaClient) (req : GenerateRequest) : GStream GenerateChunk GenerateResult :=
  match validateOllamaGenerateRequest req with
  | Some err => Ends no_result (Some err)
  | None => adapt req [] 0 (cl_GenerateStream c req)
  end.

Definition generatorFromOllamaClient (c : option OllamaClient) : option Generator :=
  option_map (fun c => mkGenerator (ollamaGenerate c) (ollamaGenerateStream c)) c.

(** ** The provider (inline.go) *)

Record Provider := mkProvider { generator : option Generator; model : bytes; cfg : ProviderConfig }.

Definition buildProvider (generator : option Generator) (model : bytes) (cfg : ProviderConfig) :
    result fimErr Provider :=
  match FIM cfg with
  | None => Err ErrFIMRequired
  | Some fim =>
      match fim_Validate fim with
      | Some err => Err err
      | None => if cfg_ContextWindow cfg <=? 0 then Err (ErrContextWindow (cfg_ContextWindow cfg))
                else Ok (mkProvider generator model cfg)
      end
  end.

Definition NewProvider (client : option OllamaClient) (model : bytes) (cfg : ProviderConfig) :
    result fimErr Provider := buildProvider (generatorFromOllamaClient client) model cfg.

Definition NewProviderWithGenerator (generator : option Generator) (model : bytes) (cfg : ProviderConfig) :
    result fimErr Provider :=
  match generator with
  | None => Err ErrGeneratorRequired
  | Some _ => buildProvider generator model cfg
  end.

Definition fimCtxCeiling : Z := 8192.
Definition fimCtxCeilingLarge : Z := 16384.

Definition effectiveNumCtx (p : Provider) (inputTokens : Z) : Z :=
  let ceiling := if fimCtxCeiling <? inputTokens then fimCtxCeilingLarge else fimCtxCeiling in
  if cfg_ContextWindow (cfg p) <? ceiling then cfg_ContextWindow (cfg p) else ceiling.

Record plannedRequest := mkPlanned {
  genReq : GenerateRequest; analysis : CursorAnalysis; budget : ComputedBudget;
  language : bytes; numCtx : Z; maxTok : Z
}.

(** The shares of prefix and suffix, after what one of them does not need is
    given to the other. *)
Definition shares (availableCtx pct prefixTokens suffixTokens : Z) : Z * Z :=
  let prefixBudget := Z.quot (wrap_int (availableCtx * pct)) 100 in
  let suffixBudget := availableCtx -i prefixBudget in
  if prefixTokens <? prefixBudget then (prefixTokens, suffixBudget +i (prefixBudget -i prefixTokens))
  else if suffixTokens <? suffixBudget then (prefixBudget +i (suffixBudget -i suffixTokens), suffixTokens)
  else (prefixBudget, suffixBudget).

Section provider.
Context (ToLowerWide : bytes -> bytes).

Definition planRequest (p : Provider) (fim : FIMConfig) (req : FIMRequest) : plannedRequest :=
  let lang := resolveLanguage ToLowerWide (Language req) (FilePath req) in
  let analysis := AnalyzeCursor (Prefix req) (Suffix req) lang in
  let budget := ComputeBudget analysis lang (QualityTier (cfg p)) fim (Prefix req) (Suffix req) in
  let maxTokens := if 0 <? MaxTokens req then MaxTokens req else cb_MaxTokens budget in
  let numCtx := effectiveNumCtx p (EstimateTokens (Prefix req) +i EstimateTokens (Suffix req)) in
  let overhead := 0 in
  let maxLimit := (numCtx -i overhead) -i 1 in
  let maxLimit := if maxLimit <? 1 then 1 else maxLimit in
  let maxTokens := if maxLimit <? maxTokens then maxLimit else maxTokens in
  let availableCtx := (numCtx -i maxTokens) -i overhead in
  let availableCtx := if availableCtx <? 0 then 0 else availableCtx in
  let '(prefixBudget, suffixBudget) :=
    shares availableCtx (PrefixBudgetPct budget) (EstimateTokens (Prefix req)) (EstimateTokens (Suffix req)) in
  mkPlanned
    (mkGenerate (model p) (TruncateToTokens (Prefix req) prefixBudget)
       (TruncateSuffixToTokens (Suffix req) suffixBudget) (Temperature budget) maxTokens numCtx (StopTokens budget))
    analysis budget lang numCtx maxTokens.

Definition buildTrace (pr : plannedRequest) : BudgetTrace :=
  mkBudgetTrace (Context_ (analysis pr)) (Shape (analysis pr)) (Confidence (analysis pr)) (Reason (analysis pr))
    (language pr) (maxTok pr) (numCtx pr) (PrefixBudgetPct (budget pr)) (Temperature (budget pr))
    (shapeMultiplier (Shape (analysis pr))) (len (StopTokens (budget pr))).

(** [elapsed] is the time the call took; [buildProvider] refuses a nil FIM. *)
Definition Complete (p : Provider) (elapsed : Z) (req : FIMRequest) : result fimErr FIMResponse :=
  match generator p, FIM (cfg p) with
  | None, _ => Err ErrGeneratorRequired
  | _, None => Err ErrFIMRequired
  | Some g, Some fim =>
      if is_nil (model p) then Err ErrModelRequired
      else
        let pr := planRequest p fim req in
        match Generate g (genReq pr) with
        | Err err => Err err
        | Ok resp =>
            Ok (mkFIMResponse (stripStopTokens (Response resp) (StopTokens (budget pr))) (Tokens resp) elapsed
                  (Context_ (analysis pr)) (Shape (analysis pr)) (if Trace req then Some (buildTrace pr) else None))
        end
  end.

(** ** Streaming *)

(** [calls] are the tokens the callback was given, [cleaned] what it accepted. *)
Record streamState := mkStream {
  buffer : bytes; callbackErr : option fimErr; calls : list bytes; cleaned : bytes
}.
Definition stream0 : streamState := mkStream [] None [] [].

Section stream.
Context (fn : list bytes -> bytes -> option fimErr) (stops : list bytes).

Definition emit (token : bytes) (st : streamState) : streamState * option fimErr :=
  if is_nil token then (st, None)
  else match fn (calls st) token with
       | Some err => (mkStream (buffer st) (Some err) (calls st ++ [token]) (cleaned st), Some err)
       | None => (mkStream (buffer st) (callbackErr st) (calls st ++ [token]) (cleaned st ++ token), None)
       end.

Definition set_buffer (b : bytes) (st : streamState) : streamState :=
  mkStream b (callbackErr st) (calls st) (cleaned st).

Definition maxStopLen : Z := fold_left (fun n tok => if n <? len tok then len tok else n) stops 0.

(** The function the generator calls with each chunk. *)
Definition onChunk (resp : GenerateChunk) (st : streamState) : streamState * option fimErr :=
  if maxStopLen =? 0 then emit (c_Response resp) st
  else
    let buf := buffer st ++ c_Response resp in
    if Done resp then
      if is_nil buf then (st, None)
      else emit (stripStopTokens buf stops) (set_buffer [] st)
    else if len buf <=? maxStopLen then (set_buffer buf st, None)
    else
      let n := Z.to_nat (len buf - maxStopLen) in
      emit (take n buf) (set_buffer (drop n buf) st).

Fixpoint drive (s : GStream GenerateChunk GenerateResult) (st : streamState) :
    streamState * GenerateResult * option fimErr :=
  match s with
  | Ends r err => (st, r, err)
  | Emits c k => let '(st, answer) := onChunk c st in drive (k answer) st
  end.

(** What is done when the stream has ended. *)
Definition finishStream (out : streamState * GenerateResult * option fimErr) :
    streamState * GenerateResult * option fimErr :=
  let '(st, r, streamErr) := out in
  match streamErr with
  | None => (st, mkGenerated (cleaned st) (Tokens r) (Model r) (Provider_ r) (Outcome r), None)
  | Some e =>
      if negb (opt_b (callbackErr st)) && negb (is_nil (buffer st)) then
        let '(st, err) := emit (stripStopTokens (buffer st) stops) (set_buffer [] st) in
        match err with
        | Some err => (st, r, Some (ErrJoined e err))
        | None => (st, r, Some e)
        end
      else (st, r, Some e)
  end.
End stream.

Definition completeStream (p : Provider) (req : FIMRequest) (fn : option (list bytes -> bytes -> option fimErr)) :
    list bytes * GenerateResult * option fimErr :=
  match generator p, FIM (cfg p), fn with
  | None, _, _ => ([], no_result, Some ErrGeneratorRequired)
  | _, None, _ => ([], no_result, Some ErrFIMRequired)
  | Some g, Some fim, fn =>
      if is_nil (model p) then ([], no_result, Some ErrModelRequired)
      else match fn with
           | None => ([], no_result, Some ErrCallbackRequired)
           | Some fn =>
               let pr := planRequest p fim req in
               let stops := StopTokens (budget pr) in
               let '(st, r, err) := finishStream fn stops (drive fn stops (GenerateStream g (genReq pr)) stream0) in
               (calls st, r, err)
           end
  end.

Definition CompleteStreamWithResult := completeStream.

Definition CompleteStream (p : Provider) (req : FIMRequest) (fn : option (list bytes -> bytes -> option fimErr)) :
    list bytes * option fimErr :=
  let '(tokens, _, err) := completeStream p req fn in (tokens, err).
End provider.
