(* ===== verification/CompletionFacts.v ===== *)
(** * CompletionFacts: what a completion promises

    The plan of a request fits the context and cuts neither a rune nor more
    than it must; the streamed tokens are the completion that the call without
    streaming returns, unless the backend ends in several stop tokens. *)

From Stdlib Require Import Strings.Byte.
From stdpp Require Import list.
From S2P Require Import Prelude GoFloat Utf8 GoText Request Completion CompletionRun.

#[local] Open Scope Z_scope.
#[local] Open Scope go_scope.
#[local] Open Scope list_scope.

(** ** Estimates and truncation *)

Definition sized (text : bytes) : Prop := len text <= MaxInt - 8.

Lemma EstimateTokens_eq text : sized text -> EstimateTokens text = Z.quot (len text + 3) 4.
Proof.
  unfold sized, EstimateTokens. intros H. pose proof (len_nonneg text).
  destruct (Z.eqb_spec (len text) 0) as [->|]; [done|].
  rewrite wrap_int_id; [done|]. unfold in_int, MinInt, MaxInt in *. lia.
Qed.

Lemma EstimateTokens_bounds text :
  sized text -> 0 <= EstimateTokens text /\ 4 * EstimateTokens text - 3 <= len text <= 4 * EstimateTokens text.
Proof.
  intros H. rewrite EstimateTokens_eq by done. pose proof (len_nonneg text).
  Z.to_euclidean_division_equations; lia.
Qed.

Lemma EstimateTokens_le text n : sized text -> 0 <= n -> len text <= 4 * n -> EstimateTokens text <= n.
Proof. intros H Hn Hle. pose proof (EstimateTokens_bounds text H). lia. Qed.

Lemma to_rune_start_spec s :
  to_rune_start s `suffix_of` s /\ forall b, head (to_rune_start s) = Some b -> rune_start b = true.
Proof.
  induction s as [|b s [IH1 IH2]]; [by split|]. simpl. destruct (rune_start b) eqn:E.
  - split; [done|]. by intros b' [= <-].
  - split; [by apply suffix_cons_r|done].
Qed.

Lemma back_to_rune_spec text e :
  (back_to_rune text e <= e)%nat /\
  (back_to_rune text e = 0%nat \/ forall b, text !! back_to_rune text e = Some b -> rune_start b = true).
Proof.
  induction e as [|e [IH1 IH2]]; [simpl; auto|]. cbn [back_to_rune]. destruct (text !! S e) as [b|] eqn:E.
  - destruct (rune_start b) eqn:Eb; [split; [lia|right; intros b' Hb; congruence]|]. split; [lia|done].
  - split; [lia|]. right. intros b Hb. congruence.
Qed.

Lemma suffix_len {A} (s t : list A) : s `suffix_of` t -> len s <= len t.
Proof. intros [k ->]. rewrite len_app. pose proof (len_nonneg k). lia. Qed.

Lemma prefix_len {A} (s t : list A) : s `prefix_of` t -> len s <= len t.
Proof. intros [k ->]. rewrite len_app. pose proof (len_nonneg k). lia. Qed.

Lemma len_drop {A} n (s : list A) : len (drop n s) = Z.max 0 (len s - Z.of_nat n).
Proof. unfold len. rewrite length_drop. lia. Qed.

Lemma len_take_le {A} n (s : list A) : len (take n s) <= Z.of_nat n.
Proof. unfold len. rewrite length_take. lia. Qed.

(** The end of the text that fits, from a rune on. *)
Lemma TruncateToTokens_spec text n :
  sized text -> n <= 16384 ->
  let t := TruncateToTokens text n in
  t `suffix_of` text /\ EstimateTokens t <= Z.max 0 n /\
  (EstimateTokens text <= n -> t = text) /\
  (t = text \/ forall b, head t = Some b -> rune_start b = true).
Proof.
  intros Hs Hn t. unfold t, TruncateToTokens. pose proof (len_nonneg text). unfold sized in Hs.
  destruct (Z.leb_spec n 0) as [Hle|Hlt].
  { split_and!; [by apply suffix_nil|rewrite Z.max_l by lia; done| |by right].
    intros He. pose proof (EstimateTokens_bounds text Hs). destruct text; [done|len_lia]. }
  rewrite (wrap_int_id (n * 4)) by (unfold in_int, MinInt, MaxInt; lia).
  destruct (Z.leb_spec (len text) (n * 4)) as [Hfit|Hcut].
  { split_and!; [done| |done|by left]. rewrite Z.max_r by lia. apply EstimateTokens_le; [done|lia|lia]. }
  rewrite wrap_int_id by (unfold in_int, MinInt, MaxInt in *; lia).
  destruct (to_rune_start_spec (drop (Z.to_nat (len text - n * 4)) text)) as [H1 H2].
  pose proof (suffix_len _ _ H1) as Hl. rewrite len_drop in Hl. split_and!.
  - etrans; [exact H1|]. apply suffix_drop.
  - rewrite Z.max_r by lia. apply EstimateTokens_le; unfold sized, MaxInt in *; lia.
  - intros He. pose proof (EstimateTokens_bounds text Hs). lia.
  - by right.
Qed.

(** The start of the text that fits, up to where a rune starts. *)
Lemma TruncateSuffixToTokens_spec text n :
  sized text -> n <= 16384 ->
  let t := TruncateSuffixToTokens text n in
  t `prefix_of` text /\ EstimateTokens t <= Z.max 0 n /\
  (EstimateTokens text <= n -> t = text) /\
  (t = [] \/ forall b, text !! length t = Some b -> rune_start b = true).
Proof.
  intros Hs Hn t. unfold t, TruncateSuffixToTokens. pose proof (len_nonneg text). unfold sized in Hs.
  destruct (Z.leb_spec n 0) as [Hle|Hlt].
  { split_and!; [apply prefix_nil|rewrite Z.max_l by lia; done| |by left].
    intros He. pose proof (EstimateTokens_bounds text Hs). destruct text; [done|len_lia]. }
  rewrite (wrap_int_id (n * 4)) by (unfold in_int, MinInt, MaxInt; lia).
  destruct (Z.leb_spec (len text) (n * 4)) as [Hfit|Hcut].
  { split_and!; [done| |done|right; intros b Hb].
    - rewrite Z.max_r by lia. apply EstimateTokens_le; [done|lia|lia].
    - apply lookup_lt_Some in Hb. lia. }
  destruct (back_to_rune_spec text (Z.to_nat (n * 4))) as [H1 H2]. set (e := back_to_rune _ _) in *.
  pose proof (len_take_le e text). pose proof (len_nonneg (take e text)). split_and!.
  - apply prefix_take.
  - rewrite Z.max_r by lia. apply EstimateTokens_le; unfold sized, MaxInt in *; lia.
  - intros He. pose proof (EstimateTokens_bounds text Hs). lia.
  - destruct H2 as [->|H2]; [by left|]. right. intros b. rewrite length_take_le; [apply H2|]. unfold len in *. lia.
Qed.

(** ** The plan *)

Lemma fim_Validate_pct c : fim_Validate c = None ->
  fim_PrefixBudgetPct c = 0 \/ 1 <= fim_PrefixBudgetPct c <= 99.
Proof.
  unfold fim_Validate. destruct (emptyStop 0 _); [done|].
  destruct (Z.eqb_spec (fim_PrefixBudgetPct c) 0); [auto|].
  destruct (Z.ltb_spec (fim_PrefixBudgetPct c) 1); [done|]. destruct (Z.ltb_spec 99 (fim_PrefixBudgetPct c)); [done|].
  intros _. lia.
Qed.

Lemma prefixPct_range conf pct p s : 1 <= pct <= 99 -> 1 <= prefixPct conf pct p s <= 99.
Proof.
  intros H. unfold prefixPct. rewrite (wrap_int_id (pct - 50)), (wrap_int_id (pct + 15)) by (unfold in_int, MinInt, MaxInt in *; lia).
  cases_if; to_prop; lia.
Qed.

(** Both shares are used up when the text does not fit, and the text fits them
    when it fits together. *)
Lemma shares_spec available pct pt st :
  0 <= available <= 16384 -> 1 <= pct <= 99 -> 0 <= pt -> 0 <= st ->
  let '(pb, sb) := shares available pct pt st in
  0 <= pb /\ 0 <= sb /\ pb + sb = available /\ (pt + st <= available -> pt <= pb /\ st <= sb).
Proof.
  intros Ha Hp Hpt Hst. unfold shares.
  assert (0 <= available * pct <= 16384 * 99) as Hm by nia.
  rewrite (wrap_int_id (available * pct)) by (unfold in_int, MinInt, MaxInt; lia).
  set (pb := Z.quot (available * pct) 100).
  assert (0 <= pb <= available) as Hpb by (subst pb; Z.to_euclidean_division_equations; nia).
  rewrite (wrap_int_id (available - pb)) by (unfold in_int, MinInt, MaxInt; lia).
  destruct (Z.ltb_spec pt pb).
  { rewrite (wrap_int_id (pb - pt)), wrap_int_id by (unfold in_int, MinInt, MaxInt; lia). lia. }
  destruct (Z.ltb_spec st (available - pb)).
  { rewrite (wrap_int_id (available - pb - st)), wrap_int_id by (unfold in_int, MinInt, MaxInt; lia). lia. }
  lia.
Qed.

Section plan.
Context (ToLowerWide : bytes -> bytes).

(** C17: A planned completion fits: at least one token is generated, never more
    than the caller allowed, the estimate of the prompt, of the suffix and of
    what is generated together stay within the context, which is no more than
    the model's window; the prompt ends and the suffix starts at the cursor,
    no rune is cut, and nothing is cut when everything fits. *)
Theorem plan_fits_context g m c p fim req :
  buildProvider g m c = Ok p -> FIM c = Some fim -> cfg_ContextWindow c <= MaxInt ->
  len (Prefix req) + len (Suffix req) <= MaxInt - 8 ->
  let q := genReq (planRequest ToLowerWide p fim req) in
  1 <= NumPredict q /\ (0 < MaxTokens req -> NumPredict q <= MaxTokens req) /\
  NumCtx q <= cfg_ContextWindow c /\
  EstimateTokens (Prompt q) + EstimateTokens (g_Suffix q) + NumPredict q <= NumCtx q /\
  Prompt q `suffix_of` Prefix req /\ g_Suffix q `prefix_of` Suffix req /\
  (EstimateTokens (Prefix req) + EstimateTokens (Suffix req) + NumPredict q <= NumCtx q ->
     Prompt q = Prefix req /\ g_Suffix q = Suffix req) /\
  (Prompt q = Prefix req \/ forall b, head (Prompt q) = Some b -> rune_start b = true) /\
  (g_Suffix q = [] \/ forall b, Suffix req !! length (g_Suffix q) = Some b -> rune_start b = true).
Proof.
  intros Hb Hf Hc Hlen. unfold buildProvider in Hb. rewrite Hf in Hb.
  destruct (fim_Validate fim) eqn:Hv; [done|]. destruct (Z.leb_spec (cfg_ContextWindow c) 0) as [|Hpos]; [done|].
  injection Hb as <-. pose proof (len_nonneg (Prefix req)). pose proof (len_nonneg (Suffix req)).
  assert (sized (Prefix req)) as Hsp by (unfold sized; lia). assert (sized (Suffix req)) as Hss by (unfold sized; lia).
  pose proof (EstimateTokens_bounds _ Hsp) as Hep. pose proof (EstimateTokens_bounds _ Hss) as Hes.
  intros q. unfold q, planRequest. set (lang := resolveLanguage _ _ _). set (an := AnalyzeCursor _ _ _).
  set (bud := ComputeBudget _ _ _ _ _ _). set (ctx := effectiveNumCtx _ _). cbn [cfg] in *.
  assert (1 <= ctx <= 16384 /\ ctx <= cfg_ContextWindow c) as [Hctx Hwin].
  { unfold ctx, effectiveNumCtx, fimCtxCeiling, fimCtxCeilingLarge. cbn [cfg]. cases_if; to_prop; lia. }
  assert (1 <= PrefixBudgetPct bud <= 99) as Hpct.
  { unfold bud, ComputeBudget. cbn [PrefixBudgetPct]. apply prefixPct_range.
    destruct (fim_Validate_pct fim Hv) as [->|H1]; [done|]. destruct (Z.eqb_spec (fim_PrefixBudgetPct fim) 0); lia. }
  assert (16 <= cb_MaxTokens bud <= 512) as Hmt.
  { unfold bud, ComputeBudget, clampTokens. cbn [cb_MaxTokens]. cases_if; to_prop; lia. }
  rewrite !Z.sub_0_r, !(wrap_int_id ctx), (wrap_int_id (ctx - 1)) by (unfold in_int, MinInt, MaxInt; lia).
  set (want := if 0 <? MaxTokens req then MaxTokens req else cb_MaxTokens bud).
  assert (1 <= want /\ (0 < MaxTokens req -> want = MaxTokens req)) as [Hw1 Hw2].
  { unfold want. destruct (Z.ltb_spec 0 (MaxTokens req)); lia. }
  set (limit := if ctx - 1 <? 1 then 1 else ctx - 1).
  assert (1 <= limit <= ctx) as Hlim by (unfold limit; destruct (Z.ltb_spec (ctx - 1) 1); lia).
  set (n := if limit <? want then limit else want).
  assert (1 <= n <= limit /\ n <= want) as [Hn1 Hn2] by (unfold n; destruct (Z.ltb_spec limit want); lia).
  rewrite !(wrap_int_id (ctx - n)) by (unfold in_int, MinInt, MaxInt; lia).
  destruct (Z.ltb_spec (ctx - n) 0); [lia|].
  pose proof (shares_spec (ctx - n) (PrefixBudgetPct bud) (EstimateTokens (Prefix req)) (EstimateTokens (Suffix req))) as Hsh.
  destruct (shares _ _ _ _) as [pb sb]. destruct Hsh as (Hpb & Hsb & Hsum & Hall); [lia|done|lia|lia|].
  destruct (TruncateToTokens_spec (Prefix req) pb Hsp) as (P1 & P2 & P3 & P4); [lia|].
  destruct (TruncateSuffixToTokens_spec (Suffix req) sb Hss) as (S1 & S2 & S3 & S4); [lia|].
  cbn [genReq NumPredict NumCtx Prompt g_Suffix]. rewrite Z.max_r in P2, S2 by lia.
  split_and!; try done; try lia.
  intros Hfit. split; [apply P3|apply S3]; apply Hall; lia.
Qed.
End plan.

(** ** Stop tokens at the end *)

Section strip.
Context (stops : list bytes).

Lemma is_nil_false (s : bytes) : is_nil s = false <-> s <> [].
Proof. unfold is_nil. apply bool_decide_eq_false. Qed.

Lemma longestTail_spec c longest :
  (longest <> [] -> longest `suffix_of` c) ->
  let r := longestTail c longest stops in
  (r <> [] -> r `suffix_of` c) /\ (r = longest \/ r ∈ stops /\ r <> []) /\
  (length longest <= length r)%nat /\
  (forall tok, tok ∈ stops -> tok <> [] -> tok `suffix_of` c -> (length tok <= length r)%nat).
Proof.
  revert longest. induction stops as [|tok toks IH]; intros longest Hl; cbn [longestTail].
  { split_and!; [done|by left|done|by intros ? ?%elem_of_nil]. }
  destruct (negb (is_nil tok) && (hasSuffix c tok && (len longest <? len tok))) eqn:E.
  - apply andb_true_iff in E as [Hn [Hs Hlt]%andb_true_iff]. apply negb_true_iff, is_nil_false in Hn.
    unfold hasSuffix in Hs. apply bool_decide_eq_true in Hs. apply Z.ltb_lt in Hlt.
    destruct (IH tok (fun _ => Hs)) as (H1 & H2 & H3 & H4). unfold len in Hlt.
    split_and!; [done| |lia|].
    + right. destruct H2 as [->|[H2 Hne]]; [split; [by left|done]|split; [by right|done]].
    + intros t [->|Ht]%elem_of_cons Hne Hsuf; [done|by apply H4].
  - destruct (IH longest Hl) as (H1 & H2 & H3 & H4). split_and!; [done| |done|].
    + destruct H2 as [H2|[H2 Hne]]; [by left|right; split; [by right|done]].
    + intros t [->|Ht]%elem_of_cons Hne Hsuf; [|by apply H4].
      apply is_nil_false in Hne. unfold hasSuffix in E. rewrite Hne, (bool_decide_eq_true_2 _ Hsuf) in E. simpl in E.
      apply Z.ltb_ge in E. unfold len in E. lia.
Qed.

Definition tail_of (c : bytes) : bytes := longestTail c [] stops.

Lemma tail_of_spec c :
  (tail_of c <> [] -> tail_of c `suffix_of` c /\ tail_of c ∈ stops) /\
  (forall tok, tok ∈ stops -> tok <> [] -> tok `suffix_of` c -> (length tok <= length (tail_of c))%nat).
Proof.
  destruct (longestTail_spec c []) as (H1 & H2 & _ & H4); [done|]. split; [|exact H4].
  intros Hne. split; [by apply H1|]. destruct H2 as [H2|[H2 _]]; [done|exact H2].
Qed.

(** No stop token at the end of [c]. *)
Definition clean (c : bytes) : Prop := forall tok, tok ∈ stops -> tok <> [] -> ~ tok `suffix_of` c.

Lemma tail_of_clean c : tail_of c = [] <-> clean c.
Proof.
  destruct (tail_of_spec c) as [H1 H2]. split.
  - intros E tok Ht Hne Hs. specialize (H2 tok Ht Hne Hs). rewrite E in H2. destruct tok; [done|simpl in H2; lia].
  - intros Hc. destruct (decide (tail_of c = [])) as [|Hne]; [done|]. destruct (H1 Hne) as [Hs Ht].
    by destruct (Hc _ Ht Hne).
Qed.

Definition cut (c : bytes) : bytes := take (length c - length (tail_of c)) c.

Lemma cut_app c : tail_of c <> [] -> c = cut c ++ tail_of c.
Proof.
  intros Hne. destruct (proj1 (tail_of_spec c) Hne) as [[k E] _]. unfold cut.
  assert (length c = length k + length (tail_of c))%nat as El by (rewrite E at 1; apply length_app).
  replace (length c - length (tail_of c))%nat with (length k) by lia. rewrite E at 2. by rewrite take_app_length.
Qed.

Lemma cut_shorter c : tail_of c <> [] -> (length (cut c) < length c)%nat.
Proof.
  intros Hne. pose proof (cut_app c Hne) as E. apply (f_equal length) in E. rewrite length_app in E.
  destruct (tail_of c); [done|]. simpl in E. lia.
Qed.

Lemma strip_enough n m c : (length c <= n)%nat -> (length c <= m)%nat -> strip_from n c stops = strip_from m c stops.
Proof.
  revert m c. induction n as [|n IH]; intros m c Hn Hm.
  - destruct c; [|simpl in Hn; lia]. destruct m; [done|]. cbn [strip_from]. fold (tail_of []).
    destruct (is_nil (tail_of [])) eqn:E; [done|]. apply is_nil_false in E.
    destruct (proj1 (tail_of_spec []) E) as [[k H] _]. by destruct k, (tail_of []).
  - destruct m as [|m].
    { destruct c; [|simpl in Hm; lia]. cbn [strip_from]. fold (tail_of []).
      destruct (is_nil (tail_of [])) eqn:E; [done|]. apply is_nil_false in E.
      destruct (proj1 (tail_of_spec []) E) as [[k H] _]. by destruct k, (tail_of []). }
    cbn [strip_from]. fold (tail_of c). destruct (is_nil (tail_of c)) eqn:E; [done|]. apply is_nil_false in E.
    fold (cut c). pose proof (cut_shorter c E). apply IH; lia.
Qed.

(** One round of [stripStopTokens]. *)
Lemma strip_step c :
  stripStopTokens c stops = if is_nil (tail_of c) then c else stripStopTokens (cut c) stops.
Proof.
  unfold stripStopTokens. rewrite (strip_enough (length c) (S (length c))) by lia. cbn [strip_from].
  fold (tail_of c) (cut c). destruct (is_nil (tail_of c)) eqn:E; [done|]. apply is_nil_false in E.
  pose proof (cut_shorter c E). apply strip_enough; lia.
Qed.

Lemma strip_clean c : clean c -> stripStopTokens c stops = c.
Proof. intros H%tail_of_clean. by rewrite strip_step, H. Qed.

(** What is stripped are stop tokens, and none is left. *)
Lemma strip_spec c : exists removed,
  c = stripStopTokens c stops ++ concat removed /\ Forall (fun t => t ∈ stops) removed /\ clean (stripStopTokens c stops).
Proof.
  induction c as [c IH] using (induction_ltof1 _ length). rewrite strip_step.
  destruct (is_nil (tail_of c)) eqn:E.
  - exists []. rewrite app_nil_r. split_and!; [done|constructor|]. apply tail_of_clean. by apply bool_decide_eq_true in E.
  - apply is_nil_false in E. destruct (IH (cut c) (cut_shorter c E)) as (removed & H1 & H2 & H3).
    exists (removed ++ [tail_of c]). split_and!; [|apply Forall_app; split; [done|]; by repeat constructor; apply tail_of_spec|done].
    rewrite concat_app, app_assoc, <-H1. simpl. rewrite app_nil_r. by apply cut_app.
Qed.

Lemma clean_suffix c d : d `suffix_of` c -> clean c -> clean d.
Proof. intros Hd Hc tok Ht Hne Hs. apply (Hc tok Ht Hne). by etrans. Qed.

(** *** The longest stop token *)

Definition longer (n : Z) (tok : bytes) : Z := if n <? len tok then len tok else n.

Lemma longer_fold l n :
  n <= fold_left longer l n /\ forall tok, tok ∈ l -> len tok <= fold_left longer l n.
Proof.
  revert n. induction l as [|t l IH]; intros n; cbn [fold_left]; [split; [lia|by intros ? ?%elem_of_nil]|].
  destruct (IH (longer n t)) as [H1 H2].
  assert (n <= longer n t /\ len t <= longer n t) as [? ?] by (unfold longer; destruct (Z.ltb_spec n (len t)); lia).
  split; [lia|]. intros x [->|Hx]%elem_of_cons; [lia|by apply H2].
Qed.

Lemma maxStopLen_ge tok : tok ∈ stops -> len tok <= maxStopLen stops.
Proof. apply (longer_fold stops 0). Qed.

Lemma maxStopLen_nonneg : 0 <= maxStopLen stops.
Proof. apply (longer_fold stops 0). Qed.

Lemma no_stops_clean c : maxStopLen stops = 0 -> clean c.
Proof.
  intros H0 tok Ht Hne _. pose proof (maxStopLen_ge tok Ht) as H. destruct tok as [|b tok]; [done|].
  rewrite len_cons in H. pose proof (len_nonneg tok). lia.
Qed.
End strip.

(** ** Streaming

    A backend that keeps its contract: it emits some pieces, the last one
    marked, stops when the callback fails, and then answers. *)

Fixpoint replay (chunks : list GenerateChunk) (r : GenerateResult) : GStream GenerateChunk GenerateResult :=
  match chunks with
  | [] => Ends r None
  | c :: chunks => Emits c (fun answer => match answer with
                                          | None => replay chunks r
                                          | Some err => Ends no_result (Some err)
                                          end)
  end.

Definition pieces (ps : list bytes) (last : bytes) : list GenerateChunk :=
  map (fun p => mkChunk p false) ps ++ [mkChunk last true].

Section streaming.
Context (fn : list bytes -> bytes -> option fimErr) (stops : list bytes).
Context (Hfn : forall h t, fn h t = None).
Notation M := (maxStopLen stops).

Lemma emit_ok token st :
  emit fn token st =
    (mkStream (buffer st) (callbackErr st) (if is_nil token then calls st else calls st ++ [token]) (cleaned st ++ token), None).
Proof.
  unfold emit. destruct (is_nil token) eqn:E; [|by rewrite Hfn].
  apply bool_decide_eq_true in E. subst token. rewrite app_nil_r. by destruct st.
Qed.

(** Between two chunks: the callback has been given all but the last bytes, as
    many as the longest stop token has. *)
Record Between (text : bytes) (st : streamState) : Prop := mkBetween {
  bt_text : cleaned st ++ buffer st = text;
  bt_calls : concat (calls st) = cleaned st;
  bt_short : len (buffer st) <= M;
  bt_full : cleaned st <> [] -> len (buffer st) = M;
  bt_nonempty : Forall (fun t => t <> []) (calls st);
}.

Lemma concat_snoc {A} (l : list (list A)) x : concat (l ++ [x]) = concat l ++ x.
Proof. rewrite concat_app. simpl. by rewrite app_nil_r. Qed.

Lemma calls_snoc (l : list bytes) x :
  concat (if is_nil x then l else l ++ [x]) = concat l ++ x /\
  (Forall (fun t => t <> []) l -> Forall (fun t => t <> []) (if is_nil x then l else l ++ [x])).
Proof.
  destruct (is_nil x) eqn:E.
  - apply bool_decide_eq_true in E. subst x. by rewrite app_nil_r.
  - apply is_nil_false in E. rewrite concat_snoc. split; [done|]. intros H. apply Forall_app. by repeat constructor.
Qed.

Lemma onChunk_between text p st : Between text st ->
  exists st', onChunk fn stops (mkChunk p false) st = (st', None) /\ Between (text ++ p) st'.
Proof.
  intros [H1 H2 H3 H4 H5]. unfold onChunk. cbn [c_Response Done]. pose proof (maxStopLen_nonneg stops).
  pose proof (len_nonneg (buffer st)).
  destruct (Z.eqb_spec M 0) as [E0|N0].
  { rewrite emit_ok. eexists. split; [done|]. destruct (calls_snoc (calls st) p) as [Hc1 Hc2].
    assert (buffer st = []) as Eb by (destruct (buffer st); [done|rewrite len_cons in H3; len_lia]).
    split; cbn [cleaned buffer calls]; rewrite ?Eb, ?app_nil_r, ?Hc1, ?H2; auto.
    by rewrite <-H1, Eb, app_nil_r. }
  destruct (Z.leb_spec (len (buffer st ++ p)) M) as [Hle|Hgt].
  - eexists. split; [done|]. split; cbn [set_buffer cleaned buffer calls]; try done.
    + by rewrite app_assoc, H1.
    + intros Hne. specialize (H4 Hne). rewrite len_app in *. pose proof (len_nonneg p). lia.
  - rewrite emit_ok. eexists. split; [done|].
    set (n := Z.to_nat (len (buffer st ++ p) - M)). set (buf := buffer st ++ p) in *.
    destruct (calls_snoc (calls st) (take n buf)) as [Hc1 Hc2].
    assert (len (drop n buf) = M) as Hd by (rewrite len_drop; subst n; lia).
    split; cbn [set_buffer cleaned buffer calls]; rewrite ?Hc1, ?H2; auto; [|lia].
    rewrite <-app_assoc, take_drop. subst buf. by rewrite app_assoc, H1.
Qed.

Lemma drive_between ps chunks r text st : Between text st ->
  exists st', drive fn stops (replay (map (fun p => mkChunk p false) ps ++ chunks) r) st =
                drive fn stops (replay chunks r) st' /\ Between (text ++ concat ps) st'.
Proof.
  revert text st. induction ps as [|p ps IH]; intros text st HB.
  { exists st. by rewrite app_nil_r. }
  destruct (onChunk_between text p st HB) as (st1 & E1 & HB1).
  destruct (IH (text ++ p) st1 HB1) as (st2 & E2 & HB2). exists st2. cbn [map app replay drive concat].
  rewrite E1, E2. split; [done|]. by rewrite app_assoc.
Qed.

(** What the callback is given in all: everything but the last bytes as it is,
    and those without the stop tokens they end in. *)
Lemma stream_text ps last r :
  let '(st, r', err) := finishStream fn stops (drive fn stops (replay (pieces ps last) r) stream0) in
  err = None /\ Response r' = concat (calls st) /\ Tokens r' = Tokens r /\
  Forall (fun t => t <> []) (calls st) /\
  exists a b, concat ps ++ last = a ++ b /\ Response r' = a ++ stripStopTokens b stops /\
    (a = [] \/ M <= len b).
Proof.
  assert (Between [] stream0) as HB0.
  { split; try done. cbn [stream0 buffer]. change (len (@nil byte)) with 0. apply maxStopLen_nonneg. }
  destruct (drive_between ps [mkChunk last true] r [] stream0 HB0) as (st & E & [H1 H2 H3 H4 H5]).
  unfold pieces. rewrite E. cbn [replay drive app] in *. clear E HB0.
  unfold onChunk. cbn [c_Response Done]. destruct (Z.eqb_spec M 0) as [E0|N0].
  - rewrite emit_ok. cbn [drive finishStream Response calls cleaned Tokens].
    destruct (calls_snoc (calls st) last) as [Hc1 Hc2]. rewrite Hc1, H2. split_and!; auto.
    exists (cleaned st ++ last), []. rewrite app_nil_r. split_and!; [|by rewrite strip_clean, app_nil_r by by apply no_stops_clean|right; rewrite E0; done].
    rewrite <-H1. pose proof (len_nonneg (buffer st)).
    assert (buffer st = []) as -> by (destruct (buffer st); [done|rewrite len_cons in H3; len_lia]). by rewrite app_nil_r.
  - destruct (is_nil (buffer st ++ last)) eqn:En.
    + apply bool_decide_eq_true, app_nil in En as [Eb ->]. cbn [drive finishStream Response calls cleaned Tokens].
      split_and!; auto. exists (cleaned st), []. rewrite <-H1, Eb, !app_nil_r. split_and!; [done|done|].
      destruct (decide (cleaned st = [])) as [|Hne]; [by left|]. right. rewrite <-(H4 Hne), Eb. done.
    + rewrite emit_ok. cbn [drive finishStream Response calls cleaned Tokens set_buffer].
      destruct (calls_snoc (calls st) (stripStopTokens (buffer st ++ last) stops)) as [Hc1 Hc2].
      rewrite Hc1, H2. split_and!; auto. exists (cleaned st), (buffer st ++ last).
      rewrite <-H1, app_assoc. split_and!; [done|done|]. destruct (decide (cleaned st = [])) as [|Hne]; [by left|].
      right. rewrite len_app, (H4 Hne). pose proof (len_nonneg last). lia.
Qed.
End streaming.

(** ** Stripping a text and stripping its end *)

Section window.
Context (stops : list bytes).
Notation strip c := (stripStopTokens c stops).

Lemma suffix_unique {A} (s t c : list A) : s `suffix_of` c -> t `suffix_of` c -> length s = length t -> s = t.
Proof. intros [k ->] [k' E] Hl. apply app_inj_2 in E; [by destruct E|done]. Qed.

Lemma suffix_shorter {A} (s a b : list A) : s `suffix_of` a ++ b -> (length s <= length b)%nat -> s `suffix_of` b.
Proof.
  intros [k E] Hl. exists (drop (length a) k). assert (length k + length s = length a + length b)%nat as El
    by (rewrite <-!length_app; by rewrite E).
  rewrite <-(drop_app_length a b), E. by rewrite drop_app_le by lia.
Qed.

(** A stop token the end is long enough for is found there too. *)
Lemma tail_of_window a b :
  (length (tail_of stops (a ++ b)) <= length b)%nat -> tail_of stops b = tail_of stops (a ++ b).
Proof.
  intros Hl. destruct (tail_of_spec stops (a ++ b)) as [F1 F2], (tail_of_spec stops b) as [B1 B2].
  destruct (decide (tail_of stops (a ++ b) = [])) as [E|Hne].
  - rewrite E. apply tail_of_clean. apply tail_of_clean in E. eapply clean_suffix; [|exact E]. by exists a.
  - destruct (F1 Hne) as [Hs Hin]. pose proof (suffix_shorter _ _ _ Hs Hl) as Hsb.
    pose proof (B2 _ Hin Hne Hsb) as Hge.
    assert (tail_of stops b <> []) as Hneb by (intros E; rewrite E in Hge; by destruct (tail_of stops (a ++ b)); simpl in *; [|lia]).
    destruct (B1 Hneb) as [Hsb' Hinb].
    assert (tail_of stops b `suffix_of` a ++ b) as Hsa by (etrans; [exact Hsb'|by exists a]).
    pose proof (F2 _ Hinb Hneb Hsa). apply (suffix_unique _ _ (a ++ b)); [done|done|lia].
Qed.

Lemma cut_window a b :
  (length (tail_of stops (a ++ b)) <= length b)%nat -> cut stops (a ++ b) = a ++ cut stops b.
Proof.
  intros Hl. unfold cut. rewrite (tail_of_window a b Hl). rewrite length_app.
  replace (length a + length b - length (tail_of stops (a ++ b)))%nat
    with (length a + (length b - length (tail_of stops (a ++ b))))%nat by lia.
  by rewrite take_app_add.
Qed.

Lemma strip_prefix c : strip c `prefix_of` c.
Proof. destruct (strip_spec stops c) as (removed & E & _). rewrite E at 2. by eexists. Qed.

Lemma strip_window a b : strip (a ++ b) `prefix_of` a ++ strip b.
Proof.
  revert a. induction b as [b IH] using (induction_ltof1 _ length). intros a.
  rewrite (strip_step stops (a ++ b)). destruct (is_nil (tail_of stops (a ++ b))) eqn:E.
  { apply bool_decide_eq_true, tail_of_clean in E. rewrite strip_clean; [done|].
    eapply clean_suffix; [|exact E]. by exists a. }
  apply is_nil_false in E. destruct (decide (length (tail_of stops (a ++ b)) <= length b)%nat) as [Hl|Hl].
  - rewrite (cut_window a b Hl), (strip_step stops b), (tail_of_window a b Hl).
    destruct (is_nil (tail_of stops (a ++ b))) eqn:E'; [by apply bool_decide_eq_true in E'|].
    apply IH. unfold ltof. apply cut_shorter. by rewrite (tail_of_window a b Hl).
  - etrans; [apply strip_prefix|]. unfold cut. rewrite length_app, take_app_le by lia.
    etrans; [apply prefix_take|]. by exists (strip b).
Qed.

(** At most one stop token is at the end. *)
Lemma strip_window_eq a b :
  clean stops (cut stops (a ++ b)) -> a = [] \/ maxStopLen stops <= len b -> strip (a ++ b) = a ++ strip b.
Proof.
  intros Hc [->|Hb]; [done|].
  assert (length (tail_of stops (a ++ b)) <= length b)%nat as Hl.
  { destruct (decide (tail_of stops (a ++ b) = [])) as [->|Hne]; [simpl; lia|].
    destruct (proj1 (tail_of_spec stops (a ++ b)) Hne) as [_ Hin]. pose proof (maxStopLen_ge stops _ Hin).
    unfold len in *. lia. }
  rewrite (strip_step stops (a ++ b)), (strip_step stops b), (tail_of_window a b Hl).
  rewrite (cut_window a b Hl) in *. destruct (is_nil _); [done|].
  rewrite strip_clean by done. f_equal. symmetry. apply strip_clean. eapply clean_suffix; [|exact Hc]. by exists a.
Qed.
End window.

(** ** The two ways to complete *)

Section complete.
Context (ToLowerWide : bytes -> bytes).

(** C16: Streaming and not streaming agree.  When a backend streams, in any
    pieces, the payload it would have answered with, and the callback accepts
    everything, the streamed call succeeds with the tokens it delivered, none of
    them empty, as its response.  The completion of the other call is a prefix
    of it, and is the same when the payload ends in at most one stop token. *)
Theorem stream_matches_complete p g fim req elapsed fn ps last r r0 :
  generator p = Some g -> FIM (cfg p) = Some fim -> model p <> [] ->
  (forall h t, fn h t = None) ->
  let pr := planRequest ToLowerWide p fim req in
  let stops := StopTokens (budget pr) in
  let payload := concat ps ++ last in
  Generate g (genReq pr) = Ok r0 -> Response r0 = payload ->
  GenerateStream g (genReq pr) = replay (pieces ps last) r ->
  exists resp,
    Complete ToLowerWide p elapsed req = Ok resp /\
    let '(calls, r', err) := completeStream ToLowerWide p req (Some fn) in
    err = None /\ Response r' = concat calls /\ Tokens r' = Tokens r /\ Forall (fun t => t <> []) calls /\
    resp_Completion resp `prefix_of` Response r' /\
    (clean stops (cut stops payload) -> resp_Completion resp = Response r').
Proof.
  intros Hg Hf Hm Hfn pr stops payload Hgen Hpay Hstream. unfold Complete, completeStream.
  rewrite Hg, Hf. apply is_nil_false in Hm. rewrite Hm. fold pr. fold stops. rewrite Hgen, Hstream.
  eexists. split; [done|]. pose proof (stream_text fn stops Hfn ps last r) as H.
  destruct (finishStream _ _ _) as [[st r'] err]. destruct H as (-> & -> & -> & Hne & a & b & Hab & HR & Hw).
  cbn [resp_Completion]. rewrite Hpay. unfold payload. rewrite HR, Hab. split_and!; try done.
  - apply strip_window.
  - intros Hc. by apply strip_window_eq.
Qed.
End complete.

(** ** Concrete runs *)

Definition demo_fim : FIMConfig := mkFIM [lit "<|eot|>"] 0.
Definition demo_config : ProviderConfig := mkConfig (Some demo_fim) 64 TierGood.
Definition demo_req : FIMRequest := mkFIMRequest (repeat x61 300) (repeat x62 90) [] 0 [] false.
Definition demo_provider (g : option Generator) : Provider := mkProvider g (lit "coder") demo_config.

Lemma plan_fits_context_witness :
  let q := genReq (planRequest id (demo_provider None) demo_fim demo_req) in
  EstimateTokens (Prompt q) + EstimateTokens (g_Suffix q) + NumPredict q <= NumCtx q /\ NumPredict q = 63.
Proof.
  destruct (plan_fits_context id None (lit "coder") demo_config (demo_provider None) demo_fim demo_req)
    as (_ & _ & _ & H & _).
  - vm_compute. reflexivity.
  - reflexivity.
  - unfold MaxInt. cbn [demo_config cfg_ContextWindow]. lia.
  - vm_compute. discriminate.
  - split; [exact H|]. vm_compute. reflexivity.
Defined.

(** A backend that answers [concat ps ++ last] in one piece or in several. *)
Definition demo_generator (ps : list bytes) (last : bytes) : Generator :=
  mkGenerator (fun _ => Ok (mkGenerated (concat ps ++ last) 1 [] [] None))
    (fun _ => replay (pieces ps last) (mkGenerated (concat ps ++ last) 1 [] [] None)).
Definition demo_stream (ps : list bytes) (last : bytes) : list bytes * GenerateResult * option fimErr :=
  completeStream id (demo_provider (Some (demo_generator ps last))) demo_req (Some (fun _ _ => None)).

(** One stop token at the end, cut in three. *)
Lemma stream_matches_complete_witness :
  exists resp, Complete id (demo_provider (Some (demo_generator [lit "return 1<|"; lit "eo"] (lit "t|>")))) 0 demo_req
                 = Ok resp /\
    concat (demo_stream [lit "return 1<|"; lit "eo"] (lit "t|>")).1.1 = resp_Completion resp /\
    resp_Completion resp = lit "return 1".
Proof.
  destruct (stream_matches_complete id (demo_provider (Some (demo_generator [lit "return 1<|"; lit "eo"] (lit "t|>"))))
    (demo_generator [lit "return 1<|"; lit "eo"] (lit "t|>")) demo_fim demo_req 0 (fun _ _ => None)
    [lit "return 1<|"; lit "eo"] (lit "t|>") (mkGenerated (lit "return 1<|eot|>") 1 [] [] None)
    (mkGenerated (lit "return 1<|eot|>") 1 [] [] None)) as (resp & Hresp & H).
  - reflexivity.
  - reflexivity.
  - discriminate.
  - reflexivity.
  - reflexivity.
  - reflexivity.
  - reflexivity.
  - exists resp. split; [exact Hresp|]. split; [|vm_compute in Hresp; injection Hresp as <-; reflexivity].
    unfold demo_stream. destruct (completeStream _ _ _ _) as [[calls r'] err].
    destruct H as (_ & E & _ & _ & _ & Hc). cbn [fst]. rewrite <-E. symmetry. apply Hc.
    apply tail_of_clean. vm_compute. reflexivity.
Defined.

(** Two stop tokens at the end: the first reaches the callback of a stream. *)
Example stop_token_leaks :
  concat (demo_stream [lit "x<|eot|><|"] (lit "eot|>")).1.1 = lit "x<|eot|>" /\
  stripStopTokens (lit "x<|eot|><|eot|>") [lit "<|eot|>"] = lit "x".
Proof. split; vm_compute; reflexivity. Qed.
