(* ===== verification/Transcript.v ===== *)
(** * Transcript: filing chat calls as conversations (transcript/)

    A call is appended as a raw row; then the history it carries is stitched to
    the conversation it continues, or forked off.  A row keeps its messages as
    JSON text, as the database does.  encoding/json, SHA-256 (in lower-case
    hexadecimal), the clock and the random identifiers are arguments; statements
    of the database succeed, the primary key of the conversations excepted. *)

From Stdlib Require Import Strings.Ascii.
From stdpp Require Import strings list.
From S2P Require Import Prelude GoString GoText Utf8 Request Trim.

#[local] Open Scope string_scope.
#[local] Open Scope Z_scope.
#[local] Open Scope list_scope.

(** ** Comparison form (canonical.go) *)

Record canonicalMsg := mkCanonical {
  c_Role : string; c_Content : string; c_ToolCalls : string; c_ToolName : string; c_ToolCallID : string
}.
#[export] Instance canonicalMsg_eq_dec : EqDecision canonicalMsg.
Proof. solve_decision. Defined.

(** What the package uses of encoding/json: a value of a tool_calls payload and
    its text, and the texts of message lists. *)
Record Json := mkJson {
  json_value : Type;
  json_Unmarshal : string -> option json_value;
  json_isNull : json_value -> bool;
  json_isEmptyArray : json_value -> bool;
  json_Marshal : json_value -> option string;
  json_canonical : list canonicalMsg -> string;
  MarshalMessage : Message -> option string;
  MarshalMessages : list Message -> option string;
  UnmarshalMessages : string -> option (list Message);
}.

(** ** Input and identity (identity.go) *)

Record RecordInput := mkInput {
  ConversationID : string; Request : list Message; RenderedRequest : list Message; Response : Message;
  in_Model : string; in_Provider : string; RouteOutcome : string; SessionHint : string
}.

Definition identityExplicit : string := "explicit".
Definition identityDerived : string := "derived".
Definition identityForked : string := "forked".

Fixpoint firstUserContent (msgs : list Message) : option string :=
  match msgs with
  | [] => None
  | m :: msgs => if string_eqb (Role m) "user" then Some (Content m) else firstUserContent msgs
  end.

Definition systemContent (msgs : list Message) : string :=
  Join (map Content (List.filter (fun m => string_eqb (Role m) "system") msgs)) (String NUL "").

(** ** The decision (stitch.go) *)

Inductive stitchStatus := statusCreated | statusExtended | statusForked | statusIdempotent.
#[export] Instance stitchStatus_eq_dec : EqDecision stitchStatus.
Proof. solve_decision. Defined.

Definition defaultLeaseWindow : Z := 12 * 3600 * 10 ^ 9.
Definition defaultShortThreshold : Z := 2.

Record candidate := mkCandidate { cand_id : string; messages : list Message; messageCount : Z; updatedAt : Z }.
Record stitchDecision := mkDecision { targetID : string; status : stitchStatus; preserveRendered : bool }.

(** [time.UnixMilli], in nanoseconds; differences do not see its origin. *)
Definition UnixMilli (ms : Z) : Z := ms * 10 ^ 6.

(** The first of the longest candidates that satisfy [P]. *)
Definition longest (P : candidate -> bool) (candidates : list candidate) : option candidate :=
  fold_left (fun best c => if P c then match best with
                                       | None => Some c
                                       | Some b => if messageCount b <? messageCount c then Some c else best
                                       end
                           else best) candidates None.

(** ** Rows (store.go) *)

Inductive projection := Pending | ProjectionOK | ProjectionError.

Record rawRow := mkRaw {
  raw_callID : string; raw_key : string; raw_conversationID : string; raw_identitySource : string;
  requestJSON : string; responseJSON : string; raw_model : string; raw_provider : string; routeOutcome : string;
  raw_createdAt : Z; raw_status : projection
}.

Record convRow := mkConv {
  id : string; title : string; row_messages : string; created_at : Z; updated_at : Z; conversation_key : string;
  identity_source : string; latest_call_id : string; message_count : Z; stitch_status : stitchStatus;
  rendered_messages : string
}.

Record db := mkDb { raws : list rawRow; convs : list convRow }.

Inductive recordErr := ErrMarshal | ErrLoad | ErrInsert.

Definition updateWhere {A} (sel : A -> bool) (f : A -> A) (l : list A) : list A := map (fun r => if sel r then f r else r) l.

Definition or_blank (old new : string) : string := if string_eqb old "" then new else old.

Section transcript.
Context (J : Json) (sha256Hex : string -> string).

Definition canonicalToolCallsJSON (raw : string) : string :=
  if string_eqb raw "" then ""
  else match json_Unmarshal J raw with
       | None => raw
       | Some v =>
           if json_isNull J v then ""
           else if json_isEmptyArray J v then ""
           else default raw (json_Marshal J v)
       end.

Definition canonicalMessage (m : Message) : canonicalMsg :=
  mkCanonical (Role m) (Content m) (canonicalToolCallsJSON (ToolCalls m)) (ToolName m) (ToolCallID m).

Definition canonicalMessagesJSON (msgs : list Message) : string := json_canonical J (map canonicalMessage msgs).

(** The loop both comparisons share: the first list against the second. *)
Fixpoint agree (a b : list Message) : bool :=
  match a, b with
  | [], _ => true
  | x :: a, y :: b => bool_decide (canonicalMessage x = canonicalMessage y) && agree a b
  | _ :: _, [] => false
  end.

Definition messagesEqual (a b : list Message) : bool := (len a =? len b) && agree a b.
Definition isStrictPrefix (prefix full : list Message) : bool := (len prefix <? len full) && agree prefix full.

Definition conversationKey (i : RecordInput) : string * string :=
  if negb (string_eqb (ConversationID i) "") then (ConversationID i, identityExplicit)
  else match firstUserContent (Request i) with
       | Some first => (sha256Hex (systemContent (Request i) +:+ String NUL (first +:+ String NUL (SessionHint i))), identityDerived)
       | None => (sha256Hex (canonicalMessagesJSON (Request i)), identityDerived)
       end.

Definition forkID (key : string) (incoming : list Message) : string :=
  key +:+ ":" +:+ String.substring 0 12 (sha256Hex (canonicalMessagesJSON incoming)).

Definition decideStitch (key : string) (incoming : list Message) (candidates : list candidate) (now leaseWindow shortThreshold : Z) :
    stitchDecision :=
  match candidates with
  | [] => mkDecision key statusCreated false
  | _ =>
      match List.find (fun c => messagesEqual (messages c) incoming) candidates with
      | Some c => mkDecision (cand_id c) statusIdempotent false
      | None =>
          match longest (fun c => isStrictPrefix (messages c) incoming) candidates with
          | Some ext =>
              let stale := leaseWindow <? Sub now (UnixMilli (updatedAt ext)) in
              let short := messageCount ext <=? shortThreshold in
              if stale && short then mkDecision (forkID key incoming) statusForked false
              else mkDecision (cand_id ext) statusExtended false
          | None =>
              match longest (fun c => isStrictPrefix incoming (messages c)) candidates with
              | Some longer => mkDecision (cand_id longer) statusIdempotent true
              | None => mkDecision (forkID key incoming) statusForked false
              end
          end
      end
  end.

(** *** Reading and writing conversations *)

Definition toCandidate (r : convRow) : option candidate :=
  match UnmarshalMessages J (row_messages r) with
  | Some msgs => Some (mkCandidate (id r) msgs (len msgs) (updated_at r))
  | None => None
  end.

Definition shares_key (key : string) (r : convRow) : bool := string_eqb (conversation_key r) key || string_eqb (id r) key.

(** In the order of the rows; a row that does not decode fails the load. *)
Definition loadCandidates (key : string) (rows : list convRow) : option (list candidate) :=
  mapM toCandidate (List.filter (shares_key key) rows).

Definition renderedIncomingJSON (i : RecordInput) : option string :=
  match RenderedRequest i with
  | [] => Some ""
  | rendered => MarshalMessages J (rendered ++ [Response i])
  end.

(** Text of more than [max] runes loses the rest. *)
Definition trimRunes (s : string) (max : nat) : string :=
  let r := runes (String.list_byte_of_string s) in
  if bool_decide (length r <= max)%nat then s
  else String.string_of_list_byte (concat (map EncodeRune (take max r))).

Definition conversationTitle (msgs : list Message) : string :=
  match firstUserContent msgs with
  | Some content => trimRunes content 80
  | None => ""
  end.

Definition newRow (dec : stitchDecision) (key source callID : string) (incoming : list Message) (json rendered : string)
    (now : Z) : convRow :=
  mkConv (targetID dec) (conversationTitle incoming) json now now key
    (if decide (status dec = statusForked) then identityForked else source) callID (len incoming) (status dec) rendered.

Definition extendRow (key source callID : string) (incoming : list Message) (json rendered : string) (now : Z) (r : convRow) : convRow :=
  mkConv (id r) (or_blank (title r) (conversationTitle incoming)) json (created_at r) now key
    (or_blank (identity_source r) source) callID (len incoming) statusExtended rendered.

Definition refreshRow (key source callID : string) (rendered : option string) (now : Z) (r : convRow) : convRow :=
  mkConv (id r) (title r) (row_messages r) (created_at r) now (or_blank (conversation_key r) key)
    (or_blank (identity_source r) source) callID (message_count r) statusIdempotent (default (rendered_messages r) rendered).

Definition upsertCanonical (dec : stitchDecision) (key source callID : string) (incoming : list Message) (rendered : string)
    (now : Z) (rows : list convRow) : result recordErr (list convRow) :=
  match status dec with
  | statusCreated | statusForked =>
      match MarshalMessages J incoming with
      | None => Err ErrMarshal
      | Some json =>
          if existsb (fun r => string_eqb (id r) (targetID dec)) rows then Err ErrInsert
          else Ok (rows ++ [newRow dec key source callID incoming json rendered now])
      end
  | statusExtended =>
      match MarshalMessages J incoming with
      | None => Err ErrMarshal
      | Some json => Ok (updateWhere (fun r => string_eqb (id r) (targetID dec))
                           (extendRow key source callID incoming json rendered now) rows)
      end
  | statusIdempotent =>
      Ok (updateWhere (fun r => string_eqb (id r) (targetID dec))
            (refreshRow key source callID (if preserveRendered dec then None else Some rendered) now) rows)
  end.

(** [project] without its last write: the decision and the rows. *)
Definition project (callID key source : string) (i : RecordInput) (now leaseWindow shortThreshold : Z) (rows : list convRow) :
    result recordErr (stitchDecision * list convRow) :=
  let incoming := Request i ++ [Response i] in
  match renderedIncomingJSON i with
  | None => Err ErrMarshal
  | Some rendered =>
      match loadCandidates key rows with
      | None => Err ErrLoad
      | Some candidates =>
          let dec := decideStitch key incoming candidates (UnixMilli now) leaseWindow shortThreshold in
          match upsertCanonical dec key source callID incoming rendered now rows with
          | Err e => Err e
          | Ok rows => Ok (dec, rows)
          end
      end
  end.

Definition set_raw (conversationID identitySource : string) (s : projection) (r : rawRow) : rawRow :=
  mkRaw (raw_callID r) (raw_key r) conversationID identitySource (requestJSON r) (responseJSON r) (raw_model r)
    (raw_provider r) (routeOutcome r) (raw_createdAt r) s.

Definition finalizeRawOK (callID : string) (dec : stitchDecision) (key : string) (l : list rawRow) : list rawRow :=
  updateWhere (fun r => string_eqb (raw_callID r) callID)
    (fun r => if string_eqb (targetID dec) key then set_raw (raw_conversationID r) (raw_identitySource r) ProjectionOK r
              else set_raw (targetID dec) identityForked ProjectionOK r) l.

Definition finalizeRawError (callID : string) (l : list rawRow) : list rawRow :=
  updateWhere (fun r => string_eqb (raw_callID r) callID)
    (fun r => set_raw (raw_conversationID r) (raw_identitySource r) ProjectionError r) l.

(** [Record], [callID] being the new identifier. *)
Definition RecordCall (callID : string) (i : RecordInput) (now leaseWindow shortThreshold : Z) (s : db) : db * option recordErr :=
  let '(key, source) := conversationKey i in
  match MarshalMessages J (Request i), MarshalMessage J (Response i) with
  | Some req, Some resp =>
      let l := raws s ++ [mkRaw callID key key source req resp (in_Model i) (in_Provider i) (RouteOutcome i) now Pending] in
      match project callID key source i now leaseWindow shortThreshold (convs s) with
      | Ok (dec, rows) => (mkDb (finalizeRawOK callID dec key l) rows, None)
      | Err _ => (mkDb (finalizeRawError callID l) (convs s), None)
      end
  | _, _ => (s, Some ErrMarshal)
  end.
End transcript.

(** ** Histories

    The history of a row is the comparison form of its messages. *)

Section facts.
Context (J : Json) (sha256Hex : string -> string).
Notation canonicalMessage := (canonicalMessage J).
Notation canonical := (map canonicalMessage).

Definition history_of (r : convRow) : option (list canonicalMsg) := option_map canonical (UnmarshalMessages J (row_messages r)).

(** The history filed under an identifier. *)
Definition history (rows : list convRow) (i : string) : option (list canonicalMsg) :=
  match List.find (fun r => string_eqb (id r) i) rows with
  | Some r => history_of r
  | None => None
  end.

Lemma agree_prefix a b : agree J a b = true <-> canonical a `prefix_of` canonical b.
Proof.
  revert b. induction a as [|x a IH]; intros b; cbn; [split; [intros _; apply prefix_nil|done]|].
  destruct b as [|y b]; cbn.
  - split; [done|]. intros H. by apply prefix_nil_not in H.
  - rewrite andb_true_iff, bool_decide_eq_true, IH. split.
    + intros [-> H]. by apply prefix_cons.
    + intros H. split; [by apply prefix_cons_inv_1 in H|by apply prefix_cons_inv_2 in H].
Qed.

Lemma messagesEqual_spec a b : messagesEqual J a b = true -> canonical a = canonical b.
Proof.
  unfold messagesEqual. rewrite andb_true_iff, agree_prefix, Z.eqb_eq. intros [Hl [k Hk]].
  assert (k = []) as ->; [|by rewrite app_nil_r in Hk].
  apply (f_equal length) in Hk. rewrite length_app, !length_map in Hk. unfold len in Hl. apply nil_length_inv. lia.
Qed.

Lemma strict_spec a b : isStrictPrefix J a b = true -> canonical a `prefix_of` canonical b.
Proof. unfold isStrictPrefix. rewrite andb_true_iff, agree_prefix. by intros [_ H]. Qed.

Lemma longest_spec P l c : longest P l = Some c -> c ∈ l /\ P c = true.
Proof.
  unfold longest. assert (forall best, fold_left (fun best c => if P c then match best with
      | None => Some c | Some b => if messageCount b <? messageCount c then Some c else best end else best) l best = Some c ->
      best = Some c \/ (c ∈ l /\ P c = true)) as H.
  { induction l as [|x l IH]; intros best Hb; [by left|]. cbn [fold_left] in Hb. apply IH in Hb as [Hb|[H1 H2]].
    - destruct (P x) eqn:Ex; [|by left]. destruct best as [b|]; [destruct (_ <? _); [|by left]|];
        injection Hb as ->; right; (split; [by left|done]).
    - right. split; [by right|done]. }
  intros Hc. by apply H in Hc as [Hc|Hc].
Qed.

(** What a decision says of the incoming history. *)
Definition decided (key : string) (incoming : list Message) (cands : list candidate) (dec : stitchDecision) : Prop :=
  match status dec with
  | statusCreated => cands = [] /\ targetID dec = key
  | statusForked => targetID dec = forkID J sha256Hex key incoming
  | statusExtended => exists c, c ∈ cands /\ targetID dec = cand_id c /\ canonical (messages c) `prefix_of` canonical incoming
  | statusIdempotent => exists c, c ∈ cands /\ targetID dec = cand_id c /\ canonical incoming `prefix_of` canonical (messages c)
  end.

Lemma decideStitch_spec key incoming cands now lease short :
  decided key incoming cands (decideStitch J sha256Hex key incoming cands now lease short).
Proof.
  unfold decideStitch. destruct cands as [|c0 l]; [by split|]. set (cands := c0 :: l).
  destruct (List.find _ cands) as [c|] eqn:Ef.
  { apply find_some in Ef as [Hin%list_elem_of_In He%messagesEqual_spec]. exists c. by rewrite He. }
  clear Ef. destruct (longest _ cands) as [ext|] eqn:El.
  { apply longest_spec in El as [Hin Hp%strict_spec]. destruct (_ && _); [done|]. by exists ext. }
  clear El. destruct (longest _ cands) as [c|] eqn:El; [|done].
  apply longest_spec in El as [Hin Hp%strict_spec]. by exists c.
Qed.

(** ** Rows under an update *)

Lemma find_app_new (rows : list convRow) (n : convRow) x :
  List.find (fun r => string_eqb (id r) x) (rows ++ [n]) =
  match List.find (fun r => string_eqb (id r) x) rows with
  | Some r => Some r
  | None => if string_eqb (id n) x then Some n else None
  end.
Proof. induction rows as [|r rows IH]; cbn; [done|]. by destruct (string_eqb (id r) x). Qed.

Lemma find_update (f : convRow -> convRow) t rows x :
  (forall r, id (f r) = id r) ->
  List.find (fun r => string_eqb (id r) x) (updateWhere (fun r => string_eqb (id r) t) f rows) =
  option_map (fun r => if string_eqb (id r) t then f r else r) (List.find (fun r => string_eqb (id r) x) rows).
Proof.
  intros Hf. induction rows as [|r rows IH]; cbn; [done|].
  destruct (string_eqb (id r) t) eqn:Et; rewrite ?Hf; destruct (string_eqb (id r) x); cbn; rewrite ?Et; done.
Qed.

Lemma update_ids (f : convRow -> convRow) sel rows : (forall r, id (f r) = id r) -> map id (updateWhere sel f rows) = map id rows.
Proof. intros Hf. unfold updateWhere. rewrite map_map. apply map_ext. intros r. by destruct (sel r). Qed.

Lemma find_id (rows : list convRow) r : NoDup (map id rows) -> r ∈ rows -> List.find (fun r' => string_eqb (id r') (id r)) rows = Some r.
Proof.
  induction rows as [|r' rows IH]; cbn; [intros _ H; by apply elem_of_nil in H|]. rewrite NoDup_cons. intros [Hn Hd] Hin.
  destruct (string_eqb (id r') (id r)) eqn:E.
  - apply bool_decide_eq_true in E. apply elem_of_cons in Hin as [->|Hin]; [done|]. exfalso. apply Hn. rewrite E.
    apply list_elem_of_In, in_map, list_elem_of_In, Hin.
  - apply elem_of_cons in Hin as [->|Hin]; [|by apply IH]. exfalso. by apply bool_decide_eq_false in E.
Qed.

Lemma candidate_row key rows cands c : loadCandidates J key rows = Some cands -> c ∈ cands ->
  exists r, r ∈ rows /\ shares_key key r = true /\ id r = cand_id c /\ UnmarshalMessages J (row_messages r) = Some (messages c).
Proof.
  intros Hl Hc. apply mapM_Some in Hl. apply list_elem_of_lookup in Hc as [k Hk].
  destruct (Forall2_lookup_r _ _ _ _ _ Hl Hk) as (r & Hr & Ht).
  apply list_elem_of_lookup_2, list_elem_of_In, filter_In in Hr as [Hin Hs]. apply list_elem_of_In in Hin.
  exists r. unfold toCandidate in Ht. destruct (UnmarshalMessages J (row_messages r)); [|done]. by injection Ht as <-.
Qed.

Lemma candidate_history key rows cands c : NoDup (map id rows) -> loadCandidates J key rows = Some cands -> c ∈ cands ->
  history rows (cand_id c) = Some (canonical (messages c)).
Proof.
  intros Hd Hl Hc. destruct (candidate_row _ _ _ _ Hl Hc) as (r & Hr & _ & Hi & Hu).
  unfold history. rewrite <- Hi, (find_id _ _ Hd Hr). unfold history_of. by rewrite Hu.
Qed.

(** The rows after a call hold what they held, and more. *)
Definition kept (rows rows' : list convRow) : Prop :=
  forall x h, history rows x = Some h -> exists h', history rows' x = Some h' /\ h `prefix_of` h'.

(** The call is filed under [t], and no other history changes. *)
Definition filed (t : string) (incoming : list Message) (rows rows' : list convRow) : Prop :=
  (exists h, history rows' t = Some h /\ canonical incoming `prefix_of` h) /\ forall x, x <> t -> history rows' x = history rows x.

(** Marshal, then Unmarshal, preserves the comparison form, as they do on valid text. *)
Definition faithful (msgs : list Message) : Prop :=
  forall json, MarshalMessages J msgs = Some json -> option_map canonical (UnmarshalMessages J json) = Some (canonical msgs).

Lemma history_insert rows n x : id n ∉ map id rows ->
  history (rows ++ [n]) x = if string_eqb (id n) x then history_of n else history rows x.
Proof.
  intros Hn. unfold history. rewrite find_app_new. destruct (List.find _ rows) as [r|] eqn:Ef.
  - destruct (string_eqb (id n) x) eqn:En; [|done]. apply find_some in Ef as [Hin Ex].
    apply bool_decide_eq_true in Ex, En. exfalso. apply Hn. rewrite En, <- Ex. by apply list_elem_of_In, in_map.
  - by destruct (string_eqb (id n) x).
Qed.

Lemma history_update (f : convRow -> convRow) t rows x : (forall r, id (f r) = id r) ->
  x <> t -> history (updateWhere (fun r => string_eqb (id r) t) f rows) x = history rows x.
Proof.
  intros Hf Hx. unfold history. rewrite (find_update _ _ _ _ Hf). destruct (List.find _ rows) as [r|] eqn:Ef; [|done].
  apply find_some in Ef as [_ Ei]. apply bool_decide_eq_true in Ei. cbn [option_map].
  destruct (string_eqb (id r) t) eqn:Et; [|done]. apply bool_decide_eq_true in Et. congruence.
Qed.

Lemma history_updated (f : convRow -> convRow) t rows h h' : (forall r, id (f r) = id r) -> history rows t = Some h ->
  (forall r, history_of r = Some h -> history_of (f r) = Some h') ->
  history (updateWhere (fun r => string_eqb (id r) t) f rows) t = Some h'.
Proof.
  unfold history. intros Hf Hh Hs. rewrite (find_update _ _ _ _ Hf). destruct (List.find _ rows) as [r|] eqn:Ef; [|done].
  apply find_some in Ef as [_ Ei]. cbn [option_map]. rewrite Ei. by apply Hs.
Qed.

Lemma filed_kept t incoming rows rows' h h' : history rows t = Some h -> history rows' t = Some h' -> h `prefix_of` h' ->
  canonical incoming `prefix_of` h' -> (forall x, x <> t -> history rows' x = history rows x) ->
  kept rows rows' /\ filed t incoming rows rows'.
Proof.
  intros Hh Hh' Hp Hi Ho. split; [|split; [by exists h'|done]]. intros x k Hk. destruct (decide (x = t)) as [->|Hx].
  - exists h'. split; [done|]. by simplify_eq.
  - exists k. rewrite Ho by done. by split.
Qed.

Lemma insert_keeps rows n incoming : id n ∉ map id rows -> NoDup (map id rows) -> history_of n = Some (canonical incoming) ->
  NoDup (map id (rows ++ [n])) /\ kept rows (rows ++ [n]) /\ filed (id n) incoming rows (rows ++ [n]).
Proof.
  intros Hn Hd Hh. split_and!.
  - rewrite map_app. apply NoDup_app. split_and!; [done| |apply NoDup_singleton].
    intros x Hx Hx'. apply list_elem_of_singleton in Hx'. cbn in Hx'. by subst.
  - intros x h Hx. exists h. split; [|done]. rewrite history_insert by done. destruct (string_eqb (id n) x) eqn:En; [|done].
    apply bool_decide_eq_true in En. exfalso. unfold history in Hx.
    destruct (List.find _ rows) as [r|] eqn:Ef; [|done]. apply find_some in Ef as [Hin Ex]. apply bool_decide_eq_true in Ex.
    apply Hn. rewrite En, <- Ex. by apply list_elem_of_In, in_map.
  - split.
    + exists (canonical incoming). rewrite history_insert by done. unfold string_eqb. rewrite bool_decide_true by done. by split.
    + intros x Hx. rewrite history_insert by done. unfold string_eqb. by rewrite bool_decide_false by congruence.
Qed.

Lemma upsert_keeps dec key source callID incoming rendered now rows cands rows' :
  NoDup (map id rows) -> loadCandidates J key rows = Some cands -> decided key incoming cands dec -> faithful incoming ->
  upsertCanonical J dec key source callID incoming rendered now rows = Ok rows' ->
  NoDup (map id rows') /\ kept rows rows' /\ filed (targetID dec) incoming rows rows'.
Proof.
  intros Hd Hl Hdec Hf. unfold upsertCanonical, decided in *.
  assert (forall json n, MarshalMessages J incoming = Some json -> row_messages n = json -> id n = targetID dec ->
    (if existsb (fun r => string_eqb (id r) (targetID dec)) rows then Err ErrInsert else Ok (rows ++ [n])) = Ok rows' ->
    NoDup (map id rows') /\ kept rows rows' /\ filed (targetID dec) incoming rows rows') as Hins.
  { intros json n Hm Hn Hi. destruct (existsb _ rows) eqn:Ee; [done|]. intros [= <-]. rewrite <- Hi.
    apply insert_keeps; [|done|unfold history_of; rewrite Hn; by apply Hf].
    intros Hin%list_elem_of_In%in_map_iff. destruct Hin as (r & Hr & Hin). apply not_true_iff_false in Ee. apply Ee.
    apply existsb_exists. exists r. split; [done|]. apply bool_decide_eq_true. congruence. }
  destruct (status dec) eqn:Es.
  - destruct (MarshalMessages J incoming) as [json|] eqn:Em; [|done]. by eapply Hins.
  - destruct (MarshalMessages J incoming) as [json|] eqn:Em; [|done]. intros [= <-]. destruct Hdec as (c & Hc & Ht & Hp).
    rewrite update_ids by done. split; [done|]. pose proof (candidate_history _ _ _ _ Hd Hl Hc) as Hh. rewrite <- Ht in Hh.
    eapply filed_kept; [done| |exact Hp|done|by intros; apply history_update].
    eapply history_updated; [done|done|]. intros r _. by apply Hf.
  - destruct (MarshalMessages J incoming) as [json|] eqn:Em; [|done]. by eapply Hins.
  - intros [= <-]. destruct Hdec as (c & Hc & Ht & Hp). rewrite update_ids by done. split; [done|].
    pose proof (candidate_history _ _ _ _ Hd Hl Hc) as Hh. rewrite <- Ht in Hh.
    eapply filed_kept; [done| |reflexivity|done|by intros; apply history_update].
    eapply history_updated; [done|done|]. intros r Hr. exact Hr.
Qed.

(** ** Failures of a projection *)

(** Why a projection fails; only a fork meets an identifier in use. *)
Definition projection_fails (key : string) (i : RecordInput) (rows : list convRow) : Prop :=
  renderedIncomingJSON J i = None \/ loadCandidates J key rows = None \/
  MarshalMessages J (Request i ++ [Response i]) = None \/
  forkID J sha256Hex key (Request i ++ [Response i]) ∈ map id rows.

Lemma mapM_nil {A B} (f : A -> option B) l : mapM f l = Some [] -> l = [].
Proof. intros H%mapM_Some. by inversion H. Qed.

Lemma created_fresh key rows r : loadCandidates J key rows = Some [] -> r ∈ rows -> id r <> key.
Proof.
  unfold loadCandidates. intros Hf%mapM_nil Hin Hk. apply list_elem_of_In in Hin.
  assert (In r (List.filter (shares_key key) rows)) as H.
  { apply filter_In. split; [done|]. unfold shares_key, string_eqb. rewrite Hk, (bool_decide_true (key = key)) by done.
    apply orb_true_r. }
  by rewrite Hf in H.
Qed.

Lemma project_fails callID key source i now lease short rows e :
  project J sha256Hex callID key source i now lease short rows = Err e -> projection_fails key i rows.
Proof.
  unfold project, projection_fails. set (incoming := Request i ++ [Response i]).
  destruct (renderedIncomingJSON J i) as [rendered|]; [|by left].
  destruct (loadCandidates J key rows) as [cands|] eqn:El; [|by right; left].
  pose proof (decideStitch_spec key incoming cands (UnixMilli now) lease short) as Hdec.
  destruct (decideStitch _ _ _ _ _ _ _ _) as [t st p]. unfold upsertCanonical, decided in *. cbn [status targetID] in *.
  right. right. destruct (MarshalMessages J incoming) as [json|]; [right|by left].
  destruct st; try done; (destruct (existsb _ rows) eqn:Ee; [|done]).
  all: apply existsb_exists in Ee as (r & Hr%list_elem_of_In & Ei%bool_decide_eq_true).
  - destruct Hdec as [-> ->]. by destruct (created_fresh _ _ _ El Hr).
  - rewrite <- Hdec, <- Ei. by apply list_elem_of_In, in_map, list_elem_of_In.
Qed.

Lemma project_keeps callID key source i now lease short rows dec rows' :
  NoDup (map id rows) -> faithful (Request i ++ [Response i]) ->
  project J sha256Hex callID key source i now lease short rows = Ok (dec, rows') ->
  NoDup (map id rows') /\ kept rows rows' /\ filed (targetID dec) (Request i ++ [Response i]) rows rows'.
Proof.
  intros Hd Hf. unfold project. set (incoming := Request i ++ [Response i]) in *.
  destruct (renderedIncomingJSON J i) as [rendered|]; [|done].
  destruct (loadCandidates J key rows) as [cands|] eqn:El; [|done].
  pose proof (decideStitch_spec key incoming cands (UnixMilli now) lease short) as Hdec.
  destruct (upsertCanonical _ _ _ _ _ _ _ _ _) as [rows1|] eqn:Eu; [|done]. intros [= <- <-]. by eapply upsert_keeps.
Qed.

(** ** Raw rows *)

Lemma update_last {A} (sel : A -> bool) f l x : (forall y, y ∈ l -> sel y = false) -> sel x = true ->
  updateWhere sel f (l ++ [x]) = l ++ [f x].
Proof.
  intros Hl Hx. unfold updateWhere. rewrite map_app. cbn. rewrite Hx. f_equal. rewrite <- (map_id l) at 2.
  apply map_ext_in. intros y Hy%list_elem_of_In. by rewrite Hl.
Qed.

Lemma fresh_call callID (l : list rawRow) : callID ∉ map raw_callID l -> forall r, r ∈ l -> string_eqb (raw_callID r) callID = false.
Proof.
  intros Hn r Hr. apply bool_decide_eq_false. intros <-. apply Hn. by apply list_elem_of_In, in_map, list_elem_of_In.
Qed.
End facts.

(** C15: Recording a call under a fresh identifier.  If it is refused, nothing is
    persisted.  Otherwise exactly one raw row is appended, with the request and
    response as marshalled; identifiers of conversations stay distinct, and no
    conversation loses a message: each history that was stored is a prefix of the
    one stored now.  Either the raw row says "ok" and names a conversation whose
    history begins with the call's whole exchange, every other history being as it
    was; or it says "error", the conversations are untouched, and a marshalling, a
    stored row that does not decode, or a fork whose identifier is taken explains
    why.  The hypothesis on the text is that the exchange survives encoding/json. *)
Theorem record_keeps (J : Json) sha256Hex callID i now leaseWindow shortThreshold s :
  NoDup (map id (convs s)) -> callID ∉ map raw_callID (raws s) -> faithful J (Request i ++ [Response i]) ->
  let '(s', e) := RecordCall J sha256Hex callID i now leaseWindow shortThreshold s in
  match e with
  | Some _ => s' = s
  | None =>
      NoDup (map id (convs s')) /\ kept J (convs s) (convs s') /\
      exists r, raws s' = raws s ++ [r] /\ raw_callID r = callID /\
        MarshalMessages J (Request i) = Some (requestJSON r) /\ MarshalMessage J (Response i) = Some (responseJSON r) /\
        (raw_status r = ProjectionOK /\ filed J (raw_conversationID r) (Request i ++ [Response i]) (convs s) (convs s') \/
         raw_status r = ProjectionError /\ convs s' = convs s /\
         projection_fails J sha256Hex (conversationKey J sha256Hex i).1 i (convs s))
  end.
Proof.
  intros Hd Hc Hf. unfold RecordCall. destruct (conversationKey J sha256Hex i) as [key source].
  destruct (MarshalMessages J (Request i)) as [req|]; [|done]. destruct (MarshalMessage J (Response i)) as [resp|]; [|done].
  pose proof (fresh_call _ _ Hc) as Hfresh.
  destruct (project _ _ _ _ _ _ _ _ _ _) as [[dec rows]|e] eqn:Ep; cbn [convs raws].
  - destruct (project_keeps _ _ _ _ _ _ _ _ _ _ _ _ Hd Hf Ep) as (H1 & H2 & H3). split; [done|]. split; [done|].
    eexists. unfold finalizeRawOK. rewrite update_last; [|done|by apply bool_decide_eq_true]. split; [done|].
    destruct (string_eqb (targetID dec) key) eqn:Et; cbn; split_and!; try done; left; (split; [done|]); [|done].
    apply bool_decide_eq_true in Et. by rewrite <- Et.
  - apply project_fails in Ep. split; [done|]. split; [intros x h Hx; by exists h|].
    eexists. unfold finalizeRawError. rewrite update_last; [|done|by apply bool_decide_eq_true].
    split; [done|]. cbn. split_and!; try done. by right.
Qed.

(** ** A conversation, its fork, and a call sent again

    The texts are lines of fields, which do not hold the separators. *)

Definition plain_field (m : Message) : string := Join [Role m; Content m; ToolCalls m; ToolName m; ToolCallID m] "|".

Definition plain_message (s : string) : option Message :=
  match Split "|"%char s with
  | [r; c; t; n; i] => Some (mkMessage r c t n i)
  | _ => None
  end.

Definition plain_json : Json :=
  mkJson string Some (fun v => string_eqb v "null") (fun v => string_eqb v "[]") Some
    (fun l => Join (map c_Content l) ";") (fun m => Some (plain_field m)) (fun l => Some (Join (map plain_field l) ";"))
    (fun s => mapM plain_message (Split ";"%char s)).

Definition demo_user (s : string) : Message := mkMessage "user" s "" "" "".
Definition demo_reply (s : string) : Message := mkMessage "assistant" s "" "" "".
Definition demo_input (req : list Message) (reply : string) : RecordInput :=
  mkInput "k" req [] (demo_reply reply) "m" "p" "" "".

Definition demo_opening : list Message := [demo_user "hi"].
Definition demo_second : list Message := demo_opening ++ [demo_reply "yo"; demo_user "again"].
Definition demo_third : list Message := demo_second ++ [demo_reply "ok"; demo_user "more"].

Definition demo_hour : Z := 3600 * 1000.
Definition demo_call (callID : string) (i : RecordInput) (hours : Z) (s : db) : db :=
  (RecordCall plain_json (fun s => s) callID i (hours * demo_hour) defaultLeaseWindow defaultShortThreshold s).1.

Definition demo_1 : db := demo_call "1" (demo_input demo_opening "yo") 0 (mkDb [] []).
Definition demo_2 : db := demo_call "2" (demo_input demo_second "ok") 13 demo_1.
Definition demo_3 : db := demo_call "3" (demo_input demo_third "fine") 14 demo_2.
Definition demo_4 : db := demo_call "4" (demo_input demo_second "ok") 15 demo_3.

(** The second call forks, the third extends the fork; sent again, the second call
    resolves to the identifier of that fork, cannot insert it, and is not filed. *)
Example fork_sent_again :
  map (fun r => (id r, message_count r)) (convs demo_4) = [("k", 2); ("k:hi;yo;again;", 6)] /\
  map (fun r => (raw_conversationID r, raw_status r)) (raws demo_4) =
    [("k", ProjectionOK); ("k:hi;yo;again;", ProjectionOK); ("k:hi;yo;again;", ProjectionOK); ("k", ProjectionError)].
Proof. by vm_compute. Qed.

(** Sent again before the fork grows, it is found. *)
Example fork_sent_again_at_once :
  map (fun r => (id r, message_count r)) (convs (demo_call "4" (demo_input demo_second "ok") 15 demo_2)) =
    [("k", 2); ("k:hi;yo;again;", 4)].
Proof. by vm_compute. Qed.

Lemma record_keeps_witness :
  kept plain_json (convs demo_1) (convs demo_2) /\
  (exists r, raws demo_2 = raws demo_1 ++ [r] /\
     (raw_status r = ProjectionOK /\ filed plain_json (raw_conversationID r) (demo_second ++ [demo_reply "ok"]) (convs demo_1) (convs demo_2))) /\
  map id (convs demo_2) = ["k"; "k:hi;yo;again;"].
Proof.
  assert (NoDup (map id (convs demo_1))) as H1 by (by apply (bool_decide_unpack _); vm_compute).
  assert ("2" ∉ map raw_callID (raws demo_1)) as H2 by (by apply (bool_decide_unpack _); vm_compute).
  assert (faithful plain_json (demo_second ++ [demo_reply "ok"])) as H3 by (intros json [= <-]; by vm_compute).
  pose proof (record_keeps plain_json (fun s => s) "2" (demo_input demo_second "ok") (13 * demo_hour)
    defaultLeaseWindow defaultShortThreshold demo_1 H1 H2 H3) as H.
  unfold demo_2, demo_call. destruct (RecordCall plain_json (fun s => s) "2" _ _ _ _ demo_1) as [s' [e|]] eqn:E.
  - vm_compute in E. discriminate E.
  - destruct H as (_ & Hk & r & Hr & _ & _ & _ & [Hok|(Hs & _)]).
    + split; [exact Hk|]. split; [by exists r|]. vm_compute in E. injection E as <-. by vm_compute.
    + exfalso. vm_compute in E. injection E as <-. vm_compute in Hr. injection Hr as <-. discriminate Hs.
Defined.
